(* ===== verification/_CoqProject ===== *)
-Q . S2P
Prelude.v
GoSort.v
GoState.v
GoStrings.v
GoRunes.v
Base64.v
Json.v
Envelope.v
JsonPointer.v
Patch.v
CreationRefs.v
Query.v
Handler.v
Server.v
MailTypes.v
ImapConvert.v
ChangeTracker.v
Broadcaster.v
ImapChanges.v
Keywords.v
MailQuery.v
MethodSupport.v
ImapStores.v
ClientPool.v
HttpFront.v
ExtStore.v
ImapMailboxes.v
Mailboxes.v
ImapEmails.v
EmailQuery.v
Identities.v
AccountMethods.v
ManageSieve.v
SieveScripts.v
SieveMethods.v
GoTime.v
TextCodecs.v
GoJson.v
CalendarTypes.v
CalendarEvents.v
Calendars.v
CardTypes.v
CardQuery.v
Contacts.v
EmailGet.v
MimeBody.v
MessageId.v
MimeParse.v
EmailSet.v
EmailOps.v
BlobMethods.v
FileNodes.v
Principals.v
Submissions.v
ImapSubmissions.v
CalendarScheduling.v
CalendarMethods.v
