(* ===== verification/Prelude.v ===== *)
(** * imap-jmap: a verification development

    imap-jmap is a JMAP server (RFC 8620, 8621, 8887 and the calendar, contact,
    file and sharing drafts) in front of IMAP, SMTP, ManageSieve, CalDAV and
    CardDAV servers.  This library models its protocol core, its mail, contact,
    sieve, file node, principal and blob methods, and the IMAP/SMTP and
    ManageSieve backends below them, and proves what makes them correct.

    ** The program and its parts

    A client posts a request to the API endpoint ([jmap/server.go]) or sends it
    over a WebSocket ([jmap/websocket.go]), behind an authentication middleware
    ([jmap/auth_middleware.go]).  The endpoint checks the request and, call by
    call, the capability, the limits, the account and the arguments, replaces
    result references by values of earlier responses, and runs the method
    handler that [jmap/jmaphandler] has registered.  Handlers share the
    operations of [jmap/jmapcore]: patches, creation references, query
    positions, anchors, filters and deltas.  They call a backend through an
    interface: [jmap/imapsmtp] reads and writes mail over IMAP under ids derived
    from folder names and UIDs ([imap/convert.go]), with a connection pool and
    documents in an extension store ([jmap/jmapextstore]); [jmap/managesieve]
    keeps scripts on a ManageSieve server; [jmap/nextcloud] keeps contacts,
    calendars and files.  What changed since a state is answered by a tracker
    ([jmap/jmappush/push.go]) or from the IMAP markers
    ([jmap/imapsmtp/change_tracker.go]), and pushed to subscribers by the
    broadcaster ([jmap/jmappush/broadcaster.go]).

    ** Files

    The language and its library:
    - [Prelude]: results (Go's value and error pairs), 64-bit wrap-around,
      tactics, the hint database [golib].
    - [GoSort], [GoState], [GoStrings], [GoRunes], [Base64], [GoTime],
      [GoJson]: stable sorting; the state monad [St] and its invariants
      ([ensures]); Go strings as bytes with the functions of [strings],
      [strconv] and [fmt] the server calls; UTF-8; base64; package [time];
      [encoding/json] as a class [Wire] with the law [WireOk].
    - [Json]: the dynamic JSON values; a Go map is an association list whose
      order is the order of one [range]; [json_eqv] forgets it.

    The protocol core:
    - [Envelope], [JsonPointer], [Patch], [CreationRefs], [Query]:
      [jmap/jmapcore].
    - [Handler], [MethodSupport]: [jmap/jmapauth/auth.go], [jmap/jmaphandler],
      [jmap/jmapcopy/copy.go], and the state that handlers run on.
    - [Server]: handleAPI of [jmap/server.go] and what it calls, the request
      loop of [jmap/websocket.go].
    - [HttpFront]: the routes, the middleware, the login endpoint, the token
      store ([jmap/auth_memory.go]), upload and download ([jmap/blobs.go]).
    - [ChangeTracker], [Broadcaster]: [jmap/jmappush], the push filters of
      [jmap/eventsource.go] and [jmap/websocket.go].

    Mail, from the methods down to the backend:
    - [MailTypes], [Keywords], [MailQuery]: the objects of
      [jmap/jmapmail/mail.go], keywords and roles, filters and sorting.
    - [EmailQuery], [Mailboxes], [Identities], [AccountMethods]: the Email
      query and Thread methods, the Mailbox methods, identities and their
      backend, push subscriptions, vacation response and quotas.
    - [EmailGet], [EmailSet], [EmailOps], [MimeBody], [MimeParse],
      [MessageId]: the remaining Email methods, SearchSnippet, the parsing of
      messages and message ids.
    - [Submissions], [ImapSubmissions]: the EmailSubmission methods and the
      submissions of [jmap/imapsmtp/submission.go].
    - [ImapConvert], [ImapChanges], [ImapStores], [ClientPool], [ExtStore],
      [ImapMailboxes], [ImapEmails]: [imap/convert.go] and [jmap/imapsmtp].

    The other data types:
    - [BlobMethods]: [jmap/blob_handlers.go], [jmap/jmapblob].
    - [FileNodes]: [jmap/jmapfilenode], the query of
      [jmap/nextcloud/filenode.go].
    - [Principals]: [jmap/principals_handlers.go], [jmap/jmapprincipals].
    - [CardTypes], [CardQuery], [Contacts]: [jmap/jmapcontacts].
    - [TextCodecs]: [jmap/tags.go], the escaping of iCalendar text.
    - [CalendarTypes], [CalendarEvents], [Calendars], [CalendarScheduling],
      [CalendarMethods]: [jmap/jmapcalendar], the data types, recurrence and
      queries, the methods of calendars and notifications, scheduling messages,
      and the CalendarEvent methods.
    - [ManageSieve], [SieveScripts], [SieveMethods]: the wire protocol, the
      backend and the methods of [jmap/managesieve] and [jmap/jmapsieve].

    Definitions have the names of the Go functions.  A definition with a name
    in lower case with underscores is a block of a longer function (handleAPI,
    RunCreateLoop and the set methods are cut this way), composed in the order
    of the code.

    ** What is proved

    - Account isolation: handleAPI runs no handler on an account its caller may
      not access, and the account a handler reads from its arguments is the
      checked one; the middleware serves only identities its backend vouched
      for; the token store accepts exactly the live tokens; pooled connections
      stay with their credentials.
    - The request loop: one group of responses per call, in order; result
      references resolve to what the earlier response holds.
    - Patches: acceptance by ValidatePatch implies that ApplyPatch succeeds,
      with the result given at every path and independent of the map order.
    - Creates: RunCreateLoop ends, accounts for each create exactly once, and
      gives the same ids and errors for every order of its passes.
    - Queries: filters at every depth, the stable sorts, pages and anchored
      windows, and the client's splice of queryChanges deltas, which
      reconstructs the current list, for emails, mailboxes and file nodes.
    - Changes: the tracker's answer is the difference of the sets of live
      objects at two states, paged without loss; the IMAP source reports every
      new message; sieve changes follow renames.
    - What set methods hand to their backend, as invariants of the backend's
      world that survive every request: well-formed emails and patches
      ([EmailSet], [EmailOps]), address books, calendars and events within the
      rights of the caller ([Contacts], [Calendars], [CalendarMethods]), mail to
      permitted recipients and to invited participants only ([Submissions],
      [CalendarScheduling]).  [ImapSubmissions] discharges the one of
      [Submissions] for the IMAP/SMTP backend, down to the recipients of the
      SMTP call.
    - Messages: the limits of the parser, every leaf part is shown, headers are
      read back as written, header properties and truncated bodies, message
      ids.
    - Refinements: the ManageSieve client over the embedded server implements
      a map of scripts with one active script; moved ids follow their message;
      GetEmails is a lookup; the caches are transparent.
    - State machines: the broadcaster and the connection pool as transition
      systems with their invariants; the calls of the pool finish.
    - Round trips of ids, keywords, pointers, tokens, state vectors, escaped
      text, cards through JSON, headers.
    - Departures: the last theorems of most files state where the code does not
      do what its comments, its tests or the RFCs ask for.

    ** Parameters, bounds and fuel

    What depends on the Unicode tables or on the platform is a field of the
    class [GoRuntime]; the theorems hold for all instances, and the examples
    use [ascii_runtime].  Packages outside the repository, or parts of the
    standard library that are not modelled, are classes as well: [TimeZones]
    (the zone database), [RRules] (rrule-go), [MailText], [AddressFormat],
    [AddressText] and [HeaderText] (encoded words, the address and header
    parsers), [MimeLib] (the MIME reader); the examples give each an instance.
    Method handlers, the permission guard and the iTIP scan are fields of the
    [Server] record over an arbitrary state [W]; each backend is a record of
    its operations over such a state.  sha256, html.Parse, the address parser
    of submissions, FormatEmailRFC822, the iTIP texts, ParseICalendar, the JSON
    codecs of stored documents, the script compiler and the IMAP server are
    arguments of the definitions that use them.  Map iteration orders are
    quantified over: as the order of a list, as a [MapOrder], as a [FirstKey],
    or as the schedule of the create loop.

    RunCreateLoop takes one round of fuel per create
    ([create_loop_accounts_for_all] shows that this is enough); filter
    evaluation takes the nesting depth of the filter ([matches_filter_depth]);
    BaseSubject and TrimSpace take the length of the string, of which each
    round removes at least a byte; the command loop of the sieve server takes
    the unread bytes; the resolution of moved ids takes the number of recorded
    moves, which is enough for emails ([moved_loop_ends]);
    [mailbox_rename_back_hangs] says when that of mailboxes does not end.
    Positions, limits and states are kept at 64 bits, UIDs at 32.

    ** Not modelled

    Network and file I/O, TLS, OIDC and the encryption of web push; the
    CalDAV, CardDAV and WebDAV clients of [jmap/nextcloud] apart from one
    query, which are HTTP and XML; the conversion to and from the types of the
    go-ical and go-vcard packages ([jmap/vcardconv], most of [ical.go], the
    texts of iTIP messages and the application of received ones); disposition
    notifications and S/MIME, which are read by third-party packages; the
    formatting of a message; the SMTP receiver and sender; wiring, generated
    requirement tables and logging.  Concurrency is modelled where the code
    synchronises it: every method of the broadcaster, of the trackers and of
    the pool runs under a mutex and is one step. *)

From stdpp Require Export base tactics list gmap strings sets sorting.
From stdpp Require Import pretty.
From Stdlib Require Export ZArith Lia.
From Stdlib Require Import Ascii.

Open Scope Z_scope.

(** ** Results: Go functions that return [(value, error)] *)

(** [Ok v] is the pair [(v, nil)] and [Err e] the pair [(zero, e)]. *)
Inductive result (E A : Type) : Type :=
| Ok (a : A)
| Err (e : E).
Arguments Ok {E A} a.
Arguments Err {E A} e.

Definition rbind {E A B : Type} (m : result E A) (k : A -> result E B) : result E B :=
  match m with
  | Ok a => k a
  | Err e => Err e
  end.

Declare Scope go_scope.
Delimit Scope go_scope with go.
Notation "'try' x := m 'in' k" := (rbind m (fun x => k))
  (at level 10, x name, m at level 100, k at level 200) : go_scope.

(** ** Machine integers *)

(** The value of a [uint64]/[int64] expression whose exact value is [z]:
    two's complement wrap-around at 64 bits. *)
Definition u64 (z : Z) : Z := z mod 2 ^ 64.
Definition i64 (z : Z) : Z := (z + 2 ^ 63) mod 2 ^ 64 - 2 ^ 63.

(** ** Tactics *)

Create HintDb golib.
Create Rewrite HintDb golib.

(** Split every boolean connective and comparison of the context into
    propositions that [lia] and [naive_solver] understand. *)
Ltac bool_props :=
  repeat match goal with
  | H : andb _ _ = true |- _ => apply andb_prop in H as [??]
  | H : orb _ _ = false |- _ => apply orb_false_elim in H as [??]
  | H : negb _ = true |- _ => apply negb_true_iff in H
  | H : negb _ = false |- _ => apply negb_false_iff in H
  | H : String.eqb _ _ = true |- _ => apply String.eqb_eq in H
  | H : String.eqb _ _ = false |- _ => apply String.eqb_neq in H
  | H : Nat.eqb _ _ = true |- _ => apply Nat.eqb_eq in H
  | H : Nat.eqb _ _ = false |- _ => apply Nat.eqb_neq in H
  | H : Z.eqb _ _ = true |- _ => apply Z.eqb_eq in H
  | H : Z.eqb _ _ = false |- _ => apply Z.eqb_neq in H
  | H : Z.ltb _ _ = true |- _ => apply Z.ltb_lt in H
  | H : Z.ltb _ _ = false |- _ => apply Z.ltb_ge in H
  | H : Z.leb _ _ = true |- _ => apply Z.leb_le in H
  | H : Z.leb _ _ = false |- _ => apply Z.leb_gt in H
  | H : bool_decide _ = true |- _ => apply bool_decide_eq_true in H
  | H : bool_decide _ = false |- _ => apply bool_decide_eq_false in H
  end.

(** Case analysis on the scrutinee of the first match of the goal. *)
Ltac case_goal := case_match; simplify_eq/=; bool_props.

(** ** Lemmas on machine integers *)

Lemma u64_small z : 0 <= z < 2 ^ 64 -> u64 z = z.
Proof. intros. unfold u64. by rewrite Z.mod_small. Qed.

Lemma u64_range z : 0 <= u64 z < 2 ^ 64.
Proof. unfold u64. apply Z.mod_pos_bound. lia. Qed.

Lemma i64_small z : - 2 ^ 63 <= z < 2 ^ 63 -> i64 z = z.
Proof. intros. unfold i64. rewrite Z.mod_small by lia. lia. Qed.

Lemma i64_range z : - 2 ^ 63 <= i64 z < 2 ^ 63.
Proof. unfold i64. pose proof (Z.mod_pos_bound (z + 2 ^ 63) (2 ^ 64)). lia. Qed.

#[export] Hint Resolve u64_range i64_range : golib.
