(* ===== verification/GoSort.v ===== *)
(** * Sorting

    Go's [sort.SliceStable] for any element type, and the comparisons the
    server sorts by.  The library calls the less function with the later
    element first only, so a stable insertion of every element in turn has the
    same result; a less function that also compares indices on ties answers
    false there. *)

From S2P Require Import Prelude.

Section SliceStable.
Context {A : Type}.

Fixpoint insert_stable (less : A -> A -> bool) (x : A) (l : list A) : list A :=
  match l with
  | [] => [x]
  | y :: l' => if less y x then y :: insert_stable less x l' else x :: y :: l'
  end.
Definition stable_sort (less : A -> A -> bool) (l : list A) : list A :=
  foldr (insert_stable less) [] l.
End SliceStable.

(** ** Lawful comparisons *)

(** A comparison that orders the elements totally, up to ties. *)
Record lawful {A : Type} (cmp : A -> A -> comparison) : Prop := {
  lw_anti : forall a b, cmp b a = CompOpp (cmp a b);
  lw_trans : forall a b c, cmp a b <> Gt -> cmp b c <> Gt -> cmp a c <> Gt;
}.

Lemma lawful_key {A B} (cmp : B -> B -> comparison) (f : A -> B) :
  lawful cmp -> lawful (fun a b => cmp (f a) (f b)).
Proof. intros [Ha Ht]. split; [intros; apply Ha|intros ???; apply Ht]. Qed.

Lemma lawful_const {A} : lawful (fun _ _ : A => Eq).
Proof. by split. Qed.

Lemma lawful_opp {A} (cmp : A -> A -> comparison) : lawful cmp -> lawful (fun a b => CompOpp (cmp a b)).
Proof.
  intros [Ha Ht]. split; [intros a b; by rewrite Ha|].
  intros a b c. rewrite <- !Ha. intros H1 H2. by apply (Ht c b a).
Qed.

Lemma lawful_string : lawful String.compare.
Proof.
  split; [intros a b; apply String.compare_antisym|].
  assert (forall a b, String.compare a b <> Gt <-> String.le a b) as Hle.
  { intros a b. unfold String.le, String.leb. destruct (String.compare a b); simpl; split; done || tauto. }
  intros a b c. rewrite !Hle. intros H1 H2. by transitivity b.
Qed.

Lemma lawful_Z : lawful Z.compare.
Proof.
  split; [intros a b; apply Z.compare_antisym|]. intros a b c.
  rewrite <- !Z.leb_le || idtac. unfold not. rewrite !Z.compare_gt_iff. lia.
Qed.

Lemma lawful_lex {A} (c1 c2 : A -> A -> comparison) :
  lawful c1 -> lawful c2 -> lawful (fun a b => match c1 a b with Eq => c2 a b | r => r end).
Proof.
  intros [Ha1 Ht1] [Ha2 Ht2]. split.
  - intros a b. rewrite Ha1. destruct (c1 a b); simpl; [apply Ha2|done..].
  - intros a b c H1 H2.
    assert (c1 a c <> Gt) as Hac.
    { apply (Ht1 a b c); [destruct (c1 a b)|destruct (c1 b c)]; done. }
    destruct (c1 a c) eqn:E; [|done|done].
    assert (c1 a b = Eq /\ c1 b c = Eq) as [Eab Ebc].
    { assert (c1 c a <> Gt) by (rewrite Ha1, E; done).
      assert (c1 a b <> Gt) as Hab by (destruct (c1 a b); done).
      assert (c1 b c <> Gt) as Hbc by (destruct (c1 b c); done).
      pose proof (Ht1 c a b H Hab) as Hcb. pose proof (Ht1 b c a Hbc H) as Hba.
      rewrite Ha1 in Hcb, Hba. destruct (c1 a b), (c1 b c); done. }
    rewrite Eab in H1. rewrite Ebc in H2. by apply (Ht2 a b c).
Qed.

(** ** What the sort does *)

Section Stable.
Context {A : Type}.
Variable cmp : A -> A -> comparison.
Hypothesis Hlaw : lawful cmp.
Definition lt_of (a b : A) : bool := match cmp a b with Lt => true | _ => false end.
Definition tie (k x : A) : bool := match cmp k x with Eq => true | _ => false end.

Lemma insert_stable_perm x l : insert_stable lt_of x l ≡ₚ x :: l.
Proof.
  induction l as [|y l IH]; simpl; [done|]. destruct (lt_of y x); [|done]. rewrite IH. constructor.
Qed.

Lemma insert_stable_sorted x l :
  StronglySorted (fun a b => cmp a b <> Gt) l -> StronglySorted (fun a b => cmp a b <> Gt) (insert_stable lt_of x l).
Proof.
  induction 1 as [|y l Hs IH Hy]; simpl; [repeat constructor|].
  unfold lt_of at 1. destruct (cmp y x) eqn:E.
  all: try (constructor; [by constructor|]; constructor; [rewrite (lw_anti cmp Hlaw y x), E; done|]).
  all: try (eapply Forall_impl; [exact Hy|]; intros z Hz; simpl;
            eapply (lw_trans cmp Hlaw x y z); [rewrite (lw_anti cmp Hlaw y x), E; done|done]).
  constructor; [done|]. rewrite insert_stable_perm. constructor; [by rewrite E|done].
Qed.

Lemma insert_stable_tie k x l :
  List.filter (tie k) (insert_stable lt_of x l)
  = (if tie k x then [x] else []) ++ List.filter (tie k) l.
Proof.
  induction l as [|y l IH]; simpl; [by destruct (tie k x)|].
  unfold lt_of at 1. destruct (cmp y x) eqn:E; simpl; try (by destruct (tie k x)).
  rewrite IH. destruct (tie k x) eqn:Ex; [|done]. destruct (tie k y) eqn:Ey; [|done]. exfalso.
  unfold tie in Ex, Ey. destruct (cmp k x) eqn:Ekx, (cmp k y) eqn:Eky; try done.
  assert (cmp x y <> Gt) as Hxy.
  { apply (lw_trans cmp Hlaw x k y); [rewrite (lw_anti cmp Hlaw k x), Ekx|rewrite Eky]; done. }
  rewrite (lw_anti cmp Hlaw y x), E in Hxy. done.
Qed.

Lemma insert_stable_least x l : Forall (fun z => lt_of z x = false) l -> insert_stable lt_of x l = x :: l.
Proof. destruct 1 as [|y l Hy]; [done|]. simpl. by rewrite Hy. Qed.

Lemma insert_stable_filter (p : A -> bool) x l :
  StronglySorted (fun a b => cmp a b <> Gt) l ->
  List.filter p (insert_stable lt_of x l)
  = if p x then insert_stable lt_of x (List.filter p l) else List.filter p l.
Proof.
  induction 1 as [|y l Hs IH Hy]; simpl; [by destruct (p x)|].
  destruct (lt_of y x) eqn:E; simpl.
  { rewrite IH. destruct (p y), (p x); simpl; rewrite ?E; done. }
  destruct (p x); [|done]. fold (List.filter p (y :: l)). symmetry. apply (insert_stable_least x (List.filter p (y :: l))).
  apply Forall_forall. intros z Hz. apply list_elem_of_In, filter_In in Hz as [Hz _].
  assert (cmp x y <> Gt) as Hxy.
  { rewrite (lw_anti cmp Hlaw y x). unfold lt_of in E. by destruct (cmp y x). }
  assert (cmp x z <> Gt) as Hxz.
  { destruct Hz as [->|Hz]; [done|]. apply (lw_trans cmp Hlaw x y z); [done|].
    rewrite Forall_forall in Hy. apply Hy. by apply list_elem_of_In. }
  unfold lt_of. rewrite (lw_anti cmp Hlaw x z). by destruct (cmp x z).
Qed.

Lemma stable_sort_spec l :
  stable_sort lt_of l ≡ₚ l
  /\ StronglySorted (fun a b => cmp a b <> Gt) (stable_sort lt_of l)
  /\ forall k, List.filter (tie k) (stable_sort lt_of l) = List.filter (tie k) l.
Proof.
  induction l as [|x l (Hp & Hs & Hk)]; simpl; [split_and!; [done|constructor|done]|].
  split_and!.
  - rewrite insert_stable_perm. by constructor.
  - by apply insert_stable_sorted.
  - intros k. rewrite insert_stable_tie, Hk. by destruct (tie k x).
Qed.

(** Sorting a part of the elements is sorting all of them and taking the part. *)
Lemma stable_sort_filter (p : A -> bool) l :
  List.filter p (stable_sort lt_of l) = stable_sort lt_of (List.filter p l).
Proof.
  induction l as [|x l IH]; [done|]. change (stable_sort lt_of (x :: l)) with (insert_stable lt_of x (stable_sort lt_of l)).
  rewrite insert_stable_filter by apply stable_sort_spec. rewrite IH. simpl. by destruct (p x).
Qed.
(** Where ties are equalities the result does not depend on the order the
    elements came in. *)
Lemma stable_sort_unique l l' :
  (forall a b, a ∈ l -> b ∈ l -> cmp a b = Eq -> a = b) -> l ≡ₚ l' -> stable_sort lt_of l = stable_sort lt_of l'.
Proof.
  intros Heq Hp. destruct (stable_sort_spec l) as (P1 & S1 & _). destruct (stable_sort_spec l') as (P2 & S2 & _).
  eapply StronglySorted_unique_strong; [|exact S1|exact S2|by rewrite P1, P2, Hp].
  intros a b Ha Hb Hab Hba. rewrite P1 in Ha. rewrite P2, <- Hp in Hb. apply Heq; [done..|].
  cbv beta in Hab, Hba. rewrite (lw_anti _ Hlaw) in Hba. by destruct (cmp a b).
Qed.

End Stable.

Lemma filter_ext_elem {A} (p q : A -> bool) l : (forall x, x ∈ l -> p x = q x) -> List.filter p l = List.filter q l.
Proof. intros Hx. apply filter_ext_in. intros x Hin. apply Hx. by apply list_elem_of_In. Qed.
Lemma StronglySorted_weaken {A} (R S : A -> A -> Prop) l :
  (forall a b, a ∈ l -> b ∈ l -> R a b -> S a b) -> StronglySorted R l -> StronglySorted S l.
Proof.
  intros Hrs Hl. induction Hl as [|x l Hl IH Hx]; constructor; [apply IH; intros; apply Hrs; [by right|by right|done]|].
  rewrite Forall_forall in *. intros y Hy. apply Hrs; [by left|by right|by apply Hx].
Qed.

Lemma stable_sort_map {A B} (f : A -> B) (less : A -> A -> bool) (less' : B -> B -> bool) l :
  (forall a b, less' (f a) (f b) = less a b) ->
  map f (stable_sort less l) = stable_sort less' (map f l).
Proof.
  intros Hf. induction l as [|x l IH]; [done|]. simpl. rewrite <- IH. clear IH.
  induction (stable_sort less l) as [|y m IH]; [done|]. simpl. rewrite Hf. destruct (less y x); simpl; by rewrite ?IH.
Qed.

Lemma compare_self s : String.compare s s = Eq.
Proof. pose proof (String.compare_antisym s s) as E. by destruct (String.compare s s). Qed.
Lemma NoDup_map_inj {A B} (f : A -> B) l a b : NoDup (map f l) -> a ∈ l -> b ∈ l -> f a = f b -> a = b.
Proof.
  induction l as [|x l IH]; [by intros _ ?%not_elem_of_nil|]. intros [Hx Hnd]%NoDup_cons.
  intros [->|Ha]%elem_of_cons [->|Hb]%elem_of_cons E; [done| | |by apply IH].
  - exfalso. apply Hx. rewrite E. by apply list_elem_of_fmap_2.
  - exfalso. apply Hx. rewrite <- E. by apply list_elem_of_fmap_2.
Qed.
