(* ===== verification/GoState.v ===== *)
(** * State passing

    The handlers and backends read and change state through calls that return
    a value.  [St W A] is such a computation on a state [W]; it is a monad, so
    that a Go function body reads here in the order of its statements. *)

From S2P Require Import Prelude.

Definition St (W A : Type) : Type := W -> W * A.

#[export] Instance St_ret {W} : MRet (St W) := fun A x w => (w, x).
#[export] Instance St_bind {W} : MBind (St W) := fun A B f m w => let '(w', x) := m w in f x w'.

Definition gets {W A} (f : W -> A) : St W A := fun w => (w, f w).
Definition modify {W} (f : W -> W) : St W unit := fun w => (f w, tt).

(** A computation on a part of the state. *)
Definition on_part {W P A} (get : W -> P) (set : P -> W -> W) (m : St P A) : St W A :=
  fun w => let '(p, x) := m (get w) in (set p w, x).

(** [for _, x := range l { acc = f(acc, x) }] *)
Fixpoint fold_state {W A B} (f : B -> A -> St W B) (acc : B) (l : list A) : St W B :=
  match l with
  | [] => mret acc
  | x :: l' => acc' ← f acc x; fold_state f acc' l'
  end.

(** ** Lemmas *)

Lemma St_bind_eq {W A B} (m : St W A) (f : A -> St W B) w :
  (x ← m; f x) w = f (snd (m w)) (fst (m w)).
Proof. unfold mbind, St_bind. by destruct (m w). Qed.

(** An invariant of the state and the accumulator survives the loop. *)
Lemma fold_state_inv {W A B} (f : B -> A -> St W B) (I : W -> B -> Prop) l :
  (forall w b x, x ∈ l -> I w b -> I (fst (f b x w)) (snd (f b x w))) ->
  forall w b, I w b -> I (fst (fold_state f b l w)) (snd (fold_state f b l w)).
Proof.
  induction l as [|x l IH]; intros Hf w b Hi; [done|]. simpl. rewrite St_bind_eq.
  apply IH; [|by apply Hf; [left|]]. intros w' b' y Hy. apply Hf. by right.
Qed.

(** What the step for an element reaches and no step gives up holds for every
    element at the end. *)
Lemma fold_state_hits {W A B} (f : B -> A -> St W B) (hit : B -> A -> Prop) l :
  (forall w b x, x ∈ l -> hit (snd (f b x w)) x) -> (forall w b x y, hit b y -> hit (snd (f b x w)) y) ->
  forall w b x, x ∈ l \/ hit b x -> hit (snd (fold_state f b l w)) x.
Proof.
  intros Hnew Hold. revert Hnew. induction l as [|y l IH]; intros Hnew w b x Hx.
  - destruct Hx as [Hx|]; [by apply not_elem_of_nil in Hx|done].
  - simpl. rewrite St_bind_eq. apply IH; [intros; apply Hnew; by right|].
    destruct Hx as [[->|Hx]%elem_of_cons|Hx]; [right; apply Hnew; left|by left|right; by apply Hold].
Qed.

(** ** Computations that keep an invariant

    [ensures I Q m]: run where [I] holds, [m] ends where [I] holds, with a
    result in [Q]. *)
Definition ensures {W A} (I : W -> Prop) (Q : A -> Prop) (m : St W A) : Prop :=
  forall w, I w -> I (fst (m w)) /\ Q (snd (m w)).

Section Keeps.
Context {W : Type} (I : W -> Prop).

Lemma ensures_ret {A} (Q : A -> Prop) x : Q x -> ensures I Q (mret x).
Proof. by intros Hx w Hw. Qed.

Lemma ensures_bind {A B} (R : A -> Prop) (Q : B -> Prop) (m : St W A) (f : A -> St W B) :
  ensures I R m -> (forall x, R x -> ensures I Q (f x)) -> ensures I Q (x ← m; f x).
Proof.
  intros Hm Hf w Hw. rewrite St_bind_eq. destruct (Hm w Hw) as [Hi Hr]. by apply Hf.
Qed.

Lemma ensures_mono {A} (R Q : A -> Prop) (m : St W A) : (forall x, R x -> Q x) -> ensures I R m -> ensures I Q m.
Proof. intros Hi Hm w Hw. destruct (Hm w Hw). auto. Qed.
End Keeps.

Create HintDb ensures.
#[export] Hint Resolve ensures_ret : ensures.
