(* ===== verification/GoStrings.v ===== *)
(** * Go strings

    The part of the Go language and of the packages [strings], [strconv],
    [fmt] and [encoding/base64] that the server uses, on [string] read as a
    sequence of bytes, as Go reads it.  What depends on the Unicode tables
    (case mapping and classification of runes above 0x7f, quoting of such
    runes) and on the platform (float to integer conversions out of range)
    is a field of the class [GoRuntime]; every function has its exact Go
    behaviour on ASCII input. *)

From S2P Require Import Prelude.
From stdpp Require Import pretty.
From Stdlib Require Import Ascii SpecFloat.

Open Scope Z_scope.

(** ** Bytes *)

Definition byte_val (c : ascii) : Z := Z.of_N (N_of_ascii c).
Definition byte_between (lo hi : Z) (c : ascii) : bool :=
  (lo <=? byte_val c) && (byte_val c <=? hi).

Definition dquote : ascii := "034"%char.
Definition backslash : ascii := "092"%char.

Definition is_upper_ascii (c : ascii) : bool := byte_between 65 90 c.
Definition is_lower_ascii (c : ascii) : bool := byte_between 97 122 c.
Definition is_digit_ascii (c : ascii) : bool := byte_between 48 57 c.
Definition is_alnum_ascii (c : ascii) : bool :=
  is_upper_ascii c || is_lower_ascii c || is_digit_ascii c.

Definition lower_ascii (c : ascii) : ascii :=
  if is_upper_ascii c then ascii_of_N (N_of_ascii c + 32) else c.
Definition upper_ascii (c : ascii) : ascii :=
  if is_lower_ascii c then ascii_of_N (N_of_ascii c - 32) else c.

(** ** The string as a list of bytes *)

Definition str_bytes (s : string) : list ascii := String.list_ascii_of_string s.
Definition str_of (l : list ascii) : string := String.string_of_list_ascii l.

Fixpoint str_forallb (p : ascii -> bool) (s : string) : bool :=
  match s with
  | EmptyString => true
  | String c s' => p c && str_forallb p s'
  end.

Fixpoint str_map (f : ascii -> ascii) (s : string) : string :=
  match s with
  | EmptyString => EmptyString
  | String c s' => String (f c) (str_map f s')
  end.

(** [len(s)] *)
Definition slen (s : string) : nat := String.length s.

(** [s[:n]] and [s[n:]] for [n <= len(s)]. *)
Fixpoint str_take (n : nat) (s : string) {struct n} : string :=
  match n, s with
  | S n', String c s' => String c (str_take n' s')
  | _, _ => EmptyString
  end.
Fixpoint str_drop (n : nat) (s : string) : string :=
  match n, s with
  | O, _ => s
  | S n', String _ s' => str_drop n' s'
  | S _, EmptyString => EmptyString
  end.

Definition is_ascii (s : string) : bool := str_forallb (byte_between 0 127) s.

(** ** The runtime parameters *)

Class GoRuntime := {
  (** [strings.ToLower]/[ToUpper] on a string with a byte above 0x7f *)
  rt_to_lower : string -> string;
  rt_to_upper : string -> string;
  (** [strings.EqualFold] when one of the strings has a byte above 0x7f *)
  rt_equal_fold : string -> string -> bool;
  (** the word fields of [containsAllTerms] in such a string *)
  rt_word_fields : string -> list string;
  (** [strconv.Quote] on such a string *)
  rt_quote : string -> string;
  (** [fmt]'s [%v] of a [float64] *)
  rt_format_float : spec_float -> string;
  (** [json.Marshal] of a [float64] (an error for NaN and infinities) and of
      a string with a byte above 0x7f *)
  rt_json_float : spec_float -> option string;
  rt_json_string : string -> string;
  (** [int(f)] and [uint64(f)] when the value does not fit the type *)
  rt_float_to_int : spec_float -> Z;
  rt_float_to_uint64 : spec_float -> Z;
}.

(** The runtime of the examples: no case mapping outside ASCII, and the
    conversions of amd64. *)
Definition ascii_runtime : GoRuntime := {|
  rt_to_lower s := s;
  rt_to_upper s := s;
  rt_equal_fold s t := String.eqb s t;
  rt_word_fields s := [s];
  rt_quote s := s;
  rt_format_float _ := "float";
  rt_json_float _ := Some "0";
  rt_json_string s := s;
  rt_float_to_int _ := - 2 ^ 63;
  rt_float_to_uint64 _ := 2 ^ 63;
|}.

(** ** Package strings *)

Fixpoint HasPrefix (s p : string) {struct p} : bool :=
  match p, s with
  | EmptyString, _ => true
  | String a p', String b s' => Ascii.eqb a b && HasPrefix s' p'
  | String _ _, EmptyString => false
  end.

Definition HasSuffix (s p : string) : bool :=
  (slen p <=? slen s)%nat && String.eqb (str_drop (slen s - slen p) s) p.

Definition TrimPrefix (s p : string) : string :=
  if HasPrefix s p then str_drop (slen p) s else s.
Definition TrimSuffix (s p : string) : string :=
  if HasSuffix s p then str_take (slen s - slen p) s else s.

Fixpoint Contains (s sub : string) : bool :=
  HasPrefix s sub ||
  match s with
  | EmptyString => false
  | String _ s' => Contains s' sub
  end.

Fixpoint IndexByte (s : string) (c : ascii) : option nat :=
  match s with
  | EmptyString => None
  | String b s' => if Ascii.eqb b c then Some 0%nat else S <$> IndexByte s' c
  end.

(** [strings.LastIndex(s, c)] for a one-byte [c]. *)
Fixpoint LastIndexByte (s : string) (c : ascii) : option nat :=
  match s with
  | EmptyString => None
  | String b s' =>
      match LastIndexByte s' c with
      | Some i => Some (S i)
      | None => if Ascii.eqb b c then Some 0%nat else None
      end
  end.

(** [strings.Split(s, sep)] for a non-empty [sep]: [skip] bytes of a
    separator already matched are passed over, [cur] is the current field. *)
Fixpoint split_go (sep : string) (skip : nat) (cur s : string) : list string :=
  match s with
  | EmptyString => [cur]
  | String c s' =>
      match skip with
      | S k => split_go sep k cur s'
      | O => if HasPrefix s sep
             then cur :: split_go sep (slen sep - 1) EmptyString s'
             else split_go sep 0 (cur +:+ String c EmptyString) s'
      end
  end.
Definition Split (s sep : string) : list string := split_go sep 0 EmptyString s.

Fixpoint Join (l : list string) (sep : string) : string :=
  match l with
  | [] => EmptyString
  | [x] => x
  | x :: l' => x +:+ sep +:+ Join l' sep
  end.

(** [strings.ReplaceAll(s, old, new)] for a non-empty [old]. *)
Fixpoint replace_go (old new : string) (skip : nat) (s : string) : string :=
  match s with
  | EmptyString => EmptyString
  | String c s' =>
      match skip with
      | S k => replace_go old new k s'
      | O => if HasPrefix s old
             then new +:+ replace_go old new (slen old - 1) s'
             else String c (replace_go old new 0 s')
      end
  end.
Definition ReplaceAll (s old new : string) : string := replace_go old new 0 s.

Fixpoint in_cutset (c : ascii) (cut : string) : bool :=
  match cut with
  | EmptyString => false
  | String d cut' => Ascii.eqb c d || in_cutset c cut'
  end.
Fixpoint TrimLeft (s cut : string) : string :=
  match s with
  | EmptyString => EmptyString
  | String c s' => if in_cutset c cut then TrimLeft s' cut else s
  end.
Definition TrimRight (s cut : string) : string :=
  String.rev (TrimLeft (String.rev s) cut).
Definition Trim (s cut : string) : string := TrimRight (TrimLeft s cut) cut.

(** [unicode.IsSpace]: the UTF-8 encodings of the white-space runes. *)
Definition ascii_spaces : list string :=
  [str_of ["009"%char]; str_of ["010"%char]; str_of ["011"%char];
   str_of ["012"%char]; str_of ["013"%char]; " "].
Definition wide_spaces : list string :=
  map str_of
    [ ["194"%char; "133"%char]; ["194"%char; "160"%char];
      ["225"%char; "154"%char; "128"%char];
      ["226"%char; "128"%char; "128"%char]; ["226"%char; "128"%char; "129"%char];
      ["226"%char; "128"%char; "130"%char]; ["226"%char; "128"%char; "131"%char];
      ["226"%char; "128"%char; "132"%char]; ["226"%char; "128"%char; "133"%char];
      ["226"%char; "128"%char; "134"%char]; ["226"%char; "128"%char; "135"%char];
      ["226"%char; "128"%char; "136"%char]; ["226"%char; "128"%char; "137"%char];
      ["226"%char; "128"%char; "138"%char]; ["226"%char; "128"%char; "168"%char];
      ["226"%char; "128"%char; "169"%char]; ["226"%char; "128"%char; "175"%char];
      ["226"%char; "129"%char; "159"%char]; ["227"%char; "128"%char; "128"%char] ].
Definition space_runes : list string := ascii_spaces ++ wide_spaces.

(** Remove the leading occurrences of the given byte sequences. *)
Fixpoint strip_left (fuel : nat) (seqs : list string) (s : string) : string :=
  match fuel with
  | O => s
  | S f =>
      match find (HasPrefix s) seqs with
      | Some p => strip_left f seqs (str_drop (slen p) s)
      | None => s
      end
  end.
Definition TrimLeftSpace (s : string) : string := strip_left (slen s) space_runes s.
Definition TrimRightSpace (s : string) : string :=
  String.rev (strip_left (slen s) (map String.rev space_runes) (String.rev s)).
Definition TrimSpace (s : string) : string := TrimRightSpace (TrimLeftSpace s).

(** [strings.Fields]: the parts between white space. *)
Fixpoint fields_go (skip : nat) (cur s : string) : list string :=
  let part := if String.eqb cur EmptyString then [] else [cur] in
  match s with
  | EmptyString => part
  | String c s' =>
      match skip with
      | S k => fields_go k cur s'
      | O => match find (HasPrefix s) space_runes with
             | Some p => part ++ fields_go (slen p - 1) EmptyString s'
             | None => fields_go 0 (cur +:+ str_of [c]) s'
             end
      end
  end.
Definition Fields (s : string) : list string := fields_go 0 EmptyString s.

Section Unicode.
Context `{GoRuntime}.

Definition ToLower (s : string) : string :=
  if is_ascii s then str_map lower_ascii s else rt_to_lower s.
Definition ToUpper (s : string) : string :=
  if is_ascii s then str_map upper_ascii s else rt_to_upper s.
Definition EqualFold (s t : string) : bool :=
  if is_ascii s && is_ascii t
  then String.eqb (str_map lower_ascii s) (str_map lower_ascii t)
  else rt_equal_fold s t.

(** *** Formatting: [%q], [%d] *)

Definition hex_digit (n : N) : ascii :=
  if (n <? 10)%N then ascii_of_N (48 + n) else ascii_of_N (87 + n).
Definition quote_byte (c : ascii) : string :=
  if Ascii.eqb c dquote || Ascii.eqb c backslash then str_of [backslash; c]
  else if Ascii.eqb c "007" then str_of [backslash; "a"%char]
  else if Ascii.eqb c "008" then str_of [backslash; "b"%char]
  else if Ascii.eqb c "012" then str_of [backslash; "f"%char]
  else if Ascii.eqb c "010" then str_of [backslash; "n"%char]
  else if Ascii.eqb c "013" then str_of [backslash; "r"%char]
  else if Ascii.eqb c "009" then str_of [backslash; "t"%char]
  else if Ascii.eqb c "011" then str_of [backslash; "v"%char]
  else if byte_between 32 126 c then str_of [c]
  else str_of [backslash; "x"%char;
               hex_digit (N_of_ascii c / 16); hex_digit (N_of_ascii c mod 16)].
Fixpoint quote_body (s : string) : string :=
  match s with
  | EmptyString => EmptyString
  | String c s' => quote_byte c +:+ quote_body s'
  end.
Definition fmt_q (s : string) : string :=
  if is_ascii s then str_of [dquote] +:+ quote_body s +:+ str_of [dquote] else rt_quote s.
End Unicode.

Definition fmt_d (z : Z) : string := pretty z.

(** ** Package strconv *)

(** The value of a non-empty string of decimal digits. *)
Fixpoint digits_val (acc : Z) (s : string) : option Z :=
  match s with
  | EmptyString => Some acc
  | String c s' =>
      if is_digit_ascii c then digits_val (acc * 10 + (byte_val c - 48)) s' else None
  end.

(** [strconv.ParseUint(s, 10, bits)]; the error value is not distinguished. *)
Definition ParseUint (s : string) (bits : Z) : option Z :=
  match s with
  | EmptyString => None
  | _ => match digits_val 0 s with
         | Some n => if n <? 2 ^ bits then Some n else None
         | None => None
         end
  end.

(** [strconv.Atoi]: an optional sign and digits, within [int]. *)
Definition Atoi (s : string) : option Z :=
  match s with
  | EmptyString => None
  | String c s' =>
      let '(neg, ds) :=
        if Ascii.eqb c "-" then (true, s')
        else if Ascii.eqb c "+" then (false, s') else (false, s) in
      match ds with
      | EmptyString => None
      | _ => match digits_val 0 ds with
             | Some n =>
                 let v := if neg : bool then - n else n in
                 if (- 2 ^ 63 <=? v) && (v <? 2 ^ 63) then Some v else None
             | None => None
             end
      end
  end.

(** ** Lemmas *)

Arguments String.append : simpl nomatch.

Lemma append_nil_r s : s +:+ EmptyString = s.
Proof. induction s; simpl; congruence. Qed.

Lemma append_assoc s t u : (s +:+ t) +:+ u = s +:+ (t +:+ u).
Proof. induction s; simpl; congruence. Qed.

Lemma slen_app s t : slen (s +:+ t) = (slen s + slen t)%nat.
Proof. unfold slen. induction s; simpl; congruence. Qed.

Lemma slen_zero s : slen s = 0%nat -> s = EmptyString.
Proof. by destruct s. Qed.

Lemma str_take_app s t : str_take (slen s) (s +:+ t) = s.
Proof. unfold slen. induction s; simpl; [by destruct t|congruence]. Qed.

Lemma str_drop_app s t : str_drop (slen s) (s +:+ t) = t.
Proof. unfold slen. induction s; simpl; auto. Qed.

Lemma str_take_drop n s : str_take n s +:+ str_drop n s = s.
Proof. revert s. induction n; intros [|c s]; simpl; congruence. Qed.

Lemma str_drop_all n s : (slen s <= n)%nat -> str_drop n s = EmptyString.
Proof.
  unfold slen. revert s. induction n; intros [|c s]; simpl; intros; auto with lia.
Qed.
Lemma str_take_all n s : (slen s <= n)%nat -> str_take n s = s.
Proof. unfold slen. revert s. induction n; intros [|c s]; simpl; intros; try done; [lia|]. by rewrite IHn by lia. Qed.
Lemma slen_drop n s : slen (str_drop n s) = (slen s - n)%nat.
Proof. unfold slen. revert s. induction n; intros [|c s]; simpl; [done..|]. apply IHn. Qed.

Lemma str_drop_length n s : slen (str_drop n s) = (slen s - n)%nat.
Proof. unfold slen. revert s. induction n; intros [|c s]; simpl; auto. Qed.

Lemma HasPrefix_spec s p : HasPrefix s p = true <-> exists t, s = p +:+ t.
Proof.
  revert s. induction p as [|a p IH]; intros s; simpl.
  - split; [by exists s | done].
  - destruct s as [|b s]; simpl; [split; [done | by intros [??]]|].
    rewrite andb_true_iff, Ascii.eqb_eq, IH. split.
    + intros [-> [t ->]]. by exists t.
    + intros [t [= -> ->]]. eauto.
Qed.

Lemma HasPrefix_app p t : HasPrefix (p +:+ t) p = true.
Proof. apply HasPrefix_spec. eauto. Qed.

Lemma HasPrefix_refl s : HasPrefix s s = true.
Proof. rewrite <- (append_nil_r s) at 1. apply HasPrefix_app. Qed.

Lemma TrimPrefix_app p t : TrimPrefix (p +:+ t) p = t.
Proof. unfold TrimPrefix. by rewrite HasPrefix_app, str_drop_app. Qed.

Lemma TrimPrefix_none s p : HasPrefix s p = false -> TrimPrefix s p = s.
Proof. unfold TrimPrefix. by intros ->. Qed.

Lemma Contains_spec s sub :
  Contains s sub = true <-> exists a b, s = a +:+ sub +:+ b.
Proof.
  induction s as [|c s IH]; cbn [Contains]; rewrite orb_true_iff, HasPrefix_spec.
  - split.
    + intros [[t ?]|?]; [by exists EmptyString, t | done].
    + intros (a & b & Heq). left. destruct a; [by exists b | done].
  - rewrite IH. split.
    + intros [[t ?]|(a & b & ->)]; [by exists EmptyString, t | by exists (String c a), b].
    + intros (a & b & Heq). destruct a as [|d a]; [left; by exists b | right].
      simplify_eq/=. eauto.
Qed.

Lemma str_forallb_app p s t : str_forallb p (s +:+ t) = str_forallb p s && str_forallb p t.
Proof. induction s; simpl; [done|]. by rewrite IHs, andb_assoc. Qed.

Lemma str_forallb_impl (p q : ascii -> bool) s :
  (forall c, p c = true -> q c = true) -> str_forallb p s = true -> str_forallb q s = true.
Proof. induction s; simpl; [done|]. intros ? [??]%andb_prop. rewrite H by done. auto. Qed.

(** *** Bytes, by enumeration *)

Lemma ascii_forall (p : ascii -> bool) :
  forallb p (map ascii_of_nat (seq 0 256)) = true -> forall c, p c = true.
Proof.
  intros Hall c. rewrite forallb_forall in Hall. apply Hall.
  rewrite in_map_iff. exists (nat_of_ascii c). split; [apply ascii_nat_embedding|].
  apply in_seq. pose proof (nat_ascii_bounded c). lia.
Qed.

Lemma lower_ascii_idem c : lower_ascii (lower_ascii c) = lower_ascii c.
Proof.
  apply Ascii.eqb_eq. revert c. apply ascii_forall. vm_compute. reflexivity.
Qed.

Lemma lower_ascii_low c : byte_between 0 127 c = true -> byte_between 0 127 (lower_ascii c) = true.
Proof.
  apply implb_true_iff. revert c. apply ascii_forall. vm_compute. reflexivity.
Qed.

Lemma str_map_app f s t : str_map f (s +:+ t) = str_map f s +:+ str_map f t.
Proof. induction s; simpl; congruence. Qed.

Lemma str_map_length f s : slen (str_map f s) = slen s.
Proof. unfold slen. induction s; simpl; congruence. Qed.

Lemma is_ascii_lower s : is_ascii s = true -> is_ascii (str_map lower_ascii s) = true.
Proof.
  unfold is_ascii. induction s; simpl; [done|]. intros [??]%andb_prop.
  rewrite lower_ascii_low by done. auto.
Qed.

Lemma ToLower_ascii `{GoRuntime} s : is_ascii s = true -> ToLower s = str_map lower_ascii s.
Proof. unfold ToLower. by intros ->. Qed.

Lemma ToLower_idem `{GoRuntime} s : is_ascii s = true -> ToLower (ToLower s) = ToLower s.
Proof.
  intros Ha. unfold ToLower at 2 3. rewrite Ha. rewrite ToLower_ascii by by apply is_ascii_lower.
  clear Ha. induction s; simpl; [done|]. by rewrite lower_ascii_idem, IHs.
Qed.

(** *** Decimal numbers *)

Lemma pretty_N_char_digit x : (x < 10)%N ->
  is_digit_ascii (pretty_N_char x) = true /\ byte_val (pretty_N_char x) - 48 = Z.of_N x.
Proof.
  intros.
  assert (x = 0 \/ x = 1 \/ x = 2 \/ x = 3 \/ x = 4 \/ x = 5 \/ x = 6 \/ x = 7
    \/ x = 8 \/ x = 9)%N as Hx by lia.
  by destruct_or! Hx; subst; vm_compute.
Qed.

Lemma digits_val_pretty_go x s : digits_val 0 (pretty_N_go x s) = digits_val (Z.of_N x) s.
Proof.
  revert s. induction (N.lt_wf_0 x) as [x _ IH]; intros s.
  destruct (decide (x = 0)%N) as [->|]; [by rewrite pretty_N_go_0|].
  rewrite pretty_N_go_step by lia. rewrite IH by (apply N.div_lt; lia).
  destruct (pretty_N_char_digit (x `mod` 10)) as [Hd Hv]; [by apply N.mod_lt|].
  cbn [digits_val]. rewrite Hd, Hv. f_equal.
  pose proof (N.div_mod x 10). lia.
Qed.

Lemma pretty_N_all_digits (n : N) : str_forallb is_digit_ascii (pretty n) = true.
Proof.
  enough (forall x s, str_forallb is_digit_ascii s = true ->
    str_forallb is_digit_ascii (pretty_N_go x s) = true) as Hgo.
  { unfold pretty, pretty_N. case_decide; [done|]. by apply Hgo. }
  intros x. induction (N.lt_wf_0 x) as [x _ IH]; intros s Hs.
  destruct (decide (x = 0)%N) as [->|]; [by rewrite pretty_N_go_0|].
  rewrite pretty_N_go_step by lia. apply IH; [apply N.div_lt; lia|].
  cbn [str_forallb]. rewrite Hs.
  by destruct (pretty_N_char_digit (x `mod` 10)) as [-> _]; [apply N.mod_lt|].
Qed.

Lemma digits_val_pretty (n : N) : digits_val 0 (pretty n) = Some (Z.of_N n).
Proof.
  unfold pretty, pretty_N. case_decide; [by subst|]. apply digits_val_pretty_go.
Qed.

Lemma fmt_d_N z : 0 <= z -> fmt_d z = pretty (Z.to_N z).
Proof. by destruct z. Qed.

Lemma fmt_d_inj x y : 0 <= x -> 0 <= y -> fmt_d x = fmt_d y -> x = y.
Proof. intros Hx Hy. rewrite !fmt_d_N by done. intros E%(inj pretty). lia. Qed.

Lemma fmt_d_digits z : 0 <= z -> str_forallb is_digit_ascii (fmt_d z) = true.
Proof. intros. rewrite fmt_d_N by done. apply pretty_N_all_digits. Qed.

Lemma fmt_d_nonempty z : fmt_d z <> EmptyString.
Proof.
  assert (forall n : N, pretty n <> EmptyString) as Hn.
  { intros n Heq. pose proof (digits_val_pretty n) as Hd. rewrite Heq in Hd.
    simplify_eq/=. destruct n; simplify_eq/=. }
  destruct z as [|p|p]; unfold fmt_d, pretty, pretty_Z; [done| |done].
  apply (Hn (Npos p)).
Qed.

Lemma ParseUint_fmt_d z bits : 0 <= z < 2 ^ bits -> ParseUint (fmt_d z) bits = Some z.
Proof.
  intros Hz. unfold ParseUint. pose proof (fmt_d_nonempty z) as Hne.
  destruct (fmt_d z) as [|c s] eqn:E; [done|]. rewrite <- E, fmt_d_N by lia.
  rewrite digits_val_pretty, Z2N.id by lia.
  by rewrite (proj2 (Z.ltb_lt z _)) by lia.
Qed.

(** *** Splitting *)

Lemma LastIndexByte_none s c :
  str_forallb (fun b => negb (Ascii.eqb b c)) s = true -> LastIndexByte s c = None.
Proof.
  induction s; simpl; [done|]. intros [Ha%negb_true_iff Hs]%andb_prop.
  by rewrite IHs, Ha.
Qed.

Lemma LastIndexByte_app s t c :
  str_forallb (fun b => negb (Ascii.eqb b c)) t = true ->
  LastIndexByte (s +:+ String c t) c = Some (slen s).
Proof.
  intros Ht. unfold slen. induction s; simpl.
  - by rewrite LastIndexByte_none, Ascii.eqb_refl.
  - by rewrite IHs.
Qed.

Lemma split_go_nosep c cur s :
  str_forallb (fun b => negb (Ascii.eqb b c)) s = true ->
  split_go (str_of [c]) 0 cur s = [cur +:+ s].
Proof.
  revert cur. induction s as [|b s IH]; intros cur; simpl.
  - by rewrite append_nil_r.
  - intros [Hb%negb_true_iff Hs]%andb_prop.
    rewrite Ascii.eqb_sym, Hb. simpl. rewrite IH by done. by rewrite append_assoc.
Qed.

Lemma split_go_app c cur s t :
  str_forallb (fun b => negb (Ascii.eqb b c)) s = true ->
  split_go (str_of [c]) 0 cur (s +:+ String c t)
  = (cur +:+ s) :: split_go (str_of [c]) 0 EmptyString t.
Proof.
  revert cur. induction s as [|b s IH]; intros cur; simpl.
  - by rewrite Ascii.eqb_refl, append_nil_r; simpl.
  - intros [Hb%negb_true_iff Hs]%andb_prop.
    rewrite Ascii.eqb_sym, Hb. simpl. rewrite IH by done. by rewrite append_assoc.
Qed.

(** Splitting at a one-byte separator undoes joining fields without it. *)
Lemma Split_Join c l :
  l <> [] ->
  Forall (fun s => str_forallb (fun b => negb (Ascii.eqb b c)) s = true) l ->
  Split (Join l (str_of [c])) (str_of [c]) = l.
Proof.
  unfold Split. intros Hne Hl. induction Hl as [|x l Hx Hl IH]; [done|].
  destruct l as [|y l]; [apply (split_go_nosep c EmptyString); done|].
  cbn [Join]. simpl (str_of [c]).
  change (String c EmptyString +:+ ?u) with (String c u).
  rewrite (split_go_app c EmptyString) by done. f_equal. by apply IH.
Qed.

Lemma split_go_nonempty sep k cur s : split_go sep k cur s <> [].
Proof.
  revert k cur. induction s as [|c s IH]; intros k cur; cbn [split_go]; [done|].
  destruct k; [|done]. by destruct (HasPrefix (String c s) sep).
Qed.

Lemma split_go_cur c cur s :
  split_go (String c EmptyString) 0 cur s
  = match split_go (String c EmptyString) 0 EmptyString s with x :: l => (cur +:+ x) :: l | [] => [] end.
Proof.
  revert cur. induction s as [|a s IH]; intros cur; simpl; [by rewrite append_nil_r|].
  destruct (Ascii.eqb c a); simpl; [by rewrite append_nil_r|].
  rewrite (IH (cur +:+ String a EmptyString)), (IH (String a EmptyString)).
  destruct (split_go _ 0 EmptyString s) as [|x l]; [done|]. by rewrite append_assoc.
Qed.

(** The fields of a text put together again. *)
Lemma Join_Split c s : Join (Split s (String c EmptyString)) (String c EmptyString) = s.
Proof.
  unfold Split. induction s as [|a s IH]; [done|]. simpl. destruct (Ascii.eqb_spec c a) as [->|Hne]; simpl.
  - destruct (split_go (String a EmptyString) 0 EmptyString s) as [|x l] eqn:E; [by apply split_go_nonempty in E|].
    transitivity (String a (Join (x :: l) (String a EmptyString))); [done|by rewrite IH].
  - rewrite (split_go_cur c (String a EmptyString) s).
    destruct (split_go (String c EmptyString) 0 EmptyString s) as [|x l] eqn:E; [by apply split_go_nonempty in E|].
    transitivity (String a (Join (x :: l) (String c EmptyString))); [by destruct l|by rewrite IH].
Qed.

(** No field holds the separator. *)
Lemma Split_nosep c s : Forall (fun x => str_forallb (fun b => negb (Ascii.eqb b c)) x = true) (Split s (String c EmptyString)).
Proof.
  unfold Split. assert (H : str_forallb (fun b => negb (Ascii.eqb b c)) EmptyString = true) by done.
  revert H. generalize EmptyString at 1 3. induction s as [|a s IH]; intros cur Hc; simpl; [by repeat constructor|].
  destruct (Ascii.eqb_spec c a) as [->|Hne]; simpl; [constructor; auto|].
  apply IH. rewrite str_forallb_app, Hc. simpl. by rewrite (proj2 (Ascii.eqb_neq _ _)) by congruence.
Qed.

Lemma Split_app_sep c s t :
  Split (s +:+ String c t) (String c EmptyString) = Split s (String c EmptyString) ++ Split t (String c EmptyString).
Proof.
  unfold Split. induction s as [|a s IH]; simpl.
  - by rewrite Ascii.eqb_refl.
  - destruct (Ascii.eqb c a); simpl.
    + simpl in IH. by rewrite IH.
    + rewrite (split_go_cur c (String a EmptyString) s), (split_go_cur c (String a EmptyString) (s +:+ String c t)).
      simpl in *. rewrite IH. by destruct (split_go (String c EmptyString) 0 EmptyString s) as [|x l] eqn:E;
        [apply (split_go_nonempty _ _ EmptyString s) in E|].
Qed.

Definition lacks (c : ascii) (s : string) : bool := str_forallb (fun b => negb (Ascii.eqb b c)) s.

Lemma Split_lacks c s : lacks c s = true -> Split s (String c EmptyString) = [s].
Proof. intros Hs. unfold Split. exact (split_go_nosep c EmptyString s Hs). Qed.

(** The last separator cuts a text in two. *)
Lemma LastIndexByte_cut s c i :
  LastIndexByte s c = Some i ->
  exists t, s = str_take i s +:+ String c t /\ lacks c t = true.
Proof.
  revert i. induction s as [|a s IH]; intros i; simpl; [done|].
  destruct (LastIndexByte s c) as [j|] eqn:E.
  - intros [= <-]. destruct (IH j eq_refl) as (t & Ht & Hl). exists t. simpl. by rewrite <- Ht.
  - destruct (Ascii.eqb_spec a c) as [->|]; [|done]. intros [= <-]. exists s. split; [done|].
    clear IH. unfold lacks. induction s as [|b s IHs]; [done|]. simpl in *.
    destruct (LastIndexByte s c); [done|]. destruct (Ascii.eqb b c); [done|]. by apply IHs.
Qed.

(** *** White space *)

Definition graphic (c : ascii) : bool := byte_between 33 126 c.
Definition starts_blank (p : string) : bool :=
  match p with String c _ => negb (graphic c) | EmptyString => false end.

Lemma find_prefix_none s seqs :
  str_forallb graphic s = true -> forallb starts_blank seqs = true ->
  List.find (HasPrefix s) seqs = None.
Proof.
  intros Hs. induction seqs as [|p seqs IH]; simpl; [done|]. intros [Hp Hq]%andb_prop.
  destruct (HasPrefix s p) eqn:E; [|by apply IH]. exfalso.
  destruct p as [|a p]; [done|]. destruct s as [|b s]; [done|]. simpl in *.
  apply andb_prop in E as [->%Ascii.eqb_eq _]. apply andb_prop in Hs as [Hg _].
  by rewrite Hg in Hp.
Qed.

Lemma strip_left_graphic fuel seqs s :
  str_forallb graphic s = true -> forallb starts_blank seqs = true -> strip_left fuel seqs s = s.
Proof. intros Hs Hq. destruct fuel; simpl; [done|]. by rewrite find_prefix_none. Qed.

Lemma str_bytes_rev_app s t : str_bytes (String.rev_app s t) = rev (str_bytes s) ++ str_bytes t.
Proof.
  revert t. unfold str_bytes. induction s as [|c s IH]; intros t; simpl; [done|].
  rewrite IH. simpl. by rewrite <- app_assoc.
Qed.

Lemma str_bytes_inj s t : str_bytes s = str_bytes t -> s = t.
Proof.
  intros E. rewrite <- (String.string_of_list_ascii_of_string s), <- (String.string_of_list_ascii_of_string t).
  unfold str_bytes in E. by rewrite E.
Qed.

Lemma str_rev_involutive s : String.rev (String.rev s) = s.
Proof.
  apply str_bytes_inj. unfold String.rev. rewrite !str_bytes_rev_app. simpl.
  by rewrite !app_nil_r, rev_involutive.
Qed.

Lemma str_forallb_bytes p s : str_forallb p s = forallb p (str_bytes s).
Proof. unfold str_bytes. induction s as [|c s IH]; simpl; [done|]. by rewrite IH. Qed.

Lemma str_forallb_rev p s : str_forallb p s = true -> str_forallb p (String.rev s) = true.
Proof.
  rewrite !str_forallb_bytes. unfold String.rev. rewrite str_bytes_rev_app. simpl. rewrite app_nil_r.
  rewrite !forallb_forall. intros Hp x Hx. apply Hp. by apply in_rev in Hx.
Qed.

Lemma str_forallb_take_drop p n s :
  str_forallb p s = true -> str_forallb p (str_take n s) = true /\ str_forallb p (str_drop n s) = true.
Proof. rewrite <- (str_take_drop n s) at 1. by rewrite str_forallb_app, andb_true_iff. Qed.

Lemma str_forallb_strip_left p fuel seqs s :
  str_forallb p s = true -> str_forallb p (strip_left fuel seqs s) = true.
Proof.
  revert s. induction fuel as [|fuel IH]; intros s Hs; simpl; [done|].
  destruct (find _ seqs); [|done]. by apply IH, str_forallb_take_drop.
Qed.

Lemma str_forallb_TrimSpace p s : str_forallb p s = true -> str_forallb p (TrimSpace s) = true.
Proof. intros Hs. by apply str_forallb_rev, str_forallb_strip_left, str_forallb_rev, str_forallb_strip_left. Qed.

Lemma str_forallb_TrimLeft p s cut : str_forallb p s = true -> str_forallb p (TrimLeft s cut) = true.
Proof.
  induction s as [|c s IH]; simpl; [done|]. intros [Hc Hs]%andb_prop.
  destruct (in_cutset c cut); simpl; [by apply IH|]. by rewrite Hc.
Qed.

Lemma HasPrefix_length s p : HasPrefix s p = true -> (slen p <= slen s)%nat.
Proof. rewrite HasPrefix_spec. intros [t ->]. rewrite slen_app. lia. Qed.

Lemma get_length s n c : String.get n s = Some c -> (n < slen s)%nat.
Proof.
  revert n. induction s as [|d s IH]; intros [|n]; simpl; try done; [intros; unfold slen; simpl; lia|].
  intros Hn%IH. unfold slen in *. simpl. lia.
Qed.

Lemma TrimSpace_graphic s : str_forallb graphic s = true -> TrimSpace s = s.
Proof.
  intros Hs. unfold TrimSpace, TrimLeftSpace, TrimRightSpace.
  rewrite (strip_left_graphic _ space_runes) by (done || by vm_compute).
  rewrite strip_left_graphic; [apply str_rev_involutive | by apply str_forallb_rev | by vm_compute].
Qed.

Lemma graphic_ascii s : str_forallb graphic s = true -> is_ascii s = true.
Proof.
  apply str_forallb_impl. intros c. unfold graphic, byte_between.
  intros [H1 H2]%andb_prop. rewrite !Z.leb_le in *. apply andb_true_intro. rewrite !Z.leb_le. lia.
Qed.

Lemma str_bytes_app s t : str_bytes (s +:+ t) = str_bytes s ++ str_bytes t.
Proof. induction s as [|c s IH]; [done|]. unfold str_bytes in *. simpl. by rewrite IH. Qed.

Lemma str_rev_app s t : String.rev (s +:+ t) = String.rev t +:+ String.rev s.
Proof.
  apply str_bytes_inj. unfold String.rev. rewrite str_bytes_app, !str_bytes_rev_app, str_bytes_app, rev_app_distr.
  change (str_bytes "") with (@nil ascii). by rewrite !app_nil_r.
Qed.

(** A byte that is not in the cutset ends the trimming. *)
Lemma TrimRight_stop s c t cut :
  in_cutset c cut = false -> str_forallb (fun b => in_cutset b cut) t = true ->
  TrimRight ((s +:+ str_of [c]) +:+ t) cut = s +:+ str_of [c].
Proof.
  intros Hc Ht. unfold TrimRight. rewrite !str_rev_app.
  apply str_forallb_rev in Ht. revert Ht. generalize (String.rev t) as r. intros r Hr.
  assert (TrimLeft (r +:+ String.rev (str_of [c]) +:+ String.rev s) cut = String.rev (s +:+ str_of [c])) as ->.
  { rewrite str_rev_app. induction r as [|b r IH]; simpl in *.
    - change (String.rev (str_of [c])) with (str_of [c]). simpl. by rewrite Hc.
    - apply andb_prop in Hr as [-> Hr]. by apply IH. }
  apply str_rev_involutive.
Qed.

Lemma TrimLeft_none s cut : str_forallb (fun c => negb (in_cutset c cut)) s = true -> TrimLeft s cut = s.
Proof. destruct s as [|c s]; simpl; [done|]. intros [Hc _]%andb_prop. apply negb_true_iff in Hc. by rewrite Hc. Qed.

Lemma replace_byte_cons o new c s :
  ReplaceAll (String c s) (str_of [o]) new
  = (if Ascii.eqb o c then new else str_of [c]) +:+ ReplaceAll s (str_of [o]) new.
Proof. unfold ReplaceAll. cbn. by rewrite andb_true_r; destruct (Ascii.eqb o c). Qed.

Lemma replace_byte_app o new s t :
  ReplaceAll (s +:+ t) (str_of [o]) new = ReplaceAll s (str_of [o]) new +:+ ReplaceAll t (str_of [o]) new.
Proof.
  induction s as [|c s IH]; [done|]. cbn [String.append]. by rewrite !replace_byte_cons, IH, append_assoc.
Qed.

Lemma Atoi_fmt_d n : 0 <= n < 2 ^ 63 -> Atoi (fmt_d n) = Some n.
Proof.
  intros Hn. pose proof (fmt_d_digits n ltac:(lia)) as Hd. pose proof (fmt_d_nonempty n) as Hne.
  pose proof (digits_val_pretty (Z.to_N n)) as Hv. rewrite <- fmt_d_N, Z2N.id in Hv by lia.
  destruct (fmt_d n) as [|c s]; [done|]. cbn [Atoi]. apply andb_prop in Hd as [Hc _].
  assert (Ascii.eqb c "-" = false) as -> by (apply Ascii.eqb_neq; by intros ->).
  assert (Ascii.eqb c "+" = false) as -> by (apply Ascii.eqb_neq; by intros ->). rewrite Hv.
  replace (- 2 ^ 63 <=? n) with true by (symmetry; apply Z.leb_le; lia).
  by replace (n <? 2 ^ 63) with true by (symmetry; apply Z.ltb_lt; lia).
Qed.

Lemma HasSuffix_app s t : HasSuffix (s +:+ t) t = true.
Proof.
  unfold HasSuffix. rewrite slen_app. apply andb_true_intro. split; [apply Nat.leb_le; lia|].
  replace (slen s + slen t - slen t)%nat with (slen s) by lia. rewrite str_drop_app. apply String.eqb_refl.
Qed.

Lemma TrimSuffix_app s t : TrimSuffix (s +:+ t) t = s.
Proof.
  unfold TrimSuffix. rewrite HasSuffix_app, slen_app.
  replace (slen s + slen t - slen t)%nat with (slen s) by lia. apply str_take_app.
Qed.

#[export] Hint Rewrite append_nil_r append_assoc slen_app str_take_app str_drop_app
  HasPrefix_app TrimPrefix_app : golib.
