(* ===== verification/GoRunes.v ===== *)
(** * Runes

    UTF-8 as Go's [range] over a string and [utf8.DecodeRuneInString] read it,
    and the encoding of a rune. *)

From S2P Require Import Prelude GoStrings.
From Stdlib Require Import Ascii.

Definition rune_error : Z := 65533.

Definition cont_byte (c : ascii) : bool := byte_between 128 191 c.

(** [utf8.DecodeRuneInString]: the rune and the rest; a byte that starts no
    rune is U+FFFD by itself. *)
Definition decode_rune (s : string) : option (Z * string) :=
  match s with
  | EmptyString => None
  | String a s1 =>
      let bad := Some (rune_error, s1) in
      if byte_between 0 127 a then Some (byte_val a, s1)
      else match s1 with
           | EmptyString => bad
           | String b s2 =>
               if byte_between 194 223 a
               then if cont_byte b then Some ((byte_val a - 192) * 64 + (byte_val b - 128), s2) else bad
               else match s2 with
                    | EmptyString => bad
                    | String c s3 =>
                        if byte_between 224 239 a
                        then let second := if byte_between 224 224 a then byte_between 160 191 b
                                           else if byte_between 237 237 a then byte_between 128 159 b
                                           else cont_byte b in
                             if second && cont_byte c
                             then Some ((byte_val a - 224) * 4096 + (byte_val b - 128) * 64 + (byte_val c - 128), s3)
                             else bad
                        else match s3 with
                             | EmptyString => bad
                             | String d s4 =>
                                 let second := if byte_between 240 240 a then byte_between 144 191 b
                                               else if byte_between 244 244 a then byte_between 128 143 b
                                               else byte_between 241 243 a && cont_byte b in
                                 if second && cont_byte c && cont_byte d
                                 then Some ((byte_val a - 240) * 262144 + (byte_val b - 128) * 4096
                                            + (byte_val c - 128) * 64 + (byte_val d - 128), s4)
                                 else bad
                             end
                    end
           end
  end.

Fixpoint runes_go (fuel : nat) (s : string) : list Z :=
  match fuel, decode_rune s with
  | S fuel', Some (r, s') => r :: runes_go fuel' s'
  | _, _ => []
  end.
(** [for _, r := range s]; every rune takes at least a byte. *)
Definition runes (s : string) : list Z := runes_go (slen s) s.

(** [utf8.ValidString] *)
Fixpoint valid_utf8 (s : string) : bool :=
  let cont c := byte_between 128 191 c in
  match s with
  | EmptyString => true
  | String a s1 =>
      if byte_between 0 127 a then valid_utf8 s1
      else match s1 with
           | EmptyString => false
           | String b s2 =>
               if byte_between 194 223 a then cont b && valid_utf8 s2
               else match s2 with
                    | EmptyString => false
                    | String c s3 =>
                        let second := if byte_between 224 224 a then byte_between 160 191 b
                                      else if byte_between 237 237 a then byte_between 128 159 b
                                      else byte_between 225 239 a && cont b in
                        if byte_between 224 239 a then second && cont c && valid_utf8 s3
                        else match s3 with
                             | EmptyString => false
                             | String d s4 =>
                                 let second := if byte_between 240 240 a then byte_between 144 191 b
                                               else if byte_between 244 244 a then byte_between 128 143 b
                                               else byte_between 241 243 a && cont b in
                                 second && cont c && cont d && valid_utf8 s4
                             end
                    end
           end
  end.

(** ** Encoding *)

Definition byte_of (z : Z) : ascii := ascii_of_N (Z.to_N z).
(** [utf8.AppendRune]: a surrogate or a number above U+10FFFF is written as
    U+FFFD. *)
Definition encode_rune (r : Z) : string :=
  let r := if (r <? 0) || ((55296 <=? r) && (r <=? 57343)) || (1114111 <? r) then rune_error else r in
  if r <? 128 then str_of [byte_of r]
  else if r <? 2048 then str_of [byte_of (192 + r / 64); byte_of (128 + r mod 64)]
  else if r <? 65536 then str_of [byte_of (224 + r / 4096); byte_of (128 + r / 64 mod 64); byte_of (128 + r mod 64)]
  else str_of [byte_of (240 + r / 262144); byte_of (128 + r / 4096 mod 64); byte_of (128 + r / 64 mod 64); byte_of (128 + r mod 64)].
Definition encode_runes (l : list Z) : string := Join (map encode_rune l) EmptyString.

(** ** Lemmas *)

Lemma byte_val_of z : 0 <= z < 256 -> byte_val (byte_of z) = z.
Proof. intros Hz. unfold byte_val, byte_of. rewrite N_ascii_embedding; lia. Qed.

Lemma decode_rune_shorter s r s' : decode_rune s = Some (r, s') -> (slen s' < slen s)%nat.
Proof.
  destruct s as [|a s1]; [done|]. simpl. intros E.
  repeat (case_match; simplify_eq/=; try lia).
Qed.

Lemma runes_go_enough n m s : (slen s <= n)%nat -> (slen s <= m)%nat -> runes_go n s = runes_go m s.
Proof.
  revert m s. induction n as [|n IH]; intros m s Hn Hm.
  - destruct s; [|simpl in Hn; lia]. by destruct m.
  - destruct m as [|m]; [destruct s; [done|simpl in Hm; lia]|]. cbn [runes_go].
    destruct (decode_rune s) as [[r s']|] eqn:E; [|done]. apply decode_rune_shorter in E. f_equal. apply IH; lia.
Qed.

Lemma runes_step s r s' : decode_rune s = Some (r, s') -> runes s = r :: runes s'.
Proof.
  intros E. pose proof (decode_rune_shorter _ _ _ E) as Hl. unfold runes.
  destruct (slen s) as [|n] eqn:Es; [lia|]. cbn [runes_go]. rewrite E. f_equal. apply runes_go_enough; lia.
Qed.

Lemma between_byte_of lo hi z : 0 <= z < 256 -> byte_between lo hi (byte_of z) = (lo <=? z) && (z <=? hi).
Proof. intros Hz. unfold byte_between. by rewrite byte_val_of. Qed.

Definition is_rune (r : Z) : bool := (0 <=? r) && (r <=? 1114111) && negb ((55296 <=? r) && (r <=? 57343)).

(** Settles the tests on bytes whose values are known up to inequalities. *)
Ltac decide_bytes :=
  repeat match goal with
  | |- context [?a <=? ?b] =>
      first [rewrite (proj2 (Z.leb_le a b)) by lia | rewrite (proj2 (Z.leb_gt a b)) by lia | destruct (Z.leb_spec a b)];
      cbn [andb]
  end.

Lemma decode_encode_rune r s : is_rune r = true -> decode_rune (encode_rune r +:+ s) = Some (r, s).
Proof.
  unfold is_rune. intros Hr.
  assert (0 <= r <= 1114111 /\ ~ (55296 <= r <= 57343)) as [Hr1 Hr2] by (bool_props; lia).
  unfold encode_rune. replace ((r <? 0) || _ || _) with false by (symmetry; bool_props; lia).
  pose proof (Z.div_mod r 64) as D1. pose proof (Z.mod_pos_bound r 64) as M1.
  pose proof (Z.div_mod (r / 64) 64) as D2. pose proof (Z.mod_pos_bound (r / 64) 64) as M2.
  pose proof (Z.div_mod (r / 4096) 64) as D3. pose proof (Z.mod_pos_bound (r / 4096) 64) as M3.
  assert (r / 4096 = r / 64 / 64) as Q1 by (by rewrite Z.div_div).
  assert (r / 262144 = r / 4096 / 64) as Q2 by (by rewrite Z.div_div).
  destruct (Z.ltb_spec r 128); [|destruct (Z.ltb_spec r 2048); [|destruct (Z.ltb_spec r 65536)]];
    cbn [String.append str_of String.string_of_list_ascii]; unfold decode_rune, cont_byte; rewrite ?between_byte_of, ?byte_val_of by lia; decide_bytes;
    cbn [andb]; f_equal; f_equal; lia.
Qed.

Lemma runes_encode l : forallb is_rune l = true -> runes (encode_runes l) = l.
Proof.
  unfold encode_runes. induction l as [|r l IH]; [done|]. intros [Hr Hl]%andb_prop. cbn [map].
  assert (Join (encode_rune r :: map encode_rune l) EmptyString = encode_rune r +:+ Join (map encode_rune l) EmptyString) as ->
    by (cbn [Join]; destruct (map encode_rune l); [by rewrite append_nil_r|done]).
  rewrite (runes_step _ r (Join (map encode_rune l) EmptyString)) by (by apply decode_encode_rune). by rewrite IH.
Qed.

(** ** Valid text *)

(** A character of UTF-8: one ASCII byte, or at most four bytes none of which
    is ASCII. *)
Definition utf8_char (ch : string) : Prop :=
  (forall t, valid_utf8 (ch +:+ t) = valid_utf8 t)
  /\ ((exists a, ch = str_of [a] /\ byte_between 0 127 a = true)
      \/ ((0 < slen ch <= 4)%nat /\ str_forallb (fun b => negb (byte_between 0 127 b)) ch = true)).

Lemma not_ascii lo hi b : 127 < lo -> byte_between lo hi b = true -> byte_between 0 127 b = false.
Proof.
  unfold byte_between. intros Hlo [Hl _]%andb_prop. apply andb_false_iff. right. apply Z.leb_gt. apply Z.leb_le in Hl. lia.
Qed.

Lemma second_high (p q : bool) a lo1 hi1 lo2 hi2 (r : bool) b :
  127 < lo1 -> 127 < lo2 -> (r = true -> byte_between 0 127 b = false) ->
  (if p then byte_between lo1 hi1 b else if q then byte_between lo2 hi2 b else a && r) = true -> byte_between 0 127 b = false.
Proof.
  intros H1 H2 Hr. destruct p; [eauto using not_ascii|]. destruct q; [eauto using not_ascii|]. intros [_ Hb]%andb_prop. auto.
Qed.

Lemma valid_char s :
  valid_utf8 s = true -> s = EmptyString \/ exists ch t, s = ch +:+ t /\ utf8_char ch /\ valid_utf8 t = true.
Proof.
  assert (Hc : forall b, byte_between 128 191 b = true -> byte_between 0 127 b = false) by (intros; eapply not_ascii; [|done]; lia).
  intros H. destruct s as [|a s1]; [by left|]. right. cbn [valid_utf8] in H.
  destruct (byte_between 0 127 a) eqn:Ha.
  { exists (str_of [a]), s1. split_and!; [done| |done]. split; [intros t; simpl; by rewrite Ha|left; eauto]. }
  destruct s1 as [|b s2]; [done|]. destruct (byte_between 194 223 a) eqn:Ha2.
  { apply andb_prop in H as [Hb Ht]. exists (str_of [a; b]), s2. split_and!; [done| |done]. split.
    - intros t. simpl. by rewrite Ha, Ha2, Hb.
    - right. split; [simpl; lia|]. simpl. by rewrite Ha, Hc. }
  destruct s2 as [|c s3]; [done|]. destruct (byte_between 224 239 a) eqn:Ha3.
  { apply andb_prop in H as [[Hb H3]%andb_prop Ht]. exists (str_of [a; b; c]), s3. split_and!; [done| |done]. split.
    - intros t. simpl. by rewrite Ha, Ha2, Ha3, Hb, H3.
    - right. split; [simpl; lia|]. simpl. rewrite Ha, (Hc c) by done.
      assert (byte_between 0 127 b = false) as -> by (refine (second_high _ _ _ _ _ _ _ _ _ _ _ _ Hb); auto; lia); done. }
  destruct s3 as [|d s4]; [done|]. apply andb_prop in H as [[[Hb H3]%andb_prop H4]%andb_prop Ht].
  exists (str_of [a; b; c; d]), s4. split_and!; [done| |done]. split.
  - intros t. simpl. by rewrite Ha, Ha2, Ha3, Hb, H3, H4.
  - right. split; [simpl; lia|]. simpl. rewrite Ha, (Hc c), (Hc d) by done.
    assert (byte_between 0 127 b = false) as -> by (refine (second_high _ _ _ _ _ _ _ _ _ _ _ _ Hb); auto; lia); done.
Qed.

Lemma app_split (s t u v : string) :
  s +:+ u = t +:+ v -> (exists w, s = t +:+ w /\ v = w +:+ u) \/ (exists w, t = s +:+ w /\ u = w +:+ v).
Proof.
  revert t. induction s as [|c s IH]; intros [|d t] E; simpl in E; subst; [left|right|left|]; eauto.
  injection E as -> E. destruct (IH t E) as [(w & -> & ->)|(w & -> & ->)]; [left|right]; eauto.
Qed.

Lemma str_take_app_add s t k : str_take (slen s + k) (s +:+ t) = s +:+ str_take k t.
Proof. unfold slen. induction s; simpl; congruence. Qed.

Lemma utf8_char_pos ch : utf8_char ch -> (0 < slen ch <= 4)%nat.
Proof. intros [_ [(a & -> & _)|[? _]]]; [simpl; lia|done]. Qed.

(** Where a string with an ASCII byte in it is valid, so is what precedes the
    byte. *)
Lemma valid_before_ascii c t s :
  byte_between 0 127 c = true -> valid_utf8 (s +:+ String c t) = true -> valid_utf8 s = true.
Proof.
  intros Hc. induction s as [s IH] using (induction_ltof1 _ slen). unfold ltof in IH. intros Hv.
  destruct (valid_char _ Hv) as [E|(ch & u & E & Hch & Hu)]; [by destruct s|].
  pose proof (utf8_char_pos ch Hch) as Hpos. destruct (app_split s ch (String c t) u E) as [(v & -> & Eu)|(v & -> & Ec)].
  - subst u. rewrite (proj1 Hch). apply IH; [rewrite slen_app; lia|done].
  - destruct v as [|d v]; [rewrite append_nil_r in *; by rewrite <- (append_nil_r s), (proj1 Hch)|].
    injection Ec as <- ->. destruct Hch as [Hch [(a & Ea & _)|[_ Hhigh]]].
    + destruct s as [|d' s]; [done|]. by destruct s.
    + rewrite str_forallb_app in Hhigh. simpl in Hhigh. rewrite Hc in Hhigh. by rewrite andb_false_r in Hhigh.
Qed.

(** A valid string can be cut within three bytes before any point. *)
Lemma valid_cut s n :
  valid_utf8 s = true -> (n <= slen s)%nat ->
  exists k, (k <= n < k + 4)%nat /\ valid_utf8 (str_take k s) = true.
Proof.
  revert n. induction s as [s IH] using (induction_ltof1 _ slen). unfold ltof in IH. intros n Hs Hn.
  destruct (valid_char s Hs) as [->|(ch & t & -> & Hch & Ht)]; [exists 0%nat; simpl in *; split; [lia|done]|].
  pose proof (utf8_char_pos ch Hch). rewrite slen_app in Hn.
  destruct (decide (n < slen ch)%nat) as [Hlt|Hge]; [exists 0%nat; split; [lia|done]|].
  destruct (IH t ltac:(rewrite slen_app; lia) (n - slen ch)%nat Ht ltac:(lia)) as (k & Hk & Hv).
  exists (slen ch + k)%nat. split; [lia|]. rewrite str_take_app_add. by rewrite (proj1 Hch).
Qed.

Ltac byte_facts :=
  repeat match goal with
  | H : byte_between _ _ _ = true |- _ => unfold byte_between in H
  | H : byte_between _ _ _ = false |- _ => unfold byte_between in H
  | H : cont_byte _ = true |- _ => unfold cont_byte, byte_between in H
  end.

Lemma is_rune_spec r : 0 <= r <= 1114111 -> ~ (55296 <= r <= 57343) -> is_rune r = true.
Proof. intros. unfold is_rune. bool_props; lia. Qed.

(** What is decoded is a rune; below 128 it is the byte it is read from. *)
Lemma decode_rune_spec s r s' :
  decode_rune s = Some (r, s') ->
  is_rune r = true /\ (r < 128 -> exists c, s = String c s' /\ byte_val c = r).
Proof.
  assert (Hbad : forall t, Some (rune_error, t) = Some (r, s') -> is_rune r = true /\ (r < 128 -> exists c, s = String c s' /\ byte_val c = r))
    by (intros t [= <- _]; split; [done|unfold rune_error; lia]).
  unfold decode_rune. destruct s as [|a s1]; [done|]. cbv zeta.
  destruct (byte_between 0 127 a) eqn:Ha.
  { intros [= <- <-]. split; [|eauto]. byte_facts. apply is_rune_spec; bool_props; lia. }
  destruct s1 as [|b s2]; [apply Hbad|]. destruct (byte_between 194 223 a) eqn:Ha2.
  { destruct (cont_byte b) eqn:Hb; [|apply Hbad]. intros [= <- <-]. byte_facts. bool_props. split; [apply is_rune_spec|]; lia. }
  destruct s2 as [|c s3]; [apply Hbad|]. destruct (byte_between 224 239 a) eqn:Ha3.
  { destruct (_ && _) eqn:E; [|apply Hbad]. apply andb_prop in E as [Eb Ec]. intros [= <- <-].
    destruct (byte_between 224 224 a) eqn:E1; [|destruct (byte_between 237 237 a) eqn:E2];
      byte_facts; bool_props; (split; [apply is_rune_spec|]); lia. }
  destruct s3 as [|d s4]; [apply Hbad|]. destruct (_ && _ && _) eqn:E; [|apply Hbad].
  apply andb_prop in E as [[Eb Ec]%andb_prop Ed]. intros [= <- <-].
  destruct (byte_between 240 240 a) eqn:E1; [|destruct (byte_between 244 244 a) eqn:E2; [|apply andb_prop in Eb as [E3 Eb]]];
    byte_facts; bool_props; (split; [apply is_rune_spec|]); lia.
Qed.

Lemma runes_are_runes s : forallb is_rune (runes s) = true.
Proof.
  unfold runes. generalize (slen s). intros n. revert s. induction n as [|n IH]; intros s; [done|]. simpl.
  destruct (decode_rune s) as [[r s']|] eqn:E; [|done]. simpl. apply decode_rune_spec in E as [-> _]. apply IH.
Qed.

Lemma decode_rune_tail s r s' : decode_rune s = Some (r, s') -> exists u, s = u +:+ s'.
Proof.
  unfold decode_rune. intros H. repeat case_match; simplify_eq;
    first [by eexists (str_of [_]) | by eexists (str_of [_; _]) | by eexists (str_of [_; _; _])
          | by eexists (str_of [_; _; _; _])].
Qed.

Lemma runes_low (p : Z -> bool) s :
  (forall r, 128 <= r -> p r = true) -> str_forallb (fun c => p (byte_val c)) s = true -> forallb p (runes s) = true.
Proof.
  intros Hp. unfold runes. generalize (slen s). intros n. revert s. induction n as [|n IH]; intros s Hs; [done|]. simpl.
  destruct (decode_rune s) as [[r s']|] eqn:E; [|done]. simpl.
  assert (Hs' : str_forallb (fun c => p (byte_val c)) s' = true).
  { destruct (decode_rune_tail _ _ _ E) as [u ->]. rewrite str_forallb_app in Hs. by apply andb_prop in Hs as [_ ?]. }
  rewrite (IH _ Hs'), andb_true_r. destruct (Z.ltb_spec r 128) as [Hr|Hr]; [|by apply Hp].
  apply decode_rune_spec in E as [_ E]. destruct (E Hr) as (c & -> & <-). simpl in Hs. by apply andb_prop in Hs as [? _].
Qed.
