(* ===== verification/Base64.v ===== *)
(** * base64.RawURLEncoding

    The unpadded URL-safe base64 of Go's [encoding/base64], which the server
    uses for mailbox ids, account ids, thread ids and state tokens.  Bytes are
    taken apart into bits, so that the grouping of 3 bytes into 4 sextets is
    the pattern of the definition itself. *)

From S2P Require Import Prelude GoStrings.
From Stdlib Require Import Ascii.

(** Six bits, least significant first, as [Ascii] lists its eight. *)
Inductive sextet : Type :=
| Sx (b0 b1 b2 b3 b4 b5 : bool).

Definition N_of_sextet (s : sextet) : N :=
  let '(Sx b0 b1 b2 b3 b4 b5) := s in
  N_of_ascii (Ascii b0 b1 b2 b3 b4 b5 false false).

(** The alphabet [A-Z a-z 0-9 - _]. *)
Definition b64_char (s : sextet) : ascii :=
  let n := N_of_sextet s in
  if (n <? 26)%N then ascii_of_N (65 + n)
  else if (n <? 52)%N then ascii_of_N (71 + n)
  else if (n <? 62)%N then ascii_of_N (n - 4)
  else if (n =? 62)%N then "-"%char else "_"%char.

Definition sextet_of_N (n : N) : sextet :=
  let '(Ascii b0 b1 b2 b3 b4 b5 _ _) := ascii_of_N n in Sx b0 b1 b2 b3 b4 b5.

Definition b64_val (c : ascii) : option sextet :=
  let n := N_of_ascii c in
  if is_upper_ascii c then Some (sextet_of_N (n - 65))
  else if is_lower_ascii c then Some (sextet_of_N (n - 71))
  else if is_digit_ascii c then Some (sextet_of_N (n + 4))
  else if Ascii.eqb c "-" then Some (sextet_of_N 62)
  else if Ascii.eqb c "_" then Some (sextet_of_N 63)
  else None.

(** Three bytes as four sextets, two as three, one as two; the bits left over
    in the last sextet of a short group are zero. *)
Definition enc3 (a b c : ascii) : list sextet :=
  let '(Ascii a0 a1 a2 a3 a4 a5 a6 a7) := a in
  let '(Ascii b0 b1 b2 b3 b4 b5 b6 b7) := b in
  let '(Ascii c0 c1 c2 c3 c4 c5 c6 c7) := c in
  [Sx a2 a3 a4 a5 a6 a7; Sx b4 b5 b6 b7 a0 a1; Sx c6 c7 b0 b1 b2 b3; Sx c0 c1 c2 c3 c4 c5].
Definition enc2 (a b : ascii) : list sextet :=
  let '(Ascii a0 a1 a2 a3 a4 a5 a6 a7) := a in
  let '(Ascii b0 b1 b2 b3 b4 b5 b6 b7) := b in
  [Sx a2 a3 a4 a5 a6 a7; Sx b4 b5 b6 b7 a0 a1; Sx false false b0 b1 b2 b3].
Definition enc1 (a : ascii) : list sextet :=
  let '(Ascii a0 a1 a2 a3 a4 a5 a6 a7) := a in
  [Sx a2 a3 a4 a5 a6 a7; Sx false false false false a0 a1].

Definition chars_of (l : list sextet) : string := str_of (map b64_char l).

Fixpoint b64_encode (s : string) : string :=
  match s with
  | EmptyString => EmptyString
  | String a EmptyString => chars_of (enc1 a)
  | String a (String b EmptyString) => chars_of (enc2 a b)
  | String a (String b (String c s')) => chars_of (enc3 a b c) +:+ b64_encode s'
  end.

Definition dec3 (x y z w : sextet) : list ascii :=
  let '(Sx x0 x1 x2 x3 x4 x5) := x in
  let '(Sx y0 y1 y2 y3 y4 y5) := y in
  let '(Sx z0 z1 z2 z3 z4 z5) := z in
  let '(Sx w0 w1 w2 w3 w4 w5) := w in
  [Ascii y4 y5 x0 x1 x2 x3 x4 x5; Ascii z2 z3 z4 z5 y0 y1 y2 y3; Ascii w0 w1 w2 w3 w4 w5 z0 z1].
Definition dec2 (x y z : sextet) : list ascii := take 2 (dec3 x y z (sextet_of_N 0)).
Definition dec1 (x y : sextet) : list ascii := take 1 (dec3 x y (sextet_of_N 0) (sextet_of_N 0)).

(** The sextets of a text; carriage returns and line feeds are skipped, as
    Go's decoder does, and any other byte outside the alphabet is an error. *)
Fixpoint b64_sextets (s : string) : option (list sextet) :=
  match s with
  | EmptyString => Some []
  | String c s' =>
      if Ascii.eqb c "013" || Ascii.eqb c "010" then b64_sextets s'
      else match b64_val c, b64_sextets s' with
           | Some x, Some l => Some (x :: l)
           | _, _ => None
           end
  end.

(** One sextet alone cannot hold a byte; leftover bits are not checked (the
    decoder is not [Strict]). *)
Fixpoint b64_bytes (l : list sextet) : option (list ascii) :=
  match l with
  | [] => Some []
  | [_] => None
  | [x; y] => Some (dec1 x y)
  | [x; y; z] => Some (dec2 x y z)
  | x :: y :: z :: w :: l' =>
      match b64_bytes l' with
      | Some bs => Some (dec3 x y z w ++ bs)
      | None => None
      end
  end.

Definition b64_decode (s : string) : option string :=
  match b64_sextets s with
  | Some l => str_of <$> b64_bytes l
  | None => None
  end.

(** ** Lemmas *)

Lemma b64_val_char x : b64_val (b64_char x) = Some x.
Proof. by destruct x as [[] [] [] [] [] []]; vm_compute. Qed.

Lemma b64_char_not_newline x :
  Ascii.eqb (b64_char x) "013" || Ascii.eqb (b64_char x) "010" = false.
Proof. by destruct x as [[] [] [] [] [] []]; vm_compute. Qed.

(** Every output byte is one the [Id] type of RFC 8620 allows. *)
Definition is_id_byte (c : ascii) : bool :=
  is_alnum_ascii c || Ascii.eqb c "_" || Ascii.eqb c "-".

Lemma b64_char_id x : is_id_byte (b64_char x) = true.
Proof. by destruct x as [[] [] [] [] [] []]; vm_compute. Qed.

(** Induction on a string three bytes at a time. *)
Lemma str_ind3 (P : string -> Prop) :
  P EmptyString ->
  (forall a, P (String a EmptyString)) ->
  (forall a b, P (String a (String b EmptyString))) ->
  (forall a b c s, P s -> P (String a (String b (String c s)))) ->
  forall s, P s.
Proof.
  intros H0 H1 H2 H3. fix IH 1. intros [|a [|b [|c s]]]; [done..|]. apply H3, IH.
Qed.

Lemma b64_sextets_chars l s :
  b64_sextets (chars_of l +:+ s) = (fun r => l ++ r) <$> b64_sextets s.
Proof.
  induction l as [|x l IH].
  - by destruct (b64_sextets s) eqn:E; simpl; rewrite E.
  - change (chars_of (x :: l)) with (String (b64_char x) (chars_of l)).
    cbn [b64_sextets String.append]. rewrite b64_char_not_newline, b64_val_char, IH.
    by destruct (b64_sextets s).
Qed.

Lemma b64_sextets_chars_nil l : b64_sextets (chars_of l) = Some l.
Proof.
  rewrite <- (append_nil_r (chars_of l)), b64_sextets_chars; simpl. by rewrite app_nil_r.
Qed.

Lemma dec3_enc3 a b c bs :
  b64_bytes (enc3 a b c ++ bs) = (fun r => a :: b :: c :: r) <$> b64_bytes bs.
Proof. destruct a, b, c; simpl. by destruct (b64_bytes bs). Qed.

(** Decoding an encoded byte string gives it back. *)
Lemma b64_decode_encode s : b64_decode (b64_encode s) = Some s.
Proof.
  induction s as [|a|a b|a b c s IH] using str_ind3; unfold b64_decode in *; cbn [b64_encode].
  - done.
  - rewrite b64_sextets_chars_nil. by destruct a.
  - rewrite b64_sextets_chars_nil. by destruct a, b.
  - rewrite b64_sextets_chars. destruct (b64_sextets (b64_encode s)); [|done].
    cbn [fmap option_fmap option_map]. rewrite dec3_enc3.
    destruct (b64_bytes l); simplify_eq/=. done.
Qed.

Lemma b64_encode_inj s t : b64_encode s = b64_encode t -> s = t.
Proof.
  intros Heq. pose proof (b64_decode_encode s) as Hs.
  rewrite Heq, b64_decode_encode in Hs. congruence.
Qed.

Lemma chars_of_id l : str_forallb is_id_byte (chars_of l) = true.
Proof.
  induction l; [done|].
  change (chars_of (?x :: ?k)) with (String (b64_char x) (chars_of k)).
  cbn [str_forallb]. by rewrite b64_char_id.
Qed.

Lemma b64_encode_id s : str_forallb is_id_byte (b64_encode s) = true.
Proof.
  induction s as [|a|a b|a b c s IH] using str_ind3; cbn [b64_encode];
    rewrite ?str_forallb_app, ?chars_of_id, ?IH; done.
Qed.

(** [n] bytes take [ceil(4n/3)] characters. *)
Lemma b64_encode_length s : slen (b64_encode s) = ((4 * slen s + 2) / 3)%nat.
Proof.
  induction s as [|a|a b|a b c s IH] using str_ind3; [done|by destruct a|by destruct a, b|].
  cbn [b64_encode]. rewrite slen_app, IH.
  replace (slen (chars_of (enc3 a b c))) with 4%nat by (by destruct a, b, c).
  change (slen (String a (String b (String c s)))) with (3 + slen s)%nat.
  replace (4 * (3 + slen s) + 2)%nat with ((4 * slen s + 2) + 4 * 3)%nat by lia.
  rewrite Nat.div_add by lia. lia.
Qed.

#[export] Hint Resolve b64_decode_encode b64_encode_id : golib.
