(* ===== verification/Json.v ===== *)
(** * JSON values

    The dynamic values ([any]) that [encoding/json] gives the handlers: nil,
    bool, float64, string, []any and map[string]any.  A Go map is an
    association list with distinct keys ([obj_wf]); the order of the list is
    the order in which one [range] over the map visits it, which Go leaves
    unspecified, so a theorem about every list is a theorem about every
    iteration order.  [json_eqv] identifies the values that differ in that
    order only. *)

From S2P Require Import Prelude GoStrings.
From Stdlib Require Import Ascii SpecFloat.

Unset Elimination Schemes.
Inductive json : Type :=
| JNull
| JBool (b : bool)
| JNum (f : spec_float)
| JStr (s : string)
| JArr (l : list json)
| JObj (m : list (string * json)).
Set Elimination Schemes.

Abbreviation obj := (list (string * json)).

(** ** float64 *)

(** The value of a JSON integer as a [float64]. *)
Definition f64_of_Z (z : Z) : spec_float := binary_normalize 53 1024 z 0 false.

(** The integer part, towards zero. *)
Definition f64_trunc (f : spec_float) : Z :=
  match f with
  | S754_finite s m e =>
      let a := if 0 <=? e then Zpos m * 2 ^ e else Zpos m / 2 ^ (- e) in
      if s : bool then - a else a
  | _ => 0
  end.

Definition f64_finite (f : spec_float) : bool :=
  match f with
  | S754_zero _ | S754_finite _ _ _ => true
  | _ => false
  end.

(** [math.Trunc] *)
Definition math_Trunc (f : spec_float) : spec_float :=
  match f with
  | S754_finite _ _ e => if 0 <=? e then f else f64_of_Z (f64_trunc f)
  | _ => f
  end.

Section Conversions.
Context `{GoRuntime}.

(** [int(f)] and [uint64(f)] *)
Definition f64_to_int (f : spec_float) : Z :=
  let t := f64_trunc f in
  if f64_finite f && (- 2 ^ 63 <=? t) && (t <? 2 ^ 63) then t else i64 (rt_float_to_int f).
Definition f64_to_uint64 (f : spec_float) : Z :=
  let t := f64_trunc f in
  if f64_finite f && (0 <=? t) && (t <? 2 ^ 64) then t else u64 (rt_float_to_uint64 f).
End Conversions.

(** ** map[string]any *)

Fixpoint obj_get (m : obj) (k : string) : option json :=
  match m with
  | [] => None
  | (k', v) :: m' => if String.eqb k' k then Some v else obj_get m' k
  end.

(** [m[k] = v] *)
Fixpoint obj_set (m : obj) (k : string) (v : json) : obj :=
  match m with
  | [] => [(k, v)]
  | (k', v') :: m' => if String.eqb k' k then (k, v) :: m' else (k', v') :: obj_set m' k v
  end.

(** [delete(m, k)] *)
Fixpoint obj_del (m : obj) (k : string) : obj :=
  match m with
  | [] => []
  | (k', v) :: m' => if String.eqb k' k then obj_del m' k else (k', v) :: obj_del m' k
  end.

Definition obj_keys (m : obj) : list string := map fst m.
Definition obj_wf (m : obj) : Prop := NoDup (obj_keys m).

(** The comma-ok type assertions [m[k].(T)]. *)
Definition get_str (m : obj) (k : string) : option string :=
  match obj_get m k with Some (JStr s) => Some s | _ => None end.
Definition get_bool (m : obj) (k : string) : option bool :=
  match obj_get m k with Some (JBool b) => Some b | _ => None end.
Definition get_num (m : obj) (k : string) : option spec_float :=
  match obj_get m k with Some (JNum f) => Some f | _ => None end.
Definition get_arr (m : obj) (k : string) : option (list json) :=
  match obj_get m k with Some (JArr l) => Some l | _ => None end.
Definition get_obj (m : obj) (k : string) : option obj :=
  match obj_get m k with Some (JObj o) => Some o | _ => None end.
(** [s, _ := m[k].(string)] and [b, _ := m[k].(bool)] *)
Definition str_or_empty (m : obj) (k : string) : string := default EmptyString (get_str m k).
Definition bool_or_false (m : obj) (k : string) : bool := default false (get_bool m k).
(** [v, ok := m[k]; ok && v != nil] *)
Definition get_present (m : obj) (k : string) : option json :=
  match obj_get m k with Some JNull => None | o => o end.

Definition jint (z : Z) : json := JNum (f64_of_Z z).
Definition jstrs (l : list string) : json := JArr (map JStr l).

Definition is_null (j : json) : bool := match j with JNull => true | _ => false end.

(** ** reflect.DeepEqual on JSON values *)

Fixpoint deep_equal (a b : json) {struct a} : bool :=
  match a, b with
  | JNull, JNull => true
  | JBool x, JBool y => Bool.eqb x y
  | JNum x, JNum y => SFeqb x y
  | JStr x, JStr y => String.eqb x y
  | JArr l1, JArr l2 =>
      (fix go (l1 l2 : list json) : bool :=
         match l1, l2 with
         | [], [] => true
         | x :: l1', y :: l2' => deep_equal x y && go l1' l2'
         | _, _ => false
         end) l1 l2
  | JObj m1, JObj m2 =>
      (length m1 =? length m2)%nat &&
      (fix go (m1 : obj) : bool :=
         match m1 with
         | [] => true
         | (k, x) :: m1' =>
             match obj_get m2 k with Some y => deep_equal x y | None => false end && go m1'
         end) m1
  | _, _ => false
  end.

(** ** Rendering: [%v] and [json.Marshal] *)

(** Members in the order of their keys, as both print maps. *)
Definition key_le (a b : string * string) : Prop := String.le (fst a) (fst b).
#[export] Instance key_le_dec a b : Decision (key_le a b).
Proof. unfold key_le. apply _. Defined.

Section Render.
Context `{GoRuntime}.

Fixpoint fmt_v (j : json) : string :=
  match j with
  | JNull => "<nil>"
  | JBool b => if b then "true" else "false"
  | JNum f => rt_format_float f
  | JStr s => s
  | JArr l => "[" +:+ Join (map fmt_v l) " " +:+ "]"
  | JObj m =>
      let kvs := merge_sort key_le (map (fun kv => (fst kv, fmt_v (snd kv))) m) in
      "map[" +:+ Join (map (fun kv => fst kv +:+ ":" +:+ snd kv) kvs) " " +:+ "]"
  end.

(** A JSON string: quotation mark, backslash, control bytes and the HTML
    characters are escaped. *)
Definition json_byte (c : ascii) : string :=
  if Ascii.eqb c dquote || Ascii.eqb c backslash then str_of [backslash; c]
  else if Ascii.eqb c "008" then str_of [backslash; "b"%char]
  else if Ascii.eqb c "012" then str_of [backslash; "f"%char]
  else if Ascii.eqb c "010" then str_of [backslash; "n"%char]
  else if Ascii.eqb c "013" then str_of [backslash; "r"%char]
  else if Ascii.eqb c "009" then str_of [backslash; "t"%char]
  else if byte_between 0 31 c || Ascii.eqb c "<" || Ascii.eqb c ">" || Ascii.eqb c "&"
  then str_of [backslash; "u"%char; "0"%char; "0"%char;
               hex_digit (N_of_ascii c / 16); hex_digit (N_of_ascii c mod 16)]
  else str_of [c].
Fixpoint json_string_body (s : string) : string :=
  match s with
  | EmptyString => EmptyString
  | String c s' => json_byte c +:+ json_string_body s'
  end.
Definition json_string (s : string) : string :=
  if is_ascii s then str_of [dquote] +:+ json_string_body s +:+ str_of [dquote]
  else rt_json_string s.

Fixpoint json_Marshal (j : json) : option string :=
  match j with
  | JNull => Some "null"
  | JBool b => Some (if b then "true" else "false")
  | JNum f => rt_json_float f
  | JStr s => Some (json_string s)
  | JArr l =>
      (fun es => "[" +:+ Join es "," +:+ "]") <$> mapM json_Marshal l
  | JObj m =>
      (fun es =>
         let kvs := merge_sort key_le es in
         "{" +:+ Join (map (fun kv => json_string (fst kv) +:+ ":" +:+ snd kv) kvs) "," +:+ "}")
      <$> mapM (fun kv => pair (fst kv) <$> json_Marshal (snd kv)) m
  end.
End Render.

(** ** Reading along a path of object keys *)

Fixpoint path_get (j : json) (p : list string) : option json :=
  match p with
  | [] => Some j
  | t :: p' =>
      match j with
      | JObj m => match obj_get m t with Some v => path_get v p' | None => None end
      | _ => None
      end
  end.

(** What is seen at a node: an object, or a leaf with its value. *)
Inductive node : Type :=
| NObj
| NLeaf (j : json).
Definition node_of (j : json) : node :=
  match j with JObj _ => NObj | _ => NLeaf j end.
Definition view (j : json) (p : list string) : option node := node_of <$> path_get j p.

(** Equality up to the order of object members. *)
Definition json_eqv (a b : json) : Prop := forall p, view a p = view b p.

(** ** Induction on JSON values *)

Section json_ind.
Variable P : json -> Prop.
Hypothesis Hnull : P JNull.
Hypothesis Hbool : forall b, P (JBool b).
Hypothesis Hnum : forall f, P (JNum f).
Hypothesis Hstr : forall s, P (JStr s).
Hypothesis Harr : forall l, Forall P l -> P (JArr l).
Hypothesis Hobj : forall m, Forall (fun kv => P (snd kv)) m -> P (JObj m).

Definition json_ind : forall j, P j :=
  fix IH (j : json) : P j :=
    match j with
    | JNull => Hnull
    | JBool b => Hbool b
    | JNum f => Hnum f
    | JStr s => Hstr s
    | JArr l => Harr l
        ((fix go (l : list json) : Forall P l :=
            match l with
            | [] => Forall_nil_2 P
            | x :: l' => Forall_cons_2 P x l' (IH x) (go l')
            end) l)
    | JObj m => Hobj m
        ((fix go (m : obj) : Forall (fun kv => P (snd kv)) m :=
            match m with
            | [] => Forall_nil_2 _
            | kv :: m' => Forall_cons_2 _ kv m' (IH (snd kv)) (go m')
            end) m)
    end.
End json_ind.

(** ** Lemmas on objects *)

Lemma obj_get_set_eq m k v : obj_get (obj_set m k v) k = Some v.
Proof.
  induction m as [|[k' v'] m IH]; simpl; [by rewrite String.eqb_refl|].
  destruct (String.eqb k' k) eqn:E; simpl; [by rewrite String.eqb_refl | by rewrite E].
Qed.

Lemma obj_get_set_ne m k k' v : k <> k' -> obj_get (obj_set m k v) k' = obj_get m k'.
Proof.
  intros Hne. induction m as [|[k2 v2] m IH]; simpl.
  - by rewrite (proj2 (String.eqb_neq _ _) Hne).
  - destruct (String.eqb k2 k) eqn:E; simpl; bool_props; subst.
    + by rewrite (proj2 (String.eqb_neq _ _) Hne).
    + by rewrite IH.
Qed.

Lemma obj_get_del_eq m k : obj_get (obj_del m k) k = None.
Proof.
  induction m as [|[k' v'] m IH]; simpl; [done|].
  destruct (String.eqb k' k) eqn:E; simpl; [done | by rewrite E].
Qed.

Lemma obj_get_del_ne m k k' : k <> k' -> obj_get (obj_del m k) k' = obj_get m k'.
Proof.
  intros Hne. induction m as [|[k2 v2] m IH]; simpl; [done|].
  destruct (String.eqb k2 k) eqn:E; simpl; bool_props; subst.
  - by rewrite (proj2 (String.eqb_neq _ _) Hne).
  - by rewrite IH.
Qed.

Lemma obj_get_set m k k' v :
  obj_get (obj_set m k v) k' = if decide (k = k') then Some v else obj_get m k'.
Proof. case_decide; subst; [apply obj_get_set_eq | by apply obj_get_set_ne]. Qed.

Lemma obj_get_del m k k' :
  obj_get (obj_del m k) k' = if decide (k = k') then None else obj_get m k'.
Proof. case_decide; subst; [apply obj_get_del_eq | by apply obj_get_del_ne]. Qed.

Lemma obj_get_In m k v : obj_get m k = Some v -> In (k, v) m.
Proof.
  induction m as [|[k' v'] m IH]; simpl; [done|].
  destruct (String.eqb k' k) eqn:E; bool_props; intros; simplify_eq; auto.
Qed.

Lemma obj_get_keys m k : obj_get m k = None <-> k ∉ obj_keys m.
Proof.
  induction m as [|[k' v'] m IH]; simpl; [set_solver|].
  destruct (String.eqb k' k) eqn:E; bool_props; subst; set_solver.
Qed.

Lemma obj_In_get m k v : obj_wf m -> In (k, v) m -> obj_get m k = Some v.
Proof.
  unfold obj_wf. induction m as [|[k' v'] m IH]; simpl; [done|].
  intros [Hk Hm]%NoDup_cons [?|Hin]; simplify_eq/=.
  - by rewrite String.eqb_refl.
  - destruct (String.eqb k' k) eqn:E; [|auto]. bool_props; subst.
    destruct Hk. apply list_elem_of_In, in_map_iff. by exists (k, v).
Qed.

Lemma obj_keys_set m k v :
  obj_keys (obj_set m k v) = if decide (k ∈ obj_keys m) then obj_keys m else obj_keys m ++ [k].
Proof.
  induction m as [|[k' v'] m IH]; simpl; [done|].
  destruct (String.eqb k' k) eqn:E; bool_props; subst; simpl.
  - by rewrite decide_True by set_solver.
  - rewrite IH. repeat case_decide; set_solver.
Qed.

Lemma obj_wf_set m k v : obj_wf m -> obj_wf (obj_set m k v).
Proof.
  unfold obj_wf. rewrite obj_keys_set. case_decide; [done|]. intros.
  apply NoDup_app. repeat split; [done|set_solver|apply NoDup_singleton].
Qed.

Lemma obj_keys_del m k : obj_keys (obj_del m k) = filter (fun x => x <> k) (obj_keys m).
Proof.
  induction m as [|[k' v'] m IH]; simpl; [done|].
  destruct (String.eqb k' k) eqn:E; bool_props; subst; simpl.
  - rewrite IH. by rewrite filter_cons_False by naive_solver.
  - rewrite IH. by rewrite filter_cons_True.
Qed.

Lemma obj_wf_del m k : obj_wf m -> obj_wf (obj_del m k).
Proof. unfold obj_wf. rewrite obj_keys_del. apply NoDup_filter. Qed.

#[export] Hint Resolve obj_wf_set obj_wf_del : golib.

(** ** Lemmas on paths and views *)

Lemma path_get_app j p q :
  path_get j (p ++ q) = match path_get j p with Some v => path_get v q | None => None end.
Proof.
  revert j. induction p as [|t p IH]; intros j; simpl; [done|].
  destruct j; try done. destruct (obj_get m t); [apply IH|done].
Qed.

#[export] Instance json_eqv_equivalence : Equivalence json_eqv.
Proof.
  split; unfold json_eqv.
  - done.
  - intros a b Hab p. by rewrite Hab.
  - intros a b c Hab Hbc p. by rewrite Hab.
Qed.

Lemma view_cons j t p :
  view j (t :: p) = match path_get j [t] with Some v => view v p | None => None end.
Proof.
  unfold view. cbn [path_get]. destruct j; try done. by destruct (obj_get m t).
Qed.

(** Two objects are equivalent when equivalent values are under every key. *)
Lemma json_eqv_obj m1 m2 :
  json_eqv (JObj m1) (JObj m2) <->
  forall k, option_Forall2 json_eqv (obj_get m1 k) (obj_get m2 k).
Proof.
  split.
  - intros Heq k. pose proof (Heq [k]) as Hk. unfold view in Hk; simpl in Hk.
    destruct (obj_get m1 k) as [v1|] eqn:E1, (obj_get m2 k) as [v2|] eqn:E2;
      simplify_eq/=; constructor.
    intros p. pose proof (Heq (k :: p)) as Hp. rewrite !view_cons in Hp; simpl in Hp.
    by rewrite E1, E2 in Hp.
  - intros Heq [|k p]; [done|]. rewrite !view_cons; simpl.
    pose proof (Heq k) as Hk. destruct (obj_get m1 k), (obj_get m2 k); inversion Hk; subst; auto.
Qed.

#[export] Instance obj_set_proper k :
  Proper ((fun a b => json_eqv (JObj a) (JObj b)) ==> json_eqv
          ==> (fun a b => json_eqv (JObj a) (JObj b))) (fun m => obj_set m k).
Proof.
  intros m1 m2 Hm v1 v2 Hv. apply json_eqv_obj. intros k'.
  rewrite !obj_get_set. case_decide; [by constructor|]. by apply json_eqv_obj.
Qed.
