(* ===== verification/Envelope.v ===== *)
(** * The protocol envelope

    [jmap/jmapcore]: the [Id] type ([rfc8620_sec1_types.go]), invocations,
    method errors and the [using] check ([rfc8620_sec3_envelope.go]), the
    [SetError] object ([rfc8620_sec5_creationref.go]) and the two stores that
    live as long as one request ([request_cache.go], [request_scope.go]). *)

From S2P Require Import Prelude GoStrings Base64 Json.
From Stdlib Require Import Ascii.

(** ** Ids *)

(** [Id.Validate]: the regular expression ^[A-Za-z0-9_-]{1,255}$ *)
Definition Id_Validate (id : string) : bool :=
  (1 <=? slen id)%nat && (slen id <=? 255)%nat && str_forallb is_id_byte id.

(** ** Errors *)

Record SetError : Type := mkSetError {
  se_Type : string;
  se_Description : string;
  se_Properties : list string;
  se_NotFound : list string;
  se_ExistingID : string;
  se_MaxSize : option Z;
  se_MaxRecipients : option Z;
  se_InvalidRecipients : list string;
}.

(** A [SetError] literal that gives its type and description only. *)
Definition set_error (ty desc : string) : SetError :=
  mkSetError ty desc [] [] EmptyString None None [].

(** [SetError.Error] *)
Definition SetError_Error (e : SetError) : string :=
  if negb (String.eqb (se_Description e) EmptyString)
  then se_Type e +:+ ": " +:+ se_Description e
  else se_Type e.

Definition MethodErrorUnknownMethod := "unknownMethod".
Definition MethodErrorInvalidArguments := "invalidArguments".
Definition MethodErrorInvalidResultReference := "invalidResultReference".
Definition MethodErrorAnchorNotFound := "anchorNotFound".
Definition MethodErrorAccountNotFound := "accountNotFound".
Definition MethodErrorForbidden := "forbidden".
Definition MethodErrorRequestTooLarge := "requestTooLarge".
Definition MethodErrorCannotCalculateChanges := "cannotCalculateChanges".

Definition MethodErrorArgs (errType description : string) : obj :=
  ("type", JStr errType) ::
  (if negb (String.eqb description EmptyString)
   then [("description", JStr description)] else []).

Definition InvalidArgumentsErrorArgs (properties : list string) (description : string) : obj :=
  let args := MethodErrorArgs MethodErrorInvalidArguments description in
  if (0 <? length properties)%nat then obj_set args "properties" (jstrs properties) else args.

(** ** Invocations *)

(** [Args] is a Go map, nil when absent. *)
Record Invocation : Type := mkInvocation {
  inv_Name : string;
  inv_Args : option obj;
  inv_ClientCallID : string;
}.

Definition Invocation_MarshalJSON (inv : Invocation) : json :=
  let args := default [] (inv_Args inv) in
  JArr [JStr (inv_Name inv); JObj args; JStr (inv_ClientCallID inv)].

(** [json.Unmarshal] into a string and into a map: null leaves the zero value. *)
Definition unmarshal_string (j : json) : result string string :=
  match j with
  | JStr s => Ok s
  | JNull => Ok EmptyString
  | _ => Err "json: cannot unmarshal into Go value of type string"
  end.
Definition unmarshal_map (j : json) : result string (option obj) :=
  match j with
  | JObj m => Ok (Some m)
  | JNull => Ok None
  | _ => Err "json: cannot unmarshal into Go value of type map[string]interface {}"
  end.
Definition unmarshal_array (j : json) : result string (list json) :=
  match j with
  | JArr l => Ok l
  | JNull => Ok []
  | _ => Err "json: cannot unmarshal into Go value of type []json.RawMessage"
  end.

Definition Invocation_UnmarshalJSON (data : json) : result string Invocation :=
  match unmarshal_array data with
  | Err e => Err e
  | Ok raw =>
      match raw with
      | [r0; r1; r2] =>
          match unmarshal_string r0 with
          | Err e => Err ("invalid method name: " +:+ e)
          | Ok name =>
              match unmarshal_map r1 with
              | Err e => Err ("invalid method args: " +:+ e)
              | Ok args =>
                  match unmarshal_string r2 with
                  | Err e => Err ("invalid client call ID: " +:+ e)
                  | Ok cid => Ok (mkInvocation name args cid)
                  end
              end
          end
      | _ => Err ("invocation must be a 3-element array, got "
                  +:+ fmt_d (Z.of_nat (length raw)) +:+ " elements")
      end
  end.

(** ** The using set *)

(** [uris] is the [using] list the context carries, [None] when none was stored. *)
Definition IsUsingCapability (uris : option (list string)) (capURI : string) : bool :=
  match uris with
  | None => true
  | Some us => existsb (fun u => String.eqb u capURI) us
  end.

(** ** Request-scoped stores *)

(** [RequestCache] with its [sync.Map]; a nil pointer is [None]. *)
Record RequestCache (V : Type) : Type := mkRequestCache {
  rc_dummy : bool;
  rc_data : gmap string V;
}.
Arguments mkRequestCache {V}.
Arguments rc_dummy {V}.
Arguments rc_data {V}.

Section Stores.
Context {V : Type}.

Definition NewRequestCache : RequestCache V := mkRequestCache false ∅.
Definition NewDummyRequestCache : RequestCache V := mkRequestCache true ∅.

Definition RequestCache_Load (c : option (RequestCache V)) (key : string) : option V :=
  match c with
  | None => None
  | Some c => if rc_dummy c then None else rc_data c !! key
  end.
Definition RequestCache_Store (c : option (RequestCache V)) (key : string) (val : V)
  : option (RequestCache V) :=
  match c with
  | None => None
  | Some c =>
      if rc_dummy c then Some c
      else Some (mkRequestCache (rc_dummy c) (<[key := val]> (rc_data c)))
  end.
Definition RequestCache_Delete (c : option (RequestCache V)) (key : string)
  : option (RequestCache V) :=
  match c with
  | None => None
  | Some c =>
      if rc_dummy c then Some c
      else Some (mkRequestCache (rc_dummy c) (delete key (rc_data c)))
  end.

(** [RequestScope]: a [sync.Map], a nil pointer is [None]. *)
Definition RequestScope_Load (s : option (gmap string V)) (key : string) : option V :=
  match s with None => None | Some m => m !! key end.
Definition RequestScope_Store (s : option (gmap string V)) (key : string) (val : V)
  : option (gmap string V) :=
  match s with None => None | Some m => Some (<[key := val]> m) end.
Definition RequestScope_LoadOrStore (s : option (gmap string V)) (key : string) (val : V)
  : option (gmap string V) * (V * bool) :=
  match s with
  | None => (None, (val, false))
  | Some m =>
      match m !! key with
      | Some v => (Some m, (v, true))
      | None => (Some (<[key := val]> m), (val, false))
      end
  end.
Definition RequestScope_Delete (s : option (gmap string V)) (key : string)
  : option (gmap string V) :=
  match s with None => None | Some m => Some (delete key m) end.
End Stores.

(** ** Lemmas *)

Lemma Id_Validate_spec id :
  Id_Validate id = true <->
  (1 <= slen id <= 255)%nat /\ str_forallb is_id_byte id = true.
Proof.
  unfold Id_Validate. rewrite !andb_true_iff, !Nat.leb_le. tauto.
Qed.

Lemma unmarshal_marshal_invocation inv :
  Invocation_UnmarshalJSON (Invocation_MarshalJSON inv)
  = Ok (mkInvocation (inv_Name inv) (Some (default [] (inv_Args inv))) (inv_ClientCallID inv)).
Proof. by destruct inv. Qed.

Lemma RequestCache_Load_Store {V} (c : RequestCache V) k k' v :
  rc_dummy c = false ->
  RequestCache_Load (RequestCache_Store (Some c) k v) k'
  = if decide (k = k') then Some v else RequestCache_Load (Some c) k'.
Proof.
  intros Hd. simpl. rewrite Hd. simpl. by rewrite lookup_insert.
Qed.

Lemma RequestCache_Load_Delete {V} (c : RequestCache V) k k' :
  rc_dummy c = false ->
  RequestCache_Load (RequestCache_Delete (Some c) k) k'
  = if decide (k = k') then None else RequestCache_Load (Some c) k'.
Proof.
  intros Hd. simpl. rewrite Hd. simpl. by rewrite lookup_delete.
Qed.

