(* ===== verification/JsonPointer.v ===== *)
(** * JSON pointers and result-reference paths

    [jmap/jmapcore/rfc8620_sec3_resultref.go] and the pointer parser of
    [jmap/jmapcore/rfc8620_sec5_patch.go]: RFC 6901 pointers with the [*]
    token of RFC 8620 section 3.7.  [EvaluateJSONPointer] first passes its
    argument through [json.Marshal] and [json.Unmarshal]; on the values of
    this model, which are JSON values, that is the identity. *)

From S2P Require Import Prelude GoStrings Json.
From Stdlib Require Import Ascii.

Definition slash : string := "/".

(** The two [strings.ReplaceAll] of a pointer token. *)
Definition unescape_token (t : string) : string :=
  ReplaceAll (ReplaceAll t "~1" "/") "~0" "~".

Definition ParseJSONPointerTokens (path : string) : list string :=
  let p := if HasPrefix path slash then str_drop 1 path else path in
  map unescape_token (Split p slash).

Definition IsResultReference (m : obj) : bool :=
  match obj_get m "resultOf", obj_get m "name", obj_get m "path" with
  | Some _, Some _, Some _ => true
  | _, _, _ => false
  end.

(** [%T] of a JSON value that is neither an object nor an array. *)
Definition type_name (j : json) : string :=
  match j with
  | JNull => "<nil>"
  | JBool _ => "bool"
  | JNum _ => "float64"
  | JStr _ => "string"
  | JArr _ => "[]interface {}"
  | JObj _ => "map[string]interface {}"
  end.

(** One element of the output of [*]: arrays are spliced in. *)
Definition star_append (out : list json) (r : json) : list json :=
  match r with
  | JArr arr => out ++ arr
  | _ => out ++ [r]
  end.

Section Pointer.
Context `{GoRuntime}.

Fixpoint evalPointerTokens (data : json) (tokens : list string) {struct tokens}
  : result string json :=
  match tokens with
  | [] => Ok data
  | token :: rest =>
      match data with
      | JObj v =>
          match obj_get v token with
          | None => Err ("key " +:+ fmt_q token +:+ " not found in object")
          | Some val => evalPointerTokens val rest
          end
      | JArr v =>
          if String.eqb token "*" then
            (fix star (items out : list json) : result string json :=
               match items with
               | [] => Ok (JArr out)
               | item :: items' =>
                   match evalPointerTokens item rest with
                   | Err e => Err e
                   | Ok r => star items' (star_append out r)
                   end
               end) v []
          else
            match Atoi token with
            | Some idx =>
                if (idx <? 0) || (Z.of_nat (length v) <=? idx)
                then Err ("array index " +:+ fmt_q token +:+ " out of bounds")
                else match v !! Z.to_nat idx with
                     | Some val => evalPointerTokens val rest
                     | None => Err ("array index " +:+ fmt_q token +:+ " out of bounds")
                     end
            | None => Err ("array index " +:+ fmt_q token +:+ " out of bounds")
            end
      | _ => Err ("cannot evaluate pointer token " +:+ fmt_q token +:+ " on type "
                  +:+ type_name data)
      end
  end.

Definition EvaluateJSONPointer (data : json) (pointer : string) : result string json :=
  if String.eqb pointer EmptyString then Ok data
  else if negb (HasPrefix pointer slash)
       then Err "invalid json pointer: must start with /"
       else evalPointerTokens data (map unescape_token (Split (str_drop 1 pointer) slash)).
End Pointer.

(** ** Specification: RFC 6901 escaping *)

Fixpoint escape_token (t : string) : string :=
  match t with
  | EmptyString => EmptyString
  | String c t' =>
      if Ascii.eqb c "~" then "~0" +:+ escape_token t'
      else if Ascii.eqb c "/" then "~1" +:+ escape_token t'
      else String c (escape_token t')
  end.

(** The pointer that names a path. *)
Definition pointer_of (tokens : list string) : string :=
  slash +:+ Join (map escape_token tokens) slash.

(** What the star token computes: the results of the elements, in order, with
    the arrays among them spliced in. *)
Definition star_flatten (rs : list json) : list json := foldl star_append [] rs.

(** How RFC 6901 reads a token, from left to right. *)
Fixpoint read_token (s : string) : string :=
  match s with
  | String "~" (String "1" rest) => String "/" (read_token rest)
  | String "~" (String "0" rest) => String "~" (read_token rest)
  | String c rest => String c (read_token rest)
  | EmptyString => EmptyString
  end.

(** What the tokens of a pointer select in a value: a member of an object, an
    element of an array by its number, and for the star what the rest selects in
    each element, in order, the arrays among these put together. *)
Definition spread (r : json) : list json := match r with JArr l => l | _ => [r] end.
Inductive selects : json -> list string -> json -> Prop :=
| selects_here j : selects j [] j
| selects_member m k v rest r : obj_get m k = Some v -> selects v rest r -> selects (JObj m) (k :: rest) r
| selects_element l token i v rest r :
    Atoi token = Some (Z.of_nat i) -> l !! i = Some v -> selects v rest r -> selects (JArr l) (token :: rest) r
| selects_star l rest rs :
    Forall2 (fun item r => selects item rest r) l rs -> selects (JArr l) ("*" :: rest) (JArr (concat (map spread rs))).

(** The text of a pointer: a slash before each token. *)
Definition pointer_text (pointer : string) (tokens : list string) : Prop :=
  exists texts, texts <> [] /\ Forall (fun x => str_forallb (fun b => negb (Ascii.eqb b "/")) x = true) texts
    /\ pointer = slash +:+ Join texts slash /\ tokens = map read_token texts.

(** ** Lemmas *)

(** The two replacements read a token as the RFC does. *)
Fixpoint read_slash (s : string) : string :=
  match s with
  | String "~" (String "1" rest) => String "/" (read_slash rest)
  | String c rest => String c (read_slash rest)
  | EmptyString => EmptyString
  end.
Lemma string_pair_ind (P : string -> Prop) :
  P EmptyString -> (forall a, P (String a EmptyString)) -> (forall a b s, P s -> P (String b s) -> P (String a (String b s))) -> forall s, P s.
Proof.
  intros H0 H1 H2 s. assert (H : P s /\ forall a, P (String a s)); [|apply H]. induction s as [|b s [IHs IHb]]; [by split|]. split; [apply IHb|].
  intros a. apply H2; [done|apply IHb].
Qed.
Ltac ascii_cases c := destruct c as [[] [] [] [] [] [] [] []].
Lemma replace_reads_slash s : replace_go "~1" "/" 0 s = read_slash s.
Proof.
  induction s as [|a|a b s IH IHb] using string_pair_ind; [done|by ascii_cases a|].
  destruct (Ascii.eqb_spec a "~") as [->|Ha].
  - destruct (Ascii.eqb_spec b "1") as [->|Hb].
    + cbn [replace_go HasPrefix Ascii.eqb Bool.eqb andb slen String.append]. cbn. by rewrite IH.
    + transitivity (String "~" (read_slash (String b s))); [|by ascii_cases b].
      rewrite <- IHb. cbn [replace_go HasPrefix]. rewrite Ascii.eqb_refl. rewrite (proj2 (Ascii.eqb_neq "1" b)) by congruence. done.
  - transitivity (String a (read_slash (String b s))); [|by ascii_cases a].
    rewrite <- IHb. cbn [replace_go HasPrefix]. by rewrite (proj2 (Ascii.eqb_neq "~" a)) by congruence.
Qed.
Lemma read_slash_head s : match read_slash s with String "0" r => exists r', s = String "0" r' /\ r = read_slash r' | _ => True end.
Proof. destruct s as [|a s]; [done|]. ascii_cases a; cbn; eauto; try done. destruct s as [|b s]; [done|]. by ascii_cases b. Qed.
Lemma replace_reads_tilde s : replace_go "~0" "~" 0 (read_slash s) = read_token s.
Proof.
  induction s as [|a|a b s IH IHb] using string_pair_ind; [done|by ascii_cases a|].
  destruct (Ascii.eqb_spec a "~") as [->|Ha].
  - destruct (Ascii.eqb_spec b "1") as [->|Hb1]; [cbn; by rewrite IH|].
    destruct (Ascii.eqb_spec b "0") as [->|Hb0]; [cbn; by rewrite IH|].
    transitivity (String "~" (read_token (String b s))); [|by ascii_cases b]. rewrite <- IHb.
    replace (read_slash (String "~" (String b s))) with (String "~" (read_slash (String b s))) by (by ascii_cases b).
    pose proof (read_slash_head (String b s)) as Hh. destruct (read_slash (String b s)) as [|x r]; [done|].
    cbn [replace_go HasPrefix]. rewrite Ascii.eqb_refl.
    destruct (Ascii.eqb_spec "0" x) as [<-|Hx]; [|done]. destruct Hh as (r' & Hs & _). congruence.
  - transitivity (String a (read_token (String b s))); [|by ascii_cases a]. rewrite <- IHb.
    replace (read_slash (String a (String b s))) with (String a (read_slash (String b s))) by (by ascii_cases a).
    cbn [replace_go HasPrefix]. by rewrite (proj2 (Ascii.eqb_neq "~" a)) by congruence.
Qed.
Lemma unescape_token_reads s : unescape_token s = read_token s.
Proof. unfold unescape_token, ReplaceAll. by rewrite replace_reads_slash, replace_reads_tilde. Qed.

Lemma escape_token_no_slash t :
  str_forallb (fun b => negb (Ascii.eqb b "/")) (escape_token t) = true.
Proof.
  induction t as [|c t IH]; simpl; [done|].
  destruct (Ascii.eqb c "~") eqn:E1; [by simpl; rewrite IH|].
  destruct (Ascii.eqb c "/") eqn:E2; simpl; [by rewrite IH|]. by rewrite E2, IH.
Qed.

(** The token after the first of the two replacements. *)
Fixpoint escape_tilde (t : string) : string :=
  match t with
  | EmptyString => EmptyString
  | String c t' => if Ascii.eqb c "~" then "~0" +:+ escape_tilde t' else String c (escape_tilde t')
  end.

Lemma replace_slash_escape t : replace_go "~1" "/" 0 (escape_token t) = escape_tilde t.
Proof.
  induction t as [|c t IH]; [done|]. cbn [escape_token escape_tilde].
  destruct (Ascii.eqb c "~") eqn:E1; [by cbn; rewrite IH|].
  destruct (Ascii.eqb c "/") eqn:E2.
  - apply Ascii.eqb_eq in E2 as ->. by cbn; rewrite IH.
  - cbn [replace_go HasPrefix]. rewrite Ascii.eqb_sym, E1. by simpl; rewrite IH.
Qed.

Lemma replace_tilde_escape t : replace_go "~0" "~" 0 (escape_tilde t) = t.
Proof.
  induction t as [|c t IH]; [done|]. cbn [escape_tilde].
  destruct (Ascii.eqb c "~") eqn:E1.
  - apply Ascii.eqb_eq in E1 as ->. by cbn; rewrite IH.
  - cbn [replace_go HasPrefix]. rewrite Ascii.eqb_sym, E1. by simpl; rewrite IH.
Qed.

Lemma unescape_escape t : unescape_token (escape_token t) = t.
Proof.
  unfold unescape_token, ReplaceAll. by rewrite replace_slash_escape, replace_tilde_escape.
Qed.

Lemma map_unescape_escape l : map unescape_token (map escape_token l) = l.
Proof. induction l; simpl; [done|]. by rewrite unescape_escape, IHl. Qed.

Lemma split_pointer tokens :
  tokens <> [] ->
  map unescape_token (Split (Join (map escape_token tokens) slash) slash) = tokens.
Proof.
  intros Hne. change slash with (str_of ["/"%char]). rewrite Split_Join.
  - apply map_unescape_escape.
  - by destruct tokens.
  - apply Forall_forall. intros x (t & -> & _)%list_elem_of_fmap. apply escape_token_no_slash.
Qed.

Section PointerLemmas.
Context `{GoRuntime}.

Lemma EvaluateJSONPointer_of data tokens :
  tokens <> [] -> EvaluateJSONPointer data (pointer_of tokens) = evalPointerTokens data tokens.
Proof.
  intros Hne. unfold EvaluateJSONPointer, pointer_of. cbn -[Split].
  by rewrite split_pointer.
Qed.

Lemma evalPointerTokens_path j p v :
  path_get j p = Some v -> evalPointerTokens j p = Ok v.
Proof.
  revert j. induction p as [|t p IH]; intros j; simpl; [congruence|].
  destruct j; try done. destruct (obj_get m t); [apply IH|done].
Qed.

(** The loop of the star token, on the results of the elements. *)
Lemma evalPointerTokens_star v rest rs :
  Forall2 (fun item r => evalPointerTokens item rest = Ok r) v rs ->
  evalPointerTokens (JArr v) ("*" :: rest) = Ok (JArr (star_flatten rs)).
Proof.
  intros Hall. cbn [evalPointerTokens]. rewrite String.eqb_refl. unfold star_flatten.
  generalize (@nil json). induction Hall as [|item r v rs Hi _ IH]; intros out; simpl; [done|].
  rewrite Hi. apply IH.
Qed.

Lemma evalPointerTokens_star_inv v rest j :
  evalPointerTokens (JArr v) ("*" :: rest) = Ok j ->
  exists rs, Forall2 (fun item r => evalPointerTokens item rest = Ok r) v rs.
Proof.
  cbn [evalPointerTokens]. rewrite String.eqb_refl. generalize (@nil json).
  induction v as [|item v IH]; intros out Hj; [by exists []|].
  destruct (evalPointerTokens item rest) as [r|e] eqn:E; [|done].
  destruct (IH _ Hj) as [rs Hrs]. by exists (r :: rs); constructor.
Qed.

Lemma star_flatten_concat rs : star_flatten rs = concat (map spread rs).
Proof.
  unfold star_flatten. change (concat (map spread rs)) with ([] ++ concat (map spread rs)). generalize (@nil json).
  induction rs as [|r rs IH]; intros out; cbn [foldl map concat]; [by rewrite app_nil_r|]. rewrite IH, app_assoc. f_equal. by destruct r.
Qed.
(** The evaluation gives what the pointer selects, and fails when it selects
    nothing. *)
Lemma evalPointerTokens_selects tokens : forall j v, evalPointerTokens j tokens = Ok v <-> selects j tokens v.
Proof.
  induction tokens as [|token rest IH]; intros j v.
  { cbn. split; [intros [= ->]; constructor|by inversion 1]. }
  destruct j as [| | | |l|m]; try (split; [done|by inversion 1]).
  - destruct (String.eqb_spec token "*") as [->|Hstar].
    + split.
      * intros Hv. destruct (evalPointerTokens_star_inv _ _ _ Hv) as [rs Hrs]. rewrite (evalPointerTokens_star _ _ _ Hrs) in Hv.
        injection Hv as <-. rewrite star_flatten_concat. constructor. eapply Forall2_impl; [exact Hrs|]. intros item r. apply IH.
      * inversion 1; subst; [done|]. rewrite <- star_flatten_concat. apply evalPointerTokens_star.
        eapply Forall2_impl; [eassumption|]. intros item r. apply IH.
    + cbn [evalPointerTokens]. rewrite (proj2 (String.eqb_neq _ _) Hstar). split.
      * intros Hv. destruct (Atoi token) as [idx|] eqn:Ea; [|done]. destruct (Z.ltb_spec idx 0); [done|]. cbn [orb] in Hv.
        destruct (Z.leb_spec (Z.of_nat (length l)) idx); [done|]. destruct (l !! Z.to_nat idx) as [x|] eqn:El; [|done].
        eapply selects_element; [|exact El|by apply IH]. rewrite Z2Nat.id by lia. done.
      * inversion 1 as [| |? ? i x ? ? Ha Hl Hs|]; subst; [|done]. rewrite Ha. apply lookup_lt_Some in Hl as Hlt.
        rewrite (proj2 (Z.ltb_ge _ _)), (proj2 (Z.leb_gt _ _)) by lia. cbn [orb]. rewrite Nat2Z.id, Hl. by apply IH.
  - cbn [evalPointerTokens]. split.
    + intros Hv. destruct (obj_get m token) as [x|] eqn:E; [|done]. eapply selects_member; [exact E|by apply IH].
    + inversion 1 as [|? ? x ? ? Hg Hs| |]; subst. rewrite Hg. by apply IH.
Qed.
Lemma EvaluateJSONPointer_selects data pointer v :
  pointer <> EmptyString ->
  EvaluateJSONPointer data pointer = Ok v <-> exists tokens, pointer_text pointer tokens /\ selects data tokens v.
Proof.
  intros Hne. unfold EvaluateJSONPointer. rewrite (proj2 (String.eqb_neq _ _) Hne). split.
  - destruct (HasPrefix pointer slash) eqn:Hp; [|done]. cbn [negb]. intros Hv. apply evalPointerTokens_selects in Hv.
    apply HasPrefix_spec in Hp as [rest ->]. eexists. split; [|exact Hv]. exists (Split rest slash).
    change (str_drop 1 (slash +:+ rest)) with rest. split_and!.
    + apply split_go_nonempty.
    + apply (Split_nosep "/").
    + by rewrite (Join_Split "/").
    + apply map_ext, unescape_token_reads.
  - intros (tokens & (texts & Hnil & Hno & -> & ->) & Hs). rewrite HasPrefix_app. cbn [negb].
    change (str_drop 1 (slash +:+ Join texts slash)) with (Join texts slash). apply evalPointerTokens_selects.
    rewrite (Split_Join "/") by done. by rewrite (map_ext _ _ unescape_token_reads).
Qed.
End PointerLemmas.

(** ** Properties *)

(** Every value that a path of object keys leads to is addressed by the
    escaped pointer of that path: the parser gives the path back whatever
    characters its keys have, and the evaluation returns the value. *)
Theorem pointer_reaches_path `{GoRuntime} j p v (Hne : p <> []) (Hp : path_get j p = Some v) :
  ParseJSONPointerTokens (pointer_of p) = p /\ EvaluateJSONPointer j (pointer_of p) = Ok v.
Proof.
  split.
  - unfold ParseJSONPointerTokens, pointer_of. cbn -[Split]. by apply split_pointer.
  - rewrite EvaluateJSONPointer_of by done. by apply evalPointerTokens_path.
Qed.

Lemma pointer_reaches_path_witness :
  ParseJSONPointerTokens (pointer_of ["a/b"; "m~n"]) = ["a/b"; "m~n"] /\
  EvaluateJSONPointer (H := ascii_runtime)
    (JObj [("a/b", JObj [("m~n", JBool true)])]) (pointer_of ["a/b"; "m~n"]) = Ok (JBool true).
Proof. apply (@pointer_reaches_path ascii_runtime); [done | vm_compute; reflexivity]. Defined.

(** The star token succeeds on an array exactly when the rest of the
    pointer succeeds on every element, and then returns the results in order
    with the arrays among them flattened one level. *)
Theorem star_maps_and_flattens `{GoRuntime} v rest j :
  EvaluateJSONPointer (JArr v) (pointer_of ("*" :: rest)) = Ok j <->
  exists rs, Forall2 (fun item r => evalPointerTokens item rest = Ok r) v rs /\
             j = JArr (star_flatten rs).
Proof.
  rewrite EvaluateJSONPointer_of by done. split.
  - intros Hj. destruct (evalPointerTokens_star_inv _ _ _ Hj) as [rs Hrs].
    exists rs. split; [done|]. rewrite (evalPointerTokens_star _ _ _ Hrs) in Hj. congruence.
  - intros (rs & Hrs & ->). by apply evalPointerTokens_star.
Qed.
