(* ===== verification/Patch.v ===== *)
(** * Patch objects

    [jmap/jmapcore/rfc8620_sec5_patch.go]: validation and application of the
    update patches of /set (RFC 8620 section 5.3).  A patch is a map from
    pointers (with an implicit leading slash) to values, null meaning removal.

    [ValidatePatch] ranges over maps: here each range visits the members in
    the order of the list, so the theorems below hold for every order. *)

From S2P Require Import Prelude GoStrings Json Envelope JsonPointer.

Section Patch.
Context `{GoRuntime}.

Definition areEqualValues (a b : json) : bool :=
  deep_equal a b
  || String.eqb (fmt_v a) (fmt_v b)
  || match json_Marshal a, json_Marshal b with
     | Some x, Some y => String.eqb x y
     | _, _ => false
     end.

(** The loop comparing the tokens of A with the first tokens of B. *)
Fixpoint tokens_agree (a b : list string) : bool :=
  match a, b with
  | [], _ => true
  | x :: a', y :: b' => String.eqb x y && tokens_agree a' b'
  | _ :: _, [] => false
  end.
Definition is_strict_prefix (a b : list string) : bool :=
  (length a <? length b)%nat && tokens_agree a b.

(** The body of the two nested loops: different keys, the tokens of the first
    a proper prefix of those of the second. *)
Definition conflicting (pa pb : string * list string) : bool :=
  negb (String.eqb (fst pa) (fst pb)) && is_strict_prefix (snd pa) (snd pb).

Definition prefix_conflict (parsed : list (string * list string)) : option SetError :=
  match List.find (fun pa => existsb (conflicting pa) parsed) parsed with
  | None => None
  | Some pa =>
      match List.find (conflicting pa) parsed with
      | None => None
      | Some pb => Some (set_error "invalidPatch"
                    ("prefix conflict: " +:+ fmt_q (fst pa) +:+ " is a prefix of " +:+ fmt_q (fst pb)))
      end
  end.

Fixpoint check_path (rawPath : string) (cur : json) (tokens : list string) : option SetError :=
  match tokens with
  | [] => None
  | tok :: rest =>
      match cur with
      | JArr _ => Some (set_error "invalidPatch"
          ("pointer " +:+ fmt_q rawPath +:+ " references inside an array at token " +:+ fmt_q tok))
      | JObj m =>
          match rest with
          | [] => None
          | _ =>
              match obj_get m tok with
              | None | Some JNull => Some (set_error "invalidPatch"
                  ("all parts prior to the last must exist; token " +:+ fmt_q tok
                   +:+ " not found for " +:+ fmt_q rawPath))
              | Some (JArr _) => Some (set_error "invalidPatch"
                  ("pointer " +:+ fmt_q rawPath +:+ " references inside an array at token "
                   +:+ fmt_q tok))
              | Some val => check_path rawPath val rest
              end
          end
      | _ => Some (set_error "invalidPatch"
          ("pointer " +:+ fmt_q rawPath +:+ " part " +:+ fmt_q tok
           +:+ " does not exist on non-object"))
      end
  end.

Fixpoint first_error {A : Type} (f : A -> option SetError) (l : list A) : option SetError :=
  match l with
  | [] => None
  | x :: l' => match f x with Some e => Some e | None => first_error f l' end
  end.

Definition check_server_set (target : obj) (prop : string) (pv : string * json) : option SetError :=
  match ParseJSONPointerTokens (fst pv) with
  | [tok] =>
      if String.eqb tok prop then
        let err := Some (mkSetError "invalidProperties"
          ("cannot modify server-set property " +:+ fmt_q prop) [prop] [] EmptyString None None []) in
        match obj_get target prop with
        | None => err
        | Some targetVal => if areEqualValues (snd pv) targetVal then None else err
        end
      else None
  | _ => None
  end.

Definition ValidatePatch (target patch : obj) (serverSetProperties : list string)
  : option SetError :=
  if (length patch =? 0)%nat then None
  else
    let parsed := map (fun pv => (fst pv, ParseJSONPointerTokens (fst pv))) patch in
    match prefix_conflict parsed with
    | Some e => Some e
    | None =>
        match first_error (fun pt => check_path (fst pt) (JObj target) (snd pt)) parsed with
        | Some e => Some e
        | None =>
            first_error (fun prop => first_error (check_server_set target prop) patch)
              serverSetProperties
        end
    end.

Fixpoint setPointerToken (current : json) (tokens : list string) (val : json) {struct tokens}
  : result string json :=
  match tokens with
  | [] => Ok current
  | token :: rest =>
      match current with
      | JObj m =>
          match rest with
          | [] => Ok (JObj (if is_null val then obj_del m token else obj_set m token val))
          | _ =>
              let sub := match obj_get m token with
                         | None | Some JNull => JObj []
                         | Some s => s
                         end in
              match setPointerToken sub rest val with
              | Ok sub' => Ok (JObj (obj_set m token sub'))
              | Err e => Err e
              end
          end
      | _ => Err ("cannot step into non-object target for token " +:+ fmt_q token)
      end
  end.

(** The new target and the error, if any; the members applied before an error
    stay applied, as the map is updated in place. *)
Fixpoint ApplyPatch (target patch : obj) : obj * option string :=
  match patch with
  | [] => (target, None)
  | (path, val) :: patch' =>
      match ParseJSONPointerTokens path with
      | [tok] =>
          ApplyPatch (if is_null val then obj_del target tok else obj_set target tok val) patch'
      | tokens =>
          match setPointerToken (JObj target) tokens val with
          | Ok (JObj target') => ApplyPatch target' patch'
          | Ok _ => ApplyPatch target patch'
          | Err e => (target, Some ("failed to apply patch path " +:+ fmt_q path +:+ ": " +:+ e))
          end
      end
  end.
End Patch.

(** ** Specification *)

(** The pointers of a patch, as token lists. *)
Definition patch_tokens (patch : obj) : list (list string) :=
  map (fun pv => ParseJSONPointerTokens (fst pv)) patch.

(** What an object shows at a path once [val] is stored at [tokens]. *)
Definition set_view (tokens : list string) (val : json) (base : list string -> option node)
    (p : list string) : option node :=
  if tokens_agree tokens p
  then if is_null val then None else view val (drop (length tokens) p)
  else base p.

(** What the patched object shows: the value of the member whose pointer leads
    to the path, or the old value. *)
Fixpoint patch_view (patch : obj) (base : list string -> option node) (p : list string)
  : option node :=
  match patch with
  | [] => base p
  | (path, val) :: patch' =>
      if tokens_agree (ParseJSONPointerTokens path) p
      then set_view (ParseJSONPointerTokens path) val base p
      else patch_view patch' base p
  end.

(** No pointer of the patch leads to or through another. *)
Definition independent (patch : obj) : Prop :=
  forall i j a b, patch_tokens patch !! i = Some a -> patch_tokens patch !! j = Some b ->
  i <> j -> tokens_agree a b = false.

(** ** Lemmas *)

Lemma tokens_agree_spec a p : tokens_agree a p = true <-> exists q, p = a ++ q.
Proof.
  revert p. induction a as [|x a IH]; intros p; simpl; [split; eauto|].
  destruct p as [|y p]; [split; [done|by intros [??]]|].
  rewrite andb_true_iff, String.eqb_eq, IH. split.
  - intros [-> [q ->]]. by exists q.
  - intros [q [= -> ->]]. eauto.
Qed.

Lemma tokens_agree_app a q : tokens_agree a (a ++ q) = true.
Proof. apply tokens_agree_spec. eauto. Qed.

Lemma tokens_agree_trans a b c :
  tokens_agree a b = true -> tokens_agree b c = true -> tokens_agree a c = true.
Proof.
  rewrite !tokens_agree_spec. intros [q ->] [r ->]. exists (q ++ r). by rewrite app_assoc.
Qed.

Lemma tokens_agree_length a b :
  tokens_agree a b = true -> (length a <= length b)%nat.
Proof. intros [q ->]%tokens_agree_spec. rewrite length_app. lia. Qed.

(** Two token lists that lead to the same path are comparable. *)
Lemma tokens_agree_comparable a b p :
  tokens_agree a p = true -> tokens_agree b p = true ->
  tokens_agree a b = true \/ tokens_agree b a = true.
Proof.
  revert b p. induction a as [|x a IH]; intros b p; [by left|].
  destruct b as [|y b]; [by right|]. destruct p as [|z p]; [done|]. simpl.
  intros [->%String.eqb_eq Ha]%andb_prop [->%String.eqb_eq Hb]%andb_prop.
  rewrite String.eqb_refl; simpl. eauto.
Qed.

Lemma tokens_agree_same_length a b :
  length a = length b -> tokens_agree a b = true -> a = b.
Proof.
  intros Hlen [q ->]%tokens_agree_spec. rewrite length_app in Hlen.
  destruct q; simpl in Hlen; [by rewrite app_nil_r | lia].
Qed.

Lemma ParseJSONPointerTokens_nonempty path : ParseJSONPointerTokens path <> [].
Proof.
  unfold ParseJSONPointerTokens, Split.
  destruct (split_go slash 0 "" _) eqn:E; [by apply split_go_nonempty in E|done].
Qed.

Lemma set_view_nil val base p : is_null val = false -> set_view [] val base p = view val p.
Proof. unfold set_view. simpl. by intros ->. Qed.

Lemma set_view_cons t tokens val base x p :
  set_view (t :: tokens) val base (x :: p)
  = if String.eqb t x then set_view tokens val (fun q => base (x :: q)) p else base (x :: p).
Proof. unfold set_view. simpl. by destruct (String.eqb t x). Qed.

Section PatchLemmas.
Context `{GoRuntime}.

(** A path passes the check when every node before its last token is an object. *)
Lemma check_path_view raw cur tokens :
  check_path raw cur tokens = None <->
  forall q t rest, tokens = q ++ t :: rest -> view cur q = Some NObj.
Proof.
  revert cur. induction tokens as [|tok tokens IH]; intros cur; cbn [check_path].
  { split; [|done]. by intros _ [|??] ?? Hq. }
  destruct cur; try (split; [done|]; intros Hall; specialize (Hall [] tok tokens eq_refl); done).
  destruct tokens as [|tok2 tokens].
  { split; [|done]. intros _ [|x q] t rest Heq; [done|].
    simplify_eq/=. by destruct q. }
  destruct (obj_get m tok) as [v|] eqn:E.
  2: { split; [done|]. intros Hall. specialize (Hall [tok] tok2 tokens eq_refl).
       unfold view in Hall. simpl in Hall. by rewrite E in Hall. }
  assert ((forall q t rest, tok2 :: tokens = q ++ t :: rest -> view v q = Some NObj) <->
          (forall q t rest, tok :: tok2 :: tokens = q ++ t :: rest -> view (JObj m) q = Some NObj))
    as Hiff.
  { split.
    - intros Hall [|x q] t rest Heq; [done|]. simplify_eq/=.
      rewrite view_cons; simpl. rewrite E. by eapply Hall.
    - intros Hall q t rest Heq. specialize (Hall (tok :: q) t rest).
      rewrite view_cons in Hall; simpl in Hall. rewrite E in Hall. apply Hall. by rewrite Heq. }
  rewrite <- Hiff. destruct v; [|apply IH..| |apply IH];
    (split; [done|]; intros Hall; specialize (Hall [] tok2 tokens eq_refl); done).
Qed.

Lemma view_obj_set m k v p :
  view (JObj (obj_set m k v)) p = set_view [k] v (view (JObj m)) p \/ is_null v = true.
Proof.
  destruct (is_null v) eqn:En; [by right|left]. unfold set_view.
  destruct p as [|t p]; [done|]. cbn [tokens_agree].
  rewrite !view_cons; cbn [path_get]. rewrite obj_get_set.
  case_decide; subst.
  - by rewrite String.eqb_refl, En.
  - by rewrite (proj2 (String.eqb_neq _ _)).
Qed.

Lemma view_obj_del m k v p :
  is_null v = true -> view (JObj (obj_del m k)) p = set_view [k] v (view (JObj m)) p.
Proof.
  intros En. unfold set_view. destruct p as [|t p]; [done|]. cbn [tokens_agree].
  rewrite !view_cons; cbn [path_get]. rewrite obj_get_del.
  case_decide; subst.
  - by rewrite String.eqb_refl, En.
  - by rewrite (proj2 (String.eqb_neq _ _)).
Qed.

Lemma view_set_or_del m k v p :
  view (JObj (if is_null v then obj_del m k else obj_set m k v)) p
  = set_view [k] v (view (JObj m)) p.
Proof.
  destruct (is_null v) eqn:En; [by apply view_obj_del|].
  destruct (view_obj_set m k v p); congruence.
Qed.

(** Storing at a checked path succeeds, gives an object, and changes the view
    below the path only. *)
Lemma setPointerToken_spec raw cur tokens val :
  tokens <> [] -> check_path raw cur tokens = None ->
  exists m', setPointerToken cur tokens val = Ok (JObj m') /\
    forall p, view (JObj m') p = set_view tokens val (view cur) p.
Proof.
  revert cur. induction tokens as [|tok tokens IH]; intros cur Hne Hck; [done|].
  cbn [check_path] in Hck. destruct cur; try done. cbn [setPointerToken].
  destruct tokens as [|tok2 tokens].
  { eexists; split; [done|]. intros p. apply view_set_or_del. }
  destruct (obj_get m tok) as [v|] eqn:E; [|done].
  assert (exists m', setPointerToken v (tok2 :: tokens) val = Ok (JObj m') /\
    forall p, view (JObj m') p = set_view (tok2 :: tokens) val (view v) p) as (m' & Hset & Hview).
  { apply IH; [done|]. by destruct v. }
  exists (obj_set m tok (JObj m')). split.
  { destruct v; try done; by rewrite Hset. }
  intros p. destruct p as [|t p]; [done|].
  destruct (view_obj_set m tok (JObj m') (t :: p)) as [Hv|]; [|done]. rewrite Hv.
  rewrite !set_view_cons. destruct (String.eqb tok t) eqn:Et; [|done].
  bool_props; subst. rewrite set_view_nil, Hview by done. unfold set_view.
  destruct (tokens_agree (tok2 :: tokens) p); [done|].
  rewrite view_cons; cbn [path_get]. by rewrite E.
Qed.

(** A step of [ApplyPatch] is a store at the pointer, whatever its length. *)
Lemma ApplyPatch_step raw target path val patch :
  check_path raw (JObj target) (ParseJSONPointerTokens path) = None ->
  exists m',
    ApplyPatch target ((path, val) :: patch) = ApplyPatch m' patch /\
    forall p, view (JObj m') p = set_view (ParseJSONPointerTokens path) val (view (JObj target)) p.
Proof.
  intros Hck. cbn [ApplyPatch].
  pose proof (ParseJSONPointerTokens_nonempty path) as Hne.
  destruct (setPointerToken_spec raw _ _ val Hne Hck) as (m' & Hset & Hview).
  destruct (ParseJSONPointerTokens path) as [|tok [|tok2 tokens]]; [done| |].
  - cbn [setPointerToken] in Hset. eexists; split; [done|]. intros p.
    rewrite <- Hview. by injection Hset as <-.
  - rewrite Hset. eauto.
Qed.

(** A store elsewhere keeps a path checked. *)
Lemma check_path_stable raw cur cur' a b val :
  (forall p, view cur' p = set_view a val (view cur) p) ->
  tokens_agree a b = false ->
  check_path raw cur b = None -> check_path raw cur' b = None.
Proof.
  intros Hview Hab. rewrite !check_path_view. intros Hck q t rest Heq.
  rewrite Hview. unfold set_view. destruct (tokens_agree a q) eqn:Haq.
  - assert (tokens_agree a b = true); [|congruence].
    eapply tokens_agree_trans; [done|]. rewrite Heq. apply tokens_agree_app.
  - by eapply Hck.
Qed.

Lemma independent_cons pv patch :
  independent (pv :: patch) ->
  independent patch /\
  Forall (fun b => tokens_agree (ParseJSONPointerTokens (fst pv)) b = false /\
                   tokens_agree b (ParseJSONPointerTokens (fst pv)) = false) (patch_tokens patch).
Proof.
  intros Hind. split.
  - intros i j a b Ha Hb Hij. by apply (Hind (S i) (S j)); try done; lia.
  - apply Forall_lookup. intros i b Hb. split.
    + by apply (Hind 0%nat (S i)).
    + by apply (Hind (S i) 0%nat).
Qed.

(** Outside the pointers of the patch nothing changes. *)
Lemma patch_view_set patch a val base p :
  Forall (fun b => tokens_agree a b = false /\ tokens_agree b a = false) (patch_tokens patch) ->
  patch_view patch (set_view a val base) p
  = if tokens_agree a p then set_view a val base p else patch_view patch base p.
Proof.
  induction patch as [|[path v] patch IH]; intros Hall; cbn [patch_view].
  { unfold set_view. by destruct (tokens_agree a p). }
  apply Forall_cons in Hall as [[Hab Hba] Hall]. cbn [fst] in *.
  destruct (tokens_agree (ParseJSONPointerTokens path) p) eqn:Ep; [|auto].
  destruct (tokens_agree a p) eqn:Ea.
  - destruct (tokens_agree_comparable _ _ _ Ea Ep); congruence.
  - unfold set_view. by rewrite Ep.
Qed.

Lemma patch_view_ext patch b1 b2 p :
  b1 p = b2 p -> patch_view patch b1 p = patch_view patch b2 p.
Proof.
  intros Hb. induction patch as [|[path v] patch IH]; cbn [patch_view]; [done|].
  destruct (tokens_agree _ p) eqn:E; [|done]. unfold set_view. by rewrite E.
Qed.

(** A checked patch of independent pointers applies without error, and its
    result shows [patch_view]. *)
Lemma ApplyPatch_spec patch : forall target,
  independent patch ->
  Forall (fun t => check_path EmptyString (JObj target) t = None) (patch_tokens patch) ->
  exists r, ApplyPatch target patch = (r, None) /\
    forall p, view (JObj r) p = patch_view patch (view (JObj target)) p.
Proof.
  induction patch as [|[path val] patch IH]; intros target Hind Hck.
  { by exists target. }
  apply Forall_cons in Hck as [Hck0 Hck]. cbn [fst] in Hck0.
  apply independent_cons in Hind as [Hind Hpair]. cbn [fst] in Hpair.
  destruct (ApplyPatch_step _ target path val patch Hck0) as (m' & Hstep & Hview).
  destruct (IH m') as (r & Hr & Hviewr); [done| |].
  { apply Forall_forall. intros t Ht. rewrite Forall_forall in Hck, Hpair.
    eapply check_path_stable; [done| |by apply Hck]. by apply Hpair. }
  exists r. split; [by rewrite Hstep|]. intros p. rewrite Hviewr. cbn [patch_view].
  rewrite <- (patch_view_set _ _ val) by done.
  by apply patch_view_ext.
Qed.

(** The raw path of the messages does not matter to the outcome. *)
Lemma check_path_raw raw raw' cur t :
  check_path raw cur t = None -> check_path raw' cur t = None.
Proof. by rewrite !check_path_view. Qed.

Lemma first_error_None {A} (f : A -> option SetError) l :
  first_error f l = None <-> Forall (fun x => f x = None) l.
Proof.
  induction l as [|x l IH]; simpl; [by split|]. rewrite Forall_cons.
  destruct (f x); [split; [done|by intros [? _]]|]. rewrite IH. split; [by split|by intros [_ ?]].
Qed.

Lemma prefix_conflict_None parsed :
  prefix_conflict parsed = None ->
  forall a b, a ∈ parsed -> b ∈ parsed -> fst a <> fst b -> is_strict_prefix (snd a) (snd b) = false.
Proof.
  unfold prefix_conflict. intros Hnone a b Ha Hb Hne.
  destruct (is_strict_prefix (snd a) (snd b)) eqn:Hp; [exfalso|done].
  assert (conflicting a b = true) as Hbad.
  { unfold conflicting. rewrite Hp. by rewrite (proj2 (String.eqb_neq _ _)). }
  destruct (List.find _ parsed) as [pa|] eqn:E1.
  - apply find_some in E1 as [_ [pb [Hpb Hb']]%existsb_exists].
    destruct (List.find (conflicting pa) parsed) eqn:E2; [done|].
    pose proof (find_none _ _ E2 pb Hpb). congruence.
  - apply list_elem_of_In in Ha, Hb. pose proof (find_none _ _ E1 a Ha) as Hx. simpl in Hx.
    assert (existsb (conflicting a) parsed = true) by (apply existsb_exists; eauto). congruence.
Qed.

Lemma ValidatePatch_checked target patch ss :
  ValidatePatch target patch ss = None ->
  Forall (fun t => check_path EmptyString (JObj target) t = None) (patch_tokens patch) /\
  forall a b, a ∈ patch -> b ∈ patch -> fst a <> fst b ->
    is_strict_prefix (ParseJSONPointerTokens (fst a)) (ParseJSONPointerTokens (fst b)) = false.
Proof.
  unfold ValidatePatch. destruct (length patch =? 0)%nat eqn:El.
  { bool_props. apply nil_length_inv in El as ->. split; [constructor|set_solver]. }
  set (parsed := map _ patch).
  destruct (prefix_conflict parsed) eqn:Ec; [done|].
  destruct (first_error _ parsed) eqn:Ef; [done|]. intros _. split.
  - apply first_error_None in Ef. unfold patch_tokens, parsed in *.
    rewrite Forall_map in Ef |- *. eapply Forall_impl; [done|]. intros x Hx; simpl in *.
    by eapply check_path_raw.
  - intros a b Ha Hb Hne.
    eapply (prefix_conflict_None _ Ec (fst a, _) (fst b, _)); try done;
      apply list_elem_of_fmap; eauto.
Qed.

(** Pointers that are pairwise no proper prefix of each other and are all
    different do not lead to each other. *)
Lemma independent_intro patch :
  obj_wf patch -> NoDup (patch_tokens patch) ->
  (forall a b, a ∈ patch -> b ∈ patch -> fst a <> fst b ->
    is_strict_prefix (ParseJSONPointerTokens (fst a)) (ParseJSONPointerTokens (fst b)) = false) ->
  independent patch.
Proof.
  intros Hwf Hnd Hpre i j a b Ha Hb Hij.
  destruct (tokens_agree a b) eqn:E; [exfalso|done].
  unfold patch_tokens in Ha, Hb. apply list_lookup_fmap_Some in Ha as (pa & -> & Hpa).
  apply list_lookup_fmap_Some in Hb as (pb & -> & Hpb).
  assert (fst pa <> fst pb) as Hne.
  { intros Heq. apply Hij. apply (NoDup_lookup (obj_keys patch) i j (fst pa)); [done| |];
      unfold obj_keys; rewrite list_lookup_fmap, ?Hpa, ?Hpb; simpl; congruence. }
  assert (pa ∈ patch /\ pb ∈ patch) as [Hina Hinb]
    by (split; eapply list_elem_of_lookup_2; done).
  specialize (Hpre pa pb Hina Hinb Hne). unfold is_strict_prefix in Hpre. rewrite E in Hpre.
  apply andb_false_iff in Hpre as [Hlt%Nat.ltb_ge|]; [|done].
  apply tokens_agree_length in E as Hle.
  apply tokens_agree_same_length in E; [|lia].
  apply Hij. apply (NoDup_lookup _ i j (ParseJSONPointerTokens (fst pa)) Hnd);
    unfold patch_tokens; rewrite list_lookup_fmap, ?Hpa, ?Hpb; simpl; congruence.
Qed.

Lemma patch_view_none patch base p :
  (forall pv, pv ∈ patch -> tokens_agree (ParseJSONPointerTokens (fst pv)) p = false) ->
  patch_view patch base p = base p.
Proof.
  induction patch as [|[path v] patch IH]; intros Hall; cbn [patch_view]; [done|].
  pose proof (Hall (path, v) ltac:(left)) as Hv. simpl in Hv. rewrite Hv.
  apply IH. set_solver.
Qed.

Lemma patch_view_in patch base p path val :
  independent patch -> (path, val) ∈ patch ->
  tokens_agree (ParseJSONPointerTokens path) p = true ->
  patch_view patch base p = set_view (ParseJSONPointerTokens path) val base p.
Proof.
  induction patch as [|[path' v'] patch IH]; intros Hind Hin Hp; [set_solver|]. cbn [patch_view].
  apply elem_of_cons in Hin as [?|Hin]; [simplify_eq; by rewrite Hp|].
  apply independent_cons in Hind as [Hind Hall]. cbn [fst] in Hall.
  destruct (tokens_agree (ParseJSONPointerTokens path') p) eqn:E; [|auto].
  rewrite Forall_forall in Hall. destruct (Hall (ParseJSONPointerTokens path)) as [H1 H2].
  { apply list_elem_of_fmap. by exists (path, val). }
  destruct (tokens_agree_comparable _ _ _ E Hp); congruence.
Qed.

Lemma patch_view_perm patch patch' base p :
  independent patch -> independent patch' -> patch ≡ₚ patch' ->
  patch_view patch base p = patch_view patch' base p.
Proof.
  intros Hind Hind' Hperm.
  destruct (decide (Exists (fun pv => tokens_agree (ParseJSONPointerTokens (fst pv)) p = true) patch))
    as [Hex|Hno].
  - apply Exists_exists in Hex as ([path v] & Hin & Hp).
    rewrite (patch_view_in patch _ _ path v), (patch_view_in patch' _ _ path v); try done.
    by rewrite <- Hperm.
  - assert (forall pv, pv ∈ patch -> tokens_agree (ParseJSONPointerTokens (fst pv)) p = false).
    { intros pv Hin. destruct (tokens_agree _ p) eqn:E; [|done].
      destruct Hno. apply Exists_exists. eauto. }
    rewrite !patch_view_none; [done| |done]. intros pv. rewrite <- Hperm. auto.
Qed.
End PatchLemmas.

(** ** Properties *)

(** C2: A patch that [ValidatePatch] accepts, and that does not spell one
    pointer in two ways, is applied by [ApplyPatch] without error, and the
    result reads at every path as specified: the new value at and below each
    pointer of the patch (nothing there for null), the old value elsewhere. *)
Theorem validated_patch_applies `{GoRuntime} target patch ss
    (Hwf : obj_wf patch) (Hnd : NoDup (patch_tokens patch))
    (Hok : ValidatePatch target patch ss = None) :
  exists r, ApplyPatch target patch = (r, None) /\
    forall p, view (JObj r) p = patch_view patch (view (JObj target)) p.
Proof.
  apply ValidatePatch_checked in Hok as [Hck Hpre].
  apply ApplyPatch_spec; [by apply independent_intro | done].
Qed.

Definition patch_target : obj :=
  [("name", JStr "x"); ("keywords", JObj [("$seen", JBool true)]); ("role", JStr "inbox")].
Definition patch_example : obj :=
  [("keywords/$flagged", JBool true); ("keywords/$seen", JNull); ("name", JStr "y")].

Lemma validated_patch_applies_witness :
  exists r, ApplyPatch (H := ascii_runtime) patch_target patch_example = (r, None) /\
    forall p, view (JObj r) p = patch_view patch_example (view (JObj patch_target)) p.
Proof.
  apply (@validated_patch_applies ascii_runtime patch_target patch_example ["id"]).
  - unfold obj_wf. apply (bool_decide_unpack _). vm_compute. exact I.
  - apply (bool_decide_unpack _). vm_compute. exact I.
  - vm_compute. reflexivity.
Defined.

(** The result of an accepted patch does not depend on the order in which
    [ApplyPatch] ranges over the patch map: any two orders give the same
    object up to the order of members. *)
Theorem validated_patch_order_independent `{GoRuntime} target patch patch' ss
    (Hwf : obj_wf patch) (Hnd : NoDup (patch_tokens patch))
    (Hok : ValidatePatch target patch ss = None) (Hperm : patch ≡ₚ patch') :
  exists r r', ApplyPatch target patch = (r, None) /\ ApplyPatch target patch' = (r', None) /\
    json_eqv (JObj r) (JObj r').
Proof.
  apply ValidatePatch_checked in Hok as [Hck Hpre].
  assert (independent patch) as Hind by by apply independent_intro.
  assert (independent patch') as Hind'.
  { apply independent_intro.
    - unfold obj_wf, obj_keys. by rewrite <- Hperm.
    - unfold patch_tokens. by rewrite <- Hperm.
    - intros a b. rewrite <- Hperm. apply Hpre. }
  destruct (ApplyPatch_spec patch target) as (r & Hr & Hv); [done..|].
  destruct (ApplyPatch_spec patch' target) as (r' & Hr' & Hv'); [done| |].
  { unfold patch_tokens. by rewrite <- Hperm. }
  exists r, r'. split; [done|]. split; [done|]. intros p. rewrite Hv, Hv'.
  by apply patch_view_perm.
Qed.

Lemma validated_patch_order_independent_witness :
  exists r r', ApplyPatch (H := ascii_runtime) patch_target patch_example = (r, None) /\
    ApplyPatch (H := ascii_runtime) patch_target (reverse patch_example) = (r', None) /\
    json_eqv (JObj r) (JObj r').
Proof.
  apply (@validated_patch_order_independent ascii_runtime patch_target patch_example
           (reverse patch_example) ["id"]).
  - unfold obj_wf. apply (bool_decide_unpack _). vm_compute. exact I.
  - apply (bool_decide_unpack _). vm_compute. exact I.
  - vm_compute. reflexivity.
  - symmetry. apply reverse_Permutation.
Defined.

(** Without the hypothesis on spellings the result does depend on the
    order: [ValidatePatch] accepts a patch whose members "a" and "/a" are the
    same pointer, and the two orders of application leave different values. *)
Theorem duplicate_pointer_order_dependence `{GoRuntime} :
  let target := [("a", JBool false)] in
  let patch := [("a", JStr "x"); ("/a", JStr "y")] in
  ValidatePatch target patch [] = None /\ ValidatePatch target (reverse patch) [] = None /\
  ApplyPatch target patch = ([("a", JStr "y")], None) /\
  ApplyPatch target (reverse patch) = ([("a", JStr "x")], None).
Proof. by repeat split. Qed.

(** The server-set check compares a whole property only: a pointer into
    an object-valued server-set property is accepted, and applying the patch
    changes the server-set value. *)
Theorem nested_server_set_accepted `{GoRuntime} :
  let target := [("myRights", JObj [("mayDelete", JBool false)])] in
  let patch := [("myRights/mayDelete", JBool true)] in
  ValidatePatch target patch ["myRights"] = None /\
  ApplyPatch target patch = ([("myRights", JObj [("mayDelete", JBool true)])], None).
Proof. by repeat split. Qed.

(** [areEqualValues] also accepts values that print alike: the JSON string
    "true" passes for the server-set boolean true, and is then stored. *)
Theorem server_set_type_change_accepted `{GoRuntime} :
  let target := [("isDefault", JBool true)] in
  let patch := [("isDefault", JStr "true")] in
  ValidatePatch target patch ["isDefault"] = None /\
  ApplyPatch target patch = ([("isDefault", JStr "true")], None).
Proof. by repeat split. Qed.
