(* ===== verification/CreationRefs.v ===== *)
(** * Creation references

    [jmap/jmapcore/rfc8620_sec5_creationref.go]: the "#creationId" place
    holders of a /set call (RFC 8620 section 5.3), the loop that runs the
    creates of a call in dependency order, and the map of creation ids that
    lives as long as the request.

    The loop ranges over the map of pending creates, in an order Go leaves
    open.  Here every pass takes its order from a [schedule]; the theorems
    quantify over all of them.  The callback [do] is any function on a world
    [W]. *)

From S2P Require Import Prelude GoStrings Json Envelope.
From Stdlib Require Import Ascii.

Abbreviation refmap := (gmap string string).

Section Refs.
Context `{GoRuntime}.

Definition IsIdProperty (k : string) : bool :=
  let lk := ToLower k in
  String.eqb lk "id" || HasSuffix lk "id" || HasSuffix lk "ids".

Definition NilIfEmpty (v : json) : json :=
  match v with
  | JArr [] => JNull
  | JObj [] => JNull
  | _ => v
  end.

(** The result and whether it is deferred; [pending] is false for a nil map. *)
Definition ResolveCreationRef (v : json) (resolved : refmap) (pending : bool) : json * bool :=
  match v with
  | JStr s =>
      if HasPrefix s "#" then
        match resolved !! str_drop 1 s with
        | Some realID => (JStr realID, false)
        | None => if pending then (v, true) else (v, false)
        end
      else (v, false)
  | _ => (v, false)
  end.

(** [None] is the deferred outcome. *)
Fixpoint resolve_keys (m : obj) (resolved : refmap) (pending : bool) (out : obj) : option obj :=
  match m with
  | [] => Some out
  | (k, v) :: m' =>
      let '(rv, deferred) := ResolveCreationRef (JStr k) resolved pending in
      if deferred then None
      else
        let key := match rv with JStr s => s | _ => EmptyString end in
        resolve_keys m' resolved pending (obj_set out key v)
  end.
Definition ResolveIdBooleanMapRefs (m : obj) (resolved : refmap) (pending : bool) : option obj :=
  resolve_keys m resolved pending [].

(** The value stored for one member of a create payload. *)
Definition resolve_member (k : string) (v : json) (resolved : refmap) (pending : bool)
  : option json :=
  if negb (IsIdProperty k) then Some v
  else
    let '(rv, deferred) := ResolveCreationRef v resolved pending in
    if deferred then None
    else match v with
         | JObj sub => JObj <$> ResolveIdBooleanMapRefs sub resolved pending
         | _ => Some rv
         end.
Fixpoint resolve_members (m : obj) (resolved : refmap) (pending : bool) (out : obj) : option obj :=
  match m with
  | [] => Some out
  | (k, v) :: m' =>
      match resolve_member k v resolved pending with
      | None => None
      | Some rv => resolve_members m' resolved pending (obj_set out k rv)
      end
  end.
Definition ResolveNodeCreationRefs (nodeMap : obj) (resolved : refmap) (pending : bool)
  : option obj :=
  resolve_members nodeMap resolved pending [].

Definition ResolveCreationID (id : string) (resolved : refmap) : string :=
  if negb (HasPrefix id "#") then id
  else match resolved !! str_drop 1 id with
       | Some realID => realID
       | None => id
       end.

Definition resolve_patch_value (v : json) (refs : refmap) : json :=
  match v with
  | JStr _ => let '(rv, deferred) := ResolveCreationRef v refs false in
              if deferred then v else rv
  | JObj m => match ResolveIdBooleanMapRefs m refs false with
              | Some r => JObj r
              | None => JNull
              end
  | _ => v
  end.
Definition ResolvePatchCreationRefs (patch : obj) (refs : refmap) : obj :=
  foldl (fun out kv => obj_set out (ResolveCreationID (fst kv) refs) (resolve_patch_value (snd kv) refs))
    [] patch.

(** ** The create loop *)

(** An error of the callback: a [SetError] (or a pointer to one), or another
    error with its message. *)
Inductive create_error : Type :=
| ESet (e : SetError)
| EMsg (msg : string).

Definition create_set_error (err : create_error) : SetError :=
  match err with
  | ESet e => e
  | EMsg msg =>
      if HasPrefix msg "forbidden:"
      then set_error "forbidden" (TrimSpace (TrimPrefix msg "forbidden:"))
      else set_error "invalidProperties" msg
  end.

Definition unresolved_error : SetError :=
  set_error "invalidProperties" "unresolved creation reference".

Section Loop.
Context {W : Type}.
Variable do : W -> string -> obj -> W * (string + create_error).
Variable createRaw : obj.

(** [objMap, _ := createRaw[cid].(map[string]any)] *)
Definition create_node (cid : string) : obj := default [] (get_obj createRaw cid).

Record loop_state : Type := mkLoop {
  ls_world : W;
  ls_refs : refmap;
  ls_pending : list string;
  ls_notCreated : gmap string SetError;
}.

(** The body of the inner loop, with the new value of [progressed]. *)
Definition create_one (cid : string) (sp : loop_state * bool) : loop_state * bool :=
  let '(s, progressed) := sp in
  match ResolveNodeCreationRefs (create_node cid) (ls_refs s) true with
  | None => (s, progressed)
  | Some resolved =>
      let '(w, r) := do (ls_world s) cid resolved in
      let pending := List.filter (fun c => negb (String.eqb c cid)) (ls_pending s) in
      (match r with
       | inr err => mkLoop w (ls_refs s) pending
                      (<[cid := create_set_error err]> (ls_notCreated s))
       | inl realID => mkLoop w (<[cid := realID]> (ls_refs s)) pending (ls_notCreated s)
       end, true)
  end.

Definition create_pass (order : list string) (s : loop_state) : loop_state * bool :=
  foldl (fun sp cid => create_one cid sp) (s, false) order.

(** What is left when a pass makes no progress. *)
Definition create_give_up (s : loop_state) : loop_state :=
  mkLoop (ls_world s) (ls_refs s) []
    (foldl (fun nc cid => <[cid := unresolved_error]> nc) (ls_notCreated s) (ls_pending s)).

(** The outer loop.  [schedule n] is the order of the pass with [n] passes of
    fuel left; [None] means the fuel did not suffice. *)
Fixpoint create_rounds (fuel : nat) (schedule : nat -> list string -> list string)
    (s : loop_state) : option loop_state :=
  match ls_pending s with
  | [] => Some s
  | _ =>
      match fuel with
      | O => None
      | S fuel' =>
          let '(s', progressed) := create_pass (schedule fuel' (ls_pending s)) s in
          if progressed : bool then create_rounds fuel' schedule s'
          else create_rounds fuel' schedule (create_give_up s')
      end
  end.

Definition RunCreateLoop (fuel : nat) (schedule : nat -> list string -> list string)
    (w : W) (refs : refmap) : option loop_state :=
  create_rounds fuel schedule (mkLoop w refs (obj_keys createRaw) ∅).
End Loop.

(** ** The request-scoped map *)

(** [NewCreationRefs(initial)]: nil and empty maps give the same store. *)
Definition NewCreationRefs (initial : option refmap) : refmap := default ∅ initial.
Definition Snapshot (r : refmap) : refmap := r.

(** [ctx_refs] is the map of the context, [None] when there is none. *)
Definition NewSetCreationRefs (ctx_refs : option refmap) : refmap := default ∅ ctx_refs.

(** Both the map of the call and that of the request are updated. *)
Definition RecordCreationRefs (ctx_refs : option refmap) (refs : refmap) (cid realID : string)
  : option refmap * refmap :=
  (fmap (M := option) (fun r => <[cid := realID]> r) ctx_refs, <[cid := realID]> refs).
End Refs.

Arguments mkLoop {W}.
Arguments ls_world {W}.
Arguments ls_refs {W}.
Arguments ls_pending {W}.
Arguments ls_notCreated {W}.

(** ** Lemmas: resolution *)

Section ResolveLemmas.
Context `{GoRuntime}.

Lemma ResolveCreationRef_mono v r r' out :
  r ⊆ r' -> ResolveCreationRef v r true = (out, false) -> ResolveCreationRef v r' true = (out, false).
Proof.
  intros Hsub. unfold ResolveCreationRef. destruct v; try done.
  destruct (HasPrefix s "#"); [|done].
  destruct (r !! str_drop 1 s) eqn:E; [|done].
  by rewrite (lookup_weaken _ _ _ _ E Hsub).
Qed.

Lemma resolve_keys_mono m r r' out o :
  r ⊆ r' -> resolve_keys m r true out = Some o -> resolve_keys m r' true out = Some o.
Proof.
  intros Hsub. revert out. induction m as [|[k v] m IH]; intros out; cbn [resolve_keys]; [done|].
  destruct (ResolveCreationRef (JStr k) r true) as [rv []] eqn:E; [done|].
  rewrite (ResolveCreationRef_mono _ _ _ _ Hsub E). auto.
Qed.

Lemma resolve_member_mono k v r r' o :
  r ⊆ r' -> resolve_member k v r true = Some o -> resolve_member k v r' true = Some o.
Proof.
  intros Hsub. unfold resolve_member. destruct (negb (IsIdProperty k)); [done|].
  destruct (ResolveCreationRef v r true) as [rv []] eqn:E; [done|].
  rewrite (ResolveCreationRef_mono _ _ _ _ Hsub E).
  destruct v; try done. unfold ResolveIdBooleanMapRefs.
  destruct (resolve_keys m r true []) eqn:Ek; [|done]. by rewrite (resolve_keys_mono _ _ _ _ _ Hsub Ek).
Qed.

(** A payload that resolves still resolves, to the same object, when more
    creation ids become known. *)
Lemma ResolveNode_mono m r r' o :
  r ⊆ r' -> ResolveNodeCreationRefs m r true = Some o -> ResolveNodeCreationRefs m r' true = Some o.
Proof.
  intros Hsub. unfold ResolveNodeCreationRefs. generalize (@nil (string * json)).
  induction m as [|[k v] m IH]; intros out; cbn [resolve_members]; [done|].
  destruct (resolve_member k v r true) eqn:E; [|done].
  rewrite (resolve_member_mono _ _ _ _ _ Hsub E). auto.
Qed.

Lemma resolve_members_get m r pend out o k :
  obj_wf m -> resolve_members m r pend out = Some o ->
  obj_get o k = match obj_get m k with
                | Some v => resolve_member k v r pend
                | None => obj_get out k
                end.
Proof.
  unfold obj_wf. revert out. induction m as [|[k' v] m IH]; intros out Hwf Hres;
    cbn [resolve_members] in Hres; [by simplify_eq|].
  apply NoDup_cons in Hwf as [Hk' Hwf]. simpl in Hk'.
  destruct (resolve_member k' v r pend) as [rv|] eqn:E; [|done].
  rewrite (IH _ Hwf Hres), obj_get_set. cbn [obj_get].
  destruct (String.eqb k' k) eqn:Ek; bool_props; subst.
  - rewrite (proj2 (obj_get_keys m k) Hk'), decide_True by done. done.
  - by rewrite decide_False by done.
Qed.

Lemma resolve_member_no_placeholder k v r s :
  (forall c id, r !! c = Some id -> HasPrefix id "#" = false) ->
  IsIdProperty k = true -> resolve_member k v r true = Some (JStr s) -> HasPrefix s "#" = false.
Proof.
  intros Hr Hk. unfold resolve_member. rewrite Hk. cbn [negb].
  destruct v as [| | |s0| |m0]; cbn [ResolveCreationRef]; try done.
  - destruct (HasPrefix s0 "#") eqn:E; [|by intros; simplify_eq].
    destruct (r !! str_drop 1 s0) eqn:El; [|done]. intros. simplify_eq. by eapply Hr.
  - by destruct (ResolveIdBooleanMapRefs m0 r true).
Qed.
End ResolveLemmas.

(** ** Lemmas: the loop *)

(** What became of a create: an id, or a [SetError]. *)
Definition settled (refs : refmap) (nc : gmap string SetError) (cid : string)
    (out : string + SetError) : Prop :=
  match out with
  | inl id => refs !! cid = Some id /\ nc !! cid = None
  | inr e => refs !! cid = None /\ nc !! cid = Some e
  end.

Definition outcome (r : string + create_error) : string + SetError :=
  match r with
  | inl id => inl id
  | inr err => inr (create_set_error err)
  end.

Section LoopLemmas.
Context `{GoRuntime} {W : Type}.
Variable do : W -> string -> obj -> W * (string + create_error).
Variable createRaw : obj.
Variable refs0 : refmap.

(** [Good refs cid out] is what a client of the loop wants to know of each
    outcome, [K refs] a fact about the known ids that creating keeps true. *)
Variable Good : refmap -> string -> string + SetError -> Prop.
Variable K : refmap -> Prop.
Hypothesis Good_mono : forall r r' cid out, r ⊆ r' -> Good r cid out -> Good r' cid out.
Hypothesis Good_step : forall w r cid o,
  ResolveNodeCreationRefs (create_node createRaw cid) r true = Some o ->
  Good r cid (outcome (snd (do w cid o))).
Hypothesis K_step : forall w r cid o id,
  K r -> cid ∈ obj_keys createRaw ->
  ResolveNodeCreationRefs (create_node createRaw cid) r true = Some o ->
  snd (do w cid o) = inl id -> K (<[cid := id]> r).

Record loop_inv (s : loop_state (W := W)) : Prop := {
  li_nodup : NoDup (ls_pending s);
  li_pending : forall cid, cid ∈ ls_pending s ->
    cid ∈ obj_keys createRaw /\ ls_refs s !! cid = None /\ ls_notCreated s !! cid = None;
  li_done : forall cid, cid ∈ obj_keys createRaw -> cid ∉ ls_pending s ->
    exists out, settled (ls_refs s) (ls_notCreated s) cid out /\ Good (ls_refs s) cid out;
  li_outside : forall cid, cid ∉ obj_keys createRaw ->
    ls_refs s !! cid = refs0 !! cid /\ ls_notCreated s !! cid = None;
  li_known : K (ls_refs s);
}.

Lemma filter_ne_elem (l : list string) cid c :
  c ∈ List.filter (fun x => negb (String.eqb x cid)) l <-> c ∈ l /\ c <> cid.
Proof.
  rewrite !list_elem_of_In, filter_In, negb_true_iff, String.eqb_neq. tauto.
Qed.

Lemma filter_ne_NoDup (l : list string) cid :
  NoDup l -> NoDup (List.filter (fun x => negb (String.eqb x cid)) l).
Proof. rewrite !NoDup_ListNoDup. apply List.NoDup_filter. Qed.

Lemma filter_ne_length (l : list string) cid :
  cid ∈ l -> (length (List.filter (fun x => negb (String.eqb x cid)) l) < length l)%nat.
Proof.
  induction l as [|c l IH]; [set_solver|]. intros [->|Hin]%elem_of_cons; simpl.
  - rewrite String.eqb_refl; simpl. pose proof (filter_length_le (fun x => negb (String.eqb x c)) l). lia.
  - destruct (negb (String.eqb c cid)); simpl; [specialize (IH Hin); lia|].
    specialize (IH Hin). lia.
Qed.

(** One successful or failed create keeps the invariant. *)
Lemma create_one_inv cid s b s' b' :
  loop_inv s -> cid ∈ ls_pending s ->
  create_one do createRaw cid (s, b) = (s', b') ->
  (s' = s /\ b' = b /\ ResolveNodeCreationRefs (create_node createRaw cid) (ls_refs s) true = None) \/
  (loop_inv s' /\ b' = true /\ ls_refs s ⊆ ls_refs s' /\
   ls_pending s' = List.filter (fun c => negb (String.eqb c cid)) (ls_pending s)).
Proof.
  intros Hinv Hin Hone. cbn [create_one] in Hone.
  destruct (ResolveNodeCreationRefs _ _ _) as [o|] eqn:Eres; [right|left; by simplify_eq].
  destruct (do (ls_world s) cid o) as [w r] eqn:Edo.
  pose proof (Good_step (ls_world s) _ _ _ Eres) as Hgood. rewrite Edo in Hgood; simpl in Hgood.
  destruct (li_pending _ Hinv cid Hin) as (Hkey & Hr0 & Hn0).
  destruct r as [id|err]; simplify_eq; cbn [ls_refs ls_pending ls_notCreated];
    (split; [|split; [done|split; [|done]]]); [|by apply insert_subseteq|..|done].
  - split; cbn [ls_refs ls_pending ls_notCreated].
    + apply filter_ne_NoDup, Hinv.
    + intros c [Hc Hne]%filter_ne_elem. rewrite lookup_insert_ne by done. by apply Hinv.
    + intros c Hc Hnp. destruct (decide (c = cid)) as [->|Hne].
      * exists (inl id). split; [by split; [apply lookup_insert_eq|]|].
        eapply Good_mono; [|done]. by apply insert_subseteq.
      * destruct (li_done _ Hinv c Hc) as (out & Hset & Hg).
        { intros Hp. apply Hnp, filter_ne_elem. done. }
        exists out. split.
        -- destruct out; unfold settled in *; by rewrite lookup_insert_ne by done.
        -- eapply Good_mono; [|done]. by apply insert_subseteq.
    + intros c Hc. rewrite lookup_insert_ne by congruence. by apply Hinv.
    + eapply (K_step (ls_world s)); try done; [apply Hinv|]. by rewrite Edo.
  - split; cbn [ls_refs ls_pending ls_notCreated].
    + apply filter_ne_NoDup, Hinv.
    + intros c [Hc Hne]%filter_ne_elem. rewrite lookup_insert_ne by done. by apply Hinv.
    + intros c Hc Hnp. destruct (decide (c = cid)) as [->|Hne].
      * exists (inr (create_set_error err)). split; [by split; [|apply lookup_insert_eq]|done].
      * destruct (li_done _ Hinv c Hc) as (out & Hset & Hg).
        { intros Hp. apply Hnp, filter_ne_elem. done. }
        exists out. split; [|done]. destruct out; unfold settled in *; by rewrite lookup_insert_ne by done.
    + intros c Hc. rewrite lookup_insert_ne by congruence. by apply Hinv.
    + apply Hinv.
Qed.

Lemma create_pass_progressed order s s' b' :
  foldl (fun sp cid => create_one do createRaw cid sp) (s, true) order = (s', b') -> b' = true.
Proof.
  revert s. induction order as [|c order IH]; intros s; cbn [foldl]; [congruence|].
  destruct (create_one do createRaw c (s, true)) as [s2 b2] eqn:E2.
  assert (b2 = true) as ->; [|apply IH]. cbn [create_one] in E2.
  destruct (ResolveNodeCreationRefs _ _ _); [destruct (do _ _ _)|]; congruence.
Qed.

(** A pass keeps the invariant; without progress every create it visited was
    deferred. *)
Lemma create_pass_inv order : forall s b s' b',
  loop_inv s -> NoDup order -> (forall c, c ∈ order -> c ∈ ls_pending s) ->
  foldl (fun sp cid => create_one do createRaw cid sp) (s, b) order = (s', b') ->
  loop_inv s' /\ ls_refs s ⊆ ls_refs s' /\
  (length (ls_pending s') <= length (ls_pending s))%nat /\
  (b' = true -> b = false -> (length (ls_pending s') < length (ls_pending s))%nat) /\
  (b' = false -> s' = s /\ forall c, c ∈ order ->
     ResolveNodeCreationRefs (create_node createRaw c) (ls_refs s) true = None).
Proof.
  induction order as [|cid order IH]; intros s b s' b' Hinv Hnd Hin Hf; cbn [foldl] in Hf.
  { simplify_eq. split_and!; try done; [congruence|]. intros _. split; [done|]. set_solver. }
  apply NoDup_cons in Hnd as [Hni Hnd].
  destruct (create_one do createRaw cid (s, b)) as [s1 b1] eqn:E1.
  destruct (create_one_inv cid s b s1 b1) as [(-> & -> & Hdef)|(Hinv1 & -> & Hsub1 & Hp1)];
    [done|by apply Hin; left|done|..].
  - destruct (IH s b s' b') as (H1 & H2 & H3 & H4 & H5); [done|done| |done|].
    { intros c Hc. apply Hin. by right. }
    split_and!; try done. intros Hb'. destruct (H5 Hb') as [? Hall]. split; [done|].
    intros c [->|Hc]%elem_of_cons; auto.
  - assert (length (ls_pending s1) < length (ls_pending s))%nat as Hlt.
    { rewrite Hp1. apply filter_ne_length. apply Hin. by left. }
    destruct (IH s1 true s' b') as (H1 & H2 & H3 & H4 & H5); [done|done| |done|].
    { intros c Hc. rewrite Hp1. apply filter_ne_elem. split; [apply Hin; by right|congruence]. }
    apply create_pass_progressed in Hf as Hb'. subst b'.
    split_and!; try done; try lia. by etrans.
Qed.

(** The outcome of a create when the loop ends: what the callback said, or
    that its references never resolved. *)
Definition final_outcome (refs : refmap) (cid : string) (out : string + SetError) : Prop :=
  Good refs cid out \/
  (out = inr unresolved_error /\
   ResolveNodeCreationRefs (create_node createRaw cid) refs true = None).

Record loop_final (s : loop_state (W := W)) : Prop := {
  lf_pending : ls_pending s = [];
  lf_done : forall cid, cid ∈ obj_keys createRaw ->
    exists out, settled (ls_refs s) (ls_notCreated s) cid out /\ final_outcome (ls_refs s) cid out;
  lf_outside : forall cid, cid ∉ obj_keys createRaw ->
    ls_refs s !! cid = refs0 !! cid /\ ls_notCreated s !! cid = None;
  lf_known : K (ls_refs s);
}.

Lemma loop_inv_final s : loop_inv s -> ls_pending s = [] -> loop_final s.
Proof.
  intros Hinv Hp. split; [done|..|apply Hinv|apply Hinv].
  intros cid Hc. destruct (li_done _ Hinv cid Hc) as (out & ? & ?); [rewrite Hp; set_solver|].
  exists out. split; [done|by left].
Qed.

Lemma give_up_lookup (l : list string) (nc : gmap string SetError) cid :
  foldl (fun nc cid => <[cid := unresolved_error]> nc) nc l !! cid
  = if decide (cid ∈ l) then Some unresolved_error else nc !! cid.
Proof.
  revert nc. induction l as [|c l IH]; intros nc; cbn [foldl].
  - by rewrite decide_False by set_solver.
  - rewrite IH. destruct (decide (cid ∈ l)); [by rewrite decide_True by set_solver|].
    rewrite lookup_insert. repeat case_decide; set_solver.
Qed.

Lemma give_up_final s :
  loop_inv s ->
  (forall c, c ∈ ls_pending s ->
     ResolveNodeCreationRefs (create_node createRaw c) (ls_refs s) true = None) ->
  loop_final (create_give_up s).
Proof.
  intros Hinv Hnone. split; cbn [create_give_up ls_refs ls_pending ls_notCreated]; [done|..].
  - intros cid Hc. destruct (decide (cid ∈ ls_pending s)) as [Hp|Hp].
    + exists (inr unresolved_error). split; [|right; split; [done|by apply Hnone]].
      split; [by apply Hinv|]. by rewrite give_up_lookup, decide_True.
    + destruct (li_done _ Hinv cid Hc Hp) as (out & Hset & Hg). exists out. split; [|by left].
      destruct out; unfold settled in *; rewrite give_up_lookup, decide_False by done; done.
  - intros cid Hc. rewrite give_up_lookup. rewrite decide_False; [by apply Hinv|].
    intros Hp. by apply Hinv in Hp as [? _].
  - apply Hinv.
Qed.

(** With a pass of fuel per create the loop ends, whatever the orders. *)
Lemma create_rounds_final schedule :
  (forall n l, schedule n l ≡ₚ l) ->
  forall fuel s, loop_inv s -> (length (ls_pending s) <= fuel)%nat ->
  exists s', create_rounds do createRaw fuel schedule s = Some s' /\ loop_final s'.
Proof.
  intros Hsched fuel. induction fuel as [|fuel IH]; intros s Hinv Hlen.
  { exists s. assert (ls_pending s = []) as Hp by (apply nil_length_inv; lia).
    split; [by simpl; rewrite Hp|by apply loop_inv_final]. }
  cbn [create_rounds]. destruct (ls_pending s) as [|c0 l0] eqn:Hp.
  { exists s. split; [done|by apply loop_inv_final]. }
  rewrite <- Hp in *.
  destruct (create_pass do createRaw (schedule fuel (ls_pending s)) s) as [s' b'] eqn:Epass.
  destruct (create_pass_inv (schedule fuel (ls_pending s)) s false s' b')
    as (H1 & H2 & H3 & H4 & H5); [done| | |done|].
  { rewrite Hsched. apply Hinv. }
  { intros c. by rewrite Hsched. }
  destruct b'.
  - apply IH; [done|]. specialize (H4 eq_refl eq_refl). lia.
  - destruct (H5 eq_refl) as [-> Hnone]. exists (create_give_up s). split.
    + destruct fuel; done.
    + apply give_up_final; [done|]. intros c Hc. apply Hnone. by rewrite Hsched.
Qed.

Lemma RunCreateLoop_final schedule w :
  (forall n l, schedule n l ≡ₚ l) ->
  obj_wf createRaw -> (forall cid, cid ∈ obj_keys createRaw -> refs0 !! cid = None) -> K refs0 ->
  exists s', RunCreateLoop do createRaw (length createRaw) schedule w refs0 = Some s' /\
    loop_final s'.
Proof.
  intros Hsched Hwf Hfresh HK. apply create_rounds_final; [done| |].
  - split; cbn [ls_refs ls_pending ls_notCreated]; [done| |naive_solver| |done].
    + intros cid Hc. split; [done|]. split; [by apply Hfresh|done].
    + intros cid Hc. by rewrite lookup_empty.
  - cbn [ls_pending]. unfold obj_keys. rewrite length_map. lia.
Qed.
End LoopLemmas.

(** *** A callback whose answers do not depend on the world *)

Section Pure.
Context `{GoRuntime} {W : Type}.
Variable do : W -> string -> obj -> W * (string + create_error).
Variable createRaw : obj.
Variable refs0 : refmap.
Variable w0 : W.
Hypothesis Hwf : obj_wf createRaw.
Hypothesis Hfresh : forall cid, cid ∈ obj_keys createRaw -> refs0 !! cid = None.
Hypothesis Hpure : forall w w' cid o, snd (do w cid o) = snd (do w' cid o).

(** The answer of the callback on the object that the known ids resolve to. *)
Definition answered (r : refmap) (cid : string) (out : string + SetError) : Prop :=
  exists o, ResolveNodeCreationRefs (create_node createRaw cid) r true = Some o /\
            out = outcome (snd (do w0 cid o)).

Lemma answered_mono r r' cid out : r ⊆ r' -> answered r cid out -> answered r' cid out.
Proof. intros Hsub (o & Ho & ->). exists o. split; [by eapply ResolveNode_mono|done]. Qed.

Lemma answered_step w r cid o :
  ResolveNodeCreationRefs (create_node createRaw cid) r true = Some o ->
  answered r cid (outcome (snd (do w cid o))).
Proof. intros Ho. exists o. split; [done|]. by rewrite (Hpure w w0). Qed.

Abbreviation pure_final := (loop_final (W := W) createRaw refs0 answered).

Lemma RunCreateLoop_pure schedule w :
  (forall n l, schedule n l ≡ₚ l) ->
  exists s, RunCreateLoop do createRaw (length createRaw) schedule w refs0 = Some s /\
    pure_final (fun _ => True) s.
Proof.
  intros Hs. apply RunCreateLoop_final; try done; [apply answered_mono|apply answered_step].
Qed.

(** The final outcome of a create, from the final ids alone. *)
Lemma final_outcome_unique K1 K2 s1 s2 cid :
  pure_final K1 s1 -> pure_final K2 s2 -> ls_refs s1 = ls_refs s2 ->
  cid ∈ obj_keys createRaw -> ls_notCreated s1 !! cid = ls_notCreated s2 !! cid.
Proof.
  intros Hf1 Hf2 Heq Hc.
  destruct (lf_done _ _ _ _ _ Hf1 cid Hc) as (o1 & Hs1 & Hg1).
  destruct (lf_done _ _ _ _ _ Hf2 cid Hc) as (o2 & Hs2 & Hg2).
  rewrite <- Heq in Hg2.
  assert (o1 = o2) as <-.
  { destruct Hg1 as [(x & Hx & ->)|[-> Hn1]], Hg2 as [(y & Hy & ->)|[-> Hn2]]; congruence. }
  destruct o1; destruct Hs1 as [_ ->], Hs2 as [_ ->]; done.
Qed.

Lemma final_notCreated_unique s1 s2 :
  pure_final (fun _ => True) s1 -> pure_final (fun _ => True) s2 ->
  ls_refs s1 = ls_refs s2 -> ls_notCreated s1 = ls_notCreated s2.
Proof.
  intros Hf1 Hf2 Heq. apply map_eq. intros cid.
  destruct (decide (cid ∈ obj_keys createRaw)) as [Hc|Hc]; [by eapply final_outcome_unique|].
  by rewrite (proj2 (lf_outside _ _ _ _ _ Hf1 cid Hc)), (proj2 (lf_outside _ _ _ _ _ Hf2 cid Hc)).
Qed.

(** The ids a run assigns are among those of any other completed run. *)
Lemma RunCreateLoop_least schedule w s s2 :
  (forall n l, schedule n l ≡ₚ l) ->
  RunCreateLoop do createRaw (length createRaw) schedule w refs0 = Some s ->
  pure_final (fun _ => True) s2 -> ls_refs s ⊆ ls_refs s2.
Proof.
  intros Hsched Hrun Hf2.
  destruct (RunCreateLoop_final do createRaw refs0 answered (fun r => r ⊆ ls_refs s2))
    with (schedule := schedule) (w := w) as (s' & Hs' & Hf); try done.
  - apply answered_mono.
  - apply answered_step.
  - intros w' r cid o id Hsub Hc Ho Hdo. apply insert_subseteq_l; [|done].
    destruct (lf_done _ _ _ _ _ Hf2 cid Hc) as (out & Hset & Hfin).
    assert (ResolveNodeCreationRefs (create_node createRaw cid) (ls_refs s2) true = Some o) as Ho2
      by by eapply ResolveNode_mono.
    destruct Hfin as [(o' & Ho' & ->)|[_ Hn]]; [|congruence].
    rewrite Ho2 in Ho'. simplify_eq. rewrite (Hpure w0 w'), Hdo in Hset. apply Hset.
  - apply map_subseteq_spec. intros cid id Hid.
    destruct (decide (cid ∈ obj_keys createRaw)) as [Hc|Hc]; [by rewrite Hfresh in Hid|].
    by rewrite (proj1 (lf_outside _ _ _ _ _ Hf2 cid Hc)).
  - assert (s' = s) as -> by congruence. apply Hf.
Qed.
End Pure.

(** ** Properties *)

(** C8: The create loop ends for every order in which its passes visit the
    pending creates (one pass of fuel per create is enough), and it accounts
    for each create exactly once: it got an id or it is in notCreated, never
    both and never neither; ids known before are kept. *)
Theorem create_loop_accounts_for_all `{GoRuntime} {W} (do : W -> string -> obj -> W * (string + create_error))
    createRaw refs schedule w
    (Hwf : obj_wf createRaw) (Hsched : forall n l, schedule n l ≡ₚ l)
    (Hfresh : forall cid, cid ∈ obj_keys createRaw -> refs !! cid = None) :
  exists s, RunCreateLoop do createRaw (length createRaw) schedule w refs = Some s /\
    (forall cid, cid ∈ obj_keys createRaw ->
       (is_Some (ls_refs s !! cid) /\ ls_notCreated s !! cid = None) \/
       (ls_refs s !! cid = None /\ is_Some (ls_notCreated s !! cid))) /\
    (forall cid, cid ∉ obj_keys createRaw ->
       ls_refs s !! cid = refs !! cid /\ ls_notCreated s !! cid = None).
Proof.
  destruct (RunCreateLoop_final do createRaw refs (fun _ _ _ => True) (fun _ => True))
    with (schedule := schedule) (w := w) as (s & Hs & Hf); try done.
  exists s. split; [done|]. split; [|apply Hf].
  intros cid Hc. destruct (lf_done _ _ _ _ _ Hf cid Hc) as ([id|e] & [??] & _); [left|right]; eauto.
Qed.

(** The object handed to the callback is the create payload with each
    member resolved, members that are not Id-valued unchanged, and no
    "#creationId" placeholder is left in any Id-valued member. *)
Theorem resolved_payload_has_no_placeholder `{GoRuntime} m refs out
    (Hwf : obj_wf m) (Hres : ResolveNodeCreationRefs m refs true = Some out)
    (Hreal : forall c id, refs !! c = Some id -> HasPrefix id "#" = false) :
  (forall k, obj_get out k =
     match obj_get m k with Some v => resolve_member k v refs true | None => None end) /\
  (forall k, IsIdProperty k = false -> obj_get out k = obj_get m k) /\
  (forall k s, IsIdProperty k = true -> obj_get out k = Some (JStr s) -> HasPrefix s "#" = false).
Proof.
  pose proof (fun k => resolve_members_get m refs true [] out k Hwf Hres) as Hget.
  split_and!.
  - intros k. apply Hget.
  - intros k Hk. rewrite Hget. destruct (obj_get m k); [|done]. unfold resolve_member. by rewrite Hk.
  - intros k s Hk Hs. rewrite Hget in Hs. destruct (obj_get m k) as [v|]; [|done].
    by eapply resolve_member_no_placeholder.
Qed.

Definition demo_node : obj :=
  [("parentId", JStr "#a"); ("name", JStr "#b"); ("mailboxIds", JObj [("#a", JBool true)])].

Lemma resolved_payload_has_no_placeholder_witness :
  let refs : refmap := {["a" := "m1"]} in
  let out := [("parentId", JStr "m1"); ("name", JStr "#b"); ("mailboxIds", JObj [("m1", JBool true)])] in
  let H := ascii_runtime in
  (forall k, obj_get out k =
     match obj_get demo_node k with Some v => resolve_member k v refs true | None => None end) /\
  (forall k, IsIdProperty k = false -> obj_get out k = obj_get demo_node k) /\
  (forall k s, IsIdProperty k = true -> obj_get out k = Some (JStr s) -> HasPrefix s "#" = false).
Proof.
  intros refs out H. apply (resolved_payload_has_no_placeholder demo_node refs out).
  - unfold obj_wf. apply (bool_decide_unpack _). vm_compute. exact I.
  - vm_compute. reflexivity.
  - intros c id Hc. apply lookup_singleton_Some in Hc as [_ <-]. reflexivity.
Defined.

(** A callback that fails for one creation id and names the others after their
    parent. *)
Definition demo_do (w : nat) (cid : string) (o : obj) : nat * (string + create_error) :=
  (S w, if String.eqb cid "bad" then inr (EMsg "forbidden: no")
        else inl ("new-" +:+ cid +:+ "-" +:+ str_or_empty o "parentId")).
Definition demo_creates : obj :=
  [("b", JObj [("parentId", JStr "#a")]); ("a", JObj [("name", JStr "x")]);
   ("c", JObj [("parentId", JStr "#bad")]); ("bad", JObj [])].

Lemma create_loop_accounts_for_all_witness :
  exists s, RunCreateLoop (H := ascii_runtime) demo_do demo_creates 4 (fun _ l => l) 0%nat ∅ = Some s /\
    (forall cid, cid ∈ obj_keys demo_creates ->
       (is_Some (ls_refs s !! cid) /\ ls_notCreated s !! cid = None) \/
       (ls_refs s !! cid = None /\ is_Some (ls_notCreated s !! cid))) /\
    (forall cid, cid ∉ obj_keys demo_creates ->
       ls_refs s !! cid = (∅ : refmap) !! cid /\ ls_notCreated s !! cid = None).
Proof.
  apply (@create_loop_accounts_for_all ascii_runtime nat demo_do demo_creates ∅ (fun _ l => l) 0%nat).
  - unfold obj_wf. apply (bool_decide_unpack _). vm_compute. exact I.
  - reflexivity.
  - intros cid _. apply lookup_empty.
Defined.

(** The order of the passes does not change the result: for a callback
    whose answer depends on the creation id and the resolved object only, two
    runs over the same creates give the same ids and the same notCreated map,
    however their passes are ordered. *)
Theorem create_loop_confluent `{GoRuntime} {W} (do : W -> string -> obj -> W * (string + create_error))
    createRaw refs sched1 sched2 w1 w2
    (Hwf : obj_wf createRaw)
    (Hfresh : forall cid, cid ∈ obj_keys createRaw -> refs !! cid = None)
    (Hpure : forall w w' cid o, snd (do w cid o) = snd (do w' cid o))
    (Hs1 : forall n l, sched1 n l ≡ₚ l) (Hs2 : forall n l, sched2 n l ≡ₚ l) :
  exists s1 s2,
    RunCreateLoop do createRaw (length createRaw) sched1 w1 refs = Some s1 /\
    RunCreateLoop do createRaw (length createRaw) sched2 w2 refs = Some s2 /\
    ls_refs s1 = ls_refs s2 /\ ls_notCreated s1 = ls_notCreated s2.
Proof.
  destruct (RunCreateLoop_pure do createRaw refs w1 Hwf Hfresh Hpure sched1 w1 Hs1) as (s1 & Hr1 & Hf1).
  destruct (RunCreateLoop_pure do createRaw refs w1 Hwf Hfresh Hpure sched2 w2 Hs2) as (s2 & Hr2 & Hf2).
  exists s1, s2. split; [done|]. split; [done|].
  assert (ls_refs s1 = ls_refs s2) as Heq.
  { apply (anti_symm (⊆)).
    - by apply (RunCreateLoop_least do createRaw refs w1 Hwf Hfresh Hpure sched1 w1).
    - by apply (RunCreateLoop_least do createRaw refs w1 Hwf Hfresh Hpure sched2 w2). }
  split; [done|]. by eapply (final_notCreated_unique do createRaw refs w1).
Qed.

Lemma create_loop_confluent_witness :
  exists s1 s2,
    RunCreateLoop (H := ascii_runtime) demo_do demo_creates 4 (fun _ l => l) 0%nat ∅ = Some s1 /\
    RunCreateLoop (H := ascii_runtime) demo_do demo_creates 4 (fun _ l => reverse l) 5%nat ∅ = Some s2 /\
    ls_refs s1 = ls_refs s2 /\ ls_notCreated s1 = ls_notCreated s2.
Proof.
  apply (@create_loop_confluent ascii_runtime nat demo_do demo_creates ∅ (fun _ l => l)
           (fun _ l => reverse l) 0%nat 5%nat).
  - unfold obj_wf. apply (bool_decide_unpack _). vm_compute. exact I.
  - intros cid _. apply lookup_empty.
  - reflexivity.
  - reflexivity.
  - intros _ l. apply reverse_Permutation.
Defined.

(** The freshness hypothesis matters: when a creation id of the call is
    already known from an earlier call of the request, a create that refers to
    it gets the old id or the new one depending on the order of the pass. *)
Theorem reused_creation_id_depends_on_order :
  let do (w : unit) (cid : string) (o : obj) : unit * (string + create_error) :=
    (tt, inl (cid +:+ "/" +:+ str_or_empty o "parentId")) in
  let creates := [("a", JObj []); ("b", JObj [("parentId", JStr "#a")])] in
  let refs : refmap := {["a" := "old"]} in
  exists s1 s2,
    RunCreateLoop (H := ascii_runtime) do creates 2 (fun _ l => l) tt refs = Some s1 /\
    RunCreateLoop (H := ascii_runtime) do creates 2 (fun _ l => reverse l) tt refs = Some s2 /\
    ls_refs s1 !! "b" = Some "b/a/" /\ ls_refs s2 !! "b" = Some "b/old".
Proof. eexists _, _. split_and!; vm_compute; reflexivity. Qed.
