(* ===== verification/Query.v ===== *)
(** * /query and /queryChanges arguments

    [jmap/jmapcore/rfc8620_sec5_query.go]: positions, anchors, comparators,
    filter operators and the deltas of /queryChanges (RFC 8620 sections 5.5
    and 5.6).  Go's [int] is 64 bits wide; the additions that can overflow are
    wrapped with [i64]. *)

From S2P Require Import Prelude GoStrings Json Envelope.
From Stdlib Require Import Ascii SpecFloat.

Record Comparator : Type := mkComparator {
  c_Property : string;
  c_IsAscending : bool;
  c_Collation : string;
  c_Keyword : string;
}.

Definition AdvertisedCollations : list string := ["i;ascii-casemap"; "i;octet"].

(** [set[k]] for a Go map[string]bool given by its true keys. *)
Definition str_in (k : string) (l : list string) : bool := existsb (String.eqb k) l.

Definition ParseComparators (args : obj) : list Comparator :=
  match get_arr args "sort" with
  | None => []
  | Some sortRaw =>
      omap (fun item =>
        match item with
        | JObj compMap =>
            Some (mkComparator (str_or_empty compMap "property")
                    (default true (get_bool compMap "isAscending"))
                    (str_or_empty compMap "collation")
                    (str_or_empty compMap "keyword"))
        | _ => None
        end) sortRaw
  end.

(** [NormalizePosition] on [int]s. *)
Definition NormalizePosition (position total : Z) : Z :=
  if position <? 0 then
    let position' := i64 (position + total) in
    if position' <? 0 then 0 else position'
  else position.

Fixpoint index_of (id : string) (ids : list string) : option nat :=
  match ids with
  | [] => None
  | x :: ids' => if String.eqb x id then Some 0%nat else S <$> index_of id ids'
  end.

(** [ids[a:b]] for [0 <= a <= b <= len(ids)]. *)
Definition slice {A : Type} (a b : Z) (ids : list A) : list A :=
  take (Z.to_nat b - Z.to_nat a) (drop (Z.to_nat a) ids).

(** The position and the page, [None] when the anchor is not found. *)
Definition ApplyQueryAnchor (anchor : string) (offset : Z) (ids : list string) (limit : option Z)
  : option (Z * list string) :=
  match index_of anchor ids with
  | None => None
  | Some anchorIdx =>
      let len := Z.of_nat (length ids) in
      let position := NormalizePosition (i64 (Z.of_nat anchorIdx + offset)) len in
      let end_ := match limit with
                  | Some l => if i64 (position + i64 l) <? len then i64 (position + i64 l) else len
                  | None => len
                  end in
      Some (position, if end_ <=? position then [] else slice position end_ ids)
  end.

(** The added deltas are (id, index) pairs. *)
Definition ComputeQueryChanges (created updated destroyed currentIDs : list string) (upToId : string)
  : list (string * Z) * list string :=
  let position : gmap string Z :=
    foldl (fun m (p : nat * string) => <[p.2 := Z.of_nat p.1]> m) ∅ (imap pair currentIDs) in
  let isChanged := fun id => str_in id created || str_in id updated in
  let upToIndex :=
    if negb (String.eqb upToId EmptyString)
    then default (-1) (position !! upToId) else -1 in
  let pos_of id := default 0 (position !! id) in
  let added :=
    omap (fun id =>
      if isChanged id then
        if (0 <=? upToIndex) && (upToIndex <? pos_of id) then None else Some (id, pos_of id)
      else None) currentIDs in
  let removed :=
    destroyed ++
    List.filter (fun id =>
      negb ((0 <=? upToIndex)
            && match position !! id with Some idx => upToIndex <? idx | None => false end)) updated in
  (added, removed).

Section Query.
Context `{GoRuntime}.

Definition ParseQueryPosition (args : obj) : Z * string :=
  match get_num args "position" with
  | None => (0, EmptyString)
  | Some posVal => (f64_to_int posVal, EmptyString)
  end.

Definition ParseQueryAnchor (args : obj) : (string * Z) * string :=
  match get_present args "anchor" with
  | None => ((EmptyString, 0), EmptyString)
  | Some (JStr anchor) =>
      match get_num args "anchorOffset" with
      | Some offsetRaw =>
          if negb (SFeqb offsetRaw (math_Trunc offsetRaw))
          then ((EmptyString, 0), "anchorOffset must be an integer, got " +:+ fmt_v (JNum offsetRaw))
          else ((anchor, f64_to_int offsetRaw), EmptyString)
      | None => ((anchor, 0), EmptyString)
      end
  | Some anchorRaw => ((EmptyString, 0), "anchor must be an Id (string), got " +:+ fmt_v anchorRaw)
  end.

Definition keyword_sorts : list string :=
  ["hasKeyword"; "allInThreadHaveKeyword"; "someInThreadHaveKeyword"].

(** The error type and message, both empty when the comparators are valid. *)
Fixpoint ValidateComparators (comparators : list Comparator) (supported : list string)
  : string * string :=
  match comparators with
  | [] => (EmptyString, EmptyString)
  | c :: rest =>
      if negb (str_in (c_Property c) supported)
      then ("unsupportedSort", "sort property " +:+ fmt_q (c_Property c) +:+ " is not supported")
      else if negb (String.eqb (c_Collation c) EmptyString)
              && negb (str_in (c_Collation c) AdvertisedCollations)
      then ("unsupportedSort", "collation " +:+ fmt_q (c_Collation c) +:+ " is not supported")
      else if str_in (c_Property c) keyword_sorts && String.eqb (c_Keyword c) EmptyString
      then (MethodErrorInvalidArguments,
            "sort property " +:+ fmt_q (c_Property c) +:+ " requires a "
            +:+ str_of [dquote] +:+ "keyword" +:+ str_of [dquote] +:+ " property")
      else ValidateComparators rest supported
  end.

(** The JSON objects among the conditions of a FilterOperator. *)
Definition filter_conditions (filter : obj) : list obj :=
  match get_arr filter "conditions" with
  | Some rawConds => omap (fun c => match c with JObj cm => Some cm | _ => None end) rawConds
  | None => []
  end.

(** (matched, is an operator); a nil filter is [None]. *)
Definition EvalFilterOperator (filter : option obj) (matchCondition : obj -> bool) : bool * bool :=
  match filter with
  | None => (true, false)
  | Some filter =>
      match get_str filter "operator" with
      | None => (false, false)
      | Some opRaw =>
          let conds := filter_conditions filter in
          let op := ToUpper opRaw in
          if String.eqb op "AND" then (forallb matchCondition conds, true)
          else if String.eqb op "OR" then (existsb matchCondition conds, true)
          else if String.eqb op "NOT" then (negb (existsb matchCondition conds), true)
          else (false, true)
      end
  end.

(** The nesting depth of a value bounds the recursion over filters. *)
Fixpoint json_depth (j : json) : nat :=
  match j with
  | JArr l => S (foldr (fun x n => Nat.max (json_depth x) n) 0%nat l)
  | JObj m => S (foldr (fun kv n => Nat.max (json_depth (snd kv)) n) 0%nat m)
  | _ => 0%nat
  end.

Fixpoint first_message (f : json -> string) (l : list json) : string :=
  match l with
  | [] => EmptyString
  | x :: l' => if String.eqb (f x) EmptyString then first_message f l' else f x
  end.

(** An empty string means valid. *)
Fixpoint validate_filter (fuel : nat) (filter : obj) : string :=
  match obj_get filter "operator" with
  | None => EmptyString
  | Some (JStr opStr) =>
      let upper := ToUpper opStr in
      if negb (String.eqb upper "AND") && negb (String.eqb upper "OR")
         && negb (String.eqb upper "NOT")
      then "filter operator must be 'AND', 'OR', or 'NOT', got " +:+ fmt_q opStr
      else
        match obj_get filter "conditions" with
        | None | Some JNull => "FilterOperator must have 'conditions' array"
        | Some (JArr condsSlice) =>
            match fuel with
            | O => "fuel"
            | S fuel' =>
                first_message (fun c =>
                  match c with
                  | JObj cMap => validate_filter fuel' cMap
                  | _ => "filter condition must be a JSON object"
                  end) condsSlice
            end
        | Some _ => "FilterOperator 'conditions' must be an array"
        end
  | Some _ => "filter operator must be a string"
  end.
Definition ValidateFilter (filter : obj) : string :=
  validate_filter (json_depth (JObj filter)) filter.
End Query.

(** ** Specification: the client of RFC 8620 section 5.6 *)

Definition insert_at {A : Type} (i : nat) (x : A) (l : list A) : list A :=
  take i l ++ x :: drop i l.

(** Splice out the removed ids, then splice in the added ones in order. *)
Definition splice_changes (old : list string) (added : list (string * Z)) (removed : list string)
  : list string :=
  foldl (fun l a => insert_at (Z.to_nat a.2) a.1 l)
    (List.filter (fun id => negb (str_in id removed)) old) added.

(** ** Lemmas *)

Lemma str_in_spec k l : str_in k l = true <-> k ∈ l.
Proof.
  unfold str_in. rewrite existsb_exists, list_elem_of_In. split.
  - intros (x & Hin & ->%String.eqb_eq). done.
  - intros. exists k. by rewrite String.eqb_refl.
Qed.

Lemma str_in_app k a b : str_in k (a ++ b) = str_in k a || str_in k b.
Proof. unfold str_in. apply existsb_app. Qed.

Lemma index_of_Some id ids i :
  index_of id ids = Some i -> ids !! i = Some id /\ forall j, (j < i)%nat -> ids !! j <> Some id.
Proof.
  revert i. induction ids as [|x ids IH]; intros i; simpl; [done|].
  destruct (String.eqb x id) eqn:E; bool_props; subst.
  - intros; simplify_eq. split; [done|]. intros; lia.
  - destruct (index_of id ids) as [j|]; simpl; [|done]. intros; simplify_eq/=.
    destruct (IH j eq_refl) as [H1 H2]. split; [done|].
    intros [|k] Hk; simpl; [congruence|]. apply H2. lia.
Qed.

Lemma index_of_None id ids : index_of id ids = None <-> id ∉ ids.
Proof.
  induction ids as [|x ids IH]; simpl; [set_solver|].
  destruct (String.eqb x id) eqn:E; bool_props; subst; [set_solver|].
  destruct (index_of id ids); simpl; set_solver.
Qed.

Lemma slice_length {A} a b (l : list A) :
  0 <= a <= b -> b <= Z.of_nat (length l) -> length (slice a b l) = Z.to_nat (b - a).
Proof.
  intros. unfold slice. rewrite length_take, length_drop. lia.
Qed.

Lemma slice_lookup {A} a b (l : list A) i :
  0 <= a <= b -> (i < Z.to_nat (b - a))%nat -> slice a b l !! i = l !! (Z.to_nat a + i)%nat.
Proof.
  intros. unfold slice. rewrite lookup_take_lt by lia. by rewrite lookup_drop.
Qed.

(** The position map built by the first loop of [ComputeQueryChanges]. *)
Lemma position_lookup (ids : list string) (m : gmap string Z) n id :
  NoDup ids ->
  foldl (fun m (p : nat * string) => <[p.2 := Z.of_nat p.1]> m) m (imap (fun i x => ((n + i)%nat, x)) ids) !! id
  = match index_of id ids with
    | Some i => Some (Z.of_nat (n + i))
    | None => m !! id
    end.
Proof.
  revert m n. induction ids as [|x ids IH]; intros m n Hnd; [done|].
  apply NoDup_cons in Hnd as [Hx Hnd]. cbn [imap foldl fst snd index_of].
  rewrite (imap_ext _ (fun i y => ((S n + i)%nat, y))) by (intros; simpl; f_equal; lia).
  rewrite IH by done. replace (n + 0)%nat with n by lia.
  destruct (String.eqb x id) eqn:E; bool_props; subst.
  - rewrite (proj2 (index_of_None id ids)) by done. rewrite lookup_insert_eq. f_equal. lia.
  - destruct (index_of id ids) as [i|]; simpl; [f_equal; lia|]. by rewrite lookup_insert_ne.
Qed.

(** Inserting the changed ids of a list at their indices, in order, into the
    list of the others rebuilds the list. *)
Lemma rebuild_changed (p : string -> bool) (done_ ids : list string) :
  foldl (fun l (a : nat * string) => insert_at a.1 a.2 l)
    (done_ ++ List.filter (fun x => negb (p x)) ids)
    (omap (fun a => if p a.2 then Some a else None)
       (imap (fun i x => ((length done_ + i)%nat, x)) ids))
  = done_ ++ ids.
Proof.
  revert done_. induction ids as [|x ids IH]; intros done_; [done|].
  cbn [imap omap list_omap List.filter snd].
  rewrite (imap_ext _ (fun i y => ((length (done_ ++ [x]) + i)%nat, y)))
    by (intros; rewrite length_app; simpl; f_equal; lia).
  replace (done_ ++ x :: ids) with ((done_ ++ [x]) ++ ids) by (by rewrite <- app_assoc).
  destruct (p x) eqn:Ep; cbn [negb foldl fst snd]; rewrite <- IH; f_equal.
  - unfold insert_at. replace (length done_ + 0)%nat with (length done_) by lia.
    rewrite take_app_length, drop_app_length. by rewrite <- app_assoc.
  - by rewrite <- app_assoc.
Qed.

Lemma filter_all_true {A} (f : A -> bool) l : (forall x, f x = true) -> List.filter f l = l.
Proof. intros Hf. induction l; simpl; [done|]. by rewrite Hf, IHl. Qed.

(** The position of an element of a list without duplicates is its index. *)
Lemma position_of_index (ids : list string) i x :
  NoDup ids -> ids !! i = Some x ->
  default 0 (foldl (fun (m : gmap string Z) (p : nat * string) => <[p.2 := Z.of_nat p.1]> m) ∅
               (imap pair ids) !! x) = Z.of_nat (0 + i).
Proof.
  intros Hnd Hi. pose proof (position_lookup ids ∅ 0 x Hnd) as Hp.
  rewrite (imap_ext _ pair) in Hp by done. rewrite Hp.
  destruct (index_of x ids) as [j|] eqn:E.
  - apply index_of_Some in E as [Hj _]. by rewrite (NoDup_lookup _ _ _ _ Hnd Hj Hi).
  - apply index_of_None in E. destruct E. by eapply list_elem_of_lookup_2.
Qed.

(** The added pairs, from the indices. *)
Lemma added_indices (p : string -> bool) (pos : string -> Z) n ids :
  (forall i x, ids !! i = Some x -> pos x = Z.of_nat (n + i)) ->
  omap (fun id => if p id then Some (id, pos id) else None) ids
  = map (fun a => (a.2, Z.of_nat a.1))
      (omap (fun a => if p a.2 then Some a else None) (imap (fun i x => ((n + i)%nat, x)) ids)).
Proof.
  revert n. induction ids as [|x ids IH]; intros n Hpos; [done|].
  cbn [imap omap list_omap snd].
  rewrite (imap_ext _ (fun i y => ((S n + i)%nat, y))) by (intros; simpl; f_equal; lia).
  rewrite (IH (S n)) by (intros i y Hy; rewrite (Hpos (S i) y Hy); f_equal; lia).
  destruct (p x); [|done]. cbn [map fst snd]. by rewrite (Hpos 0%nat x eq_refl).
Qed.

Lemma foldl_swap (l0 : list string) (l : list (nat * string)) :
  foldl (fun l a => insert_at (Z.to_nat a.2) a.1 l) l0 (map (fun a => (a.2, Z.of_nat a.1)) l)
  = foldl (fun l a => insert_at a.1 a.2 l) l0 l.
Proof.
  revert l0. induction l as [|a l IH]; intros l0; simpl; [done|]. by rewrite Nat2Z.id, IH.
Qed.

(** *** Filters *)

Lemma foldr_max_elem {A} (f : A -> nat) (l : list A) x :
  x ∈ l -> (f x <= foldr (fun y n => Nat.max (f y) n) 0 l)%nat.
Proof. induction l as [|y l IH]; [set_solver|]. intros [->|Hin]%elem_of_cons; simpl; [lia|]. specialize (IH Hin). lia. Qed.

Lemma json_depth_elem l x : x ∈ l -> (json_depth x < json_depth (JArr l))%nat.
Proof. intros Hin. pose proof (foldr_max_elem json_depth l x Hin). cbn [json_depth]. lia. Qed.

Lemma json_depth_get m k v : obj_get m k = Some v -> (json_depth v < json_depth (JObj m))%nat.
Proof.
  intros Hin%obj_get_In%list_elem_of_In.
  pose proof (foldr_max_elem (fun kv => json_depth (snd kv)) m _ Hin). cbn [json_depth]. simpl in *. lia.
Qed.

(** A member two levels down: an object in an array under a key. *)
Lemma json_depth_condition m k l c :
  obj_get m k = Some (JArr l) -> c ∈ l -> (S (json_depth c) < json_depth (JObj m))%nat.
Proof. intros Hg%json_depth_get Hin%json_depth_elem. lia. Qed.

Lemma first_message_empty f l :
  first_message f l = EmptyString <-> forall c, c ∈ l -> f c = EmptyString.
Proof.
  induction l as [|x l IH]; simpl; [set_solver|].
  destruct (String.eqb (f x) EmptyString) eqn:E; bool_props; [rewrite IH; set_solver|].
  split; [done|]. intros Hall. destruct E. apply Hall. by left.
Qed.

(** Well-formed filters of RFC 8620 section 5.5. *)
Inductive valid_filter `{GoRuntime} : obj -> Prop :=
| vf_condition f :
    obj_get f "operator" = None -> valid_filter f
| vf_operator f op conds :
    obj_get f "operator" = Some (JStr op) ->
    ToUpper op ∈ ["AND"; "OR"; "NOT"] ->
    obj_get f "conditions" = Some (JArr conds) ->
    (forall c, c ∈ conds -> exists m, c = JObj m /\ valid_filter m) ->
    valid_filter f.

Section FilterLemmas.
Context `{GoRuntime}.

Lemma operator_names op :
  negb (String.eqb op "AND") && negb (String.eqb op "OR") && negb (String.eqb op "NOT") = false
  <-> op ∈ ["AND"; "OR"; "NOT"].
Proof.
  destruct (String.eqb op "AND") eqn:E1, (String.eqb op "OR") eqn:E2, (String.eqb op "NOT") eqn:E3;
    bool_props; subst; simpl; set_solver.
Qed.

Lemma validate_filter_iff fuel : forall f,
  (json_depth (JObj f) <= fuel)%nat -> (validate_filter fuel f = EmptyString <-> valid_filter f).
Proof.
  induction fuel as [|fuel IH]; intros f Hd; [cbn in Hd; lia|]. cbn [validate_filter].
  destruct (obj_get f "operator") as [o|] eqn:Eop; [|split; [by constructor|done]].
  destruct o as [| | |op| |]; try (split; [done|]; inversion 1; congruence).
  destruct (negb _ && _ && _) eqn:Ename.
  { split; [done|]. inversion 1; simplify_eq. exfalso.
    apply (proj2 (operator_names (ToUpper op))) in H2. congruence. }
  apply operator_names in Ename.
  destruct (obj_get f "conditions") as [c|] eqn:Ec; [|split; [done|]; inversion 1; congruence].
  destruct c as [| | | |conds|]; try (split; [done|]; inversion 1; congruence).
  rewrite first_message_empty. split.
  - intros Hall. apply (vf_operator f op conds); try done. intros c Hc.
    specialize (Hall c Hc). destruct c as [| | | | |m]; try done. exists m. split; [done|].
    apply IH; [|done]. pose proof (json_depth_condition _ _ _ _ Ec Hc). lia.
  - inversion 1; simplify_eq. intros c Hc. destruct (H4 c Hc) as (m & -> & Hm).
    apply IH; [|done]. pose proof (json_depth_condition _ _ _ _ Ec Hc). lia.
Qed.

Lemma filter_conditions_valid f op conds :
  obj_get f "operator" = Some (JStr op) -> obj_get f "conditions" = Some (JArr conds) ->
  valid_filter f -> map JObj (filter_conditions f) = conds.
Proof.
  intros Hop Hc Hv. inversion Hv; simplify_eq. unfold filter_conditions, get_arr. rewrite Hc.
  clear -H3. induction conds as [|c conds IH]; [done|].
  destruct (H3 c ltac:(left)) as (m & -> & _). simpl. f_equal. apply IH. set_solver.
Qed.
End FilterLemmas.

Section OperatorLemmas.
Context `{GoRuntime}.

Lemma EvalFilterOperator_ext f m1 m2 :
  (forall g, g ∈ filter_conditions f -> m1 g = m2 g) ->
  EvalFilterOperator (Some f) m1 = EvalFilterOperator (Some f) m2.
Proof.
  intros Hm. unfold EvalFilterOperator. destruct (get_str f "operator"); [|done].
  assert (forallb m1 (filter_conditions f) = forallb m2 (filter_conditions f)) as ->.
  { revert Hm. generalize (filter_conditions f). induction l as [|g l IH]; simpl; [done|].
    intros Hm. rewrite (Hm g), IH by set_solver. done. }
  assert (existsb m1 (filter_conditions f) = existsb m2 (filter_conditions f)) as ->.
  { revert Hm. generalize (filter_conditions f). induction l as [|g l IH]; simpl; [done|].
    intros Hm. rewrite (Hm g), IH by set_solver. done. }
  done.
Qed.

Lemma filter_conditions_depth f g :
  g ∈ filter_conditions f -> (json_depth (JObj g) < json_depth (JObj f))%nat.
Proof.
  unfold filter_conditions, get_arr. destruct (obj_get f "conditions") as [[| | | |l|]|] eqn:E;
    try (intros Hin; by apply not_elem_of_nil in Hin).
  intros Hin. apply list_elem_of_omap in Hin as (c & Hc & Hg). destruct c; simplify_eq.
  pose proof (json_depth_get _ _ _ E). pose proof (json_depth_elem _ _ Hc). lia.
Qed.
End OperatorLemmas.

(** Splicing the deltas in restores the current list. *)
Lemma splice_rebuilds old current created updated destroyed added removed :
  NoDup current ->
  List.filter (fun id => negb (str_in id created || str_in id updated)) current
  = List.filter (fun id => negb (str_in id (destroyed ++ updated))) old ->
  ComputeQueryChanges created updated destroyed current EmptyString = (added, removed) ->
  splice_changes old added removed = current.
Proof.
  intros Hnd Hsame Hq.
  unfold ComputeQueryChanges in Hq. cbn [String.eqb negb] in Hq. injection Hq as <- <-.
  cbn [Z.leb Z.compare andb negb]. rewrite (filter_all_true _ updated) by done.
  unfold splice_changes. rewrite <- Hsame.
  rewrite (added_indices _ _ 0) by (intros; by apply position_of_index).
  rewrite foldl_swap. apply (rebuild_changed (fun id => str_in id created || str_in id updated) []).
Qed.

(** ** Properties *)

(** C10: The deltas of /queryChanges are the ones RFC 8620 section 5.6 asks
    for: a client that splices the removed ids out of its old list and the
    added ones in, in order, at the given indices, gets exactly the current
    list, whenever the ids that did not change stand in the same order in
    both lists. *)
Theorem query_changes_splice old current created updated destroyed added removed
    (Hnd : NoDup current)
    (Hsame : List.filter (fun id => negb (str_in id created || str_in id updated)) current
             = List.filter (fun id => negb (str_in id (destroyed ++ updated))) old)
    (Hq : ComputeQueryChanges created updated destroyed current EmptyString = (added, removed)) :
  splice_changes old added removed = current.
Proof. by eapply splice_rebuilds. Qed.

Lemma query_changes_splice_witness :
  splice_changes ["a"; "b"; "c"; "d"] [("e", 0); ("b", 2)] ["d"; "b"] = ["e"; "a"; "b"; "c"].
Proof.
  apply (query_changes_splice ["a"; "b"; "c"; "d"] ["e"; "a"; "b"; "c"] ["e"] ["b"] ["d"]).
  - apply (bool_decide_unpack _). vm_compute. exact I.
  - reflexivity.
  - vm_compute. reflexivity.
Defined.

(** An anchored page is the window of the result list that starts
    [offset] after the anchor and has at most [limit] ids, for every index
    that does not leave the 64-bit range. *)
Theorem anchor_window anchor offset ids limit i
    (Hi : index_of anchor ids = Some i)
    (Hpos : 0 <= Z.of_nat i + offset < 2 ^ 62)
    (Hlen : Z.of_nat (length ids) < 2 ^ 62)
    (Hlim : forall l, limit = Some l -> 0 <= l < 2 ^ 62) :
  ApplyQueryAnchor anchor offset ids limit
  = Some (Z.of_nat i + offset,
          let rest := drop (Z.to_nat (Z.of_nat i + offset)) ids in
          match limit with Some l => take (Z.to_nat l) rest | None => rest end).
Proof.
  unfold ApplyQueryAnchor. rewrite Hi. rewrite (i64_small (Z.of_nat i + offset)) by lia.
  set (pos := Z.of_nat i + offset) in *. unfold NormalizePosition.
  rewrite (proj2 (Z.ltb_ge pos 0)) by lia. f_equal. f_equal. unfold slice.
  destruct limit as [l|].
  - specialize (Hlim l eq_refl). rewrite (i64_small l), (i64_small (pos + l)) by lia.
    destruct (pos + l <? Z.of_nat (length ids)) eqn:E; bool_props.
    + destruct (pos + l <=? pos) eqn:E2; bool_props; [|f_equal; lia].
      replace l with 0 by lia. done.
    + destruct (Z.of_nat (length ids) <=? pos) eqn:E2; bool_props.
      * rewrite (drop_ge ids) by lia. by rewrite take_nil.
      * rewrite (take_ge _ (Z.to_nat l)) by (rewrite length_drop; lia).
        rewrite take_ge; [done|]. rewrite length_drop. lia.
  - destruct (Z.of_nat (length ids) <=? pos) eqn:E2; bool_props.
    + by rewrite (drop_ge ids) by lia.
    + rewrite take_ge; [done|]. rewrite length_drop. lia.
Qed.

Lemma anchor_window_witness :
  ApplyQueryAnchor "b" 1 ["a"; "b"; "c"; "d"] (Some 1) = Some (2, ["c"]).
Proof.
  apply (anchor_window "b" 1 ["a"; "b"; "c"; "d"] (Some 1) 1%nat); [reflexivity|simpl; lia|simpl; lia|].
  intros l Hl. injection Hl as <-. lia.
Defined.

(** An anchor offset that leads before the first result is not clamped to
    the start: it counts from the end of the list, as a negative position does. *)
Theorem anchor_before_start_counts_from_end anchor offset ids i
    (Hi : index_of anchor ids = Some i)
    (Hneg : - Z.of_nat (length ids) <= Z.of_nat i + offset < 0)
    (Hlen : Z.of_nat (length ids) < 2 ^ 62) :
  exists page, ApplyQueryAnchor anchor offset ids None
  = Some (Z.of_nat i + offset + Z.of_nat (length ids), page).
Proof.
  unfold ApplyQueryAnchor. rewrite Hi. rewrite (i64_small (Z.of_nat i + offset)) by lia.
  unfold NormalizePosition. rewrite (proj2 (Z.ltb_lt _ 0)) by lia.
  rewrite i64_small by lia. rewrite (proj2 (Z.ltb_ge _ 0)) by lia. eauto.
Qed.

(** A limit of 2^63 or more, which the request validation lets through,
    turns negative as a Go int: the page is empty whatever the list holds. *)
Theorem huge_limit_empties_page anchor ids limit i
    (Hi : index_of anchor ids = Some i) (Hlen : Z.of_nat (length ids) < 2 ^ 62)
    (Hlim : 2 ^ 63 <= limit < 2 ^ 64 - Z.of_nat i) :
  ApplyQueryAnchor anchor 0 ids (Some limit) = Some (Z.of_nat i, []).
Proof.
  unfold ApplyQueryAnchor. rewrite Hi.
  assert (i < length ids)%nat by (apply index_of_Some in Hi as [?%lookup_lt_Some _]; done).
  rewrite (i64_small (Z.of_nat i + 0)) by lia.
  unfold NormalizePosition. rewrite (proj2 (Z.ltb_ge _ 0)) by lia.
  assert (i64 limit = limit - 2 ^ 64) as ->.
  { unfold i64. replace (limit + 2 ^ 63) with (limit - 2 ^ 63 + 1 * 2 ^ 64) by lia.
    rewrite Z.mod_add by lia. rewrite Z.mod_small by lia. lia. }
  rewrite i64_small by lia. rewrite (proj2 (Z.ltb_lt _ _)) by lia.
  rewrite (proj2 (Z.leb_le _ _)) by lia. by rewrite Z.add_0_r.
Qed.

(** [ValidateFilter] accepts exactly the well-formed filters: conditions
    without an operator, and operators AND, OR and NOT (in any case) over an
    array of well-formed filters, at any depth. *)
Theorem ValidateFilter_sound_complete `{GoRuntime} f :
  ValidateFilter f = EmptyString <-> valid_filter f.
Proof. apply validate_filter_iff. done. Qed.

(** On a validated FilterOperator the evaluation looks at every condition
    of the array, and its verdict is the conjunction, the disjunction or the
    joint denial of theirs. *)
Theorem operator_evaluates_all_conditions `{GoRuntime} f op conds matches
    (Hop : obj_get f "operator" = Some (JStr op)) (Hc : obj_get f "conditions" = Some (JArr conds))
    (Hv : ValidateFilter f = EmptyString) :
  exists fs, conds = map JObj fs /\ exists b,
    EvalFilterOperator (Some f) matches = (b, true) /\
    (ToUpper op = "AND" -> b = true <-> Forall (fun g => matches g = true) fs) /\
    (ToUpper op = "OR" -> b = true <-> Exists (fun g => matches g = true) fs) /\
    (ToUpper op = "NOT" -> b = true <-> Forall (fun g => matches g = false) fs) /\
    (ToUpper op = "AND" \/ ToUpper op = "OR" \/ ToUpper op = "NOT").
Proof.
  apply validate_filter_iff in Hv; [|done]. exists (filter_conditions f).
  split; [symmetry; by eapply filter_conditions_valid|].
  assert (ToUpper op ∈ ["AND"; "OR"; "NOT"]) as Hname by (inversion Hv; congruence).
  unfold EvalFilterOperator, get_str. rewrite Hop. set (fs := filter_conditions f).
  rewrite !elem_of_cons in Hname. destruct Hname as [->|[->|[->|[]%not_elem_of_nil]]]; simpl;
    (eexists; split; [done|]); split_and!; try done; try tauto; intros _.
  - rewrite List.Forall_forall. apply forallb_forall.
  - rewrite List.Exists_exists. apply existsb_exists.
  - rewrite negb_true_iff, List.Forall_forall. split.
    + intros Hno g Hg. destruct (matches g) eqn:E; [|done].
      assert (existsb matches fs = true) by (apply existsb_exists; eauto). congruence.
    + intros Hall. destruct (existsb matches fs) eqn:E; [|done].
      apply existsb_exists in E as (g & Hg & Hm). rewrite Hall in Hm; done.
Qed.

Definition demo_filter : obj :=
  [("operator", JStr "not"); ("conditions", JArr [JObj [("subject", JStr "x")]])].

