(* ===== verification/Handler.v ===== *)
(** * What every method handler shares

    [jmap/jmapauth/auth.go]: account ids, the identities a request context
    carries, the default permission guard and authentication backend.
    [jmap/jmaphandler]: the standard arguments of the get and changes methods,
    the object limits, the method registry and the collector of extra
    responses.  [jmap/jmapcopy/copy.go]: what the copy methods share. *)

From S2P Require Import Prelude GoStrings Base64 Json Envelope Query.
From Stdlib Require Import Ascii SpecFloat.

(** ** Account ids *)

Definition AccountIDForSubject (subject : string) : string := b64_encode subject.

(** A control byte or DEL; a rune of more than one byte is never one. *)
Definition is_control_byte (c : ascii) : bool := byte_between 0 31 c || Ascii.eqb c "127".

Definition SubjectForAccountID (accountID : string) : option string :=
  match b64_decode accountID with
  | None => None
  | Some s =>
      if negb (str_forallb (fun c => negb (is_control_byte c)) s) then None
      else if String.eqb s EmptyString then None else Some s
  end.

(** ** The request context *)

(** [CoreCapability] *)
Record CoreCapability : Type := mkCore {
  cc_MaxSizeUpload : Z;
  cc_MaxConcurrentUpload : Z;
  cc_MaxSizeRequest : Z;
  cc_MaxConcurrentRequests : Z;
  cc_MaxCallsInRequest : Z;
  cc_MaxObjectsInGet : Z;
  cc_MaxObjectsInSet : Z;
  cc_CollationAlgorithms : list string;
}.

(** [CalendarsCapability] *)
Record CalendarsCapability : Type := mkCalCap {
  cal_MaxCalendarsPerEvent : option Z;
  cal_MayCreateCalendar : bool;
  cal_MinDateTime : string;
  cal_MaxDateTime : string;
  cal_MaxExpandedQueryDuration : string;
  cal_MaxParticipantsPerEvent : option Z;
}.

(** The values stored in a [context.Context] that the modelled code reads; a
    key that was never set is [None].  The creation references and the
    response spill are pointers: the context says whether they are attached,
    the request state holds what they point to. *)
Record Ctx : Type := mkCtx {
  ctx_AccountID : option string;
  ctx_Subject : option string;
  ctx_Credentials : option (string * string);
  ctx_PrincipalAccountID : option string;
  ctx_Using : option (list string);
  ctx_Limits : option CoreCapability;
  ctx_CreationRefs : bool;
  ctx_ResponseSpill : bool;
  ctx_Calendars : option CalendarsCapability;
}.

Definition Background : Ctx := mkCtx None None None None None None false false None.

(** [context.WithValue]: one definition per key. *)
Definition ContextWithAccountID (c : Ctx) (a : string) : Ctx :=
  mkCtx (Some a) (ctx_Subject c) (ctx_Credentials c) (ctx_PrincipalAccountID c)
        (ctx_Using c) (ctx_Limits c) (ctx_CreationRefs c) (ctx_ResponseSpill c)
        (ctx_Calendars c).
Definition ContextWithSubject (c : Ctx) (s : string) : Ctx :=
  mkCtx (ctx_AccountID c) (Some s) (ctx_Credentials c) (ctx_PrincipalAccountID c)
        (ctx_Using c) (ctx_Limits c) (ctx_CreationRefs c) (ctx_ResponseSpill c)
        (ctx_Calendars c).
Definition ContextWithCredentials (c : Ctx) (u p : string) : Ctx :=
  mkCtx (ctx_AccountID c) (ctx_Subject c) (Some (u, p)) (ctx_PrincipalAccountID c)
        (ctx_Using c) (ctx_Limits c) (ctx_CreationRefs c) (ctx_ResponseSpill c)
        (ctx_Calendars c).
Definition ContextWithPrincipalAccountID (c : Ctx) (a : string) : Ctx :=
  mkCtx (ctx_AccountID c) (ctx_Subject c) (ctx_Credentials c) (Some a)
        (ctx_Using c) (ctx_Limits c) (ctx_CreationRefs c) (ctx_ResponseSpill c)
        (ctx_Calendars c).
Definition WithUsingCapabilities (c : Ctx) (uris : list string) : Ctx :=
  mkCtx (ctx_AccountID c) (ctx_Subject c) (ctx_Credentials c) (ctx_PrincipalAccountID c)
        (Some uris) (ctx_Limits c) (ctx_CreationRefs c) (ctx_ResponseSpill c)
        (ctx_Calendars c).
Definition WithCoreLimits (c : Ctx) (limits : CoreCapability) : Ctx :=
  mkCtx (ctx_AccountID c) (ctx_Subject c) (ctx_Credentials c) (ctx_PrincipalAccountID c)
        (ctx_Using c) (Some limits) (ctx_CreationRefs c) (ctx_ResponseSpill c)
        (ctx_Calendars c).
Definition WithCreationRefs (c : Ctx) : Ctx :=
  mkCtx (ctx_AccountID c) (ctx_Subject c) (ctx_Credentials c) (ctx_PrincipalAccountID c)
        (ctx_Using c) (ctx_Limits c) true (ctx_ResponseSpill c)
        (ctx_Calendars c).
Definition WithResponseSpill (c : Ctx) : Ctx :=
  mkCtx (ctx_AccountID c) (ctx_Subject c) (ctx_Credentials c) (ctx_PrincipalAccountID c)
        (ctx_Using c) (ctx_Limits c) (ctx_CreationRefs c) true
        (ctx_Calendars c).

Definition WithCalendarsCapability (c : Ctx) (cap : CalendarsCapability) : Ctx :=
  mkCtx (ctx_AccountID c) (ctx_Subject c) (ctx_Credentials c) (ctx_PrincipalAccountID c)
        (ctx_Using c) (ctx_Limits c) (ctx_CreationRefs c) (ctx_ResponseSpill c) (Some cap).

(** The accessors return [(value, ok)]. *)
Definition CredentialsFromContext (c : Ctx) : (string * string) * bool :=
  match ctx_Credentials c with
  | Some (u, p) => ((u, p), negb (String.eqb u EmptyString))
  | None => ((EmptyString, EmptyString), false)
  end.
Definition SubjectFromContext (c : Ctx) : string * bool :=
  match ctx_Subject c with
  | Some s => (s, negb (String.eqb s EmptyString))
  | None => (EmptyString, false)
  end.
Definition AccountIDFromContext (c : Ctx) : string * bool :=
  match ctx_AccountID c with
  | Some a => (a, true)
  | None => (EmptyString, false)
  end.
Definition PrincipalAccountIDFromContext (c : Ctx) : string * bool :=
  match ctx_PrincipalAccountID c with
  | Some id => if negb (String.eqb id EmptyString) then (id, true) else AccountIDFromContext c
  | None => AccountIDFromContext c
  end.
Definition CoreLimitsFromContext (c : Ctx) : option CoreCapability := ctx_Limits c.

Definition CalendarsCapabilityFromContext (c : Ctx) : CalendarsCapability :=
  let or_default (s d : string) := if String.eqb s EmptyString then d else s in
  match ctx_Calendars c with
  | Some cap =>
      mkCalCap (cal_MaxCalendarsPerEvent cap) (cal_MayCreateCalendar cap)
        (or_default (cal_MinDateTime cap) "1900-01-01T00:00:00")
        (or_default (cal_MaxDateTime cap) "9999-12-31T23:59:59")
        (or_default (cal_MaxExpandedQueryDuration cap) "P730D")
        (cal_MaxParticipantsPerEvent cap)
  | None => mkCalCap None false "1900-01-01T00:00:00" "9999-12-31T23:59:59" "P730D" None
  end.

(** ** The permission guard and the default backend *)

(** [SelfAccessGuard.CanAccessAccount] *)
Definition SelfAccessGuard (principalAccountID targetAccountID : string) : bool :=
  if String.eqb principalAccountID EmptyString then false
  else if String.eqb principalAccountID targetAccountID then true
  else
    match SubjectForAccountID principalAccountID with
    | Some subj =>
        if negb (String.eqb subj EmptyString)
           && String.eqb targetAccountID (AccountIDForSubject (subj +:+ "-secondary"))
        then true else false
    | None => false
    end.

(** [PrimaryDomainResolver.ResolveAccountID]; [parse] is the third-party
    address parser: the domain of an address and its printed form. *)
Definition ResolveAccountID `{GoRuntime} (parse : string -> option (string * string))
    (PrimaryDomain emailAddress : string) : string * bool :=
  match parse (TrimSpace emailAddress) with
  | None => (EmptyString, false)
  | Some (domain, printed) =>
      let primary := ToLower PrimaryDomain in
      let primary := if String.eqb primary EmptyString then "example.com" else primary in
      if EqualFold domain primary then (AccountIDForSubject printed, true)
      else (EmptyString, false)
  end.

(** [DefaultAuthBackend] *)
Definition Authenticate (username password : string) : result string string :=
  if String.eqb username EmptyString || negb (String.eqb username password)
  then Err "invalid credentials" else Ok username.
Definition ValidateCredentials (username password : string) : result string string :=
  if String.eqb username EmptyString || negb (String.eqb username password)
  then Err "invalid credentials" else Ok (AccountIDForSubject username).
Definition ValidateToken (token : string) : result string (string * string) :=
  if String.eqb token EmptyString then Err "invalid token"
  else Ok (AccountIDForSubject token, token).

(** ** Standard arguments *)

(** The strings of a JSON array; the other elements are skipped. *)
Definition strings_of (l : list json) : list string :=
  flat_map (fun j => match j with JStr s => [s] | _ => [] end) l.

(** [ParseProperties]: [None] is the nil slice, all properties. *)
Definition ParseProperties (args : obj) : option (list string) :=
  match obj_get args "properties" with
  | None | Some JNull => None
  | Some (JArr raw) => Some (strings_of raw)
  | Some _ => None
  end.

(** [ValidateProperties]; [custom] is [None] for a nil function and [allowed]
    is [None] for a nil map. *)
Fixpoint validate_properties (props : list string) (allowed : option (list string))
    (custom : option (string -> bool)) : bool * string :=
  match props with
  | [] => (true, EmptyString)
  | p :: props' =>
      if match allowed with Some a => str_in p a | None => false end
      then validate_properties props' allowed custom
      else if match custom with Some f => f p | None => false end
      then validate_properties props' allowed custom
      else (false, p)
  end.
Definition ValidateProperties (props : option (list string)) (allowed : option (list string))
    (custom : option (string -> bool)) : bool * string :=
  match props with
  | None => (true, EmptyString)
  | Some ps => validate_properties ps allowed custom
  end.

(** Keep the first occurrence of every string. *)
Fixpoint dedup_from (seen : list string) (l : list string) : list string :=
  match l with
  | [] => []
  | x :: l' => if str_in x seen then dedup_from seen l' else x :: dedup_from (x :: seen) l'
  end.

Definition ParseIDs (args : obj) : option (list string) :=
  match obj_get args "ids" with
  | None | Some JNull => None
  | Some (JArr raw) => Some (dedup_from [] (strings_of raw))
  | Some _ => None
  end.

Section Arguments.
Context `{GoRuntime}.

(** [num <= 0 || num != float64(uint64(num))], negated; [strict] is [<=]. *)
Definition is_uint_float (positive : bool) (f : spec_float) : bool :=
  negb (if positive then SFleb f (S754_zero false) else SFltb f (S754_zero false))
  && SFeqb f (f64_of_Z (f64_to_uint64 f)).

Definition ParseMaxChanges (args : obj) : result obj (option Z) :=
  match obj_get args "maxChanges" with
  | None | Some JNull => Ok None
  | Some (JNum mc) =>
      if is_uint_float true mc then Ok (Some (f64_to_uint64 mc))
      else Err (InvalidArgumentsErrorArgs ["maxChanges"]
                  "maxChanges must be a positive integer greater than 0")
  | Some _ => Err (InvalidArgumentsErrorArgs ["maxChanges"]
                     "maxChanges must be a positive integer greater than 0")
  end.
End Arguments.

(** [FilterProperties], on the JSON the object marshals to.  A JSON null
    unmarshals into a nil map. *)
Definition FilterProperties (o : json) (properties : option (list string)) : json :=
  match properties with
  | None => o
  | Some ps =>
      let reduce (m : obj) :=
        let out := match obj_get m "id" with Some id => [("id", id)] | None => [] end in
        JObj (foldl (fun out p => obj_set out p (default JNull (obj_get m p))) out ps) in
      match o with
      | JObj m => reduce m
      | JNull => reduce []
      | _ => o
      end
  end.

Definition FilterList (l : list json) (properties : option (list string)) : list json :=
  match properties with
  | None => l
  | Some _ => map (fun item => FilterProperties item properties) l
  end.

(** ** Limits *)

Definition ValidateGetLimits (c : Ctx) (count : Z) : option (string * obj) :=
  match CoreLimitsFromContext c with
  | None => None
  | Some limits =>
      if cc_MaxObjectsInGet limits =? 0 then None
      else if cc_MaxObjectsInGet limits <? u64 count
      then Some ("error", MethodErrorArgs "requestTooLarge"
             ("Number of objects (" +:+ fmt_d count +:+ ") exceeds maxObjectsInGet ("
              +:+ fmt_d (cc_MaxObjectsInGet limits) +:+ ")"))
      else None
  end.

(** The number of creations, updates and destructions a set call asks for. *)
Definition set_count (args : obj) : Z :=
  u64 (match get_obj args "create" with Some c => Z.of_nat (length c) | None => 0 end
       + match get_obj args "update" with Some u => Z.of_nat (length u) | None => 0 end
       + match get_arr args "destroy" with Some d => Z.of_nat (length d) | None => 0 end).

Definition ValidateSetLimits (c : Ctx) (args : obj) : option (string * obj) :=
  match CoreLimitsFromContext c with
  | None => None
  | Some limits =>
      if cc_MaxObjectsInSet limits =? 0 then None
      else if cc_MaxObjectsInSet limits <? set_count args
      then Some ("error", MethodErrorArgs "requestTooLarge"
             ("Total objects in set (" +:+ fmt_d (set_count args) +:+ ") exceeds maxObjectsInSet ("
              +:+ fmt_d (cc_MaxObjectsInSet limits) +:+ ")"))
      else None
  end.

(** ** Copying between accounts *)

Definition SourceAccountContext (c : Ctx) (args : obj) : Ctx :=
  let raw := str_or_empty args "fromAccountId" in
  if negb (String.eqb raw EmptyString) && negb (String.eqb raw "primary")
  then ContextWithAccountID c raw else c.

Definition ResolveCopyAccountIDs (args : obj) : string * string :=
  let accountID := str_or_empty args "accountId" in
  let fromAccountID := str_or_empty args "fromAccountId" in
  (accountID, if String.eqb fromAccountID EmptyString then accountID else fromAccountID).

(** [k] is given, is a non-empty string and differs from [state]. *)
Definition state_mismatch (args : obj) (k state : string) : bool :=
  match get_str args k with
  | Some s => negb (String.eqb s EmptyString) && negb (String.eqb s state)
  | None => false
  end.

Definition ValidateCopyStates (c srcCtx : Ctx) (args : obj) (getDstState getSrcState : Ctx -> string)
  : result (string * obj) string :=
  if state_mismatch args "ifFromInState" (getSrcState srcCtx)
  then Err ("error", MethodErrorArgs "stateMismatch" "ifFromInState does not match source account state")
  else
    let oldState := getDstState c in
    if state_mismatch args "ifInState" oldState
    then Err ("error", MethodErrorArgs "stateMismatch" "ifInState does not match target account state")
    else if state_mismatch args "destroyFromIfInState" (getSrcState srcCtx)
    then Err ("error", MethodErrorArgs "stateMismatch"
                         "destroyFromIfInState does not match source account state")
    else Ok oldState.

(** [source] is the JSON the source object marshals to; anything but an object
    (or a value that does not marshal) leaves [merged] empty. *)
Definition MergeCopyOverrides (source : option json) (overrides : obj) : obj :=
  let merged := match source with Some (JObj m) => m | _ => [] end in
  let merged := foldl (fun acc kv => if String.eqb (fst kv) "id" then acc
                                     else obj_set acc (fst kv) (snd kv)) merged overrides in
  obj_del merged "id".

(** ** Lemmas: account ids *)

Definition printable (s : string) : bool := str_forallb (fun c => negb (is_control_byte c)) s.

Lemma SubjectForAccountID_spec subject :
  SubjectForAccountID (AccountIDForSubject subject)
  = if printable subject && negb (String.eqb subject EmptyString) then Some subject else None.
Proof.
  unfold SubjectForAccountID, AccountIDForSubject, printable. rewrite b64_decode_encode.
  destruct (str_forallb _ subject); simpl; [|done]. by destruct (String.eqb subject EmptyString).
Qed.

Lemma AccountIDForSubject_inj s t : AccountIDForSubject s = AccountIDForSubject t -> s = t.
Proof. apply b64_encode_inj. Qed.

(** ** Lemmas: arguments *)

Lemma dedup_from_spec seen l :
  NoDup (dedup_from seen l)
  /\ (forall x, x ∈ dedup_from seen l <-> x ∈ l /\ x ∉ seen)
  /\ sublist (dedup_from seen l) l.
Proof.
  revert seen. induction l as [|y l IH]; intros seen; simpl.
  - split_and!; [constructor | set_solver | constructor].
  - destruct (str_in y seen) eqn:E.
    + apply str_in_spec in E. destruct (IH seen) as (Hn & He & Hs).
      split_and!; [done | set_solver | by constructor].
    + assert (y ∉ seen) by (intros ?%str_in_spec; congruence).
      destruct (IH (y :: seen)) as (Hn & He & Hs).
      split_and!; [constructor; [|done] | | by constructor].
      * rewrite He. set_solver.
      * intros x. rewrite !elem_of_cons, He. destruct (decide (x = y)); set_solver.
Qed.

Lemma filter_properties_get m ps out k :
  obj_get (foldl (fun out p => obj_set out p (default JNull (obj_get m p))) out ps) k
  = if str_in k ps then Some (default JNull (obj_get m k)) else obj_get out k.
Proof.
  revert out. induction ps as [|p ps IH]; intros out; simpl; [done|].
  rewrite IH. destruct (str_in k ps) eqn:E; [by rewrite orb_true_r|].
  rewrite orb_false_r, obj_get_set. destruct (String.eqb k p) eqn:Ek; bool_props; subst.
  - by rewrite decide_True.
  - by rewrite decide_False by done.
Qed.

(** ** Lemmas: copying *)

Lemma merge_overrides_get (overrides merged : obj) k :
  obj_wf overrides ->
  obj_get (foldl (fun acc kv => if String.eqb (fst kv) "id" then acc
                                else obj_set acc (fst kv) (snd kv)) merged overrides) k
  = if String.eqb k "id" then obj_get merged k
    else match obj_get overrides k with Some v => Some v | None => obj_get merged k end.
Proof.
  unfold obj_wf. revert merged. induction overrides as [|[k' v'] l IH]; intros merged Hwf; simpl.
  - by destruct (String.eqb k "id").
  - apply NoDup_cons in Hwf as [Hk Hl]. rewrite IH by done.
    destruct (String.eqb k "id") eqn:E1, (String.eqb k' "id") eqn:E2, (String.eqb k' k) eqn:E3;
      bool_props; subst; simplify_eq; try done; rewrite ?obj_get_set, ?decide_False by congruence;
      try done.
    simpl in Hk. apply obj_get_keys in Hk. simpl. by rewrite Hk, decide_True.
Qed.

(** ** Properties *)

(** the account id of a printable subject gives that subject back, two
    subjects never share an account id, and the account id of a subject of at
    most 191 bytes is a well-formed JMAP Id. *)
Theorem account_id_roundtrip subject :
  printable subject = true -> subject <> EmptyString -> (slen subject <= 191)%nat ->
  SubjectForAccountID (AccountIDForSubject subject) = Some subject
  /\ (forall other, AccountIDForSubject other = AccountIDForSubject subject -> other = subject)
  /\ Id_Validate (AccountIDForSubject subject) = true.
Proof.
  intros Hp Hne Hlen. split_and!.
  - rewrite SubjectForAccountID_spec, Hp. by rewrite (proj2 (String.eqb_neq _ _) Hne).
  - intros other. apply AccountIDForSubject_inj.
  - apply Id_Validate_spec. unfold AccountIDForSubject. split; [|apply b64_encode_id].
    rewrite b64_encode_length. assert (1 <= slen subject)%nat by (destruct subject; simpl; [done|lia]).
    split; [apply Nat.div_le_lower_bound | apply Nat.lt_succ_r, Nat.Div0.div_lt_upper_bound]; lia.
Qed.

Lemma account_id_roundtrip_witness :
  SubjectForAccountID (AccountIDForSubject "user@example.com") = Some "user@example.com"
  /\ (forall other, AccountIDForSubject other = AccountIDForSubject "user@example.com" ->
                    other = "user@example.com")
  /\ Id_Validate (AccountIDForSubject "user@example.com") = true.
Proof. apply (account_id_roundtrip "user@example.com"); [reflexivity|discriminate|simpl; lia]. Defined.

(** the guard documented to allow access iff the two account ids are equal
    also lets every principal into the account of the subject obtained by
    appending -secondary to its own: for a printable subject these two
    accounts are exactly the ones it grants. *)
Theorem self_guard_grants subject target :
  printable subject = true -> subject <> EmptyString ->
  SelfAccessGuard (AccountIDForSubject subject) target = true
  <-> target = AccountIDForSubject subject \/ target = AccountIDForSubject (subject +:+ "-secondary").
Proof.
  intros Hp Hne. unfold SelfAccessGuard.
  assert (String.eqb (AccountIDForSubject subject) EmptyString = false) as ->.
  { apply String.eqb_neq. intros E. apply Hne. by apply (AccountIDForSubject_inj subject EmptyString). }
  rewrite SubjectForAccountID_spec, Hp, (proj2 (String.eqb_neq _ _) Hne). simpl.
  rewrite (proj2 (String.eqb_neq _ _) Hne). simpl.
  destruct (String.eqb (AccountIDForSubject subject) target) eqn:E; bool_props; [naive_solver|].
  case_match; bool_props; naive_solver.
Qed.

Lemma self_guard_grants_witness :
  SelfAccessGuard (AccountIDForSubject "a@x") (AccountIDForSubject "a@x-secondary") = true.
Proof. apply (self_guard_grants "a@x"); [reflexivity | discriminate | right; reflexivity]. Defined.

(** A get response carries, for every object, the id and exactly the
    requested properties: the id is kept even when it was not asked for, a
    requested property the object lacks is null, and nothing else is left. *)
Theorem filtered_object_has_requested_properties m ps :
  match FilterProperties (JObj m) (Some ps) with
  | JObj out =>
      (forall k, k ∈ ps -> obj_get out k = Some (default JNull (obj_get m k)))
      /\ obj_get out "id" = (if str_in "id" ps then Some (default JNull (obj_get m "id"))
                             else obj_get m "id")
      /\ (forall k, k ∉ ps -> k <> "id" -> obj_get out k = None)
  | _ => False
  end.
Proof.
  simpl. split_and!.
  - intros k Hk%str_in_spec. by rewrite filter_properties_get, Hk.
  - rewrite filter_properties_get. case_match; [done|]. by destruct (obj_get m "id").
  - intros k Hk Hid. rewrite filter_properties_get.
    destruct (str_in k ps) eqn:E; [by apply str_in_spec in E|].
    destruct (obj_get m "id"); [|done]. cbn [obj_get]. by rewrite (proj2 (String.eqb_neq _ _) (not_eq_sym Hid)).
Qed.

(** The ids a handler parses are the strings of the request, each once and
    in the order of its first occurrence. *)
Theorem parsed_ids_are_distinct args raw :
  obj_get args "ids" = Some (JArr raw) ->
  exists ids, ParseIDs args = Some ids /\ NoDup ids /\ sublist ids (strings_of raw)
              /\ forall id, id ∈ ids <-> id ∈ strings_of raw.
Proof.
  intros Hids. unfold ParseIDs. rewrite Hids. eexists. split; [done|].
  destruct (dedup_from_spec [] (strings_of raw)) as (Hn & He & Hs).
  split_and!; [done|done|]. intros id. rewrite He. set_solver.
Qed.

(** The payload of a copy is the source object overridden by the given
    properties and never has an id, whatever the override map says. *)
Theorem copy_overrides_source src overrides k :
  obj_wf overrides ->
  obj_get (MergeCopyOverrides (Some (JObj src)) overrides) k
  = if String.eqb k "id" then None
    else match obj_get overrides k with Some v => Some v | None => obj_get src k end.
Proof.
  intros Hwf. unfold MergeCopyOverrides. rewrite obj_get_del.
  rewrite merge_overrides_get by done.
  destruct (String.eqb k "id") eqn:E; bool_props; subst; [done|].
  by rewrite decide_False by done.
Qed.

