(* ===== verification/Server.v ===== *)
(** * The API endpoint

    [jmap/server.go]: [handleAPI], from the HTTP request to the response, with
    result references, limits, account checks and the dispatch to the
    registered methods ([jmap/jmaphandler/methods.go], [response_spill.go]);
    and the same loop of the WebSocket transport ([jmap/websocket.go]).

    A method handler is a state transformer: the state of a request is the
    server's persistent state [W] together with the request-scoped stores, so
    handlers, the permission guard and the iTIP scan are parameters of the
    server, whatever they do.  A request whose processing panics yields
    [Aborted]: net/http recovers, the connection is closed without a response,
    and the effects of the calls already made stay. *)

From S2P Require Import Prelude GoStrings Base64 Json Envelope JsonPointer CreationRefs Query Handler.
From Stdlib Require Import Ascii SpecFloat.

(** ** Capabilities *)

Definition CoreCapabilityURI := "urn:ietf:params:jmap:core".
Definition MailCapabilityURI := "urn:ietf:params:jmap:mail".
Definition SubmissionCapabilityURI := "urn:ietf:params:jmap:submission".
Definition VacationResponseCapabilityURI := "urn:ietf:params:jmap:vacationresponse".
Definition BlobCapabilityURI := "urn:ietf:params:jmap:blob".
Definition QuotaCapabilityURI := "urn:ietf:params:jmap:quota".
Definition MdnCapabilityURI := "urn:ietf:params:jmap:mdn".
Definition ContactsCapabilityURI := "urn:ietf:params:jmap:contacts".
Definition CalendarsCapabilityURI := "urn:ietf:params:jmap:calendars".
Definition SieveCapabilityURI := "urn:ietf:params:jmap:sieve".
Definition ImapAccessCapabilityURI := "urn:ietf:params:jmap:imapaccess".
Definition PrincipalsCapabilityURI := "urn:ietf:params:jmap:principals".
Definition PrincipalsOwnerCapabilityURI := "urn:ietf:params:jmap:principals:owner".
Definition SharingCapabilityURI := "urn:ietf:params:jmap:sharing".

Definition has_prefix_of (name : string) (ps : list string) : bool := existsb (HasPrefix name) ps.

Definition requiredCapabilityForMethod (name : string) : string :=
  if HasPrefix name "Core/" then CoreCapabilityURI
  else if has_prefix_of name ["Mailbox/"; "Email/"; "Thread/"; "SearchSnippet/"] then MailCapabilityURI
  else if HasPrefix name "EmailSubmission/" then SubmissionCapabilityURI
  else if HasPrefix name "VacationResponse/" then VacationResponseCapabilityURI
  else if HasPrefix name "Identity/" then SubmissionCapabilityURI
  else if HasPrefix name "PushSubscription/" then CoreCapabilityURI
  else if has_prefix_of name ["Calendar/"; "CalendarEvent/"; "CalendarEventNotification/";
                              "ParticipantIdentity/"] then CalendarsCapabilityURI
  else if HasPrefix name "ShareNotification/" then SharingCapabilityURI
  else if has_prefix_of name ["AddressBook/"; "ContactCard/"; "ContactCardGroup/"; "Contact/"]
       then ContactsCapabilityURI
  else if HasPrefix name "SieveScript/" then SieveCapabilityURI
  else if HasPrefix name "Principal/" then PrincipalsCapabilityURI
  else if HasPrefix name "Blob/" then BlobCapabilityURI
  else if HasPrefix name "Quota/" then QuotaCapabilityURI
  else if HasPrefix name "MDN/" then MdnCapabilityURI
  else CoreCapabilityURI.

(** ** Result references *)

Definition array_arguments : list string :=
  ["ids"; "emailIds"; "mailboxIds"; "threadIds"; "destroy"; "typeNames"; "properties"].

(** A single value for an argument that expects an array becomes an array. *)
Definition wrap_array (isTopLevelArgs : bool) (name : string) (v : json) : json :=
  match v with
  | JArr _ | JNull => v
  | _ => if isTopLevelArgs && str_in name array_arguments then JArr [v] else v
  end.

Definition is_reference (item : json) : bool :=
  match item with JObj refMap => IsResultReference refMap | _ => false end.

Section References.
Context `{GoRuntime}.
(** The responses so far, by client call id. *)
Variable executed : gmap string Invocation.

Definition resolveResultReference (m : obj) : result string json :=
  let resultOf := str_or_empty m "resultOf" in
  let reqName := str_or_empty m "name" in
  let path := str_or_empty m "path" in
  if String.eqb resultOf EmptyString || String.eqb reqName EmptyString || String.eqb path EmptyString
  then Err "resultOf, name, and path must be non-empty strings in ResultReference"
  else
    match executed !! resultOf with
    | None => Err ("Referenced call ID " +:+ resultOf +:+ " not found")
    | Some prevInv =>
        if negb (String.eqb (inv_Name prevInv) reqName)
        then Err ("Referenced method name mismatch: expected " +:+ reqName +:+ ", got "
                  +:+ inv_Name prevInv)
        else
          match EvaluateJSONPointer (match inv_Args prevInv with Some a => JObj a | None => JNull end)
                  path with
          | Err e => Err ("Failed to evaluate JSON pointer: " +:+ e)
          | Ok v => Ok v
          end
    end.

(** The value of the member [k] of [v] whose name starts with a hash: an error
    (type and detail) or the value to store under the name without the hash. *)
Definition resolve_reference (v : obj) (isTopLevelArgs : bool) (k : string) (item : json)
  : result (string * string) json :=
  let name := TrimPrefix k "#" in
  match obj_get v name with
  | Some _ => Err (MethodErrorInvalidArguments,
                   "Argument " +:+ fmt_q name +:+ " is given in both normal and referenced form")
  | None =>
      match item with
      | JObj refMap =>
          if IsResultReference refMap then
            match resolveResultReference refMap with
            | Err e => Err (MethodErrorInvalidResultReference, e)
            | Ok r => Ok (wrap_array isTopLevelArgs name r)
            end
          else Err (MethodErrorInvalidResultReference,
                    "Argument " +:+ fmt_q k +:+ " is not a valid ResultReference object")
      | _ => Err (MethodErrorInvalidResultReference,
                  "Argument " +:+ fmt_q k +:+ " is not a valid ResultReference object")
      end
  end.

(** The argument is replaced rather than copied. *)
Definition is_referenced (isTopLevelArgs : bool) (k : string) (item : json) : bool :=
  HasPrefix k "#" && (isTopLevelArgs || is_reference item).

(** The two loops of [resolveValueResultReferences]; [rec] resolves a nested value. *)
Section Loops.
Variable rec : json -> result (string * string) json.
Variables (v : obj) (isTopLevelArgs : bool).
Fixpoint resolve_object (l : obj) (resolved : obj) : result (string * string) json :=
  match l with
  | [] => Ok (JObj resolved)
  | (k, item) :: l' =>
      if is_referenced isTopLevelArgs k item then
        match resolve_reference v isTopLevelArgs k item with
        | Err e => Err e
        | Ok r => resolve_object l' (obj_set resolved (TrimPrefix k "#") r)
        end
      else
        match rec item with
        | Err e => Err e
        | Ok c => resolve_object l' (obj_set resolved k c)
        end
  end.
Fixpoint resolve_array (l : list json) (resolved : list json) : result (string * string) json :=
  match l with
  | [] => Ok (JArr resolved)
  | item :: l' =>
      match rec item with
      | Err e => Err e
      | Ok c => resolve_array l' (resolved ++ [c])
      end
  end.
End Loops.

Fixpoint resolveValueResultReferences (val : json) (isTopLevelArgs : bool) {struct val}
  : result (string * string) json :=
  match val with
  | JObj v => resolve_object (fun item => resolveValueResultReferences item false) v isTopLevelArgs v []
  | JArr v => resolve_array (fun item => resolveValueResultReferences item false) v []
  | _ => Ok val
  end.

Definition resolveResultReferences (args : option obj) : result (string * string) obj :=
  match args with
  | None => Ok []
  | Some m =>
      match resolveValueResultReferences (JObj m) true with
      | Err e => Err e
      | Ok (JObj r) => Ok r
      | Ok _ => Ok []
      end
  end.
End References.

(** ** Argument checks *)

(** Why a call is not made: a method error, or a run-time panic. *)
Inductive rejection : Type :=
| Reject (errArgs : obj)
| Crash.

(** [seen] is a [map[any]bool]: a key that is an array or an object panics. *)
Definition hashable (j : json) : bool :=
  match j with JArr _ | JObj _ => false | _ => true end.
Definition any_eqb (a b : json) : bool :=
  match a, b with
  | JNull, JNull => true
  | JBool x, JBool y => Bool.eqb x y
  | JNum x, JNum y => SFeqb x y
  | JStr x, JStr y => String.eqb x y
  | _, _ => false
  end.
Fixpoint dedup_any (seen : list json) (l : list json) : option (list json) :=
  match l with
  | [] => Some []
  | item :: l' =>
      if negb (hashable item) then None
      else if existsb (any_eqb item) seen then dedup_any seen l'
      else (fun r => item :: r) <$> dedup_any (item :: seen) l'
  end.

(** The ids argument: an array, without duplicates in a get call, or null. *)
Definition check_ids (name : string) (args : obj) : result rejection obj :=
  match get_present args "ids" with
  | None => Ok args
  | Some (JArr slice) =>
      if HasSuffix name "/get" then
        match dedup_any [] slice with
        | None => Err Crash
        | Some deduped => Ok (obj_set args "ids" (JArr deduped))
        end
      else Ok args
  | Some _ => Err (Reject (MethodErrorArgs MethodErrorInvalidArguments "ids must be an array or null"))
  end.

(** [maxObjectsInGet] and [maxObjectsInSet] *)
Definition check_limits (limits : CoreCapability) (name : string) (args : obj)
  : result rejection unit :=
  let n := match get_arr args "ids" with Some ids => Z.of_nat (length ids) | None => 0 end in
  if HasSuffix name "/get" && (0 <? cc_MaxObjectsInGet limits) && (cc_MaxObjectsInGet limits <? n)
  then Err (Reject (MethodErrorArgs MethodErrorRequestTooLarge
         ("Number of requested ids (" +:+ fmt_d n +:+ ") exceeds maxObjectsInGet ("
          +:+ fmt_d (cc_MaxObjectsInGet limits) +:+ ")")))
  else if HasSuffix name "/set" && (0 <? cc_MaxObjectsInSet limits)
          && (cc_MaxObjectsInSet limits <? set_count args)
  then Err (Reject (MethodErrorArgs MethodErrorRequestTooLarge
         ("Total objects in set (" +:+ fmt_d (set_count args) +:+ ") exceeds maxObjectsInSet ("
          +:+ fmt_d (cc_MaxObjectsInSet limits) +:+ ")")))
  else Ok tt.

Section Numbers.
Context `{GoRuntime}.

(** maxChanges of a changes call, limit and filter of a query call. *)
Definition check_numbers (name : string) (args : obj) : result rejection unit :=
  if HasSuffix name "/changes"
     && match get_present args "maxChanges" with
        | None => false
        | Some (JNum num) => negb (is_uint_float true num)
        | Some _ => true
        end
  then Err (Reject (InvalidArgumentsErrorArgs ["maxChanges"]
              "maxChanges must be a positive integer greater than 0"))
  else if HasSuffix name "/query"
     && match get_present args "limit" with
        | None => false
        | Some (JNum num) => negb (is_uint_float false num)
        | Some _ => true
        end
  then Err (Reject (InvalidArgumentsErrorArgs ["limit"] "limit must be a non-negative integer"))
  else if HasSuffix name "/query" then
    match get_present args "filter" with
    | None => Ok tt
    | Some (JObj filterMap) =>
        let filterErr := ValidateFilter filterMap in
        if String.eqb filterErr EmptyString then Ok tt
        else Err (Reject (InvalidArgumentsErrorArgs ["filter"] filterErr))
    | Some _ => Err (Reject (InvalidArgumentsErrorArgs ["filter"] "filter must be an object or null"))
    end
  else Ok tt.
End Numbers.

Definition check_account (args : obj) : result rejection string :=
  match obj_get args "accountId" with
  | None | Some JNull =>
      Err (Reject (MethodErrorArgs MethodErrorInvalidArguments "accountId is required"))
  | Some (JStr acctStr) =>
      if String.eqb acctStr EmptyString
      then Err (Reject (MethodErrorArgs MethodErrorInvalidArguments "accountId must be a non-empty string"))
      else Ok acctStr
  | Some _ =>
      Err (Reject (MethodErrorArgs MethodErrorInvalidArguments "accountId must be a non-empty string"))
  end.

(** [normalizeSetResult] *)
Definition set_result_keys : list string :=
  ["created"; "updated"; "destroyed"; "notCreated"; "notUpdated"; "notDestroyed"].
Definition normalizeSetResult (respName : string) (args : obj) : obj :=
  if negb (HasSuffix respName "/set" || HasSuffix respName "/copy") then args
  else foldl (fun a k => match obj_get a k with Some v => obj_set a k (NilIfEmpty v) | None => a end)
             args set_result_keys.

(** ** The server *)

Section Server.
Context `{GoRuntime}.
(** The persistent state behind the server, and what the request stores hold. *)
Context {W V : Type}.

Record ReqState : Type := mkReq {
  rs_world : W;
  rs_refs : refmap;
  rs_spill : list Invocation;
  rs_cache : option (RequestCache V);
  rs_scope : option (gmap string V);
}.

(** [MethodHandler]; the response arguments are a Go map, possibly nil. *)
Definition MethodHandler : Type :=
  Ctx -> obj -> string -> ReqState -> ReqState * (string * option obj).

Definition handleCoreEcho : MethodHandler := fun _ args _ st => (st, ("Core/echo", Some args)).

Definition MethodRegistry : Type := gmap string MethodHandler.
Definition Register (r : MethodRegistry) (name : string) (h : MethodHandler) : MethodRegistry :=
  <[name := h]> r.
Definition NewMethodRegistry : MethodRegistry := Register ∅ "Core/echo" handleCoreEcho.
Definition Registry_Get (r : MethodRegistry) (name : string) : option MethodHandler := r !! name.
Definition AliasMethod (name : string) (h : MethodHandler) : MethodHandler :=
  fun c args cid st => let '(st', (_, respArgs)) := h c args cid st in (st', (name, respArgs)).

(** [AppendSpillResponse] and [DrainResponseSpill] *)
Definition AppendSpillResponse (c : Ctx) (inv : Invocation) (st : ReqState) : ReqState :=
  if ctx_ResponseSpill c
  then mkReq (rs_world st) (rs_refs st) (rs_spill st ++ [inv]) (rs_cache st) (rs_scope st)
  else st.
Definition DrainResponseSpill (c : Ctx) (st : ReqState) : ReqState * list Invocation :=
  if ctx_ResponseSpill c
  then (mkReq (rs_world st) (rs_refs st) [] (rs_cache st) (rs_scope st), rs_spill st)
  else (st, []).

(** The dynamic type of [s.PermissionGuard]: nil, a [PermissionGuard], or one
    that also has [CheckAccountAccess]. *)
Inductive Guard : Type :=
| NoGuard
| PlainGuard (CanAccessAccount : W -> Ctx -> string -> string -> bool)
| DetailedGuard (CheckAccountAccess : W -> Ctx -> string -> string -> bool * string).

(** A value of [Session.Capabilities]. *)
Inductive capability : Type :=
| CapCore (c : CoreCapability)
| CapCalendars (c : CalendarsCapability)
| CapOther (c : json).

Definition Capabilities : Type := list (string * capability).
Fixpoint cap_get (m : Capabilities) (uri : string) : option capability :=
  match m with
  | [] => None
  | (k, v) :: m' => if String.eqb k uri then Some v else cap_get m' uri
  end.

(** The part of [Server] the API endpoint uses; [srv_CanAccessSharedAccount]
    is the optional method of the calendars backend. *)
Record Server : Type := mkServer {
  srv_Capabilities : Capabilities;
  srv_SessionState : string;
  srv_IMAPAccessBackend : bool;
  srv_CacheDisabled : bool;
  srv_PermissionGuard : Guard;
  srv_CanAccessSharedAccount : option (W -> string -> string -> bool * bool);
  srv_ProcessMailboxITIP : Ctx -> ReqState -> ReqState;
  srv_MethodRegistry : MethodRegistry;
}.

Definition capabilitySupported (s : Server) (capURI : string) : bool :=
  if String.eqb capURI ImapAccessCapabilityURI then srv_IMAPAccessBackend s
  else if String.eqb capURI PrincipalsOwnerCapabilityURI
          && match cap_get (srv_Capabilities s) PrincipalsCapabilityURI with Some _ => true | None => false end
  then true
  else match cap_get (srv_Capabilities s) capURI with Some _ => true | None => false end.

(** [coreLimits], on the capabilities of the session of the request. *)
Definition default_limits : CoreCapability :=
  mkCore 50000000 4 10000000 4 16 500 500 ["i;ascii-casemap"; "i;octet"].
Definition coreLimits (sess : Capabilities) : CoreCapability :=
  match cap_get sess CoreCapabilityURI with
  | Some (CapCore cc) => cc
  | _ => default_limits
  end.

(** The calendars capability of the session, or its zero value. *)
Definition calendars_capability (s : Server) : CalendarsCapability :=
  match cap_get (srv_Capabilities s) CalendarsCapabilityURI with
  | Some (CapCalendars c) => c
  | _ => mkCalCap None false EmptyString EmptyString EmptyString None
  end.

Definition newRequestCache (s : Server) : RequestCache V :=
  if srv_CacheDisabled s then NewDummyRequestCache else NewRequestCache.

(** *** One method call *)

(** The capability checks that precede everything else. *)
Definition check_capabilities (usingSet : list string) (name : string) : result rejection unit :=
  let reqCap := requiredCapabilityForMethod name in
  if negb (str_in reqCap usingSet) && negb (str_in CoreCapabilityURI usingSet)
  then Err (Reject (MethodErrorArgs MethodErrorUnknownMethod
              ("Method requires capability " +:+ reqCap +:+ " which is not in 'using'")))
  else if HasPrefix name "MDN/" && negb (str_in MdnCapabilityURI usingSet)
  then Err (Reject (MethodErrorArgs MethodErrorUnknownMethod
              ("Method requires capability " +:+ MdnCapabilityURI +:+ " which is not in 'using'")))
  else if String.eqb name "MDN/send" && negb (str_in MailCapabilityURI usingSet)
  then Err (Reject (MethodErrorArgs MethodErrorUnknownMethod
              ("MDN/send requires capability " +:+ MailCapabilityURI +:+ " which is not in 'using'")))
  else Ok tt.

(** The permission guard, then the shared accounts of the calendars backend:
    whether access is allowed, and the error type when it is not. *)
Definition account_access (s : Server) (w : W) (c : Ctx) (principal target : string) : bool * string :=
  let '(allowed, errType) :=
    match srv_PermissionGuard s with
    | DetailedGuard f => f w c principal target
    | PlainGuard f => (f w c principal target, MethodErrorAccountNotFound)
    | NoGuard => (false, MethodErrorAccountNotFound)
    end in
  if allowed then (allowed, errType)
  else match srv_CanAccessSharedAccount s with
       | None => (allowed, errType)
       | Some f =>
           let '(allowed, known) := f w principal target in
           (allowed, if negb allowed && known then MethodErrorForbidden else errType)
       end.

(** The account a call is made on, and the arguments with the account id the
    handler sees. *)
Definition check_access (s : Server) (w : W) (c : Ctx) (principal acctStr : string) (args : obj)
  : result rejection (string * obj) :=
  if String.eqb acctStr "primary" || String.eqb acctStr principal
     || String.eqb (AccountIDForSubject acctStr) principal
  then Ok (principal, obj_set args "accountId" (JStr principal))
  else
    let '(allowed, errType) := account_access s w c principal acctStr in
    if allowed then Ok (acctStr, args)
    else Err (Reject (MethodErrorArgs errType
                ("Account " +:+ fmt_q acctStr +:+ " not found or access forbidden"))).

(** A call that passed every check: an echo, or a call made on an account. *)
Inductive prepared : Type :=
| EchoCall (h : MethodHandler) (args : obj)
| AccountCall (h : MethodHandler) (target : string) (args : obj).

Open Scope go_scope.

(** Every check of the loop body of [handleAPI], in its order. *)
Definition prepare_call (s : Server) (w : W) (c : Ctx) (limits : CoreCapability)
    (usingSet : list string) (executed : gmap string Invocation) (call : Invocation)
  : result rejection prepared :=
  let name := inv_Name call in
  try _u := check_capabilities usingSet name in
  if (length usingSet =? 0)%nat
  then Err (Reject (MethodErrorArgs MethodErrorUnknownMethod "Method calls require non-empty 'using'"))
  else
  match resolveResultReferences executed (inv_Args call) with
  | Err (refErrType, refErr) => Err (Reject (MethodErrorArgs refErrType refErr))
  | Ok args =>
    try _u := check_limits limits name args in
    match Registry_Get (srv_MethodRegistry s) name with
    | None => Err (Reject (MethodErrorArgs MethodErrorUnknownMethod ("Unknown method: " +:+ name)))
    | Some h =>
        let principal := fst (AccountIDFromContext c) in
        if String.eqb name "Core/echo" then Ok (EchoCall h args)
        else if HasPrefix name "PushSubscription/" then Ok (AccountCall h principal args)
        else
          try acctStr := check_account args in
          try args := check_ids name args in
          try _u := check_numbers name args in
          try ta := check_access s w c principal acctStr args in
          Ok (AccountCall h (fst ta) (snd ta))
    end
  end.

Definition error_response (call : Invocation) (errArgs : obj) : Invocation :=
  mkInvocation "error" (Some errArgs) (inv_ClientCallID call).

Definition normalize_invocation (i : Invocation) : Invocation :=
  mkInvocation (inv_Name i) (normalizeSetResult (inv_Name i) <$> inv_Args i) (inv_ClientCallID i).

(** One iteration of the loop: the responses it appends, the first of which is
    recorded for later references; [None] when it panics. *)
Definition run_call (s : Server) (c : Ctx) (limits : CoreCapability) (usingSet : list string)
    (executed : gmap string Invocation) (call : Invocation) (st : ReqState)
  : ReqState * option (Invocation * list Invocation) :=
  match prepare_call s (rs_world st) c limits usingSet executed call with
  | Err Crash => (st, None)
  | Err (Reject errArgs) => (st, Some (error_response call errArgs, []))
  | Ok (EchoCall h args) =>
      let '(st', (respName, respArgs)) := h c args (inv_ClientCallID call) st in
      (st', Some (mkInvocation respName respArgs (inv_ClientCallID call), []))
  | Ok (AccountCall h target args) =>
      let principal := fst (AccountIDFromContext c) in
      let methodCallCtx := ContextWithPrincipalAccountID (ContextWithAccountID c target) principal in
      let '(st', (respName, respArgs)) := h methodCallCtx args (inv_ClientCallID call) st in
      let respInv := normalize_invocation (mkInvocation respName respArgs (inv_ClientCallID call)) in
      let '(st'', extras) := DrainResponseSpill c st' in
      (st'', Some (respInv, map normalize_invocation extras))
  end.

Fixpoint run_calls (s : Server) (c : Ctx) (limits : CoreCapability) (usingSet : list string)
    (calls : list Invocation) (executed : gmap string Invocation) (st : ReqState)
  : ReqState * option (list Invocation) :=
  match calls with
  | [] => (st, Some [])
  | call :: calls' =>
      match run_call s c limits usingSet executed call st with
      | (st', None) => (st', None)
      | (st', Some (respInv, extras)) =>
          let '(st'', rest) :=
            run_calls s c limits usingSet calls' (<[inv_ClientCallID call := respInv]> executed) st' in
          (st'', (fun r => respInv :: extras ++ r) <$> rest)
      end
  end.

(** *** The request *)

(** The HTTP request: the media type, the declared and the actual length of
    the body, and the JSON it holds ([None] when it is not JSON; [Err] when
    reading it fails). *)
Record HttpRequest : Type := mkHttp {
  hr_Path : string;
  hr_Method : string;
  hr_ContentType : string;
  hr_ContentLength : Z;
  hr_BodyLength : Z;
  hr_Body : result unit (option json);
}.

Record RequestError : Type := mkRequestError {
  re_Type : string;
  re_Status : Z;
  re_Detail : string;
  re_Limit : string;
}.

Definition ErrorNotJSON := "urn:ietf:params:jmap:error:notJSON".
Definition ErrorUnknownCapability := "urn:ietf:params:jmap:error:unknownCapability".
Definition ErrorNotRequest := "urn:ietf:params:jmap:error:notRequest".
Definition ErrorLimit := "urn:ietf:params:jmap:error:limit".

Record Request : Type := mkRequest {
  req_Using : list string;
  req_MethodCalls : list Invocation;
  req_CreatedIds : option refmap;
}.

(** [json.Unmarshal] into the fields of [Request]; encoding/json matches the
    member names without regard to case, and a later member replaces what an
    earlier one stored. *)
Definition decode_using (j : json) : option (list string) :=
  match unmarshal_array j with
  | Ok l => mapM (fun x => match unmarshal_string x with Ok s => Some s | Err _ => None end) l
  | Err _ => None
  end.
Definition decode_calls (j : json) : option (list Invocation) :=
  match unmarshal_array j with
  | Ok l => mapM (fun x => match Invocation_UnmarshalJSON x with Ok i => Some i | Err _ => None end) l
  | Err _ => None
  end.
Definition decode_created (old : option refmap) (j : json) : option (option refmap) :=
  match unmarshal_map j with
  | Ok None => Some None
  | Ok (Some m) =>
      foldl (fun acc kv =>
               match acc, unmarshal_string (snd kv) with
               | Some (Some r), Ok s => Some (Some (<[fst kv := s]> r))
               | _, _ => None
               end) (Some (Some (default ∅ old))) m
  | Err _ => None
  end.
Definition decode_member (acc : option Request) (kv : string * json) : option Request :=
  match acc with
  | None => None
  | Some r =>
      let '(k, v) := kv in
      if EqualFold k "using" then
        (fun u => mkRequest u (req_MethodCalls r) (req_CreatedIds r)) <$> decode_using v
      else if EqualFold k "methodCalls" then
        (fun cs => mkRequest (req_Using r) cs (req_CreatedIds r)) <$> decode_calls v
      else if EqualFold k "createdIds" then
        (fun m => mkRequest (req_Using r) (req_MethodCalls r) m) <$> decode_created (req_CreatedIds r) v
      else Some r
  end.
Definition decode_request (m : obj) : option Request :=
  foldl decode_member (Some (mkRequest [] [] None)) m.

(** What the endpoint sends: a plain HTTP error, a problem document, a JMAP
    response, or nothing after a panic. *)
Record Response : Type := mkResponse {
  resp_MethodResponses : list Invocation;
  resp_CreatedIds : option refmap;
  resp_SessionState : string;
}.
Inductive HttpResponse : Type :=
| HttpError (status : Z) (text : string)
| Problem (e : RequestError)
| Reply (r : Response)
| Aborted.

(** [writeRequestError] *)
Definition writeRequestError (status : Z) (errType detail limit : string) : HttpResponse :=
  Problem (mkRequestError errType status detail limit).

(** From the start of [handleAPI] to the decoded request. *)
Definition parse_request (s : Server) (limits : CoreCapability) (r : HttpRequest)
  : result HttpResponse Request :=
  let ct := hr_ContentType r in
  let maxSize := i64 (cc_MaxSizeRequest limits) in
  let maxSize := if maxSize <=? 0 then 10000000 else maxSize in
  let too_large n := writeRequestError 413 ErrorLimit
        ("The request size (" +:+ fmt_d n +:+ " octets) exceeded maxSizeRequest ("
         +:+ fmt_d maxSize +:+ " octets)") "maxSizeRequest" in
  if negb (HasSuffix (hr_Path r) "/jmap") then Err (HttpError 404 "404 page not found")
  else if negb (String.eqb (hr_Method r) "POST") then Err (HttpError 405 "Method Not Allowed")
  else if negb (String.eqb ct EmptyString) && negb (HasPrefix (ToLower ct) "application/json")
          && negb (HasPrefix (ToLower ct) "application/problem+json")
  then Err (HttpError 415 "Unsupported Media Type")
  else if maxSize <? hr_ContentLength r then Err (too_large (hr_ContentLength r))
  else match hr_Body r with
  | Err _ => Err (writeRequestError 400 ErrorNotJSON "Cannot read request body" EmptyString)
  | Ok body =>
      if maxSize <? hr_BodyLength r then Err (too_large (maxSize + 1))
      else match body with
      | None => Err (writeRequestError 400 ErrorNotJSON
                       "The request body could not be parsed as valid JSON." EmptyString)
      | Some j =>
          match unmarshal_map j with
          | Err _ => Err (writeRequestError 400 ErrorNotJSON
                            "The request body could not be parsed as valid JSON." EmptyString)
          | Ok om =>
              let rawMap := default [] om in
              match obj_get rawMap "using", obj_get rawMap "methodCalls" with
              | Some usingRaw, Some methodCallsRaw =>
                  match usingRaw, methodCallsRaw with
                  | JArr _, JArr callsList =>
                      if (0 <? cc_MaxCallsInRequest limits)
                         && (cc_MaxCallsInRequest limits <? Z.of_nat (length callsList))
                      then Err (writeRequestError 400 ErrorLimit
                             ("The number of method calls (" +:+ fmt_d (Z.of_nat (length callsList))
                              +:+ ") exceeded maxCallsInRequest ("
                              +:+ fmt_d (cc_MaxCallsInRequest limits) +:+ ")") "maxCallsInRequest")
                      else match decode_request rawMap with
                           | None => Err (writeRequestError 400 ErrorNotRequest
                                            "Invalid request format." EmptyString)
                           | Some req => Ok req
                           end
                  | JArr _, _ => Err (writeRequestError 400 ErrorNotRequest
                                        "'methodCalls' must be an array." EmptyString)
                  | _, _ => Err (writeRequestError 400 ErrorNotRequest
                                   "'using' must be an array." EmptyString)
                  end
              | _, _ => Err (writeRequestError 400 ErrorNotRequest
                               "Request MUST have 'using' and 'methodCalls' properties." EmptyString)
              end
          end
      end
  end.

(** The first capability of [using] the server does not support. *)
Definition unknown_capability (s : Server) (uris : list string) : option string :=
  find (fun u => negb (capabilitySupported s u)) uris.

(** [itipTriggered] *)
Definition itipTriggerMethods : list string :=
  ["Email/changes"; "Email/query"; "Email/get"; "CalendarEvent/changes"; "CalendarEvent/query";
   "CalendarEvent/get"; "Calendar/get"; "CalendarEventNotification/changes";
   "CalendarEventNotification/query"; "CalendarEventNotification/get"].
Definition itipTriggered (calls : list Invocation) : bool :=
  existsb (fun c => str_in (inv_Name c) itipTriggerMethods) calls.

Definition request_context (s : Server) (c : Ctx) (req : Request) (limits : CoreCapability) : Ctx :=
  let c := WithUsingCapabilities (WithCreationRefs c) (req_Using req) in
  WithResponseSpill (WithCalendarsCapability (WithCoreLimits c limits) (calendars_capability s)).

(** [handleAPI]; [sess] is the session [sessionForRequest] builds and [c] the
    context the authentication middleware attached. *)
Definition handleAPI (s : Server) (sess : Capabilities) (c : Ctx) (r : HttpRequest) (w : W)
  : W * HttpResponse :=
  let limits := coreLimits sess in
  match parse_request s limits r with
  | Err e => (w, e)
  | Ok req =>
      match unknown_capability s (req_Using req) with
      | Some capURI =>
          (w, writeRequestError 400 ErrorUnknownCapability ("Unknown capability: " +:+ capURI) EmptyString)
      | None =>
          let reqCtx := request_context s c req limits in
          let st := mkReq w (NewCreationRefs (req_CreatedIds req)) []
                      (Some (newRequestCache s)) (Some ∅) in
          let st := if (str_in MailCapabilityURI (req_Using req)
                        || str_in CalendarsCapabilityURI (req_Using req))
                       && itipTriggered (req_MethodCalls req)
                    then srv_ProcessMailboxITIP s reqCtx st else st in
          match run_calls s reqCtx limits (req_Using req) (req_MethodCalls req) ∅ st with
          | (st', None) => (rs_world st', Aborted)
          | (st', Some responses) =>
              (rs_world st',
               Reply (mkResponse responses
                        (match req_CreatedIds req with
                         | Some _ => Some (Snapshot (rs_refs st'))
                         | None => None
                         end)
                        (srv_SessionState s)))
          end
      end
  end.

(** *** The WebSocket transport *)

(** The loop body of a JMAP request received on a WebSocket: the method runs
    in the context of the connection with the arguments of the client. *)
Definition ws_run_call (s : Server) (c : Ctx) (limits : CoreCapability) (usingSet : list string)
    (executed : gmap string Invocation) (call : Invocation) (st : ReqState)
  : ReqState * Invocation :=
  let name := inv_Name call in
  let checked :=
    try _u := check_capabilities usingSet name in
    match resolveResultReferences executed (inv_Args call) with
    | Err (refErrType, refErr) => Err (Reject (MethodErrorArgs refErrType refErr))
    | Ok args =>
      try _u := check_limits limits name args in
      match Registry_Get (srv_MethodRegistry s) name with
      | None => Err (Reject (MethodErrorArgs MethodErrorUnknownMethod ("Unknown method: " +:+ name)))
      | Some h => Ok (h, args)
      end
    end in
  match checked with
  | Err (Reject errArgs) => (st, error_response call errArgs)
  | Err Crash => (st, error_response call [])
  | Ok (h, args) =>
      let '(st', (respName, respArgs)) := h c args (inv_ClientCallID call) st in
      (st', mkInvocation respName respArgs (inv_ClientCallID call))
  end.

Fixpoint ws_run_calls (s : Server) (c : Ctx) (limits : CoreCapability) (usingSet : list string)
    (calls : list Invocation) (executed : gmap string Invocation) (st : ReqState)
  : ReqState * list Invocation :=
  match calls with
  | [] => (st, [])
  | call :: calls' =>
      let '(st', respInv) := ws_run_call s c limits usingSet executed call st in
      let '(st'', rest) :=
        ws_run_calls s c limits usingSet calls' (<[inv_ClientCallID call := respInv]> executed) st' in
      (st'', respInv :: rest)
  end.

Inductive WsResponse : Type :=
| WsError (requestId errType detail limit : string) (status : Z)
| WsReply (requestId : string) (r : Response).

(** [writeWSError] *)
Definition writeWSError (requestID errType detail limit : string) : WsResponse :=
  WsError requestID errType detail limit (if String.eqb limit "maxSizeRequest" then 413 else 400).

(** A text frame that is a JMAP request: the decoded request and its id. *)
Definition ws_request (s : Server) (c : Ctx) (limits : CoreCapability) (requestId : string)
    (req : option Request) (w : W) : W * WsResponse :=
  match req with
  | None => (w, writeWSError EmptyString ErrorNotRequest
                  "The request body could not be parsed as a JMAP Request." EmptyString)
  | Some req =>
      if (0 <? cc_MaxCallsInRequest limits)
         && (cc_MaxCallsInRequest limits <? Z.of_nat (length (req_MethodCalls req)))
      then (w, writeWSError requestId ErrorLimit
                 "The number of method calls exceeded maxCallsInRequest" "maxCallsInRequest")
      else
        match unknown_capability s (req_Using req) with
        | Some capURI =>
            (w, writeWSError requestId ErrorUnknownCapability ("Unknown capability: " +:+ capURI)
                  EmptyString)
        | None =>
            let reqCtx := WithCalendarsCapability (WithCoreLimits (WithCreationRefs c) limits)
                            (calendars_capability s) in
            let st := mkReq w (NewCreationRefs (req_CreatedIds req)) []
                        (Some (newRequestCache s)) None in
            let '(st', responses) :=
              ws_run_calls s reqCtx limits (req_Using req) (req_MethodCalls req) ∅ st in
            (rs_world st',
             WsReply requestId
               (mkResponse responses
                  (match req_CreatedIds req with
                   | Some _ => Some (Snapshot (rs_refs st'))
                   | None => None
                   end)
                  (srv_SessionState s)))
        end
  end.
End Server.

(** ** Lemmas: result references *)

(** No member of an object, at any depth, is a reference, and the members of
    every object have distinct names. *)
Fixpoint no_references (val : json) : bool :=
  match val with
  | JObj v => bool_decide (NoDup (map fst v))
              && forallb (fun kv => negb (HasPrefix (fst kv) "#") && no_references (snd kv)) v
  | JArr v => forallb no_references v
  | _ => true
  end.

Lemma obj_set_fresh m k v : k ∉ obj_keys m -> obj_set m k v = m ++ [(k, v)].
Proof.
  induction m as [|[k' v'] m IH]; simpl; [done|]. intros Hk.
  rewrite (proj2 (String.eqb_neq k' k)) by set_solver. rewrite IH by set_solver. done.
Qed.

Section ReferenceLemmas.
Context `{GoRuntime}.
Variable executed : gmap string Invocation.

Lemma resolve_object_copy rec v top l : forall resolved,
  (forall k item, (k, item) ∈ l -> HasPrefix k "#" = false /\ rec item = Ok item) ->
  NoDup (obj_keys (resolved ++ l)) ->
  resolve_object executed rec v top l resolved = Ok (JObj (resolved ++ l)).
Proof.
  induction l as [|[k item] l IH]; intros resolved Hl Hn; simpl; [by rewrite app_nil_r|].
  destruct (Hl k item) as [Hp Hr]; [set_solver|].
  unfold is_referenced. rewrite Hp, Hr. simpl.
  replace (resolved ++ (k, item) :: l) with ((resolved ++ [(k, item)]) ++ l) in *
    by (by rewrite <- app_assoc).
  rewrite obj_set_fresh, IH; [done| |done|].
  - intros k2 i2 Hin. apply Hl. set_solver.
  - unfold obj_keys in Hn. rewrite !map_app in Hn. apply NoDup_app in Hn as (Hn & _ & _).
    apply NoDup_app in Hn as (_ & Hn & _). intros Hk. apply (Hn k Hk). simpl. set_solver.
Qed.

Lemma resolve_array_copy rec l : forall resolved,
  (forall item, item ∈ l -> rec item = Ok item) ->
  resolve_array rec l resolved = Ok (JArr (resolved ++ l)).
Proof.
  induction l as [|item l IH]; intros resolved Hl; simpl; [by rewrite app_nil_r|].
  rewrite Hl by set_solver. rewrite IH by set_solver. by rewrite <- app_assoc.
Qed.

Lemma resolve_no_references val top :
  no_references val = true -> resolveValueResultReferences executed val top = Ok val.
Proof.
  revert top. induction val as [| | | |l IH|m IH] using json_ind; intros top; try done; simpl.
  - intros Hall. rewrite resolve_array_copy; [done|]. intros item Hin.
    rewrite Forall_forall in IH. apply IH; [done|].
    rewrite forallb_forall in Hall. by apply Hall, list_elem_of_In.
  - intros [Hn Hall]%andb_prop. apply bool_decide_eq_true in Hn.
    rewrite resolve_object_copy; [done| |done]. intros k item Hin.
    rewrite Forall_forall in IH. rewrite forallb_forall in Hall.
    specialize (Hall (k, item)). simpl in Hall. apply list_elem_of_In in Hin as Hin'.
    apply Hall, andb_prop in Hin' as [Hk Hi]. split; [by apply negb_true_iff|].
    by apply (IH (k, item)).
Qed.

Lemma resolve_reference_fresh v top k item r :
  resolve_reference executed v top k item = Ok r -> obj_get v (TrimPrefix k "#") = None.
Proof. unfold resolve_reference. by destruct (obj_get v _). Qed.

Lemma is_referenced_inj top k item k' item' :
  is_referenced top k item = true -> is_referenced top k' item' = true ->
  TrimPrefix k' "#" = TrimPrefix k "#" -> k = k'.
Proof.
  unfold is_referenced. intros [H1 _]%andb_prop [H2 _]%andb_prop.
  apply HasPrefix_spec in H1 as [a ->], H2 as [b ->]. rewrite !TrimPrefix_app. by intros ->.
Qed.

(** What a successful pass over the members of an object leaves under [k]. *)
Lemma resolve_object_get rec v top l : forall resolved out,
  resolve_object executed rec v top l resolved = Ok (JObj out) ->
  NoDup (obj_keys l) ->
  (forall k item, (k, item) ∈ l -> obj_get v k = Some item) ->
  (forall k item, (k, item) ∈ l -> is_referenced top k item = true ->
     exists r, resolve_reference executed v top k item = Ok r
               /\ obj_get out (TrimPrefix k "#") = Some r)
  /\ (forall k item, (k, item) ∈ l -> is_referenced top k item = false ->
     exists c, rec item = Ok c /\ obj_get out k = Some c)
  /\ (forall k, (forall k' item, (k', item) ∈ l -> is_referenced top k' item = true ->
                                TrimPrefix k' "#" <> k) ->
        (forall item, (k, item) ∈ l -> is_referenced top k item = true) ->
        obj_get out k = obj_get resolved k).
Proof.
  induction l as [|[k0 i0] l IH]; intros resolved out Hgo Hn Hv; simpl in Hgo.
  { simplify_eq. split_and!; set_solver. }
  apply NoDup_cons in Hn as [Hk0 Hn]. simpl in Hk0, Hn.
  assert (forall i, (k0, i) ∉ l) as Hfresh.
  { intros i Hin. apply Hk0, list_elem_of_In, in_map_iff. exists (k0, i). by apply list_elem_of_In in Hin. }
  assert (forall k item, (k, item) ∈ l -> obj_get v k = Some item) as Hvl by set_solver.
  destruct (is_referenced top k0 i0) eqn:Eref.
  - destruct (resolve_reference executed v top k0 i0) as [r|e] eqn:Er; [|done].
    destruct (IH _ _ Hgo Hn Hvl) as (H1 & H2 & H3).
    pose proof (resolve_reference_fresh _ _ _ _ _ Er) as Hnone.
    assert (obj_get out (TrimPrefix k0 "#") = Some r) as Hout.
    { rewrite H3, obj_get_set_eq; [done| |].
      - intros k' i' Hin Hr' Heq. eapply Hfresh.
        rewrite (is_referenced_inj top k0 i0 k' i') by done. done.
      - intros i' Hin. rewrite (Hvl _ _ Hin) in Hnone. done. }
    split_and!.
    + intros k item [?|Hin]%elem_of_cons Hr; simplify_eq; [eauto|by apply H1].
    + intros k item [?|Hin]%elem_of_cons Hr; simplify_eq; [congruence|]. by apply H2.
    + intros k Hnr Hnk. rewrite H3; [|set_solver..].
      apply obj_get_set_ne. apply (Hnr k0 i0); set_solver.
  - destruct (rec i0) as [c|e] eqn:Er; [|done].
    destruct (IH _ _ Hgo Hn Hvl) as (H1 & H2 & H3).
    assert (obj_get out k0 = Some c) as Hout.
    { rewrite H3, obj_get_set_eq; [done| |].
      - intros k' i' Hin Hr' <-. destruct (H1 _ _ Hin Hr') as (r & Hr & _).
        apply resolve_reference_fresh in Hr. rewrite (Hv _ i0) in Hr by set_solver. done.
      - intros i' Hin. by destruct (Hfresh i'). }
    split_and!.
    + intros k item [?|Hin]%elem_of_cons Hr; simplify_eq; [congruence|]. by apply H1.
    + intros k item [?|Hin]%elem_of_cons Hr; simplify_eq; [eauto|by apply H2].
    + intros k Hnr Hnk. rewrite H3; [|set_solver..].
      apply obj_get_set_ne. intros ->. rewrite (Hnk i0) in Eref by set_solver. done.
Qed.

Lemma resolve_object_is_obj rec v top l : forall resolved j,
  resolve_object executed rec v top l resolved = Ok j ->
  match j with JObj _ => True | _ => False end.
Proof.
  induction l as [|[k i] l IH]; intros resolved j Hr; simpl in Hr; [by simplify_eq|].
  repeat (case_match; simplify_eq); eauto; try (by apply IH in Hr).
Qed.

(** What result references mean, apart from the code that resolves them.

    A reference names an earlier call by its id and its method, and a pointer
    that selects something in the response of that call. *)
Definition refers_to (item v : json) : Prop :=
  exists ref callID method path inv tokens,
    item = JObj ref
    /\ obj_get ref "resultOf" = Some (JStr callID) /\ callID <> EmptyString
    /\ obj_get ref "name" = Some (JStr method) /\ method <> EmptyString
    /\ obj_get ref "path" = Some (JStr path)
    /\ executed !! callID = Some inv /\ inv_Name inv = method
    /\ pointer_text path tokens
    /\ selects (match inv_Args inv with Some response => JObj response | None => JNull end) tokens v.
(** A value for an argument that takes an array is made one. *)
Definition passed_as (top : bool) (name : string) (v v' : json) : Prop :=
  let single := top = true /\ name ∈ ["ids"; "emailIds"; "mailboxIds"; "threadIds"; "destroy"; "typeNames"; "properties"]
    /\ v <> JNull /\ forall l, v <> JArr l in
  single /\ v' = JArr [v] \/ ~ single /\ v' = v.
(** Every argument with a hash stands for a reference, and inside an argument
    every member with a hash that looks like one. *)
Definition stands_for (top : bool) (item : json) : Prop :=
  top = true
  \/ exists ref a b c, item = JObj ref /\ obj_get ref "resultOf" = Some a /\ obj_get ref "name" = Some b /\ obj_get ref "path" = Some c.
Definition kept_as_is (top : bool) (k : string) (item : json) : Prop := forall name, k = "#" +:+ name -> ~ stands_for top item.
Inductive resolved : bool -> json -> json -> Prop :=
| resolved_scalar top v : (forall l, v <> JArr l) -> (forall m, v <> JObj m) -> resolved top v v
| resolved_array top l l' : Forall2 (resolved false) l l' -> resolved top (JArr l) (JArr l')
| resolved_object top m out :
    (forall name item, obj_get m ("#" +:+ name) = Some item -> stands_for top item ->
       obj_get m name = None /\ exists v v', refers_to item v /\ passed_as top name v v' /\ obj_get out name = Some v') ->
    (forall k item, obj_get m k = Some item -> kept_as_is top k item -> exists v, resolved false item v /\ obj_get out k = Some v) ->
    (forall k, obj_get out k <> None ->
       exists item, obj_get m ("#" +:+ k) = Some item /\ stands_for top item \/ obj_get m k = Some item /\ kept_as_is top k item) ->
    resolved top (JObj m) (JObj out).
(** The names of an object are distinct, at every depth. *)
Fixpoint distinct_names (j : json) : bool :=
  match j with
  | JArr l => forallb distinct_names l
  | JObj m => bool_decide (NoDup (obj_keys m)) && forallb (fun kv => distinct_names (snd kv)) m
  | _ => true
  end.

Lemma str_or_empty_given ref k : str_or_empty ref k <> EmptyString -> obj_get ref k = Some (JStr (str_or_empty ref k)).
Proof. unfold str_or_empty, get_str. by destruct (obj_get ref k) as [[]|]. Qed.
Lemma str_or_empty_is ref k s : obj_get ref k = Some (JStr s) -> str_or_empty ref k = s.
Proof. unfold str_or_empty, get_str. by intros ->. Qed.
Lemma resolveResultReference_refers ref v : resolveResultReference executed ref = Ok v <-> refers_to (JObj ref) v.
Proof.
  unfold resolveResultReference, refers_to. split.
  - intros Hr. remember (str_or_empty ref "resultOf") as callID eqn:E1. remember (str_or_empty ref "name") as method eqn:E2.
    remember (str_or_empty ref "path") as path eqn:E3.
    destruct (String.eqb_spec callID EmptyString) as [|N1]; [done|]. destruct (String.eqb_spec method EmptyString) as [|N2]; [done|].
    destruct (String.eqb_spec path EmptyString) as [|N3]; [done|]. cbn [orb] in Hr.
    assert (E1' := str_or_empty_given ref "resultOf"). assert (E2' := str_or_empty_given ref "name"). assert (E3' := str_or_empty_given ref "path").
    rewrite <- E1 in E1'. rewrite <- E2 in E2'. rewrite <- E3 in E3'. specialize (E1' N1). specialize (E2' N2). specialize (E3' N3).
    destruct (executed !! callID) as [inv|] eqn:E4; [|done].
    destruct (String.eqb_spec (inv_Name inv) method) as [E5|]; [|done]. cbn [negb] in Hr.
    destruct (EvaluateJSONPointer _ path) as [x|] eqn:E6; [|done]. injection Hr as ->.
    apply EvaluateJSONPointer_selects in E6 as (tokens & Ht & Hs); [|done].
    exists ref, callID, method, path, inv, tokens. by split_and!.
  - intros (ref' & callID & method & path & inv & tokens & [= <-] & E1 & N1 & E2 & N2 & E3 & E4 & E5 & Ht & Hs).
    assert (N3 : path <> EmptyString) by (destruct Ht as (texts & _ & _ & -> & _); done).
    rewrite (str_or_empty_is _ _ _ E1), (str_or_empty_is _ _ _ E2), (str_or_empty_is _ _ _ E3).
    rewrite (proj2 (String.eqb_neq _ _) N1), (proj2 (String.eqb_neq _ _) N2), (proj2 (String.eqb_neq _ _) N3). cbn [orb]. rewrite E4, E5, String.eqb_refl.
    cbn [negb]. assert (He : EvaluateJSONPointer (match inv_Args inv with Some a => JObj a | None => JNull end) path = Ok v)
      by (apply EvaluateJSONPointer_selects; eauto). by rewrite He.
Qed.
Lemma wrap_array_passed top name v : passed_as top name v (wrap_array top name v).
Proof.
  unfold passed_as, wrap_array. cbv zeta.
  assert (Hin : str_in name array_arguments = true <-> name ∈ ["ids"; "emailIds"; "mailboxIds"; "threadIds"; "destroy"; "typeNames"; "properties"])
    by apply str_in_spec.
  destruct top; cbn [andb]; cycle 1; [right; split; [by intros [? _]|by destruct v]|].
  destruct (str_in name array_arguments) eqn:E; cycle 1.
  { right. split; [|by destruct v]. intros (_ & Hn & _). by apply Hin in Hn. }
  destruct v as [| | | |l|]; try (left; split; [split_and!; [done|by apply Hin|done|done]|done]); right; (split; [|done]).
  - by intros (_ & _ & Hnull & _).
  - intros (_ & _ & _ & Harr). by destruct (Harr l).
Qed.
Lemma is_referenced_stands top name item : is_referenced top ("#" +:+ name) item = true <-> stands_for top item.
Proof.
  unfold is_referenced, stands_for. rewrite HasPrefix_app. cbn [andb]. rewrite orb_true_iff. unfold is_reference, IsResultReference. split.
  - intros [->|Hi]; [by left|right]. destruct item as [| | | | |ref]; try done.
    destruct (obj_get ref "resultOf") eqn:E1, (obj_get ref "name") eqn:E2, (obj_get ref "path") eqn:E3; try done. naive_solver.
  - intros [->|(ref & a & b & c & -> & -> & -> & ->)]; [by left|by right].
Qed.
Lemma is_referenced_kept top k item : is_referenced top k item = false <-> kept_as_is top k item.
Proof.
  unfold kept_as_is. split.
  - intros Hf name -> Hs%(is_referenced_stands top name). congruence.
  - intros Hk. destruct (is_referenced top k item) eqn:E; [|done]. pose proof E as E'. unfold is_referenced in E'.
    apply andb_prop in E' as [[name ->]%HasPrefix_spec _]. apply is_referenced_stands in E. by destruct (Hk name).
Qed.
Lemma resolve_reference_iff v top name item r :
  stands_for top item ->
  resolve_reference executed v top ("#" +:+ name) item = Ok r
  <-> obj_get v name = None /\ exists x, refers_to item x /\ r = wrap_array top name x.
Proof.
  intros Hs. unfold resolve_reference. rewrite TrimPrefix_app. destruct (obj_get v name); [split; [done|by intros [? ?]]|].
  split.
  - intros Hr. split; [done|]. destruct item as [| | | | |ref]; try done. destruct (IsResultReference ref); [|done].
    destruct (resolveResultReference executed ref) as [x|] eqn:E; [|done]. injection Hr as <-. exists x. split; [|done].
    by apply resolveResultReference_refers.
  - intros (_ & x & Hx & ->). pose proof Hx as (ref & a & b & c & inv & tokens & -> & E1 & _ & E2 & _ & E3 & _).
    unfold IsResultReference. rewrite E1, E2, E3. apply resolveResultReference_refers in Hx. by rewrite Hx.
Qed.
Lemma resolve_array_ok rec l : forall acc r,
  resolve_array rec l acc = Ok r <-> exists l', Forall2 (fun x y => rec x = Ok y) l l' /\ r = JArr (acc ++ l').
Proof.
  induction l as [|x l IH]; intros acc r; cbn [resolve_array].
  - split; [intros [= <-]; exists []; rewrite app_nil_r; by split|]. intros (l' & Hl & ->). inversion Hl. by rewrite app_nil_r.
  - split.
    + destruct (rec x) as [y|] eqn:E; [|done]. intros (l' & Hl & ->)%IH. exists (y :: l'). split; [by constructor|]. by rewrite <- app_assoc.
    + intros (l' & Hl & ->). inversion Hl as [|? y ? l'' Hy Hl']; subst. rewrite Hy. apply IH. exists l''. by rewrite <- app_assoc.
Qed.
Lemma resolve_object_succeeds rec v top l : forall acc,
  (forall k item, (k, item) ∈ l -> is_referenced top k item = true -> exists r, resolve_reference executed v top k item = Ok r) ->
  (forall k item, (k, item) ∈ l -> is_referenced top k item = false -> exists c, rec item = Ok c) ->
  exists out, resolve_object executed rec v top l acc = Ok (JObj out).
Proof.
  induction l as [|[k item] l IH]; intros acc H1 H2; cbn [resolve_object]; [eauto|].
  assert (Hin : (k, item) ∈ (k, item) :: l) by left.
  destruct (is_referenced top k item) eqn:E.
  - destruct (H1 k item Hin E) as [r ->]. apply IH; intros; [eapply H1|eapply H2]; try done; by right.
  - destruct (H2 k item Hin E) as [r ->]. apply IH; intros; [eapply H1|eapply H2]; try done; by right.
Qed.
Lemma distinct_object m :
  distinct_names (JObj m) = true -> NoDup (obj_keys m) /\ forall k item, (k, item) ∈ m -> obj_get m k = Some item /\ distinct_names item = true.
Proof.
  cbn. intros [Hn Hall]%andb_prop. apply bool_decide_eq_true in Hn. split; [done|]. intros k item Hin. apply list_elem_of_In in Hin.
  split; [by apply obj_In_get|]. rewrite forallb_forall in Hall. by apply (Hall (k, item)).
Qed.

(** Resolution succeeds exactly when the references mean something, and then
    gives what they mean. *)
Lemma resolved_sound j : distinct_names j = true -> forall top r, resolveValueResultReferences executed j top = Ok r -> resolved top j r.
Proof.
  induction j as [| | | |l IH|m IH] using json_ind; intros Hd top r; try (intros [= <-]; by constructor).
  - cbn [resolveValueResultReferences]. intros (l' & Hl & ->)%resolve_array_ok. constructor. cbn in Hd. rewrite forallb_forall in Hd.
    rewrite Forall_forall in IH. apply Forall2_same_length_lookup. split; [by eapply Forall2_length|]. intros i x y Hx Hy.
    eapply IH; [by eapply list_elem_of_lookup_2| |exact (Forall2_lookup_lr _ _ _ _ _ _ Hl Hx Hy)].
    apply Hd, list_elem_of_In. by eapply list_elem_of_lookup_2.
  - cbn [resolveValueResultReferences]. intros Hr. pose proof (resolve_object_is_obj _ _ _ _ _ _ Hr) as Ho. destruct r as [| | | | |out]; try done.
    apply distinct_object in Hd as [Hn Hm]. rewrite Forall_forall in IH.
    apply resolve_object_get in Hr as (H1 & H2 & H3); [|done|intros k item Hin; by apply Hm].
    assert (Hin : forall k item, obj_get m k = Some item -> (k, item) ∈ m) by (intros; by apply list_elem_of_In, obj_get_In).
    constructor.
    + intros name item Hg Hs. destruct (H1 _ _ (Hin _ _ Hg)) as (r & Hr & Ho'); [by apply is_referenced_stands|].
      rewrite TrimPrefix_app in Ho'. apply resolve_reference_iff in Hr as (Hnone & x & Hx & ->); [|done]. split; [done|].
      exists x, (wrap_array top name x). split_and!; [done|apply wrap_array_passed|done].
    + intros k item Hg Hk. apply Hin in Hg. destruct (H2 _ _ Hg) as (c & Hc & Ho'); [by apply is_referenced_kept|]. exists c. split; [|done].
      apply (IH (k, item)); [done|by apply (Hm k)|done].
    + intros k Hne. assert (Habs : (forall item, obj_get m ("#" +:+ k) = Some item -> is_referenced top ("#" +:+ k) item = false) ->
        (forall item, obj_get m k = Some item -> is_referenced top k item = true) -> obj_get out k = None).
      { intros Hh Hk. rewrite H3; [done| |].
        - intros k' i' Hi' Hr' Heq. pose proof Hr' as Hr2. unfold is_referenced in Hr2. apply andb_prop in Hr2 as [[a ->]%HasPrefix_spec _].
          rewrite TrimPrefix_app in Heq. subst a. apply Hm in Hi' as [Hi' _]. rewrite (Hh i') in Hr'; done.
        - intros i' Hi'. apply Hm in Hi' as [Hi' _]. by apply Hk. }
      destruct (obj_get m ("#" +:+ k)) as [item|] eqn:Eh, (obj_get m k) as [item'|] eqn:Ek.
      * destruct (is_referenced top ("#" +:+ k) item) eqn:Er; [exists item; left; split; [done|by eapply is_referenced_stands]|].
        destruct (is_referenced top k item') eqn:Er'; [|exists item'; right; split; [done|by apply is_referenced_kept]].
        by destruct Hne; apply Habs; intros ? [= <-].
      * destruct (is_referenced top ("#" +:+ k) item) eqn:Er; [exists item; left; split; [done|by eapply is_referenced_stands]|].
        by destruct Hne; apply Habs; intros ? [= <-].
      * destruct (is_referenced top k item') eqn:Er'; [|exists item'; right; split; [done|by apply is_referenced_kept]].
        by destruct Hne; apply Habs; [|intros ? [= <-]].
      * by destruct Hne; apply Habs.
Qed.
Lemma resolved_complete j : distinct_names j = true -> forall top r, resolved top j r -> exists r', resolveValueResultReferences executed j top = Ok r'.
Proof.
  induction j as [| | | |l IH|m IH] using json_ind; intros Hd top r Hr; cbn [resolveValueResultReferences]; try (eexists; reflexivity).
  - inversion Hr as [? ? Hno|? ? l' Hl|]; subst; [by destruct (Hno l)|]. cbn in Hd. rewrite forallb_forall in Hd. rewrite Forall_forall in IH.
    assert (Hall : exists l'', Forall2 (fun x y => resolveValueResultReferences executed x false = Ok y) l l'').
    { clear Hr. induction Hl as [|x y l l' Hx Hl IHl]; [by exists []|]. destruct (IH x (list_elem_of_here _ _)) with (top := false) (r := y) as [z Hz];
        [apply Hd; by left|done|].
      destruct IHl as [l'' Hl'']; [intros z' Hz' Hdz'; apply IH; [by right|done]|intros z' Hz'; apply Hd; by right|].
      exists (z :: l''). by constructor. }
    destruct Hall as [l'' Hl'']. exists (JArr l''). apply resolve_array_ok. by exists l''.
  - apply distinct_object in Hd as [Hn Hm]. rewrite Forall_forall in IH. inversion Hr as [? ? ? Hno| |? ? out H1 H2 H3]; subst; [by destruct (Hno m)|].
    destruct (resolve_object_succeeds (fun item => resolveValueResultReferences executed item false) m top m []) as [out' Hout']; [| |by eexists].
    + intros k item Hin Href. destruct (Hm _ _ Hin) as [Hg _]. pose proof Href as Hr2. unfold is_referenced in Hr2.
      apply andb_prop in Hr2 as [[name ->]%HasPrefix_spec _]. apply is_referenced_stands in Href.
      destruct (H1 _ _ Hg Href) as (Hnone & v & v' & Hv & _). eexists. apply resolve_reference_iff; [done|]. split; [done|]. eauto.
    + intros k item Hin Hk%is_referenced_kept. destruct (Hm _ _ Hin) as [Hg Hdi]. destruct (H2 _ _ Hg Hk) as (v & Hv & _).
      by apply (IH (k, item) Hin Hdi false v).
Qed.
End ReferenceLemmas.

(** ** Lemmas: dispatch *)

Section DispatchLemmas.
Context `{GoRuntime}.
Context {W V : Type}.
Implicit Types (s : Server (W := W) (V := V)) (st : ReqState (W := W) (V := V)).

(** The server with every handler wrapped by [f]. *)
Definition map_handlers (f : MethodHandler (W := W) (V := V) -> MethodHandler) s : Server :=
  mkServer (srv_Capabilities s) (srv_SessionState s) (srv_IMAPAccessBackend s) (srv_CacheDisabled s)
    (srv_PermissionGuard s) (srv_CanAccessSharedAccount s) (srv_ProcessMailboxITIP s)
    (f <$> srv_MethodRegistry s).

Definition map_prepared (f : MethodHandler (W := W) (V := V) -> MethodHandler) (p : prepared (W := W) (V := V))
  : prepared (W := W) (V := V) :=
  match p with
  | EchoCall h args => EchoCall (f h) args
  | AccountCall h target args => AccountCall (f h) target args
  end.

Lemma Registry_Get_map f s name :
  Registry_Get (srv_MethodRegistry (map_handlers f s)) name
  = f <$> Registry_Get (srv_MethodRegistry s) name.
Proof. apply (lookup_fmap f). Qed.

Lemma prepare_call_map f s w c limits us executed call :
  prepare_call (map_handlers f s) w c limits us executed call
  = match prepare_call s w c limits us executed call with
    | Ok p => Ok (map_prepared f p)
    | Err e => Err e
    end.
Proof.
  unfold prepare_call, rbind. destruct (check_capabilities us _); [|done].
  destruct (length us =? 0)%nat; [done|].
  destruct (resolveResultReferences executed _) as [args|[]]; [|done].
  destruct (check_limits _ _ _); [|done]. rewrite Registry_Get_map.
  destruct (Registry_Get (srv_MethodRegistry s) (inv_Name call)) as [h|]; cbn [fmap option_fmap option_map]; [|done].
  change (check_access (map_handlers f s)) with (check_access s).
  destruct (String.eqb (inv_Name call) "Core/echo"); [done|].
  destruct (HasPrefix (inv_Name call) "PushSubscription/"); [done|].
  destruct (check_account args) as [acct|]; [|done].
  destruct (check_ids _ args) as [args'|]; [|done].
  destruct (check_numbers _ args'); [|done].
  by destruct (check_access s w c _ acct args').
Qed.

(** The principal may act on the target account. *)
Definition permitted s (w : W) (c : Ctx) (target : string) : bool :=
  String.eqb target (fst (AccountIDFromContext c))
  || fst (account_access s w c (fst (AccountIDFromContext c)) target).

(** What a prepared call carries: the account is permitted, and the arguments
    name the same account as the context the handler runs in. *)
Lemma check_access_ok s w c acct args t args' :
  check_access s w c (fst (AccountIDFromContext c)) acct args = Ok (t, args') ->
  permitted s w c t = true
  /\ (obj_get args "accountId" = Some (JStr acct) -> obj_get args' "accountId" = Some (JStr t))
  /\ (forall k, k <> "accountId" -> obj_get args' k = obj_get args k).
Proof.
  unfold check_access, permitted. case_match eqn:E.
  - intros [= <- <-]. rewrite String.eqb_refl. split_and!; [done| |].
    + intros _. by rewrite obj_get_set_eq.
    + intros k Hk. by rewrite obj_get_set_ne.
  - destruct (account_access s w c _ acct) as [[] e] eqn:Ea; [|done].
    intros [= <- <-]. rewrite Ea. simpl. by rewrite orb_true_r.
Qed.

Lemma check_account_ok args acct :
  check_account args = Ok acct -> obj_get args "accountId" = Some (JStr acct).
Proof. unfold check_account. intros. by repeat (case_match; simplify_eq). Qed.

Lemma check_ids_keeps name args args' k :
  check_ids name args = Ok args' -> k <> "ids" -> obj_get args' k = obj_get args k.
Proof.
  unfold check_ids. intros Hc Hk. repeat (case_match; simplify_eq); try done.
  by rewrite obj_get_set_ne.
Qed.

(** The way a call is prepared for an account. *)
Lemma prepare_call_account s w c limits us executed call h t args :
  prepare_call s w c limits us executed call = Ok (AccountCall h t args) ->
  (HasPrefix (inv_Name call) "PushSubscription/" = true /\ t = fst (AccountIDFromContext c))
  \/ exists args1 acct args2,
       check_account args1 = Ok acct /\ check_ids (inv_Name call) args1 = Ok args2
       /\ check_access s w c (fst (AccountIDFromContext c)) acct args2 = Ok (t, args).
Proof.
  unfold prepare_call, rbind. destruct (check_capabilities us _); [|done].
  destruct (length us =? 0)%nat; [done|].
  destruct (resolveResultReferences executed _) as [args1|[]]; [|done].
  destruct (check_limits _ _ _); [|done]. destruct (Registry_Get _ _); [|done].
  destruct (String.eqb (inv_Name call) "Core/echo"); [done|].
  destruct (HasPrefix (inv_Name call) "PushSubscription/"); [intros [= -> <- ->]; auto|].
  destruct (check_account args1) as [acct|] eqn:Ea; [|done].
  destruct (check_ids _ args1) as [args2|] eqn:Ei; [|done].
  destruct (check_numbers _ args2); [|done].
  destruct (check_access s w c _ acct args2) as [[t' a']|] eqn:Ec; [|done].
  intros [= -> <- <-]. right. by exists args1, acct, args2.
Qed.

Lemma prepared_account s w c limits us executed call h t args :
  prepare_call s w c limits us executed call = Ok (AccountCall h t args) ->
  permitted s w c t = true
  /\ (HasPrefix (inv_Name call) "PushSubscription/" = false ->
      obj_get args "accountId" = Some (JStr t)).
Proof.
  intros Hp. apply prepare_call_account in Hp as [[Hpush ->]|(args1 & acct & args2 & Ha & Hi & Hc)].
  - split; [unfold permitted; by rewrite String.eqb_refl | congruence].
  - apply check_access_ok in Hc as (Hperm & Hacct & _). split; [done|]. intros _. apply Hacct.
    rewrite (check_ids_keeps _ _ _ _ Hi) by done. by apply check_account_ok.
Qed.

(** Every argument but the account id and the ids is the resolved one. *)
Lemma prepared_keeps s w c limits us executed call h t args m k :
  prepare_call s w c limits us executed call = Ok (AccountCall h t args) ->
  resolveResultReferences executed (inv_Args call) = Ok m ->
  k <> "accountId" -> k <> "ids" -> obj_get args k = obj_get m k.
Proof.
  unfold prepare_call, rbind. intros Hp Hres Hk1 Hk2. revert Hp. rewrite Hres.
  destruct (check_capabilities us _); [|done]. destruct (length us =? 0)%nat; [done|].
  destruct (check_limits _ _ _); [|done]. destruct (Registry_Get _ _); [|done].
  destruct (String.eqb (inv_Name call) "Core/echo"); [done|].
  destruct (HasPrefix (inv_Name call) "PushSubscription/"); [by intros [= -> <- ->]|].
  destruct (check_account m) as [acct|] eqn:Ea; [|done].
  destruct (check_ids _ m) as [args2|] eqn:Ei; [|done].
  destruct (check_numbers _ args2); [|done].
  destruct (check_access s w c _ acct args2) as [[t' a']|] eqn:Ec; [|done].
  intros [= -> <- <-]. apply check_access_ok in Ec as (_ & _ & Hkeep). simpl.
  rewrite Hkeep by done. by apply (check_ids_keeps _ _ _ _ Ei).
Qed.

(** [h] where the account of its context is permitted, [evil] elsewhere. *)
Definition confined (evil : MethodHandler (W := W) (V := V)) s (c0 : Ctx)
    (h : MethodHandler) : MethodHandler :=
  fun c args cid st =>
    if permitted s (rs_world st) c0 (fst (AccountIDFromContext c))
    then h c args cid st else evil c args cid st.

Lemma run_call_confined evil s c limits us executed call st :
  run_call (map_handlers (confined evil s c) s) c limits us executed call st
  = run_call s c limits us executed call st.
Proof.
  unfold run_call. rewrite prepare_call_map.
  destruct (prepare_call s _ c limits us executed call) as [[h args|h t args]|[|]] eqn:E; try done; simpl.
  - unfold confined at 1. unfold permitted. by rewrite String.eqb_refl.
  - apply prepared_account in E as [Hperm _]. unfold confined. simpl. by rewrite Hperm.
Qed.

Lemma run_call_answers s c limits us executed call st st' r extras :
  run_call s c limits us executed call st = (st', Some (r, extras)) ->
  inv_ClientCallID r = inv_ClientCallID call.
Proof.
  unfold run_call. intros Hr. repeat (case_match; simplify_eq/=; try done).
Qed.

Lemma run_call_reject s c limits us executed call st e :
  prepare_call s (rs_world st) c limits us executed call = Err (Reject e) ->
  run_call s c limits us executed call st = (st, Some (error_response call e, [])).
Proof. unfold run_call. by intros ->. Qed.
End DispatchLemmas.

Lemma dedup_any_crash l : forall seen,
  existsb (fun i => negb (hashable i)) l = true -> dedup_any seen l = None.
Proof.
  induction l as [|i l IH]; intros seen; simpl; [done|].
  destruct (hashable i); simpl; [|done]. intros Hl.
  destruct (existsb (any_eqb i) seen); rewrite IH by done; done.
Qed.

(** ** Lemmas: set responses *)

Lemma normalize_fold_get (keys : list string) (args : obj) k :
  NoDup keys ->
  obj_get (foldl (fun a k => match obj_get a k with Some v => obj_set a k (NilIfEmpty v) | None => a end)
                 args keys) k
  = if str_in k keys then NilIfEmpty <$> obj_get args k else obj_get args k.
Proof.
  revert args. induction keys as [|k0 keys IH]; intros args Hn; simpl; [done|].
  apply NoDup_cons in Hn as [Hk0 Hn]. rewrite IH by done.
  assert (obj_get (match obj_get args k0 with Some v => obj_set args k0 (NilIfEmpty v) | None => args end) k
          = if decide (k0 = k) then NilIfEmpty <$> obj_get args k else obj_get args k) as ->.
  { destruct (obj_get args k0) eqn:E; [rewrite obj_get_set|]; case_decide; subst; by rewrite ?E. }
  destruct (String.eqb k k0) eqn:Ek; bool_props; subst; simpl.
  - rewrite decide_True by done. destruct (str_in k0 keys) eqn:Ek; [|done].
    by apply str_in_spec in Ek.
  - by rewrite decide_False by done.
Qed.

(** ** Properties *)

Section Properties.
Context `{GoRuntime}.
Context {W V : Type}.

(** C1: no method handler ever runs on an account its caller may not access.
    The whole run of a request (state, responses, panics) stays the same when
    every handler is replaced by one that does something else, anything at
    all, whenever the account of its context is neither the caller's own nor
    allowed by the permission guard or the calendars backend. *)
Theorem handlers_run_on_permitted_accounts
    (s : Server (W := W) (V := V)) evil c limits us calls executed st :
  run_calls (map_handlers (confined evil s c) s) c limits us calls executed st
  = run_calls s c limits us calls executed st.
Proof.
  revert executed st. induction calls as [|call calls IH]; intros executed st; simpl; [done|].
  rewrite run_call_confined.
  destruct (run_call s c limits us executed call st) as [st' [[r extras]|]]; [|done].
  by rewrite IH.
Qed.

(** the account id a handler reads from its arguments is the account its
    context was given, so the check made on one cannot be evaded through the
    other. *)
Theorem handler_arguments_name_checked_account
    (s : Server (W := W) (V := V)) w c limits us executed call h target args :
  prepare_call s w c limits us executed call = Ok (AccountCall h target args) ->
  HasPrefix (inv_Name call) "PushSubscription/" = false ->
  obj_get args "accountId" = Some (JStr target) /\ permitted s w c target = true.
Proof. intros Hp Hn. apply prepared_account in Hp as [Hperm Ha]. auto. Qed.

(** a request that is not aborted answers every method call, in the order
    of the calls: the responses are one group per call, each of which starts
    with the response that carries the call's client id and goes on with the
    responses the handler added. *)
Theorem responses_follow_calls
    (s : Server (W := W) (V := V)) c limits us calls executed st st' responses :
  run_calls s c limits us calls executed st = (st', Some responses) ->
  exists groups : list (Invocation * list Invocation),
    responses = concat (map (fun g => fst g :: snd g) groups)
    /\ Forall2 (fun call g => inv_ClientCallID (fst g) = inv_ClientCallID call) calls groups.
Proof.
  revert executed st st' responses.
  induction calls as [|call calls IH]; intros executed st st' responses Hr; simpl in Hr.
  - simplify_eq. by exists [].
  - destruct (run_call s c limits us executed call st) as [st1 [[r extras]|]] eqn:E1; [|done].
    destruct (run_calls s c limits us calls _ st1) as [st2 [rest|]] eqn:E2; simplify_eq/=.
    destruct (IH _ _ _ _ E2) as (groups & -> & Hg).
    exists ((r, extras) :: groups). split; [done|]. constructor; [|done].
    by apply run_call_answers in E1.
Qed.

(** C11: result references.  The references in the arguments of a call resolve
    exactly when each of them means something: the call id it names is that of an
    earlier response of the method it names, and its pointer selects something in
    that response.  Then the arguments are what the references mean: every
    argument named with a hash is gone and the argument it names holds what its
    pointer selects (a single value made an array where an array is expected),
    every other argument is the given one with the references inside it
    replaced, and there is no other argument.  The meaning of a reference and of
    a pointer is given by [refers_to] and [selects], not by the code. *)
Theorem result_references_resolve executed m :
  distinct_names (JObj m) = true ->
  (forall out, resolveResultReferences executed (Some m) = Ok out -> resolved executed true (JObj m) (JObj out))
  /\ ((exists out, resolved executed true (JObj m) out) -> exists out, resolveResultReferences executed (Some m) = Ok out).
Proof.
  intros Hd. unfold resolveResultReferences. split.
  - intros out Hr. destruct (resolveValueResultReferences executed (JObj m) true) as [r|e] eqn:E; [|done].
    pose proof E as Ho. apply resolve_object_is_obj in Ho. destruct r as [| | | | |o]; try done. injection Hr as ->.
    by apply resolved_sound.
  - intros [out Ho]. destruct (resolved_complete _ _ Hd _ _ Ho) as [r Hr]. pose proof Hr as Hobj. apply resolve_object_is_obj in Hobj.
    destruct r; try done. rewrite Hr. eauto.
Qed.

(** Arguments without a reference, at any depth, reach the handler
    unchanged. *)
Theorem plain_arguments_unchanged executed m :
  no_references (JObj m) = true -> resolveResultReferences executed (Some m) = Ok m.
Proof. intros Hm. unfold resolveResultReferences. by rewrite resolve_no_references. Qed.

(** The response of a set or copy call never shows an empty object or an
    empty array under the six result properties (they are null instead), and
    its other members are those the handler returned. *)
Theorem set_results_null_when_empty name args :
  HasSuffix name "/set" = true \/ HasSuffix name "/copy" = true ->
  let out := normalizeSetResult name args in
  (forall k, k ∈ set_result_keys ->
     obj_get out k <> Some (JObj []) /\ obj_get out k <> Some (JArr []))
  /\ (forall k, k ∉ set_result_keys -> obj_get out k = obj_get args k).
Proof.
  intros Hn. simpl. unfold normalizeSetResult.
  replace (negb (HasSuffix name "/set" || HasSuffix name "/copy")) with false
    by (destruct Hn as [-> | ->]; by rewrite ?orb_true_r).
  assert (NoDup set_result_keys) by (apply (bool_decide_unpack _); by vm_compute).
  split; intros k Hk; rewrite normalize_fold_get by done.
  - apply str_in_spec in Hk. rewrite Hk.
    destruct (obj_get args k) as [[| | | |[]|[]]|]; by simpl.
  - destruct (str_in k set_result_keys) eqn:E; [by apply str_in_spec in E|done].
Qed.

(** a get call whose ids contain an array or an object panics (the
    duplicate check uses the ids as map keys): the request is aborted without
    a response, although the effects of its earlier calls stay. *)
Theorem unhashable_id_aborts
    (s : Server (W := W) (V := V)) c limits us executed call st h args acct ids :
  check_capabilities us (inv_Name call) = Ok tt -> us <> [] ->
  resolveResultReferences executed (inv_Args call) = Ok args ->
  check_limits limits (inv_Name call) args = Ok tt ->
  Registry_Get (srv_MethodRegistry s) (inv_Name call) = Some h ->
  inv_Name call <> "Core/echo" -> HasPrefix (inv_Name call) "PushSubscription/" = false ->
  HasSuffix (inv_Name call) "/get" = true ->
  check_account args = Ok acct ->
  obj_get args "ids" = Some (JArr ids) -> existsb (fun i => negb (hashable i)) ids = true ->
  run_call s c limits us executed call st = (st, None).
Proof.
  intros Hcap Hus Hres Hlim Hget Hecho Hpush Hsuf Hacct Hids Hbad.
  unfold run_call, prepare_call, rbind. rewrite Hcap, Hres, Hlim, Hget, Hpush, Hacct.
  rewrite (proj2 (String.eqb_neq _ _) Hecho). destruct us; [done|]. cbn [length Nat.eqb].
  unfold check_ids, get_present. rewrite Hids, Hsuf. by rewrite (dedup_any_crash ids []).
Qed.

(** over a WebSocket no account check is made.  Where the HTTP endpoint
    answers a call on an account that is not permitted with an error and
    leaves the state alone, the WebSocket loop runs the handler with the
    arguments of the client, the foreign account id included. *)
Theorem websocket_skips_account_check
    (s : Server (W := W) (V := V)) c limits us executed call st h m acct :
  check_capabilities us (inv_Name call) = Ok tt -> us <> [] ->
  inv_Args call = Some m -> no_references (JObj m) = true ->
  check_limits limits (inv_Name call) m = Ok tt ->
  Registry_Get (srv_MethodRegistry s) (inv_Name call) = Some h ->
  inv_Name call <> "Core/echo" -> HasPrefix (inv_Name call) "PushSubscription/" = false ->
  check_ids (inv_Name call) m = Ok m -> check_numbers (inv_Name call) m = Ok tt ->
  obj_get m "accountId" = Some (JStr acct) -> acct <> EmptyString -> acct <> "primary" ->
  AccountIDForSubject acct <> fst (AccountIDFromContext c) ->
  permitted s (rs_world st) c acct = false ->
  (exists e, run_call s c limits us executed call st = (st, Some (error_response call e, [])))
  /\ ws_run_call s c limits us executed call st
     = (let '(st', (respName, respArgs)) := h c m (inv_ClientCallID call) st in
        (st', mkInvocation respName respArgs (inv_ClientCallID call))).
Proof.
  intros Hcap Hus Hm Hno Hlim Hget Hecho Hpush Hids Hnum Hacct He Hprim Hsub Hperm.
  assert (resolveResultReferences executed (inv_Args call) = Ok m) as Hres.
  { rewrite Hm. unfold resolveResultReferences. by rewrite resolve_no_references. }
  destruct us as [|u0 us]; [done|]. unfold permitted in Hperm. apply orb_false_elim in Hperm as [Hself Hacc].
  destruct (account_access s (rs_world st) c _ acct) as [a e] eqn:Ea. simpl in Hacc. subst a.
  split.
  - eexists. apply run_call_reject. unfold prepare_call, rbind.
    rewrite Hcap, Hres, Hlim, Hget, Hpush. rewrite (proj2 (String.eqb_neq _ _) Hecho).
    cbn [length Nat.eqb].
    unfold check_account. rewrite Hacct, (proj2 (String.eqb_neq _ _) He), Hids, Hnum.
    unfold check_access. rewrite (proj2 (String.eqb_neq _ _) Hprim), (proj2 (String.eqb_neq _ _) Hsub).
    by rewrite Hself, Ea.
  - unfold ws_run_call, rbind. by rewrite Hcap, Hres, Hlim, Hget.
Qed.

(** Listing the core capability alone makes every method callable except
    the MDN ones: the check that the capability of the method is in using is
    not made in that case. *)
Theorem core_using_admits_every_method us name :
  CoreCapabilityURI ∈ us -> HasPrefix name "MDN/" = false ->
  check_capabilities us name = Ok tt.
Proof.
  intros Hcore%str_in_spec Hname. unfold check_capabilities. rewrite Hcore, Hname. cbn [negb].
  rewrite andb_false_r. simpl.
  destruct (String.eqb name "MDN/send") eqn:E; [|done]. bool_props. by subst.
Qed.

(** the account a copy reads from is not checked.  A call that passes
    every check hands its handler the fromAccountId of the client, and the
    context for reading the source is that account, permitted or not. *)
Theorem copy_source_not_checked
    (s : Server (W := W) (V := V)) w c limits us executed call h target args m from :
  prepare_call s w c limits us executed call = Ok (AccountCall h target args) ->
  HasPrefix (inv_Name call) "PushSubscription/" = false ->
  inv_Args call = Some m -> no_references (JObj m) = true ->
  obj_get m "fromAccountId" = Some (JStr from) -> from <> EmptyString -> from <> "primary" ->
  fst (AccountIDFromContext (SourceAccountContext (ContextWithAccountID c target) args)) = from.
Proof.
  intros Hp Hpush Hm Hno Hfrom Hne Hprim.
  assert (get_str args "fromAccountId" = Some from) as Hget.
  { assert (resolveResultReferences executed (inv_Args call) = Ok m) as Hres.
    { rewrite Hm. unfold resolveResultReferences. by rewrite resolve_no_references. }
    unfold get_str. by rewrite (prepared_keeps _ _ _ _ _ _ _ _ _ _ _ "fromAccountId" Hp Hres), Hfrom. }
  unfold SourceAccountContext, str_or_empty. rewrite Hget. simpl.
  rewrite (proj2 (String.eqb_neq _ _) Hne), (proj2 (String.eqb_neq _ _) Hprim). done.
Qed.
End Properties.

(** ** Witnesses *)

(** A server whose one method counts its calls and returns its arguments. *)
Definition demo_method : MethodHandler (W := nat) (V := json) :=
  fun c args cid st =>
    (mkReq (S (rs_world st)) (rs_refs st) (rs_spill st) (rs_cache st) (rs_scope st),
     ("Email/get", Some args)).
Definition demo_server : Server (W := nat) (V := json) :=
  mkServer [(CoreCapabilityURI, CapCore default_limits)] "s0" false false NoGuard None
    (fun _ st => st)
    (Register (Register NewMethodRegistry "Email/get" demo_method) "Email/copy" demo_method).
Definition demo_ctx : Ctx := ContextWithAccountID Background (AccountIDForSubject "a@x").
Definition demo_state : ReqState (W := nat) (V := json) := mkReq 0%nat ∅ [] None None.
Definition demo_get : Invocation :=
  mkInvocation "Email/get" (Some [("accountId", JStr "primary"); ("ids", jstrs ["m1"])]) "c0".

Lemma handler_arguments_name_checked_account_witness :
  obj_get [("accountId", JStr (AccountIDForSubject "a@x")); ("ids", jstrs ["m1"])] "accountId"
  = Some (JStr (AccountIDForSubject "a@x"))
  /\ permitted demo_server 0%nat demo_ctx (AccountIDForSubject "a@x") = true.
Proof.
  apply (@handler_arguments_name_checked_account ascii_runtime nat json demo_server 0%nat demo_ctx
           default_limits [CoreCapabilityURI] ∅ demo_get demo_method (AccountIDForSubject "a@x"));
    vm_compute; reflexivity.
Defined.

Lemma responses_follow_calls_witness :
  exists groups : list (Invocation * list Invocation),
    [mkInvocation "Email/get" (Some [("accountId", JStr (AccountIDForSubject "a@x"));
                                     ("ids", jstrs ["m1"])]) "c0"]
    = concat (map (fun g => fst g :: snd g) groups)
    /\ Forall2 (fun call g => inv_ClientCallID (fst g) = inv_ClientCallID call) [demo_get] groups.
Proof.
  apply (@responses_follow_calls ascii_runtime nat json demo_server demo_ctx default_limits
           [CoreCapabilityURI] [demo_get] ∅ demo_state (mkReq 1%nat ∅ [] None None)).
  vm_compute. reflexivity.
Defined.

Definition demo_executed : gmap string Invocation :=
  {["q" := mkInvocation "Email/query" (Some [("ids", jstrs ["m1"; "m2"])]) "q"]}.
Definition demo_reference : obj :=
  [("resultOf", JStr "q"); ("name", JStr "Email/query"); ("path", JStr "/ids/0")].
Definition demo_args : obj := [("accountId", JStr "primary"); ("#ids", JObj demo_reference)].

Lemma result_references_resolve_witness :
  resolved demo_executed true (JObj demo_args) (JObj [("accountId", JStr "primary"); ("ids", jstrs ["m1"])]).
Proof.
  apply (@result_references_resolve ascii_runtime demo_executed demo_args); vm_compute; reflexivity.
Defined.

Definition demo_bad_get : Invocation :=
  mkInvocation "Email/get" (Some [("accountId", JStr "primary"); ("ids", JArr [JArr []])]) "c0".

Lemma unhashable_id_aborts_witness :
  run_call (H := ascii_runtime) demo_server demo_ctx default_limits [CoreCapabilityURI] ∅
    demo_bad_get demo_state = (demo_state, None).
Proof.
  eapply (@unhashable_id_aborts ascii_runtime); try (vm_compute; reflexivity); discriminate.
Defined.

Definition demo_foreign : Invocation :=
  mkInvocation "Email/get" (Some [("accountId", JStr (AccountIDForSubject "b@x"))]) "c0".

Lemma websocket_skips_account_check_witness :
  (exists e, run_call (H := ascii_runtime) demo_server demo_ctx default_limits [CoreCapabilityURI] ∅
               demo_foreign demo_state = (demo_state, Some (error_response demo_foreign e, [])))
  /\ ws_run_call (H := ascii_runtime) demo_server demo_ctx default_limits [CoreCapabilityURI] ∅
       demo_foreign demo_state
     = (mkReq 1%nat ∅ [] None None,
        mkInvocation "Email/get" (Some [("accountId", JStr (AccountIDForSubject "b@x"))]) "c0").
Proof.
  eapply (@websocket_skips_account_check ascii_runtime nat json demo_server demo_ctx default_limits
           [CoreCapabilityURI] ∅ demo_foreign demo_state demo_method
           [("accountId", JStr (AccountIDForSubject "b@x"))] (AccountIDForSubject "b@x"));
    try (vm_compute; reflexivity); vm_compute; discriminate.
Defined.

Definition demo_copy_args : obj :=
  [("accountId", JStr (AccountIDForSubject "a@x")); ("fromAccountId", JStr (AccountIDForSubject "b@x"))].

Lemma copy_source_not_checked_witness :
  permitted demo_server 0%nat demo_ctx (AccountIDForSubject "b@x") = false
  /\ fst (AccountIDFromContext
       (SourceAccountContext (ContextWithAccountID demo_ctx (AccountIDForSubject "a@x")) demo_copy_args))
  = AccountIDForSubject "b@x".
Proof.
  split; [vm_compute; reflexivity|].
  eapply (@copy_source_not_checked ascii_runtime nat json demo_server 0%nat demo_ctx default_limits
           [CoreCapabilityURI] ∅ (mkInvocation "Email/copy" (Some demo_copy_args) "c0")
           demo_method (AccountIDForSubject "a@x") demo_copy_args demo_copy_args);
    try (vm_compute; reflexivity); vm_compute; discriminate.
Defined.
