(* ===== verification/MailTypes.v ===== *)
(** * Mail objects and errors

    The [Mailbox] of [jmap/jmapmail/mail.go] with its JSON form, and the error
    values that the operations of a mail backend return. *)

From S2P Require Import Prelude GoStrings Json Envelope.

(** ** Errors *)

(** An error value: one that wraps [jmapcore.ErrNotFound], with its text, a
    [SetError], or another with its text. *)
Inductive go_error : Type :=
| GNotFound (msg : string)
| GSetError (e : SetError)
| GError (msg : string).

(** [jmapcore.ErrNotFound] itself *)
Definition ErrNotFound : go_error := GNotFound "not found".

Definition err_Error (e : go_error) : string :=
  match e with
  | GNotFound msg | GError msg => msg
  | GSetError e => SetError_Error e
  end.

(** The JSON of a [SetError]; empty members are omitted. *)
Definition SetError_json (e : SetError) : json :=
  let strs k (l : list string) := match l with [] => [] | _ => [(k, jstrs l)] end in
  let str k s := if String.eqb s EmptyString then [] else [(k, JStr s)] in
  let num k (n : option Z) := match n with Some z => [(k, jint z)] | None => [] end in
  JObj ([("type", JStr (se_Type e))] ++ str "description" (se_Description e)
        ++ strs "properties" (se_Properties e) ++ strs "notFound" (se_NotFound e)
        ++ str "existingId" (se_ExistingID e) ++ num "maxSize" (se_MaxSize e)
        ++ num "maxRecipients" (se_MaxRecipients e) ++ strs "invalidRecipients" (se_InvalidRecipients e)).

(** A [SetError] literal with its type, description and properties. *)
Definition property_error (ty desc : string) (props : list string) : SetError :=
  mkSetError ty desc props [] EmptyString None None [].

(** ** Mailboxes *)

Record MailboxRights : Type := mkRights {
  mr_MayReadItems : bool;
  mr_MayAddItems : bool;
  mr_MayRemoveItems : bool;
  mr_MaySetSeen : bool;
  mr_MaySetKeywords : bool;
  mr_MayCreateChild : bool;
  mr_MayRename : bool;
  mr_MayDelete : bool;
  mr_MaySubmit : bool;
  mr_MayAdmin : bool;
}.

Record Mailbox : Type := mkMailbox {
  mb_ID : string;
  mb_Name : string;
  mb_ParentID : option string;
  mb_Role : option string;
  mb_SortOrder : Z;
  mb_TotalEmails : Z;
  mb_UnreadEmails : Z;
  mb_TotalThreads : Z;
  mb_UnreadThreads : Z;
  mb_MyRights : MailboxRights;
  mb_IsSubscribed : bool;
}.

Definition opt_str (s : option string) : json := match s with Some s => JStr s | None => JNull end.

Definition rights_json (r : MailboxRights) : json :=
  JObj [("mayReadItems", JBool (mr_MayReadItems r)); ("mayAddItems", JBool (mr_MayAddItems r));
        ("mayRemoveItems", JBool (mr_MayRemoveItems r)); ("maySetSeen", JBool (mr_MaySetSeen r));
        ("maySetKeywords", JBool (mr_MaySetKeywords r)); ("mayCreateChild", JBool (mr_MayCreateChild r));
        ("mayRename", JBool (mr_MayRename r)); ("mayDelete", JBool (mr_MayDelete r));
        ("maySubmit", JBool (mr_MaySubmit r)); ("mayAdmin", JBool (mr_MayAdmin r))].

(** Numbers are the float64 values a client reads from the response. *)
Definition mailbox_json (m : Mailbox) : json :=
  JObj [("id", JStr (mb_ID m)); ("name", JStr (mb_Name m)); ("parentId", opt_str (mb_ParentID m));
        ("role", opt_str (mb_Role m)); ("sortOrder", jint (mb_SortOrder m));
        ("totalEmails", jint (mb_TotalEmails m)); ("unreadEmails", jint (mb_UnreadEmails m));
        ("totalThreads", jint (mb_TotalThreads m)); ("unreadThreads", jint (mb_UnreadThreads m));
        ("myRights", rights_json (mb_MyRights m)); ("isSubscribed", JBool (mb_IsSubscribed m))].

(** The zero value of [MailboxRights]. *)
Definition no_rights : MailboxRights :=
  mkRights false false false false false false false false false false.
