(* ===== verification/ImapConvert.v ===== *)
(** * Identifiers and flags of the IMAP gateway

    [imap/convert.go]: the ids of emails, threads and mailboxes that the
    gateway derives from IMAP names and UIDs, the correspondence of flags and
    keywords, and the roles and parents of mailboxes.  With them the part of
    [jmap/imapsmtp/email_write.go] that turns the keywords of an update into
    flag changes. *)

From S2P Require Import Prelude GoStrings Base64 Json Envelope Query.
From Stdlib Require Import Ascii.

(** ** Emails *)

Definition EmailIDFor (mbID : string) (uid : Z) : string := mbID +:+ "-" +:+ fmt_d uid.

(** The two ways [ParseEmailID] fails. *)
Inductive id_error : Type :=
| BadFormat (id : string)
| BadUID (uidStr : string).

Definition ParseEmailID (id : string) : result id_error (string * Z) :=
  let lastIdx := match LastIndexByte id "-" with
                 | Some i => Some i
                 | None => LastIndexByte id ":"
                 end in
  match lastIdx with
  | None => Err (BadFormat id)
  | Some i =>
      let uidStr := str_drop (S i) id in
      match ParseUint uidStr 32 with
      | None => Err (BadUID uidStr)
      | Some uid => Ok (str_take i id, uid)
      end
  end.

(** ** Threads *)

(** [sha256] is the digest of crypto/sha256. *)
Definition ThreadIDFor (sha256 : string -> string) (messageID fallback : string) : string :=
  let cleaned := Trim messageID "<>" in
  if String.eqb cleaned EmptyString then fallback
  else if str_forallb is_id_byte cleaned && (slen cleaned <=? 255)%nat then cleaned
  else "t-" +:+ b64_encode (str_take 16 (sha256 cleaned)).

(** ** Flags and keywords *)

Definition FlagSeen := "\Seen".
Definition FlagFlagged := "\Flagged".
Definition FlagDraft := "\Draft".
Definition FlagAnswered := "\Answered".

(** The keyword of one flag; [None] when it has none. *)
Definition keyword_of_flag `{GoRuntime} (flag : string) : option string :=
  if String.eqb flag FlagSeen then Some "$seen"
  else if String.eqb flag FlagFlagged then Some "$flagged"
  else if String.eqb flag FlagDraft then Some "$draft"
  else if String.eqb flag FlagAnswered then Some "$answered"
  else
    let s := ToLower flag in
    if negb (String.eqb s EmptyString) && negb (HasPrefix s "\") then Some s else None.

(** A keyword map whose values are all true is the set of its keys. *)
Definition MapIMAPFlagsToKeywords `{GoRuntime} (flags : list string) : gset string :=
  foldl (fun kws flag => match keyword_of_flag flag with Some k => {[k]} ∪ kws | None => kws end) ∅ flags.
Definition MapFlagsToKeywords `{GoRuntime} (flagStrs : list string) : gset string :=
  MapIMAPFlagsToKeywords flagStrs.

Definition flag_of_keyword (kw : string) : string :=
  if String.eqb kw "$seen" then FlagSeen
  else if String.eqb kw "$flagged" then FlagFlagged
  else if String.eqb kw "$draft" then FlagDraft
  else if String.eqb kw "$answered" then FlagAnswered
  else kw.

(** The keyword map as the list of its members in the order of the range. *)
Definition MapKeywordsToIMAPFlags (keywords : list (string * bool)) : list string :=
  flat_map (fun kv => if snd kv : bool then [flag_of_keyword (fst kv)] else []) keywords.
Definition MapKeywordsToFlags (keywords : list (string * bool)) : list string :=
  MapKeywordsToIMAPFlags keywords.

Definition MapJMAPKeywordToIMAPFlag `{GoRuntime} (kw : string) : string :=
  let lower := ToLower (TrimSpace kw) in
  if String.eqb lower "$seen" then "\Seen"
  else if String.eqb lower "$flagged" then "\Flagged"
  else if String.eqb lower "$draft" then "\Draft"
  else if String.eqb lower "$answered" then "\Answered"
  else if HasPrefix lower "$" then lower else "$" +:+ lower.

(** *** Updating the keywords of a message *)

(** [UpdateEmail] of [jmap/imapsmtp/email_write.go]: the flag commands a patch
    leads to; [fu_set] is the replacement of all flags, which overrides the
    other two. *)
Record flag_update : Type := mkFlagUpdate {
  fu_set : option (list string);
  fu_add : list string;
  fu_del : list string;
}.

(** The keywords a client set in a keywords object, in lower case. *)
Definition set_keywords `{GoRuntime} (kwMap : obj) : list (string * bool) :=
  map (fun k => (k, true))
    (elements (list_to_set (flat_map (fun kv => match snd kv with
                                                | JBool true => [ToLower (fst kv)]
                                                | _ => [] end) kwMap) : gset string)).

Definition flag_member `{GoRuntime} (u : flag_update) (kv : string * json) : flag_update :=
  let '(path, val) := kv in
  if String.eqb path "keywords" then
    match val with
    | JObj kwMap => mkFlagUpdate (Some (MapKeywordsToIMAPFlags (set_keywords kwMap))) (fu_add u) (fu_del u)
    | _ => u
    end
  else if HasPrefix path "keywords/" then
    let kw := ToLower (TrimPrefix path "keywords/") in
    let flag := MapJMAPKeywordToIMAPFlag kw in
    match val with
    | JNull | JBool false => mkFlagUpdate (fu_set u) (fu_add u) (fu_del u ++ [flag])
    | JBool true => mkFlagUpdate (fu_set u) (fu_add u ++ [flag]) (fu_del u)
    | _ => u
    end
  else u.
Definition keyword_flags `{GoRuntime} (patch : obj) : flag_update :=
  foldl flag_member (mkFlagUpdate None [] []) patch.

(** The flags of a message after the commands (as a set). *)
Definition apply_flags (u : flag_update) (flags : gset string) : gset string :=
  match fu_set u with
  | Some fs => list_to_set fs
  | None => (flags ∪ list_to_set (fu_add u)) ∖ list_to_set (fu_del u)
  end.

(** ** Mailboxes *)

Definition MailboxIDForName `{GoRuntime} (name : string) : string :=
  let l := ToLower name in
  if String.eqb l "inbox" then "mb-inbox"
  else if String.eqb l "drafts" then "mb-drafts"
  else if String.eqb l "sent" then "mb-sent"
  else if String.eqb l "trash" then "mb-trash"
  else if String.eqb l "junk" then "mb-junk"
  else if String.eqb l "archive" then "mb-archive"
  else b64_encode name.

Definition NameForMailboxID (id : string) : result string string :=
  if String.eqb id "mb-inbox" then Ok "INBOX"
  else if String.eqb id "mb-drafts" then Ok "Drafts"
  else if String.eqb id "mb-sent" then Ok "Sent"
  else if String.eqb id "mb-trash" then Ok "Trash"
  else if String.eqb id "mb-junk" then Ok "Junk"
  else if String.eqb id "mb-archive" then Ok "Archive"
  else match b64_decode id with
       | None => Err "invalid mailbox id: illegal base64 data"
       | Some b => Ok b
       end.

(** The role an attribute names, as the cases of the switch. *)
Definition role_of_attr (lower : string) : option string :=
  if str_in lower ["\drafts"; "\Drafts"] then Some "drafts"
  else if str_in lower ["\sent"; "\Sent"] then Some "sent"
  else if str_in lower ["\trash"; "\Trash"] then Some "trash"
  else if str_in lower ["\junk"; "\Junk"] then Some "junk"
  else if str_in lower ["\archive"; "\Archive"] then Some "archive"
  else None.

Fixpoint first_role `{GoRuntime} (attrs : list string) : option string :=
  match attrs with
  | [] => None
  | a :: attrs' => match role_of_attr (ToLower a) with Some r => Some r | None => first_role attrs' end
  end.

Definition DetectRole `{GoRuntime} (name : string) (attrs : list string) : string :=
  match first_role attrs with
  | Some r => r
  | None =>
      let lower := ToLower name in
      if EqualFold name "INBOX" then "inbox"
      else if Contains lower "draft" then "drafts"
      else if Contains lower "sent" then "sent"
      else if Contains lower "trash" || Contains lower "bin" || Contains lower "deleted" then "trash"
      else if Contains lower "junk" || Contains lower "spam" then "junk"
      else if Contains lower "archive" then "archive"
      else if Contains lower "outbox" then "outbox"
      else if Contains lower "template" then "templates"
      else EmptyString
  end.

(** [delimiter] is the UTF-8 form of the rune, empty for the rune 0. *)
Definition ParentMailboxID `{GoRuntime} (name delimiter : string) : option string :=
  let delimiter := if String.eqb delimiter EmptyString then "/" else delimiter in
  let parts := Split name delimiter in
  if (1 <? length parts)%nat
  then Some (MailboxIDForName (Join (take (length parts - 1) parts) delimiter))
  else None.

(** ** Lemmas *)

Lemma stored_keyword_dollar `{GoRuntime} kw :
  str_forallb (byte_between 33 126) kw = true -> str_map lower_ascii kw = kw -> HasPrefix kw "$" = false ->
  MapJMAPKeywordToIMAPFlag kw = "$" +:+ kw.
Proof.
  intros Hg Hlow Hd. unfold MapJMAPKeywordToIMAPFlag.
  rewrite TrimSpace_graphic, ToLower_ascii, Hlow by (done || by apply graphic_ascii).
  assert (forall s, HasPrefix s "$" = true -> String.eqb kw s = false) as Hne.
  { intros s Hs. apply String.eqb_neq. intros ->. congruence. }
  by rewrite !Hne, Hd.
Qed.

Lemma str_drop_succ_app s c t : str_drop (S (slen s)) (s +:+ String c t) = t.
Proof. induction s as [|b s IH]; [done|exact IH]. Qed.

Lemma ParseEmailID_EmailIDFor mbID uid :
  0 <= uid < 2 ^ 32 -> ParseEmailID (EmailIDFor mbID uid) = Ok (mbID, uid).
Proof.
  intros Huid. unfold ParseEmailID, EmailIDFor.
  change ("-" +:+ fmt_d uid) with (String "-" (fmt_d uid)).
  rewrite LastIndexByte_app.
  - rewrite str_drop_succ_app, ParseUint_fmt_d by done. by rewrite str_take_app.
  - eapply str_forallb_impl; [|apply fmt_d_digits; lia].
    intros c Hc. apply negb_true_iff. apply Ascii.eqb_neq. by intros ->.
Qed.

(** The names with an id of their own, in lower case, with the spelling the
    gateway gives back. *)
Definition special_names : list (string * (string * string)) :=
  [("inbox", ("mb-inbox", "INBOX")); ("drafts", ("mb-drafts", "Drafts")); ("sent", ("mb-sent", "Sent"));
   ("trash", ("mb-trash", "Trash")); ("junk", ("mb-junk", "Junk")); ("archive", ("mb-archive", "Archive"))].
Definition special_of `{GoRuntime} (name : string) : option (string * string) :=
  snd <$> List.find (fun e => String.eqb (ToLower name) (fst e)) special_names.

Lemma MailboxIDForName_cases `{GoRuntime} name :
  MailboxIDForName name
  = match special_of name with Some (id, _) => id | None => b64_encode name end.
Proof.
  unfold MailboxIDForName, special_of, special_names. cbn [List.find fst].
  repeat (case_match; [done|]). done.
Qed.

Lemma NameForMailboxID_special `{GoRuntime} name id canon :
  special_of name = Some (id, canon) -> NameForMailboxID id = Ok canon.
Proof.
  unfold special_of, special_names. cbn [List.find fst]. intros Hs.
  repeat (case_match; [by simplify_eq/=|]). done.
Qed.

(** The ids of the special names are not the encoding of an ASCII name. *)
Lemma b64_encode_not_special name id :
  is_ascii name = true ->
  id ∈ ["mb-inbox"; "mb-drafts"; "mb-sent"; "mb-trash"; "mb-junk"; "mb-archive"] ->
  String.eqb (b64_encode name) id = false.
Proof.
  intros Ha Hid. apply String.eqb_neq. intros E.
  assert (b64_decode id = Some name) as Hd by (by rewrite <- E, b64_decode_encode).
  repeat (apply elem_of_cons in Hid as [-> | Hid];
          [vm_compute in Hd; try done; injection Hd as <-; by vm_compute in Ha|]).
  by apply not_elem_of_nil in Hid.
Qed.

Lemma NameForMailboxID_encoded name :
  is_ascii name = true -> NameForMailboxID (b64_encode name) = Ok name.
Proof.
  intros Ha. unfold NameForMailboxID.
  rewrite !b64_encode_not_special by (done || set_solver). by rewrite b64_decode_encode.
Qed.

Lemma special_id_elem `{GoRuntime} name id canon :
  special_of name = Some (id, canon) ->
  id ∈ ["mb-inbox"; "mb-drafts"; "mb-sent"; "mb-trash"; "mb-junk"; "mb-archive"].
Proof.
  unfold special_of, special_names. cbn [List.find fst]. intros Hs.
  repeat (case_match; [simplify_eq/=; set_solver|]). done.
Qed.

Lemma str_take_length n s : slen (str_take n s) = (n `min` slen s)%nat.
Proof. revert s. induction n; intros [|c s]; simpl; [done..|]. by f_equal. Qed.

Lemma keywords_elem `{GoRuntime} flags k : forall acc : gset string,
  k ∈ foldl (fun kws flag => match keyword_of_flag flag with Some k => {[k]} ∪ kws | None => kws end)
        acc flags
  <-> k ∈ acc \/ exists f, f ∈ flags /\ keyword_of_flag f = Some k.
Proof.
  induction flags as [|f flags IH]; intros acc; simpl; [set_solver|].
  rewrite IH. destruct (keyword_of_flag f) as [k'|] eqn:E.
  - split; [intros [?|?]|intros [?|(g & [->|?]%elem_of_cons & ?)]]; set_solver.
  - split; [intros [?|?]|intros [?|(g & [->|?]%elem_of_cons & ?)]]; set_solver.
Qed.

(** A keyword as the server stores them: not empty, lower case, not a system flag. *)
Definition stored_keyword (kw : string) : bool :=
  is_ascii kw && negb (String.eqb kw EmptyString) && negb (HasPrefix kw "\")
  && String.eqb (str_map lower_ascii kw) kw.

Lemma keyword_of_flag_of_keyword `{GoRuntime} kw :
  stored_keyword kw = true -> keyword_of_flag (flag_of_keyword kw) = Some kw.
Proof.
  unfold stored_keyword. intros Hk. bool_props. unfold flag_of_keyword.
  repeat (case_match; bool_props; [subst; by vm_compute|]).
  unfold keyword_of_flag.
  assert (forall f, HasPrefix f "\" = true -> String.eqb kw f = false) as Hsys.
  { intros f Hf. apply String.eqb_neq. intros ->. congruence. }
  rewrite !Hsys by done. rewrite ToLower_ascii by done.
  match goal with E : str_map _ kw = kw |- _ => rewrite E end.
  rewrite (proj2 (String.eqb_neq _ _)) by done. by match goal with E : HasPrefix kw _ = _ |- _ => rewrite E end.
Qed.

Lemma keyword_flags_path `{GoRuntime} kw v :
  keyword_flags [("keywords/" +:+ kw, v)]
  = let flag := MapJMAPKeywordToIMAPFlag (ToLower kw) in
    match v with
    | JNull | JBool false => mkFlagUpdate None [] [flag]
    | JBool true => mkFlagUpdate None [flag] []
    | _ => mkFlagUpdate None [] []
    end.
Proof.
  unfold keyword_flags. cbn [foldl flag_member].
  assert (String.eqb ("keywords/" +:+ kw) "keywords" = false) as ->.
  { apply String.eqb_neq. by intros [=]. }
  rewrite HasPrefix_app, TrimPrefix_app. by destruct v as [|[]| | | |].
Qed.

(** ** Properties *)

(** an email id determines the mailbox it was made for and the UID, for
    every UID the IMAP server can assign; so two messages never share an id. *)
Theorem email_id_roundtrip `{GoRuntime} name uid :
  0 <= uid < 2 ^ 32 ->
  ParseEmailID (EmailIDFor (MailboxIDForName name) uid) = Ok (MailboxIDForName name, uid)
  /\ forall name' uid', 0 <= uid' < 2 ^ 32 ->
       EmailIDFor (MailboxIDForName name') uid' = EmailIDFor (MailboxIDForName name) uid ->
       MailboxIDForName name' = MailboxIDForName name /\ uid' = uid.
Proof.
  intros Huid. split; [by apply ParseEmailID_EmailIDFor|]. intros name' uid' Huid' E.
  pose proof (ParseEmailID_EmailIDFor (MailboxIDForName name') uid' Huid') as Hp.
  rewrite E, ParseEmailID_EmailIDFor in Hp by done. by simplify_eq.
Qed.

Lemma email_id_roundtrip_witness :
  ParseEmailID (EmailIDFor (MailboxIDForName (H := ascii_runtime) "Work") 4294967295)
  = Ok (MailboxIDForName (H := ascii_runtime) "Work", 4294967295).
Proof. apply (@email_id_roundtrip ascii_runtime "Work" 4294967295). lia. Defined.

(** mailbox ids.  An ASCII folder name outside the six special ones is
    given back exactly; a special name, in any case, is given back in the
    canonical spelling; and two folders share an id only when they are equal
    or two spellings of the same special name. *)
Theorem mailbox_id_roundtrip `{GoRuntime} name :
  is_ascii name = true ->
  NameForMailboxID (MailboxIDForName name)
  = Ok (match special_of name with Some (_, canon) => canon | None => name end)
  /\ forall other, is_ascii other = true -> MailboxIDForName other = MailboxIDForName name ->
       other = name \/ (special_of name <> None /\ special_of other = special_of name).
Proof.
  intros Ha. rewrite MailboxIDForName_cases. split.
  - destruct (special_of name) as [[id canon]|] eqn:E;
      [by eapply NameForMailboxID_special | by apply NameForMailboxID_encoded].
  - intros other Ho. rewrite MailboxIDForName_cases. intros E.
    destruct (special_of name) as [[id1 c1]|] eqn:E1, (special_of other) as [[id2 c2]|] eqn:E2.
    + right. split; [done|]. subst id2. f_equal. f_equal.
      apply NameForMailboxID_special in E1, E2. congruence.
    + exfalso. pose proof (b64_encode_not_special other id1 Ho (special_id_elem _ _ _ E1)) as Hne.
      by apply String.eqb_neq in Hne.
    + exfalso. pose proof (b64_encode_not_special name id2 Ha (special_id_elem _ _ _ E2)) as Hne.
      by apply String.eqb_neq in Hne.
    + left. by apply b64_encode_inj.
Qed.

Lemma mailbox_id_roundtrip_witness :
  NameForMailboxID (MailboxIDForName (H := ascii_runtime) "Lists/rocq") = Ok "Lists/rocq".
Proof. apply (@mailbox_id_roundtrip ascii_runtime "Lists/rocq"). reflexivity. Defined.

(** Every thread id is a well-formed JMAP Id, whatever the Message-ID,
    when the digest has 32 bytes and the fallback is well formed. *)
Theorem thread_id_valid sha256 messageID fallback :
  (forall s, slen (sha256 s) = 32%nat) -> Id_Validate fallback = true ->
  Id_Validate (ThreadIDFor sha256 messageID fallback) = true.
Proof.
  intros Hsha Hfb. unfold ThreadIDFor. set (cleaned := Trim messageID "<>").
  destruct (String.eqb cleaned EmptyString) eqn:E; [done|].
  destruct (str_forallb is_id_byte cleaned && (slen cleaned <=? 255)%nat) eqn:E2; apply Id_Validate_spec.
  - apply andb_prop in E2 as [Hid Hlen]. apply Nat.leb_le in Hlen. split; [|done].
    split; [|done]. destruct cleaned; [done|]. unfold slen. simpl. lia.
  - rewrite str_forallb_app, slen_app, b64_encode_length, b64_encode_id, str_take_length, Hsha.
    split; [|done]. simpl (slen "t-"). simpl. lia.
Qed.

(** keywords survive storage as IMAP flags: the flags of a keyword map
    give back exactly the keywords that were set, in whatever order the map
    was visited, when they are in the lower-case form the server stores. *)
Theorem keywords_flags_roundtrip `{GoRuntime} keywords :
  (forall kw, (kw, true) ∈ keywords -> stored_keyword kw = true) ->
  forall kw, kw ∈ MapIMAPFlagsToKeywords (MapKeywordsToIMAPFlags keywords) <-> (kw, true) ∈ keywords.
Proof.
  intros Hst kw. unfold MapIMAPFlagsToKeywords. rewrite keywords_elem.
  assert (forall f, f ∈ MapKeywordsToIMAPFlags keywords
                    <-> exists k, f = flag_of_keyword k /\ (k, true) ∈ keywords) as Hf.
  { intros f. unfold MapKeywordsToIMAPFlags. rewrite list_elem_of_In, in_flat_map. split.
    - intros ([k []] & Hin & Hf); simpl in Hf; [|done]. exists k. rewrite list_elem_of_In.
      destruct Hf as [<-|[]]. done.
    - intros (k & -> & Hin). exists (k, true). rewrite <- list_elem_of_In. simpl. auto. }
  split.
  - intros [?%elem_of_empty|(f & (k & -> & Hin)%Hf & Hk)]; [done|].
    rewrite keyword_of_flag_of_keyword in Hk by auto. by simplify_eq.
  - intros Hin. right. exists (flag_of_keyword kw). rewrite Hf. split; [eauto|].
    apply keyword_of_flag_of_keyword. auto.
Qed.

Lemma keywords_flags_roundtrip_witness :
  "$seen" ∈ MapIMAPFlagsToKeywords (H := ascii_runtime)
              (MapKeywordsToIMAPFlags [("$seen", true); ("todo", true); ("$draft", false)]).
Proof.
  apply (@keywords_flags_roundtrip ascii_runtime [("$seen", true); ("todo", true); ("$draft", false)]).
  - intros kw Hin. repeat (apply elem_of_cons in Hin as [Hin|Hin]; [injection Hin as ->; reflexivity || done|]).
    by apply not_elem_of_nil in Hin.
  - left.
Defined.

(** a keyword patched by its path is not the keyword that was asked for.
    For a keyword without a dollar sign, setting it through the keywords object
    stores that keyword, but setting it through a keywords/ path stores another
    one, with a dollar sign put in front, and removing it through such a path
    leaves it in place. *)
Theorem patched_keyword_renamed `{GoRuntime} kw flags :
  str_forallb (byte_between 33 126) kw = true -> str_map lower_ascii kw = kw ->
  HasPrefix kw "$" = false -> HasPrefix kw "\" = false -> kw <> EmptyString ->
  apply_flags (keyword_flags [("keywords", JObj [(kw, JBool true)])]) flags = {[kw]}
  /\ apply_flags (keyword_flags [("keywords/" +:+ kw, JBool true)]) flags = flags ∪ {["$" +:+ kw]}
  /\ apply_flags (keyword_flags [("keywords/" +:+ kw, JNull)]) {[kw]} = {[kw]}.
Proof.
  intros Hg Hlow Hd Hb Hne. pose proof (graphic_ascii _ Hg) as Ha.
  assert (ToLower kw = kw) as Hl by (by rewrite ToLower_ascii).
  assert (kw <> "$" +:+ kw) as Hneq by (intros E; apply (f_equal slen) in E; rewrite slen_app in E; simpl in E; lia).
  split_and!.
  - unfold keyword_flags. cbn [foldl flag_member]. rewrite String.eqb_refl. unfold apply_flags. cbn [fu_set].
    unfold set_keywords. cbn [flat_map snd fst app]. rewrite Hl.
    replace (list_to_set [kw] : gset string) with ({[kw]} : gset string) by (apply set_eq; set_solver).
    rewrite elements_singleton. simpl.
    assert (flag_of_keyword kw = kw) as ->.
    { unfold flag_of_keyword.
      assert (forall s, HasPrefix s "$" = true -> String.eqb kw s = false) as Hn.
      { intros s Hs. apply String.eqb_neq. intros ->. congruence. }
      by rewrite !Hn. }
    set_solver.
  - rewrite keyword_flags_path, Hl, stored_keyword_dollar by done. unfold apply_flags. simpl. set_solver.
  - rewrite keyword_flags_path, Hl, stored_keyword_dollar by done. unfold apply_flags. simpl.
    apply set_eq. intros x. rewrite !elem_of_difference. set_unfold. split; [tauto|].
    intros ->. split; [tauto|]. intros [E|[]]. by apply Hneq.
Qed.

Lemma patched_keyword_renamed_witness :
  apply_flags (keyword_flags (H := ascii_runtime) [("keywords/" +:+ "todo", JNull)]) {["todo"]} = {["todo"]}.
Proof.
  apply (@patched_keyword_renamed ascii_runtime "todo" ∅); try reflexivity. discriminate.
Defined.
