(* ===== verification/ChangeTracker.v ===== *)
(** * Change tracking and state vectors

    [jmap/jmappush/push.go]: the in-memory [ChangeTracker] behind the changes
    methods (a counter and a bounded history), and the content-addressed state
    vectors that survive a restart.  Entries carry the state the mutation
    produced; the specification replays them on the set of live ids. *)

From S2P Require Import Prelude GoStrings Base64 Json Query.
From Stdlib Require Import Ascii.

(** ** The tracker *)

Record ChangeEntry : Type := mkEntry {
  ce_Action : string;
  ce_ID : string;
  ce_State : Z;
}.

Record ChangeTracker : Type := mkTracker {
  ct_counter : Z;
  ct_history : list ChangeEntry;
  ct_maxKeep : Z;
}.

Definition NewChangeTracker (maxKeep : Z) : ChangeTracker :=
  mkTracker 0 [] (if maxKeep <=? 0 then 1000 else maxKeep).

(** [State] and the tokens the other operations build. *)
Definition state_token (n : Z) : string := "~" +:+ fmt_d n.
Definition ChangeTracker_State (t : ChangeTracker) : string := state_token (ct_counter t).

(** [fmt.Sscanf(s, "%d", &n)] for a [uint64]: blanks are skipped, a line feed
    among them is an error, the digits that follow are read and what comes
    after them is ignored. *)
Fixpoint skip_blanks (fuel : nat) (s : string) : option string :=
  match fuel with
  | O => Some s
  | S fuel' =>
      if HasPrefix s (str_of ["010"%char]) then None
      else match List.find (HasPrefix s) space_runes with
           | Some sp => skip_blanks fuel' (str_drop (slen sp) s)
           | None => Some s
           end
  end.
Fixpoint leading_digits (s : string) : string :=
  match s with
  | String c s' => if is_digit_ascii c then String c (leading_digits s') else EmptyString
  | EmptyString => EmptyString
  end.
Definition sscanf_uint64 (s : string) : option Z :=
  match skip_blanks (slen s) s with
  | None => None
  | Some r => ParseUint (leading_digits r) 64
  end.

Definition ParseNumericStateToken (s : string) : option Z :=
  let s := TrimSpace s in
  if String.eqb s EmptyString || String.eqb s "0" then Some 0
  else sscanf_uint64 (TrimPrefix (TrimPrefix s "~") "state-").

(** [Record] *)
Definition ChangeTracker_Record (t : ChangeTracker) (id action : string) : ChangeTracker * string :=
  let counter := u64 (ct_counter t + 1) in
  let history := ct_history t ++ [mkEntry action id counter] in
  let history :=
    if ct_maxKeep t <? Z.of_nat (length history)
    then drop (length history - Z.to_nat (ct_maxKeep t)) history else history in
  (mkTracker counter history (ct_maxKeep t), state_token counter).

Definition ActionForID (t : ChangeTracker) (id : string) : string :=
  match List.find (fun e => String.eqb (ce_ID e) id) (rev (ct_history t)) with
  | Some e => ce_Action e
  | None => EmptyString
  end.

(** The entries at the front of the history that are not newer than [since]. *)
Fixpoint skip_old (since : Z) (h : list ChangeEntry) : nat :=
  match h with
  | [] => 0%nat
  | e :: h' => if ce_State e <=? since then S (skip_old since h') else 0%nat
  end.

(** The maps [first] and [last] after one more entry. *)
Definition window_step (fl : gmap string bool * gmap string string) (e : ChangeEntry)
  : gmap string bool * gmap string string :=
  let '(first, last) := fl in
  (match last !! ce_ID e with
   | None => <[ce_ID e := String.eqb (ce_Action e) "create"]> first
   | Some _ => first
   end, <[ce_ID e := ce_Action e]> last).

Definition is_kept (action : string) : bool := String.eqb action "create" || String.eqb action "update".

(** The ids a range over [last] appends for a condition on [first] and the action. *)
Definition pick (first : gmap string bool) (l : list (string * string)) (p : bool -> string -> bool)
  : list string :=
  flat_map (fun ia => if p (default false (first !! fst ia)) (snd ia) then [fst ia] else []) l.

(** Each id's final action within the window: the ids created, updated and
    destroyed, in the order of the range over [last]. *)
Definition resolve_window (window : list ChangeEntry) : list string * list string * list string :=
  let '(first, last) := foldl window_step (∅, ∅) window in
  let pick := pick first (map_to_list last) in
  (pick (fun f a => is_kept a && f),
   pick (fun f a => is_kept a && negb f),
   pick (fun f a => negb (is_kept a) && String.eqb a "destroy" && negb f)).

Record changes_result : Type := mkChanges {
  ch_created : list string;
  ch_updated : list string;
  ch_destroyed : list string;
  ch_newState : string;
  ch_hasMore : bool;
}.

(** [Changes] *)
Definition ChangeTracker_Changes (t : ChangeTracker) (sinceState : string) (maxChanges : option Z)
  : changes_result :=
  let newState := state_token (ct_counter t) in
  let none more := mkChanges [] [] [] newState more in
  match ParseNumericStateToken sinceState with
  | None => none true
  | Some since =>
      if ct_counter t =? 0 then none (negb (since =? 0))
      else if ct_counter t <=? since then none false
      else
        let h := ct_history t in
        let start := skip_old since h in
        if (start =? length h)%nat then none false
        else
          let hasMore :=
            match h with
            | e :: _ => if since =? 0 then 1 <? ce_State e else u64 (since + 1) <? ce_State e
            | [] => false
            end in
          let '(end_, hasMore, newState) :=
            match maxChanges with
            | None => (Z.of_nat (length h), hasMore, newState)
            | Some m =>
                let limit := i64 m in
                if limit <? Z.of_nat (length h) - Z.of_nat start then
                  let end_ := Z.of_nat start + limit in
                  (end_, true,
                   if 0 <? end_
                   then state_token (match h !! Z.to_nat (end_ - 1) with Some e => ce_State e | None => 0 end)
                   else newState)
                else (Z.of_nat (length h), hasMore, newState)
            end in
          let window := take (Z.to_nat (end_ - Z.of_nat start)) (drop start h) in
          let '(created, updated, destroyed) := resolve_window window in
          mkChanges created updated destroyed newState hasMore
  end.

(** ** State vectors *)

(** [DiffStateVectors]; a map from ids to fingerprints, the ids sorted. *)
Definition sort_ids (l : list string) : list string := merge_sort String.le l.
Definition DiffStateVectors (old cur : gmap string string) : list string * list string * list string :=
  let created := omap (fun kv => match old !! fst kv with None => Some (fst kv) | Some _ => None end)
                      (map_to_list cur) in
  let updated := omap (fun kv => match old !! fst kv with
                                 | Some oldFp => if String.eqb oldFp (snd kv) then None else Some (fst kv)
                                 | None => None
                                 end) (map_to_list cur) in
  let destroyed := omap (fun kv => match cur !! fst kv with None => Some (fst kv) | Some _ => None end)
                        (map_to_list old) in
  (sort_ids created, sort_ids updated, sort_ids destroyed).

Section Vectors.
(** [json.Marshal] and [json.Unmarshal] of a map of strings. *)
Variable marshal_map : gmap string string -> string.
Variable unmarshal_map : string -> option (gmap string string).

Definition EncodeStateVector (prefix : string) (fps : gmap string string) : string :=
  if (size fps =? 0)%nat then prefix +:+ "empty" else prefix +:+ b64_encode (marshal_map fps).

Definition DecodeStateVector (prefix state : string) : option (gmap string string) :=
  if negb (HasPrefix state prefix) then None
  else
    let raw := TrimPrefix state prefix in
    if String.eqb raw "empty" || String.eqb raw EmptyString then Some ∅
    else match b64_decode raw with
         | None => None
         | Some data => unmarshal_map data
         end.
End Vectors.

(** ** Specification: replaying the history on the set of live ids *)

Definition apply_entry (live : gset string) (e : ChangeEntry) : gset string :=
  if String.eqb (ce_Action e) "create" then {[ce_ID e]} ∪ live
  else if String.eqb (ce_Action e) "destroy" then live ∖ {[ce_ID e]}
  else live.
Definition replay (live : gset string) (es : list ChangeEntry) : gset string := foldl apply_entry live es.

(** An entry the data model can produce: only a missing id is created, only a
    live one is updated or destroyed. *)
Definition entry_ok (live : gset string) (e : ChangeEntry) : Prop :=
  (ce_Action e = "create" /\ ce_ID e ∉ live)
  \/ ((ce_Action e = "update" \/ ce_Action e = "destroy") /\ ce_ID e ∈ live).
Fixpoint log_ok (live : gset string) (es : list ChangeEntry) : Prop :=
  match es with
  | [] => True
  | e :: es' => entry_ok live e /\ log_ok (apply_entry live e) es'
  end.

(** The states of the history are the consecutive ones after [base]. *)
Fixpoint consecutive (base : Z) (h : list ChangeEntry) : Prop :=
  match h with
  | [] => True
  | e :: h' => ce_State e = base + 1 /\ consecutive (base + 1) h'
  end.

(** The last state before the retained history. *)
Definition history_base (t : ChangeTracker) : Z := ct_counter t - Z.of_nat (length (ct_history t)).

Record tracker_inv (t : ChangeTracker) : Prop := {
  ti_range : 0 <= history_base t /\ ct_counter t < 2 ^ 64;
  ti_states : consecutive (history_base t) (ct_history t);
  ti_keep : 0 < ct_maxKeep t /\ Z.of_nat (length (ct_history t)) <= ct_maxKeep t;
  ti_empty : ct_counter t = 0 \/ ct_history t <> [];
}.

(** The retained entries after state [a] up to state [b]. *)
Definition entries_between (t : ChangeTracker) (a b : Z) : list ChangeEntry :=
  List.filter (fun e => (a <? ce_State e) && (ce_State e <=? b)) (ct_history t).

(** ** Lemmas: the history *)

Lemma consecutive_app base h1 h2 :
  consecutive base (h1 ++ h2) <-> consecutive base h1 /\ consecutive (base + Z.of_nat (length h1)) h2.
Proof.
  revert base. induction h1 as [|e h1 IH]; intros base; simpl.
  - rewrite Z.add_0_r. tauto.
  - rewrite IH. replace (base + Z.of_nat (S (length h1))) with (base + 1 + Z.of_nat (length h1)) by lia. tauto.
Qed.

Lemma consecutive_drop base h k :
  (k <= length h)%nat -> consecutive base h -> consecutive (base + Z.of_nat k) (drop k h).
Proof.
  intros Hk Hc. rewrite <- (take_drop k h), consecutive_app in Hc. destruct Hc as [_ Hc].
  by rewrite length_take_le in Hc.
Qed.

Lemma consecutive_lookup base h i e :
  consecutive base h -> h !! i = Some e -> ce_State e = base + 1 + Z.of_nat i.
Proof.
  revert base i. induction h as [|e' h IH]; intros base i; [done|]. intros [He Hc] Hl.
  destruct i as [|i]; simplify_eq/=; [lia|]. rewrite (IH _ _ Hc Hl). lia.
Qed.

Lemma consecutive_bounds base h e :
  consecutive base h -> e ∈ h -> base < ce_State e <= base + Z.of_nat (length h).
Proof.
  intros Hc [i Hi]%list_elem_of_lookup. rewrite (consecutive_lookup _ _ _ _ Hc Hi).
  apply lookup_lt_Some in Hi. lia.
Qed.

Lemma filter_all_false {A} (f : A -> bool) l : (forall x, x ∈ l -> f x = false) -> List.filter f l = [].
Proof. induction l as [|x l IH]; simpl; [done|]. intros Hf. rewrite Hf by set_solver. apply IH. set_solver. Qed.

Lemma filter_all_in {A} (f : A -> bool) l : (forall x, x ∈ l -> f x = true) -> List.filter f l = l.
Proof. induction l as [|x l IH]; simpl; [done|]. intros Hf. rewrite Hf, IH by set_solver. done. Qed.

Lemma skip_old_consecutive base h since :
  consecutive base h -> base <= since ->
  skip_old since h = Nat.min (Z.to_nat (since - base)) (length h).
Proof.
  revert base. induction h as [|e h IH]; intros base; simpl; [lia|]. intros [He Hc] Hs.
  destruct (ce_State e <=? since) eqn:E; bool_props.
  - rewrite (IH (base + 1)) by (done || lia). lia.
  - lia.
Qed.

(** The entries between two states are a segment of the history. *)
Lemma between_consecutive base h a b :
  consecutive base h -> base <= a -> a <= b -> b <= base + Z.of_nat (length h) ->
  List.filter (fun e => (a <? ce_State e) && (ce_State e <=? b)) h
  = take (Z.to_nat (b - a)) (drop (Z.to_nat (a - base)) h).
Proof.
  intros Hc Ha Hab Hb. set (i := Z.to_nat (a - base)). set (n := Z.to_nat (b - a)).
  assert (consecutive base (take i h ++ take n (drop i h) ++ drop n (drop i h))) as Hc'.
  { by rewrite take_drop, take_drop. }
  apply consecutive_app in Hc' as [H1 [H2 H3]%consecutive_app].
  rewrite length_take in H2. rewrite !length_take, length_drop in H3.
  rewrite <- (take_drop i h) at 1. rewrite <- (take_drop n (drop i h)) at 1. rewrite !List.filter_app.
  rewrite (filter_all_false _ (take i h)), (filter_all_in _ (take n _)), (filter_all_false _ (drop n _)).
  - by rewrite app_nil_r.
  - intros e He. apply (consecutive_bounds _ _ _ H3) in He.
    apply andb_false_intro2. apply Z.leb_gt. lia.
  - intros e He. apply (consecutive_bounds _ _ _ H2) in He. rewrite length_take, length_drop in He.
    apply andb_true_intro. rewrite Z.ltb_lt, Z.leb_le. lia.
  - intros e He. apply (consecutive_bounds _ _ _ H1) in He. rewrite length_take in He.
    apply andb_false_intro1. apply Z.ltb_ge. lia.
Qed.

(** ** Lemmas: state tokens *)

Lemma leading_digits_all s : str_forallb is_digit_ascii s = true -> leading_digits s = s.
Proof. induction s as [|c s IH]; simpl; [done|]. intros [-> Hs]%andb_prop. by rewrite IH. Qed.

Lemma digits_graphic s : str_forallb is_digit_ascii s = true -> str_forallb graphic s = true.
Proof.
  apply str_forallb_impl. intros c. unfold is_digit_ascii, graphic, byte_between.
  intros [H1 H2]%andb_prop. rewrite !Z.leb_le in *. apply andb_true_intro. rewrite !Z.leb_le. lia.
Qed.

Lemma sscanf_uint64_fmt n : 0 <= n < 2 ^ 64 -> sscanf_uint64 (fmt_d n) = Some n.
Proof.
  intros Hn. pose proof (fmt_d_digits n (proj1 Hn)) as Hd. pose proof (digits_graphic _ Hd) as Hg.
  pose proof (ParseUint_fmt_d n 64 ltac:(lia)) as Hp. set (d := fmt_d n) in *. unfold sscanf_uint64.
  assert (skip_blanks (slen d) d = Some d) as ->.
  { destruct (slen d); [done|]. cbn [skip_blanks].
    rewrite find_prefix_none by (done || by vm_compute).
    destruct (HasPrefix d (str_of ["010"%char])) eqn:E; [|done]. exfalso.
    apply HasPrefix_spec in E as [r E]. by rewrite E in Hg. }
  by rewrite leading_digits_all.
Qed.

(** The state of a tracker is read back from its token. *)
Lemma ParseNumericStateToken_token n :
  0 <= n < 2 ^ 64 -> ParseNumericStateToken (state_token n) = Some n.
Proof.
  intros Hn. pose proof (fmt_d_digits n (proj1 Hn)) as Hd. pose proof (digits_graphic _ Hd) as Hg.
  pose proof (sscanf_uint64_fmt n Hn) as Hs. unfold ParseNumericStateToken, state_token.
  change ("~" +:+ fmt_d n) with (String "~" (fmt_d n)).
  set (d := fmt_d n) in *.
  rewrite TrimSpace_graphic by (cbn [str_forallb]; by rewrite Hg).
  change (String.eqb (String "~" d) EmptyString || String.eqb (String "~" d) "0") with false. cbn iota.
  assert (TrimPrefix (String "~" d) "~" = d) as -> by apply (TrimPrefix_app "~").
  assert (TrimPrefix d "state-" = d) as ->; [|done].
  apply TrimPrefix_none, not_true_is_false. intros [r E]%HasPrefix_spec. by rewrite E in Hd.
Qed.

(** ** Lemmas: resolving a window *)

(** What the two maps know of every id after replaying from [live0] to [live]. *)
Definition window_inv (live0 live : gset string) (first : gmap string bool) (last : gmap string string)
  : Prop :=
  forall id,
    match last !! id with
    | None => id ∈ live <-> id ∈ live0
    | Some a =>
        first !! id = Some (bool_decide (id ∉ live0))
        /\ ((is_kept a = true /\ id ∈ live) \/ (a = "destroy" /\ id ∉ live))
    end.

Lemma window_step_inv live0 live first last e :
  window_inv live0 live first last -> entry_ok live e ->
  window_inv live0 (apply_entry live e) (fst (window_step (first, last) e)) (snd (window_step (first, last) e)).
Proof.
  intros Hinv Hok id. pose proof (Hinv id) as Hid. simpl.
  destruct (decide (ce_ID e = id)) as [<-|Hne].
  - rewrite lookup_insert_eq. unfold apply_entry. split.
    + destruct (last !! ce_ID e) as [a|]; [apply Hid|]. rewrite lookup_insert_eq. f_equal.
      destruct Hok as [[-> Hn]|[[-> | ->] Hn]]; simpl; symmetry;
        [apply bool_decide_eq_true|apply bool_decide_eq_false..]; set_solver.
    + destruct Hok as [[-> Hn]|[[-> | ->] Hn]]; simpl; set_solver.
  - rewrite lookup_insert_ne by done.
    assert (id ∈ apply_entry live e <-> id ∈ live) as Hl.
    { unfold apply_entry. repeat case_match; set_solver. }
    destruct (last !! id) as [a|]; [|by rewrite Hl].
    destruct Hid as [Hf Ha]. rewrite Hl. split; [|done].
    destruct (last !! ce_ID e); [done|]. by rewrite lookup_insert_ne.
Qed.

Lemma window_fold_inv es : forall live0 live first last,
  window_inv live0 live first last -> log_ok live es ->
  window_inv live0 (replay live es) (fst (foldl window_step (first, last) es))
             (snd (foldl window_step (first, last) es)).
Proof.
  induction es as [|e es IH]; intros live0 live first last Hinv Hok; [done|].
  destruct Hok as [He Hes]. cbn [foldl replay]. unfold replay. cbn [foldl].
  pose proof (window_step_inv _ _ _ _ _ Hinv He) as Hstep.
  destruct (window_step (first, last) e) as [f' l']. by apply IH.
Qed.

Lemma window_last_dom es : forall first last id,
  is_Some (snd (foldl window_step (first, last) es) !! id)
  <-> is_Some (last !! id) \/ id ∈ map ce_ID es.
Proof.
  induction es as [|e es IH]; intros first last id; [set_solver|]. cbn [foldl].
  unfold window_step at 2. rewrite IH. simpl. rewrite elem_of_cons, lookup_insert_is_Some'.
  intuition congruence.
Qed.

Lemma window_last_size es : forall first last,
  (size (snd (foldl window_step (first, last) es)) <= size last + length es)%nat.
Proof.
  induction es as [|e es IH]; intros first last; simpl; [lia|].
  etrans; [apply IH|]. rewrite map_size_insert. destruct (last !! ce_ID e); simpl; lia.
Qed.

Lemma pick_elem (first : gmap string bool) (last : gmap string string) (p : bool -> string -> bool) id :
  id ∈ pick first (map_to_list last) p
  <-> exists a, last !! id = Some a /\ p (default false (first !! id)) a = true.
Proof.
  unfold pick. rewrite list_elem_of_In, in_flat_map. split.
  - intros ([i a] & Hin & Hi). simpl in Hi. destruct (p _ a) eqn:E; [|done]. destruct Hi as [->|[]].
    exists a. by rewrite <- elem_of_map_to_list, list_elem_of_In.
  - intros (a & Hl & Hp). exists (id, a). rewrite <- list_elem_of_In, elem_of_map_to_list. simpl.
    rewrite Hp. simpl. auto.
Qed.

Lemma pick_NoDup (first : gmap string bool) (l : list (string * string)) (p : bool -> string -> bool) :
  NoDup (l.*1) -> NoDup (pick first l p).
Proof.
  unfold pick. induction l as [|[i a] l IH]; simpl; [constructor|]. intros [Hi Hl]%NoDup_cons.
  destruct (p _ a); [|by apply IH]. constructor; [|by apply IH].
  intros Hin. apply Hi. apply list_elem_of_In, in_flat_map in Hin as ([i2 a2] & Hin & Hi2).
  simpl in Hi2. destruct (p _ a2); [|done]. destruct Hi2 as [<-|[]].
  apply list_elem_of_fmap. exists (i2, a2). by rewrite list_elem_of_In.
Qed.

(** The three lists together have at most one entry per id of the window. *)
Lemma pick_length (first : gmap string bool) (l : list (string * string)) (p q r : bool -> string -> bool) :
  (forall f a, p f a = true -> q f a = false /\ r f a = false) -> (forall f a, q f a = true -> r f a = false) ->
  (length (pick first l p) + length (pick first l q) + length (pick first l r) <= length l)%nat.
Proof.
  intros Hp Hq. unfold pick. induction l as [|[i a] l IH]; simpl; [lia|]. rewrite !length_app.
  destruct (p _ a) eqn:Ep; [apply Hp in Ep as [-> ->]; simpl; lia|].
  destruct (q _ a) eqn:Eq; [apply Hq in Eq as ->; simpl; lia|]. destruct (r _ a); simpl; lia.
Qed.

(** The ids of a window, against the sets of live ids before and after it. *)
Definition window_diff (live after : gset string) (touched : list string)
    (created updated destroyed : list string) : Prop :=
  (forall id, id ∈ created <-> id ∈ after /\ id ∉ live)
  /\ (forall id, id ∈ destroyed <-> id ∈ live /\ id ∉ after)
  /\ (forall id, id ∈ updated <-> id ∈ live /\ id ∈ after /\ id ∈ touched)
  /\ NoDup created /\ NoDup updated /\ NoDup destroyed.

Lemma ex_Some {A} (a : A) (P : A -> Prop) : (exists x, Some a = Some x /\ P x) <-> P a.
Proof. split; [by intros (x & [= <-] & Hx)|eauto]. Qed.
Lemma ex_None {A} (P : A -> Prop) : (exists x, None = Some x /\ P x) <-> False.
Proof. split; [by intros (x & [=] & _)|done]. Qed.

Lemma resolve_window_diff live es created updated destroyed :
  log_ok live es -> resolve_window es = (created, updated, destroyed) ->
  window_diff live (replay live es) (map ce_ID es) created updated destroyed
  /\ (length created + length updated + length destroyed <= length es)%nat.
Proof.
  intros Hok Hr. unfold resolve_window in Hr.
  assert (window_inv live live ∅ ∅) as H0 by (intros id; by rewrite lookup_empty).
  pose proof (window_fold_inv es live live ∅ ∅ H0 Hok) as Hinv.
  pose proof (window_last_dom es ∅ ∅) as Hdom. pose proof (window_last_size es ∅ ∅) as Hsize.
  destruct (foldl window_step (∅, ∅) es) as [first last]. simpl in Hinv, Hdom, Hsize. simplify_eq.
  split; [|etrans; [apply pick_length|rewrite length_map_to_list; exact Hsize]].
  - split_and!; try (apply pick_NoDup, NoDup_fst_map_to_list);
      intros i; rewrite pick_elem; pose proof (Hinv i) as Hid; pose proof (Hdom i) as Hd;
      rewrite lookup_empty in Hd; clear Hinv Hdom Hok H0 Hsize; destruct (last !! i) as [a|].
    all: try (destruct Hid as [-> Hid]; simpl; destruct (decide (i ∈ live));
      [rewrite bool_decide_eq_false_2 by tauto|rewrite bool_decide_eq_true_2 by done]).
    all: rewrite ?ex_Some, ?ex_None.
    all: try (assert (i ∈ map ce_ID es) by (destruct (proj1 Hd ltac:(eauto)) as [[? [=]]|?]; done);
              destruct Hid as [[Hk Hin]|[-> Hin]]; rewrite ?Hk; rewrite ?(eq_refl : is_kept "destroy" = false);
              rewrite ?andb_true_iff; simpl;
              intuition congruence).
    all: assert (i ∉ map ce_ID es) by (intros ?; by destruct (proj2 Hd ltac:(auto))); tauto.
  - intros f a. destruct (is_kept a), f; naive_solver.
  - intros f a. destruct (is_kept a), f; naive_solver.
Qed.

(** ** Lemmas: the tracker *)

Lemma NewChangeTracker_inv maxKeep : tracker_inv (NewChangeTracker maxKeep).
Proof.
  unfold NewChangeTracker. split; unfold history_base; simpl; try done; [|by left].
  case_match; bool_props; lia.
Qed.

Lemma Record_inv t id action :
  tracker_inv t -> ct_counter t + 1 < 2 ^ 64 -> tracker_inv (fst (ChangeTracker_Record t id action)).
Proof.
  intros [[Hr1 Hr2] Hs [Hk1 Hk2] He] Hlt. unfold history_base in *.
  unfold ChangeTracker_Record. rewrite u64_small by lia.
  set (h := ct_history t ++ [mkEntry action id (ct_counter t + 1)]).
  assert (length h = S (length (ct_history t))) as Hl by (unfold h; rewrite length_app; simpl; lia).
  assert (consecutive (ct_counter t - Z.of_nat (length (ct_history t))) h) as Hc.
  { apply consecutive_app. simpl. split_and!; [done|lia|done]. }
  destruct (ct_maxKeep t <? Z.of_nat (length h)) eqn:E; bool_props; simpl.
  - split; unfold history_base; simpl; rewrite ?length_drop; [lia| |lia|].
    + replace (ct_counter t + 1 - Z.of_nat (length h - (length h - Z.to_nat (ct_maxKeep t))))
        with (ct_counter t - Z.of_nat (length (ct_history t))
              + Z.of_nat (length h - Z.to_nat (ct_maxKeep t))) by lia.
      apply consecutive_drop; [lia|done].
    + right. intros Hd. apply (f_equal length) in Hd. rewrite length_drop in Hd. simpl in Hd. lia.
  - split; unfold history_base; simpl; [lia| |lia|].
    + by replace (ct_counter t + 1 - Z.of_nat (length h))
        with (ct_counter t - Z.of_nat (length (ct_history t))) by lia.
    + right. intros Hd. by rewrite Hd in Hl.
Qed.

(** The window [Changes] resolves, with the state it ends in. *)
Lemma Changes_window t s since maxChanges :
  tracker_inv t -> ParseNumericStateToken s = Some since ->
  history_base t <= since -> since < ct_counter t ->
  match maxChanges with Some m => 1 <= m < 2 ^ 63 | None => True end ->
  exists n, since < n <= ct_counter t
    /\ match maxChanges with Some m => n <= since + m | None => n = ct_counter t end
    /\ ChangeTracker_Changes t s maxChanges
       = let '(c, u, d) := resolve_window (entries_between t since n) in
         mkChanges c u d (state_token n) (n <? ct_counter t).
Proof.
  intros [[Hr1 Hr2] Hs _ _] Hp Hb Hlt Hm. unfold history_base in *.
  set (h := ct_history t) in *. set (base := ct_counter t - Z.of_nat (length h)) in *.
  pose proof (skip_old_consecutive base h since Hs Hb) as Hstart.
  replace (Nat.min (Z.to_nat (since - base)) (length h)) with (Z.to_nat (since - base)) in Hstart by lia.
  unfold ChangeTracker_Changes. rewrite Hp. fold h.
  rewrite (proj2 (Z.eqb_neq _ _)), (proj2 (Z.leb_gt _ _)) by lia.
  rewrite Hstart, (proj2 (Nat.eqb_neq _ _)) by lia.
  assert (match h with
          | e :: _ => if since =? 0 then 1 <? ce_State e else u64 (since + 1) <? ce_State e
          | [] => false
          end = false) as ->.
  { destruct h as [|e h']; [done|]. destruct Hs as [He _].
    rewrite u64_small by lia. destruct (since =? 0) eqn:E0; bool_props; apply Z.ltb_ge; lia. }
  destruct maxChanges as [m|].
  - rewrite i64_small by lia. destruct (m <? _) eqn:E; bool_props.
    + exists (since + m). split_and!; [lia..|].
      rewrite (proj2 (Z.ltb_lt 0 _)), (proj2 (Z.ltb_lt (since + m) _)) by lia.
      destruct (h !! Z.to_nat (Z.of_nat (Z.to_nat (since - base)) + m - 1)) as [e|] eqn:El;
        [|apply lookup_ge_None in El; lia].
      rewrite (consecutive_lookup _ _ _ _ Hs El).
      unfold entries_between. fold h. rewrite (between_consecutive base) by (done || lia).
      replace (base + 1 + _) with (since + m) by lia.
      by replace (Z.to_nat (since + m - since))
        with (Z.to_nat (Z.of_nat (Z.to_nat (since - base)) + m - Z.of_nat (Z.to_nat (since - base)))) by lia.
    + exists (ct_counter t). rewrite Z.ltb_irrefl. split_and!; [lia..|].
      unfold entries_between. fold h. rewrite (between_consecutive base) by (done || lia).
      by replace (Z.to_nat (ct_counter t - since))
        with (Z.to_nat (Z.of_nat (length h) - Z.of_nat (Z.to_nat (since - base)))) by lia.
  - exists (ct_counter t). rewrite Z.ltb_irrefl. split_and!; [lia..|].
    unfold entries_between. fold h. rewrite (between_consecutive base) by (done || lia).
    by replace (Z.to_nat (ct_counter t - since))
      with (Z.to_nat (Z.of_nat (length h) - Z.of_nat (Z.to_nat (since - base)))) by lia.
Qed.

Lemma log_ok_app live es1 es2 :
  log_ok live (es1 ++ es2) <-> log_ok live es1 /\ log_ok (replay live es1) es2.
Proof.
  revert live. induction es1 as [|e es1 IH]; intros live; simpl; [tauto|]. rewrite IH. tauto.
Qed.

Lemma entries_split t a b c :
  tracker_inv t -> history_base t <= a -> a <= b -> b <= c -> c <= ct_counter t ->
  entries_between t a c = entries_between t a b ++ entries_between t b c
  /\ Z.of_nat (length (entries_between t a b)) = b - a.
Proof.
  intros [_ Hs _ _] Ha Hab Hbc Hc. unfold history_base in *.
  set (base := ct_counter t - Z.of_nat (length (ct_history t))) in *.
  unfold entries_between. rewrite !(between_consecutive base) by (done || lia). split.
  - replace (Z.to_nat (c - a)) with (Z.to_nat (b - a) + Z.to_nat (c - b))%nat by lia.
    replace (Z.to_nat (b - base)) with (Z.to_nat (a - base) + Z.to_nat (b - a))%nat by lia.
    by rewrite <- drop_drop, take_take_drop.
  - rewrite length_take, length_drop. lia.
Qed.

Lemma state_vector_roundtrip marshal_map unmarshal_map prefix old :
  unmarshal_map (marshal_map old) = Some old -> marshal_map old <> EmptyString ->
  DecodeStateVector unmarshal_map prefix (EncodeStateVector marshal_map prefix old) = Some old.
Proof.
  intros Hcodec Hne.
  unfold DecodeStateVector, EncodeStateVector.
  destruct (size old =? 0)%nat eqn:E; bool_props; rewrite HasPrefix_app, TrimPrefix_app; cbn [negb].
  + by apply map_size_empty_inv in E as ->.
  + rewrite (proj2 (String.eqb_neq _ "empty")), (proj2 (String.eqb_neq _ EmptyString)).
    * simpl. by rewrite b64_decode_encode.
    * intros H0. apply Hne. by apply (b64_encode_inj _ EmptyString).
    * intros H0. apply (f_equal slen) in H0. rewrite b64_encode_length in H0.
      change (slen "empty") with 5%nat in H0.
      pose proof (Nat.div_mod_eq (4 * slen (marshal_map old) + 2) 3).
      pose proof (Nat.mod_upper_bound (4 * slen (marshal_map old) + 2) 3). lia.
Qed.

Lemma DiffStateVectors_spec old cur :
  let '(created, updated, destroyed) := DiffStateVectors old cur in
  (forall id, id ∈ created <-> is_Some (cur !! id) /\ old !! id = None)
  /\ (forall id, id ∈ updated <-> exists f g, old !! id = Some f /\ cur !! id = Some g /\ f <> g)
  /\ (forall id, id ∈ destroyed <-> is_Some (old !! id) /\ cur !! id = None)
  /\ Sorted String.le created /\ Sorted String.le updated /\ Sorted String.le destroyed.
Proof.
  unfold DiffStateVectors, sort_ids.
  split_and!; try (apply Sorted_merge_sort; apply _); intros id; rewrite merge_sort_Permutation;
    rewrite list_elem_of_omap.
  + split.
    * intros ([k v] & Hin%elem_of_map_to_list & Hk). simpl in Hk. case_match; simplify_eq. eauto.
    * intros ([v Hv] & Ho). exists (id, v). rewrite elem_of_map_to_list. simpl. by rewrite Ho.
  + split.
    * intros ([k v] & Hin%elem_of_map_to_list & Hk). simpl in Hk.
      repeat (case_match; simplify_eq; bool_props). eauto.
    * intros (f & g & Hf & Hg & Hfg). exists (id, g). rewrite elem_of_map_to_list. simpl.
      rewrite Hf. by rewrite (proj2 (String.eqb_neq _ _) Hfg).
  + split.
    * intros ([k v] & Hin%elem_of_map_to_list & Hk). simpl in Hk. case_match; simplify_eq. eauto.
    * intros ([v Hv] & Ho). exists (id, v). rewrite elem_of_map_to_list. simpl. by rewrite Ho.
Qed.

(** ** Properties *)

(** C9: the changes reported since a state the history still covers are the
    difference between two sets of live objects: those at that state and those
    at the reported new state.  Created are exactly the ids alive after and not
    before, destroyed those alive before and not after, updated the touched
    ones alive at both; no id is listed twice; at most maxChanges ids are
    listed; the new state is later than the old one, and more changes are
    announced exactly when it is not the current state.  So repeating the call
    from the new state reaches the current state without losing a change. *)
Theorem changes_are_difference t s since maxChanges live :
  tracker_inv t -> ParseNumericStateToken s = Some since ->
  history_base t <= since -> since < ct_counter t ->
  match maxChanges with Some m => 1 <= m < 2 ^ 63 | None => True end ->
  log_ok live (entries_between t since (ct_counter t)) ->
  let r := ChangeTracker_Changes t s maxChanges in
  exists n, since < n <= ct_counter t
    /\ ch_newState r = state_token n /\ ParseNumericStateToken (ch_newState r) = Some n
    /\ ch_hasMore r = (n <? ct_counter t)
    /\ window_diff live (replay live (entries_between t since n)) (map ce_ID (entries_between t since n))
         (ch_created r) (ch_updated r) (ch_destroyed r)
    /\ match maxChanges with
       | Some m => Z.of_nat (length (ch_created r) + length (ch_updated r) + length (ch_destroyed r)) <= m
       | None => n = ct_counter t
       end
    /\ log_ok (replay live (entries_between t since n)) (entries_between t n (ct_counter t)).
Proof.
  intros Hinv Hp Hb Hlt Hm Hok. simpl.
  destruct (Changes_window t s since maxChanges Hinv Hp Hb Hlt Hm) as (n & Hn & Hmn & ->).
  destruct (entries_split t since n (ct_counter t) Hinv Hb) as [Hsplit Hlen]; [lia..|].
  rewrite Hsplit in Hok. apply log_ok_app in Hok as [Hok1 Hok2].
  destruct (resolve_window (entries_between t since n)) as [[c u] d] eqn:Er.
  destruct (resolve_window_diff live _ c u d Hok1 Er) as [Hd Hl].
  exists n. simpl. pose proof (ti_range t Hinv).
  split_and!; try done; [lia|lia| |].
  - apply ParseNumericStateToken_token. lia.
  - destruct maxChanges; lia.
Qed.

(** A tracker that keeps three entries, after three mutations. *)
Definition demo_tracker : ChangeTracker :=
  fst (ChangeTracker_Record (fst (ChangeTracker_Record
    (fst (ChangeTracker_Record (NewChangeTracker 3) "a" "create")) "b" "create")) "a" "destroy").

Lemma changes_are_difference_witness :
  exists n, 1 < n <= 3
    /\ ch_newState (ChangeTracker_Changes demo_tracker "~1" (Some 1)) = state_token n
    /\ ParseNumericStateToken (ch_newState (ChangeTracker_Changes demo_tracker "~1" (Some 1))) = Some n
    /\ ch_hasMore (ChangeTracker_Changes demo_tracker "~1" (Some 1)) = (n <? 3)
    /\ window_diff {["a"]} (replay {["a"]} (entries_between demo_tracker 1 n))
         (map ce_ID (entries_between demo_tracker 1 n))
         (ch_created (ChangeTracker_Changes demo_tracker "~1" (Some 1)))
         (ch_updated (ChangeTracker_Changes demo_tracker "~1" (Some 1)))
         (ch_destroyed (ChangeTracker_Changes demo_tracker "~1" (Some 1)))
    /\ Z.of_nat (length (ch_created (ChangeTracker_Changes demo_tracker "~1" (Some 1)))
                 + length (ch_updated (ChangeTracker_Changes demo_tracker "~1" (Some 1)))
                 + length (ch_destroyed (ChangeTracker_Changes demo_tracker "~1" (Some 1)))) <= 1
    /\ log_ok (replay {["a"]} (entries_between demo_tracker 1 n)) (entries_between demo_tracker n 3).
Proof.
  apply (changes_are_difference demo_tracker "~1" 1 (Some 1) {["a"]}).
  - unfold demo_tracker. do 3 (apply Record_inv; [|vm_compute; reflexivity]). apply NewChangeTracker_inv.
  - vm_compute. reflexivity.
  - vm_compute. discriminate.
  - vm_compute. reflexivity.
  - lia.
  - assert (entries_between demo_tracker 1 (ct_counter demo_tracker)
            = [mkEntry "create" "b" 2; mkEntry "destroy" "a" 3]) as -> by (vm_compute; reflexivity).
    simpl. split_and!; [left|right|done]; simpl; unfold apply_entry; simpl; set_solver.
Defined.

(** C40: a client that is behind the retained history silently loses changes.
    The answer to a state before the first retained entry reports the retained
    entries only, announces more changes, and yet gives the current state as
    the new state: asking again from it reports no change at all, so the
    mutations that were discarded are never reported. *)
Theorem pruned_history_loses_changes t s since :
  tracker_inv t -> ParseNumericStateToken s = Some since ->
  0 <= since -> since < history_base t -> ct_history t <> [] ->
  let r := ChangeTracker_Changes t s None in
  ch_newState r = state_token (ct_counter t) /\ ch_hasMore r = true
  /\ (let '(c, u, d) := resolve_window (ct_history t) in
      ch_created r = c /\ ch_updated r = u /\ ch_destroyed r = d)
  /\ ChangeTracker_Changes t (ch_newState r) None = mkChanges [] [] [] (ch_newState r) false.
Proof.
  intros [[Hr1 Hr2] Hs _ _] Hp H0 Hb Hne. simpl.
  destruct (ct_history t) as [|e h] eqn:Eh; [done|]. unfold history_base in *. rewrite Eh in *.
  cbn [length] in *. destruct Hs as [He _].
  assert (ChangeTracker_Changes t s None
          = let '(c, u, d) := resolve_window (e :: h) in
            mkChanges c u d (state_token (ct_counter t)) true) as ->.
  { unfold ChangeTracker_Changes. rewrite Hp, Eh.
    rewrite (proj2 (Z.eqb_neq _ _)), (proj2 (Z.leb_gt _ _)) by lia.
    assert (skip_old since (e :: h) = 0%nat) as -> by (simpl; rewrite (proj2 (Z.leb_gt _ _)) by lia; done).
    cbn [length Nat.eqb]. rewrite u64_small by lia.
    replace (if since =? 0 then 1 <? ce_State e else since + 1 <? ce_State e) with true
      by (destruct (since =? 0) eqn:E0; bool_props; symmetry; apply Z.ltb_lt; lia).
    rewrite drop_0, take_ge by (cbn [length]; lia). done. }
  destruct (resolve_window (e :: h)) as [[c u] d]. simpl. split_and!; try done.
  unfold ChangeTracker_Changes. rewrite ParseNumericStateToken_token by lia.
  by rewrite (proj2 (Z.eqb_neq _ _)), Z.leb_refl by lia.
Qed.

Lemma pruned_history_loses_changes_witness :
  ch_hasMore (ChangeTracker_Changes (fst (ChangeTracker_Record demo_tracker "c" "create")) "0" None) = true.
Proof.
  apply (pruned_history_loses_changes (fst (ChangeTracker_Record demo_tracker "c" "create")) "0" 0).
  - unfold demo_tracker. do 4 (apply Record_inv; [|vm_compute; reflexivity]). apply NewChangeTracker_inv.
  - vm_compute. reflexivity.
  - lia.
  - vm_compute. reflexivity.
  - vm_compute. discriminate.
Defined.

(** a state vector is read back from its token, and the difference of two
    vectors is exact: created, updated and destroyed ids are those that are
    new, have another fingerprint, and are gone; each list is sorted.  In
    particular the difference between the decoded token of a vector and the
    vector itself is empty. *)
Theorem state_vector_diff_exact marshal_map unmarshal_map prefix old cur :
  unmarshal_map (marshal_map old) = Some old -> marshal_map old <> EmptyString ->
  DecodeStateVector unmarshal_map prefix (EncodeStateVector marshal_map prefix old) = Some old
  /\ let '(created, updated, destroyed) := DiffStateVectors old cur in
     (forall id, id ∈ created <-> is_Some (cur !! id) /\ old !! id = None)
     /\ (forall id, id ∈ updated <-> exists f g, old !! id = Some f /\ cur !! id = Some g /\ f <> g)
     /\ (forall id, id ∈ destroyed <-> is_Some (old !! id) /\ cur !! id = None)
     /\ Sorted String.le created /\ Sorted String.le updated /\ Sorted String.le destroyed.
Proof. intros. split; [by apply state_vector_roundtrip|apply DiffStateVectors_spec]. Qed.

Lemma state_vector_diff_exact_witness :
  DecodeStateVector (fun _ => Some {["e1" := "fp"]}) "ab-v1:"
    (EncodeStateVector (fun _ => "m") "ab-v1:" {["e1" := "fp"]}) = Some {["e1" := "fp"]}.
Proof.
  apply (state_vector_diff_exact (fun _ => "m") (fun _ => Some {["e1" := "fp"]}) "ab-v1:" {["e1" := "fp"]} ∅);
    [reflexivity | discriminate].
Defined.
