(* ===== verification/Broadcaster.v ===== *)
(** * Push notifications

    [jmap/jmappush/broadcaster.go]: the registry of push subscribers as a state
    machine, one step per method of [Broadcaster] (each runs under its mutex)
    and one for the reader of a channel; and the filters that the two push
    transports apply to a received event, [jmap/eventsource.go] and the push
    loop of [jmap/websocket.go].

    A channel is a fresh number with the list of its buffered events: its
    capacity is ten, a send to a full channel is dropped.  The callbacks that
    Go starts in goroutines of their own are the notifications a step emits. *)

From S2P Require Import Prelude GoStrings Base64 Json Query Handler.
From Stdlib Require Import Ascii.

Record StateChange : Type := mkStateChange {
  sc_Type : string;
  sc_Changed : gmap string (gmap string string);
}.

Record CalendarAlert : Type := mkAlert {
  al_Type : string;
  al_AccountID : string;
  al_CalendarEventID : string;
  al_UID : string;
  al_RecurrenceID : option string;
  al_AlertID : string;
}.

(** What the listeners are told; a listener is known by its index. *)
Inductive notification : Type :=
| OnSubscribe (listener : nat) (accountID : string)
| OnUnsubscribe (listener : nat) (accountID : string)
| OnStateChange (listener : nat) (accountID typeName newState : string).

Record Broadcaster : Type := mkBroadcaster {
  b_fresh : nat;
  b_subscribers : gmap nat (string * list StateChange);
  b_alertSubscribers : gmap nat (string * list CalendarAlert);
  b_accountCounts : gmap string Z;
  b_listeners : nat;
  b_subListeners : nat;
}.

Definition NewBroadcaster : Broadcaster := mkBroadcaster 0 ∅ ∅ ∅ 0 0.

Definition AddListener (b : Broadcaster) : Broadcaster :=
  mkBroadcaster (b_fresh b) (b_subscribers b) (b_alertSubscribers b) (b_accountCounts b)
    (S (b_listeners b)) (b_subListeners b).
Definition AddSubscriptionListener (b : Broadcaster) : Broadcaster :=
  mkBroadcaster (b_fresh b) (b_subscribers b) (b_alertSubscribers b) (b_accountCounts b)
    (b_listeners b) (S (b_subListeners b)).

Definition count_of (b : Broadcaster) (accountID : string) : Z := default 0 (b_accountCounts b !! accountID).

Definition HasSubscribersForAccount (b : Broadcaster) (accountID : string) : bool :=
  if (0 <? b_listeners b)%nat then true
  else if String.eqb accountID EmptyString then (0 <? size (b_subscribers b))%nat
  else (0 <? count_of b accountID) || (0 <? count_of b EmptyString).

(** [Subscribe]; no argument is the empty account. *)
Definition Subscribe (b : Broadcaster) (acct : string) : Broadcaster * nat * list notification :=
  let ch := b_fresh b in
  let n := count_of b acct + 1 in
  (mkBroadcaster (S ch) (<[ch := (acct, [])]> (b_subscribers b)) (b_alertSubscribers b)
     (<[acct := n]> (b_accountCounts b)) (b_listeners b) (b_subListeners b),
   ch,
   if n =? 1 then map (fun i => OnSubscribe i acct) (seq 0 (b_subListeners b)) else []).

Definition Unsubscribe (b : Broadcaster) (ch : nat) : Broadcaster * list notification :=
  match b_subscribers b !! ch with
  | None => (b, [])
  | Some (acct, _) =>
      let n := count_of b acct - 1 in
      let counts := if n <=? 0 then delete acct (b_accountCounts b)
                    else <[acct := n]> (b_accountCounts b) in
      (mkBroadcaster (b_fresh b) (delete ch (b_subscribers b)) (b_alertSubscribers b) counts
         (b_listeners b) (b_subListeners b),
       if n <=? 0 then map (fun i => OnUnsubscribe i acct) (seq 0 (b_subListeners b)) else [])
  end.

(** The [select] with a default case: a send that finds the buffer full is dropped. *)
Definition chan_cap : nat := 10.
Definition try_send {E : Type} (ev : E) (buf : list E) : list E :=
  if (length buf <? chan_cap)%nat then buf ++ [ev] else buf.

Definition PublishStateChanges (b : Broadcaster) (accountID : string) (changes : gmap string string)
  : Broadcaster * list notification :=
  if (size changes =? 0)%nat then (b, [])
  else
    let event := mkStateChange "StateChange" {[accountID := changes]} in
    (mkBroadcaster (b_fresh b) ((fun s => (fst s, try_send event (snd s))) <$> b_subscribers b)
       (b_alertSubscribers b) (b_accountCounts b) (b_listeners b) (b_subListeners b),
     flat_map (fun i => map (fun ts => OnStateChange i accountID (fst ts) (snd ts)) (map_to_list changes))
       (seq 0 (b_listeners b))).
Definition PublishStateChange (b : Broadcaster) (accountID typeName newState : string)
  : Broadcaster * list notification :=
  PublishStateChanges b accountID {[typeName := newState]}.

Definition SubscribeAlerts (b : Broadcaster) (acct : string) : Broadcaster * nat :=
  let ch := b_fresh b in
  (mkBroadcaster (S ch) (b_subscribers b) (<[ch := (acct, [])]> (b_alertSubscribers b))
     (b_accountCounts b) (b_listeners b) (b_subListeners b), ch).

Definition UnsubscribeAlerts (b : Broadcaster) (ch : nat) : Broadcaster :=
  match b_alertSubscribers b !! ch with
  | None => b
  | Some _ =>
      mkBroadcaster (b_fresh b) (b_subscribers b) (delete ch (b_alertSubscribers b))
        (b_accountCounts b) (b_listeners b) (b_subListeners b)
  end.

Definition alert_matches (acct : string) (alert : CalendarAlert) : bool :=
  String.eqb acct EmptyString || String.eqb acct (al_AccountID alert)
  || String.eqb (AccountIDForSubject acct) (al_AccountID alert)
  || String.eqb (AccountIDForSubject (al_AccountID alert)) acct.
Definition PublishCalendarAlert (b : Broadcaster) (alert : CalendarAlert) : Broadcaster :=
  mkBroadcaster (b_fresh b) (b_subscribers b)
    ((fun s => if alert_matches (fst s) alert then (fst s, try_send alert (snd s)) else s)
     <$> b_alertSubscribers b)
    (b_accountCounts b) (b_listeners b) (b_subListeners b).

(** ** The filters of the transports *)

(** The account whose key an event entry is sent under, for the reader of an
    event stream; [None] when the entry is another account's. *)
Definition sse_match (principal subject accID : string) : bool :=
  String.eqb principal EmptyString || String.eqb accID principal
  || String.eqb (AccountIDForSubject accID) principal
  || (negb (String.eqb subject EmptyString) && String.eqb accID subject).

(** The types parameter: [None] is the star. *)
Definition type_wanted (types : option (list string)) (tName : string) : bool :=
  match types with None => true | Some ts => str_in tName ts end.

(** [handleEventSource]: the event to send, if any. *)
Definition sse_entry (principal subject : string) (types : option (list string))
    (acc : gmap string (gmap string string)) (at_ : string * gmap string string)
  : gmap string (gmap string string) :=
  let '(accID, typeMap) := at_ in
  if negb (sse_match principal subject accID) then acc
  else
    let target := if negb (String.eqb principal EmptyString) then principal else accID in
    let filteredMap := base.filter (fun kv => type_wanted types (fst kv) = true) typeMap in
    if (0 <? size filteredMap)%nat
    then <[target := filteredMap ∪ default ∅ (acc !! target)]> acc else acc.
Definition sse_filter (principal subject : string) (types : option (list string)) (ev : StateChange)
  : option StateChange :=
  let filteredChanged := foldl (sse_entry principal subject types) ∅ (map_to_list (sc_Changed ev)) in
  if (size filteredChanged =? 0)%nat then None else Some (mkStateChange "StateChange" filteredChanged).

(** The push loop of a WebSocket; an empty list of types is all types. *)
Definition ws_filter (pushTypes : list string) (ev : StateChange) : option StateChange :=
  if (length pushTypes =? 0)%nat then Some ev
  else
    let filtered := omap (fun types =>
        let ft := base.filter (fun kv => str_in (fst kv) pushTypes = true) types in
        if (0 <? size ft)%nat then Some ft else None) (sc_Changed ev) in
    if (size filtered =? 0)%nat then None else Some (mkStateChange "StateChange" filtered).

(** ** The state machine *)

Inductive step : Broadcaster -> list notification -> Broadcaster -> Prop :=
| step_AddListener b : step b [] (AddListener b)
| step_AddSubscriptionListener b : step b [] (AddSubscriptionListener b)
| step_Subscribe b acct b' ch out : Subscribe b acct = (b', ch, out) -> step b out b'
| step_Unsubscribe b ch b' out : Unsubscribe b ch = (b', out) -> step b out b'
| step_Publish b acct changes b' out : PublishStateChanges b acct changes = (b', out) -> step b out b'
| step_SubscribeAlerts b acct b' ch : SubscribeAlerts b acct = (b', ch) -> step b [] b'
| step_UnsubscribeAlerts b ch : step b [] (UnsubscribeAlerts b ch)
| step_PublishAlert b alert : step b [] (PublishCalendarAlert b alert)
| step_Receive b ch acct ev buf :
    b_subscribers b !! ch = Some (acct, ev :: buf) ->
    step b [] (mkBroadcaster (b_fresh b) (<[ch := (acct, buf)]> (b_subscribers b)) (b_alertSubscribers b)
                 (b_accountCounts b) (b_listeners b) (b_subListeners b)).

Inductive reachable : Broadcaster -> list notification -> Prop :=
| reach_init : reachable NewBroadcaster []
| reach_step b tr out b' : reachable b tr -> step b out b' -> reachable b' (tr ++ out).

(** ** The invariant *)

Definition subscribers_of (subs : gmap nat (string * list StateChange)) (acct : string) : nat :=
  size (base.filter (fun kv => fst (snd kv) = acct) subs).

Record binv (b : Broadcaster) : Prop := {
  bi_counts : forall acct,
    b_accountCounts b !! acct
    = if decide (subscribers_of (b_subscribers b) acct = 0%nat) then None
      else Some (Z.of_nat (subscribers_of (b_subscribers b) acct));
  bi_fresh : forall ch, is_Some (b_subscribers b !! ch) -> (ch < b_fresh b)%nat;
  bi_buffers : forall ch acct buf, b_subscribers b !! ch = Some (acct, buf) -> (length buf <= chan_cap)%nat;
}.

Lemma count_of_subscribers b acct :
  binv b -> count_of b acct = Z.of_nat (subscribers_of (b_subscribers b) acct).
Proof. intros Hb. unfold count_of. rewrite (bi_counts b Hb). case_decide; simpl; lia. Qed.

Lemma subscribers_insert subs ch a buf acct :
  subs !! ch = None ->
  subscribers_of (<[ch := (a, buf)]> subs) acct
  = ((if decide (a = acct) then 1 else 0) + subscribers_of subs acct)%nat.
Proof.
  intros Hch. unfold subscribers_of. case_decide.
  - rewrite map_filter_insert_True by done. rewrite map_size_insert_None; [done|].
    apply map_lookup_filter_None. by left.
  - rewrite map_filter_insert_False by done. by rewrite delete_id.
Qed.

Lemma subscribers_delete subs ch a buf acct :
  subs !! ch = Some (a, buf) ->
  subscribers_of subs acct
  = ((if decide (a = acct) then 1 else 0) + subscribers_of (delete ch subs) acct)%nat.
Proof.
  intros Hch. rewrite <- (insert_delete_id _ _ _ Hch) at 1. apply subscribers_insert, lookup_delete_eq.
Qed.

(** Replacing the buffers leaves the counts. *)
Lemma subscribers_fmap (f : string * list StateChange -> string * list StateChange) subs acct :
  (forall s, fst (f s) = fst s) -> subscribers_of (f <$> subs) acct = subscribers_of subs acct.
Proof.
  intros Hf. unfold subscribers_of. rewrite map_filter_fmap, map_size_fmap. f_equal.
  apply map_filter_ext. intros i x _. simpl. by rewrite Hf.
Qed.

Lemma binv_init : binv NewBroadcaster.
Proof.
  split; simpl.
  - intros acct. unfold subscribers_of. rewrite map_filter_empty. by rewrite lookup_empty.
  - intros ch [? Hc]. by rewrite lookup_empty in Hc.
  - intros ch acct buf. by rewrite lookup_empty.
Qed.

Lemma binv_Subscribe b acct b' ch out :
  binv b -> Subscribe b acct = (b', ch, out) -> binv b'.
Proof.
  intros Hb [= <- <- <-].
  assert (b_subscribers b !! b_fresh b = None) as Hfresh.
  { destruct (b_subscribers b !! b_fresh b) eqn:E; [|done].
    pose proof (bi_fresh b Hb (b_fresh b) ltac:(eauto)). lia. }
  split; simpl.
  - intros a. rewrite subscribers_insert by done. rewrite lookup_insert, (count_of_subscribers b) by done.
    rewrite (bi_counts b Hb a).
    repeat case_decide; subst; simpl in *; try done; try lia; f_equal; lia.
  - intros c. rewrite lookup_insert_is_Some'. intros [<-|Hc]; [lia|]. apply (bi_fresh b Hb) in Hc. lia.
  - intros c a buf. rewrite lookup_insert. case_decide; [|apply (bi_buffers b Hb)].
    intros [= <- <-]. simpl. unfold chan_cap. lia.
Qed.

Lemma binv_Unsubscribe b ch b' out : binv b -> Unsubscribe b ch = (b', out) -> binv b'.
Proof.
  intros Hb. unfold Unsubscribe. destruct (b_subscribers b !! ch) as [[acct buf]|] eqn:E; [|by intros [= <- <-]].
  intros [= <- <-]. pose proof (fun a => subscribers_delete _ _ _ _ a E) as Hdel.
  assert (count_of b acct - 1 = Z.of_nat (subscribers_of (delete ch (b_subscribers b)) acct)) as Hn.
  { rewrite count_of_subscribers, (Hdel acct), decide_True by done. lia. }
  split; simpl.
  - intros a. rewrite Hn. pose proof (bi_counts b Hb a) as Ha. rewrite (Hdel a) in Ha.
    destruct (Z.of_nat _ <=? 0) eqn:El; bool_props;
      rewrite ?lookup_delete, ?lookup_insert; repeat case_decide; subst; simpl in *; try done; try lia;
      rewrite ?Ha; repeat case_decide; f_equal; lia.
  - intros c. rewrite lookup_delete_is_Some. intros [_ Hc]. by apply (bi_fresh b Hb).
  - intros c a bf. rewrite lookup_delete. case_decide; [done|]. apply (bi_buffers b Hb).
Qed.

Lemma try_send_length {E} (ev : E) buf : (length buf <= chan_cap)%nat -> (length (try_send ev buf) <= chan_cap)%nat.
Proof. unfold try_send, chan_cap. destruct (Nat.ltb_spec (length buf) 10); rewrite ?length_app; simpl; lia. Qed.

Lemma binv_Publish b acct changes b' out :
  binv b -> PublishStateChanges b acct changes = (b', out) -> binv b'.
Proof.
  intros Hb. unfold PublishStateChanges. case_match; intros [= <- <-]; [done|]. split; simpl.
  - intros a. rewrite subscribers_fmap by done. apply (bi_counts b Hb).
  - intros c. rewrite lookup_fmap, fmap_is_Some. apply (bi_fresh b Hb).
  - intros c a buf. rewrite lookup_fmap, fmap_Some. intros ([a' bf] & Hl & [= <- ->]).
    apply try_send_length. by apply (bi_buffers b Hb) in Hl.
Qed.

Lemma step_inv b out b' : binv b -> step b out b' -> binv b'.
Proof.
  intros Hb Hs. destruct Hs.
  - destruct Hb; by split.
  - destruct Hb; by split.
  - by eapply binv_Subscribe.
  - by eapply binv_Unsubscribe.
  - by eapply binv_Publish.
  - match goal with E : SubscribeAlerts _ _ = _ |- _ => injection E as <- <- end.
    destruct Hb as [H1 H2 H3]. split; simpl; [done| |done]. intros c Hc. apply H2 in Hc. lia.
  - unfold UnsubscribeAlerts. case_match; [|done]. destruct Hb; by split.
  - destruct Hb; by split.
  - match goal with E : _ !! _ = Some _ |- _ => rename E into Hch end.
    assert (<[ch := (acct, buf)]> (b_subscribers b)
            = (<[ch := (acct, buf)]> (delete ch (b_subscribers b)))) as Hset by (by rewrite insert_delete_eq).
    split; simpl.
    + intros a. rewrite Hset, subscribers_insert by apply lookup_delete_eq.
      rewrite <- (subscribers_delete _ _ _ _ a Hch). apply (bi_counts b Hb).
    + intros c. rewrite lookup_insert_is_Some'. intros [<-|Hc]; apply (bi_fresh b Hb); eauto.
    + intros c a bf. rewrite lookup_insert. case_decide; [|apply (bi_buffers b Hb)].
      intros [= <- <-]. apply (bi_buffers b Hb) in Hch. simpl in Hch. lia.
Qed.

Lemma reachable_inv b tr : reachable b tr -> binv b.
Proof. induction 1; [apply binv_init | by eapply step_inv]. Qed.

(** ** Notifications *)

(** Subscriptions minus unsubscriptions that listener [i] was told for [acct]. *)
Definition note_val (i : nat) (acct : string) (n : notification) : Z :=
  match n with
  | OnSubscribe j a => if decide (j = i /\ a = acct) then 1 else 0
  | OnUnsubscribe j a => if decide (j = i /\ a = acct) then -1 else 0
  | OnStateChange _ _ _ _ => 0
  end.
Definition net (i : nat) (acct : string) (tr : list notification) : Z :=
  foldr (fun n z => note_val i acct n + z) 0 tr.

Lemma net_app i acct tr1 tr2 : net i acct (tr1 ++ tr2) = net i acct tr1 + net i acct tr2.
Proof. induction tr1 as [|n tr IH]; simpl; [done|]. rewrite IH. lia. Qed.

(** One notification to every listener of [seq k n]. *)
Lemma net_broadcast i acct (f : nat -> notification) v k n :
  (forall j, note_val i acct (f j) = if decide (j = i) then v else 0) ->
  net i acct (map f (seq k n)) = if decide (k <= i < k + n)%nat then v else 0.
Proof.
  intros Hf. revert k. induction n as [|n IH]; intros k; simpl; [by rewrite decide_False by lia|].
  rewrite Hf, IH. repeat case_decide; lia.
Qed.

Lemma net_zero i acct tr : (forall n, n ∈ tr -> note_val i acct n = 0) -> net i acct tr = 0.
Proof. induction tr as [|n tr IH]; simpl; [done|]. intros Hn. rewrite Hn, IH by set_solver. done. Qed.

(** Whether the account has a subscriber, as a number. *)
Definition active (b : Broadcaster) (acct : string) : Z :=
  if decide (subscribers_of (b_subscribers b) acct = 0%nat) then 0 else 1.

Lemma step_net b out b' i acct :
  binv b -> (i < b_subListeners b)%nat -> step b out b' ->
  net i acct out = active b' acct - active b acct /\ (i < b_subListeners b')%nat.
Proof.
  intros Hb Hi Hs. assert (binv b') as Hb' by (by eapply step_inv).
  destruct Hs; unfold active; simpl; try (split; [lia|simpl; lia]).
  - match goal with E : Subscribe _ _ = _ |- _ => injection E as <- <- <- end. simpl. split; [|done].
    assert (b_subscribers b !! b_fresh b = None) as Hfresh.
    { destruct (b_subscribers b !! b_fresh b) eqn:E; [|done].
      pose proof (bi_fresh b Hb (b_fresh b) ltac:(eauto)). lia. }
    rewrite subscribers_insert by done. rewrite (count_of_subscribers b acct0) by done.
    destruct (Z.of_nat _ + 1 =? 1) eqn:E1; bool_props.
    + rewrite (net_broadcast i acct _ (if decide (acct0 = acct) then 1 else 0)).
      * rewrite decide_True by lia. destruct (decide (acct0 = acct)); subst; repeat case_decide; lia.
      * intros j. simpl. repeat case_decide; naive_solver.
    + simpl. destruct (decide (acct0 = acct)); subst; repeat case_decide; lia.
  - match goal with E : Unsubscribe _ _ = _ |- _ => unfold Unsubscribe in E end.
    destruct (b_subscribers b !! ch) as [[a buf]|] eqn:E; simplify_eq; [|split; [simpl; lia|done]].
    simpl. split; [|done]. pose proof (fun a' => subscribers_delete _ _ _ _ a' E) as Hdel.
    assert (count_of b a - 1 = Z.of_nat (subscribers_of (delete ch (b_subscribers b)) a)) as Hn.
    { rewrite count_of_subscribers, (Hdel a), decide_True by done. lia. }
    rewrite Hn, (Hdel acct). destruct (Z.of_nat _ <=? 0) eqn:E1; bool_props.
    + rewrite (net_broadcast i acct _ (if decide (a = acct) then -1 else 0)).
      * rewrite decide_True by lia. destruct (decide (a = acct)); subst; repeat case_decide; lia.
      * intros j. simpl. repeat case_decide; naive_solver.
    + simpl. destruct (decide (a = acct)); subst; repeat case_decide; lia.
  - match goal with E : PublishStateChanges _ _ _ = _ |- _ => unfold PublishStateChanges in E end.
    case_match; simplify_eq; simpl; [split; [lia|done]|].
    rewrite subscribers_fmap by done. split; [|done]. rewrite net_zero; [lia|].
    intros n Hn. apply list_elem_of_In, in_flat_map in Hn as (j & _ & Hn).
    apply in_map_iff in Hn as ([t s] & <- & _). done.
  - match goal with E : SubscribeAlerts _ _ = _ |- _ => injection E as <- <- end. simpl. split; [lia|done].
  - unfold UnsubscribeAlerts. destruct (b_alertSubscribers b !! ch); simpl; (split; [lia|done]).
  - match goal with E : _ !! _ = Some _ |- _ => rename E into Hch end.
    rewrite <- (insert_delete_eq (b_subscribers b)), subscribers_insert by apply lookup_delete_eq.
    rewrite <- (subscribers_delete _ _ _ _ acct Hch). split; [|done]. case_decide; lia.
Qed.

Inductive steps : Broadcaster -> list notification -> Broadcaster -> Prop :=
| steps_refl b : steps b [] b
| steps_cons b1 out b2 tr b3 : step b1 out b2 -> steps b2 tr b3 -> steps b1 (out ++ tr) b3.

Lemma subscribers_pos subs acct :
  (0 < subscribers_of subs acct)%nat <-> exists ch buf, subs !! ch = Some (acct, buf).
Proof.
  unfold subscribers_of. split.
  - intros Hs. destruct (map_choose (base.filter (fun kv => fst (snd kv) = acct) subs)) as (ch & [a buf] & Hch).
    + intros He. rewrite He, map_size_empty in Hs. lia.
    + apply map_lookup_filter_Some in Hch as [Hch Ha]. simpl in Ha. subst a. eauto.
  - intros (ch & buf & Hch).
    destruct (decide (size (base.filter (fun kv => fst (snd kv) = acct) subs) = 0%nat)) as [Hz|]; [|lia].
    apply map_size_empty_inv in Hz. exfalso.
    apply (map_filter_empty_not_lookup _ _ ch (acct, buf) Hz); done.
Qed.

(** What the fold of [sse_filter] collects. *)
Definition sse_own (principal subject : string) (types : option (list string)) (ev : StateChange)
    (acc : gmap string (gmap string string)) : Prop :=
  forall accID typeMap, acc !! accID = Some typeMap ->
  accID = principal
  /\ forall tName token, typeMap !! tName = Some token ->
       type_wanted types tName = true
       /\ exists a tm, sc_Changed ev !! a = Some tm /\ tm !! tName = Some token
                       /\ sse_match principal subject a = true.

Lemma sse_fold_own principal subject types ev l : forall acc,
  principal <> EmptyString -> (forall p, p ∈ l -> sc_Changed ev !! fst p = Some (snd p)) ->
  sse_own principal subject types ev acc ->
  sse_own principal subject types ev (foldl (sse_entry principal subject types) acc l).
Proof.
  induction l as [|[a tm] l IH]; intros acc Hp Hl Hacc; simpl; [done|].
  apply IH; [done|set_solver|]. unfold sse_entry.
  destruct (sse_match principal subject a) eqn:Em; [|done]. cbn [negb].
  rewrite (proj2 (String.eqb_neq _ _) Hp). cbn [negb].
  destruct (0 <? size _)%nat; [|done].
  intros k v. rewrite lookup_insert. case_decide; [|apply Hacc]. intros [= <-]. split; [done|].
  intros tName token. rewrite lookup_union_Some_raw, map_lookup_filter_Some. intros [[Ht Hw]|[_ Hd]].
  - split; [done|]. exists a, tm. split_and!; [|done|done]. apply (Hl (a, tm)). set_solver.
  - destruct (acc !! principal) as [m|] eqn:Em2; simpl in Hd; [|by rewrite lookup_empty in Hd].
    by apply (Hacc _ _ Em2).
Qed.

(** ** Properties *)

(** C14: in every state the broadcaster can reach, whatever the interleaving of
    its operations, an account is reported to have subscribers exactly when a
    listener is registered or a live channel is subscribed to that account or
    to all accounts; and no channel buffers more than its ten events. *)
Theorem has_subscribers_exact b tr acct :
  reachable b tr ->
  (HasSubscribersForAccount b acct = true <->
   (0 < b_listeners b)%nat
   \/ exists ch a buf, b_subscribers b !! ch = Some (a, buf)
        /\ (acct = EmptyString \/ a = acct \/ a = EmptyString))
  /\ forall ch a buf, b_subscribers b !! ch = Some (a, buf) -> (length buf <= chan_cap)%nat.
Proof.
  intros Hr. pose proof (reachable_inv b tr Hr) as Hb. split; [|apply (bi_buffers b Hb)].
  unfold HasSubscribersForAccount. rewrite !count_of_subscribers by done.
  destruct (Nat.ltb_spec 0 (b_listeners b)); [tauto|].
  destruct (String.eqb acct EmptyString) eqn:E; bool_props.
  - rewrite Nat.ltb_lt. split.
    + intros Hs. right. destruct (map_choose (b_subscribers b)) as (ch & [a buf] & Hch); [|eauto 8].
      intros He. rewrite He, map_size_empty in Hs. lia.
    + intros [?|(ch & a & buf & Hch & _)]; [lia|].
      destruct (decide (size (b_subscribers b) = 0%nat)) as [Hz|]; [|lia].
      apply map_size_empty_inv in Hz. by rewrite Hz, lookup_empty in Hch.
  - rewrite orb_true_iff, !Z.ltb_lt. change 0 with (Z.of_nat 0). rewrite <- !Nat2Z.inj_lt, !subscribers_pos.
    split.
    + intros [(c & bf & Hc)|(c & bf & Hc)]; right; eauto 8.
    + intros [?|(c & a & bf & Hc & [?|[-> | ->]])]; [lia|done|left; eauto|right; eauto].
Qed.

(** a subscription listener that is registered is told of every account in
    turn: over any run, the subscriptions minus the unsubscriptions it is told
    of an account are the change of that account between having a subscriber
    and having none, so the two kinds alternate. *)
Theorem subscription_events_alternate b tr b' i acct :
  binv b -> (i < b_subListeners b)%nat -> steps b tr b' ->
  net i acct tr = active b' acct - active b acct.
Proof.
  intros Hb Hi Hs. induction Hs as [b|b1 out b2 tr b3 Hstep Hs IH]; simpl; [lia|].
  destruct (step_net _ _ _ i acct Hb Hi Hstep) as [Hnet Hi2].
  rewrite net_app, Hnet, IH by (done || by eapply step_inv). lia.
Qed.

(** an event stream shows its reader nothing of another account: an event
    sent to an authenticated reader has the reader's account as its only key,
    and every type and state in it comes from an entry of the event for that
    account (or a name of it) and was asked for. *)
Theorem event_stream_is_own_account principal subject types ev ev' :
  principal <> EmptyString ->
  sse_filter principal subject types ev = Some ev' ->
  forall accID typeMap, sc_Changed ev' !! accID = Some typeMap ->
  accID = principal
  /\ forall tName token, typeMap !! tName = Some token ->
       type_wanted types tName = true
       /\ exists acc tm, sc_Changed ev !! acc = Some tm /\ tm !! tName = Some token
                         /\ sse_match principal subject acc = true.
Proof.
  intros Hp Hf accID typeMap Hl. unfold sse_filter in Hf.
  destruct (size _ =? 0)%nat; simplify_eq. simpl in Hl.
  apply (sse_fold_own principal subject types ev (map_to_list (sc_Changed ev)) ∅); [done| | |done].
  - intros [acc tm] Hin. by apply elem_of_map_to_list in Hin.
  - intros k v Hk. by rewrite lookup_empty in Hk.
Qed.

(** a WebSocket shows its reader the events of every account: the filter
    of its push loop looks at the types only, so an event about another
    account is forwarded unchanged to a client that asked for all types. *)
Theorem websocket_push_shows_other_accounts b acct changes ch a buf :
  b_subscribers b !! ch = Some (a, buf) -> (length buf < chan_cap)%nat -> changes <> ∅ ->
  b_subscribers (fst (PublishStateChanges b acct changes)) !! ch
    = Some (a, buf ++ [mkStateChange "StateChange" {[acct := changes]}])
  /\ ws_filter [] (mkStateChange "StateChange" {[acct := changes]})
     = Some (mkStateChange "StateChange" {[acct := changes]}).
Proof.
  intros Hch Hlen Hne. split; [|done]. unfold PublishStateChanges.
  destruct (Nat.eqb_spec (size changes) 0) as [Hz|_]; [by apply map_size_empty_inv in Hz|]. simpl.
  rewrite lookup_fmap, Hch. simpl. unfold try_send. by rewrite (proj2 (Nat.ltb_lt _ _) Hlen).
Qed.

(** ** Witnesses *)

Definition demo_broadcaster : Broadcaster := fst (fst (Subscribe (AddSubscriptionListener NewBroadcaster) "acct")).

Lemma demo_reachable : reachable demo_broadcaster ([] ++ [OnSubscribe 0 "acct"]).
Proof.
  apply (reach_step (AddSubscriptionListener NewBroadcaster)).
  - apply (reach_step NewBroadcaster [] [] _ reach_init). constructor.
  - eapply step_Subscribe. reflexivity.
Qed.

Lemma has_subscribers_exact_witness :
  HasSubscribersForAccount demo_broadcaster "acct" = true <->
  (0 < b_listeners demo_broadcaster)%nat
  \/ exists ch a buf, b_subscribers demo_broadcaster !! ch = Some (a, buf)
       /\ ("acct" = EmptyString \/ a = "acct" \/ a = EmptyString).
Proof. apply (has_subscribers_exact demo_broadcaster _ "acct" demo_reachable). Defined.

Lemma subscription_events_alternate_witness :
  net 0 "acct" ([OnSubscribe 0 "acct"] ++ [])
  = active demo_broadcaster "acct" - active (AddSubscriptionListener NewBroadcaster) "acct".
Proof.
  apply (subscription_events_alternate (AddSubscriptionListener NewBroadcaster)).
  - apply (reachable_inv _ ([] ++ [])). apply (reach_step NewBroadcaster [] [] _ reach_init). constructor.
  - simpl. lia.
  - eapply steps_cons; [eapply step_Subscribe; reflexivity | constructor].
Defined.

Definition demo_types : gmap string string := {["Email" := "~1"]}.
Definition demo_event : StateChange :=
  mkStateChange "StateChange" {["p" := demo_types; "q" := {["Email" := "~2"]}]}.

Lemma event_stream_is_own_account_witness :
  "p" = "p" /\ forall tName token, demo_types !! tName = Some token ->
    type_wanted None tName = true
    /\ exists acc tm, sc_Changed demo_event !! acc = Some tm
                      /\ tm !! tName = Some token /\ sse_match "p" "u" acc = true.
Proof.
  apply (event_stream_is_own_account "p" "u" None demo_event
           (mkStateChange "StateChange" {["p" := demo_types]})); [discriminate| |reflexivity].
  vm_compute. reflexivity.
Defined.

Lemma websocket_push_shows_other_accounts_witness :
  b_subscribers (fst (PublishStateChanges demo_broadcaster "other" {["Email" := "~1"]})) !! 0%nat
    = Some ("acct", [] ++ [mkStateChange "StateChange" {["other" := {["Email" := "~1"]}]}])
  /\ ws_filter [] (mkStateChange "StateChange" {["other" := {["Email" := "~1"]}]})
     = Some (mkStateChange "StateChange" {["other" := {["Email" := "~1"]}]}).
Proof.
  apply (websocket_push_shows_other_accounts demo_broadcaster "other" {["Email" := "~1"]} 0%nat "acct" []).
  - reflexivity.
  - simpl. unfold chan_cap. lia.
  - vm_compute. discriminate.
Defined.
