(* ===== verification/ImapChanges.v ===== *)
(** * Changes of an IMAP account

    [jmap/imapsmtp/change_tracker.go]: the state of an account is a token that
    holds the synchronisation markers of every folder; the changes methods
    compare the decoded old state with the markers the IMAP server reports
    now, together with the mutations the gateway made itself
    ([jmap/imapsmtp/backend.go]).

    The IMAP server is a parameter: the folders it lists, and whether an email
    that should exist is gone.  So is the JSON codec of the token. *)

From S2P Require Import Prelude GoStrings Base64 Json Envelope Query Handler ImapConvert ChangeTracker.
From Stdlib Require Import Ascii.

(** ** States *)

Record FolderState : Type := mkFolder {
  fs_UIDValidity : Z;
  fs_UIDNext : Z;
  fs_HighestModSeq : Z;
  fs_Messages : Z;
  fs_Unseen : Z;
}.
#[export] Instance FolderState_eq_dec : EqDecision FolderState.
Proof. solve_decision. Defined.

Record CompositeState : Type := mkComposite {
  cs_Version : Z;
  cs_Folders : gmap string FolderState;
  cs_Seq : Z;
}.

(** One line of the folder list of the server. *)
Record FolderInfo : Type := mkFolderInfo {
  fi_Name : string;
  fi_Attrs : list string;
  fi_UIDValidity : Z;
  fi_UIDNext : Z;
  fi_Messages : Z;
  fi_Unseen : Z;
}.

(** The mutations of the gateway: a sequence number and a log per account, and
    the sequence numbers the extension store kept (when there is one). *)
Record MutationLog : Type := mkLog {
  ml_seq : gmap string Z;
  ml_mutations : gmap string (list ChangeEntry);
  ml_stored : option (gmap string Z);
}.

Definition seq_of (l : MutationLog) (accountID : string) : Z := default 0 (ml_seq l !! accountID).

Definition loadEmailSeqLocked (l : MutationLog) (accountID : string) : MutationLog :=
  if 0 <? seq_of l accountID then l
  else match ml_stored l with
       | None => l
       | Some st => match st !! accountID with
                    | None => l
                    | Some n => mkLog (<[accountID := n]> (ml_seq l)) (ml_mutations l) (ml_stored l)
                    end
       end.

Definition getEmailSeq (l : MutationLog) (accountID : string) : MutationLog * Z :=
  let l := loadEmailSeqLocked l accountID in (l, seq_of l accountID).

Definition recordEmailMutation (l : MutationLog) (accountID id action : string) : MutationLog :=
  let l := loadEmailSeqLocked l accountID in
  let n := u64 (seq_of l accountID + 1) in
  mkLog (<[accountID := n]> (ml_seq l))
    (<[accountID := default [] (ml_mutations l !! accountID) ++ [mkEntry action id n]]> (ml_mutations l))
    ((fun st => <[accountID := n]> st) <$> ml_stored l).

Section Changes.
Context `{GoRuntime}.
(** [json.Marshal] and [json.Unmarshal] of a [CompositeState]. *)
Variable marshal_state : CompositeState -> string.
Variable unmarshal_state : string -> option CompositeState.
(** [GetEmails] of the id succeeds and finds nothing. *)
Variable email_gone : string -> bool.

Definition CompositeState_Encode (cs : CompositeState) : string := "v1." +:+ b64_encode (marshal_state cs).

Definition DecodeCompositeState (token : string) : option CompositeState :=
  let token := TrimSpace token in
  if String.eqb token "0" || String.eqb token "state-0" then Some (mkComposite 1 ∅ 0)
  else if negb (HasPrefix token "v1.") then None
  else match b64_decode (TrimPrefix token "v1.") with
       | None => None
       | Some b => unmarshal_state b
       end.

(** The folders that count: not hidden, selectable. *)
Definition folder_counts (fi : FolderInfo) : bool :=
  negb (HasPrefix (fi_Name fi) ".") && negb (existsb (fun a => EqualFold a "\NoSelect") (fi_Attrs fi)).

(** [GetCurrentCompositeState] on the folder list of the server ([None] when
    the connection or the listing fails) and the sequence number. *)
Definition GetCurrentCompositeState (folders : option (list FolderInfo)) (emailSeq : Z)
  : option CompositeState :=
  match folders with
  | None => None
  | Some fis =>
      Some (mkComposite 1
        (foldl (fun m fi => if folder_counts fi
                            then <[fi_Name fi := mkFolder (fi_UIDValidity fi) (fi_UIDNext fi) 0
                                                   (fi_Messages fi) (fi_Unseen fi)]> m
                            else m) ∅ fis) emailSeq)
  end.

(** [State] *)
Definition Backend_State (current : option CompositeState) : string :=
  match current with None => "1" | Some cs => CompositeState_Encode cs end.

(** [total > *maxChanges] *)
Definition exceeds (maxChanges : option Z) (created updated destroyed : list string) : bool :=
  match maxChanges with
  | Some m => (0 <? m) && (m <? Z.of_nat (length created + length updated + length destroyed))
  | None => false
  end.

(** ** Mailboxes *)

Definition mailbox_changed (oldFS newFS : FolderState) : bool :=
  negb (fs_UIDValidity oldFS =? fs_UIDValidity newFS) || negb (fs_Messages oldFS =? fs_Messages newFS)
  || negb (fs_Unseen oldFS =? fs_Unseen newFS) || negb (fs_HighestModSeq oldFS =? fs_HighestModSeq newFS).

Definition MailboxChanges (current : option CompositeState) (sinceState : string) (maxChanges : option Z)
  : changes_result :=
  match current with
  | None => mkChanges [] [] [] sinceState false
  | Some current =>
      let newState := CompositeState_Encode current in
      match DecodeCompositeState sinceState with
      | None => mkChanges [] [] [] newState true
      | Some old =>
          let created := omap (fun kv => match cs_Folders old !! fst kv with
                                         | None => Some (MailboxIDForName (fst kv))
                                         | Some _ => None end) (map_to_list (cs_Folders current)) in
          let updated := omap (fun kv => match cs_Folders old !! fst kv with
                                         | Some oldFS => if mailbox_changed oldFS (snd kv)
                                                         then Some (MailboxIDForName (fst kv)) else None
                                         | None => None end) (map_to_list (cs_Folders current)) in
          let destroyed := omap (fun kv => match cs_Folders current !! fst kv with
                                           | None => Some (MailboxIDForName (fst kv))
                                           | Some _ => None end) (map_to_list (cs_Folders old)) in
          let created := sort_ids created in
          let updated := sort_ids updated in
          let destroyed := sort_ids destroyed in
          if exceeds maxChanges created updated destroyed then mkChanges [] [] [] newState true
          else mkChanges created updated destroyed newState false
      end
  end.

(** ** Emails *)

(** The three sets the code builds. *)
Record idsets : Type := mkSets {
  is_created : gset string;
  is_updated : gset string;
  is_destroyed : gset string;
}.

(** One mutation after the old sequence number. *)
Definition apply_mutation (s : idsets) (e : ChangeEntry) : idsets :=
  let id := ce_ID e in
  if String.eqb (ce_Action e) "create" then
    mkSets ({[id]} ∪ is_created s) (is_updated s ∖ {[id]}) (is_destroyed s ∖ {[id]})
  else if String.eqb (ce_Action e) "update" then
    if bool_decide (id ∈ is_created s) then s
    else mkSets (is_created s) ({[id]} ∪ is_updated s) (is_destroyed s)
  else if String.eqb (ce_Action e) "destroy" then
    mkSets (is_created s ∖ {[id]}) (is_updated s ∖ {[id]}) ({[id]} ∪ is_destroyed s)
  else s.

(** The email ids of a mailbox with [a <= uid < b]. *)
Definition uid_range (mbID : string) (a b : Z) : gset string :=
  list_to_set (map (EmailIDFor mbID) (seqZ a (b - a))).

(** The fallback without mutations and without modification sequences. *)
Definition flags_changed (oldFS newFS : FolderState) : bool :=
  let newMsgs := fs_Messages newFS - fs_Messages oldFS in
  let unseenDiff := fs_Unseen newFS - fs_Unseen oldFS in
  ((newMsgs =? 0) && negb (unseenDiff =? 0)) || (unseenDiff <? 0) || (newMsgs <? unseenDiff).

Definition folder_step (old current : CompositeState) (s : idsets) (kv : string * FolderState) : idsets :=
  let '(folder, newFS) := kv in
  let mbID := MailboxIDForName folder in
  match cs_Folders old !! folder with
  | None => mkSets (is_created s ∪ uid_range mbID 1 (fs_UIDNext newFS)) (is_updated s) (is_destroyed s)
  | Some oldFS =>
      if negb (fs_UIDValidity oldFS =? fs_UIDValidity newFS) then
        mkSets (is_created s ∪ uid_range mbID 1 (fs_UIDNext newFS)) (is_updated s)
               (is_destroyed s ∪ uid_range mbID 1 (fs_UIDNext oldFS))
      else
        let created :=
          if fs_UIDNext oldFS <? fs_UIDNext newFS
          then is_created s ∪ uid_range mbID (fs_UIDNext oldFS) (fs_UIDNext newFS) else is_created s in
        let updated :=
          if (cs_Seq old =? 0) && (cs_Seq current =? 0)
             && ((fs_HighestModSeq oldFS <? fs_HighestModSeq newFS)
                 || ((fs_HighestModSeq newFS =? 0) && flags_changed oldFS newFS))
          then is_updated s ∪ uid_range mbID 1 (fs_UIDNext oldFS) else is_updated s in
        mkSets created updated (is_destroyed s)
  end.

Definition deleted_step (current : CompositeState) (s : idsets) (kv : string * FolderState) : idsets :=
  let '(folder, oldFS) := kv in
  match cs_Folders current !! folder with
  | Some _ => s
  | None => mkSets (is_created s) (is_updated s)
              (is_destroyed s ∪ uid_range (MailboxIDForName folder) 1 (fs_UIDNext oldFS))
  end.

(** Whether the log reaches back to the old sequence number. *)
Definition has_history (mutations : list ChangeEntry) (old current : CompositeState) : bool :=
  match mutations with
  | e :: _ => ce_State e <=? u64 (cs_Seq old + 1)
  | [] => cs_Seq old =? cs_Seq current
  end.

(** A created email in trash or drafts that is already gone is left out. *)
Definition keep_created (id : string) : bool :=
  match ParseEmailID id with
  | Ok (mbID, _) =>
      negb ((String.eqb mbID "mb-trash" || String.eqb mbID "mb-drafts") && email_gone id)
  | Err _ => true
  end.

Definition email_sets (mutations : list ChangeEntry) (old current : CompositeState) : idsets :=
  let s := if has_history mutations old current
           then foldl apply_mutation (mkSets ∅ ∅ ∅)
                  (List.filter (fun e => cs_Seq old <? ce_State e) mutations)
           else mkSets ∅ ∅ ∅ in
  let s := foldl (folder_step old current) s (map_to_list (cs_Folders current)) in
  foldl (deleted_step current) s (map_to_list (cs_Folders old)).

Definition EmailChanges (current : option CompositeState) (mutations : list ChangeEntry)
    (sinceState : string) (maxChanges : option Z) : changes_result :=
  match current with
  | None => mkChanges [] [] [] sinceState false
  | Some current =>
      let newState := CompositeState_Encode current in
      match DecodeCompositeState sinceState with
      | None => mkChanges [] [] [] newState true
      | Some old =>
          if negb (has_history mutations old current) && (cs_Seq old <? cs_Seq current)
          then mkChanges [] [] [] newState true
          else
            let s := email_sets mutations old current in
            let created := sort_ids (List.filter keep_created (elements (is_created s))) in
            let updated := sort_ids (elements (is_updated s)) in
            let destroyed := sort_ids (elements (is_destroyed s)) in
            if exceeds maxChanges created updated destroyed then mkChanges [] [] [] EmptyString true
            else mkChanges created updated destroyed newState false
      end
  end.

Definition ThreadChanges (current : option CompositeState) (mutations : list ChangeEntry)
    (sinceState : string) (maxChanges : option Z) : changes_result :=
  EmailChanges current mutations sinceState maxChanges.
End Changes.

(** ** Lemmas *)

Section Lemmas.
Context `{GoRuntime}.

Lemma sort_ids_elem l id : id ∈ sort_ids l <-> id ∈ l.
Proof. unfold sort_ids. by rewrite merge_sort_Permutation. Qed.

Lemma uid_range_elem mbID a b id :
  id ∈ uid_range mbID a b <-> exists uid, a <= uid < b /\ id = EmailIDFor mbID uid.
Proof.
  unfold uid_range. rewrite elem_of_list_to_set, list_elem_of_fmap. split.
  - intros (uid & -> & Hu). apply elem_of_seqZ in Hu. exists uid. split; [lia|done].
  - intros (uid & Hu & ->). exists uid. split; [done|]. apply elem_of_seqZ. lia.
Qed.

(** Everything in [s] is still in [s']. *)
Definition sets_le (s s' : idsets) : Prop :=
  is_created s ⊆ is_created s' /\ is_updated s ⊆ is_updated s' /\ is_destroyed s ⊆ is_destroyed s'.
#[local] Instance sets_le_preorder : PreOrder sets_le.
Proof. unfold sets_le. split; [intros s; set_solver | intros s1 s2 s3; set_solver]. Qed.

Lemma folder_step_le old current s kv : sets_le s (folder_step old current s kv).
Proof.
  destruct kv as [folder newFS]. unfold folder_step, sets_le.
  destruct (cs_Folders old !! folder) as [oldFS|]; [|simpl; set_solver].
  repeat case_match; simpl; set_solver.
Qed.
Lemma deleted_step_le current s kv : sets_le s (deleted_step current s kv).
Proof. destruct kv as [folder oldFS]. unfold deleted_step, sets_le. case_match; simpl; set_solver. Qed.

Lemma fold_le {A} (f : idsets -> A -> idsets) l : forall s,
  (forall s x, sets_le s (f s x)) -> sets_le s (foldl f s l).
Proof.
  induction l as [|x l IH]; intros s Hf; simpl; [done|]. etrans; [apply Hf|by apply IH].
Qed.

(** What one element of a fold of growing steps adds is in the result. *)
Lemma fold_member {A} (f : idsets -> A -> idsets) l x : forall s,
  (forall s x, sets_le s (f s x)) -> x ∈ l -> exists s', sets_le (f s' x) (foldl f s l).
Proof.
  induction l as [|y l IH]; intros s Hf Hx; [by apply not_elem_of_nil in Hx|].
  apply elem_of_cons in Hx as [->|Hx]; [|by apply IH].
  exists s. simpl. by apply fold_le.
Qed.

(** The sets of a folder of the current state. *)
Lemma email_sets_folder mutations old current folder newFS :
  cs_Folders current !! folder = Some newFS ->
  exists s, sets_le (folder_step old current s (folder, newFS)) (email_sets mutations old current).
Proof.
  intros Hf. unfold email_sets.
  destruct (fold_member (folder_step old current) (map_to_list (cs_Folders current)) (folder, newFS)
              (if has_history mutations old current
               then foldl apply_mutation (mkSets ∅ ∅ ∅) (List.filter (fun e => cs_Seq old <? ce_State e) mutations)
               else mkSets ∅ ∅ ∅)) as [s' Hs'].
  - apply folder_step_le.
  - by apply elem_of_map_to_list.
  - exists s'. etrans; [exact Hs'|]. apply fold_le. apply deleted_step_le.
Qed.

Lemma id_byte_graphic c : is_id_byte c = true -> graphic c = true.
Proof.
  assert (forall c, negb (is_id_byte c) || graphic c = true) as Hall.
  { apply ascii_forall. by vm_compute. }
  intros Hc. specialize (Hall c). by rewrite Hc in Hall.
Qed.

(** The token of a state is read back. *)
Lemma DecodeCompositeState_Encode marshal_state unmarshal_state cs :
  unmarshal_state (marshal_state cs) = Some cs ->
  DecodeCompositeState unmarshal_state (CompositeState_Encode marshal_state cs) = Some cs.
Proof.
  intros Hc. unfold DecodeCompositeState, CompositeState_Encode.
  set (b := b64_encode (marshal_state cs)).
  assert (str_forallb graphic ("v1." +:+ b) = true) as Hg.
  { rewrite str_forallb_app. apply andb_true_intro. split; [done|].
    eapply str_forallb_impl; [|apply b64_encode_id]. apply id_byte_graphic. }
  rewrite TrimSpace_graphic by done. rewrite HasPrefix_app, TrimPrefix_app.
  change (String.eqb ("v1." +:+ b) "0" || String.eqb ("v1." +:+ b) "state-0") with false. cbn [negb].
  unfold b. by rewrite b64_decode_encode.
Qed.

(** Steps on a folder that did not change add nothing. *)
Lemma folder_step_same old current s kv :
  cs_Folders old !! fst kv = Some (snd kv) -> folder_step old current s kv = s.
Proof.
  destruct kv as [folder fs]. simpl. intros ->. rewrite Z.eqb_refl, !Z.ltb_irrefl. cbn [negb].
  assert (flags_changed fs fs = false) as ->.
  { unfold flags_changed. rewrite !Z.sub_diag. done. }
  rewrite andb_false_r. cbn [orb]. rewrite andb_false_r. by destruct s.
Qed.

Lemma fold_id {A S} (f : S -> A -> S) l s : (forall x, x ∈ l -> f s x = s) -> foldl f s l = s.
Proof.
  induction l as [|x l IH]; simpl; [done|]. intros Hf. rewrite Hf by set_solver. apply IH. set_solver.
Qed.
End Lemmas.

(** ** Properties *)

Section Properties.
Context `{GoRuntime}.
Variable marshal_state : CompositeState -> string.
Variable unmarshal_state : string -> option CompositeState.
Variable email_gone : string -> bool.

Lemma quiet_changes cs mutations maxChanges :
  unmarshal_state (marshal_state cs) = Some cs ->
  (forall e, e ∈ mutations -> ce_State e <= cs_Seq cs) ->
  EmailChanges marshal_state unmarshal_state email_gone (Some cs) mutations
    (CompositeState_Encode marshal_state cs) maxChanges
  = mkChanges [] [] [] (CompositeState_Encode marshal_state cs) false.
Proof.
  intros Hc Hm. unfold EmailChanges. rewrite DecodeCompositeState_Encode by done.
  rewrite Z.ltb_irrefl, andb_false_r.
  assert (email_sets mutations cs cs = mkSets ∅ ∅ ∅) as ->.
  { unfold email_sets. rewrite filter_all_false by (intros e He; apply Z.ltb_ge; auto). cbn [foldl].
    replace (if has_history mutations cs cs then mkSets ∅ ∅ ∅ else mkSets ∅ ∅ ∅) with (mkSets ∅ ∅ ∅)
      by (by case_match).
    rewrite fold_id, fold_id; [done| |].
    - intros [folder fs] Hin. apply elem_of_map_to_list in Hin. by apply folder_step_same.
    - intros [folder fs] Hin. apply elem_of_map_to_list in Hin.
      replace (foldl (folder_step cs cs) (mkSets ∅ ∅ ∅) (map_to_list (cs_Folders cs))) with (mkSets ∅ ∅ ∅).
      + simpl. by rewrite Hin.
      + symmetry. apply fold_id. intros [f2 fs2] Hin2. apply elem_of_map_to_list in Hin2.
        by apply folder_step_same. }
  simpl. rewrite elements_empty. simpl. unfold exceeds.
  destruct maxChanges as [m|]; [|done]. simpl. destruct (0 <? m) eqn:E; [|done]. bool_props. simpl.
  by rewrite (proj2 (Z.ltb_ge _ _)) by lia.
Qed.
(** An account nothing happened to has no changes: from the token of the
    current state, with no mutation logged after it, the three lists are
    empty, no more changes are announced and the new state is the old one. *)
Theorem quiet_account_has_no_changes cs mutations maxChanges :
  unmarshal_state (marshal_state cs) = Some cs ->
  (forall e, e ∈ mutations -> ce_State e <= cs_Seq cs) ->
  EmailChanges marshal_state unmarshal_state email_gone (Some cs) mutations
    (CompositeState_Encode marshal_state cs) maxChanges
  = mkChanges [] [] [] (CompositeState_Encode marshal_state cs) false.
Proof. apply quiet_changes. Qed.

(** The log of changes reaches back to the old state, or nothing was logged
    since. *)
Definition log_reaches (mutations : list ChangeEntry) (old current : CompositeState) : Prop :=
  cs_Seq current <= cs_Seq old \/ exists e rest, mutations = e :: rest /\ ce_State e <= cs_Seq old + 1.


(** When the log does not reach back, whatever arrived since is dropped: the
    answer has no ids, announces more changes, and gives the current state as
    the new one, from which the next call reports that nothing changed. *)
Theorem pruned_log_drops_messages current old mutations sinceState maxChanges maxChanges' :
  DecodeCompositeState unmarshal_state sinceState = Some old ->
  unmarshal_state (marshal_state current) = Some current ->
  (forall e, e ∈ mutations -> cs_Seq old + 1 < ce_State e <= cs_Seq current) ->
  0 <= cs_Seq old < cs_Seq current -> cs_Seq current < 2 ^ 64 ->
  let changes := fun since => EmailChanges marshal_state unmarshal_state email_gone (Some current) mutations since in
  let now := CompositeState_Encode marshal_state current in
  changes sinceState maxChanges = mkChanges [] [] [] now true /\ changes now maxChanges' = mkChanges [] [] [] now false.
Proof.
  intros Hdec Hcodec Hlog Hseq Hmax changes now. split; cycle 1.
  - apply quiet_changes; [done|]. intros e He. by apply Hlog.
  - unfold changes, EmailChanges. rewrite Hdec. assert (has_history mutations old current = false) as ->.
    { destruct mutations as [|e l]; cbn [has_history]; [apply Z.eqb_neq; lia|]. apply Z.leb_gt. unfold u64. rewrite Z.mod_small by lia.
      apply Hlog. by left. }
    by rewrite (proj2 (Z.ltb_lt _ _)) by lia.
Qed.

(** mailbox changes are the difference of the two folder lists: created
    and destroyed are the folders of one list only, updated those in both
    whose counts or validity differ. *)
Theorem mailbox_changes_exact current old sinceState :
  DecodeCompositeState unmarshal_state sinceState = Some old ->
  let r := MailboxChanges marshal_state unmarshal_state (Some current) sinceState None in
  (forall id, id ∈ ch_created r <->
     exists f fs, cs_Folders current !! f = Some fs /\ cs_Folders old !! f = None /\ id = MailboxIDForName f)
  /\ (forall id, id ∈ ch_destroyed r <->
     exists f fs, cs_Folders old !! f = Some fs /\ cs_Folders current !! f = None /\ id = MailboxIDForName f)
  /\ (forall id, id ∈ ch_updated r <->
     exists f a b, cs_Folders old !! f = Some a /\ cs_Folders current !! f = Some b
                   /\ mailbox_changed a b = true /\ id = MailboxIDForName f)
  /\ ch_newState r = CompositeState_Encode marshal_state current /\ ch_hasMore r = false.
Proof.
  intros Hdec. simpl. unfold MailboxChanges. rewrite Hdec. simpl.
  split_and!; try done; intros id; rewrite sort_ids_elem, list_elem_of_omap.
  - split.
    + intros ([f fs] & Hin%elem_of_map_to_list & Hk). simpl in Hk.
      destruct (cs_Folders old !! f) eqn:E; simplify_eq. eauto.
    + intros (f & fs & Hc & Ho & ->). exists (f, fs). rewrite elem_of_map_to_list. simpl. by rewrite Ho.
  - split.
    + intros ([f fs] & Hin%elem_of_map_to_list & Hk). simpl in Hk.
      destruct (cs_Folders current !! f) eqn:E; simplify_eq. eauto.
    + intros (f & fs & Ho & Hc & ->). exists (f, fs). rewrite elem_of_map_to_list. simpl. by rewrite Hc.
  - split.
    + intros ([f fs] & Hin%elem_of_map_to_list & Hk). simpl in Hk.
      destruct (cs_Folders old !! f) eqn:E; [|done]. case_match; simplify_eq. eauto 8.
    + intros (f & a & b & Ho & Hc & Hch & ->). exists (f, b). rewrite elem_of_map_to_list. simpl.
      by rewrite Ho, Hch.
Qed.

(** mailbox changes beyond maxChanges are lost.  The answer has no ids but
    gives the current state as the new one; asking again from it reports no
    change at all.  (The email method fails closed with an empty state in the
    same situation.) *)
Theorem mailbox_changes_beyond_limit_lost current old sinceState m :
  DecodeCompositeState unmarshal_state sinceState = Some old ->
  unmarshal_state (marshal_state current) = Some current ->
  let full := MailboxChanges marshal_state unmarshal_state (Some current) sinceState None in
  0 < m -> m < Z.of_nat (length (ch_created full) + length (ch_updated full) + length (ch_destroyed full)) ->
  let r := MailboxChanges marshal_state unmarshal_state (Some current) sinceState (Some m) in
  ch_created r = [] /\ ch_updated r = [] /\ ch_destroyed r = []
  /\ ch_newState r = CompositeState_Encode marshal_state current
  /\ (forall id, id ∉ ch_created (MailboxChanges marshal_state unmarshal_state (Some current) (ch_newState r) None)
               /\ id ∉ ch_updated (MailboxChanges marshal_state unmarshal_state (Some current) (ch_newState r) None)
               /\ id ∉ ch_destroyed (MailboxChanges marshal_state unmarshal_state (Some current) (ch_newState r) None)).
Proof.
  intros Hdec Hcodec full Hm Hlt r.
  assert (r = mkChanges [] [] [] (CompositeState_Encode marshal_state current) true) as ->.
  { unfold r. unfold full, MailboxChanges in Hlt. unfold MailboxChanges. rewrite Hdec in *. simpl in Hlt.
    unfold exceeds. by rewrite (proj2 (Z.ltb_lt 0 m) Hm), (proj2 (Z.ltb_lt m _) Hlt). }
  cbn [ch_created ch_updated ch_destroyed ch_newState]. split_and!; try done. intros id.
  pose proof (DecodeCompositeState_Encode marshal_state unmarshal_state current Hcodec) as Hcur.
  unfold MailboxChanges. rewrite Hcur. simpl. rewrite !sort_ids_elem, !list_elem_of_omap.
  split_and!; intros ([f fs] & Hin%elem_of_map_to_list & Hk); simpl in Hk; rewrite Hin in Hk; [done| |done].
  unfold mailbox_changed in Hk. by rewrite !Z.eqb_refl in Hk.
Qed.

(** after a change of UIDVALIDITY one email id is reported both as created
    and as destroyed: the id does not contain the validity, so every UID below
    both UIDNEXT values is in both lists. *)
Theorem uidvalidity_change_reports_both current old mutations sinceState folder oldFS newFS uid :
  DecodeCompositeState unmarshal_state sinceState = Some old ->
  cs_Folders old !! folder = Some oldFS -> cs_Folders current !! folder = Some newFS ->
  fs_UIDValidity oldFS <> fs_UIDValidity newFS ->
  1 <= uid -> uid < fs_UIDNext oldFS -> uid < fs_UIDNext newFS -> fs_UIDNext newFS < 2 ^ 32 ->
  MailboxIDForName folder <> "mb-trash" -> MailboxIDForName folder <> "mb-drafts" ->
  let r := EmailChanges marshal_state unmarshal_state email_gone (Some current) mutations sinceState None in
  (EmailIDFor (MailboxIDForName folder) uid ∈ ch_created r
   /\ EmailIDFor (MailboxIDForName folder) uid ∈ ch_destroyed r) \/ ch_hasMore r = true.
Proof.
  intros Hdec Ho Hf Hv H1 Hlt1 Hlt2 Hnext Htrash Hdrafts. simpl. unfold EmailChanges. rewrite Hdec.
  case_match; [by right|]. simpl. left.
  destruct (email_sets_folder mutations old current folder newFS Hf) as [s (Hcr & _ & Hde)].
  unfold folder_step in Hcr, Hde. rewrite Ho, (proj2 (Z.eqb_neq _ _) Hv) in Hcr, Hde. simpl in Hcr, Hde.
  rewrite !sort_ids_elem. rewrite list_elem_of_In, filter_In, <- list_elem_of_In, !elem_of_elements.
  split_and!.
  - apply Hcr, elem_of_union_r, uid_range_elem. exists uid. split; [lia|done].
  - unfold keep_created. rewrite ParseEmailID_EmailIDFor by lia.
    by rewrite (proj2 (String.eqb_neq _ _) Htrash), (proj2 (String.eqb_neq _ _) Hdrafts).
  - apply Hde, elem_of_union_r, uid_range_elem. exists uid. split; [lia|done].
Qed.
End Properties.

(** ** Witnesses *)

(** Two states of an account with one folder, and a codec for them. *)
Definition demo_old : CompositeState := mkComposite 1 {["Work" := mkFolder 7 5 0 4 1]} 0.
Definition demo_new : CompositeState := mkComposite 1 {["Work" := mkFolder 7 6 0 5 2]} 0.
Definition demo_reset : CompositeState := mkComposite 1 {["Work" := mkFolder 8 3 0 2 0]} 0.
Definition demo_marshal (cs : CompositeState) : string :=
  if bool_decide (cs_Folders cs = cs_Folders demo_old) then "old" else "new".
Definition demo_unmarshal (s : string) : option CompositeState :=
  if String.eqb s "old" then Some demo_old else if String.eqb s "new" then Some demo_new else None.


Lemma mailbox_changes_exact_witness :
  ch_hasMore (MailboxChanges (H := ascii_runtime) demo_marshal demo_unmarshal (Some demo_new)
                (CompositeState_Encode demo_marshal demo_old) None) = false.
Proof.
  apply (@mailbox_changes_exact ascii_runtime demo_marshal demo_unmarshal demo_new demo_old).
  vm_compute. reflexivity.
Defined.

Definition demo_many : CompositeState :=
  mkComposite 1 {["A" := mkFolder 1 1 0 0 0; "B" := mkFolder 1 1 0 0 0]} 0.

Lemma mailbox_changes_beyond_limit_lost_witness :
  ch_created (MailboxChanges (H := ascii_runtime) (fun _ => "x") (fun _ => Some demo_many) (Some demo_many)
                "0" (Some 1)) = [].
Proof.
  apply (@mailbox_changes_beyond_limit_lost ascii_runtime (fun _ => "x") (fun _ => Some demo_many)
           demo_many (mkComposite 1 ∅ 0) "0" 1);
    vm_compute; reflexivity.
Defined.

Lemma uidvalidity_change_reports_both_witness :
  (EmailIDFor (MailboxIDForName (H := ascii_runtime) "Work") 1
     ∈ ch_created (EmailChanges (H := ascii_runtime) demo_marshal demo_unmarshal (fun _ => false)
                     (Some demo_reset) [] (CompositeState_Encode demo_marshal demo_old) None)
   /\ EmailIDFor (MailboxIDForName (H := ascii_runtime) "Work") 1
     ∈ ch_destroyed (EmailChanges (H := ascii_runtime) demo_marshal demo_unmarshal (fun _ => false)
                     (Some demo_reset) [] (CompositeState_Encode demo_marshal demo_old) None))
  \/ ch_hasMore (EmailChanges (H := ascii_runtime) demo_marshal demo_unmarshal (fun _ => false)
                     (Some demo_reset) [] (CompositeState_Encode demo_marshal demo_old) None) = true.
Proof.
  apply (@uidvalidity_change_reports_both ascii_runtime demo_marshal demo_unmarshal (fun _ => false)
           demo_reset demo_old [] _ "Work" (mkFolder 7 5 0 4 1) (mkFolder 8 3 0 2 0) 1);
    try (vm_compute; reflexivity); vm_compute; discriminate.
Defined.
