(* ===== verification/Keywords.v ===== *)
(** * Keywords and roles

    [jmap/jmapmail/keywords.go]: the tables of RFC 9979 between IMAP system
    flags and JMAP keywords and between special-use attributes and mailbox
    roles, the grammar of keywords, and the keywords a client may see. *)

From S2P Require Import Prelude GoStrings Json Query ChangeTracker.
From Stdlib Require Import Ascii.

(** ** The tables *)

Definition table_get (t : list (string * string)) (k : string) : option string :=
  snd <$> List.find (fun e => String.eqb (fst e) k) t.

Definition imapFlagToKeyword : list (string * string) :=
  [("\SEEN", "$seen"); ("\ANSWERED", "$answered"); ("\FLAGGED", "$flagged"); ("\DRAFT", "$draft");
   ("\DELETED", "$deleted"); ("\JUNK", "$junk"); ("\SPAM", "$junk"); ("\NOTJUNK", "$notjunk");
   ("\PHISHING", "$phishing"); ("\FORWARDED", "$forwarded"); ("\MDNSENT", "$mdnsent")].

Definition keywordToIMAPFlag : list (string * string) :=
  [("$seen", "\Seen"); ("$answered", "\Answered"); ("$flagged", "\Flagged"); ("$draft", "\Draft");
   ("$deleted", "\Deleted"); ("$junk", "\Junk"); ("$notjunk", "\NotJunk"); ("$phishing", "\Phishing");
   ("$forwarded", "\Forwarded"); ("$mdnsent", "\MDNSent")].

Definition imapAttributeToRole : list (string * string) :=
  [("\ALL", "all"); ("\ARCHIVE", "archive"); ("\DRAFTS", "drafts"); ("\FLAGGED", "flagged");
   ("\JUNK", "junk"); ("\SENT", "sent"); ("\TRASH", "trash"); ("\IMPORTANT", "important")].

Definition roleToIMAPAttribute : list (string * string) :=
  [("all", "\All"); ("archive", "\Archive"); ("drafts", "\Drafts"); ("flagged", "\Flagged");
   ("junk", "\Junk"); ("sent", "\Sent"); ("trash", "\Trash"); ("important", "\Important")].

(** ** Conversions *)

Section Keywords.
Context `{GoRuntime}.

Definition IMAPFlagToJMAPKeyword (flag : string) : string :=
  match table_get imapFlagToKeyword (ToUpper (TrimSpace flag)) with
  | Some kw => kw
  | None => ToLower (TrimPrefix flag "\")
  end.

Definition JMAPKeywordToIMAPFlag (keyword : string) : string :=
  let lower := ToLower (TrimSpace keyword) in
  match table_get keywordToIMAPFlag lower with
  | Some flag => flag
  | None => if HasPrefix lower "$" then keyword else "\" +:+ keyword
  end.

Definition IMAPAttributeToJMAPRole (attribute : string) : string :=
  match table_get imapAttributeToRole (ToUpper (TrimSpace attribute)) with
  | Some role => role
  | None => ToLower (TrimPrefix attribute "\")
  end.

(** [title] is [strings.Title]. *)
Definition JMAPRoleToIMAPAttribute (title : string -> string) (role : string) : string :=
  let lower := ToLower (TrimSpace role) in
  match table_get roleToIMAPAttribute lower with
  | Some attr => attr
  | None => "\" +:+ title lower
  end.

(** ** The grammar *)

Definition keyword_byte (c : ascii) : bool :=
  byte_between 33 126 c
  && negb (existsb (Ascii.eqb c) ["("%char; ")"%char; "{"%char; "]"%char; "%"%char; "*"%char;
                                  dquote; backslash]).

Definition IsValidJMAPKeyword (keyword : string) : bool :=
  if String.eqb keyword EmptyString || (255 <? slen keyword)%nat then false
  else str_forallb keyword_byte keyword.

Definition IsValidKeyword (kw : string) : bool :=
  if (slen kw <? 1)%nat || (255 <? slen kw)%nat then false else str_forallb keyword_byte kw.

Definition NormalizeJMAPKeyword (keyword : string) : string := ToLower (TrimSpace keyword).

(** ** Lists and maps *)

Definition MapIMAPFlagsToJMAPKeywords (flags : list string) : gset string :=
  list_to_set (List.filter IsValidJMAPKeyword (map IMAPFlagToJMAPKeyword flags)).

(** The map as the list of its members; [sort.Strings] at the end. *)
Definition MapJMAPKeywordsToIMAPFlags (keywords : list (string * bool)) : list string :=
  sort_ids (flat_map (fun kv => if snd kv : bool then [JMAPKeywordToIMAPFlag (fst kv)] else []) keywords).

Definition internalKeywords : list string := ["$itip"; "$deleted"].
Definition IsInternalKeyword (kw : string) : bool := str_in (ToLower (TrimSpace kw)) internalKeywords.

Definition VisibleKeywords (keywords : list (string * bool)) : gmap string bool :=
  foldl (fun out kv => if IsInternalKeyword (fst kv) then out else <[ToLower (fst kv) := snd kv]> out)
    ∅ keywords.
End Keywords.

(** ** Lemmas *)

Section KeywordLemmas.
Context `{GoRuntime}.

Lemma table_get_In t k v : table_get t k = Some v -> In (k, v) t.
Proof.
  unfold table_get. intros Hf. apply fmap_Some in Hf as ([k' v'] & Hf & ->).
  apply List.find_some in Hf as [Hin Hk]. simpl in *. bool_props. by subst.
Qed.

Lemma IsValidKeyword_same kw : IsValidKeyword kw = IsValidJMAPKeyword kw.
Proof. unfold IsValidKeyword, IsValidJMAPKeyword. by destruct kw. Qed.

Lemma valid_keyword_spec kw :
  IsValidKeyword kw = true <-> (1 <= slen kw <= 255)%nat /\ str_forallb keyword_byte kw = true.
Proof.
  unfold IsValidKeyword. destruct (Nat.ltb_spec (slen kw) 1), (Nat.ltb_spec 255 (slen kw)); simpl;
    intuition (done || lia).
Qed.

Lemma keyword_graphic kw : str_forallb keyword_byte kw = true -> str_forallb graphic kw = true.
Proof. apply str_forallb_impl. intros c Hc. by apply andb_prop in Hc as [Hc _]. Qed.

(** A keyword is free of the characters that an IMAP flag list cannot hold. *)
Lemma keyword_no_backslash kw : str_forallb keyword_byte kw = true -> HasPrefix kw "\" = false.
Proof.
  intros Hk. apply not_true_is_false. intros [r ->]%HasPrefix_spec. by simpl in Hk.
Qed.

Lemma ToUpper_ascii s : is_ascii s = true -> ToUpper s = str_map upper_ascii s.
Proof. unfold ToUpper. by intros ->. Qed.

(** No flag of the table starts with a dollar sign. *)
Lemma table_no_dollar s : HasPrefix s "\" = false -> table_get imapFlagToKeyword s = None.
Proof.
  intros Hs. destruct (table_get imapFlagToKeyword s) as [v|] eqn:E; [|done].
  apply table_get_In in E. exfalso. revert Hs.
  repeat (destruct E as [E|E]; [injection E as <- <-; by vm_compute|]). by destruct E.
Qed.

Lemma upper_prefix s :
  str_forallb graphic s = true -> HasPrefix s "\" = false -> HasPrefix (str_map upper_ascii s) "\" = false.
Proof.
  destruct s as [|c s]; [done|]. intros _. cbn [HasPrefix str_map].
  rewrite !andb_true_r.
  assert (forall c, Ascii.eqb backslash c || negb (Ascii.eqb backslash (upper_ascii c)) = true) as Hall.
  { apply ascii_forall. by vm_compute. }
  specialize (Hall c). change "\"%char with backslash. intros Hc. rewrite Hc in Hall. simpl in Hall.
  by apply negb_true_iff in Hall.
Qed.
End KeywordLemmas.

(** ** Properties *)

(** A valid keyword in the lower-case form the server stores survives
    being written as an IMAP flag and read back, if it is a standard keyword
    or starts with a dollar sign. *)
Theorem dollar_keyword_roundtrip `{GoRuntime} kw :
  IsValidKeyword kw = true -> str_map lower_ascii kw = kw -> HasPrefix kw "$" = true ->
  IMAPFlagToJMAPKeyword (JMAPKeywordToIMAPFlag kw) = kw.
Proof.
  intros Hv Hlow Hd. apply valid_keyword_spec in Hv as [_ Hb].
  pose proof (keyword_graphic _ Hb) as Hg. pose proof (graphic_ascii _ Hg) as Ha.
  unfold JMAPKeywordToIMAPFlag. rewrite TrimSpace_graphic, ToLower_ascii, Hlow, Hd by done.
  destruct (table_get keywordToIMAPFlag kw) as [flag|] eqn:E.
  - apply table_get_In in E.
    repeat (destruct E as [E|E]; [injection E as <- <-; by vm_compute|]). by destruct E.
  - pose proof (keyword_no_backslash _ Hb) as Hnb.
    unfold IMAPFlagToJMAPKeyword. rewrite TrimSpace_graphic, ToUpper_ascii by done.
    rewrite table_no_dollar by (by apply upper_prefix).
    rewrite TrimPrefix_none by done. by rewrite ToLower_ascii.
Qed.

