(* ===== verification/MailQuery.v ===== *)
(** * Email queries

    [jmap/jmapmail/query.go]: the filter conditions and the sort orders of
    Email/query, over the [Email] objects of [jmap/jmapmail/mail.go].

    A Go map is the list of its members in the order one range visits it.
    The recursion over filter operators is bounded by the nesting depth of the
    filter ([matches_filter_depth] shows that more fuel changes nothing), the
    loop of [BaseSubject] by the length of the subject. *)

From S2P Require Import Prelude GoSort GoStrings Json Query ChangeTracker.
From Stdlib Require Import Ascii SpecFloat.

(** ** Data *)

Record EmailAddress : Type := mkAddress { ea_Name : string; ea_Email : string }.
(** [EmailAddress.MarshalJSON]: no name is null *)
Definition address_json (a : EmailAddress) : json :=
  JObj [("name", if String.eqb (ea_Name a) EmptyString then JNull else JStr (ea_Name a)); ("email", JStr (ea_Email a))].
Record EmailHeader : Type := mkHeader { eh_Name : string; eh_Value : string }.

Inductive EmailBodyPart : Type :=
| mkPart (PartID BlobID : option string) (Size : Z) (Headers : list EmailHeader) (Name : option string)
    (Type_ : string) (Charset Disposition CID : option string) (Language : list string)
    (Location : option string) (SubParts : list EmailBodyPart).

Definition bp_PartID (p : EmailBodyPart) : option string := let '(mkPart i _ _ _ _ _ _ _ _ _ _ _) := p in i.
Definition bp_Headers (p : EmailBodyPart) : list EmailHeader := let '(mkPart _ _ _ h _ _ _ _ _ _ _ _) := p in h.

Record EmailBodyValue : Type := mkBodyValue {
  bv_Value : string; bv_IsEncodingProblem : bool; bv_IsTruncated : bool }.

Record Email : Type := mkEmail {
  em_ID : string;
  em_BlobID : string;
  em_ThreadID : string;
  em_MailboxIDs : list (string * bool);
  em_Keywords : list (string * bool);
  em_Size : Z;
  em_ReceivedAt : string;
  em_MessageID : list string;
  em_InReplyTo : list string;
  em_References : list string;
  em_Sender : list EmailAddress;
  em_From : list EmailAddress;
  em_To : list EmailAddress;
  em_CC : list EmailAddress;
  em_BCC : list EmailAddress;
  em_ReplyTo : list EmailAddress;
  em_Subject : string;
  em_SentAt : option string;
  em_Headers : list EmailHeader;
  em_BodyStructure : EmailBodyPart;
  em_BodyValues : list (string * EmailBodyValue);
  em_TextBody : list EmailBodyPart;
  em_HTMLBody : list EmailBodyPart;
  em_Attachments : list EmailBodyPart;
  em_HasAttachment : bool;
  em_Preview : string;
}.

(** [m[k]] of a [map[K]bool] *)
Definition bget (m : list (string * bool)) (k : string) : bool :=
  match List.find (fun e => String.eqb (fst e) k) m with Some (_, b) => b | None => false end.

(** ** Text search *)

(** A node of golang.org/x/net/html. *)
Inductive html_node : Type :=
| HElement (data : string) (attrs : list (string * string)) (children : list html_node)
| HText (data : string) (children : list html_node)
| HOther (children : list html_node).

Definition space : string := " ".

(** The closure [walk] of [htmlSearchText]. *)
Fixpoint html_walk (n : html_node) : string :=
  let below := fix below (l : list html_node) : string :=
    match l with [] => EmptyString | c :: l' => html_walk c +:+ below l' end in
  match n with
  | HElement data attrs children =>
      if str_in data ["script"; "style"; "head"] then EmptyString
      else
        foldr (fun a s => (if (String.eqb (fst a) "alt" || String.eqb (fst a) "title")
                              && negb (String.eqb (snd a) EmptyString)
                           then snd a +:+ space else EmptyString) +:+ s) EmptyString attrs
        +:+ below children
  | HText data children => data +:+ space +:+ below children
  | HOther children => below children
  end.

(** [emailHTMLPartIDs]: the non-empty part ids, nested parts included. *)
Fixpoint html_part_ids (p : EmailBodyPart) : list string :=
  let '(mkPart PartID _ _ _ _ _ _ _ _ _ _ SubParts) := p in
  (match PartID with Some i => if String.eqb i EmptyString then [] else [i] | None => [] end)
  ++ (fix go (l : list EmailBodyPart) : list string :=
        match l with [] => [] | c :: l' => html_part_ids c ++ go l' end) SubParts.
Definition emailHTMLPartIDs (em : Email) : list string := flat_map html_part_ids (em_HTMLBody em).

Section Search.
Context `{GoRuntime}.
(** [html.Parse] *)
Variable html_Parse : string -> option html_node.

Definition htmlSearchText (s : string) : string :=
  match html_Parse s with None => s | Some doc => html_walk doc end.

Definition address_text (a : EmailAddress) : string := ea_Name a +:+ space +:+ ea_Email a +:+ space.

Definition emailSearchText (em : Email) : string :=
  let htmlIDs := emailHTMLPartIDs em in
  em_Subject em +:+ space +:+ em_Preview em +:+ space
  +:+ Join (map address_text (em_From em ++ em_To em ++ em_CC em ++ em_BCC em)) EmptyString
  +:+ Join (map (fun pv => (if str_in (fst pv) htmlIDs then htmlSearchText (bv_Value (snd pv))
                            else bv_Value (snd pv)) +:+ space) (em_BodyValues em)) EmptyString.

(** The state of [searchTerms] while it reads the query: the terms so far, the
    current one, and the two flags. *)
Definition term_cutset : string :=
  str_of [" "%char; "009"%char; "013"%char; "010"%char; "*"%char; "'"%char; dquote].
Definition flush (terms : list string) (b : string) : list string :=
  let t := Trim b term_cutset in
  if String.eqb t EmptyString then terms else terms ++ [t].
Definition is_blank (c : ascii) : bool :=
  Ascii.eqb c " " || Ascii.eqb c "009" || Ascii.eqb c "013" || Ascii.eqb c "010".
Fixpoint search_terms (q : string) (terms : list string) (b : string) (inQuote escaped : bool)
  : list string :=
  match q with
  | EmptyString => flush terms b
  | String r q' =>
      if escaped then search_terms q' terms (b +:+ str_of [r]) inQuote false
      else if Ascii.eqb r backslash && inQuote then search_terms q' terms b inQuote true
      else if Ascii.eqb r dquote then search_terms q' (flush terms b) EmptyString (negb inQuote) false
      else if negb inQuote && is_blank r then search_terms q' (flush terms b) EmptyString inQuote false
      else search_terms q' terms (b +:+ str_of [r]) inQuote false
  end.
Definition searchTerms (q : string) : list string := search_terms (ToLower q) [] EmptyString false false.

(** The fields of a text: maximal runs of letters, digits and [@.-_]. *)
Definition word_byte (c : ascii) : bool :=
  is_alnum_ascii c || Ascii.eqb c "@" || Ascii.eqb c "." || Ascii.eqb c "-" || Ascii.eqb c "_".
Fixpoint fields (s cur : string) : list string :=
  match s with
  | EmptyString => if String.eqb cur EmptyString then [] else [cur]
  | String c s' =>
      if word_byte c then fields s' (cur +:+ str_of [c])
      else (if String.eqb cur EmptyString then [] else [cur]) ++ fields s' EmptyString
  end.
Definition word_fields (h : string) : list string :=
  if is_ascii h then fields h EmptyString else rt_word_fields h.

Definition term_found (h : string) (words : list string) (t : string) : bool :=
  str_in t words
  || ((Contains t " " || Contains t "@") && Contains h t)
  || existsb (fun w => HasPrefix w t) words.
Definition containsAllTerms (haystack : string) (terms : list string) : bool :=
  let h := ToLower haystack in
  let words := word_fields h in
  forallb (term_found h words) terms.

(** [CleanQueryTerm] *)
Definition CleanQueryTerm (q : string) : string :=
  Trim (TrimSpace q) (str_of ["*"%char; dquote; "'"%char]).

Definition matchBody (em : Email) (query : string) : bool :=
  let q := ToLower (CleanQueryTerm query) in
  if String.eqb q EmptyString then true
  else Contains (ToLower (em_Preview em)) q
       || existsb (fun pv => Contains (ToLower (bv_Value (snd pv))) q) (em_BodyValues em).

Definition check_headers (headerName headerValue : string) (headers : list EmailHeader) : bool :=
  existsb (fun h => String.eqb (ToLower (eh_Name h)) headerName
                    && (String.eqb headerValue EmptyString || Contains (ToLower (eh_Value h)) headerValue))
    headers.
Definition matchHeader (em : Email) (headerName headerValue : string) : bool :=
  let check := check_headers (ToLower headerName) (ToLower headerValue) in
  check (em_Headers em) || check (bp_Headers (em_BodyStructure em))
  || existsb (fun p => check (bp_Headers p)) (em_TextBody em)
  || existsb (fun p => check (bp_Headers p)) (em_HTMLBody em).

Definition matchAddresses (addrs : list EmailAddress) (query : string) : bool :=
  let q := ToLower (CleanQueryTerm query) in
  if String.eqb q EmptyString then true
  else existsb (fun a => Contains (ToLower (ea_Name a)) q || Contains (ToLower (ea_Email a)) q) addrs.

(** ** Threads *)

Record ThreadFilterContext : Type := mkThreadContext {
  tc_count : gmap string Z;
  tc_withKw : gmap string (gmap string Z);
}.

Definition bump (m : gmap string Z) (k : string) : gmap string Z := <[k := default 0 (m !! k) + 1]> m.

Definition count_email (tc : ThreadFilterContext) (em : Email) : ThreadFilterContext :=
  mkThreadContext (bump (tc_count tc) (em_ThreadID em))
    (<[em_ThreadID em :=
         foldl (fun m kv => if snd kv : bool then bump m (ToLower (fst kv)) else m)
           (default ∅ (tc_withKw tc !! em_ThreadID em)) (em_Keywords em)]> (tc_withKw tc)).
Definition BuildThreadFilterContext (emails : list Email) : ThreadFilterContext :=
  foldl count_email (mkThreadContext ∅ ∅) emails.

Definition count_of_thread (tc : ThreadFilterContext) (thread : string) : Z :=
  default 0 (tc_count tc !! thread).
Definition count_with (tc : ThreadFilterContext) (thread kw : string) : Z :=
  default 0 (default ∅ (tc_withKw tc !! thread) !! kw).

(** ** Filters *)

(** A string condition: [filter[k].(string)], not empty. *)
Definition str_cond (filter : obj) (k : string) (p : string -> bool) : bool :=
  match get_str filter k with
  | Some v => if String.eqb v EmptyString then true else p v
  | None => true
  end.

Definition le_str (a b : string) : bool := String.leb a b.

(** inMailbox, inMailboxOtherThan, before, after, minSize, maxSize *)
Definition match_placement (em : Email) (filter : obj) : bool :=
  str_cond filter "inMailbox" (bget (em_MailboxIDs em))
  && match get_arr filter "inMailboxOtherThan" with
     | Some (x :: l) =>
         let exclude := flat_map (fun j => match j with JStr s => [s] | _ => [] end) (x :: l) in
         existsb (fun kv => negb (str_in (fst kv) exclude)) (em_MailboxIDs em)
     | _ => true
     end
  && str_cond filter "before" (fun b => negb (le_str b (em_ReceivedAt em)))
  && str_cond filter "after" (fun a => le_str a (em_ReceivedAt em))
  && match get_num filter "minSize" with Some f => negb (SFltb (f64_of_Z (em_Size em)) f) | None => true end
  && match get_num filter "maxSize" with Some f => negb (SFltb f (f64_of_Z (em_Size em))) | None => true end.

(** allInThreadHaveKeyword, someInThreadHaveKeyword, noneInThreadHaveKeyword *)
Definition match_thread (tc : option ThreadFilterContext) (em : Email) (filter : obj) : bool :=
  str_cond filter "allInThreadHaveKeyword" (fun kw =>
    let normKw := ToLower kw in
    match tc with
    | Some tc => let count := count_of_thread tc (em_ThreadID em) in
                 negb ((count =? 0) || negb (count_with tc (em_ThreadID em) normKw =? count))
    | None => bget (em_Keywords em) normKw
    end)
  && str_cond filter "someInThreadHaveKeyword" (fun kw =>
    let normKw := ToLower kw in
    match tc with
    | Some tc => negb (count_with tc (em_ThreadID em) normKw =? 0)
    | None => bget (em_Keywords em) normKw
    end)
  && str_cond filter "noneInThreadHaveKeyword" (fun kw =>
    let normKw := ToLower kw in
    match tc with
    | Some tc => negb (0 <? count_with tc (em_ThreadID em) normKw)
    | None => negb (bget (em_Keywords em) normKw)
    end).

(** hasAttachment, subject, from, to, cc, bcc, body, hasKeyword, notKeyword,
    header, text *)
Definition match_content (em : Email) (filter : obj) : bool :=
  match get_bool filter "hasAttachment" with Some b => Bool.eqb (em_HasAttachment em) b | None => true end
  && str_cond filter "subject" (fun s =>
       let term := CleanQueryTerm s in
       String.eqb term EmptyString || Contains (ToLower (em_Subject em)) (ToLower term))
  && str_cond filter "from" (matchAddresses (em_From em))
  && str_cond filter "to" (matchAddresses (em_To em))
  && str_cond filter "cc" (matchAddresses (em_CC em))
  && str_cond filter "bcc" (matchAddresses (em_BCC em))
  && str_cond filter "body" (matchBody em)
  && str_cond filter "hasKeyword" (fun kw => bget (em_Keywords em) (ToLower kw))
  && str_cond filter "notKeyword" (fun kw => negb (bget (em_Keywords em) (ToLower kw)))
  && match get_arr filter "header" with
     | Some (n :: rest) =>
         let str j := match j with JStr s => s | _ => EmptyString end in
         matchHeader em (str n) (match rest with v :: _ => str v | [] => EmptyString end)
     | _ => true
     end
  && str_cond filter "text" (fun t => containsAllTerms (emailSearchText em) (searchTerms t)).

Fixpoint matches_filter (fuel : nat) (tc : option ThreadFilterContext) (em : Email) (filter : obj) : bool :=
  match filter with
  | [] => true
  | _ =>
      match EvalFilterOperator (Some filter)
              (match fuel with O => fun _ => false | S f => matches_filter f tc em end) with
      | (match_, true) => match_
      | (_, false) => match_placement em filter && match_thread tc em filter && match_content em filter
      end
  end.
Definition MatchesFilterWithThreadContext (em : Email) (filter : obj) (tc : option ThreadFilterContext) : bool :=
  matches_filter (json_depth (JObj filter)) tc em filter.
Definition MatchesFilter (em : Email) (filter : obj) : bool := MatchesFilterWithThreadContext em filter None.
End Search.

(** ** Mutable properties *)

Definition EmailSortableProperties : list string :=
  ["receivedAt"; "size"; "from"; "to"; "subject"; "sentAt"; "hasKeyword"; "allInThreadHaveKeyword";
   "someInThreadHaveKeyword"].
Definition EmailMutableFilterProperties : list string :=
  ["inMailbox"; "inMailboxOtherThan"; "hasKeyword"; "notKeyword"].
Definition EmailMutableSortProperties : list string :=
  ["hasKeyword"; "allInThreadHaveKeyword"; "someInThreadHaveKeyword"].

Fixpoint immutable_filter (fuel : nat) (mutableFilter : list string) (filter : obj) : bool :=
  forallb (fun kv =>
    if String.eqb (fst kv) "operator" then true
    else if String.eqb (fst kv) "conditions" then
      match snd kv with
      | JArr conds =>
          forallb (fun raw => match raw, fuel with
                              | JObj cond, S f => immutable_filter f mutableFilter cond
                              | JObj _, O => true
                              | _, _ => true
                              end) conds
      | _ => true
      end
    else negb (str_in (fst kv) mutableFilter)) filter.
Definition UpToIDTruncationApplicable (filter : obj) (comparators : list Comparator)
    (mutableFilter mutableSort : list string) : bool :=
  immutable_filter (json_depth (JObj filter)) mutableFilter filter
  && forallb (fun c => negb (str_in (c_Property c) mutableSort)) comparators.

(** ** Sorting *)

Section Sort.
Context `{GoRuntime}.

(** [s[n:]]: a slice beyond the end panics. *)
Definition slice_from (s : string) (n : nat) : option string :=
  if (n <=? slen s)%nat then Some (str_drop n s) else None.

(** One pass over the reply and forward prefixes: [None] when none matches,
    otherwise the rest of the subject ([Some None] when the slice panics; the
    offsets are those of the lower-cased subject, the slice that of the
    subject itself). *)
Fixpoint strip_reply (tags : list string) (trimmed lower : string) : option (option string) :=
  match tags with
  | [] => None
  | tag :: tags' =>
      if HasPrefix lower (tag +:+ ":") then Some (slice_from trimmed (slen tag + 1))
      else
        let counter := tag +:+ "[" in
        let next := strip_reply tags' trimmed lower in
        if HasPrefix lower counter then
          match IndexByte (str_drop (slen counter) lower) "]" with
          | Some end_ =>
              let contentStart := (slen counter + end_ + 1)%nat in
              if match String.get contentStart lower with Some c => Ascii.eqb c ":" | None => false end
              then Some (slice_from trimmed (contentStart + 1)) else next
          | None => next
          end
        else next
  end.

(** One iteration of the loop: the subject to continue with, [None] when
    nothing was stripped. *)
Definition strip_subject (trimmed : string) : option (option string) :=
  match strip_reply ["re"; "fwd"; "fw"] trimmed (ToLower trimmed) with
  | Some r => Some r
  | None =>
      match trimmed with
      | String "[" _ => match IndexByte trimmed "]" with
                        | Some end_ => Some (Some (str_drop (end_ + 1) trimmed))
                        | None => None
                        end
      | _ => None
      end
  end.

Definition blank_cutset : string := str_of [" "%char; "009"%char].

(** [None] is a panic. *)
Fixpoint base_loop (fuel : nat) (t : string) : option string :=
  let trimmed := TrimLeft t blank_cutset in
  match strip_subject trimmed with
  | None => Some trimmed
  | Some None => None
  | Some (Some t') => match fuel with O => Some trimmed | S f => base_loop f t' end
  end.

Definition BaseSubject (s : string) : option string :=
  let t := TrimSpace s in
  let t := if (5 <=? slen t)%nat && EqualFold (str_drop (slen t - 5) t) "(fwd)"
           then TrimSpace (str_take (slen t - 5) t) else t in
  base_loop (slen t) t.

(** The subject as the sort key uses it.  A comparison of a subject on which
    BaseSubject panics makes the whole sort panic; the default is a filler that
    the property of the sort, which is about the other emails, never reads. *)
Definition subject_key (em : Email) : string := default EmptyString (BaseSubject (em_Subject em)).

Definition firstAddress (addrs : list EmailAddress) : string :=
  match addrs with
  | [] => EmptyString
  | a :: _ => if negb (String.eqb (ea_Name a) EmptyString) then ea_Name a else ea_Email a
  end.

Definition hasKeyword (em : Email) (keyword : string) : bool := bget (em_Keywords em) keyword.

(** [compareStrings] and [compareBools] *)
Definition compareStrings (collation a b : string) : comparison :=
  if String.eqb collation "i;octet" then String.compare a b
  else String.compare (ToLower a) (ToLower b).
Definition compareBools (a b : bool) : comparison :=
  if Bool.eqb a b then Eq else if negb a then Lt else Gt.

Definition threadKeywordKey (threadID keyword : string) : string :=
  threadID +:+ str_of ["000"%char] +:+ keyword.

(** One comparator, ascending. *)
Definition compare_by (all any : gmap string bool) (c : Comparator) (a b : Email) : comparison :=
  let thread m e := default false (m !! threadKeywordKey (em_ThreadID e) (c_Keyword c)) in
  let p := c_Property c in
  if String.eqb p "receivedAt" then String.compare (em_ReceivedAt a) (em_ReceivedAt b)
  else if String.eqb p "sentAt" then
    String.compare (default EmptyString (em_SentAt a)) (default EmptyString (em_SentAt b))
  else if String.eqb p "subject" then compareStrings (c_Collation c) (subject_key a) (subject_key b)
  else if String.eqb p "size" then em_Size a ?= em_Size b
  else if String.eqb p "from" then
    compareStrings (c_Collation c) (firstAddress (em_From a)) (firstAddress (em_From b))
  else if String.eqb p "to" then
    compareStrings (c_Collation c) (firstAddress (em_To a)) (firstAddress (em_To b))
  else if String.eqb p "hasKeyword" then
    compareBools (hasKeyword a (c_Keyword c)) (hasKeyword b (c_Keyword c))
  else if String.eqb p "allInThreadHaveKeyword" then compareBools (thread all a) (thread all b)
  else if String.eqb p "someInThreadHaveKeyword" then compareBools (thread any a) (thread any b)
  else Eq.

(** The comparators in turn; a descending one is reversed. *)
Fixpoint compare_emails (all any : gmap string bool) (cs : list Comparator) (a b : Email) : comparison :=
  match cs with
  | [] => Eq
  | c :: cs' =>
      match compare_by all any c a b with
      | Eq => compare_emails all any cs' a b
      | r => if c_IsAscending c then r else CompOpp r
      end
  end.

Definition default_comparators (cs : list Comparator) : list Comparator :=
  match cs with [] => [mkComparator "receivedAt" false EmptyString EmptyString] | _ => cs end.

Definition email_less (all any : gmap string bool) (cs : list Comparator) (a b : Email) : bool :=
  match compare_emails all any cs a b with Lt => true | _ => false end.
Definition SortEmailsWithContext (emails : list Email) (comparators : list Comparator)
    (all any : gmap string bool) : list Email :=
  stable_sort (email_less all any (default_comparators comparators)) emails.

(** The per-thread answers [SortEmails] computes from the list. *)
Definition is_thread_sort (c : Comparator) : bool :=
  String.eqb (c_Property c) "allInThreadHaveKeyword" || String.eqb (c_Property c) "someInThreadHaveKeyword".
Definition thread_keys (comparators : list Comparator) (emails : list Email) (has : bool) : list string :=
  flat_map (fun em => flat_map (fun c =>
    if is_thread_sort c && Bool.eqb (hasKeyword em (c_Keyword c)) has
    then [threadKeywordKey (em_ThreadID em) (c_Keyword c)] else []) comparators) emails.
Definition SortEmails (emails : list Email) (comparators : list Comparator) : list Email :=
  let has := thread_keys comparators emails true in
  let lacks := thread_keys comparators emails false in
  let all := list_to_map (map (fun k => (k, negb (str_in k lacks))) has) in
  let any := list_to_map (map (fun k => (k, true)) has) in
  SortEmailsWithContext emails comparators all any.
End Sort.

(** ** Lemmas: filters *)

Section FilterLemmas.
Context `{GoRuntime}.
Variable html_Parse : string -> option html_node.

(** Fuel beyond the depth of the filter changes nothing. *)
Lemma matches_filter_depth tc em fuel : forall f fuel',
  (json_depth (JObj f) <= fuel)%nat -> (json_depth (JObj f) <= fuel')%nat ->
  matches_filter html_Parse fuel tc em f = matches_filter html_Parse fuel' tc em f.
Proof.
  induction fuel as [|fuel IH]; intros f fuel' Hf Hf'.
  - simpl in Hf. lia.
  - destruct f as [|kv f]; [by destruct fuel'|]. destruct fuel' as [|fuel']; [simpl in Hf'; lia|].
    cbn [matches_filter]. erewrite EvalFilterOperator_ext; [done|].
    intros g Hg. apply filter_conditions_depth in Hg. apply IH; lia.
Qed.

(** One level of the evaluation. *)
Lemma MatchesFilter_unfold em f tc :
  f <> [] ->
  MatchesFilterWithThreadContext html_Parse em f tc
  = match EvalFilterOperator (Some f) (fun g => MatchesFilterWithThreadContext html_Parse em g tc) with
    | (b, true) => b
    | (_, false) => match_placement em f && match_thread tc em f && match_content html_Parse em f
    end.
Proof.
  intros Hne. destruct f as [|kv f]; [done|]. unfold MatchesFilterWithThreadContext at 1.
  destruct (json_depth (JObj (kv :: f))) as [|n] eqn:E; [done|]. cbn [matches_filter].
  erewrite EvalFilterOperator_ext; [done|]. intros g Hg. apply filter_conditions_depth in Hg.
  unfold MatchesFilterWithThreadContext. apply matches_filter_depth; lia.
Qed.
End FilterLemmas.

(** ** Lemmas: thread counts *)

Section ThreadLemmas.
Context `{GoRuntime}.

Lemma bump_get m k k' : default 0 (bump m k !! k') = default 0 (m !! k') + (if decide (k = k') then 1 else 0).
Proof. unfold bump. rewrite lookup_insert. case_decide; subst; simpl; lia. Qed.

(** How often a keyword is set in a keyword map. *)
Fixpoint occ (kws : list (string * bool)) (kw : string) : Z :=
  match kws with
  | [] => 0
  | (k, b) :: l => (if (b : bool) && String.eqb (ToLower k) kw then 1 else 0) + occ l kw
  end.

Lemma bump_keywords kws kw : forall m,
  default 0 (foldl (fun m kv => if snd kv : bool then bump m (ToLower (fst kv)) else m) m kws !! kw)
  = default 0 (m !! kw) + occ kws kw.
Proof.
  induction kws as [|[k []] l IH]; intros m; simpl; [lia| |by rewrite IH].
  rewrite IH, bump_get. destruct (String.eqb (ToLower k) kw) eqn:E; bool_props; subst.
  - rewrite decide_True by done. lia.
  - rewrite decide_False by done. lia.
Qed.

(** The number of emails of a thread, and the occurrences of a keyword in it. *)
Fixpoint thread_size (emails : list Email) (t : string) : Z :=
  match emails with
  | [] => 0
  | e :: l => (if String.eqb (em_ThreadID e) t then 1 else 0) + thread_size l t
  end.
Fixpoint thread_occ (emails : list Email) (t kw : string) : Z :=
  match emails with
  | [] => 0
  | e :: l => (if String.eqb (em_ThreadID e) t then occ (em_Keywords e) kw else 0) + thread_occ l t kw
  end.

Lemma count_fold emails t kw : forall tc,
  count_of_thread (foldl count_email tc emails) t = count_of_thread tc t + thread_size emails t
  /\ count_with (foldl count_email tc emails) t kw = count_with tc t kw + thread_occ emails t kw.
Proof.
  induction emails as [|e l IH]; intros tc; simpl; [lia|].
  destruct (IH (count_email tc e)) as [-> ->]. unfold count_of_thread, count_with, count_email. simpl.
  rewrite bump_get, lookup_insert. destruct (String.eqb (em_ThreadID e) t) eqn:E; bool_props; subst.
  - rewrite !decide_True by done. simpl. rewrite bump_keywords. lia.
  - rewrite !decide_False by done. lia.
Qed.

Lemma Build_counts emails t kw :
  count_of_thread (BuildThreadFilterContext emails) t = thread_size emails t
  /\ count_with (BuildThreadFilterContext emails) t kw = thread_occ emails t kw.
Proof.
  unfold BuildThreadFilterContext. destruct (count_fold emails t kw (mkThreadContext ∅ ∅)) as [-> ->].
  unfold count_of_thread, count_with. simpl. rewrite !lookup_empty. simpl. rewrite lookup_empty. simpl. lia.
Qed.

(** The keywords of an email as the server stores them: lower case, each once. *)
Definition stored_keywords (kws : list (string * bool)) : Prop :=
  NoDup (map fst kws) /\ forall k b, (k, b) ∈ kws -> ToLower k = k.

Lemma occ_bget kws kw :
  stored_keywords kws -> occ kws kw = if bget kws kw then 1 else 0.
Proof.
  intros [Hn Hl]. induction kws as [|[k b] l IH]; simpl; [done|].
  apply NoDup_cons in Hn as [Hk Hn].
  rewrite (Hl k b) by set_solver. rewrite IH by (done || set_solver). unfold bget. simpl.
  destruct (String.eqb k kw) eqn:E; bool_props; subst.
  - rewrite andb_true_r.
    assert (List.find (fun e => String.eqb (fst e) kw) l = None) as ->.
    { destruct (List.find _ l) as [[k' b']|] eqn:Ef; [|done]. apply List.find_some in Ef as [Hin Hk'].
      simpl in *. bool_props. subst k'. destruct Hk. apply list_elem_of_In, in_map_iff. by exists (kw, b'). }
    lia.
  - rewrite andb_false_r. done.
Qed.

Lemma thread_occ_bounds emails t kw :
  (forall e, e ∈ emails -> stored_keywords (em_Keywords e)) ->
  0 <= thread_occ emails t kw <= thread_size emails t
  /\ (thread_occ emails t kw = thread_size emails t <->
      forall e, e ∈ emails -> em_ThreadID e = t -> bget (em_Keywords e) kw = true)
  /\ (thread_occ emails t kw = 0 <->
      forall e, e ∈ emails -> em_ThreadID e = t -> bget (em_Keywords e) kw = false).
Proof.
  induction emails as [|e l IH]; intros Hst; simpl.
  { split_and!; [lia|lia|..]; (split; [intros _ e He; by apply not_elem_of_nil in He|done]). }
  destruct IH as (Hb & Hall & Hnone); [set_solver|].
  rewrite (occ_bget (em_Keywords e) kw) by (apply Hst; set_solver).
  destruct (String.eqb (em_ThreadID e) t) eqn:E; bool_props.
  - destruct (bget (em_Keywords e) kw) eqn:Eb.
    + split_and!; [lia|lia|..].
      * split; [intros Hs e' [->|He']%elem_of_cons Ht; [done|apply Hall; [lia|done|done]]|].
        intros Hs. enough (thread_occ l t kw = thread_size l t) by lia. apply Hall. set_solver.
      * split; [lia|]. intros Hs. exfalso. rewrite (Hs e) in Eb; set_solver.
    + split_and!; [lia|lia|..].
      * split; [lia|]. intros Hs. exfalso. rewrite (Hs e) in Eb; set_solver.
      * split; [intros Hs e' [->|He']%elem_of_cons Ht; [done|apply Hnone; [lia|done|done]]|].
        intros Hs. enough (thread_occ l t kw = 0) by lia. apply Hnone. set_solver.
  - split_and!; [lia|lia|..].
    + rewrite !Z.add_0_l. rewrite Hall. split; [intros Hs e' [->|He']%elem_of_cons Ht; [done|auto]|set_solver].
    + rewrite !Z.add_0_l. rewrite Hnone. split; [intros Hs e' [->|He']%elem_of_cons Ht; [done|auto]|set_solver].
Qed.

Lemma thread_size_pos emails em : em ∈ emails -> 0 < thread_size emails (em_ThreadID em).
Proof.
  assert (forall l t, 0 <= thread_size l t) as Hnn.
  { intros l t. induction l as [|e l IH]; simpl; [lia|]. case_match; lia. }
  induction emails as [|e l IH]; intros Hin; [by apply not_elem_of_nil in Hin|]. simpl.
  pose proof (Hnn l (em_ThreadID em)).
  apply elem_of_cons in Hin as [->|Hin]; [rewrite String.eqb_refl; lia|].
  specialize (IH Hin). case_match; lia.
Qed.

Lemma thread_occ_witness emails t kw :
  (forall e, e ∈ emails -> stored_keywords (em_Keywords e)) ->
  thread_occ emails t kw <> 0 -> exists e, e ∈ emails /\ em_ThreadID e = t /\ bget (em_Keywords e) kw = true.
Proof.
  induction emails as [|e l IH]; intros Hst Hne; [done|]. simpl in Hne.
  destruct (String.eqb (em_ThreadID e) t) eqn:E; bool_props.
  - rewrite occ_bget in Hne by (apply Hst; set_solver).
    destruct (bget (em_Keywords e) kw) eqn:Eb; [exists e; split_and!; [set_solver|done|done]|].
    destruct IH as (e' & He' & ? & ?); [set_solver|lia|]. exists e'. split_and!; [set_solver|done|done].
  - destruct IH as (e' & He' & ? & ?); [set_solver|lia|]. exists e'. split_and!; [set_solver|done|done].
Qed.
End ThreadLemmas.

(** ** Lemmas: comparisons *)

Lemma lawful_bool : lawful compareBools.
Proof. split; [by intros [] []|by intros [] [] []]. Qed.

Section SortLemmas.
Context `{GoRuntime}.

Lemma lawful_compareStrings collation : lawful (compareStrings collation).
Proof.
  unfold compareStrings. destruct (String.eqb collation "i;octet"); [apply lawful_string|].
  apply (lawful_key String.compare ToLower), lawful_string.
Qed.

Lemma lawful_compare_by all any c : lawful (compare_by all any c).
Proof.
  unfold compare_by.
  repeat match goal with |- lawful (fun a b => if ?x then _ else _) => destruct x end.
  all: first [apply lawful_const
    | apply (lawful_key String.compare em_ReceivedAt), lawful_string
    | apply (lawful_key String.compare (fun e => default EmptyString (em_SentAt e))), lawful_string
    | apply (lawful_key Z.compare em_Size), lawful_Z
    | apply (lawful_key (compareStrings _) subject_key), lawful_compareStrings
    | apply (lawful_key (compareStrings _) (fun e => firstAddress (em_From e))), lawful_compareStrings
    | apply (lawful_key (compareStrings _) (fun e => firstAddress (em_To e))), lawful_compareStrings
    | apply (lawful_key compareBools), lawful_bool ].
Qed.

Lemma lawful_compare_emails all any cs : lawful (compare_emails all any cs).
Proof.
  induction cs as [|c cs IH]; [apply lawful_const|]. simpl.
  pose proof (lawful_compare_by all any c) as Hc. destruct (c_IsAscending c).
  - by apply (lawful_lex (compare_by all any c)).
  - assert (lawful (fun a b => match CompOpp (compare_by all any c a b) with
                               | Eq => compare_emails all any cs a b | r => r end)) as [Ha Ht]
      by (apply (lawful_lex (fun a b => CompOpp (compare_by all any c a b))); [by apply lawful_opp|done]).
    split.
    + intros a b. specialize (Ha a b). destruct (compare_by all any c a b), (compare_by all any c b a); done.
    + intros x y z. specialize (Ht x y z).
      destruct (compare_by all any c x y), (compare_by all any c y z), (compare_by all any c x z); done.
Qed.
End SortLemmas.

(** ** Specification: what the comparators say *)

(** The sort key of an email for a comparator. *)
Inductive sort_value : Type := VText (s : string) | VSize (n : Z) | VFlag (b : bool).
Inductive value_lt : sort_value -> sort_value -> Prop :=
| lt_text s s' : String.compare s s' = Lt -> value_lt (VText s) (VText s')
| lt_size n n' : n < n' -> value_lt (VSize n) (VSize n')
| lt_flag : value_lt (VFlag false) (VFlag true).

Section Placed.
Context `{GoRuntime}.
Variable emails : list Email.
Definition collated (c : Comparator) (s s' : string) : Prop :=
  c_Collation c = "i;octet" /\ s' = s \/ c_Collation c <> "i;octet" /\ s' = ToLower s.
(** The first address: its name if it has one. *)
Inductive first_named : list EmailAddress -> string -> Prop :=
| first_none : first_named [] EmptyString
| first_name a l : ea_Name a <> EmptyString -> first_named (a :: l) (ea_Name a)
| first_address a l : ea_Name a = EmptyString -> first_named (a :: l) (ea_Email a).
Definition marked_with (c : Comparator) (e : Email) : Prop := bget (em_Keywords e) (c_Keyword c) = true.
Inductive has_key (c : Comparator) (e : Email) : sort_value -> Prop :=
| key_receivedAt : c_Property c = "receivedAt" -> has_key c e (VText (em_ReceivedAt e))
| key_sentAt : c_Property c = "sentAt" -> has_key c e (VText (default EmptyString (em_SentAt e)))
| key_subject s s' : c_Property c = "subject" -> BaseSubject (em_Subject e) = Some s -> collated c s s' -> has_key c e (VText s')
| key_size : c_Property c = "size" -> has_key c e (VSize (em_Size e))
| key_from s s' : c_Property c = "from" -> first_named (em_From e) s -> collated c s s' -> has_key c e (VText s')
| key_to s s' : c_Property c = "to" -> first_named (em_To e) s -> collated c s s' -> has_key c e (VText s')
| key_keyword b : c_Property c = "hasKeyword" -> b = true <-> marked_with c e -> has_key c e (VFlag b)
| key_all b : c_Property c = "allInThreadHaveKeyword" ->
    b = true <-> (forall e', e' ∈ emails -> em_ThreadID e' = em_ThreadID e -> marked_with c e') -> has_key c e (VFlag b)
| key_some b : c_Property c = "someInThreadHaveKeyword" ->
    b = true <-> (exists e', e' ∈ emails /\ em_ThreadID e' = em_ThreadID e /\ marked_with c e') -> has_key c e (VFlag b)
| key_other : c_Property c ∉ ["receivedAt"; "sentAt"; "subject"; "size"; "from"; "to"; "hasKeyword"; "allInThreadHaveKeyword";
    "someInThreadHaveKeyword"] -> has_key c e (VFlag false).
Definition same_key (c : Comparator) (a b : Email) : Prop := exists v, has_key c a v /\ has_key c b v.
(** The first comparator that tells two emails apart decides. *)
Inductive placed_before : list Comparator -> Email -> Email -> Prop :=
| placed_here c cs a b va vb : has_key c a va -> has_key c b vb ->
    (if c_IsAscending c then value_lt va vb else value_lt vb va) -> placed_before (c :: cs) a b
| placed_later c cs a b : same_key c a b -> placed_before cs a b -> placed_before (c :: cs) a b.

(** *** The code computes these keys *)

Definition value_compare (a b : sort_value) : comparison :=
  match a, b with
  | VText s, VText s' => String.compare s s'
  | VSize n, VSize n' => n ?= n'
  | VFlag x, VFlag y => compareBools x y
  | _, _ => Eq
  end.
Definition collate (c : Comparator) (s : string) : string := if String.eqb (c_Collation c) "i;octet" then s else ToLower s.
Definition key_of (all any : gmap string bool) (c : Comparator) (e : Email) : sort_value :=
  let thread m := default false (m !! threadKeywordKey (em_ThreadID e) (c_Keyword c)) in
  let p := c_Property c in
  if String.eqb p "receivedAt" then VText (em_ReceivedAt e)
  else if String.eqb p "sentAt" then VText (default EmptyString (em_SentAt e))
  else if String.eqb p "subject" then VText (collate c (subject_key e))
  else if String.eqb p "size" then VSize (em_Size e)
  else if String.eqb p "from" then VText (collate c (firstAddress (em_From e)))
  else if String.eqb p "to" then VText (collate c (firstAddress (em_To e)))
  else if String.eqb p "hasKeyword" then VFlag (hasKeyword e (c_Keyword c))
  else if String.eqb p "allInThreadHaveKeyword" then VFlag (thread all)
  else if String.eqb p "someInThreadHaveKeyword" then VFlag (thread any)
  else VFlag false.
Lemma compareStrings_collate c s s' : compareStrings (c_Collation c) s s' = String.compare (collate c s) (collate c s').
Proof. unfold compareStrings, collate. by destruct (String.eqb _ _). Qed.
Lemma compare_by_keys all any c a b : compare_by all any c a b = value_compare (key_of all any c a) (key_of all any c b).
Proof. unfold compare_by, key_of. rewrite !compareStrings_collate. repeat case_match; done. Qed.
Lemma collated_collate c s s' : collated c s s' <-> s' = collate c s.
Proof. unfold collated, collate. destruct (String.eqb_spec (c_Collation c) "i;octet"); naive_solver. Qed.
Lemma first_named_firstAddress l s : first_named l s <-> s = firstAddress l.
Proof.
  destruct l as [|a l]; cbn [firstAddress]; [split; [by inversion 1|intros ->; constructor]|].
  destruct (String.eqb_spec (ea_Name a) EmptyString) as [E|E]; cbn [negb]; (split; [by inversion 1|intros ->; by constructor]).
Qed.

(** A key of the per-thread tables names its thread and keyword. *)
Lemma nul_cut s s' k k' :
  lacks "000" s = true -> lacks "000" s' = true -> threadKeywordKey s k = threadKeywordKey s' k' -> s = s' /\ k = k'.
Proof.
  unfold threadKeywordKey, lacks. revert s'. induction s as [|c s IH]; intros [|c' s'] Hs Hs' E.
  - by injection E.
  - cbn in Hs'. injection E as <- _. by rewrite Ascii.eqb_refl in Hs'.
  - cbn in Hs. injection E as -> _. by rewrite Ascii.eqb_refl in Hs.
  - cbn in Hs, Hs'. apply andb_prop in Hs as [_ Hs], Hs' as [_ Hs']. cbn in E. injection E as -> E. destruct (IH s' Hs Hs' E) as [-> ->]. done.
Qed.
Hypothesis Hok : forall e, e ∈ emails -> is_Some (BaseSubject (em_Subject e)) /\ lacks "000" (em_ThreadID e) = true.
Variable comparators : list Comparator.
Lemma thread_keys_spec c e has :
  e ∈ emails -> c ∈ comparators -> is_thread_sort c = true ->
  threadKeywordKey (em_ThreadID e) (c_Keyword c) ∈ thread_keys comparators emails has
  <-> exists e', e' ∈ emails /\ em_ThreadID e' = em_ThreadID e /\ hasKeyword e' (c_Keyword c) = has.
Proof.
  intros He Hc Hs. unfold thread_keys. rewrite list_elem_of_In, in_flat_map. split.
  - intros (e' & He' & Hx). apply in_flat_map in Hx as (c' & Hc' & Hx). destruct (is_thread_sort c' && _) eqn:E; [|done].
    apply andb_prop in E as [_ E]. apply eqb_prop in E. apply list_elem_of_In in He'. destruct Hx as [Hx|[]].
    apply nul_cut in Hx as [Ht Hk]; [|by apply Hok..]. exists e'. rewrite <- Hk. done.
  - intros (e' & He' & Ht & Hh). exists e'. split; [by apply list_elem_of_In|]. apply in_flat_map. exists c. split; [by apply list_elem_of_In|].
    rewrite Hs, Hh, eqb_reflx. cbn [andb]. left. by rewrite Ht.
Qed.
Lemma table_lookup (f : string -> bool) k l : (list_to_map (map (fun k => (k, f k)) l) : gmap string bool) !! k = if str_in k l then Some (f k) else None.
Proof.
  induction l as [|x l IH]; [done|]. cbn [map list_to_map foldr fst snd str_in existsb]. rewrite String.eqb_sym. cbn.
  destruct (String.eqb_spec x k) as [->|Hne]; [by rewrite lookup_insert_eq|]. rewrite lookup_insert_ne by done. exact IH.
Qed.
Let all : gmap string bool :=
  list_to_map (map (fun k => (k, negb (str_in k (thread_keys comparators emails false)))) (thread_keys comparators emails true)).
Let any : gmap string bool := list_to_map (map (fun k => (k, true)) (thread_keys comparators emails true)).

Lemma all_flag c e : e ∈ emails -> c ∈ comparators -> is_thread_sort c = true ->
  default false (all !! threadKeywordKey (em_ThreadID e) (c_Keyword c)) = true
  <-> forall e', e' ∈ emails -> em_ThreadID e' = em_ThreadID e -> marked_with c e'.
Proof.
  intros He Hc Hs. unfold all. rewrite (table_lookup (fun k => negb (str_in k (thread_keys comparators emails false)))).
  destruct (str_in _ (thread_keys comparators emails true)) eqn:Et; cbn.
  - rewrite negb_true_iff. split.
    + intros Hf e' He' Ht. unfold marked_with. destruct (bget (em_Keywords e') (c_Keyword c)) eqn:Eb; [done|].
      assert (Hin : threadKeywordKey (em_ThreadID e) (c_Keyword c) ∈ thread_keys comparators emails false) by (apply thread_keys_spec; eauto).
      apply str_in_spec in Hin. congruence.
    + intros Hall. apply not_true_is_false. intros Hin%str_in_spec. apply thread_keys_spec in Hin as (e' & He' & Ht & Hh); [|done..].
      specialize (Hall e' He' Ht). unfold marked_with, hasKeyword in *. congruence.
  - split; [done|]. intros Hall. exfalso. assert (Hin : threadKeywordKey (em_ThreadID e) (c_Keyword c) ∈ thread_keys comparators emails true).
    { apply thread_keys_spec; [done..|]. exists e. split_and!; [done|done|]. by apply Hall. }
    apply str_in_spec in Hin. congruence.
Qed.
Lemma any_flag c e : e ∈ emails -> c ∈ comparators -> is_thread_sort c = true ->
  default false (any !! threadKeywordKey (em_ThreadID e) (c_Keyword c)) = true
  <-> exists e', e' ∈ emails /\ em_ThreadID e' = em_ThreadID e /\ marked_with c e'.
Proof.
  intros He Hc Hs. unfold any. rewrite (table_lookup (fun _ => true)). pose proof (thread_keys_spec c e true He Hc Hs) as Hk.
  rewrite <- str_in_spec in Hk. unfold marked_with. unfold hasKeyword in Hk. rewrite <- Hk. by destruct (str_in _ _).
Qed.

Ltac prop_case p := match goal with |- context [String.eqb (c_Property ?c) p] => destruct (String.eqb_spec (c_Property c) p) as [?E|?E] end.
Lemma key_of_has c e : e ∈ emails -> (is_thread_sort c = true -> c ∈ comparators) -> has_key c e (key_of all any c e).
Proof.
  intros He Hc. unfold key_of.
  prop_case "receivedAt"; [by constructor|]. prop_case "sentAt"; [by apply key_sentAt|].
  prop_case "subject".
  { destruct (Hok e He) as [[s Hs] _]. eapply key_subject; [done|exact Hs|]. apply collated_collate. unfold subject_key. by rewrite Hs. }
  prop_case "size"; [by constructor|].
  prop_case "from"; [eapply key_from; [done|by apply first_named_firstAddress|by apply collated_collate]|].
  prop_case "to"; [eapply key_to; [done|by apply first_named_firstAddress|by apply collated_collate]|].
  prop_case "hasKeyword"; [by apply key_keyword|].
  prop_case "allInThreadHaveKeyword"; [apply key_all; [done|]; assert (Ht : is_thread_sort c = true) by (unfold is_thread_sort; by rewrite E6); apply all_flag; [done|by apply Hc|done]|].
  prop_case "someInThreadHaveKeyword"; [apply key_some; [done|]; assert (Ht : is_thread_sort c = true) by (unfold is_thread_sort; by rewrite E7); apply any_flag; [done|by apply Hc|done]|].
  apply key_other. rewrite !not_elem_of_cons. split_and!; try done. apply not_elem_of_nil.
Qed.
Lemma has_key_fun c e v v' : has_key c e v -> has_key c e v' -> v = v'.
Proof.
  intros H1 H2. destruct H1, H2; try congruence.
  all: try match goal with E : ?p = _, Hn : ?p ∉ _ |- _ => exfalso; apply Hn; rewrite E; by apply str_in_spec end.
  all: try (repeat match goal with H : collated _ _ _ |- _ => apply collated_collate in H
      | H : first_named _ _ |- _ => apply first_named_firstAddress in H end; congruence).
  all: f_equal; apply eq_true_iff_eq; etransitivity; [eassumption|symmetry; eassumption].
Qed.
Lemma has_key_is c e v : e ∈ emails -> (is_thread_sort c = true -> c ∈ comparators) -> has_key c e v <-> v = key_of all any c e.
Proof. intros He Hc. pose proof (key_of_has c e He Hc) as Hk. split; [intros Hv; by eapply has_key_fun|by intros ->]. Qed.

Lemma value_compare_lt c c' a b : value_compare (key_of all any c a) (key_of all any c b) = c' ->
  match c' with
  | Lt => value_lt (key_of all any c a) (key_of all any c b)
  | Eq => key_of all any c a = key_of all any c b
  | Gt => value_lt (key_of all any c b) (key_of all any c a)
  end.
Proof.
  assert (Hs : forall s s', match String.compare s s' with Lt => value_lt (VText s) (VText s') | Eq => VText s = VText s' | Gt => value_lt (VText s') (VText s) end).
  { intros s s'. destruct (String.compare s s') eqn:E; [by apply String.compare_eq_iff in E as ->|by constructor|].
    constructor. rewrite String.compare_antisym, E. done. }
  assert (Hf : forall x y, match compareBools x y with Lt => value_lt (VFlag x) (VFlag y) | Eq => VFlag x = VFlag y | Gt => value_lt (VFlag y) (VFlag x) end)
    by (intros [] []; constructor).
  intros <-. unfold key_of. repeat match goal with |- context [if String.eqb ?x ?y then _ else _] => destruct (String.eqb x y) end;
    cbn [value_compare]; try apply Hs; try apply Hf.
  destruct (Z.compare_spec (em_Size a) (em_Size b)); [by f_equal|by constructor|by constructor].
Qed.
Lemma value_lt_irrefl v : ~ value_lt v v.
Proof. inversion 1; [rewrite compare_self in *; done|lia]. Qed.
Lemma value_lt_asym v w : value_lt v w -> ~ value_lt w v.
Proof. intros H1 H2. destruct H1 as [s s' Hs| |]; inversion H2; subst; [|lia].
  match goal with Hr : String.compare s' s = Lt |- _ => rewrite String.compare_antisym, Hs in Hr; discriminate Hr end. Qed.
Lemma compare_emails_placed cs a b :
  a ∈ emails -> b ∈ emails -> (forall c, c ∈ cs -> is_thread_sort c = true -> c ∈ comparators) ->
  (compare_emails all any cs a b = Lt <-> placed_before cs a b)
  /\ (compare_emails all any cs a b = Eq <-> Forall (fun c => same_key c a b) cs).
Proof.
  intros Ha Hb. induction cs as [|c cs IH]; intros Hc.
  { cbn. split; (split; [try done|try done]); by inversion 1. }
  destruct IH as [IHl IHe]; [intros x Hx; apply Hc; by right|].
  assert (Hka := fun v => has_key_is c a v Ha (Hc c (list_elem_of_here _ _))). assert (Hkb := fun v => has_key_is c b v Hb (Hc c (list_elem_of_here _ _))).
  assert (Hsame : same_key c a b <-> key_of all any c a = key_of all any c b).
  { unfold same_key. split; [intros (v & Hv & Hv'); apply Hka in Hv; apply Hkb in Hv'; congruence|].
    intros E. exists (key_of all any c a). split; [by apply Hka|by apply Hkb]. }
  assert (Hplaced : placed_before (c :: cs) a b <->
    (if c_IsAscending c then value_lt (key_of all any c a) (key_of all any c b) else value_lt (key_of all any c b) (key_of all any c a))
    \/ same_key c a b /\ placed_before cs a b).
  { split.
    - inversion 1 as [? ? ? ? va vb Hva Hvb Hlt|]; subst; [left|by right]. apply Hka in Hva as ->. by apply Hkb in Hvb as ->.
    - intros [Hlt|[Hs Hp]]; [|by apply placed_later]. eapply placed_here; [by apply Hka|by apply Hkb|done]. }
  rewrite Hplaced, Forall_cons, Hsame. cbn [compare_emails]. rewrite compare_by_keys.
  pose proof (value_compare_lt c _ a b eq_refl) as Hv.
  destruct (value_compare (key_of all any c a) (key_of all any c b)).
  - rewrite <- Hv. split; [|rewrite <- IHe; tauto]. rewrite <- IHl. split; [by right|]. intros [Hlt|[_ ?]]; [|done].
    destruct (c_IsAscending c); by apply value_lt_irrefl in Hlt.
  - assert (Hne : key_of all any c a <> key_of all any c b) by (intros E; rewrite E in Hv; by apply value_lt_irrefl in Hv).
    apply value_lt_asym in Hv as Hn. destruct (c_IsAscending c); cbn [CompOpp]; split; (split; [try done|try done]); try (by left); try (by intros [? _]);
      by intros [?|[? _]].
  - assert (Hne : key_of all any c a <> key_of all any c b) by (intros E; rewrite E in Hv; by apply value_lt_irrefl in Hv).
    apply value_lt_asym in Hv as Hn. destruct (c_IsAscending c); cbn [CompOpp]; split; (split; [try done|try done]); try (by left); try (by intros [? _]);
      by intros [?|[? _]].
Qed.
Lemma SortEmails_by_keys :
  let cs := match comparators with [] => [mkComparator "receivedAt" false EmptyString EmptyString] | _ => comparators end in
  exists cmp, lawful cmp
    /\ (forall a b, a ∈ emails -> b ∈ emails ->
          (cmp a b = Lt <-> placed_before cs a b) /\ (cmp a b = Eq <-> Forall (fun c => same_key c a b) cs))
    /\ SortEmails emails comparators = stable_sort (lt_of cmp) emails.
Proof.
  intros cs. exists (compare_emails all any cs). split_and!; [apply lawful_compare_emails| |by unfold cs; destruct comparators].
  intros a b Ha Hb. apply compare_emails_placed; [done|done|]. intros c Hc Ht. unfold cs in Hc. destruct comparators; [|done].
  apply list_elem_of_singleton in Hc as ->. done.
Qed.
End Placed.

(** ** Lemmas: base subjects *)

Section SubjectLemmas.
Context `{GoRuntime}.

Lemma slice_from_shorter s n t :
  slice_from s n = Some t -> (1 <= n)%nat -> (slen t < slen s)%nat.
Proof.
  unfold slice_from. destruct (Nat.leb_spec n (slen s)); [|done]. intros [= <-] Hn.
  rewrite str_drop_length. lia.
Qed.

Lemma strip_reply_shorter tags s lower t :
  strip_reply tags s lower = Some (Some t) -> (slen t < slen s)%nat.
Proof.
  induction tags as [|tag tags IH]; [done|]. cbn [strip_reply].
  destruct (HasPrefix lower (tag +:+ ":")).
  { intros [= Hs]. eapply slice_from_shorter; [done|lia]. }
  destruct (HasPrefix lower (tag +:+ "[")); [|done].
  destruct (IndexByte _ _); [|done]. destruct (String.get _ lower) as [c|]; [|done].
  destruct (Ascii.eqb c ":"); [|done]. intros [= Hs]. eapply slice_from_shorter; [done|lia].
Qed.

Lemma strip_subject_shorter s t : strip_subject s = Some (Some t) -> (slen t < slen s)%nat.
Proof.
  unfold strip_subject. destruct (strip_reply _ s _) as [r|] eqn:E.
  - intros [= ->]. by apply strip_reply_shorter in E.
  - intros Hs. destruct s as [|c s]; [done|].
    assert (exists e, t = str_drop (e + 1) (String c s)) as [e ->].
    { destruct (IndexByte (String c s) "]") as [e|];
        [exists e|]; repeat (case_match; simplify_eq); done. }
    rewrite str_drop_length. simpl. lia.
Qed.

Lemma TrimLeft_length s cut : (slen (TrimLeft s cut) <= slen s)%nat.
Proof.
  induction s as [|c s IH]; simpl; [done|]. destruct (in_cutset c cut); simpl; [|done].
  unfold slen in *. simpl. lia.
Qed.

Lemma TrimLeft_idem s cut : TrimLeft (TrimLeft s cut) cut = TrimLeft s cut.
Proof.
  induction s as [|c s IH]; simpl; [done|]. destruct (in_cutset c cut) eqn:E; [done|]. simpl. by rewrite E.
Qed.

(** The loop ends: a fuel of the length of the subject is as good as any. *)
Lemma base_loop_fuel fuel : forall t fuel',
  (slen t <= fuel)%nat -> (slen t <= fuel')%nat -> base_loop fuel t = base_loop fuel' t.
Proof.
  induction fuel as [|fuel IH]; intros t fuel' Hf Hf'.
  - destruct t as [|c t]; [|simpl in Hf; lia]. by destruct fuel'.
  - destruct fuel' as [|fuel'].
    { destruct t as [|c t]; [done|simpl in Hf'; lia]. }
    cbn [base_loop]. destruct (strip_subject (TrimLeft t blank_cutset)) as [[t'|]|] eqn:E; [|done|done].
    apply strip_subject_shorter in E. pose proof (TrimLeft_length t blank_cutset). apply IH; lia.
Qed.

Lemma base_loop_result fuel : forall t r,
  (slen t <= fuel)%nat -> base_loop fuel t = Some r ->
  strip_subject r = None /\ TrimLeft r blank_cutset = r /\ (slen r <= slen t)%nat.
Proof.
  induction fuel as [|fuel IH]; intros t r Hf; cbn [base_loop];
    destruct (strip_subject (TrimLeft t blank_cutset)) as [[t'|]|] eqn:E; try done.
  - pose proof (strip_subject_shorter _ _ E). pose proof (TrimLeft_length t blank_cutset). lia.
  - intros [= <-]. split_and!; [done|apply TrimLeft_idem|apply TrimLeft_length].
  - apply strip_subject_shorter in E. pose proof (TrimLeft_length t blank_cutset).
    intros Hr. destruct (IH t' r) as (? & ? & ?); [lia|done|]. split_and!; [done|done|lia].
  - intros [= <-]. split_and!; [done|apply TrimLeft_idem|apply TrimLeft_length].
Qed.
(** On an ASCII subject lower-casing keeps the length, so no slice panics. *)
Lemma strip_reply_ascii tags s lower :
  slen lower = slen s -> strip_reply tags s lower <> Some None.
Proof.
  intros Hlen. induction tags as [|tag tags IH]; [done|]. cbn [strip_reply]. unfold slice_from.
  destruct (HasPrefix lower (tag +:+ ":")) eqn:E.
  { apply HasPrefix_length in E. rewrite slen_app in E. simpl in E.
    destruct (Nat.leb_spec (slen tag + 1) (slen s)); [done|lia]. }
  destruct (HasPrefix lower (tag +:+ "[")); [|done].
  destruct (IndexByte _ _) as [e|]; [|done].
  destruct (String.get _ lower) as [c|] eqn:Eg; [|done]. destruct (Ascii.eqb c ":"); [|done].
  apply get_length in Eg. destruct (Nat.leb_spec (slen (tag +:+ "[") + e + 1 + 1) (slen s)); [done|lia].
Qed.

Lemma strip_reply_suffix tags s lower t :
  strip_reply tags s lower = Some (Some t) -> exists n, t = str_drop n s.
Proof.
  induction tags as [|tag tags IH]; [done|]. cbn [strip_reply]. unfold slice_from.
  destruct (HasPrefix lower (tag +:+ ":")); [case_match; naive_solver|].
  destruct (HasPrefix lower (tag +:+ "[")); [|done].
  destruct (IndexByte _ _); [|done]. destruct (String.get _ lower) as [c|]; [|done].
  destruct (Ascii.eqb c ":"); [case_match; naive_solver|done].
Qed.

Lemma strip_subject_ascii s :
  is_ascii s = true ->
  strip_subject s <> Some None /\ forall t, strip_subject s = Some (Some t) -> is_ascii t = true.
Proof.
  intros Ha. unfold strip_subject.
  assert (Hlen : slen (ToLower s) = slen s) by (rewrite ToLower_ascii, str_map_length; done).
  pose proof (strip_reply_ascii ["re"; "fwd"; "fw"] s _ Hlen).
  destruct (strip_reply _ s _) as [r|] eqn:E.
  - split; [done|]. intros t [= ->]. apply strip_reply_suffix in E as [n ->].
    by apply str_forallb_take_drop.
  - destruct (IndexByte s "]") as [e|]; (split; [by repeat case_match|]); intros t Ht;
      assert (exists n, t = str_drop n s) as [n ->]
        by (repeat (case_match; try discriminate Ht); injection Ht as <-; by eexists);
      by apply str_forallb_take_drop.
Qed.

Lemma base_loop_ascii fuel : forall t, is_ascii t = true -> is_Some (base_loop fuel t).
Proof.
  induction fuel as [|fuel IH]; intros t Ha; cbn [base_loop];
    destruct (strip_subject_ascii (TrimLeft t blank_cutset)) as [Hn Hs];
    try (by apply str_forallb_TrimLeft);
    destruct (strip_subject _) as [[t'|]|]; try done; by auto.
Qed.
End SubjectLemmas.

(** ** Properties *)

Section Properties.
Context `{GoRuntime}.
Variable html_Parse : string -> option html_node.

(** the meaning of filters, at every depth: on a valid FilterOperator the
    evaluation is the conjunction, disjunction or joint denial of the
    evaluations of all of its conditions, themselves complete; an operator
    never falls through to the condition properties. *)
Theorem filter_operators_compose em tc f op conds :
  obj_get f "operator" = Some (JStr op) -> obj_get f "conditions" = Some (JArr conds) ->
  ValidateFilter f = EmptyString ->
  exists fs, conds = map JObj fs
    /\ let m g := MatchesFilterWithThreadContext html_Parse em g tc in
       (ToUpper op = "AND" -> m f = true <-> Forall (fun g => m g = true) fs)
       /\ (ToUpper op = "OR" -> m f = true <-> Exists (fun g => m g = true) fs)
       /\ (ToUpper op = "NOT" -> m f = true <-> Forall (fun g => m g = false) fs)
       /\ (ToUpper op = "AND" \/ ToUpper op = "OR" \/ ToUpper op = "NOT").
Proof.
  intros Hop Hc Hv.
  destruct (operator_evaluates_all_conditions f op conds
              (fun g => MatchesFilterWithThreadContext html_Parse em g tc) Hop Hc Hv)
    as (fs & -> & b & He & Hand & Hor & Hnot & Hname).
  exists fs. split; [done|]. simpl.
  assert (f <> []) by (intros ->; done).
  rewrite MatchesFilter_unfold, He by done. auto.
Qed.

(** the thread conditions mean what RFC 8621 says.  With the context built
    from a list of emails whose keywords are stored in lower case, the three
    conditions hold of an email of the list exactly when every, some or no
    email of its thread in the list has the keyword, in any case. *)
Theorem thread_conditions_exact emails em kw :
  em ∈ emails -> (forall e, e ∈ emails -> stored_keywords (em_Keywords e)) -> kw <> EmptyString ->
  let tc := Some (BuildThreadFilterContext emails) in
  let has e := bget (em_Keywords e) (ToLower kw) in
  let thread e := e ∈ emails /\ em_ThreadID e = em_ThreadID em in
  (match_thread tc em [("allInThreadHaveKeyword", JStr kw)] = true <-> forall e, thread e -> has e = true)
  /\ (match_thread tc em [("someInThreadHaveKeyword", JStr kw)] = true <-> exists e, thread e /\ has e = true)
  /\ (match_thread tc em [("noneInThreadHaveKeyword", JStr kw)] = true <-> forall e, thread e -> has e = false).
Proof.
  intros Hem Hst Hkw. simpl.
  destruct (Build_counts emails (em_ThreadID em) (ToLower kw)) as [Hc Hw].
  destruct (thread_occ_bounds emails (em_ThreadID em) (ToLower kw) Hst) as (Hb & Hall & Hnone).
  pose proof (thread_size_pos emails em Hem) as Hpos.
  unfold match_thread, str_cond, get_str. cbn [obj_get].
  repeat match goal with |- context [String.eqb ?a ?b] =>
    let v := eval vm_compute in (String.eqb a b) in
    match v with true => change (String.eqb a b) with true | false => change (String.eqb a b) with false end end.
  cbn iota. rewrite (proj2 (String.eqb_neq _ _) Hkw), Hc, Hw, ?andb_true_r, ?andb_true_l. split_and!.
  - rewrite negb_true_iff, orb_false_iff, negb_false_iff, Z.eqb_neq, Z.eqb_eq, Hall.
    split; [intros [_ Hs] e [He Ht]; by apply Hs|]. intros Hs. split; [lia|]. intros e He Ht. by apply Hs.
  - rewrite negb_true_iff, Z.eqb_neq. split.
    + intros Hne. apply thread_occ_witness in Hne as (e & He & Ht & Hk); [eauto|done].
    + intros (e & [He Ht] & Hk) Hz. rewrite (proj1 Hnone Hz e He Ht) in Hk. done.
  - rewrite negb_true_iff, Z.ltb_ge. split.
    + intros Hle e [He Ht]. apply Hnone; [lia|done|done].
    + intros Hs. enough (thread_occ emails (em_ThreadID em) (ToLower kw) = 0) by lia.
      apply Hnone. intros e He Ht. by apply Hs.
Qed.

(** C13: sorting loses no email, puts no email before one that the comparators
    place before it, and keeps the given order among the emails they do not
    tell apart.  What the comparators say is [placed_before]: the first whose
    keys differ decides, by the order of the keys or the reverse of it, and the
    key of an email is what RFC 8621 names for the property; without comparators
    the newest email is first.  The subjects are those on which BaseSubject
    returns (as it does on the ASCII ones), and thread ids have no NUL byte. *)
Theorem sort_is_stable_ordering emails comparators :
  (forall e, e ∈ emails -> is_Some (BaseSubject (em_Subject e)) /\ lacks "000" (em_ThreadID e) = true) ->
  let out := SortEmails emails comparators in
  let cs := match comparators with [] => [mkComparator "receivedAt" false EmptyString EmptyString] | _ => comparators end in
  out ≡ₚ emails
  /\ StronglySorted (fun a b => ~ placed_before emails cs b a) out
  /\ forall k (p : Email -> bool), k ∈ emails -> (forall e, e ∈ emails -> p e = true <-> Forall (fun c => same_key emails c k e) cs) ->
       List.filter p out = List.filter p emails.
Proof.
  intros Hok out cs. destruct (SortEmails_by_keys emails Hok comparators) as (cmp & Hlaw & Hcmp & Hout). fold cs in Hcmp.
  unfold out. rewrite Hout. destruct (stable_sort_spec cmp Hlaw emails) as (Hp & Hs & Hk). split_and!; [exact Hp| |].
  - eapply StronglySorted_weaken; [|exact Hs]. intros a b Ha Hb Hab Hba. rewrite Hp in Ha, Hb.
    apply (Hcmp b a Hb Ha) in Hba. rewrite (lw_anti cmp Hlaw a b) in Hba. cbv beta in Hab. by destruct (cmp a b).
  - intros k p Hin Hpk. assert (Hsame : forall e, e ∈ emails -> p e = match cmp k e with Eq => true | _ => false end).
    { intros e He. destruct (Hcmp k e Hin He) as [_ Heq]. apply eq_true_iff_eq. rewrite (Hpk e He), <- Heq. by destruct (cmp k e). }
    specialize (Hk k). rewrite (filter_ext_elem p _ emails Hsame). etransitivity; [|exact Hk].
    apply filter_ext_elem. intros e He. apply Hsame. by rewrite Hp in He.
Qed.

(** the base subject is reached: on an ASCII subject BaseSubject returns
    (no slice of it panics), and whatever it returns, on any subject, starts
    with no blank and has no reply prefix, forward prefix or list tag left to
    strip; its loop ends within as many rounds as the subject has bytes. *)
Theorem base_subject_is_stripped s :
  (is_ascii s = true -> is_Some (BaseSubject s))
  /\ (forall r, BaseSubject s = Some r -> strip_subject r = None /\ TrimLeft r blank_cutset = r)
  /\ forall fuel t, (slen t <= fuel)%nat -> base_loop fuel t = base_loop (slen t) t.
Proof.
  unfold BaseSubject. split_and!.
  - intros Ha. apply base_loop_ascii. pose proof (str_forallb_TrimSpace _ s Ha).
    case_match; [|done]. by apply str_forallb_TrimSpace, str_forallb_take_drop.
  - intros r Hr. by apply base_loop_result in Hr as (H1 & H2 & _).
  - intros fuel t Hf. by apply base_loop_fuel.
Qed.
End Properties.

(** *** Departures *)

(** U+023A takes two bytes in UTF-8, its lower case U+2C65 three. *)
Definition upper_A_stroke : string := str_of ["200"%char; "186"%char].
Definition lower_a_stroke : string := str_of ["226"%char; "177"%char; "165"%char].
Definition stroke_subject (letter : string) : string :=
  "re[" +:+ Join (repeat letter 6) EmptyString +:+ "]:hello".

(** a subject can make the sort panic.  The offsets that BaseSubject finds
    in the lower-cased subject are used to slice the subject itself, and
    lower-casing can lengthen the text: for a subject with six letters U+023A
    between the brackets of a reply counter the slice is out of range. *)
Theorem base_subject_offset_panics `{GoRuntime} :
  ToLower (stroke_subject upper_A_stroke) = stroke_subject lower_a_stroke ->
  BaseSubject (stroke_subject upper_A_stroke) = None.
Proof.
  intros Hlow. unfold BaseSubject.
  assert (TrimSpace (stroke_subject upper_A_stroke) = stroke_subject upper_A_stroke) as -> by (by vm_compute).
  assert (EqualFold (str_drop (slen (stroke_subject upper_A_stroke) - 5) (stroke_subject upper_A_stroke)) "(fwd)"
          = false) as -> by (by vm_compute).
  rewrite andb_false_r. cbv zeta.
  assert (slen (stroke_subject upper_A_stroke) = 22%nat) as -> by (by vm_compute).
  cbn [base_loop].
  assert (TrimLeft (stroke_subject upper_A_stroke) blank_cutset = stroke_subject upper_A_stroke) as ->
    by (by vm_compute).
  unfold strip_subject. rewrite Hlow. by vm_compute.
Qed.

Definition stroke_runtime : GoRuntime := {|
  rt_to_lower s := if String.eqb s (stroke_subject upper_A_stroke)
                   then stroke_subject lower_a_stroke else s;
  rt_to_upper s := s;
  rt_equal_fold s t := String.eqb s t;
  rt_word_fields s := [s];
  rt_quote s := s;
  rt_format_float _ := "float";
  rt_json_float _ := Some "0";
  rt_json_string s := s;
  rt_float_to_int _ := - 2 ^ 63;
  rt_float_to_uint64 _ := 2 ^ 63;
|}.

Lemma base_subject_offset_panics_witness :
  BaseSubject (H := stroke_runtime) (stroke_subject upper_A_stroke) = None.
Proof. apply (@base_subject_offset_panics stroke_runtime). vm_compute. reflexivity. Defined.

Definition with_keywords (em : Email) (kws : list (string * bool)) : Email :=
  mkEmail (em_ID em) (em_BlobID em) (em_ThreadID em) (em_MailboxIDs em) kws (em_Size em)
    (em_ReceivedAt em) (em_MessageID em) (em_InReplyTo em) (em_References em) (em_Sender em)
    (em_From em) (em_To em) (em_CC em) (em_BCC em) (em_ReplyTo em) (em_Subject em) (em_SentAt em)
    (em_Headers em) (em_BodyStructure em) (em_BodyValues em) (em_TextBody em) (em_HTMLBody em)
    (em_Attachments em) (em_HasAttachment em) (em_Preview em).

(** The thread conditions are taken for immutable.  A query filtered on
    them passes the test that lets upToId truncate the list of changes, though
    its result changes with the keywords of the emails. *)
Theorem thread_filters_taken_immutable `{GoRuntime} em kw :
  kw <> EmptyString ->
  (forall k, k ∈ ["allInThreadHaveKeyword"; "someInThreadHaveKeyword"; "noneInThreadHaveKeyword"] ->
     UpToIDTruncationApplicable [(k, JStr kw)] [] EmailMutableFilterProperties EmailMutableSortProperties = true)
  /\ match_thread None (with_keywords em [(ToLower kw, true)]) [("someInThreadHaveKeyword", JStr kw)] = true
  /\ match_thread None (with_keywords em []) [("someInThreadHaveKeyword", JStr kw)] = false.
Proof.
  intros Hkw. apply String.eqb_neq in Hkw. split_and!.
  - intros k Hk. rewrite !elem_of_cons in Hk.
    destruct Hk as [->|[->|[->|[]%not_elem_of_nil]]]; by vm_compute.
  - unfold match_thread, str_cond, get_str. cbn [obj_get]. simpl (String.eqb _ _). cbn iota. rewrite Hkw.
    unfold bget. simpl. by rewrite String.eqb_refl.
  - unfold match_thread, str_cond, get_str. cbn [obj_get]. simpl (String.eqb _ _). cbn iota. by rewrite Hkw.
Qed.

(** ** Witnesses *)

Definition demo_part : EmailBodyPart := mkPart None None 0 [] None "text/plain" None None None [] None [].
Definition demo_email (id thread : string) (kws : list (string * bool)) : Email :=
  mkEmail id id thread [("mb-inbox", true)] kws 100 "2024-01-01T00:00:00Z" [] [] [] [] [] [] [] [] []
    "Re: hello" None [] demo_part [] [] [] [] false "hello".
Definition demo_query : obj :=
  [("operator", JStr "and"); ("conditions", JArr [JObj [("inMailbox", JStr "mb-inbox")]])].

Lemma filter_operators_compose_witness :
  exists fs, [JObj [("inMailbox", JStr "mb-inbox")]] = map JObj fs
    /\ let m g := MatchesFilterWithThreadContext (H := ascii_runtime) (fun _ => None)
                    (demo_email "e" "t" []) g None in
       (ToUpper (H := ascii_runtime) "and" = "AND" -> m demo_query = true <-> Forall (fun g => m g = true) fs)
       /\ (ToUpper (H := ascii_runtime) "and" = "OR" -> m demo_query = true <-> Exists (fun g => m g = true) fs)
       /\ (ToUpper (H := ascii_runtime) "and" = "NOT" -> m demo_query = true <-> Forall (fun g => m g = false) fs)
       /\ (ToUpper (H := ascii_runtime) "and" = "AND" \/ ToUpper (H := ascii_runtime) "and" = "OR"
           \/ ToUpper (H := ascii_runtime) "and" = "NOT").
Proof.
  apply (@filter_operators_compose ascii_runtime (fun _ => None) (demo_email "e" "t" []) None demo_query "and"
           [JObj [("inMailbox", JStr "mb-inbox")]]); vm_compute; reflexivity.
Defined.

Definition demo_thread : list Email := [demo_email "e1" "t" [("$seen", true)]; demo_email "e2" "t" []].

Lemma thread_conditions_exact_witness :
  match_thread (H := ascii_runtime) (Some (BuildThreadFilterContext (H := ascii_runtime) demo_thread))
    (demo_email "e2" "t" []) [("someInThreadHaveKeyword", JStr "$Seen")] = true
  <-> exists e, (e ∈ demo_thread /\ em_ThreadID e = "t")
                /\ bget (em_Keywords e) (ToLower (H := ascii_runtime) "$Seen") = true.
Proof.
  apply (@thread_conditions_exact ascii_runtime demo_thread (demo_email "e2" "t" []) "$Seen").
  - right. left.
  - intros e He. repeat (apply elem_of_cons in He as [->|He]);
      [split | split | by apply not_elem_of_nil in He].
    + apply (bool_decide_unpack _). vm_compute. exact I.
    + intros k b Hk. apply list_elem_of_singleton in Hk. injection Hk as -> ->. reflexivity.
    + constructor.
    + intros k b Hk. by apply not_elem_of_nil in Hk.
  - discriminate.
Defined.

Lemma sort_is_stable_ordering_witness :
  let cs := [mkComparator "allInThreadHaveKeyword" true EmptyString "$seen"; mkComparator "size" false EmptyString EmptyString] in
  let out := SortEmails (H := ascii_runtime) demo_thread cs in
  out ≡ₚ demo_thread /\ StronglySorted (fun a b => ~ placed_before (H := ascii_runtime) demo_thread cs b a) out.
Proof.
  refine (let H := @sort_is_stable_ordering ascii_runtime demo_thread
            [mkComparator "allInThreadHaveKeyword" true EmptyString "$seen"; mkComparator "size" false EmptyString EmptyString] _ in
          conj (proj1 H) (proj1 (proj2 H))).
  intros e He. repeat (apply elem_of_cons in He as [-> | He]; [split; [by eexists|reflexivity]|]). by apply not_elem_of_nil in He.
Defined.

