(* ===== verification/MethodSupport.v ===== *)
(** * Method handlers over a backend

    What the handlers of [jmap/jmapmail] have in common: the state they run on
    (the world of their backend and the creation references of the request),
    the order in which Go ranges over the maps of a request, the create loop
    run in that state, and the page a query returns. *)

From S2P Require Import Prelude GoStrings GoState Json Envelope CreationRefs Query Handler Server MailTypes.
From Stdlib Require Import SpecFloat.

(** ** The state of a handler *)

(** The world of the backend, and the creation references of the request when
    the context carries them. *)
Definition HState (W : Type) : Type := (W * option refmap).
Definition BackendHandler (W : Type) : Type := Ctx -> obj -> St (HState W) (string * obj).

(** A call of the backend. *)
Definition back {W A} (m : St W A) : St (HState W) A := on_part fst (fun w s => (w, snd s)) m.

(** The handler as the API endpoint calls it. *)
Definition as_method {W V} (h : BackendHandler W) : MethodHandler (W := W) (V := V) :=
  fun c args _ st =>
    let '((w, refs), (name, resp)) :=
      h c args (rs_world st, if ctx_CreationRefs c then Some (rs_refs st) else None) in
    (mkReq w (default (rs_refs st) refs) (rs_spill st) (rs_cache st) (rs_scope st), (name, Some resp)).

(** [jmaphandler.NewSetCreationRefs(ctx)] *)
Definition new_refs {W} : St (HState W) refmap := gets (fun s => NewSetCreationRefs (snd s)).

(** [jmaphandler.RecordCreationRefs(ctx, refs, cid, id)] *)
Definition record_ref {W} (refs : refmap) (cid id : string) : St (HState W) refmap :=
  fun s => let '(c, r) := RecordCreationRefs (snd s) refs cid id in ((fst s, c), r).

(** ** Map iteration *)

(** The order in which [range] visits the pending creates in each pass of the
    create loop, and the members of another map.  Go leaves both open. *)
Record MapOrder : Type := mkOrder {
  range_creates : nat -> list string -> list string;
  range_map : obj -> obj;
}.
Definition fair (o : MapOrder) : Prop :=
  (forall n l, range_creates o n l ≡ₚ l) /\ (forall m, range_map o m ≡ₚ m).
Definition in_order : MapOrder := mkOrder (fun _ l => l) (fun m => m).

(** ** The create loop *)

(** The error of a backend, as the loop sees it. *)
Definition create_error_of (e : go_error) : create_error :=
  match e with GSetError e => ESet e | _ => EMsg (err_Error e) end.

Section Creates.
Context `{GoRuntime} {W : Type}.
Variable order : MapOrder.
(** The callback: the id of the created object and its JSON, or an error. *)
Variable create : string -> obj -> St W (result create_error (string * json)).

(** The callback stores the object in [created] and records its id in the
    references of the request; the loop itself records it in its own. *)
Definition create_callback (s : HState W * obj) (cid : string) (node : obj)
  : (HState W * obj) * (string + create_error) :=
  let '(w, r) := create cid node (fst (fst s)) in
  match r with
  | Err e => ((w, snd (fst s), snd s), inr e)
  | Ok (id, j) =>
      ((w, fst (RecordCreationRefs (snd (fst s)) ∅ cid id), obj_set (snd s) cid j), inl id)
  end.

Definition not_created (nc : gmap string SetError) : obj :=
  map (fun kv => (fst kv, SetError_json (snd kv))) (map_to_list nc).

(** [if createMap, ok := args["create"].(map[string]any); ok]: the references
    afterwards, [created] and [notCreated]. *)
Definition run_creates (args : obj) (refs : refmap) : St (HState W) (refmap * obj * obj) :=
  fun s =>
    match get_obj args "create" with
    | None => (s, (refs, [], []))
    | Some createMap =>
        match RunCreateLoop create_callback createMap (length createMap) (range_creates order) (s, []) refs with
        | Some l => (fst (ls_world l), (ls_refs l, snd (ls_world l), not_created (ls_notCreated l)))
        | None => (s, (refs, [], []))
        end
    end.
End Creates.

(** [for k, v := range m] with a state. *)
Definition range_obj {W B} (order : MapOrder) (m : option obj) (f : B -> string * json -> St W B) (b : B) : St W B :=
  match m with None => mret b | Some m => fold_state f b (range_map order m) end.

(** [for _, raw := range list { if id, ok := raw.(string); ok { ... } }] *)
Definition range_strings {W B} (l : option (list json)) (f : B -> string -> St W B) (b : B) : St W B :=
  match l with None => mret b | Some l => fold_state f b (strings_of l) end.

(** What the update and the destroy loop collect. *)
Record set_acc : Type := mkAcc { sa_done : obj; sa_failed : obj }.
Definition acc_done (a : set_acc) (k : string) (v : json) : set_acc := mkAcc (obj_set (sa_done a) k v) (sa_failed a).
Definition acc_failed (a : set_acc) (k : string) (e : SetError) : set_acc :=
  mkAcc (sa_done a) (obj_set (sa_failed a) k (SetError_json e)).
Record destroy_acc : Type := mkDestroy { da_destroyed : list string; da_failed : obj }.
Definition destroy_done (a : destroy_acc) (id : string) : destroy_acc :=
  mkDestroy (da_destroyed a ++ [id]) (da_failed a).
Definition destroy_failed (a : destroy_acc) (id : string) (e : SetError) : destroy_acc :=
  mkDestroy (da_destroyed a) (obj_set (da_failed a) id (SetError_json e)).

(** What a copy collects. *)
Record copy_acc : Type := mkCopy {
  ca_refs : refmap;
  ca_created : obj;
  ca_notCreated : obj;
  ca_originals : list string;
}.
Definition copy_failed (a : copy_acc) (k : string) (e : SetError) : copy_acc :=
  mkCopy (ca_refs a) (ca_created a) (obj_set (ca_notCreated a) k (SetError_json e)) (ca_originals a).

Definition set_response (accountID oldState newState : string) (created notCreated : obj) (u : set_acc)
    (d : destroy_acc) : obj :=
  [("accountId", JStr accountID); ("oldState", JStr oldState); ("newState", JStr newState);
   ("created", JObj created); ("updated", JObj (sa_done u)); ("destroyed", jstrs (da_destroyed d));
   ("notCreated", JObj notCreated); ("notUpdated", JObj (sa_failed u)); ("notDestroyed", JObj (da_failed d))].

Definition changes_response (accountID sinceState newState : string) (hasMore : bool)
    (created updated destroyed : list string) : obj :=
  [("accountId", JStr accountID); ("oldState", JStr sinceState); ("newState", JStr newState);
   ("hasMoreChanges", JBool hasMore); ("created", jstrs created); ("updated", jstrs updated);
   ("destroyed", jstrs destroyed)].

Definition added_json (added : list (string * Z)) : json :=
  JArr (map (fun a => JObj [("id", JStr a.1); ("index", jint a.2)]) added).

(** ** Pages *)

Section Page.
Context `{GoRuntime}.

(** The page of the query handlers without an anchor: [for i := position; i <
    end; i++] over the ids, [end] lowered by the limit. *)
Definition page_from (position : Z) (limit : option spec_float) (ids : list string) : list string :=
  let total := Z.of_nat (length ids) in
  let end_ := match limit with
              | Some lim => let l := f64_to_int lim in
                            if i64 (position + l) <? total then i64 (position + l) else total
              | None => total
              end in
  if end_ <=? position then [] else slice position end_ ids.

(** The page of a query: [None] when the anchor is not found. *)
Definition query_page (args : obj) (position : Z) (anchor : string) (offset : Z) (ids : list string)
  : option (Z * list string) :=
  if negb (String.eqb anchor EmptyString)
  then ApplyQueryAnchor anchor offset ids (f64_to_uint64 <$> get_num args "limit")
  else Some (position, page_from position (get_num args "limit") ids).
End Page.

(** ** Lemmas *)

Lemma back_eq {W A} (m : St W A) (s : HState W) : back m s = ((fst (m (fst s)), snd s), snd (m (fst s))).
Proof. unfold back, on_part. by destruct (m (fst s)). Qed.
Lemma ensures_back {W A} (I : W -> Prop) (Q : A -> Prop) (m : St W A) : ensures I Q m -> ensures (fun s : HState W => I (fst s)) Q (back m).
Proof. intros Hm s Hs. rewrite back_eq. by apply Hm. Qed.

Section LoopFacts.
Context `{GoRuntime} {W : Type}.
Variable do : W -> string -> obj -> W * (string + create_error).
Variable createRaw : obj.

Lemma create_one_cases cid s b :
  create_one do createRaw cid (s, b) = (s, b)
  \/ exists s', create_one do createRaw cid (s, b) = (s', true)
     /\ ls_pending s' = List.filter (fun c => negb (String.eqb c cid)) (ls_pending s)
     /\ exists node, ls_world s' = fst (do (ls_world s) cid node).
Proof.
  unfold create_one. destruct (ResolveNodeCreationRefs _ _ _) as [node|]; [right|by left].
  destruct (do (ls_world s) cid node) as [w r] eqn:E.
  destruct r; eexists; split; try done; split; try done; exists node; by rewrite E.
Qed.

Lemma filter_shorter {A} (p : A -> bool) l : (length (List.filter p l) <= length l)%nat.
Proof. induction l as [|x l IH]; simpl; [lia|]. destruct (p x); simpl; lia. Qed.

Lemma filter_ne_shorter cid (l : list string) :
  cid ∈ l -> (length (List.filter (fun c => negb (String.eqb c cid)) l) < length l)%nat.
Proof.
  induction l as [|x l IH]; intros Hin; [by apply not_elem_of_nil in Hin|]. simpl.
  destruct (String.eqb x cid) eqn:E; simpl.
  - pose proof (filter_shorter (fun c => negb (String.eqb c cid)) l). lia.
  - apply elem_of_cons in Hin as [->|Hin]; [by rewrite String.eqb_refl in E|]. apply IH in Hin. lia.
Qed.

(** A pass over creates that are pending keeps the list of pending ones or
    shortens it. *)
Lemma create_pass_pending order : forall s b s' b',
  foldl (fun sp cid => create_one do createRaw cid sp) (s, b) order = (s', b') ->
  (length (ls_pending s') <= length (ls_pending s))%nat
  /\ (b = false -> b' = true -> order ⊆ ls_pending s -> (length (ls_pending s') < length (ls_pending s))%nat).
Proof.
  induction order as [|cid order IH]; intros s b s' b'; [intros [= <- <-]; split; [lia|congruence]|].
  cbn [foldl]. destruct (create_one_cases cid s b) as [->|(s1 & -> & Hp & _)]; intros Hf.
  - destruct (IH _ _ _ _ Hf) as [Hle Hlt]. split; [done|]. intros Hb Hb' Hsub. apply Hlt; set_solver.
  - destruct (IH _ _ _ _ Hf) as [Hle _]. rewrite Hp in Hle. split.
    + etransitivity; [exact Hle|apply filter_shorter].
    + intros _ _ Hsub. eapply Nat.le_lt_trans; [exact Hle|]. apply filter_ne_shorter. set_solver.
Qed.

Lemma create_rounds_total schedule :
  (forall n l, schedule n l ≡ₚ l) ->
  forall fuel s, (length (ls_pending s) <= fuel)%nat -> is_Some (create_rounds do createRaw fuel schedule s).
Proof.
  intros Hsched. induction fuel as [|fuel IH]; intros s Hlen.
  - simpl. destruct (ls_pending s); [eauto|simpl in Hlen; lia].
  - simpl. destruct (ls_pending s) as [|x l] eqn:Hp; [eauto|]. rewrite <- Hp in *.
    destruct (create_pass do createRaw (schedule fuel (ls_pending s)) s) as [s' b'] eqn:E.
    apply create_pass_pending in E as [_ Hlt]. destruct b'.
    + apply IH. assert (length (ls_pending s') < length (ls_pending s))%nat; [|lia].
      apply Hlt; [done..|]. intros c. by rewrite Hsched.
    + apply IH. simpl. lia.
Qed.

(** The loop ends whatever the creation ids are. *)
Lemma RunCreateLoop_total schedule w refs :
  (forall n l, schedule n l ≡ₚ l) ->
  is_Some (RunCreateLoop do createRaw (length createRaw) schedule w refs).
Proof. intros. apply create_rounds_total; [done|]. simpl. unfold obj_keys. by rewrite length_map. Qed.

(** What every call of the callback keeps true of the world, the loop does. *)
Variable I : W -> Prop.
Hypothesis Hdo : forall w cid node, I w -> I (fst (do w cid node)).

Lemma create_pass_world order : forall s b s' b',
  foldl (fun sp cid => create_one do createRaw cid sp) (s, b) order = (s', b') ->
  I (ls_world s) -> I (ls_world s').
Proof.
  induction order as [|cid order IH]; intros s b s' b'; [by intros [= <- <-]|]. cbn [foldl].
  destruct (create_one_cases cid s b) as [->|(s1 & -> & _ & node & Hw)]; intros Hf Hi; [by eapply IH|].
  eapply IH; [exact Hf|]. rewrite Hw. by apply Hdo.
Qed.

Lemma RunCreateLoop_world fuel schedule w refs s :
  RunCreateLoop do createRaw fuel schedule w refs = Some s -> I w -> I (ls_world s).
Proof.
  unfold RunCreateLoop. intros Hr Hi.
  assert (forall fuel (s0 s : loop_state), I (ls_world s0) ->
            create_rounds do createRaw fuel schedule s0 = Some s -> I (ls_world s)) as Hrounds.
  { clear -Hdo. induction fuel as [|fuel IH]; intros s0 s Hi; simpl.
    - destruct (ls_pending s0); [by intros [= <-]|done].
    - destruct (ls_pending s0) as [|x l]; [by intros [= <-]|].
      destruct (create_pass do createRaw (schedule fuel (x :: l)) s0) as [s1 b1] eqn:E.
      apply create_pass_world in E; [|done]. destruct b1; by apply IH. }
  eapply Hrounds; [|exact Hr]. done.
Qed.
End LoopFacts.

(** What the callback keeps true of the backend, the creates do. *)
Lemma run_creates_world `{GoRuntime} {W} order (create : string -> obj -> St W (result create_error (string * json)))
    (I : W -> Prop) args refs (s : HState W) :
  (forall w cid node, I w -> I (fst (create cid node w))) ->
  I (fst s) -> I (fst (fst (run_creates order create args refs s))).
Proof.
  intros Hc Hi. unfold run_creates. destruct (get_obj args "create") as [m|]; [|done].
  destruct (RunCreateLoop _ _ _ _ _ _) as [l|] eqn:E; [|done]. cbn [fst].
  apply (RunCreateLoop_world _ _ (fun p : HState W * obj => I (fst (fst p)))) in E; [done| |done].
  intros [[w rc] created] cid node Hw. unfold create_callback. cbn [fst snd] in *.
  specialize (Hc w cid node Hw). destruct (create cid node w) as [w' [[id j]|e]]; done.
Qed.

Lemma page_from_spec `{GoRuntime} position limit ids :
  0 <= position -> (forall f, limit = Some f -> 0 <= f64_to_int f /\ position + f64_to_int f < 2 ^ 63) ->
  page_from position limit ids
  = match limit with
    | Some f => take (Z.to_nat (f64_to_int f)) (drop (Z.to_nat position) ids)
    | None => drop (Z.to_nat position) ids
    end.
Proof.
  intros Hp Hl. unfold page_from, slice.
  destruct limit as [f|].
  - destruct (Hl f eq_refl) as [Hf Hb]. unfold i64.
    rewrite (Z.mod_small (position + f64_to_int f + 2 ^ 63) (2 ^ 64)) by lia.
    replace (position + f64_to_int f + 2 ^ 63 - 2 ^ 63) with (position + f64_to_int f) by lia.
    destruct (position + f64_to_int f <? Z.of_nat (length ids)) eqn:E.
    + destruct (position + f64_to_int f <=? position) eqn:E2.
      * assert (f64_to_int f = 0) as -> by lia. done.
      * f_equal. lia.
    + destruct (Z.of_nat (length ids) <=? position) eqn:E2.
      * rewrite drop_ge by lia. by rewrite take_nil.
      * rewrite !take_ge; [done|rewrite length_drop; lia..].
  - destruct (Z.of_nat (length ids) <=? position) eqn:E2; [by rewrite drop_ge by lia|].
    rewrite take_ge; [done|]. rewrite length_drop. lia.
Qed.

(** An invariant of the state survives the loops over a request. *)
Lemma range_obj_inv {W B} order m (f : B -> string * json -> St W B) b (I : W -> Prop) w :
  (forall w b kv, I w -> I (fst (f b kv w))) -> I w -> I (fst (range_obj order m f b w)).
Proof. intros Hf. destruct m as [m|]; [|done]. apply (fold_state_inv _ (fun w _ => I w)). intros; by apply Hf. Qed.

Lemma range_strings_inv {W B} l (f : B -> string -> St W B) b (I : W -> Prop) w :
  (forall w b id, I w -> I (fst (f b id w))) -> I w -> I (fst (range_strings l f b w)).
Proof. intros Hf. destruct l as [l|]; [|done]. apply (fold_state_inv _ (fun w _ => I w)). intros; by apply Hf. Qed.
