(* ===== verification/ImapStores.v ===== *)
(** * Local stores of the IMAP backend

    [jmap/imapsmtp/backend.go]: what the gateway remembers beside the IMAP
    server.  The ids of emails and mailboxes change when they are moved, and
    the gateway resolves a former id to the present one; quotas count the
    octets and messages the gateway stored; an [itemTracker] keeps the changes
    of quotas and identities.  Every operation runs under its own mutex and is
    one step.  [jmap/imapsmtp/email_write.go] calls them in the order that
    [email_created], [email_moved] and [email_deleted] have. *)

From S2P Require Import Prelude GoStrings Json Envelope Query ChangeTracker ImapChanges.
From Stdlib Require Import Ascii.

(** ** Moved ids *)

(** [for k, v := range m { if v == oldID { m[k] = newID } }; m[oldID] = newID] *)
Definition track_moved (m : gmap string string) (oldID newID : string) : gmap string string :=
  <[oldID := newID]> ((fun v => if String.eqb v oldID then newID else v) <$> m).

Definition trackMovedEmail (movedIDs : gmap string (gmap string string)) (accountID oldID newID : string)
  : gmap string (gmap string string) :=
  <[accountID := track_moved (default ∅ (movedIDs !! accountID)) oldID newID]> movedIDs.

(** The loop of [resolveMovedEmailID]; [None] when the fuel does not suffice. *)
Fixpoint moved_loop (fuel : nat) (m : gmap string string) (visited : gset string) (curr : string)
  : option string :=
  match m !! curr with
  | None => Some curr
  | Some next =>
      if bool_decide (curr ∈ visited) then Some curr
      else match fuel with
           | O => None
           | S f => moved_loop f m ({[curr]} ∪ visited) next
           end
  end.

(** The ids of the demonstration data. *)
Definition legacy_email_id (curr : string) : string :=
  if str_in curr ["email-1"; "email-seed-1"] then "mb-inbox-1"
  else if str_in curr ["email-2"; "email-seed-2"; "email-3"] then "mb-inbox-2"
  else if HasPrefix curr "email-" then "mb-inbox-" +:+ TrimPrefix curr "email-"
  else curr.

Definition resolveMovedEmailID (movedIDs : gmap string (gmap string string)) (accountID id : string)
  : option string :=
  match movedIDs !! accountID with
  | None => Some (legacy_email_id id)
  | Some m => legacy_email_id <$> moved_loop (size m) m ∅ id
  end.

Definition trackMovedMailbox (m : gmap string string) (oldID newID : string) : gmap string string :=
  track_moved m oldID newID.

(** The loop of [resolveMovedMailboxID] has no visited set. *)
Fixpoint resolveMovedMailboxID (fuel : nat) (m : gmap string string) (curr : string) : option string :=
  match m !! curr with
  | None => Some curr
  | Some next => match fuel with O => None | S f => resolveMovedMailboxID f m next end
  end.

(** ** Item trackers *)

Record itemTracker : Type := mkItem {
  it_counter : Z;
  it_history : list ChangeEntry;
}.

Definition newItemTracker : itemTracker := mkItem 1 [].
Definition itemTracker_State (t : itemTracker) : string := fmt_d (it_counter t).
Definition itemTracker_Record (t : itemTracker) (id action : string) : itemTracker * string :=
  let n := u64 (it_counter t + 1) in
  (mkItem n (it_history t ++ [mkEntry action id n]), fmt_d n).

Definition itemTracker_Changes (t : itemTracker) (sinceState : string) (maxChanges : option Z)
  : changes_result :=
  let newState := fmt_d (it_counter t) in
  match sscanf_uint64 sinceState with
  | None => mkChanges [] [] [] newState true
  | Some since =>
      if it_counter t <? since then mkChanges [] [] [] newState true
      else
        let s := foldl (fun s e => if since <? ce_State e then apply_mutation s e else s)
                   (mkSets ∅ ∅ ∅) (it_history t) in
        let created := sort_ids (elements (is_created s)) in
        let updated := sort_ids (elements (is_updated s)) in
        let destroyed := sort_ids (elements (is_destroyed s)) in
        if exceeds maxChanges created updated destroyed then mkChanges [] [] [] newState true
        else mkChanges created updated destroyed newState false
  end.

(** ** Quotas *)

Record accountQuota : Type := mkQuota {
  aq_hasLimits : bool;
  aq_octetsLimit : Z;
  aq_messagesLimit : Z;
  aq_octetsUsed : Z;
  aq_messagesUsed : Z;
  aq_emailSizes : gmap string Z;
}.

(** The part of the backend the quota functions use. *)
Record quota_store : Type := mkQuotas {
  qs_quotas : gmap string accountQuota;
  qs_trackers : gmap string itemTracker;
}.

Definition default_quota : accountQuota := mkQuota true 1073741824 50000 0 0 ∅.

(** The lookups create the entry that is missing; here the reader of a missing
    entry sees the fresh one, and the writers store it. *)
Definition getAccountQuota (s : quota_store) (accountID : string) : accountQuota :=
  default default_quota (qs_quotas s !! accountID).
Definition getQuotaTracker (s : quota_store) (accountID : string) : itemTracker :=
  default newItemTracker (qs_trackers s !! accountID).

(** Store a quota and record the update of both quota objects. *)
Definition put_quota (s : quota_store) (accountID : string) (aq : accountQuota) : quota_store :=
  let t := getQuotaTracker s accountID in
  let t := fst (itemTracker_Record t "quota-octets" "update") in
  let t := fst (itemTracker_Record t "quota-messages" "update") in
  mkQuotas (<[accountID := aq]> (qs_quotas s)) (<[accountID := t]> (qs_trackers s)).

Definition SetQuotaHardLimits (s : quota_store) (accountID : string) (octetsLimit messagesLimit : Z)
  : quota_store :=
  let aq := getAccountQuota s accountID in
  put_quota s accountID (mkQuota true octetsLimit messagesLimit (aq_octetsUsed aq) (aq_messagesUsed aq)
                           (aq_emailSizes aq)).

Definition SetQuotaUsage (s : quota_store) (accountID : string) (octetsUsed messagesUsed : Z)
  : quota_store :=
  let aq := getAccountQuota s accountID in
  put_quota s accountID (mkQuota (aq_hasLimits aq) (aq_octetsLimit aq) (aq_messagesLimit aq)
                           octetsUsed messagesUsed (aq_emailSizes aq)).

(** [None] when the message fits. *)
Definition check_quota (aq : accountQuota) (octets : Z) : option SetError :=
  if aq_hasLimits aq then
    if (0 <? aq_octetsLimit aq) && (aq_octetsLimit aq <? u64 (aq_octetsUsed aq + octets)) then
      Some (set_error "overQuota"
        ("storage quota exceeded: " +:+ fmt_d (aq_octetsUsed aq) +:+ " + " +:+ fmt_d octets
         +:+ " > " +:+ fmt_d (aq_octetsLimit aq) +:+ " octets"))
    else if (0 <? aq_messagesLimit aq) && (aq_messagesLimit aq <? u64 (aq_messagesUsed aq + 1)) then
      Some (set_error "overQuota"
        ("message count quota exceeded: " +:+ fmt_d (aq_messagesUsed aq) +:+ " + 1 > "
         +:+ fmt_d (aq_messagesLimit aq) +:+ " messages"))
    else None
  else None.
Definition checkQuota (s : quota_store) (accountID : string) (octets : Z) : option SetError :=
  check_quota (getAccountQuota s accountID) octets.

Definition quota_created (aq : accountQuota) (emailID : string) (size : Z) : accountQuota :=
  mkQuota (aq_hasLimits aq) (aq_octetsLimit aq) (aq_messagesLimit aq)
    (u64 (aq_octetsUsed aq + size)) (u64 (aq_messagesUsed aq + 1)) (<[emailID := size]> (aq_emailSizes aq)).
Definition recordEmailQuotaCreated (s : quota_store) (accountID emailID : string) (size : Z) : quota_store :=
  put_quota s accountID (quota_created (getAccountQuota s accountID) emailID size).

Definition quota_deleted (aq : accountQuota) (emailID : string) : accountQuota :=
  let '(used, sizes) :=
    match aq_emailSizes aq !! emailID with
    | Some size => (if size <=? aq_octetsUsed aq then aq_octetsUsed aq - size else 0,
                    delete emailID (aq_emailSizes aq))
    | None => (aq_octetsUsed aq, aq_emailSizes aq)
    end in
  mkQuota (aq_hasLimits aq) (aq_octetsLimit aq) (aq_messagesLimit aq) used
    (if 0 <? aq_messagesUsed aq then aq_messagesUsed aq - 1 else aq_messagesUsed aq) sizes.
Definition recordEmailQuotaDeleted (s : quota_store) (accountID emailID : string) : quota_store :=
  put_quota s accountID (quota_deleted (getAccountQuota s accountID) emailID).

Definition quota_moved (aq : accountQuota) (origID newID : string) : accountQuota :=
  match aq_emailSizes aq !! origID with
  | Some size => mkQuota (aq_hasLimits aq) (aq_octetsLimit aq) (aq_messagesLimit aq) (aq_octetsUsed aq)
                   (aq_messagesUsed aq) (delete origID (<[newID := size]> (aq_emailSizes aq)))
  | None => aq
  end.
Definition trackMovedEmailQuota (s : quota_store) (accountID origID newID : string) : quota_store :=
  mkQuotas (<[accountID := quota_moved (getAccountQuota s accountID) origID newID]> (qs_quotas s))
    (qs_trackers s).

(** [jmapmail.Quota] *)
Record Quota : Type := mkQuotaObj {
  qo_ID : string;
  qo_ResourceType : string;
  qo_Used : Z;
  qo_HardLimit : Z;
  qo_WarnLimit : option Z;
  qo_SoftLimit : option Z;
  qo_Scope : string;
  qo_Name : string;
  qo_Description : option string;
  qo_AccountIDs : list string;
  qo_Types : list string;
  qo_DataTypes : list string;
}.
Definition getAccountQuotas (s : quota_store) (accountID : string) : list Quota :=
  let aq := getAccountQuota s accountID in
  [mkQuotaObj "quota-octets" "octets" (aq_octetsUsed aq) (aq_octetsLimit aq) None None "account" "Storage" None []
     ["Email"] ["Email"];
   mkQuotaObj "quota-messages" "messages" (aq_messagesUsed aq) (aq_messagesLimit aq) None None "account" "Message Count"
     None [] ["Email"] ["Email"]].

(** ** What the email operations do to the stores *)

Record email_stores : Type := mkStores {
  st_moved : gmap string (gmap string string);
  st_quota : quota_store;
  st_log : MutationLog;
}.

(** The end of [CreateEmail], after the server has appended the message. *)
Definition email_created (st : email_stores) (accountID emailID : string) (size : Z) : email_stores :=
  mkStores (st_moved st) (recordEmailQuotaCreated (st_quota st) accountID emailID size)
    (recordEmailMutation (st_log st) accountID emailID "create").

(** [UpdateEmail] after the server has moved the message [id], that the client
    names [origID], to [newID]. *)
Definition email_moved (st : email_stores) (accountID origID id newID : string) : email_stores :=
  let moved := trackMovedEmail (st_moved st) accountID origID newID in
  let moved := trackMovedEmail moved accountID id newID in
  mkStores moved (trackMovedEmailQuota (st_quota st) accountID origID newID)
    (recordEmailMutation (st_log st) accountID origID "update").

(** The end of [DeleteEmail]; [id] is the resolved id. *)
Definition email_deleted (st : email_stores) (accountID id : string) : email_stores :=
  mkStores (st_moved st) (recordEmailQuotaDeleted (st_quota st) accountID id)
    (recordEmailMutation (st_log st) accountID id "destroy").

(** ** Lemmas: moved ids *)

Lemma track_moved_lookup m o n k :
  track_moved m o n !! k
  = if decide (k = o) then Some n else (fun v => if String.eqb v o then n else v) <$> m !! k.
Proof. unfold track_moved. rewrite lookup_insert, lookup_fmap. repeat case_decide; naive_solver. Qed.

(** Each round visits another id that was moved, so as many rounds as there
    are such ids suffice. *)
Lemma moved_loop_ends m fuel : forall visited curr,
  visited ⊆ dom m -> (size m <= fuel + size visited)%nat -> is_Some (moved_loop fuel m visited curr).
Proof.
  induction fuel as [|fuel IH]; intros visited curr Hv Hf; simpl;
    destruct (m !! curr) as [next|] eqn:E; try done; case_bool_decide as Hin; try done.
  - exfalso. assert (curr ∈ dom m) by (apply elem_of_dom; eauto).
    assert (size ({[curr]} ∪ visited) <= size (dom m))%nat as Hs by (apply subseteq_size; set_solver).
    rewrite size_union, size_singleton, size_dom in Hs by set_solver. lia.
  - assert (curr ∈ dom m) by (apply elem_of_dom; eauto).
    apply IH; [set_solver|]. rewrite size_union, size_singleton by set_solver. lia.
Qed.

(** An id of the form the IMAP gateway gives out. *)
Definition plain_id (id : string) : bool := negb (HasPrefix id "email-").

Lemma legacy_plain id : plain_id id = true -> legacy_email_id id = id.
Proof.
  unfold plain_id, legacy_email_id. intros Hp%negb_true_iff.
  rewrite Hp. unfold str_in. cbn [existsb].
  repeat (rewrite (proj2 (String.eqb_neq id _)) by (intros ->; by vm_compute in Hp)). done.
Qed.

(** The shape of the map that makes one step of resolution enough: what a
    former id leads to is not itself a former id, or it leads to itself. *)
Definition settled (m : gmap string string) : Prop :=
  forall k v, m !! k = Some v -> plain_id v = true /\ (m !! v = None \/ m !! v = Some v).

Lemma settled_resolves m fuel id :
  settled m -> (size m <= fuel)%nat -> moved_loop fuel m ∅ id = Some (default id (m !! id)).
Proof.
  intros Hm Hf. destruct (m !! id) as [v|] eqn:E; [|by destruct fuel; simpl; rewrite E].
  assert (fuel <> 0%nat).
  { intros ->. assert (size m = 0%nat) as Hz%map_size_empty_inv by lia. subst. by rewrite lookup_empty in E. }
  destruct fuel as [|fuel]; [done|]. cbn [moved_loop]. rewrite E, bool_decide_false by set_solver.
  destruct (Hm _ _ E) as [_ [Hv|Hv]]; [by destruct fuel; simpl; rewrite Hv|].
  destruct (decide (v = id)) as [->|Hne].
  { destruct fuel; simpl; rewrite E, bool_decide_true by set_solver; done. }
  assert (fuel <> 0%nat).
  { intros ->. assert (size ({[id]} ∪ {[v]} : gset string) <= size (dom m))%nat as Hs.
    { apply subseteq_size. intros x Hx. apply elem_of_dom. set_solver. }
    rewrite size_dom, size_union, !size_singleton in Hs by set_solver. lia. }
  destruct fuel as [|fuel]; [done|]. cbn [moved_loop]. rewrite Hv, bool_decide_false by set_solver.
  destruct fuel; simpl; rewrite Hv, bool_decide_true by set_solver; done.
Qed.

(** What the two calls of a move do to a settled map. *)
Definition move_in (m : gmap string string) (origID newID : string) : gmap string string :=
  track_moved (track_moved m origID newID) (default origID (m !! origID)) newID.

Lemma move_in_lookup m origID newID k :
  settled m ->
  move_in m origID newID !! k
  = if decide (k = origID \/ default k (m !! k) = default origID (m !! origID)) then Some newID else m !! k.
Proof.
  intros Hm. unfold move_in. rewrite !track_moved_lookup.
  destruct (m !! origID) as [c|] eqn:Eo; [destruct (Hm _ _ Eo) as [_ Hc]|];
    (destruct (m !! k) as [v|] eqn:Ek; [destruct (Hm _ _ Ek) as [_ Hv]|]); simpl;
    repeat case_decide; simplify_eq/=; try tauto; try done;
    repeat match goal with |- context [String.eqb ?a ?b] => is_var a; is_var b; destruct (String.eqb_spec a b) end;
    simplify_eq/=; try done; try tauto; exfalso;
    repeat match goal with H : _ \/ _ |- _ => destruct H end; simplify_eq/=; tauto || congruence.
Qed.

(** A new id that is fresh, or the place the message had just left. *)
Definition may_move_to (m : gmap string string) (origID newID : string) : Prop :=
  plain_id newID = true /\ (m !! newID = None \/ m !! newID = Some (default origID (m !! origID))
                           \/ newID = default origID (m !! origID)).

Lemma settled_move m origID newID :
  settled m -> may_move_to m origID newID -> settled (move_in m origID newID).
Proof.
  intros Hm [Hp Hn] k v. rewrite !move_in_lookup by done.
  destruct (decide (k = origID \/ _)) as [Hk|Hk].
  - intros [= <-]. split; [done|]. case_decide as Hd; [by right|].
    destruct Hn as [Hn|[Hn|Hn]]; [by left| |]; exfalso; apply Hd.
    + right. by rewrite Hn.
    + destruct (m !! origID) as [c|] eqn:E; simpl in *; subst; [|by left].
      right. destruct (Hm _ _ E) as [_ [-> | ->]]; done.
  - intros Hv. destruct (Hm _ _ Hv) as [Hpv Hvv]. split; [done|]. case_decide as Hd; [|done].
    exfalso. apply Hk. right. rewrite Hv. simpl. destruct Hd as [-> | Hd].
    + destruct Hvv as [-> | ->]; done.
    + rewrite <- Hd. by destruct Hvv as [-> | ->].
Qed.

(** The ids after a sequence of moves, each given by the id the client names
    and the new id, and where an id leads in between. *)
Definition run_moves (m : gmap string string) (moves : list (string * string)) : gmap string string :=
  foldl (fun m on => move_in m (fst on) (snd on)) m moves.
Fixpoint moves_ok (m : gmap string string) (moves : list (string * string)) : Prop :=
  match moves with
  | [] => True
  | (o, n) :: moves' => may_move_to m o n /\ moves_ok (move_in m o n) moves'
  end.

(** The specification: every id leads to one place, and a move takes all the
    ids that lead to the place it leaves along. *)
Definition follow (moves : list (string * string)) : string -> string :=
  foldl (fun loc on x => if String.eqb (loc x) (loc (fst on)) then snd on else loc x) (fun x => x) moves.

Lemma run_moves_follow moves : forall m loc,
  settled m -> moves_ok m moves -> (forall x, loc x = default x (m !! x)) ->
  settled (run_moves m moves)
  /\ forall x, default x (run_moves m moves !! x)
     = foldl (fun loc on x => if String.eqb (loc x) (loc (fst on)) then snd on else loc x) loc moves x.
Proof.
  induction moves as [|[o n] moves IH]; intros m loc Hm Hok Hloc; simpl; [done|].
  destruct Hok as [Hmay Hok]. apply IH; [by apply settled_move|done|].
  intros x. rewrite move_in_lookup by done. rewrite !Hloc.
  destruct (String.eqb_spec (default x (m !! x)) (default o (m !! o))) as [E|E].
  - by rewrite decide_True by (by right).
  - rewrite decide_False; [done|]. intros [->|]; done.
Qed.

Lemma email_moved_ids st accountID origID newID :
  settled (default ∅ (st_moved st !! accountID)) -> plain_id origID = true ->
  exists id, resolveMovedEmailID (st_moved st) accountID origID = Some id
    /\ st_moved (email_moved st accountID origID id newID) !! accountID
       = Some (move_in (default ∅ (st_moved st !! accountID)) origID newID).
Proof.
  intros Hs Hp. unfold resolveMovedEmailID, email_moved. simpl. unfold trackMovedEmail.
  destruct (st_moved st !! accountID) as [m|] eqn:E; simpl in *.
  - rewrite settled_resolves by done. simpl. eexists. split; [done|].
    rewrite !lookup_insert_eq. simpl. unfold move_in.
    destruct (m !! origID) as [v|] eqn:Ev; simpl; [|by rewrite legacy_plain].
    rewrite legacy_plain; [done|]. by apply (Hs origID v).
  - eexists. split; [done|]. rewrite !lookup_insert_eq. simpl. unfold move_in. rewrite lookup_empty. simpl.
    by rewrite legacy_plain.
Qed.

Lemma resolve_settled moved accountID x :
  settled (default ∅ (moved !! accountID)) -> plain_id x = true ->
  resolveMovedEmailID moved accountID x = Some (default x (default ∅ (moved !! accountID) !! x)).
Proof.
  intros Hs Hp. unfold resolveMovedEmailID. destruct (moved !! accountID) as [m|] eqn:E; simpl in *.
  - rewrite settled_resolves by done. simpl. destruct (m !! x) as [v|] eqn:Ev; simpl; [|by rewrite legacy_plain].
    rewrite legacy_plain; [done|]. by apply (Hs x v).
  - rewrite lookup_empty. simpl. by rewrite legacy_plain.
Qed.

Lemma resolve_moves moves accountID y :
  moves_ok ∅ moves -> plain_id y = true ->
  resolveMovedEmailID {[accountID := run_moves ∅ moves]} accountID y = Some (follow moves y).
Proof.
  intros Hok Hy. destruct (run_moves_follow moves ∅ (fun x => x)) as [Hs Hf];
    [intros k v; by rewrite lookup_empty|done|intros z; by rewrite lookup_empty|].
  rewrite resolve_settled; rewrite ?lookup_singleton_eq; simpl; [by rewrite Hf|done|done].
Qed.

(** ** Lemmas: item trackers *)

Definition mutations (es : list ChangeEntry) : idsets := foldl apply_mutation (mkSets ∅ ∅ ∅) es.

(** What the three sets say about an id. *)
Record synced (live0 live : gset string) (touched : list string) (s : idsets) : Prop := {
  sy_live : forall x, x ∈ live <-> (x ∈ live0 /\ x ∉ is_destroyed s) \/ x ∈ is_created s;
  sy_disjoint : forall x, x ∈ is_created s -> x ∉ is_destroyed s;
  sy_updated : forall x, x ∈ is_updated s -> x ∈ live;
  sy_touched : forall x, x ∈ touched -> x ∈ live -> x ∈ is_created s \/ x ∈ is_updated s;
}.

Lemma synced_step live0 live touched s e :
  synced live0 live touched s -> entry_ok live e ->
  synced live0 (apply_entry live e) (touched ++ [ce_ID e]) (apply_mutation s e).
Proof.
  intros [Hl Hd Hu Ht] Hok. unfold apply_entry, apply_mutation.
  assert (forall x, x ∈ touched ++ [ce_ID e] <-> x ∈ touched \/ x = ce_ID e) as Hin
    by (intros x; by rewrite elem_of_app, list_elem_of_singleton).
  destruct Hok as [[-> Hid]|[[-> | ->] Hid]]; simpl; [|case_bool_decide as Hc|];
    (split; simpl; intros x; rewrite ?Hin;
     specialize (Hl x); specialize (Hd x); specialize (Hu x); specialize (Ht x);
     rewrite ?elem_of_union, ?elem_of_difference, ?elem_of_singleton;
     destruct (decide (x = ce_ID e)) as [->|]; tauto).
Qed.

Lemma synced_run live0 es : forall live touched s,
  synced live0 live touched s -> log_ok live es ->
  synced live0 (replay live es) (touched ++ map ce_ID es) (foldl apply_mutation s es).
Proof.
  induction es as [|e es IH]; intros live touched s Hs Hok; simpl; [by rewrite app_nil_r|].
  destruct Hok as [He Hok]. rewrite cons_middle, app_assoc.
  apply IH; [|done]. by apply synced_step.
Qed.

Lemma foldl_since since es : forall s,
  foldl (fun s e => if since <? ce_State e then apply_mutation s e else s) s es
  = foldl apply_mutation s (List.filter (fun e => since <? ce_State e) es).
Proof. induction es as [|e es IH]; intros s; simpl; [done|]. rewrite IH. by destruct (since <? ce_State e). Qed.

(** ** Lemmas: quotas *)

Definition sizes_total (m : gmap string Z) : Z := map_fold (fun _ v acc => v + acc) 0 m.

Lemma sizes_total_insert m k v : m !! k = None -> sizes_total (<[k := v]> m) = v + sizes_total m.
Proof. intros Hk. unfold sizes_total. apply map_fold_insert_L; [intros; lia|done]. Qed.

Lemma sizes_total_delete m k v : m !! k = Some v -> sizes_total m = v + sizes_total (delete k m).
Proof. intros Hk. unfold sizes_total. apply (map_fold_delete_L (fun (_ : string) v acc => v + acc) 0 k v m); [intros; lia|done]. Qed.

Definition sizes_ok (m : gmap string Z) : Prop := forall k v, m !! k = Some v -> 0 <= v.

Lemma sizes_total_nonneg m : sizes_ok m -> 0 <= sizes_total m.
Proof.
  unfold sizes_ok. induction m as [|k v m Hk IH] using map_ind; intros Hm; [done|].
  rewrite sizes_total_insert by done.
  assert (0 <= v) by (apply (Hm k); by rewrite lookup_insert_eq).
  assert (0 <= sizes_total m); [|lia]. apply IH. intros k' v' Hv. apply (Hm k').
  rewrite lookup_insert_ne; [done|]. congruence.
Qed.

Record quota_inv (aq : accountQuota) : Prop := {
  qi_limits : aq_hasLimits aq = true /\ 0 < aq_octetsLimit aq < 2 ^ 63 /\ 0 < aq_messagesLimit aq < 2 ^ 63;
  qi_sizes : sizes_ok (aq_emailSizes aq);
  qi_used : aq_octetsUsed aq = sizes_total (aq_emailSizes aq) /\ aq_octetsUsed aq <= aq_octetsLimit aq;
  qi_messages : 0 <= aq_messagesUsed aq <= Z.of_nat (size (aq_emailSizes aq))
                /\ aq_messagesUsed aq <= aq_messagesLimit aq;
}.

(** The operations on a quota: a message that fits is stored under a new id, a
    message is deleted, a message gets another new id. *)
Inductive quota_step (aq : accountQuota) : accountQuota -> Prop :=
| QCreate id size :
    check_quota aq size = None -> aq_emailSizes aq !! id = None -> 0 <= size < 2 ^ 63 ->
    quota_step aq (quota_created aq id size)
| QDelete id : quota_step aq (quota_deleted aq id)
| QMove origID newID :
    aq_emailSizes aq !! newID = None -> quota_step aq (quota_moved aq origID newID).

Lemma quota_inv_created aq id size :
  quota_inv aq -> check_quota aq size = None -> aq_emailSizes aq !! id = None -> 0 <= size < 2 ^ 63 ->
  quota_inv (quota_created aq id size).
Proof.
  intros [[Hh [Ho Hm]] Hs [Hu Hl] [Hc Hcl]] Hok Hid Hsz. unfold check_quota in Hok. rewrite Hh in Hok.
  pose proof (sizes_total_nonneg _ Hs).
  rewrite !u64_small in Hok by lia.
  rewrite (proj2 (Z.ltb_lt 0 _)), (proj2 (Z.ltb_lt 0 (aq_messagesLimit aq))) in Hok by lia. simpl in Hok.
  destruct (Z.ltb_spec (aq_octetsLimit aq) (aq_octetsUsed aq + size)); [done|].
  destruct (Z.ltb_spec (aq_messagesLimit aq) (aq_messagesUsed aq + 1)); [done|].
  split; simpl; rewrite ?u64_small by lia.
  - done.
  - intros k v. rewrite lookup_insert. case_decide; [intros [= <-]; lia|apply Hs].
  - rewrite sizes_total_insert by done. lia.
  - rewrite map_size_insert_None by done. lia.
Qed.

Lemma quota_inv_deleted aq id : quota_inv aq -> quota_inv (quota_deleted aq id).
Proof.
  intros [Hlim Hs [Hu Hl] [Hc Hcl]]. unfold quota_deleted.
  pose proof (sizes_total_nonneg _ Hs).
  destruct (aq_emailSizes aq !! id) as [size|] eqn:E; simpl.
  - pose proof (Hs _ _ E). pose proof (sizes_total_delete _ _ _ E).
    assert (sizes_ok (delete id (aq_emailSizes aq))) as Hs'.
    { intros k v [_ Hv]%lookup_delete_Some. by apply (Hs k). }
    pose proof (sizes_total_nonneg _ Hs').
    assert (is_Some (aq_emailSizes aq !! id)) as Hsome by eauto.
    pose proof (map_size_delete_Some id (aq_emailSizes aq) Hsome) as Hsz.
    assert (base.size (aq_emailSizes aq) <> 0)%nat as Hpos.
    { intros Hz%map_size_empty_inv. rewrite Hz, lookup_empty in E. done. }
    split; simpl; [done|done| |].
    + destruct (Z.leb_spec size (aq_octetsUsed aq)); lia.
    + rewrite Hsz. destruct (Z.ltb_spec 0 (aq_messagesUsed aq)); lia.
  - split; simpl; [done|done|done|]. destruct (Z.ltb_spec 0 (aq_messagesUsed aq)); lia.
Qed.

Lemma quota_inv_moved aq o n :
  quota_inv aq -> aq_emailSizes aq !! n = None -> quota_inv (quota_moved aq o n).
Proof.
  intros [Hlim Hs Hu Hc] Hn. unfold quota_moved. destruct (aq_emailSizes aq !! o) as [size|] eqn:E; [|done].
  assert (o <> n) by congruence.
  assert (sizes_total (delete o (<[n := size]> (aq_emailSizes aq))) = sizes_total (aq_emailSizes aq)) as Ht.
  { rewrite delete_insert_ne by done. rewrite sizes_total_insert by (by rewrite lookup_delete_ne).
    symmetry. by apply sizes_total_delete. }
  assert (base.size (delete o (<[n := size]> (aq_emailSizes aq))) = base.size (aq_emailSizes aq)) as Hsz.
  { rewrite delete_insert_ne by done. rewrite map_size_insert_None by (by rewrite lookup_delete_ne).
    rewrite map_size_delete_Some by eauto.
    assert (base.size (aq_emailSizes aq) <> 0)%nat; [|lia].
    intros Hz%map_size_empty_inv. rewrite Hz, lookup_empty in E. done. }
  split; simpl; [done| |by rewrite Ht|by rewrite Hsz].
  intros k v [_ Hv]%lookup_delete_Some. apply lookup_insert_Some in Hv as [[_ <-]|[_ Hv]];
    [by apply (Hs o)|by apply (Hs k)].
Qed.

Lemma quota_inv_step aq aq' : quota_inv aq -> quota_step aq aq' -> quota_inv aq'.
Proof. intros Hi [id size ???|id|o n ?]; eauto using quota_inv_created, quota_inv_deleted, quota_inv_moved. Qed.

(** ** Properties *)

(** C22: ids of moved emails.  After any sequence of moves, each to a fresh id or
    back to the place just left, an id the client ever held resolves to where
    the message is now: resolution implements the specification in which every
    id leads to one place and a move takes along all the ids that lead to the
    place it leaves; and it always ends. *)
Theorem moved_ids_follow moves moved accountID x :
  moves_ok ∅ moves -> plain_id x = true ->
  resolveMovedEmailID (<[accountID := run_moves ∅ moves]> moved) accountID x = Some (follow moves x)
  /\ (forall movedIDs id, is_Some (resolveMovedEmailID movedIDs accountID id))
  /\ forall st origID newID, settled (default ∅ (st_moved st !! accountID)) -> plain_id origID = true ->
     exists id, resolveMovedEmailID (st_moved st) accountID origID = Some id
       /\ st_moved (email_moved st accountID origID id newID) !! accountID
          = Some (move_in (default ∅ (st_moved st !! accountID)) origID newID).
Proof.
  intros Hok Hx.
  destruct (run_moves_follow moves ∅ (fun x => x)) as [Hs Hf]; [intros k v; by rewrite lookup_empty|done|..].
  { intros y. by rewrite lookup_empty. }
  split_and!.
  - rewrite resolve_settled; rewrite ?lookup_insert_eq; simpl; [by rewrite Hf|done|done].
  - intros movedIDs id. unfold resolveMovedEmailID. destruct (movedIDs !! accountID) as [m|]; [|done].
    destruct (moved_loop_ends m (size m) ∅ id) as [r ->]; [set_solver|lia|done].
  - intros st origID newID. apply email_moved_ids.
Qed.

(** C27: a mailbox that is renamed and renamed back hangs the gateway.  On a
    settled map the resolution of a mailbox id ends exactly when the id does
    not lead to one that leads to itself; the two renamings leave such an id,
    so the loop runs for ever, holding the lock. *)
Theorem mailbox_rename_back_hangs m a b :
  settled m -> a <> b ->
  (forall x, (exists fuel, is_Some (resolveMovedMailboxID fuel m x)) <-> m !! default x (m !! x) = None)
  /\ let back := trackMovedMailbox (trackMovedMailbox ∅ a b) b a in
     forall fuel, resolveMovedMailboxID fuel back a = None /\ resolveMovedMailboxID fuel back b = None.
Proof.
  intros Hm Hab. assert (forall m' x fuel, m' !! x = Some x -> resolveMovedMailboxID fuel m' x = None) as Hloop.
  { intros m' x fuel Hx. induction fuel; simpl; rewrite Hx; done. }
  split.
  - intros x. destruct (m !! x) as [v|] eqn:E; simpl.
    + split.
      * intros [fuel [r Hr]]. destruct (Hm _ _ E) as [_ [Hv|Hv]]; [done|]. exfalso.
        destruct fuel as [|fuel]; simpl in Hr; rewrite E in Hr; [done|]. by rewrite Hloop in Hr.
      * intros Hv. exists 1%nat. simpl. by rewrite E, Hv.
    + split; [done|]. intros _. exists 0%nat. simpl. by rewrite E.
  - intros back.
    assert (back !! a = Some a) as Ha.
    { unfold back, trackMovedMailbox. rewrite !track_moved_lookup, !decide_False, decide_True by congruence.
      simpl. by rewrite String.eqb_refl. }
    assert (back !! b = Some a) as Hb by (unfold back, trackMovedMailbox; by rewrite track_moved_lookup, decide_True).
    intros fuel. split; [by apply Hloop|]. destruct fuel as [|fuel]; simpl; rewrite Hb; [done|]. by apply Hloop.
Qed.

(** item changes keep a client in step.  From a state of the tracker at
    which the client knew the live ids, removing the destroyed ids and adding
    the created ones gives the ids that are live now; every id touched since
    that is live now is listed as created or updated, and only live ids are
    listed as updated; the new state is the present one. *)
Theorem item_changes_sync t since live :
  0 <= since <= it_counter t -> it_counter t < 2 ^ 64 ->
  let es := List.filter (fun e => since <? ce_State e) (it_history t) in
  log_ok live es ->
  let r := itemTracker_Changes t (fmt_d since) None in
  (forall x, x ∈ replay live es <-> (x ∈ live /\ x ∉ ch_destroyed r) \/ x ∈ ch_created r)
  /\ (forall x, x ∈ ch_updated r -> x ∈ replay live es)
  /\ (forall x, x ∈ map ce_ID es -> x ∈ replay live es -> x ∈ ch_created r \/ x ∈ ch_updated r)
  /\ ch_hasMore r = false /\ sscanf_uint64 (ch_newState r) = Some (it_counter t).
Proof.
  intros Hs Hc es Hok r. unfold r, itemTracker_Changes. rewrite sscanf_uint64_fmt by lia.
  destruct (Z.ltb_spec (it_counter t) since); [lia|]. rewrite foldl_since. fold es. simpl.
  destruct (synced_run live es live [] (mkSets ∅ ∅ ∅)) as [Hl Hd Hu Ht]; [split; set_solver|done|].
  assert (forall (X : gset string) x, x ∈ sort_ids (elements X) <-> x ∈ X) as Helem.
  { intros X x. unfold sort_ids. rewrite merge_sort_Permutation. apply elem_of_elements. }
  rewrite sscanf_uint64_fmt by lia. split_and!; [|..|done|done]; intros x; rewrite ?Helem; auto.
Qed.


(** an email that is moved twice under the id the client knows never gives
    its octets back.  The second move renames the quota entry of the client's
    id, which the first move had taken away, so the deletion finds no size. *)
Theorem second_move_leaks_quota accountID x0 x1 x2 size log :
  plain_id x0 = true -> plain_id x1 = true -> plain_id x2 = true ->
  x0 <> x1 -> x1 <> x2 -> x0 <> x2 -> 0 <= size < 2 ^ 63 ->
  let st0 := mkStores ∅ (mkQuotas ∅ ∅) log in
  let st1 := email_created st0 accountID x0 size in
  let st2 := email_moved st1 accountID x0 x0 x1 in
  let st3 := email_moved st2 accountID x0 x1 x2 in
  let st4 := email_deleted st3 accountID x2 in
  resolveMovedEmailID (st_moved st1) accountID x0 = Some x0
  /\ resolveMovedEmailID (st_moved st2) accountID x0 = Some x1
  /\ resolveMovedEmailID (st_moved st3) accountID x0 = Some x2
  /\ aq_octetsUsed (getAccountQuota (st_quota st4) accountID) = size
  /\ aq_messagesUsed (getAccountQuota (st_quota st4) accountID) = 0.
Proof.
  intros H0 H1 H2 N01 N12 N02 Hsz st0 st1 st2 st3 st4.
  assert (st_moved st2 = {[accountID := run_moves ∅ [(x0, x1)]]}) as M2.
  { unfold st2, st1, email_moved, trackMovedEmail. simpl. rewrite lookup_insert_eq, lookup_empty. simpl.
    rewrite insert_insert_eq. unfold move_in. by rewrite lookup_empty. }
  assert (st_moved st3 = {[accountID := run_moves ∅ [(x0, x1); (x0, x2)]]}) as M3.
  { unfold st3, email_moved, trackMovedEmail. rewrite M2. cbn [st_moved].
    rewrite lookup_singleton_eq. rewrite lookup_insert_eq. cbn [default from_option id].
    rewrite insert_insert_eq, insert_singleton_eq. f_equal.
    assert (settled ∅) as Hs by (intros k v; by rewrite lookup_empty).
    cbn [run_moves foldl fst snd]. 
    assert (move_in ∅ x0 x1 !! x0 = Some x1) as Hx by (rewrite move_in_lookup, decide_True; auto).
    change (move_in (move_in ∅ x0 x1) x0 x2) with
      (track_moved (track_moved (move_in ∅ x0 x1) x0 x2) (default x0 (move_in ∅ x0 x1 !! x0)) x2).
    by rewrite Hx. }
  assert (moves_ok ∅ [(x0, x1)] /\ moves_ok ∅ [(x0, x1); (x0, x2)]) as [Ok2 Ok3].
  { assert (move_in ∅ x0 x1 !! x2 = None) as Hx2.
    { rewrite move_in_lookup by (intros k v; by rewrite lookup_empty). rewrite !lookup_empty. simpl.
      by rewrite decide_False by (intros [?|?]; congruence). }
    simpl. unfold may_move_to. rewrite !lookup_empty, Hx2. tauto. }
  rewrite M2, M3, !resolve_moves by done.
  assert (getAccountQuota (st_quota st4) accountID
          = quota_deleted (quota_moved (quota_moved (quota_created default_quota x0 size) x0 x1) x0 x2) x2) as ->.
  { unfold st4, st3, st2, st1, st0, email_deleted, email_moved, email_created. simpl.
    unfold recordEmailQuotaDeleted, recordEmailQuotaCreated, trackMovedEmailQuota, put_quota, getAccountQuota.
    simpl. rewrite !lookup_insert_eq, lookup_empty. done. }
  split_and!.
  - unfold st1, resolveMovedEmailID. simpl. rewrite lookup_empty. by rewrite legacy_plain.
  - unfold follow. simpl. by rewrite String.eqb_refl.
  - unfold follow. simpl. by rewrite !String.eqb_refl.
  - unfold quota_moved at 2. cbn [quota_created aq_emailSizes]. rewrite lookup_insert_eq.
    unfold quota_moved. cbn [aq_emailSizes]. rewrite lookup_delete_eq.
    unfold quota_deleted. cbn [aq_emailSizes aq_octetsUsed].
    rewrite lookup_delete_ne, !lookup_insert_ne by done.
    change (aq_emailSizes default_quota) with (∅ : gmap string Z). rewrite lookup_empty.
    change (u64 (0 + size) = size). rewrite u64_small; lia.
  - unfold quota_moved at 2. cbn [quota_created aq_emailSizes]. rewrite lookup_insert_eq.
    unfold quota_moved. cbn [aq_emailSizes]. rewrite lookup_delete_eq.
    unfold quota_deleted. cbn [aq_emailSizes]. rewrite lookup_delete_ne, !lookup_insert_ne by done.
    change (aq_emailSizes default_quota) with (∅ : gmap string Z). by rewrite lookup_empty.
Qed.

(** ** Witnesses *)

Definition demo_moves : list (string * string) :=
  [("mb-inbox-7", "mb-archive-1"); ("mb-inbox-7", "mb-trash-4"); ("mb-trash-4", "mb-archive-1")].

Lemma moved_ids_follow_witness :
  resolveMovedEmailID {["acct" := run_moves ∅ demo_moves]} "acct" "mb-inbox-7" = Some "mb-archive-1".
Proof.
  refine (eq_trans (proj1 (moved_ids_follow demo_moves ∅ "acct" "mb-inbox-7" _ _)) _);
    [|reflexivity|reflexivity].
  repeat split; try reflexivity; vm_compute; auto.
Defined.

Lemma mailbox_rename_back_hangs_witness :
  resolveMovedMailboxID 1000
    (trackMovedMailbox (trackMovedMailbox ∅ "mb-a" "mb-b") "mb-b" "mb-a") "mb-a" = None.
Proof.
  refine (proj1 (proj2 (mailbox_rename_back_hangs ∅ "mb-a" "mb-b" _ _) 1000%nat)).
  - intros k v Hk. by rewrite lookup_empty in Hk.
  - discriminate.
Defined.

Definition demo_tracker : itemTracker :=
  fst (itemTracker_Record (fst (itemTracker_Record (fst (itemTracker_Record newItemTracker
    "i1" "create")) "i2" "create")) "i1" "destroy").

Lemma item_changes_sync_witness :
  ch_hasMore (itemTracker_Changes demo_tracker (fmt_d 2) None) = false
  /\ "i2" ∈ ch_created (itemTracker_Changes demo_tracker (fmt_d 2) None).
Proof.
  split.
  - refine (proj1 (proj2 (proj2 (proj2 (item_changes_sync demo_tracker 2 {["i1"]} _ _ _))))).
    + vm_compute. split; discriminate.
    + reflexivity.
    + change (log_ok {["i1"]} [mkEntry "create" "i2" 3; mkEntry "destroy" "i1" 4]).
      split; [left; split; [reflexivity|]|split; [right; split; [by right|]|exact I]];
        apply (bool_decide_unpack _); vm_compute; exact I.
  - apply (bool_decide_unpack _). vm_compute. exact I.
Defined.

Definition demo_quota : accountQuota := mkQuota true 100 10 0 0 ∅.


Lemma second_move_leaks_quota_witness :
  let st0 := mkStores ∅ (mkQuotas ∅ ∅) (mkLog ∅ ∅ None) in
  let st1 := email_created st0 "acct" "mb-inbox-1" 40 in
  let st3 := email_moved (email_moved st1 "acct" "mb-inbox-1" "mb-inbox-1" "mb-archive-1")
               "acct" "mb-inbox-1" "mb-archive-1" "mb-trash-1" in
  aq_octetsUsed (getAccountQuota (st_quota (email_deleted st3 "acct" "mb-trash-1")) "acct") = 40.
Proof.
  refine (proj1 (proj2 (proj2 (proj2
    (second_move_leaks_quota "acct" "mb-inbox-1" "mb-archive-1" "mb-trash-1" 40 (mkLog ∅ ∅ None)
       _ _ _ _ _ _ _)))));
    try reflexivity; try discriminate. split; [discriminate|reflexivity].
Defined.
