(* ===== verification/ClientPool.v ===== *)
(** * The pool of IMAP connections

    [jmap/imapsmtp/client_pool.go]: a semaphore of six slots and a stack of at
    most four idle connections per pair of credentials.  Calls run
    concurrently, so the pool is a transition system: a call in progress is a
    thread, and one step is what a thread does between two points at which
    another can run (a lock, the semaphore channel, or the network).  The
    outcome of the network (a NOOP, a dial) is part of the label of a step. *)

From S2P Require Import Prelude GoStrings Base64 Json Envelope Handler.
From Stdlib Require Import Ascii.

Definition maxConnsPerUser : Z := 6.
Definition maxIdleConnsPerUser : Z := 4.

(** [AuthCredentials] *)
Abbreviation creds := (string * string)%type.

(** ** The credentials of a request *)

Definition context_credentials (c : Ctx) : creds :=
  let '(cr, ok) := CredentialsFromContext c in
  if ok : bool then cr
  else
    let '(subject, hasSubject) := SubjectFromContext c in
    if hasSubject : bool then (subject, subject)
    else
      let '(accountID, hasAccount) := AccountIDFromContext c in
      if hasAccount : bool then
        match SubjectForAccountID accountID with Some sub => (sub, sub) | None => cr end
      else cr.

(** [GetClientForContext] up to the call of [GetClient]. *)
Definition GetClientForContext (c : Ctx) : result string creds :=
  let cr := context_credentials c in
  if String.eqb (fst cr) EmptyString then Err "unauthorized: missing credentials in context" else Ok cr.

(** [extractCredentials] *)
Definition extractCredentials (c : Ctx) : result string creds :=
  let '(cr, ok) := CredentialsFromContext c in
  let cr :=
    if negb ok || String.eqb (fst cr) EmptyString || String.eqb (snd cr) EmptyString then
      let '(subject, hasSubject) := SubjectFromContext c in
      if hasSubject && negb (String.eqb subject EmptyString) then (subject, subject)
      else
        let '(accountID, hasAccount) := AccountIDFromContext c in
        if hasAccount && negb (String.eqb accountID EmptyString) then
          match SubjectForAccountID accountID with
          | Some sub => if String.eqb sub EmptyString then cr else (sub, sub)
          | None => cr
          end
        else cr
    else cr in
  if String.eqb (fst cr) EmptyString || String.eqb (snd cr) EmptyString
  then Err "unauthorized: missing credentials in context" else Ok cr.

(** [plainAuth.Start]: the SASL PLAIN response. *)
Definition plainAuth_Start (identity username password : string) : string :=
  identity +:+ str_of ["000"%char] +:+ username +:+ str_of ["000"%char] +:+ password.

Definition pool_key (cr : creds) : string := fst cr +:+ ":" +:+ snd cr.

(** ** The pool *)

(** [userConnectionPool]: the tokens in the channel and the idle clients. *)
Record user_pool : Type := mkUserPool {
  up_sem : Z;
  up_idle : list nat;
}.

(** Where a call is. *)
Inductive thread : Type :=
| TWaiting (cr : creds)              (* before the semaphore *)
| TPopping (cr : creds)              (* about to take an idle client *)
| TChecking (cr : creds) (c : nat)   (* NOOP on an idle client *)
| TDialing (cr : creds)
| THolding (cr : creds) (c : nat)    (* the caller has the client *)
| TReturning (cr : creds)            (* client returned, token not yet *)
| TDone.

#[export] Instance thread_eq_dec : EqDecision thread.
Proof. solve_decision. Defined.

(** Clients are numbered in the order of their dials; [cp_auth] says with which
    credentials each was dialled. *)
Record ClientPool : Type := mkPool {
  cp_users : gmap string user_pool;
  cp_threads : list thread;
  cp_auth : list creds;
}.

Definition NewClientPool : ClientPool := mkPool ∅ [] [].

Definition pool_of (p : ClientPool) (key : string) : user_pool :=
  default (mkUserPool 0 []) (cp_users p !! key).

(** [getUserPool]: a missing pool is created. *)
Definition getUserPool (p : ClientPool) (key : string) : ClientPool :=
  match cp_users p !! key with
  | Some _ => p
  | None => mkPool (<[key := mkUserPool 0 []]> (cp_users p)) (cp_threads p) (cp_auth p)
  end.

Definition set_thread (p : ClientPool) (i : nat) (t : thread) : ClientPool :=
  mkPool (cp_users p) (<[i := t]> (cp_threads p)) (cp_auth p).
Definition set_pool (p : ClientPool) (key : string) (u : user_pool) : ClientPool :=
  mkPool (<[key := u]> (cp_users p)) (cp_threads p) (cp_auth p).

(** [select { case <-uPool.sem: default: }] *)
Definition take_token (u : user_pool) : user_pool :=
  mkUserPool (if 0 <? up_sem u then up_sem u - 1 else up_sem u) (up_idle u).

(** The steps.  [LStart] begins a [GetClient], [LRelease] a
    [ReleaseClientForUser]. *)
Inductive label : Type :=
| LStart (cr : creds)
| LAcquire (i : nat)
| LGiveUp (i : nat)
| LPop (i : nat)
| LNoop (i : nat) (alive : bool)
| LDial (i : nat) (ok : bool)
| LRelease (i : nat)
| LFree (i : nat)
| LClose.

Definition start (p : ClientPool) (cr : creds) : ClientPool :=
  let p := getUserPool p (pool_key cr) in
  mkPool (cp_users p) (cp_threads p ++ [TWaiting cr]) (cp_auth p).

(** [uPool.sem <- struct{}{}]: blocks when the channel is full. *)
Definition acquire (p : ClientPool) (i : nat) (cr : creds) : option ClientPool :=
  let u := pool_of p (pool_key cr) in
  if up_sem u <? maxConnsPerUser
  then Some (set_thread (set_pool p (pool_key cr) (mkUserPool (up_sem u + 1) (up_idle u))) i (TPopping cr))
  else None.

(** The last idle client, or a dial when there is none. *)
Definition pop_idle (p : ClientPool) (i : nat) (cr : creds) : ClientPool :=
  let u := pool_of p (pool_key cr) in
  match last (up_idle u) with
  | Some c => set_thread (set_pool p (pool_key cr)
                (mkUserPool (up_sem u) (take (length (up_idle u) - 1) (up_idle u)))) i (TChecking cr c)
  | None => set_thread p i (TDialing cr)
  end.

Definition dialled (p : ClientPool) (i : nat) (cr : creds) (ok : bool) : ClientPool :=
  if ok then mkPool (cp_users p) (<[i := THolding cr (length (cp_auth p))]> (cp_threads p)) (cp_auth p ++ [cr])
  else set_thread (set_pool p (pool_key cr) (take_token (pool_of p (pool_key cr)))) i TDone.

(** [ReleaseClientForUser] up to the release of the slot. *)
Definition release (p : ClientPool) (i : nat) (cr : creds) (c : nat) : ClientPool :=
  let u := pool_of p (pool_key cr) in
  let u := if Z.of_nat (length (up_idle u)) <? maxIdleConnsPerUser
           then mkUserPool (up_sem u) (up_idle u ++ [c]) else u in
  set_thread (set_pool p (pool_key cr) u) i (TReturning cr).

(** [Close] *)
Definition pool_close (p : ClientPool) : ClientPool :=
  mkPool ((fun u => mkUserPool (up_sem u) []) <$> cp_users p) (cp_threads p) (cp_auth p).

Definition pool_step (p : ClientPool) (l : label) : option ClientPool :=
  match l with
  | LStart cr => Some (start p cr)
  | LAcquire i => match cp_threads p !! i with Some (TWaiting cr) => acquire p i cr | _ => None end
  | LGiveUp i => match cp_threads p !! i with Some (TWaiting _) => Some (set_thread p i TDone) | _ => None end
  | LPop i => match cp_threads p !! i with Some (TPopping cr) => Some (pop_idle p i cr) | _ => None end
  | LNoop i alive =>
      match cp_threads p !! i with
      | Some (TChecking cr c) => Some (set_thread p i (if alive then THolding cr c else TPopping cr))
      | _ => None
      end
  | LDial i ok => match cp_threads p !! i with Some (TDialing cr) => Some (dialled p i cr ok) | _ => None end
  | LRelease i => match cp_threads p !! i with Some (THolding cr c) => Some (release p i cr c) | _ => None end
  | LFree i =>
      match cp_threads p !! i with
      | Some (TReturning cr) =>
          Some (set_thread (set_pool p (pool_key cr) (take_token (pool_of p (pool_key cr)))) i TDone)
      | _ => None
      end
  | LClose => Some (pool_close p)
  end.

Fixpoint pool_run (p : ClientPool) (ls : list label) : option ClientPool :=
  match ls with
  | [] => Some p
  | l :: ls' => match pool_step p l with Some p' => pool_run p' ls' | None => None end
  end.

(** ** Lemmas: tokens *)

(** Whether a thread has taken a slot of the semaphore of [key]. *)
Definition holds_token (key : string) (t : thread) : Z :=
  match t with
  | TPopping cr | TChecking cr _ | TDialing cr | THolding cr _ | TReturning cr =>
      if String.eqb (pool_key cr) key then 1 else 0
  | TWaiting _ | TDone => 0
  end.
Definition tokens (key : string) (ts : list thread) : Z :=
  foldr (fun t n => holds_token key t + n) 0 ts.

Lemma holds_token_range key t : 0 <= holds_token key t <= 1.
Proof. destruct t; simpl; try lia; by destruct (String.eqb _ key). Qed.

Lemma tokens_app key ts us : tokens key (ts ++ us) = tokens key ts + tokens key us.
Proof. induction ts as [|t ts IH]; simpl; [done|]. rewrite IH. lia. Qed.

Lemma tokens_insert key ts i t t' :
  ts !! i = Some t -> tokens key (<[i := t']> ts) = tokens key ts - holds_token key t + holds_token key t'.
Proof.
  revert i. induction ts as [|u ts IH]; intros [|i] Hi; simplify_eq/=; [lia|].
  rewrite (IH i) by done. lia.
Qed.

Lemma tokens_nonneg key ts : 0 <= tokens key ts.
Proof. induction ts as [|t ts IH]; simpl; [done|]. pose proof (holds_token_range key t). lia. Qed.

Lemma tokens_pos key ts i t : ts !! i = Some t -> holds_token key t = 1 -> 1 <= tokens key ts.
Proof.
  revert i. induction ts as [|u ts IH]; intros [|i] Hi Ht; simplify_eq/=.
  - pose proof (tokens_nonneg key ts). lia.
  - pose proof (IH i Hi Ht). pose proof (holds_token_range key u). lia.
Qed.

(** ** Lemmas: where the clients are *)

Inductive loc : Type :=
| Idle (key : string) (pos : nat)
| InUse (i : nat) (key : string).
Definition loc_key (l : loc) : string := match l with Idle key _ => key | InUse _ key => key end.

Definition client_of (t : thread) : option (creds * nat) :=
  match t with TChecking cr c | THolding cr c => Some (cr, c) | _ => None end.

Definition at_loc (p : ClientPool) (c : nat) (l : loc) : Prop :=
  match l with
  | Idle key pos => up_idle (pool_of p key) !! pos = Some c
  | InUse i key => exists t cr, cp_threads p !! i = Some t /\ client_of t = Some (cr, c) /\ pool_key cr = key
  end.

Record pool_inv (p : ClientPool) : Prop := {
  pi_sem : forall key, up_sem (pool_of p key) = tokens key (cp_threads p);
  pi_slots : forall key, up_sem (pool_of p key) <= maxConnsPerUser;
  pi_idle : forall key, Z.of_nat (length (up_idle (pool_of p key))) <= maxIdleConnsPerUser;
  pi_auth : forall c l, at_loc p c l ->
    exists cr, cp_auth p !! c = Some cr /\ pool_key cr = loc_key l;
  pi_once : forall c l1 l2, at_loc p c l1 -> at_loc p c l2 -> l1 = l2;
}.

Lemma pool_of_set p key u key' :
  pool_of (set_pool p key u) key' = if decide (key = key') then u else pool_of p key'.
Proof. unfold pool_of. simpl. rewrite lookup_insert. by case_decide. Qed.

Lemma pool_of_set_thread p i t key : pool_of (set_thread p i t) key = pool_of p key.
Proof. done. Qed.

(** The clients of a state all come from places of the state before. *)
Definition moves_back (p p' : ClientPool) (back : loc -> loc) : Prop :=
  (forall c l, at_loc p' c l -> at_loc p c (back l) /\ loc_key (back l) = loc_key l)
  /\ (forall c l1 l2, at_loc p' c l1 -> at_loc p' c l2 -> back l1 = back l2 -> l1 = l2).

Lemma moves_back_auth p p' back c l :
  pool_inv p -> moves_back p p' back -> cp_auth p' = cp_auth p -> at_loc p' c l ->
  exists cr, cp_auth p' !! c = Some cr /\ pool_key cr = loc_key l.
Proof.
  intros Hi [Hb _] Ha Hl. destruct (Hb c l Hl) as [Hl' <-]. rewrite Ha. by apply (pi_auth p Hi).
Qed.

Lemma moves_back_once p p' back c l1 l2 :
  pool_inv p -> moves_back p p' back -> at_loc p' c l1 -> at_loc p' c l2 -> l1 = l2.
Proof.
  intros Hi [Hb Hinj] H1 H2. apply (Hinj c); [done|done|].
  apply (pi_once p Hi c); by apply Hb.
Qed.

Lemma moves_back_id p p' :
  (forall c l, at_loc p' c l -> at_loc p c l) -> moves_back p p' (fun l => l).
Proof. intros Hs. split; [intros c l Hl; split; [by apply Hs|done]|done]. Qed.

(** A thread that keeps its client, or gets rid of it, adds no place. *)
Lemma at_set_thread p i t t' c l :
  cp_threads p !! i = Some t -> client_of t' = client_of t \/ client_of t' = None ->
  at_loc (set_thread p i t') c l -> at_loc p c l.
Proof.
  intros Hi Ht. destruct l as [key pos|j key]; [done|]. simpl.
  intros (u & cr & Hu & Hc & Hk). apply list_lookup_insert_Some in Hu as [(<- & <- & _)|[_ Hu]]; [|naive_solver].
  destruct Ht as [Ht|Ht]; [|congruence]. exists t, cr. by rewrite <- Ht.
Qed.

Lemma at_set_pool p key u c l :
  (forall pos x, up_idle u !! pos = Some x -> up_idle (pool_of p key) !! pos = Some x) ->
  at_loc (set_pool p key u) c l -> at_loc p c l.
Proof.
  intros Hsub. destruct l as [key' pos|j key']; [|done]. simpl. rewrite pool_of_set.
  case_decide; [subst; apply Hsub|done].
Qed.

Lemma pool_inv_back p p' back :
  pool_inv p -> moves_back p p' back -> cp_auth p' = cp_auth p ->
  (forall key, up_sem (pool_of p' key) = tokens key (cp_threads p')) ->
  (forall key, up_sem (pool_of p' key) <= maxConnsPerUser) ->
  (forall key, Z.of_nat (length (up_idle (pool_of p' key))) <= maxIdleConnsPerUser) ->
  pool_inv p'.
Proof.
  intros Hi Hb Ha Hs Hm Hl. split; [done..| |].
  - intros c l. by apply (moves_back_auth p p' back).
  - intros c l1 l2. by apply (moves_back_once p p' back).
Qed.

Lemma pool_of_start p cr key : pool_of (start p cr) key = pool_of p key.
Proof.
  unfold start, getUserPool, pool_of. destruct (cp_users p !! pool_key cr) eqn:E; [done|]. simpl.
  rewrite lookup_insert. case_decide; [subst; by rewrite E|done].
Qed.

Lemma start_threads p cr : cp_threads (start p cr) = cp_threads p ++ [TWaiting cr].
Proof. unfold start, getUserPool. by destruct (cp_users p !! pool_key cr). Qed.

Lemma start_auth p cr : cp_auth (start p cr) = cp_auth p.
Proof. unfold start, getUserPool. by destruct (cp_users p !! pool_key cr). Qed.

Lemma start_inv p cr : pool_inv p -> pool_inv (start p cr).
Proof.
  intros Hi. apply (pool_inv_back p _ (fun l => l)); [done| |apply start_auth|..].
  - apply moves_back_id. intros c [key pos|i key]; unfold at_loc; rewrite ?pool_of_start, ?start_threads; [done|].
    intros (t & cr' & Ht & Hc & Hk). apply lookup_app_Some in Ht as [Ht|[_ Ht]]; [eauto|].
    apply list_lookup_singleton_Some in Ht as [_ <-]. done.
  - intros key. rewrite pool_of_start, start_threads, tokens_app, (pi_sem p Hi). simpl. lia.
  - intros key. rewrite pool_of_start. by apply (pi_slots p Hi).
  - intros key. rewrite pool_of_start. by apply (pi_idle p Hi).
Qed.

(** A step that changes one thread and the pool of its key. *)
Lemma call_step_inv p i t t' u back :
  pool_inv p -> cp_threads p !! i = Some t ->
  forall key,
  moves_back p (set_thread (set_pool p key u) i t') back ->
  up_sem u = up_sem (pool_of p key) - holds_token key t + holds_token key t' ->
  (forall key', key' <> key -> holds_token key' t = holds_token key' t') ->
  up_sem u <= maxConnsPerUser -> Z.of_nat (length (up_idle u)) <= maxIdleConnsPerUser ->
  pool_inv (set_thread (set_pool p key u) i t').
Proof.
  intros Hi Ht key Hb Hs Hother Hm Hl. apply (pool_inv_back p _ back); [done|done|done|..];
    intros key'; rewrite pool_of_set_thread, pool_of_set; case_decide as E; subst.
  - rewrite Hs, (pi_sem p Hi). simpl. by rewrite (tokens_insert key' _ i t).
  - simpl. rewrite (tokens_insert key' _ i t) by done. rewrite (pi_sem p Hi), (Hother key') by done. lia.
  - done.
  - by apply (pi_slots p Hi).
  - done.
  - by apply (pi_idle p Hi).
Qed.

(** A step that changes only the thread. *)
Lemma thread_inv p i t t' :
  pool_inv p -> cp_threads p !! i = Some t -> (client_of t' = client_of t \/ client_of t' = None) ->
  (forall key, holds_token key t' = holds_token key t) -> pool_inv (set_thread p i t').
Proof.
  intros Hi Ht Hc Hk. apply (pool_inv_back p _ (fun l => l)); [done| |done|..].
  - apply moves_back_id. intros c l. by apply (at_set_thread p i t t').
  - intros key. simpl. rewrite (tokens_insert key _ i t), Hk by done.
    rewrite pool_of_set_thread, (pi_sem p Hi). lia.
  - intros key. by apply (pi_slots p Hi).
  - intros key. by apply (pi_idle p Hi).
Qed.

Lemma set_both_id p i t t' key u :
  cp_threads p !! i = Some t -> client_of t' = client_of t \/ client_of t' = None ->
  up_idle u = up_idle (pool_of p key) ->
  moves_back p (set_thread (set_pool p key u) i t') (fun l => l).
Proof.
  intros Ht Hc Hu. apply moves_back_id. intros c l Hl.
  apply (at_set_thread (set_pool p key u) i t t') in Hl; [|done|done].
  apply (at_set_pool p key u) in Hl; [done|]. intros pos x. by rewrite Hu.
Qed.

Lemma eqb_refl_one (k : string) : (if String.eqb k k then 1 else 0) = 1.
Proof. by rewrite String.eqb_refl. Qed.
Lemma eqb_ne_zero (k k' : string) : k' <> k -> (if String.eqb k k' then 1 else 0) = 0.
Proof. intros H. destruct (String.eqb_spec k k'); congruence. Qed.

Lemma acquire_inv p i cr p' :
  pool_inv p -> cp_threads p !! i = Some (TWaiting cr) -> acquire p i cr = Some p' -> pool_inv p'.
Proof.
  unfold acquire. intros Hi Ht. destruct (_ <? _) eqn:E; [|done]. intros [= <-].
  apply (call_step_inv p i (TWaiting cr) _ _ (fun l => l)); [done|done| | | |simpl; lia|by apply (pi_idle p Hi)].
  - by apply (set_both_id p i (TWaiting cr)); [|right|].
  - simpl. rewrite eqb_refl_one. lia.
  - intros key' Hk. simpl. by rewrite eqb_ne_zero.
Qed.

Lemma take_token_pos u : 0 < up_sem u -> take_token u = mkUserPool (up_sem u - 1) (up_idle u).
Proof. intros H. unfold take_token. by destruct (0 <? up_sem u) eqn:E; [|lia]. Qed.

(** The end of a call that has a slot but no client. *)
Lemma free_inv p i t cr :
  pool_inv p -> cp_threads p !! i = Some t -> t = TDialing cr \/ t = TReturning cr ->
  pool_inv (set_thread (set_pool p (pool_key cr) (take_token (pool_of p (pool_key cr)))) i TDone).
Proof.
  intros Hi Ht Hcase.
  assert (Hone : holds_token (pool_key cr) t = 1) by (destruct Hcase; subst; apply eqb_refl_one).
  pose proof (tokens_pos _ _ _ _ Ht Hone) as Hp. rewrite <- (pi_sem p Hi) in Hp.
  rewrite take_token_pos by lia.
  apply (call_step_inv p i t _ _ (fun l => l)); [done|done| | | | |by apply (pi_idle p Hi)].
  - by apply (set_both_id p i t); [|right|].
  - simpl. lia.
  - intros key' Hk. destruct Hcase; subst; simpl; by rewrite eqb_ne_zero.
  - simpl. pose proof (pi_slots p Hi (pool_key cr)). lia.
Qed.


Lemma in_use_set p key u i t c j k :
  at_loc (set_thread (set_pool p key u) i t) c (InUse j k) ->
  (j = i /\ exists cr, client_of t = Some (cr, c) /\ pool_key cr = k) \/ (j <> i /\ at_loc p c (InUse j k)).
Proof.
  intros (t' & cr & Ht & Hc & Hk). simpl in Ht.
  apply list_lookup_insert_Some in Ht as [(<- & <- & _)|[Hne Ht]]; [left; eauto|].
  right. split; [done|]. exists t', cr. done.
Qed.

Lemma idle_set p key u i t c k pos :
  at_loc (set_thread (set_pool p key u) i t) c (Idle k pos) ->
  (k = key /\ up_idle u !! pos = Some c) \/ (k <> key /\ at_loc p c (Idle k pos)).
Proof.
  unfold at_loc. rewrite pool_of_set_thread, pool_of_set. case_decide; subst; [by left|].
  intros Hx. right. done.
Qed.

Lemma pop_back p i cr c :
  let u := pool_of p (pool_key cr) in
  last (up_idle u) = Some c ->
  moves_back p (set_thread (set_pool p (pool_key cr)
      (mkUserPool (up_sem u) (take (length (up_idle u) - 1) (up_idle u)))) i (TChecking cr c))
    (fun l => match l with
              | InUse j k => if decide (j = i) then Idle (pool_key cr) (length (up_idle u) - 1) else l
              | Idle _ _ => l
              end).
Proof.
  intros u Hlast. rewrite last_lookup in Hlast.
  replace (pred (length (up_idle u))) with (length (up_idle u) - 1)%nat in Hlast by lia.
  split.
  - intros c' [k pos|j k] Hl.
    + split; [|done]. apply idle_set in Hl as [[-> Hl]|[_ Hl]]; [|done].
      simpl in Hl. apply lookup_take_Some in Hl as [Hl _]. done.
    + apply in_use_set in Hl as [(-> & cr' & Hc & Hk)|[Hne Hl]].
      * rewrite decide_True by done. simplify_eq/=. done.
      * by rewrite decide_False.
  - intros c' [k pos|j k] [k' pos'|j' k'] H1 H2 Hb; repeat case_decide; simplify_eq; try done.
    + apply idle_set in H1 as [[_ H1]|[? _]]; [|done]. simpl in H1. apply lookup_take_Some in H1 as [_ ?]. lia.
    + apply idle_set in H2 as [[_ H2]|[? _]]; [|done]. simpl in H2. apply lookup_take_Some in H2 as [_ ?]. lia.
    + apply in_use_set in H1 as [(_ & cr1 & Hc1 & <-)|[? _]]; [|done].
      apply in_use_set in H2 as [(_ & cr2 & Hc2 & <-)|[? _]]; [|done]. by simplify_eq/=.
Qed.

Lemma pop_inv p i cr :
  pool_inv p -> cp_threads p !! i = Some (TPopping cr) -> pool_inv (pop_idle p i cr).
Proof.
  intros Hi Ht. unfold pop_idle. destruct (last _) as [c|] eqn:E.
  - eapply (call_step_inv p i (TPopping cr)); [done|done|by apply pop_back| | | |].
    + simpl. lia.
    + intros key' Hk. done.
    + by apply (pi_slots p Hi).
    + simpl. rewrite length_take. pose proof (pi_idle p Hi (pool_key cr)). lia.
  - apply (thread_inv p i (TPopping cr)); [done|done|by left|done].
Qed.

Lemma release_back p i cr c :
  let u := pool_of p (pool_key cr) in
  cp_threads p !! i = Some (THolding cr c) ->
  moves_back p (set_thread (set_pool p (pool_key cr) (mkUserPool (up_sem u) (up_idle u ++ [c]))) i (TReturning cr))
    (fun l => match l with
              | Idle k pos => if decide (k = pool_key cr /\ pos = length (up_idle u)) then InUse i (pool_key cr) else l
              | InUse _ _ => l
              end).
Proof.
  intros u Ht. split.
  - intros c' [k pos|j k] Hl.
    + apply idle_set in Hl as [[-> Hl]|[Hne Hl]].
      * simpl in Hl. apply lookup_app_Some in Hl as [Hl|[Hle Hl]].
        -- rewrite decide_False by (intros [_ ->]; apply lookup_lt_Some in Hl; lia). done.
        -- apply list_lookup_singleton_Some in Hl as [H0 <-].
           rewrite decide_True by (split; [done|lia]). split; [|done].
           exists (THolding cr c), cr. done.
      * rewrite decide_False by naive_solver. done.
    + split; [|done]. by apply in_use_set in Hl as [(_ & cr' & ? & _)|[_ Hl]].
  - intros c' [k pos|j k] [k' pos'|j' k'] H1 H2 Hb; repeat case_decide; simplify_eq; try done.
    + by destruct_and!; subst.
    + by apply in_use_set in H2 as [(_ & ? & ? & _)|[? _]].
    + by apply in_use_set in H1 as [(_ & ? & ? & _)|[? _]].
Qed.

Lemma release_inv p i cr c :
  pool_inv p -> cp_threads p !! i = Some (THolding cr c) -> pool_inv (release p i cr c).
Proof.
  intros Hi Ht. unfold release. destruct (_ <? _) eqn:E.
  - eapply (call_step_inv p i (THolding cr c)); [done|done|by apply release_back|simpl; lia|done|by apply (pi_slots p Hi)|].
    simpl. rewrite length_app. simpl. unfold maxIdleConnsPerUser in *. lia.
  - apply (call_step_inv p i (THolding cr c) _ _ (fun l => l));
      [done|done|by apply (set_both_id p i (THolding cr c)); [|right|]|simpl; lia|done|..].
    + by apply (pi_slots p Hi).
    + by apply (pi_idle p Hi).
Qed.

Lemma at_loc_known p c l : pool_inv p -> at_loc p c l -> (c < length (cp_auth p))%nat.
Proof. intros Hi Hl. destruct (pi_auth p Hi c l Hl) as (cr & Hc & _). by apply lookup_lt_Some in Hc. Qed.

Lemma dial_place p i cr c l :
  at_loc (dialled p i cr true) c l ->
  at_loc p c l \/ (c = length (cp_auth p) /\ l = InUse i (pool_key cr)).
Proof.
  destruct l as [k pos|j k]; [by left|]. intros (t & cr' & Ht & Hc & Hk). simpl in Ht.
  apply list_lookup_insert_Some in Ht as [(<- & <- & _)|[Hne Ht]]; [|left; exists t, cr'; done].
  simplify_eq/=. by right.
Qed.

Lemma dial_inv p i cr :
  pool_inv p -> cp_threads p !! i = Some (TDialing cr) -> pool_inv (dialled p i cr true).
Proof.
  intros Hi Ht. split.
  - intros key. simpl. rewrite (tokens_insert key _ i (TDialing cr)) by done. simpl.
    rewrite (pi_sem p Hi : forall key, up_sem (pool_of (dialled p i cr true) key) = _). lia.
  - intros key. by apply (pi_slots p Hi).
  - intros key. by apply (pi_idle p Hi).
  - intros c l [Hl|[-> ->]]%dial_place; simpl.
    + destruct (pi_auth p Hi c l Hl) as (cr' & Hc & Hk). exists cr'. split; [|done].
      by apply lookup_app_l_Some.
    + exists cr. by rewrite list_lookup_middle.
  - intros c l1 l2 [H1|[-> ->]]%dial_place [H2|[Hc ->]]%dial_place.
    + by apply (pi_once p Hi c).
    + apply (at_loc_known p) in H1; [lia|done].
    + apply (at_loc_known p) in H2; [lia|done].
    + done.
Qed.

Lemma pool_of_close p key : pool_of (pool_close p) key = mkUserPool (up_sem (pool_of p key)) [].
Proof. unfold pool_of. simpl. rewrite lookup_fmap. by destruct (cp_users p !! key). Qed.

Lemma close_inv p : pool_inv p -> pool_inv (pool_close p).
Proof.
  intros Hi. apply (pool_inv_back p _ (fun l => l)); [done| |done|..].
  - apply moves_back_id. intros c [k pos|i k]; [|done]. simpl. by rewrite pool_of_close.
  - intros key. rewrite pool_of_close. apply (pi_sem p Hi).
  - intros key. rewrite pool_of_close. apply (pi_slots p Hi).
  - intros key. by rewrite pool_of_close.
Qed.

Lemma pool_step_inv p l p' : pool_inv p -> pool_step p l = Some p' -> pool_inv p'.
Proof.
  intros Hi. destruct l as [cr|i|i|i|i alive|i ok|i|i|]; simpl;
    try (destruct (cp_threads p !! i) as [[]|] eqn:Ht; try done).
  - intros [= <-]. by apply start_inv.
  - by apply acquire_inv.
  - intros [= <-]. eapply thread_inv; [done|done|by left|done].
  - intros [= <-]. by apply pop_inv.
  - intros [= <-]. eapply thread_inv; [done|done|destruct alive; [by left|by right]|by destruct alive].
  - intros [= <-]. destruct ok; [by apply dial_inv|]. simpl. eapply free_inv; [done|done|by left].
  - intros [= <-]. by apply release_inv.
  - intros [= <-]. eapply free_inv; [done|done|by right].
  - intros [= <-]. by apply close_inv.
Qed.

Lemma new_pool_inv : pool_inv NewClientPool.
Proof.
  split; try done.
  - intros c [k pos|i k]; [done|]. by intros (t & cr & Ht & _).
  - intros c [k pos|i k]; [done|]. by intros l2 (t & cr & Ht & _).
Qed.

Lemma pool_run_inv ls p p' : pool_inv p -> pool_run p ls = Some p' -> pool_inv p'.
Proof.
  revert p. induction ls as [|l ls IH]; simpl; intros p Hi H; [by simplify_eq|].
  destruct (pool_step p l) as [q|] eqn:E; [|done]. apply (IH q); [by apply (pool_step_inv p l)|done].
Qed.

(** ** Lemmas: the work that is left *)

Definition thread_work (t : thread) : nat :=
  match t with
  | TWaiting _ | TChecking _ _ => 7
  | TPopping _ => 6
  | TDialing _ => 5
  | THolding _ _ => 4
  | TReturning _ => 1
  | TDone => 0
  end%nat.
Definition threads_work (ts : list thread) : nat := foldr (fun t n => (thread_work t + n)%nat) 0%nat ts.
Definition idle_count (m : gmap string user_pool) : nat :=
  map_fold (fun _ u n => (length (up_idle u) + n)%nat) 0%nat m.

(** An upper bound on the steps the calls of a state can still make. *)
Definition work (p : ClientPool) : nat := (threads_work (cp_threads p) + 2 * idle_count (cp_users p))%nat.

(** The steps of calls that have started. *)
Definition internal (l : label) : bool :=
  match l with LStart _ | LClose => false | _ => true end.

Lemma threads_work_insert ts i t t' :
  ts !! i = Some t -> (threads_work (<[i := t']> ts) + thread_work t = threads_work ts + thread_work t')%nat.
Proof.
  revert i. induction ts as [|u ts IH]; intros [|i] Hi; simplify_eq/=; [lia|].
  pose proof (IH i Hi). lia.
Qed.

Lemma idle_count_new m key u :
  m !! key = None -> idle_count (<[key := u]> m) = (length (up_idle u) + idle_count m)%nat.
Proof. intros H. unfold idle_count. rewrite map_fold_insert_L; [done| |done]. intros. lia. Qed.

Lemma idle_count_insert p key u :
  (idle_count (<[key := u]> (cp_users p)) + length (up_idle (pool_of p key))
   = idle_count (cp_users p) + length (up_idle u))%nat.
Proof.
  unfold pool_of. destruct (cp_users p !! key) as [v|] eqn:E; simpl.
  - rewrite <- (insert_delete_id (cp_users p) key v) at 2 by done.
    rewrite <- insert_delete_eq. rewrite !idle_count_new by apply lookup_delete_eq. lia.
  - rewrite idle_count_new by done. lia.
Qed.

Lemma work_set p i t t' key u :
  cp_threads p !! i = Some t ->
  (thread_work t' + 2 * length (up_idle u) < thread_work t + 2 * length (up_idle (pool_of p key)))%nat ->
  (work (set_thread (set_pool p key u) i t') < work p)%nat.
Proof.
  intros Ht Hlt. unfold work. simpl. pose proof (threads_work_insert _ _ _ t' Ht).
  pose proof (idle_count_insert p key u). lia.
Qed.

Lemma work_thread p i t t' :
  cp_threads p !! i = Some t -> (thread_work t' < thread_work t)%nat -> (work (set_thread p i t') < work p)%nat.
Proof. intros Ht Hlt. unfold work. simpl. pose proof (threads_work_insert _ _ _ t' Ht). lia. Qed.

Lemma take_token_idle u : up_idle (take_token u) = up_idle u.
Proof. done. Qed.

Lemma pop_work p i cr :
  cp_threads p !! i = Some (TPopping cr) -> (work (pop_idle p i cr) < work p)%nat.
Proof.
  intros Ht. unfold pop_idle. destruct (last _) as [c|] eqn:E.
  - apply (work_set p i (TPopping cr)); [done|]. simpl. rewrite length_take.
    rewrite last_lookup in E. apply lookup_lt_Some in E. lia.
  - apply (work_thread p i (TPopping cr)); [done|]. simpl. lia.
Qed.

Lemma pool_step_work p l p' :
  internal l = true -> pool_step p l = Some p' -> (work p' < work p)%nat.
Proof.
  intros Hin. destruct l as [cr|i|i|i|i alive|i ok|i|i|]; try done; simpl;
    destruct (cp_threads p !! i) as [[]|] eqn:Ht; try done.
  - unfold acquire. destruct (_ <? _); [|done]. intros [= <-]. eapply work_set; [done|]. simpl. lia.
  - intros [= <-]. eapply work_thread; [done|]. simpl. lia.
  - intros [= <-]. by apply pop_work.
  - intros [= <-]. eapply work_thread; [done|]. destruct alive; simpl; lia.
  - intros [= <-]. destruct ok; simpl; [eapply work_thread; [done|]; simpl; lia|].
    eapply work_set; [done|]. rewrite take_token_idle. simpl. lia.
  - intros [= <-]. unfold release. eapply work_set; [done|]. destruct (_ <? _); simpl; rewrite ?length_app; simpl; lia.
  - intros [= <-]. eapply work_set; [done|]. rewrite take_token_idle. simpl. lia.
Qed.

Lemma tokens_holder key ts :
  0 < tokens key ts -> exists i t, ts !! i = Some t /\ holds_token key t = 1.
Proof.
  induction ts as [|t ts IH]; simpl; intros H; [done|].
  pose proof (holds_token_range key t). destruct (decide (holds_token key t = 1)) as [E|E].
  - by exists 0%nat, t.
  - destruct IH as (i & u & Hu & Hh); [lia|]. by exists (S i), u.
Qed.

(** What a call that is not waiting for a slot can do. *)
Lemma past_semaphore_steps p i t :
  cp_threads p !! i = Some t -> t <> TDone -> (forall cr, t <> TWaiting cr) ->
  exists l p', internal l = true /\ (forall j, l <> LGiveUp j) /\ pool_step p l = Some p'.
Proof.
  intros Ht Hd Hw. destruct t as [cr|cr|cr c|cr|cr c|cr|]; try done; [by destruct (Hw cr)|..];
    [exists (LPop i)|exists (LNoop i true)|exists (LDial i true)|exists (LRelease i)|exists (LFree i)];
    simpl; rewrite Ht; eexists; (split; [done|]); (split; [done|]); done.
Qed.

Lemma unfinished_steps p i t :
  pool_inv p -> cp_threads p !! i = Some t -> t <> TDone ->
  exists l p', internal l = true /\ (forall j, l <> LGiveUp j) /\ pool_step p l = Some p'.
Proof.
  intros Hi Ht Hd. destruct t as [cr| | | | | |] eqn:Et; subst; try by eapply past_semaphore_steps.
  destruct (up_sem (pool_of p (pool_key cr)) <? maxConnsPerUser) eqn:E.
  - exists (LAcquire i). eexists. split; [done|]. split; [done|]. simpl. rewrite Ht. unfold acquire. by rewrite E.
  - destruct (tokens_holder (pool_key cr) (cp_threads p)) as (j & u & Hu & Hh).
    { rewrite <- (pi_sem p Hi). unfold maxConnsPerUser in E. lia. }
    apply (past_semaphore_steps p j u Hu); [by intros ->|by intros cr' ->].
Qed.

Definition no_colon (s : string) : bool := str_forallb (fun b => negb (Ascii.eqb b ":")) s.

(** A user name without a colon ends at the first colon of the key. *)
Lemma pool_key_inj cr cr' :
  no_colon (fst cr) = true -> no_colon (fst cr') = true -> pool_key cr = pool_key cr' -> cr = cr'.
Proof.
  destruct cr as [u w], cr' as [u' w']. unfold pool_key. simpl. revert u'.
  induction u as [|a u IH]; intros [|b u']; simpl; intros H1 H2 [=]; subst; try done.
  apply andb_prop in H1 as [_ H1]. apply andb_prop in H2 as [_ H2].
  assert (E : (u, w) = (u', w')) by (by apply IH). by simplify_eq.
Qed.

(** ** The properties *)

(** C15: whatever the interleaving of calls of [GetClient],
    [ReleaseClientForUser] and [Close], and whatever the network answers, the
    pool of a pair of credentials has at most six slots taken, one for each
    call that is past the semaphore and not finished, and at most four idle
    connections; a connection is in one place only, so it is never given to two
    calls and never idle while in use; and a call holds a connection that was
    dialled with credentials of the same key, which are its own when the two
    user names contain no colon. *)
Theorem pool_isolates_connections ls p :
  pool_run NewClientPool ls = Some p ->
  (forall key, up_sem (pool_of p key) = tokens key (cp_threads p)
     /\ up_sem (pool_of p key) <= 6 /\ Z.of_nat (length (up_idle (pool_of p key))) <= 4)
  /\ (forall c l1 l2, at_loc p c l1 -> at_loc p c l2 -> l1 = l2)
  /\ (forall i cr c, cp_threads p !! i = Some (THolding cr c) ->
        exists cr0, cp_auth p !! c = Some cr0 /\ pool_key cr0 = pool_key cr
          /\ (no_colon (fst cr) = true -> no_colon (fst cr0) = true -> cr0 = cr)).
Proof.
  intros H. apply pool_run_inv in H as [Hs Hm Hl Ha Ho]; [|exact new_pool_inv]. split_and!.
  - intros key. split_and!; [apply Hs|apply Hm|apply Hl].
  - exact Ho.
  - intros i cr c Ht. destruct (Ha c (InUse i (pool_key cr))) as (cr0 & Hc & Hk).
    { exists (THolding cr c), cr. done. }
    exists cr0. split_and!; [done|done|]. intros H1 H2. by apply pool_key_inj.
Qed.

Lemma pool_isolates_connections_witness :
  exists p, pool_run NewClientPool
    [LStart ("ann", "x"); LAcquire 0; LPop 0; LDial 0 true; LRelease 0; LStart ("ann", "x"); LFree 0;
     LAcquire 1; LPop 1; LNoop 1 true] = Some p
  /\ cp_threads p !! 1%nat = Some (THolding ("ann", "x") 0) /\ up_sem (pool_of p "ann:x") = 1
  /\ (forall c l1 l2, at_loc p c l1 -> at_loc p c l2 -> l1 = l2).
Proof.
  eexists. split; [vm_compute; reflexivity|]. split; [reflexivity|]. split; [vm_compute; reflexivity|].
  apply (pool_isolates_connections
    [LStart ("ann", "x"); LAcquire 0; LPop 0; LDial 0 true; LRelease 0; LStart ("ann", "x"); LFree 0;
     LAcquire 1; LPop 1; LNoop 1 true]). vm_compute. reflexivity.
Defined.

(** C16: every call of the pool finishes.  From a state the pool can reach, no
    schedule of the calls in progress is longer than [work] steps, however
    often a NOOP or a dial fails; and as long as a call is unfinished some call
    can make a step other than giving up its wait, so the pool never relies on
    the timeout of thirty seconds to get unstuck. *)
Theorem pool_calls_finish ls p ls' p' :
  pool_run NewClientPool ls = Some p -> forallb internal ls' = true -> pool_run p ls' = Some p' ->
  (length ls' + work p' <= work p)%nat
  /\ (Forall (fun t => t = TDone) (cp_threads p')
      \/ exists l q, internal l = true /\ (forall j, l <> LGiveUp j) /\ pool_step p' l = Some q).
Proof.
  intros Hrun Hin Hrun'. apply pool_run_inv in Hrun; [|exact new_pool_inv]. split.
  - clear Hrun. revert p Hrun'. induction ls' as [|l ls' IH]; simpl in *; intros p Hp; [by simplify_eq|].
    apply andb_prop in Hin as [Hl Hin]. destruct (pool_step p l) as [q|] eqn:E; [|done].
    apply pool_step_work in E; [|done]. specialize (IH Hin q Hp). lia.
  - apply pool_run_inv in Hrun'; [|done].
    destruct (decide (Forall (fun t => t = TDone) (cp_threads p'))) as [Hd|Hd]; [by left|right].
    apply not_Forall_Exists in Hd; [|apply _]. apply Exists_exists in Hd as (t & Ht & Hne).
    apply list_elem_of_lookup in Ht as [i Ht]. by apply (unfinished_steps p' i t).
Qed.

Lemma pool_calls_finish_witness :
  exists p p', pool_run NewClientPool [LStart ("ann", "x"); LStart ("bob", "y")] = Some p
    /\ pool_run p [LAcquire 0; LPop 0; LDial 0 false; LGiveUp 1] = Some p'
    /\ (4 + work p' <= work p)%nat.
Proof.
  eexists. eexists. split; [vm_compute; reflexivity|]. split; [vm_compute; reflexivity|].
  eapply (pool_calls_finish [LStart ("ann", "x"); LStart ("bob", "y")] _
    [LAcquire 0; LPop 0; LDial 0 false; LGiveUp 1]); vm_compute; reflexivity.
Defined.

(** the key of a pool does not determine the credentials: user [a] with
    password [b:c] is handed the idle connection that the server gave to user
    [a:b] with password [c], without a login of its own. *)
Theorem pool_key_confuses_users :
  exists ls p, pool_run NewClientPool ls = Some p
    /\ cp_threads p !! 1%nat = Some (THolding ("a", "b:c") 0)
    /\ cp_auth p = [("a:b", "c")].
Proof.
  exists [LStart ("a:b", "c"); LAcquire 0; LPop 0; LDial 0 true; LRelease 0; LFree 0;
          LStart ("a", "b:c"); LAcquire 1; LPop 1; LNoop 1 true].
  eexists. split; [vm_compute; reflexivity|]. done.
Qed.
