(* ===== verification/HttpFront.v ===== *)
(** * The HTTP front door

    [jmap/auth_middleware.go]: which requests need credentials, where they are
    read from and what of them reaches the handlers; the routes of
    [jmap/server.go]; [jmap/blobs.go]: upload and download;
    [jmap/auth_memory.go]: the in-memory token store.  Basic credentials are
    base64 with padding, so the four encodings of Go's [encoding/base64] are
    here too.

    A request is the part of an [http.Request] this code reads.  A backend is
    a record of functions on a state of its own, since checking a token can
    change the store. *)

From S2P Require Import Prelude GoStrings Base64 Json Envelope Handler Broadcaster.
From Stdlib Require Import Ascii.

(** ** The encodings of base64 *)

Module B64.

(** [StdEncoding] differs from [URLEncoding] in the last two characters. *)
Definition val (std : bool) (c : ascii) : option sextet :=
  if std then
    if Ascii.eqb c "+" then Some (sextet_of_N 62)
    else if Ascii.eqb c "/" then Some (sextet_of_N 63)
    else if Ascii.eqb c "-" || Ascii.eqb c "_" then None
    else b64_val c
  else b64_val c.

Fixpoint strip_newlines (s : string) : string :=
  match s with
  | EmptyString => EmptyString
  | String c s' =>
      if Ascii.eqb c "013" || Ascii.eqb c "010" then strip_newlines s' else String c (strip_newlines s')
  end.

(** The text before the first [c] and the text from it on. *)
Fixpoint before_byte (c : ascii) (s : string) : string * string :=
  match s with
  | EmptyString => (EmptyString, EmptyString)
  | String a s' =>
      if Ascii.eqb a c then (EmptyString, s)
      else let '(l, r) := before_byte c s' in (String a l, r)
  end.

Fixpoint sextets (std : bool) (s : string) : option (list sextet) :=
  match s with
  | EmptyString => Some []
  | String c s' =>
      match val std c, sextets std s' with
      | Some x, Some l => Some (x :: l)
      | _, _ => None
      end
  end.

(** What must follow [n] characters in a padded text. *)
Definition padding (n : nat) : option string :=
  match (n mod 4)%nat with
  | O => Some EmptyString
  | 2%nat => Some "=="
  | 3%nat => Some "="
  | _ => None
  end.

(** [DecodeString] of [StdEncoding] and [URLEncoding], and of their [Raw]
    forms when [padded] is false. *)
Definition decode (std padded : bool) (s : string) : option string :=
  let s := strip_newlines s in
  let '(body, rest) := if padded then before_byte "=" s else (s, EmptyString) in
  match sextets std body with
  | None => None
  | Some l =>
      if padded && negb (bool_decide (padding (length l) = Some rest)) then None
      else str_of <$> b64_bytes l
  end.

(** [StdEncoding.EncodeToString] *)
Definition std_char (c : ascii) : ascii :=
  if Ascii.eqb c "-" then "+"%char else if Ascii.eqb c "_" then "/"%char else c.
Definition encode_std (s : string) : string :=
  let body := str_map std_char (b64_encode s) in
  body +:+ default EmptyString (padding (slen body)).

End B64.

(** [decodeBase64OrRaw] *)
Definition decodeBase64OrRaw (s : string) : option string :=
  let s := TrimSpace s in
  let s := TrimPrefix s "Basic " in
  match B64.decode true true s with
  | Some b => Some b
  | None =>
      match B64.decode true false s with
      | Some b => Some b
      | None =>
          match B64.decode false true s with
          | Some b => Some b
          | None => B64.decode false false s
          end
      end
  end.

(** [strings.Cut(s, c)] and [strings.SplitN(s, c, 2)] for a one-byte [c]. *)
Definition Cut (s : string) (c : ascii) : option (string * string) :=
  match B64.before_byte c s with
  | (_, EmptyString) => None
  | (l, String _ r) => Some (l, r)
  end.

(** ** Requests *)

(** [Query().Get] is the empty string for an absent parameter; [Cookie] is
    [None] for an absent cookie. *)
Record http_request : Type := mkRequest {
  r_Method : string;
  r_Path : string;
  r_Authorization : string;
  r_Query : string -> string;
  r_Cookie : string -> option string;
}.

(** [http.Request.BasicAuth]: the scheme is compared without regard to case. *)
Definition BasicAuth (auth : string) : option (string * string) :=
  let prefix := "Basic " in
  if (slen auth <? slen prefix)%nat
     || negb (String.eqb (str_map lower_ascii (str_take (slen prefix) auth)) (str_map lower_ascii prefix))
  then None
  else match B64.decode true true (str_drop (slen prefix) auth) with
       | Some c => Cut c ":"
       | None => None
       end.

(** ** The interface of an authentication backend *)

(** [AuthBackend]; the last field is the optional [TokenCredentialsExtractor]. *)
Record AuthBackend (W : Type) : Type := mkAuthBackend {
  ab_Authenticate : W -> string -> string -> W * result string string;
  ab_ValidateCredentials : W -> string -> string -> W * result string string;
  ab_ValidateToken : W -> string -> W * result string (string * string);
  ab_ExtractCredentials : option (W -> string -> W * option (string * string));
}.
Arguments ab_Authenticate {W} _ _ _ _.
Arguments ab_ValidateCredentials {W} _ _ _ _.
Arguments ab_ValidateToken {W} _ _ _.
Arguments ab_ExtractCredentials {W} _.
Arguments mkAuthBackend {W} _ _ _ _.

(** [DefaultAuthBackend] keeps no state and extracts no credentials. *)
Definition DefaultAuthBackend : AuthBackend unit :=
  mkAuthBackend (fun w u p => (w, Authenticate u p)) (fun w u p => (w, ValidateCredentials u p))
    (fun w t => (w, ValidateToken t)) None.

(** ** The middleware *)

(** The endpoints that need no credentials. *)
Definition is_public (r : http_request) : bool :=
  String.eqb (r_Method r) "OPTIONS"
  || HasSuffix (r_Path r) "/jmap/login" || String.eqb (r_Path r) "/version"
  || HasSuffix (r_Path r) "/convert" || String.eqb (r_Path r) "/"
  || (HasPrefix (r_Path r) "/.well-known/" && negb (HasSuffix (r_Path r) "/.well-known/jmap")).

Definition query_token (r : http_request) : string :=
  let t := r_Query r "access_token" in
  let t := if String.eqb t EmptyString then r_Query r "token" else t in
  let t := if String.eqb t EmptyString then r_Query r "auth" else t in
  if String.eqb t EmptyString then
    let c1 := default EmptyString (r_Cookie r "access_token") in
    if negb (String.eqb c1 EmptyString) then c1
    else default EmptyString (r_Cookie r "jmap_token")
  else t.

(** Who was authenticated: the account, the subject, the credentials. *)
Record identity : Type := mkIdentity {
  id_account : string;
  id_subject : string;
  id_credentials : string * string;
}.

Section Middleware.
Context {W : Type} (b : AuthBackend W).

Definition by_credentials (w : W) (username password : string) : W * result string identity :=
  let '(w, res) := ab_ValidateCredentials b w username password in
  (w, match res with
      | Ok accountID => Ok (mkIdentity accountID username (username, password))
      | Err e => Err e
      end).

Definition by_token (w : W) (token : string) : W * result string identity :=
  let '(w, res) := ab_ValidateToken b w token in
  match res with
  | Err e => (w, Err e)
  | Ok (accountID, subject) =>
      match ab_ExtractCredentials b with
      | None => (w, Ok (mkIdentity accountID subject (EmptyString, EmptyString)))
      | Some extract =>
          let '(w, cr) := extract w token in
          (w, Ok (mkIdentity accountID subject (default (EmptyString, EmptyString) cr)))
      end
  end.

(** Basic credentials in a query parameter: encoded, or as they are. *)
Definition user_pass (queryToken : string) : string :=
  match decodeBase64OrRaw queryToken with
  | Some decoded =>
      if Contains decoded ":" then decoded
      else if Contains queryToken ":" then queryToken else EmptyString
  | None => if Contains queryToken ":" then queryToken else EmptyString
  end.

Definition by_query (w : W) (queryToken : string) : W * result string identity :=
  let '(w, res) := by_token w queryToken in
  match res with
  | Ok i => (w, Ok i)
  | Err e =>
      match Cut (user_pass queryToken) ":" with
      | Some (username, password) => by_credentials w username password
      | None => (w, Err e)
      end
  end.

Definition authenticate (w : W) (r : http_request) : W * result string identity :=
  let auth := r_Authorization r in
  let queryToken := query_token r in
  if HasPrefix auth "Basic " then
    match BasicAuth auth with
    | Some (username, password) => by_credentials w username password
    | None => (w, Err "malformed Basic authorization header")
    end
  else if HasPrefix auth "Bearer " then by_token w (TrimPrefix auth "Bearer ")
  else if negb (String.eqb queryToken EmptyString) then by_query w queryToken
  else if negb (String.eqb auth EmptyString) then (w, Err "unsupported authorization scheme")
  else (w, Err "missing authorization header or access_token query param").

(** What the next handler sees of an authenticated request. *)
Definition identity_context (c : Ctx) (i : identity) : Ctx :=
  let c := ContextWithAccountID c (id_account i) in
  let c := if negb (String.eqb (id_subject i) EmptyString) then ContextWithSubject c (id_subject i) else c in
  let '(u, p) := id_credentials i in
  if negb (String.eqb u EmptyString) then ContextWithCredentials c u p else c.

(** [authMiddleware]: the context the request is served with, or [None] for
    401 Unauthorized. *)
Definition authMiddleware (w : W) (c : Ctx) (r : http_request) : W * option Ctx :=
  if is_public r then (w, Some c)
  else
    let '(w, res) := authenticate w r in
    match res with
    | Ok i => (w, Some (identity_context c i))
    | Err _ => (w, None)
    end.

(** [handleLogin], after the body was decoded: status and the token. *)
Definition handleLogin (w : W) (method username password : string) : W * Z * option (string * string) :=
  if negb (String.eqb method "POST") then (w, 405, None)
  else
    let '(w, res) := ab_Authenticate b w username password in
    match res with
    | Err _ => (w, 401, None)
    | Ok token =>
        let '(w, acct) := ab_ValidateCredentials b w username password in
        (w, 200, Some (token, match acct with Ok a => a | Err _ => EmptyString end))
    end.

End Middleware.

(** ** The routes *)

Inductive route : Type :=
| RSession | RWebSocket | RLogin | RAPI | RUpload | RDownload | REventSource | RVersion | RConvert | RNotFound.

#[export] Instance route_eq_dec : EqDecision route.
Proof. solve_decision. Defined.

(** [handleFlexRoute] *)
Definition handleFlexRoute (r : http_request) : route :=
  let path := r_Path r in
  if HasSuffix path "/.well-known/jmap" || HasSuffix path "/jmap/session" then RSession
  else if HasSuffix path "/jmap/ws" || HasSuffix path "/websocket" then RWebSocket
  else if HasSuffix path "/jmap/login" then RLogin
  else if HasSuffix path "/jmap" then
    if String.eqb (r_Method r) "GET" || String.eqb (r_Method r) "HEAD" then RSession else RAPI
  else if Contains path "/upload/" then RUpload
  else if Contains path "/download/" then RDownload
  else if HasSuffix path "/eventsource" || Contains path "/eventsource" then REventSource
  else if HasSuffix path "/version" then RVersion
  else if HasSuffix path "/convert" then RConvert
  else RNotFound.

(** ** Upload and download *)

(** [strings.SplitN(s, sep, 3)] for a one-byte [sep]: account, blob, name. *)
Definition split_download (path : string) : option (string * string * option string) :=
  match Cut path "/" with
  | None => None
  | Some (a, rest) =>
      match Cut rest "/" with
      | None => Some (a, rest, None)
      | Some (b, name) => Some (a, b, Some name)
      end
  end.

(** The status of a response, or what it serves. *)
Inductive blob_response : Type :=
| BStatus (code : Z)
| BServe (mediaType : string) (disposition : string) (data : string)
| BCreated (accountID blobID ty : string) (size : Z).

Record Blob : Type := mkBlob {
  bl_ID : string;
  bl_Type : string;
  bl_Size : Z;
  bl_Data : string;
}.

Section Blobs.
Context {W : Type}.
Variable GetBlob : W -> Ctx -> string -> string -> W * result string (option Blob).
Variable PutBlob : W -> Ctx -> string -> string -> string -> W * result string Blob.

Definition HandleDownload (w : W) (c : Ctx) (r : http_request) : W * blob_response :=
  if negb (String.eqb (r_Method r) "GET") && negb (String.eqb (r_Method r) "HEAD") then (w, BStatus 405)
  else
    match split_download (TrimPrefix (r_Path r) "/download/") with
    | None => (w, BStatus 404)
    | Some (accountID, blobID, name) =>
        let '(w, res) := GetBlob w c accountID blobID in
        match res with
        | Ok (Some blob) =>
            let mediaType := r_Query r "type" in
            let mediaType := if String.eqb mediaType EmptyString then r_Query r "accept" else mediaType in
            let mediaType := if String.eqb mediaType EmptyString then bl_Type blob else mediaType in
            let name := default EmptyString name in
            let disposition :=
              if negb (String.eqb name EmptyString)
              then "attachment; filename=" +:+ str_of [dquote] +:+ name +:+ str_of [dquote]
              else "attachment" in
            (w, BServe mediaType disposition (bl_Data blob))
        | _ => (w, BStatus 404)
        end
    end.

(** [maxSizeUpload] is the session's when it is positive.  [contentLength] is
    the header's value, -1 when it is absent; [body] is [None] when reading it
    fails; at most [maxSizeUpload+1] bytes of it are read. *)
Definition HandleUpload (w : W) (c : Ctx) (r : http_request) (maxSizeUpload contentLength : Z)
    (body : option string) (contentType : string) : W * blob_response :=
  if negb (String.eqb (r_Method r) "POST") then (w, BStatus 405)
  else
    let accountID := TrimSuffix (TrimPrefix (r_Path r) "/upload/") "/" in
    if String.eqb accountID EmptyString then (w, BStatus 400)
    else if maxSizeUpload <? contentLength then (w, BStatus 413)
    else
      match body with
      | None => (w, BStatus 500)
      | Some bytes =>
          let data := str_take (Z.to_nat (maxSizeUpload + 1)) bytes in
          if maxSizeUpload <? Z.of_nat (slen data) then (w, BStatus 413)
          else
            let '(w, res) := PutBlob w c accountID contentType data in
            match res with
            | Err _ => (w, BStatus 500)
            | Ok blob => (w, BCreated accountID (bl_ID blob) (bl_Type blob) (bl_Size blob))
            end
      end.

End Blobs.

(** ** The in-memory tokens *)

(** Times are nanoseconds since the zero [time.Time]. *)
Definition IsZero (t : Z) : bool := t =? 0.
Definition hour : Z := 3600 * 10 ^ 9.
Definition defaultTokenTTL : Z := 24 * hour.

Record tokenRecord : Type := mkTokenRecord {
  tr_subject : string;
  tr_accountID : string;
  tr_expiresAt : Z;
}.

(** [MemoryAuthBackend]; [mem_backends] says whether one of the five linked
    backends is set. *)
Record MemoryAuthBackend : Type := mkMemory {
  mem_tokens : gmap string tokenRecord;
  mem_revoked : gset string;
  mem_tokenTTL : Z;
  mem_seededAccounts : gset string;
  mem_disableSeeding : bool;
  mem_backends : bool;
}.

Definition NewMemoryAuthBackend : MemoryAuthBackend := mkMemory ∅ ∅ defaultTokenTTL ∅ false false.

Definition SetDisableSeeding (a : MemoryAuthBackend) (disable : bool) : MemoryAuthBackend :=
  mkMemory (mem_tokens a) (mem_revoked a) (mem_tokenTTL a) (mem_seededAccounts a) disable (mem_backends a).
Definition SetBackends (a : MemoryAuthBackend) (some : bool) : MemoryAuthBackend :=
  mkMemory (mem_tokens a) (mem_revoked a) (mem_tokenTTL a) (mem_seededAccounts a) (mem_disableSeeding a) some.
Definition SetTokenTTL (a : MemoryAuthBackend) (d : Z) : MemoryAuthBackend :=
  mkMemory (mem_tokens a) (mem_revoked a) d (mem_seededAccounts a) (mem_disableSeeding a) (mem_backends a).
Definition set_tokens (a : MemoryAuthBackend) (ts : gmap string tokenRecord) : MemoryAuthBackend :=
  mkMemory ts (mem_revoked a) (mem_tokenTTL a) (mem_seededAccounts a) (mem_disableSeeding a) (mem_backends a).

Definition RevokeToken (a : MemoryAuthBackend) (token : string) : MemoryAuthBackend :=
  mkMemory (delete token (mem_tokens a)) ({[token]} ∪ mem_revoked a) (mem_tokenTTL a)
    (mem_seededAccounts a) (mem_disableSeeding a) (mem_backends a).

(** Mark the account as seeded; the flag says whether
    [SeedAccountSampleData] is called. *)
Definition seed_once (a : MemoryAuthBackend) (username accountID : string) : MemoryAuthBackend * bool :=
  let alreadySeeded := bool_decide (accountID ∈ mem_seededAccounts a) in
  (mkMemory (mem_tokens a) (mem_revoked a) (mem_tokenTTL a) ({[accountID]} ∪ mem_seededAccounts a)
     (mem_disableSeeding a) (mem_backends a),
   negb (mem_disableSeeding a) && negb alreadySeeded && negb (HasPrefix username "user-") && mem_backends a).

(** [MemoryAuthBackend.ValidateCredentials], with the seeded account if any. *)
Definition mem_ValidateCredentials (a : MemoryAuthBackend) (username password : string)
  : MemoryAuthBackend * result string string * list string :=
  if String.eqb username EmptyString || negb (String.eqb username password)
  then (a, Err "invalid credentials", [])
  else
    let accountID := AccountIDForSubject username in
    let '(a, seed) := seed_once a username accountID in
    (a, Ok accountID, if seed : bool then [accountID] else []).

(** [hex.EncodeToString] of the random bytes; [None] is a failed read. *)
Definition hex_byte (c : ascii) : string :=
  let n := N_of_ascii c in str_of [hex_digit (n / 16); hex_digit (n mod 16)].
Fixpoint hex_encode (s : string) : string :=
  match s with EmptyString => EmptyString | String c s' => hex_byte c +:+ hex_encode s' end.
Definition generateToken (rnd : option string) : result string string :=
  match rnd with Some bytes => Ok (hex_encode bytes) | None => Err "token generation failed" end.

(** [MemoryAuthBackend.Authenticate] at the time [now]. *)
Definition mem_Authenticate (a : MemoryAuthBackend) (now : Z) (rnd : option string) (username password : string)
  : MemoryAuthBackend * result string string * list string :=
  let '(a, res, seeded) := mem_ValidateCredentials a username password in
  match res with
  | Err e => (a, Err e, seeded)
  | Ok accountID =>
      match generateToken rnd with
      | Err e => (a, Err e, seeded)
      | Ok token =>
          let expiresAt := now + mem_tokenTTL a in
          let a := mkMemory (<[token := mkTokenRecord username accountID expiresAt]> (mem_tokens a))
                     (mem_revoked a ∖ {[token]}) (mem_tokenTTL a) (mem_seededAccounts a)
                     (mem_disableSeeding a) (mem_backends a) in
          let '(a, seed) := seed_once a username accountID in
          (a, Ok token, seeded ++ (if seed : bool then [accountID] else []))
      end
  end.

(** [MemoryAuthBackend.ValidateToken] at the time [now]. *)
Definition mem_ValidateToken (a : MemoryAuthBackend) (now : Z) (token : string)
  : MemoryAuthBackend * result string (string * string) :=
  let bad := Err "invalid or expired token" in
  if String.eqb token EmptyString then (a, bad)
  else if bool_decide (token ∈ mem_revoked a) then (set_tokens a (delete token (mem_tokens a)), bad)
  else
    match mem_tokens a !! token with
    | Some rec =>
        if negb (IsZero (tr_expiresAt rec)) && (tr_expiresAt rec <? now)
        then (set_tokens a (delete token (mem_tokens a)), bad)
        else (a, Ok (tr_accountID rec, tr_subject rec))
    | None => (a, bad)
    end.

(** [MemoryAuthBackend.ExtractCredentials] *)
Definition mem_ExtractCredentials (a : MemoryAuthBackend) (now : Z) (token : string)
  : MemoryAuthBackend * option (string * string) :=
  let '(a, res) := mem_ValidateToken a now token in
  (a, match res with Ok (_, subj) => Some (subj, subj) | Err _ => None end).

(** The backend as the server uses it; the state pairs the store with the
    clock, the random source and the accounts seeded so far. *)
Record mem_world : Type := mkMemWorld {
  mw_store : MemoryAuthBackend;
  mw_now : Z;
  mw_rnd : option string;
  mw_seeded : list string;
}.
Definition memory_backend : AuthBackend mem_world :=
  mkAuthBackend
    (fun w u p => let '(a, res, s) := mem_Authenticate (mw_store w) (mw_now w) (mw_rnd w) u p in
                  (mkMemWorld a (mw_now w) (mw_rnd w) (mw_seeded w ++ s), res))
    (fun w u p => let '(a, res, s) := mem_ValidateCredentials (mw_store w) u p in
                  (mkMemWorld a (mw_now w) (mw_rnd w) (mw_seeded w ++ s), res))
    (fun w t => let '(a, res) := mem_ValidateToken (mw_store w) (mw_now w) t in
                (mkMemWorld a (mw_now w) (mw_rnd w) (mw_seeded w), res))
    (Some (fun w t => let '(a, res) := mem_ExtractCredentials (mw_store w) (mw_now w) t in
                      (mkMemWorld a (mw_now w) (mw_rnd w) (mw_seeded w), res))).

(** *** Histories of the token store *)

Inductive mem_op : Type :=
| OAuthenticate (now : Z) (rnd : option string) (username password : string)
| OValidateCredentials (username password : string)
| OValidateToken (now : Z) (token : string)
| ORevokeToken (token : string)
| OSetTokenTTL (d : Z)
| OSetDisableSeeding (disable : bool)
| OSetBackends (some : bool).

Definition mem_step (s : MemoryAuthBackend * list string) (op : mem_op) : MemoryAuthBackend * list string :=
  let '(a, log) := s in
  match op with
  | OAuthenticate now rnd u p => let '(a, _, l) := mem_Authenticate a now rnd u p in (a, log ++ l)
  | OValidateCredentials u p => let '(a, _, l) := mem_ValidateCredentials a u p in (a, log ++ l)
  | OValidateToken now t => (fst (mem_ValidateToken a now t), log)
  | ORevokeToken t => (RevokeToken a t, log)
  | OSetTokenTTL d => (SetTokenTTL a d, log)
  | OSetDisableSeeding d => (SetDisableSeeding a d, log)
  | OSetBackends f => (SetBackends a f, log)
  end.
Definition mem_run (ops : list mem_op) : MemoryAuthBackend * list string :=
  foldl mem_step (NewMemoryAuthBackend, []) ops.

(** The clock of the operations does not go back, and ends before [now]. *)
Definition op_time (op : mem_op) : option Z :=
  match op with OAuthenticate now _ _ _ | OValidateToken now _ => Some now | _ => None end.
Fixpoint clock_ok (t : Z) (ops : list mem_op) (now : Z) : bool :=
  match ops with
  | [] => t <=? now
  | op :: ops' =>
      match op_time op with
      | Some t' => (t <=? t') && clock_ok t' ops' now
      | None => clock_ok t ops' now
      end
  end.

(** The abstract store: the lifetime in force and, for each token not revoked
    since it was issued, its owner and its last instant. *)
Record token_book : Type := mkBook {
  tb_ttl : Z;
  tb_issued : gmap string (string * Z);
}.
Definition book_step (s : token_book) (op : mem_op) : token_book :=
  match op with
  | OAuthenticate now (Some bytes) u p =>
      if String.eqb u EmptyString || negb (String.eqb u p) then s
      else mkBook (tb_ttl s) (<[hex_encode bytes := (u, now + tb_ttl s)]> (tb_issued s))
  | ORevokeToken t => mkBook (tb_ttl s) (delete t (tb_issued s))
  | OSetTokenTTL d => mkBook d (tb_issued s)
  | _ => s
  end.
Definition book_run (ops : list mem_op) : token_book :=
  foldl book_step (mkBook (24 * 3600 * 10 ^ 9) ∅) ops.
(** The zero time never passes. *)
Definition passed (e now : Z) : bool := negb (e =? 0) && (e <? now).
Definition book_valid (s : token_book) (now : Z) (token : string) : option string :=
  if String.eqb token EmptyString then None
  else match tb_issued s !! token with
       | Some (u, e) => if passed e now then None else Some u
       | None => None
       end.

(** *** Lemmas: the store implements the book *)

Record book_rel (t : Z) (a : MemoryAuthBackend) (s : token_book) : Prop := {
  br_ttl : mem_tokenTTL a = tb_ttl s;
  br_live : forall token u e, tb_issued s !! token = Some (u, e) -> passed e t = false ->
    token ∉ mem_revoked a /\ mem_tokens a !! token = Some (mkTokenRecord u (AccountIDForSubject u) e);
  br_real : forall token rec, mem_tokens a !! token = Some rec -> token ∉ mem_revoked a ->
    tb_issued s !! token = Some (tr_subject rec, tr_expiresAt rec)
    /\ tr_accountID rec = AccountIDForSubject (tr_subject rec);
}.

Lemma passed_mono e t t' : t <= t' -> passed e t = true -> passed e t' = true.
Proof. unfold passed. intros Ht [-> H]%andb_prop. simpl. lia. Qed.

Lemma book_rel_later t t' a s : t <= t' -> book_rel t a s -> book_rel t' a s.
Proof.
  intros Ht [Hl Hv Hr]. split; [done| |done]. intros token u e Hu He. apply Hv; [done|].
  destruct (passed e t) eqn:E; [|done]. by rewrite (passed_mono e t t') in He.
Qed.

Lemma book_rel_seed t a s u acct : book_rel t a s -> book_rel t (fst (seed_once a u acct)) s.
Proof. by intros [Hl Hv Hr]; split. Qed.

Lemma valid_creds_store a u p :
  let '(a', res, _) := mem_ValidateCredentials a u p in
  (a' = a \/ exists acct, a' = fst (seed_once a u acct))
  /\ res = if String.eqb u EmptyString || negb (String.eqb u p) then Err "invalid credentials"
           else Ok (AccountIDForSubject u).
Proof.
  unfold mem_ValidateCredentials. destruct (_ || _); [by split; [left|]|]. simpl. split; [right; eauto|done].
Qed.

Lemma book_rel_issue t now a s token u :
  t <= now -> book_rel t a s ->
  book_rel now
    (mkMemory (<[token := mkTokenRecord u (AccountIDForSubject u) (now + mem_tokenTTL a)]> (mem_tokens a))
       (mem_revoked a ∖ {[token]}) (mem_tokenTTL a) (mem_seededAccounts a) (mem_disableSeeding a) (mem_backends a))
    (mkBook (tb_ttl s) (<[token := (u, now + tb_ttl s)]> (tb_issued s))).
Proof.
  intros Ht Hb%(book_rel_later t now); [|done]. destruct Hb as [Hl Hv Hr]. split; simpl; [done|..].
  - intros tok v e. rewrite lookup_insert. case_decide as E.
    + subst tok. intros [= <- <-] _. rewrite lookup_insert_eq, Hl. split; [set_solver|done].
    + intros He Hp. rewrite lookup_insert_ne by done. destruct (Hv tok v e He Hp). split; [set_solver|done].
  - intros tok rec. rewrite !lookup_insert. case_decide as E.
    + intros [= <-] _. simpl. by rewrite Hl.
    + intros Hrec Hn. apply Hr; [done|set_solver].
Qed.

Lemma book_rel_auth t now a s rnd u p :
  t <= now -> book_rel t a s ->
  book_rel now (fst (fst (mem_Authenticate a now rnd u p))) (book_step s (OAuthenticate now rnd u p)).
Proof.
  intros Ht Hb. unfold mem_Authenticate. pose proof (valid_creds_store a u p) as Hc.
  destruct (mem_ValidateCredentials a u p) as [[a' res] seeded]. destruct Hc as [Ha Hres].
  assert (Hb' : book_rel t a' s) by (destruct Ha as [->|[acct ->]]; [done|by apply book_rel_seed]).
  subst res. simpl. destruct (String.eqb u EmptyString || negb (String.eqb u p)) eqn:E; simpl.
  - apply (book_rel_later t); [done|]. by destruct rnd; rewrite ?E.
  - destruct rnd as [bytes|]; simpl; [|by apply (book_rel_later t)]. rewrite ?E.
    by destruct (book_rel_issue t now a' s (hex_encode bytes) u Ht Hb') as [? ? ?]; split.
Qed.

Lemma book_rel_drop t a s token :
  book_rel t a s -> (token ∈ mem_revoked a \/ exists rec, mem_tokens a !! token = Some rec /\ passed (tr_expiresAt rec) t = true) ->
  book_rel t (set_tokens a (delete token (mem_tokens a))) s.
Proof.
  intros [Hl Hv Hr] Hwhy. split; simpl; [done|..].
  - intros tok u e Hu He. destruct (Hv tok u e Hu He) as [Hn Ht]. split; [done|].
    rewrite lookup_delete_ne; [done|]. intros ->. destruct Hwhy as [?|(rec & Hrec & Hp)]; [done|].
    rewrite Hrec in Ht. simplify_eq/=. by rewrite He in Hp.
  - intros tok rec [Hne Hrec]%lookup_delete_Some. by apply Hr.
Qed.

Lemma book_rel_validate t a s token :
  book_rel t a s ->
  book_rel t (fst (mem_ValidateToken a t token)) s
  /\ snd (mem_ValidateToken a t token)
     = match book_valid s t token with
       | Some u => Ok (AccountIDForSubject u, u)
       | None => Err "invalid or expired token"
       end.
Proof.
  intros Hb. unfold mem_ValidateToken, book_valid. destruct (String.eqb token EmptyString); [done|].
  case_bool_decide as Hrv; simpl.
  { split; [apply book_rel_drop; [done|by left]|]. destruct (tb_issued s !! token) as [[u e]|] eqn:E; [|done].
    destruct (passed e t) eqn:Ep; [done|]. by destruct (br_live t a s Hb token u e E Ep). }
  destruct (mem_tokens a !! token) as [rec|] eqn:Et.
  - destruct (br_real t a s Hb token rec Et Hrv) as [-> Hacc].
    change (negb (IsZero (tr_expiresAt rec)) && (tr_expiresAt rec <? t)) with (passed (tr_expiresAt rec) t).
    destruct (passed _ t) eqn:Ep; simpl; [|by rewrite Hacc].
    split; [|done]. apply book_rel_drop; [done|right]. by exists rec.
  - split; [done|]. destruct (tb_issued s !! token) as [[u e]|] eqn:E; [|done].
    destruct (passed e t) eqn:Ep; [done|]. destruct (br_live t a s Hb token u e E Ep). by simplify_eq.
Qed.

Lemma book_rel_step t t' a s log op :
  t <= t' -> match op_time op with Some o => t' = o | None => t' = t end ->
  book_rel t a s -> book_rel t' (fst (mem_step (a, log) op)) (book_step s op).
Proof.
  intros Ht Ho Hb. destruct op as [now rnd u p|u p|now token|token|d|d|f]; simpl in Ho; subst; simpl;
    try (destruct Hb as [Hl Hv Hr]; split; simpl; done).
  - pose proof (book_rel_auth t now a s rnd u p Ht Hb) as H.
    by destruct (mem_Authenticate a now rnd u p) as [[a' res] l].
  - pose proof (valid_creds_store a u p) as H. destruct (mem_ValidateCredentials a u p) as [[a' res] l].
    destruct H as [[->|[acct ->]] _]; [done|by apply book_rel_seed].
  - apply book_rel_validate. by apply (book_rel_later t).
  - destruct Hb as [Hl Hv Hr]. split; simpl; [done|..].
    + intros tok u e [Hne Hu]%lookup_delete_Some He. rewrite lookup_delete_ne by done.
      destruct (Hv tok u e Hu He). split; [set_solver|done].
    + intros tok rec [Hne Hrec]%lookup_delete_Some Hn. rewrite lookup_delete_ne by done. apply Hr; [done|set_solver].
Qed.

Lemma book_rel_run ops t now a s log :
  clock_ok t ops now = true -> book_rel t a s ->
  book_rel now (fst (foldl mem_step (a, log) ops)) (foldl book_step s ops).
Proof.
  revert t a s log. induction ops as [|op ops IH]; intros t a s log Hc Hb;
    cbn [foldl clock_ok] in *.
  - apply (book_rel_later t); [lia|done].
  - destruct (mem_step (a, log) op) as [a' log'] eqn:E.
    assert (Hs : forall t', t <= t' -> match op_time op with Some o => t' = o | None => t' = t end ->
      book_rel t' a' (book_step s op)).
    { intros t' Ht Ho. pose proof (book_rel_step t t' a s log op Ht Ho Hb) as H. by rewrite E in H. }
    destruct (op_time op) as [o|]; [apply andb_prop in Hc as [Ho Hc]|]; eapply IH; (exact Hc || (apply Hs; [lia|done])).
Qed.

Lemma book_rel_new t : book_rel t NewMemoryAuthBackend (mkBook (24 * 3600 * 10 ^ 9) ∅).
Proof. by split. Qed.

(** An account is in the log of seedings only when it is marked as seeded. *)
Definition seed_inv (s : MemoryAuthBackend * list string) : Prop :=
  NoDup (snd s) /\ forall acct, acct ∈ snd s -> acct ∈ mem_seededAccounts (fst s).

Lemma seed_once_inv a log u acct :
  seed_inv (a, log) ->
  seed_inv (fst (seed_once a u acct), log ++ (if snd (seed_once a u acct) then [acct] else [])).
Proof.
  intros [Hn Hin]. unfold seed_once. simpl. case_bool_decide as E; simpl; rewrite ?andb_false_r; simpl.
  - rewrite app_nil_r. split; [done|]. simpl. set_solver.
  - split; simpl.
    + destruct (_ && _); [|by rewrite app_nil_r]. apply NoDup_app. split_and!; [done| |apply NoDup_singleton].
      intros x Hx ->%list_elem_of_singleton. by apply E, Hin.
    + intros x. destruct (_ && _); rewrite ?app_nil_r, ?elem_of_app; set_solver.
Qed.

Lemma seed_inv_step s op : seed_inv s -> seed_inv (mem_step s op).
Proof.
  destruct s as [a log]. intros Hi. destruct op as [now rnd u p|u p|now token|token|d|d|f]; simpl; try done.
  - unfold mem_Authenticate, mem_ValidateCredentials. destruct (_ || _); simpl; [by rewrite app_nil_r|].
    pose proof (seed_once_inv a log u (AccountIDForSubject u) Hi) as H1.
    destruct rnd as [bytes|]; simpl; [|exact H1].
    rewrite (bool_decide_true (_ ∈ _ ∪ _)) by set_solver. simpl. rewrite andb_false_r. simpl.
    rewrite app_nil_r. destruct H1 as [Hn Hin]. split; [exact Hn|]. intros x Hx.
    specialize (Hin x Hx). simpl in *. set_solver.
  - unfold mem_ValidateCredentials. destruct (_ || _); simpl; [by rewrite app_nil_r|].
    exact (seed_once_inv a log u (AccountIDForSubject u) Hi).
  - unfold mem_ValidateToken. repeat case_match; done.
Qed.

Lemma seed_inv_run ops s : seed_inv s -> seed_inv (foldl mem_step s ops).
Proof. revert s. induction ops as [|op ops IH]; intros s Hs; [done|]. simpl. by apply IH, seed_inv_step. Qed.

(** ** Properties of the token store *)

(** C18: the token store implements its book.  After any history of logins,
    revocations, checks and changes of the lifetime during which the clock does
    not go back, [ValidateToken] accepts a token exactly when it was issued,
    was not revoked since, and its last instant (the time of the login plus
    the lifetime then in force) has not passed; it then names the user who
    logged in.  The expired tokens it discards on the way make no difference. *)
Theorem token_store_refines_book ops t now token :
  clock_ok t ops now = true ->
  snd (mem_ValidateToken (fst (mem_run ops)) now token)
  = match book_valid (book_run ops) now token with
    | Some u => Ok (AccountIDForSubject u, u)
    | None => Err "invalid or expired token"
    end.
Proof.
  intros Hc. apply book_rel_validate. unfold mem_run, book_run.
  apply (book_rel_run ops t); [done|apply book_rel_new].
Qed.

Lemma token_store_refines_book_witness :
  let ops := [OAuthenticate 5 (Some "ab") "ann" "ann"; OValidateToken 7 "6162"; OSetTokenTTL 10] in
  clock_ok 0 ops 9 = true
  /\ snd (mem_ValidateToken (fst (mem_run ops)) 9 "6162")
     = match book_valid (book_run ops) 9 "6162" with
       | Some u => Ok (AccountIDForSubject u, u)
       | None => Err "invalid or expired token"
       end
  /\ book_valid (book_run ops) 9 "6162" = Some "ann".
Proof.
  split; [vm_compute; reflexivity|]. split; [|vm_compute; reflexivity].
  apply (token_store_refines_book _ 0 9 "6162"). vm_compute. reflexivity.
Defined.

(** the sample data of an account is created at most once, whatever logins
    and credential checks happen in between. *)
Theorem accounts_seeded_once ops : NoDup (snd (mem_run ops)).
Proof.
  unfold mem_run. apply seed_inv_run. split; [constructor|]. intros x Hx. by apply elem_of_nil in Hx.
Qed.

(** a lifetime that is not positive does not turn expiry off: the token of
    a login is refused as soon as the clock has moved (a negative lifetime: at
    once). *)
Theorem non_positive_ttl_expires a d now now' token u :
  d <= 0 -> now + d < now' -> now + d <> 0 -> token = hex_encode "x" -> u <> EmptyString ->
  snd (fst (mem_Authenticate (SetTokenTTL a d) now (Some "x") u u)) = Ok token
  /\ snd (mem_ValidateToken (fst (fst (mem_Authenticate (SetTokenTTL a d) now (Some "x") u u))) now' token)
     = Err "invalid or expired token".
Proof.
  intros Hd Hlt Hz -> Hu. unfold mem_Authenticate, mem_ValidateCredentials.
  rewrite String.eqb_refl, (proj2 (String.eqb_neq u EmptyString) Hu). simpl. split; [done|].
  unfold mem_ValidateToken. simpl. rewrite bool_decide_false by set_solver. rewrite lookup_insert_eq. simpl.
  unfold IsZero. by destruct (now + d =? 0) eqn:E1, (now + d <? now') eqn:E2; try lia.
Qed.

Lemma non_positive_ttl_expires_witness :
  snd (mem_ValidateToken (fst (fst (mem_Authenticate (SetTokenTTL NewMemoryAuthBackend 0) 100 (Some "x") "ann" "ann"))) 101 "78")
  = Err "invalid or expired token".
Proof. apply (non_positive_ttl_expires NewMemoryAuthBackend 0 100 101 "78" "ann"); [lia|lia|lia|reflexivity|discriminate]. Defined.

(** ** Lemmas: suffixes *)

Lemma HasSuffix_spec s p : HasSuffix s p = true <-> exists l, s = l +:+ p.
Proof.
  unfold HasSuffix. split.
  - intros [Hl Hs%String.eqb_eq]%andb_prop. exists (str_take (slen s - slen p) s).
    rewrite <- Hs at 2. by rewrite str_take_drop.
  - intros [l ->]. apply andb_true_intro. rewrite slen_app. split; [apply Nat.leb_le; lia|].
    replace (slen l + slen p - slen p)%nat with (slen l) by lia. rewrite str_drop_app. apply String.eqb_refl.
Qed.

(** Of two suffixes of a text the shorter is a suffix of the longer. *)
Lemma HasSuffix_both s p q :
  HasSuffix s p = true -> HasSuffix s q = true -> HasSuffix p q = true \/ HasSuffix q p = true.
Proof.
  intros [l ->]%HasSuffix_spec [m Hm]%HasSuffix_spec. revert m Hm.
  induction l as [|a l IH]; intros m Hm; simpl in Hm.
  - left. apply HasSuffix_spec. eauto.
  - destruct m as [|b m]; simpl in Hm.
    + right. apply HasSuffix_spec. exists (String a l). by rewrite <- Hm.
    + injection Hm as _ Hm. by apply (IH m).
Qed.

Ltac suffix_clash :=
  match goal with
  | H1 : HasSuffix ?s ?p = true, H2 : HasSuffix ?s ?q = true |- _ =>
      destruct (HasSuffix_both s p q H1 H2); discriminate
  end.

(** ** Lemmas: padded base64 *)

Lemma std_char_val x : B64.val true (B64.std_char (b64_char x)) = Some x.
Proof. by destruct x as [[] [] [] [] [] []]; vm_compute. Qed.

Lemma std_char_plain x :
  Ascii.eqb (B64.std_char (b64_char x)) "013" || Ascii.eqb (B64.std_char (b64_char x)) "010" = false
  /\ Ascii.eqb (B64.std_char (b64_char x)) "=" = false.
Proof. by destruct x as [[] [] [] [] [] []]; vm_compute. Qed.

(** The characters of [EncodeToString] before the padding. *)
Definition std_chars (l : list sextet) : string := str_of (map (fun x => B64.std_char (b64_char x)) l).

Fixpoint enc_sextets (s : string) : list sextet :=
  match s with
  | EmptyString => []
  | String a EmptyString => enc1 a
  | String a (String b EmptyString) => enc2 a b
  | String a (String b (String c s')) => enc3 a b c ++ enc_sextets s'
  end.

Lemma chars_of_app l m : chars_of (l ++ m) = chars_of l +:+ chars_of m.
Proof.
  unfold chars_of, str_of. rewrite map_app. generalize (map b64_char l) (map b64_char m). intros x y.
  induction x as [|a x IH]; [done|]. simpl. by rewrite IH.
Qed.

Lemma b64_encode_sextets s : b64_encode s = chars_of (enc_sextets s).
Proof.
  induction s as [|a|a b|a b c s IH] using str_ind3; [done..|].
  cbn [b64_encode enc_sextets]. by rewrite chars_of_app, IH.
Qed.

Lemma std_chars_map l : str_map B64.std_char (chars_of l) = std_chars l.
Proof. induction l as [|x l IH]; [done|]. unfold chars_of, std_chars, str_of in *. simpl. by rewrite IH. Qed.

Lemma strip_std_chars l t :
  B64.strip_newlines (std_chars l +:+ t) = std_chars l +:+ B64.strip_newlines t.
Proof.
  induction l as [|x l IH]; [done|].
  change (std_chars (x :: l)) with (String (B64.std_char (b64_char x)) (std_chars l)).
  cbn [String.append B64.strip_newlines]. by rewrite (proj1 (std_char_plain x)), IH.
Qed.

Lemma before_std_chars l t :
  B64.before_byte "=" (std_chars l +:+ t)
  = let '(a, b) := B64.before_byte "=" t in (std_chars l +:+ a, b).
Proof.
  induction l as [|x l IH]; [simpl; by destruct (B64.before_byte "=" t)|].
  change (std_chars (x :: l)) with (String (B64.std_char (b64_char x)) (std_chars l)).
  cbn [String.append B64.before_byte]. rewrite (proj2 (std_char_plain x)), IH.
  by destruct (B64.before_byte "=" t).
Qed.

Lemma sextets_std_chars l : B64.sextets true (std_chars l) = Some l.
Proof.
  induction l as [|x l IH]; [done|].
  change (std_chars (x :: l)) with (String (B64.std_char (b64_char x)) (std_chars l)).
  cbn [B64.sextets]. by rewrite std_char_val, IH.
Qed.

Lemma slen_std_chars l : slen (std_chars l) = length l.
Proof. induction l as [|x l IH]; [done|]. unfold slen in *. simpl. by rewrite <- IH. Qed.

Lemma enc_sextets_mod s : B64.padding (length (enc_sextets s)) <> None.
Proof.
  induction s as [|a|a b|a b c s IH] using str_ind3; [done|by destruct a|by destruct a, b|].
  cbn [enc_sextets]. rewrite length_app. unfold B64.padding in *.
  replace (length (enc3 a b c)) with (1 * 4)%nat by (by destruct a, b, c).
  rewrite Nat.add_comm, Nat.Div0.mod_add. done.
Qed.

Lemma padding_texts n pad :
  B64.padding n = Some pad -> B64.strip_newlines pad = pad /\ B64.before_byte "=" pad = (EmptyString, pad).
Proof. unfold B64.padding. by destruct (n mod 4)%nat as [|[|[|[|m]]]]; intros [= <-]. Qed.

Lemma enc_sextets_bytes s : str_of <$> b64_bytes (enc_sextets s) = Some s.
Proof.
  pose proof (b64_decode_encode s) as H. rewrite b64_encode_sextets in H.
  unfold b64_decode in H. by rewrite b64_sextets_chars_nil in H.
Qed.

(** Padded base64 gives every byte string back. *)
Lemma decode_encode_std s : B64.decode true true (B64.encode_std s) = Some s.
Proof.
  unfold B64.decode, B64.encode_std. rewrite b64_encode_sextets, std_chars_map, slen_std_chars.
  pose proof (enc_sextets_mod s) as Hm. destruct (B64.padding _) as [pad|] eqn:Ep; [|done]. simpl.
  destruct (padding_texts _ _ Ep) as [Hs Hb].
  rewrite strip_std_chars, Hs, before_std_chars, Hb. simpl. rewrite append_nil_r, sextets_std_chars.
  rewrite Ep, bool_decide_true by done. simpl. apply enc_sextets_bytes.
Qed.

Lemma Cut_colon (u p : string) (c : ascii) :
  str_forallb (fun b => negb (Ascii.eqb b c)) u = true -> Cut (u +:+ String c p) c = Some (u, p).
Proof.
  unfold Cut. induction u as [|a u IH]; simpl.
  - by rewrite Ascii.eqb_refl.
  - intros [Ha%negb_true_iff Hu]%andb_prop. rewrite Ha. specialize (IH Hu).
    destruct (B64.before_byte c (u +:+ String c p)) as [l [|d r]]; [done|]. by simplify_eq.
Qed.

(** ** Lemmas: the middleware *)

(** The requests that need no credentials: preflights, and the requests of the
    login, version, conversion and root pages and below /.well-known/, the
    session resource excepted. *)
Definition open_route (r : http_request) : Prop :=
  r_Method r = "OPTIONS" \/ r_Path r = "/" \/ r_Path r = "/version"
  \/ (exists a, r_Path r = a +:+ "/jmap/login") \/ (exists a, r_Path r = a +:+ "/convert")
  \/ (exists a, r_Path r = "/.well-known/" +:+ a) /\ ~ exists a, r_Path r = a +:+ "/.well-known/jmap".

(** A user name and a password in a text. *)
Definition names_pair (text u p : string) : Prop := text = u +:+ String ":" p /\ lacks ":" u = true.
(** The token of a request without such a header: the first of the parameters
    and cookies that is not empty. *)
Definition carries (r : http_request) (token : string) : Prop :=
  token <> EmptyString
  /\ exists before after,
       [r_Query r "access_token"; r_Query r "token"; r_Query r "auth"; default EmptyString (r_Cookie r "access_token");
        default EmptyString (r_Cookie r "jmap_token")] = before ++ token :: after
       /\ Forall (fun x => x = EmptyString) before.
(** The text of a token that holds a pair: itself, or what it encodes. *)
Definition pair_text (token text : string) : Prop :=
  text = token \/ exists std padded, B64.decode std padded (TrimPrefix (TrimSpace token) "Basic ") = Some text.

(** What makes the identity of a request, in the world it finds: the backend
    accepts the password the request gives for the user it names, or the token it
    gives; nothing else does. *)
Definition accepts_pair {W} (b : AuthBackend W) (w : W) (u p : string) (w' : W) (i : identity) : Prop :=
  exists account, ab_ValidateCredentials b w u p = (w', Ok account) /\ i = mkIdentity account u (u, p).
Definition accepts_token {W} (b : AuthBackend W) (w : W) (token : string) (w' : W) (i : identity) : Prop :=
  exists account subject w1, ab_ValidateToken b w token = (w1, Ok (account, subject))
    /\ match ab_ExtractCredentials b with
       | None => w' = w1 /\ i = mkIdentity account subject (EmptyString, EmptyString)
       | Some extract => exists found, extract w1 token = (w', found)
                         /\ i = mkIdentity account subject (default (EmptyString, EmptyString) found)
       end.
Inductive granted {W} (b : AuthBackend W) (w : W) (r : http_request) (w' : W) (i : identity) : Prop :=
| granted_basic payload text u p :
    r_Authorization r = "Basic " +:+ payload -> B64.decode true true payload = Some text -> names_pair text u p ->
    accepts_pair b w u p w' i -> granted b w r w' i
| granted_bearer token :
    r_Authorization r = "Bearer " +:+ token -> accepts_token b w token w' i -> granted b w r w' i
| granted_carried token :
    (forall x, r_Authorization r <> "Basic " +:+ x) -> (forall x, r_Authorization r <> "Bearer " +:+ x) -> carries r token ->
    accepts_token b w token w' i -> granted b w r w' i
| granted_carried_pair token w1 e text u p :
    (forall x, r_Authorization r <> "Basic " +:+ x) -> (forall x, r_Authorization r <> "Bearer " +:+ x) -> carries r token ->
    ab_ValidateToken b w token = (w1, Err e) -> pair_text token text -> names_pair text u p ->
    accepts_pair b w1 u p w' i -> granted b w r w' i.

Lemma is_public_open r : is_public r = true -> open_route r.
Proof.
  unfold is_public, open_route. rewrite !orb_true_iff, andb_true_iff, negb_true_iff, !String.eqb_eq, !HasSuffix_spec, HasPrefix_spec.
  assert (Hs : HasSuffix (r_Path r) "/.well-known/jmap" = false -> ~ exists a, r_Path r = a +:+ "/.well-known/jmap")
    by (intros Hf Hx; apply HasSuffix_spec in Hx; congruence). tauto.
Qed.
Lemma Cut_spec s c l r : Cut s c = Some (l, r) -> s = l +:+ String c r /\ lacks c l = true.
Proof.
  unfold Cut. revert l r. induction s as [|a s IH]; intros l r; cbn [B64.before_byte]; [done|].
  destruct (Ascii.eqb_spec a c) as [->|Hne]; [by intros [= <- <-]|].
  destruct (B64.before_byte c s) as [l' r'] eqn:E. destruct r' as [|d r']; [done|]. intros [= <- <-].
  destruct (IH l' r' eq_refl) as [-> Hl]. split; [done|]. cbn. rewrite (proj2 (Ascii.eqb_neq _ _) Hne). exact Hl.
Qed.
Lemma by_credentials_accepts {W} (b : AuthBackend W) w u p w' i : by_credentials b w u p = (w', Ok i) -> accepts_pair b w u p w' i.
Proof.
  unfold by_credentials, accepts_pair. destruct (ab_ValidateCredentials b w u p) as [w1 [acct|e]] eqn:E; [|done].
  intros [= <- <-]. eauto.
Qed.
Lemma by_token_accepts {W} (b : AuthBackend W) w t w' i : by_token b w t = (w', Ok i) -> accepts_token b w t w' i.
Proof.
  unfold by_token, accepts_token. destruct (ab_ValidateToken b w t) as [w1 [[acct subj]|e]] eqn:E; [|done].
  destruct (ab_ExtractCredentials b) as [f|] eqn:Ef.
  - destruct (f w1 t) as [w2 cr] eqn:Ec. intros [= <- <-]. exists acct, subj, w1. split; [done|]. by exists cr.
  - intros [= <- <-]. by exists acct, subj, w1.
Qed.
Lemma by_token_refuses {W} (b : AuthBackend W) w t w' e : by_token b w t = (w', Err e) -> ab_ValidateToken b w t = (w', Err e).
Proof.
  unfold by_token. destruct (ab_ValidateToken b w t) as [w1 [[acct subj]|e']] eqn:E; [|by intros [= <- <-]].
  destruct (ab_ExtractCredentials b); [|done]. by destruct (_ w1 t).
Qed.
Lemma query_token_carries r : query_token r <> EmptyString -> carries r (query_token r).
Proof.
  intros Hne. split; [done|]. unfold query_token in *.
  set (a := r_Query r "access_token") in *. set (b := r_Query r "token") in *. set (c := r_Query r "auth") in *.
  set (d := default EmptyString (r_Cookie r "access_token")) in *. set (e := default EmptyString (r_Cookie r "jmap_token")) in *.
  clearbody a b c d e. destruct (String.eqb_spec a EmptyString) as [->|Ha].
  2: { rewrite (proj2 (String.eqb_neq _ _) Ha), (proj2 (String.eqb_neq _ _) Ha). exists [], [b; c; d; e]. by split. }
  destruct (String.eqb_spec b EmptyString) as [->|Hb].
  2: { rewrite (proj2 (String.eqb_neq _ _) Hb). exists [EmptyString], [c; d; e]. split; [done|by repeat constructor]. }
  destruct (String.eqb_spec c EmptyString) as [->|Hc].
  2: { exists [EmptyString; EmptyString], [d; e]. split; [done|by repeat constructor]. }
  destruct (String.eqb_spec d EmptyString) as [->|Hd]; cbn [negb].
  - exists [EmptyString; EmptyString; EmptyString; EmptyString], []. split; [done|by repeat constructor].
  - exists [EmptyString; EmptyString; EmptyString], [e]. split; [done|by repeat constructor].
Qed.
Lemma BasicAuth_spec payload u p :
  BasicAuth ("Basic " +:+ payload) = Some (u, p) -> exists text, B64.decode true true payload = Some text /\ names_pair text u p.
Proof.
  unfold BasicAuth. destruct (_ || _); [done|]. rewrite str_drop_app. destruct (B64.decode true true payload) as [text|]; [|done].
  intros Hc. apply Cut_spec in Hc as [-> Hl]. by exists (u +:+ String ":" p).
Qed.
Lemma user_pass_text token u p : Cut (user_pass token) ":" = Some (u, p) -> exists text, pair_text token text /\ names_pair text u p.
Proof.
  intros Hc. exists (user_pass token). apply Cut_spec in Hc as Hn. split; [|exact Hn]. revert Hc. unfold user_pass, pair_text, decodeBase64OrRaw.
  repeat match goal with |- context [match B64.decode ?x ?y ?z with _ => _ end] => destruct (B64.decode x y z) eqn:? end;
    repeat match goal with |- context [Contains ?x ":"] => destruct (Contains x ":") end; try discriminate; eauto.
Qed.
Lemma authenticate_granted {W} (b : AuthBackend W) w r w' i : authenticate b w r = (w', Ok i) -> granted b w r w' i.
Proof.
  unfold authenticate. destruct (HasPrefix (r_Authorization r) "Basic ") eqn:Eb.
  { apply HasPrefix_spec in Eb as [payload E]. rewrite E. destruct (BasicAuth ("Basic " +:+ payload)) as [[u p]|] eqn:Ea; [|done].
    apply BasicAuth_spec in Ea as (text & Hd & Hn). intros Hc. eapply granted_basic; [exact E|exact Hd|exact Hn|by apply by_credentials_accepts]. }
  destruct (HasPrefix (r_Authorization r) "Bearer ") eqn:Er.
  { apply HasPrefix_spec in Er as [token E]. rewrite E, TrimPrefix_app. intros Ht. eapply granted_bearer; [exact E|by apply by_token_accepts]. }
  assert (Hb : forall x, r_Authorization r <> "Basic " +:+ x) by (intros x E; rewrite E, HasPrefix_app in Eb; discriminate Eb).
  assert (Hr : forall x, r_Authorization r <> "Bearer " +:+ x) by (intros x E; rewrite E, HasPrefix_app in Er; discriminate Er).
  destruct (String.eqb_spec (query_token r) EmptyString) as [|Hq]; cbn [negb]; [by destruct (negb _)|].
  apply query_token_carries in Hq. unfold by_query. destruct (by_token b w (query_token r)) as [w1 [j|e]] eqn:Et.
  { intros [= <- <-]. eapply granted_carried; [exact Hb|exact Hr|exact Hq|by apply by_token_accepts]. }
  destruct (Cut _ ":") as [[u p]|] eqn:Ec; [|done]. apply user_pass_text in Ec as (text & Hp & Hn). apply by_token_refuses in Et. intros Hc.
  eapply granted_carried_pair; [exact Hb|exact Hr|exact Hq|exact Et|exact Hp|exact Hn|by apply by_credentials_accepts].
Qed.

Lemma identity_context_fields c i :
  identity_context c i
  = mkCtx (Some (id_account i)) (if decide (id_subject i = EmptyString) then ctx_Subject c else Some (id_subject i))
      (if decide (fst (id_credentials i) = EmptyString) then ctx_Credentials c else Some (id_credentials i))
      (ctx_PrincipalAccountID c) (ctx_Using c) (ctx_Limits c) (ctx_CreationRefs c) (ctx_ResponseSpill c) (ctx_Calendars c).
Proof. unfold identity_context. destruct i as [acct subj [u p]], c. by destruct subj, u. Qed.

Lemma BasicAuth_encoded u p :
  str_forallb (fun b => negb (Ascii.eqb b ":")) u = true ->
  BasicAuth ("Basic " +:+ B64.encode_std (u +:+ String ":" p)) = Some (u, p).
Proof.
  intros Hu. unfold BasicAuth. rewrite slen_app. change (slen "Basic ") with 6%nat.
  rewrite (proj2 (Nat.ltb_ge _ _)) by lia.
  change 6%nat with (slen "Basic "). rewrite str_take_app, str_drop_app, decode_encode_std.
  simpl. by apply Cut_colon.
Qed.

(** ** Properties of the middleware *)

(** C19: a request that is not one of the public ones is served only when the
    backend accepts, in the world as it is, what this request presents: the
    password of its Basic header for the user named there, the token of its
    Bearer header, or, without such a header, the token among its parameters and
    cookies, or else the pair that token holds.  The handler then sees the
    account and subject the backend named, and these credentials, and nothing
    else of its context is changed. *)
Theorem middleware_authenticates {W} (b : AuthBackend W) w c r w' c' :
  ~ open_route r -> authMiddleware b w c r = (w', Some c') ->
  exists i, granted b w r w' i
    /\ c' = mkCtx (Some (id_account i)) (if decide (id_subject i = EmptyString) then ctx_Subject c else Some (id_subject i))
              (if decide (fst (id_credentials i) = EmptyString) then ctx_Credentials c else Some (id_credentials i))
              (ctx_PrincipalAccountID c) (ctx_Using c) (ctx_Limits c) (ctx_CreationRefs c) (ctx_ResponseSpill c) (ctx_Calendars c).
Proof.
  intros Hp. unfold authMiddleware. destruct (is_public r) eqn:Er; [by apply is_public_open in Er|].
  destruct (authenticate b w r) as [w1 [i|e]] eqn:E; [|done].
  intros [= <- <-]. exists i. split; [by apply authenticate_granted|]. apply identity_context_fields.
Qed.

Definition request (method path auth : string) : http_request :=
  mkRequest method path auth (fun _ => EmptyString) (fun _ => None).

Lemma request_closed auth : ~ open_route (request "POST" "/jmap" auth).
Proof.
  unfold open_route. cbn [request r_Method r_Path]. intros [?|[?|[?|[[a Ha]|[[a Ha]|[[a Ha] _]]]]]]; try discriminate;
    assert (Hl := f_equal slen Ha); rewrite slen_app in Hl; cbn in Hl; lia.
Qed.
Lemma middleware_authenticates_witness :
  exists i, granted DefaultAuthBackend tt (request "POST" "/jmap" "Basic YW5uOmFubg==") tt i /\ id_account i = "YW5u".
Proof.
  destruct (middleware_authenticates DefaultAuthBackend tt Background (request "POST" "/jmap" "Basic YW5uOmFubg==") tt
    (ContextWithCredentials (ContextWithSubject (ContextWithAccountID Background "YW5u") "ann") "ann" "ann"))
    as (i & Hg & Hc); [apply request_closed|vm_compute; reflexivity|].
  exists i. split; [exact Hg|]. apply (f_equal ctx_AccountID) in Hc. cbn in Hc. congruence.
Defined.

(** HTTP Basic works for every password and every user name without a
    colon: the request is served with exactly those credentials when the
    backend accepts them, and refused when it does not. *)
Theorem basic_credentials_reach_backend {W} (b : AuthBackend W) w c r u p :
  is_public r = false -> str_forallb (fun a => negb (Ascii.eqb a ":")) u = true ->
  r_Authorization r = "Basic " +:+ B64.encode_std (u +:+ String ":" p) ->
  authMiddleware b w c r
  = let '(w', res) := ab_ValidateCredentials b w u p in
    (w', match res with Ok acct => Some (identity_context c (mkIdentity acct u (u, p))) | Err _ => None end).
Proof.
  intros Hp Hu Hr. unfold authMiddleware. rewrite Hp. unfold authenticate.
  rewrite Hr, HasPrefix_app, BasicAuth_encoded by done. unfold by_credentials.
  by destruct (ab_ValidateCredentials b w u p) as [w' [acct|e]].
Qed.

Lemma basic_credentials_reach_backend_witness :
  snd (authMiddleware DefaultAuthBackend tt Background (request "POST" "/jmap" ("Basic " +:+ B64.encode_std "ann:ann")))
  = Some (identity_context Background (mkIdentity "YW5u" "ann" ("ann", "ann"))).
Proof.
  rewrite (basic_credentials_reach_backend DefaultAuthBackend tt Background _ "ann" "ann");
    vm_compute; reflexivity.
Defined.

(** which requests get past the middleware without credentials.  Besides
    the login, version, conversion and unknown routes these are the requests
    under [/.well-known/] and the uploads, downloads and event streams whose
    path ends in [/convert]; the API, the session and the WebSocket are never
    served without credentials under any other path. *)
Theorem unauthenticated_routes r :
  is_public r = true -> r_Method r <> "OPTIONS" ->
  HasPrefix (r_Path r) "/.well-known/" = true
  \/ handleFlexRoute r ∈ [RLogin; RVersion; RConvert; RNotFound]
  \/ (HasSuffix (r_Path r) "/convert" = true /\ handleFlexRoute r ∈ [RUpload; RDownload; REventSource]).
Proof.
  intros Hp Hm. destruct (HasPrefix (r_Path r) "/.well-known/") eqn:Ew; [by left|right].
  unfold is_public in Hp. rewrite Ew, (proj2 (String.eqb_neq _ _) Hm) in Hp. simpl in Hp. rewrite orb_false_r in Hp.
  unfold handleFlexRoute.
  repeat (apply orb_prop in Hp as [Hp|Hp]); [| | |];
    try (apply String.eqb_eq in Hp; rewrite Hp; left; vm_compute; set_solver).
  - destruct (HasSuffix _ "/.well-known/jmap") eqn:E1; [suffix_clash|].
    destruct (HasSuffix _ "/jmap/session") eqn:E2; [suffix_clash|].
    destruct (HasSuffix _ "/jmap/ws") eqn:E3; [suffix_clash|].
    destruct (HasSuffix _ "/websocket") eqn:E4; [suffix_clash|]. simpl. rewrite Hp. left. set_solver.
  - destruct (HasSuffix _ "/.well-known/jmap") eqn:E1; [suffix_clash|].
    destruct (HasSuffix _ "/jmap/session") eqn:E2; [suffix_clash|].
    destruct (HasSuffix _ "/jmap/ws") eqn:E3; [suffix_clash|].
    destruct (HasSuffix _ "/websocket") eqn:E4; [suffix_clash|].
    destruct (HasSuffix _ "/jmap/login") eqn:E5; [suffix_clash|].
    destruct (HasSuffix _ "/jmap") eqn:E6; [suffix_clash|]. simpl.
    destruct (Contains _ "/upload/"); [right; split; [done|set_solver]|].
    destruct (Contains _ "/download/"); [right; split; [done|set_solver]|].
    destruct (HasSuffix _ "/eventsource") eqn:E7; [suffix_clash|]. simpl.
    destruct (Contains _ "/eventsource"); [right; split; [done|set_solver]|].
    destruct (HasSuffix _ "/version") eqn:E8; [suffix_clash|]. rewrite Hp. left. set_solver.
Qed.

Lemma unauthenticated_routes_witness :
  let r := request "GET" "/download/YW5u/b1/convert" EmptyString in
  is_public r = true /\ HasPrefix (r_Path r) "/.well-known/" = false
  /\ (handleFlexRoute r ∈ [RLogin; RVersion; RConvert; RNotFound]
      \/ (HasSuffix (r_Path r) "/convert" = true /\ handleFlexRoute r ∈ [RUpload; RDownload; REventSource])).
Proof.
  split; [vm_compute; reflexivity|]. split; [vm_compute; reflexivity|].
  destruct (unauthenticated_routes (request "GET" "/download/YW5u/b1/convert" EmptyString)) as [H|H];
    [vm_compute; reflexivity|discriminate|discriminate H|exact H].
Defined.

(** an event stream and a download need no credentials.  A GET of
    [/.well-known/eventsource] without any is served by the event source with
    an empty account, for which its filter lets the changes of every account
    through; and a GET of a download path that ends in [/convert] serves the
    blob of the account the path names. *)
Theorem credentials_can_be_bypassed {W} (b : AuthBackend W) w GetBlob acct changes :
  changes <> ∅ ->
  (let r := request "GET" "/.well-known/eventsource" EmptyString in
   authMiddleware b w Background r = (w, Some Background)
   /\ handleFlexRoute r = REventSource
   /\ sse_filter (fst (AccountIDFromContext Background)) (fst (SubjectFromContext Background)) None
        (mkStateChange "StateChange" {[acct := changes]})
      = Some (mkStateChange "StateChange" {[acct := changes]}))
  /\ (let r := request "GET" "/download/YW5u/b1/convert" EmptyString in
      authMiddleware b w Background r = (w, Some Background)
      /\ handleFlexRoute r = RDownload
      /\ forall w' blob, GetBlob w Background "YW5u" "b1" = (w', Ok (Some blob)) ->
           exists ty disp, HandleDownload GetBlob w Background r = (w', BServe ty disp (bl_Data blob))).
Proof.
  intros Hne. split.
  - split; [reflexivity|]. split; [reflexivity|]. unfold sse_filter. simpl sc_Changed.
    rewrite map_to_list_singleton. simpl. rewrite map_filter_id by done.
    destruct (base.size changes) as [|n] eqn:Es; [by apply map_size_empty_inv in Es|]. simpl.
    rewrite lookup_empty. simpl. rewrite (right_id_L ∅ (∪)). rewrite insert_empty, map_size_singleton. done.
  - split; [reflexivity|]. split; [reflexivity|]. intros w' blob Hg. unfold HandleDownload. simpl.
    rewrite Hg. eauto.
Qed.

Lemma credentials_can_be_bypassed_witness :
  sse_filter EmptyString EmptyString None (mkStateChange "StateChange" {["bob" := {["Email" := "s2"]}]})
  = Some (mkStateChange "StateChange" {["bob" := {["Email" := "s2"]}]}).
Proof.
  apply (credentials_can_be_bypassed DefaultAuthBackend tt
    (fun w _ _ _ => (w, Ok (Some (mkBlob "b1" "text/plain" 1 "x")))) "bob" {["Email" := "s2"]}).
  discriminate.
Defined.
