(* ===== verification/ExtStore.v ===== *)
(** * The extension store and its caches

    [jmap/jmapextstore/store.go]: what JMAP keeps per account that the mail
    server has no place for, as JSON documents under a key.
    [jmap/imapsmtp/backend.go], [push_subscription.go] and [vacation.go]: the
    caches in front of it, which are written through and reread after five
    minutes, with the push subscriptions and the vacation response on top.

    The store is an interface; a document is encoded with [encoding/json],
    which is a codec here.  Times are nanoseconds, as in [HttpFront]. *)

From stdpp Require Import pretty.
From S2P Require Import Prelude GoStrings GoState Json Envelope Query Handler.
From Stdlib Require Import Ascii.

(** ** The store *)

Record Store (W : Type) : Type := mkStore {
  st_Get : string -> string -> St W (result string string);
  st_Put : string -> string -> string -> St W (option string);
  st_Delete : string -> string -> St W (option string);
}.
Arguments st_Get {W} _ _ _ _.
Arguments st_Put {W} _ _ _ _ _.
Arguments st_Delete {W} _ _ _ _.

(** [json.Marshal] and [json.Unmarshal] at one type. *)
Record Codec (A : Type) : Type := mkCodec {
  enc : A -> option string;
  dec : string -> option A;
}.
Arguments enc {A} _ _.
Arguments dec {A} _ _.

Section Store.
Context {W A : Type}.

(** [Load]: [Ok None] is not found. *)
Definition Load (s : option (Store W)) (c : Codec A) (accountID key : string) : St W (result string (option A)) :=
  match s with
  | None => mret (Ok None)
  | Some s =>
      res ← st_Get s accountID key;
      mret match res with
           | Err e => Err e
           | Ok data =>
               if String.eqb data EmptyString then Ok None
               else match dec c data with
                    | Some v => Ok (Some v)
                    | None => Err ("failed to unmarshal jmapextstore " +:+ key)
                    end
           end
  end.

Definition Save (s : option (Store W)) (c : Codec A) (accountID key : string) (val : A) : St W (option string) :=
  match s with
  | None => mret None
  | Some s =>
      match enc c val with
      | None => mret (Some ("failed to marshal jmapextstore " +:+ key))
      | Some data => st_Put s accountID key data
      end
  end.

Definition Store_Delete (s : option (Store W)) (accountID key : string) : St W (option string) :=
  match s with None => mret None | Some s => st_Delete s accountID key end.

End Store.

Arguments Load : simpl never.
Arguments Save : simpl never.

(** ** Caches *)

Definition minute : Z := 60 * 10 ^ 9.
Definition defaultExtensionCacheTTL : Z := 5 * minute.

(** The cached documents per account, and until when each is used. *)
Record cache (A : Type) : Type := mkCache {
  ca_vals : gmap string A;
  ca_time : gmap string Z;
}.
Arguments mkCache {A} _ _.
Arguments ca_vals {A} _.
Arguments ca_time {A} _.

(** [time.Now().Before(m[accountID])]; a missing entry is the zero time. *)
Definition fresh (t : gmap string Z) (accountID : string) (now : Z) : bool :=
  now <? default 0 (t !! accountID).

Section Cache.
Context {W A : Type} (s : option (Store W)) (codec : Codec A).

(** The common shape of the [load...Locked] functions; [dflt] is what is
    cached when there is no document, [None] for the vacation response, which
    keeps what it has. *)
Definition load_locked (key : string) (dflt : option A) (accountID : string) (now : Z)
  : St (W * cache A) unit :=
  fun '(w, c) =>
    if bool_decide (is_Some (ca_vals c !! accountID)) && fresh (ca_time c) accountID now then ((w, c), tt)
    else
      let '(w, res) := Load s codec accountID key w in
      let time := <[accountID := now + defaultExtensionCacheTTL]> (ca_time c) in
      match res with
      | Ok (Some v) => ((w, mkCache (<[accountID := v]> (ca_vals c)) time), tt)
      | _ => ((w, mkCache (match dflt with Some d => <[accountID := d]> (ca_vals c) | None => ca_vals c end) time), tt)
      end.

(** The [persist...Locked] functions; the error of the store is ignored. *)
Definition persist_locked (key : string) (accountID : string) : St (W * cache A) unit :=
  fun '(w, c) =>
    match ca_vals c !! accountID with
    | None => ((w, c), tt)
    | Some v => let '(w, _) := Save s codec accountID key v w in ((w, c), tt)
    end.

End Cache.

(** *** Parents and sort orders of mailboxes *)

(** The two caches have their own values and one expiry time. *)
Record mailbox_overrides : Type := mkOverrides {
  mo_parents : gmap string (gmap string (option string));
  mo_orders : gmap string (gmap string Z);
  mo_time : gmap string Z;
}.

Section Overrides.
Context {W : Type} (s : option (Store W)).
Context (parents_codec : Codec (gmap string (option string))) (orders_codec : Codec (gmap string Z)).

Definition on_parents {B} (m : St (W * cache (gmap string (option string))) B) : St (W * mailbox_overrides) B :=
  fun '(w, o) =>
    let '((w, c), x) := m (w, mkCache (mo_parents o) (mo_time o)) in
    ((w, mkOverrides (ca_vals c) (mo_orders o) (ca_time c)), x).
Definition on_orders {B} (m : St (W * cache (gmap string Z)) B) : St (W * mailbox_overrides) B :=
  fun '(w, o) =>
    let '((w, c), x) := m (w, mkCache (mo_orders o) (mo_time o)) in
    ((w, mkOverrides (mo_parents o) (ca_vals c) (ca_time c)), x).

Definition loadMailboxParentOverridesLocked (accountID : string) (now : Z) : St (W * mailbox_overrides) unit :=
  on_parents (load_locked s parents_codec "mailbox_parent_overrides" (Some ∅) accountID now).
Definition loadMailboxSortOrdersLocked (accountID : string) (now : Z) : St (W * mailbox_overrides) unit :=
  on_orders (load_locked s orders_codec "mailbox_sort_orders" (Some ∅) accountID now).

(** A lookup in the map of an account that may be missing. *)
Definition at_account {V} (m : gmap string (gmap string V)) (accountID id : string) : option V :=
  default ∅ (m !! accountID) !! id.
Definition put_at {V} (m : gmap string (gmap string V)) (accountID id : string) (v : V) : gmap string (gmap string V) :=
  <[accountID := <[id := v]> (default ∅ (m !! accountID))]> m.

Definition cache_put {V} (accountID id : string) (v : V) (c : cache (gmap string V)) : cache (gmap string V) :=
  mkCache (put_at (ca_vals c) accountID id v) (ca_time c).

Definition setMailboxParentOverride (accountID : string) (now : Z) (id : string) (parentID : option string)
  : St (W * mailbox_overrides) unit :=
  _ ← loadMailboxParentOverridesLocked accountID now;
  on_parents (
    _ ← modify (prod_map (fun w => w) (cache_put accountID id parentID));
    persist_locked s parents_codec "mailbox_parent_overrides" accountID).
Definition getMailboxParentOverride (accountID : string) (now : Z) (id : string)
  : St (W * mailbox_overrides) (option (option string)) :=
  _ ← loadMailboxParentOverridesLocked accountID now;
  gets (fun wo => at_account (mo_parents (snd wo)) accountID id).

Definition setMailboxSortOrder (accountID : string) (now : Z) (id : string) (sortOrder : Z)
  : St (W * mailbox_overrides) unit :=
  _ ← loadMailboxSortOrdersLocked accountID now;
  on_orders (
    _ ← modify (prod_map (fun w => w) (cache_put accountID id sortOrder));
    persist_locked s orders_codec "mailbox_sort_orders" accountID).
Definition getMailboxSortOrder (accountID : string) (now : Z) (id : string)
  : St (W * mailbox_overrides) (option Z) :=
  _ ← loadMailboxSortOrdersLocked accountID now;
  gets (fun wo => at_account (mo_orders (snd wo)) accountID id).

End Overrides.

(** *** Push subscriptions *)

Record PushSubscription : Type := mkPushSub {
  ps_ID : string;
  ps_DeviceClientID : string;
  ps_URL : string;
  ps_Keys : option (string * string);
  ps_VerificationCode : option string;
  ps_Expires : option string;
  ps_Types : option (list string);
}.

Abbreviation push_map := (gmap string PushSubscription).

Definition maxPushSubscriptionsPerAccount : nat := 50.

Section Push.
Context {W : Type} (s : option (Store W)) (push_codec : Codec push_map).

Definition loadPushSubscriptionsLocked (accountID : string) (now : Z) : St (W * cache push_map) unit :=
  load_locked s push_codec "push_subscriptions" (Some ∅) accountID now.
Definition persistPushSubscriptionsLocked (accountID : string) : St (W * cache push_map) unit :=
  persist_locked s push_codec "push_subscriptions" accountID.

(** [b.pushSubscriptions[accountID]] *)
Definition push_subs (c : cache push_map) (accountID : string) : push_map := default ∅ (ca_vals c !! accountID).
Definition set_push_subs (accountID : string) (m : push_map) (c : cache push_map) : cache push_map :=
  mkCache (<[accountID := m]> (ca_vals c)) (ca_time c).

Definition GetPushSubscriptions (accountID : string) (now : Z) (ids : list string)
  : St (W * cache push_map) (list PushSubscription * list string) :=
  _ ← loadPushSubscriptionsLocked accountID now;
  gets (fun wc =>
    let m := push_subs (snd wc) accountID in
    (omap (fun id => m !! id) ids, List.filter (fun id => bool_decide (m !! id = None)) ids)).

Definition GetAllPushSubscriptions (accountID : string) (now : Z) : St (W * cache push_map) (list PushSubscription) :=
  _ ← loadPushSubscriptionsLocked accountID now;
  gets (fun wc => map snd (map_to_list (push_subs (snd wc) accountID))).

(** [vCode] is the hexadecimal form of the 32 random bytes. *)
Definition CreatePushSubscription (accountID : string) (now : Z) (vCode : string) (sub : PushSubscription)
  : St (W * cache push_map) (result string PushSubscription) :=
  let id := if String.eqb (ps_ID sub) EmptyString then "push-" +:+ fmt_d now else ps_ID sub in
  let sub := mkPushSub id (ps_DeviceClientID sub) (ps_URL sub) (ps_Keys sub) (Some vCode) (ps_Expires sub) (ps_Types sub) in
  _ ← loadPushSubscriptionsLocked accountID now;
  m ← gets (fun wc => push_subs (snd wc) accountID);
  if (maxPushSubscriptionsPerAccount <=? base.size m)%nat
  then mret (Err "maximum limit of push subscriptions reached for account")
  else
    _ ← modify (prod_map (fun w => w) (set_push_subs accountID (<[id := sub]> m)));
    _ ← persistPushSubscriptionsLocked accountID;
    mret (Ok sub).

(** The patch of an update; [None] is a wrong verification code. *)
Definition patch_push (patch : obj) (sub : PushSubscription) : option PushSubscription :=
  match get_str patch "verificationCode" with
  | Some vCode =>
      match ps_VerificationCode sub with
      | Some code => if String.eqb code vCode then Some (mkPushSub (ps_ID sub) (ps_DeviceClientID sub) (ps_URL sub)
                          (ps_Keys sub) None (ps_Expires sub) (ps_Types sub)) else None
      | None => None
      end
  | None => Some sub
  end.
Definition patch_push_rest (patch : obj) (sub : PushSubscription) : PushSubscription :=
  mkPushSub (ps_ID sub) (ps_DeviceClientID sub) (ps_URL sub) (ps_Keys sub) (ps_VerificationCode sub)
    (match get_str patch "expires" with Some e => Some e | None => ps_Expires sub end)
    (match get_arr patch "types" with
     | Some types => match strings_of types with [] => None | ts => Some ts end
     | None => ps_Types sub
     end).

Inductive push_error : Type := PushBadCode | PushNotFound.

Definition UpdatePushSubscription (accountID : string) (now : Z) (id : string) (patch : obj)
  : St (W * cache push_map) (result push_error PushSubscription) :=
  _ ← loadPushSubscriptionsLocked accountID now;
  m ← gets (fun wc => push_subs (snd wc) accountID);
  match m !! id with
  | None => mret (Err PushNotFound)
  | Some sub =>
      match patch_push patch sub with
      | None => mret (Err PushBadCode)
      | Some sub =>
          let sub := patch_push_rest patch sub in
          _ ← modify (prod_map (fun w => w) (set_push_subs accountID (<[id := sub]> m)));
          _ ← persistPushSubscriptionsLocked accountID;
          mret (Ok sub)
      end
  end.

Definition DeletePushSubscription (accountID : string) (now : Z) (id : string) : St (W * cache push_map) bool :=
  _ ← loadPushSubscriptionsLocked accountID now;
  m ← gets (fun wc => push_subs (snd wc) accountID);
  match m !! id with
  | None => mret false
  | Some _ =>
      _ ← modify (prod_map (fun w => w) (set_push_subs accountID (delete id m)));
      _ ← persistPushSubscriptionsLocked accountID;
      mret true
  end.

End Push.

(** *** The vacation response *)

Record VacationResponse : Type := mkVacation {
  vr_ID : string;
  vr_IsEnabled : bool;
  vr_FromDate : option string;
  vr_ToDate : option string;
  vr_Subject : option string;
  vr_TextBody : option string;
  vr_HTMLBody : option string;
}.
Definition default_vacation : VacationResponse := mkVacation "singleton" false None None None None None.

(** A nullable string of a patch: null clears it, a value of another type is
    ignored. *)
Definition patch_nullable (v : json) (old : option string) : option string :=
  match v with JNull => None | JStr s => Some s | _ => old end.

Definition patch_vacation_member (vr : VacationResponse) (kv : string * json) : VacationResponse :=
  let '(k, v) := kv in
  let '(mkVacation i e f t s x h) := vr in
  if String.eqb k "isEnabled" then mkVacation i (match v with JBool b => b | _ => e end) f t s x h
  else if String.eqb k "fromDate" then mkVacation i e (patch_nullable v f) t s x h
  else if String.eqb k "toDate" then mkVacation i e f (patch_nullable v t) s x h
  else if String.eqb k "subject" then mkVacation i e f t (patch_nullable v s) x h
  else if String.eqb k "textBody" then mkVacation i e f t s (patch_nullable v x) h
  else if String.eqb k "htmlBody" then mkVacation i e f t s x (patch_nullable v h)
  else vr.

Section Vacation.
Context {W : Type} (s : option (Store W)) (vacation_codec : Codec VacationResponse).

Definition loadVacationLocked (accountID : string) (now : Z) : St (W * cache VacationResponse) unit :=
  load_locked s vacation_codec "vacation" None accountID now.
Definition persistVacationLocked (accountID : string) : St (W * cache VacationResponse) unit :=
  persist_locked s vacation_codec "vacation" accountID.

Definition set_vacation (accountID : string) (vr : VacationResponse) (c : cache VacationResponse) : cache VacationResponse :=
  mkCache (<[accountID := vr]> (ca_vals c)) (ca_time c).

Definition GetVacationResponse (accountID : string) (now : Z) : St (W * cache VacationResponse) VacationResponse :=
  _ ← loadVacationLocked accountID now;
  vr ← gets (fun wc => ca_vals (snd wc) !! accountID);
  match vr with
  | Some vr => mret vr
  | None =>
      _ ← modify (prod_map (fun w => w) (set_vacation accountID default_vacation));
      _ ← persistVacationLocked accountID;
      mret default_vacation
  end.

(** The counter [vacationState] and the publication that follow do not affect
    the response. *)
Definition UpdateVacationResponse (accountID : string) (now : Z) (patch : obj)
  : St (W * cache VacationResponse) VacationResponse :=
  _ ← loadVacationLocked accountID now;
  vr ← gets (fun wc => ca_vals (snd wc) !! accountID);
  let vr := foldl patch_vacation_member (default default_vacation vr) patch in
  _ ← modify (prod_map (fun w => w) (set_vacation accountID vr));
  _ ← persistVacationLocked accountID;
  mret vr.

End Vacation.

(** ** A store that works *)

Section Reliable.
Context {W : Type} (st : Store W) (content : W -> string -> string -> string).

(** A read returns the document and changes none; a write replaces the
    document and no other.  A document that is not there is empty. *)
Record reliable : Prop := {
  rl_get : forall a k w, snd (st_Get st a k w) = Ok (content w a k);
  rl_get_keeps : forall a k w a' k', content (fst (st_Get st a k w)) a' k' = content w a' k';
  rl_put : forall a k d w, content (fst (st_Put st a k d w)) a k = d;
  rl_put_keeps : forall a k d w a' k', (a', k') <> (a, k) -> content (fst (st_Put st a k d w)) a' k' = content w a' k';
}.

End Reliable.

(** What is encoded can be decoded, and is never the empty document. *)
Definition lossless {A} (c : Codec A) : Prop :=
  forall v, exists d, enc c v = Some d /\ d <> EmptyString /\ dec c d = Some v.

Section CacheLemmas.
Context {W A : Type} (st : Store W) (content : W -> string -> string -> string) (codec : Codec A).
Context (key : string) (dflt : option A).
Hypothesis Hst : reliable st content.
Hypothesis Hcodec : lossless codec.

(** The value the store has for an account, with the default of the cache. *)
Definition current (w : W) (a : string) : option A :=
  match (if String.eqb (content w a key) EmptyString then None else dec codec (content w a key)) with
  | Some v => Some v
  | None => dflt
  end.

(** What is cached is what the store has. *)
Definition coherent (wc : W * cache A) : Prop :=
  forall a v, ca_vals (snd wc) !! a = Some v -> current (fst wc) a = Some v.

Lemma load_result w a :
  current w a = match snd (Load (Some st) codec a key w) with Ok (Some v) => Some v | _ => dflt end
  /\ forall a', current (fst (Load (Some st) codec a key w)) a' = current w a'.
Proof.
  unfold current, Load. rewrite St_bind_eq. simpl. split.
  - rewrite (rl_get _ _ Hst). destruct (String.eqb (content w a key) EmptyString); [done|].
    by destruct (dec codec (content w a key)).
  - intros a'. by rewrite (rl_get_keeps _ _ Hst).
Qed.

(** After a load the cache has the current value of the account. *)
Lemma load_locked_spec a now wc :
  coherent wc ->
  let wc' := fst (load_locked (Some st) codec key dflt a now wc) in
  coherent wc' /\ (forall a', current (fst wc') a' = current (fst wc) a')
  /\ ca_vals (snd wc') !! a = current (fst wc) a.
Proof.
  destruct wc as [w c]. intros Hc. unfold load_locked.
  destruct (_ && _) eqn:E; simpl.
  - split_and!; [done|done|]. apply andb_prop in E as [[v Hv]%bool_decide_eq_true _]. rewrite Hv. symmetry. exact (Hc a v Hv).
  - destruct (load_result w a) as [Hr Hk]. destruct (Load (Some st) codec a key w) as [w' res]. simpl in *.
    assert (Hset : forall v time, current w a = Some v ->
      coherent (w', mkCache (<[a := v]> (ca_vals c)) time) /\ <[a := v]> (ca_vals c) !! a = current w a).
    { intros v time Hv. split; [|by rewrite lookup_insert_eq]. intros a' v'. simpl. rewrite Hk, lookup_insert.
      case_decide; [intros [= <-]; by subst|]. apply Hc. }
    assert (Hkeep : current w a = None -> forall time,
      coherent (w', mkCache (ca_vals c) time) /\ ca_vals c !! a = current w a).
    { intros Hn time. split; [intros a' v'; simpl; rewrite Hk; apply Hc|].
      destruct (ca_vals c !! a) as [v|] eqn:Ev; [|done]. apply Hc in Ev. simpl in Ev. congruence. }
    set (time := <[a := now + defaultExtensionCacheTTL]> (ca_time c)).
    assert (Hdone : forall vals, coherent (w', mkCache vals time) /\ vals !! a = current w a ->
      coherent (w', mkCache vals time) /\ (forall a', current w' a' = current w a') /\ vals !! a = current w a)
      by naive_solver.
    destruct res as [[v|]|e]; simpl; apply Hdone; [by apply Hset|..];
      (destruct dflt; [by apply Hset|by apply Hkeep]).
Qed.

(** Setting the value of an account and persisting it. *)
Lemma persist_locked_spec a v w c time :
  coherent (w, c) ->
  let wc' := fst (persist_locked (Some st) codec key a (w, mkCache (<[a := v]> (ca_vals c)) time)) in
  coherent wc' /\ current (fst wc') a = Some v /\ forall a', a' <> a -> current (fst wc') a' = current w a'.
Proof.
  intros Hc. unfold persist_locked. simpl. rewrite lookup_insert_eq. unfold Save.
  destruct (Hcodec v) as (d & He & Hne & Hd). rewrite He.
  pose proof (rl_put _ _ Hst a key d w) as Hp. pose proof (rl_put_keeps _ _ Hst a key d w) as Hk.
  destruct (st_Put st a key d w) as [w' e]. simpl in *.
  assert (Hcur : current w' a = Some v).
  { unfold current. rewrite Hp, (proj2 (String.eqb_neq _ _) Hne), Hd. done. }
  assert (Hoth : forall a', a' <> a -> current w' a' = current w a').
  { intros a' Hn. unfold current. by rewrite Hk by congruence. }
  split_and!; [|done|done]. intros a' v'. simpl. rewrite lookup_insert. case_decide; [intros [= <-]; by subst|].
  intros Hv. rewrite Hoth by done. by apply Hc.
Qed.

End CacheLemmas.

(** ** Push subscriptions without a cache *)

Inductive push_op : Type :=
| PGet (ids : list string)
| PGetAll
| PCreate (vCode : string) (sub : PushSubscription)
| PUpdate (id : string) (patch : obj)
| PDelete (id : string).

Inductive push_answer : Type :=
| AGet (found : list PushSubscription) (notFound : list string)
| AGetAll (all : list PushSubscription)
| ACreate (res : result string PushSubscription)
| AUpdate (res : result push_error PushSubscription)
| ADelete (ok : bool).

Definition push_exec {W} (s : option (Store W)) (codec : Codec push_map) (acct : string) (now : Z) (op : push_op)
  : St (W * cache push_map) push_answer :=
  match op with
  | PGet ids => r ← GetPushSubscriptions s codec acct now ids; mret (AGet (fst r) (snd r))
  | PGetAll => r ← GetAllPushSubscriptions s codec acct now; mret (AGetAll r)
  | PCreate vCode sub => r ← CreatePushSubscription s codec acct now vCode sub; mret (ACreate r)
  | PUpdate id patch => r ← UpdatePushSubscription s codec acct now id patch; mret (AUpdate r)
  | PDelete id => r ← DeletePushSubscription s codec acct now id; mret (ADelete r)
  end.

(** The operations on the subscriptions of one account. *)
Definition push_spec (now : Z) (op : push_op) (m : push_map) : push_map * push_answer :=
  match op with
  | PGet ids => (m, AGet (omap (fun id => m !! id) ids) (List.filter (fun id => bool_decide (m !! id = None)) ids))
  | PGetAll => (m, AGetAll (map snd (map_to_list m)))
  | PCreate vCode sub =>
      if (50 <=? base.size m)%nat then (m, ACreate (Err "maximum limit of push subscriptions reached for account"))
      else
        let id := if String.eqb (ps_ID sub) EmptyString then "push-" +:+ fmt_d now else ps_ID sub in
        let sub := mkPushSub id (ps_DeviceClientID sub) (ps_URL sub) (ps_Keys sub) (Some vCode)
                     (ps_Expires sub) (ps_Types sub) in
        (<[id := sub]> m, ACreate (Ok sub))
  | PUpdate id patch =>
      match m !! id with
      | None => (m, AUpdate (Err PushNotFound))
      | Some sub =>
          match patch_push patch sub with
          | None => (m, AUpdate (Err PushBadCode))
          | Some sub => (<[id := patch_push_rest patch sub]> m, AUpdate (Ok (patch_push_rest patch sub)))
          end
      end
  | PDelete id =>
      match m !! id with
      | None => (m, ADelete false)
      | Some _ => (delete id m, ADelete true)
      end
  end.

(** A history: the operations of the accounts in the order they happen. *)
Fixpoint push_run {W} (s : option (Store W)) (codec : Codec push_map) (ops : list (string * Z * push_op))
  : St (W * cache push_map) (list push_answer) :=
  match ops with
  | [] => mret []
  | (acct, now, op) :: ops' => r ← push_exec s codec acct now op; rs ← push_run s codec ops'; mret (r :: rs)
  end.
Definition set_account (M : string -> push_map) (acct : string) (m : push_map) : string -> push_map :=
  fun a => if String.eqb a acct then m else M a.
Fixpoint push_spec_run (ops : list (string * Z * push_op)) (M : string -> push_map) : list push_answer :=
  match ops with
  | [] => []
  | (acct, now, op) :: ops' =>
      let '(m, r) := push_spec now op (M acct) in r :: push_spec_run ops' (set_account M acct m)
  end.

Section PushLemmas.
Context {W : Type} (st : Store W) (content : W -> string -> string -> string) (codec : Codec push_map).
Hypothesis Hst : reliable st content.
Hypothesis Hcodec : lossless codec.

Local Abbreviation cur := (current content codec "push_subscriptions" (Some ∅)).
Local Abbreviation coh := (coherent content codec "push_subscriptions" (Some ∅)).

(** The subscriptions of an account in a state. *)
Definition stored_subs (w : W) (acct : string) : push_map := default ∅ (cur w acct).

Lemma push_loaded acct now wc :
  coh wc ->
  let wc' := fst (loadPushSubscriptionsLocked (Some st) codec acct now wc) in
  coh wc' /\ (forall a, stored_subs (fst wc') a = stored_subs (fst wc) a)
  /\ push_subs (snd wc') acct = stored_subs (fst wc) acct.
Proof.
  intros Hc. destruct (load_locked_spec st content codec "push_subscriptions" (Some ∅) Hst acct now wc Hc)
    as (H1 & H2 & H3). unfold loadPushSubscriptionsLocked. split_and!; [done| |].
  - intros a. unfold stored_subs. by rewrite H2.
  - unfold push_subs, stored_subs. by rewrite H3.
Qed.

Lemma push_saved acct m wc :
  coh wc ->
  let wc' := fst (persistPushSubscriptionsLocked (Some st) codec acct
                    (prod_map (fun w => w) (set_push_subs acct m) wc)) in
  coh wc' /\ stored_subs (fst wc') acct = m /\ (forall a, a <> acct -> stored_subs (fst wc') a = stored_subs (fst wc) a).
Proof.
  intros Hc. destruct wc as [w c].
  destruct (persist_locked_spec st content codec "push_subscriptions" (Some ∅) Hst Hcodec acct m w c (ca_time c) Hc)
    as (H1 & H2 & H3).
  change (prod_map (fun w => w) (set_push_subs acct m) (w, c))
    with (w, mkCache (<[acct := m]> (ca_vals c)) (ca_time c)).
  unfold persistPushSubscriptionsLocked, stored_subs. cbv zeta in *.
  split_and!; [done|by rewrite H2|]. intros a Ha. by rewrite H3.
Qed.

(** One operation through the cache is the operation on what is stored. *)
Definition step_refines (acct : string) (wc wc' : W * cache push_map) (m : push_map) : Prop :=
  coh wc' /\ forall a, stored_subs (fst wc') a = set_account (stored_subs (fst wc)) acct m a.

Lemma step_refines_same acct wc wc' :
  coh wc' -> (forall a, stored_subs (fst wc') a = stored_subs (fst wc) a) ->
  step_refines acct wc wc' (stored_subs (fst wc) acct).
Proof.
  intros Hc Hs. split; [done|]. intros a. rewrite Hs. unfold set_account.
  by destruct (String.eqb_spec a acct); subst.
Qed.

Lemma step_refines_save acct now m wc :
  coh wc ->
  let wc1 := fst (loadPushSubscriptionsLocked (Some st) codec acct now wc) in
  step_refines acct wc
    (fst (persistPushSubscriptionsLocked (Some st) codec acct (prod_map (fun w => w) (set_push_subs acct m) wc1))) m.
Proof.
  intros Hc wc1. destruct (push_loaded acct now wc Hc) as (Hc1 & Hs1 & _).
  destruct (push_saved acct m wc1 Hc1) as (Hc2 & Hm & Hs2). split; [done|]. intros a. unfold set_account.
  destruct (String.eqb_spec a acct) as [->|Hne]; [done|]. rewrite Hs2 by done. apply Hs1.
Qed.

Lemma push_exec_spec acct now op wc :
  coh wc ->
  let '(wc', r) := push_exec (Some st) codec acct now op wc in
  let '(m, r') := push_spec now op (stored_subs (fst wc) acct) in
  r = r' /\ step_refines acct wc wc' m.
Proof.
  intros Hc. pose proof (push_loaded acct now wc Hc) as (Hc1 & Hs1 & Hm).
  pose proof (fun m => step_refines_save acct now m wc Hc) as Hsave.
  destruct op as [ids| |vCode sub|i patch|i];
    unfold push_exec, GetPushSubscriptions, GetAllPushSubscriptions, CreatePushSubscription, UpdatePushSubscription,
      DeletePushSubscription, mbind, St_bind, gets, modify, mret, St_ret;
    destruct (loadPushSubscriptionsLocked (Some st) codec acct now wc) as [wc1 u]; cbn [push_spec fst snd] in *;
    pose proof (step_refines_same acct wc wc1 Hc1 Hs1) as Hsame; rewrite ?Hm; [by split|by split|..].
  - unfold maxPushSubscriptionsPerAccount. destruct (50 <=? _)%nat; [done|].
    match goal with |- context [persistPushSubscriptionsLocked _ _ _ (prod_map _ (set_push_subs _ ?m) _)] =>
      specialize (Hsave m) end.
    destruct (persistPushSubscriptionsLocked _ _ _ _) as [wc2 u']. done.
  - destruct (stored_subs (fst wc) acct !! i) as [sub|]; [|done].
    destruct (patch_push patch sub) as [sub'|]; [|done].
    specialize (Hsave (<[i := patch_push_rest patch sub']> (stored_subs (fst wc) acct))).
    destruct (persistPushSubscriptionsLocked _ _ _ _) as [wc2 u']. done.
  - destruct (stored_subs (fst wc) acct !! i) as [sub|]; [|done].
    specialize (Hsave (delete i (stored_subs (fst wc) acct))).
    destruct (persistPushSubscriptionsLocked _ _ _ _) as [wc2 u']. done.
Qed.

Lemma push_spec_run_ext ops M M' : (forall a, M a = M' a) -> push_spec_run ops M = push_spec_run ops M'.
Proof.
  revert M M'. induction ops as [|[[acct now] op] ops IH]; intros M M' HM; [done|]. simpl. rewrite HM.
  destruct (push_spec now op (M' acct)) as [m r]. f_equal. apply IH. intros a. unfold set_account.
  by destruct (String.eqb a acct).
Qed.

Lemma push_run_spec ops wc :
  coh wc -> snd (push_run (Some st) codec ops wc) = push_spec_run ops (stored_subs (fst wc)).
Proof.
  revert wc. induction ops as [|[[acct now] op] ops IH]; intros wc Hc; [done|]. cbn [push_run push_spec_run].
  rewrite !St_bind_eq. pose proof (push_exec_spec acct now op wc Hc) as H.
  destruct (push_exec (Some st) codec acct now op wc) as [wc' r].
  destruct (push_spec now op (stored_subs (fst wc) acct)) as [m r']. destruct H as [-> [Hc' Hs]]. simpl.
  f_equal. rewrite (IH wc' Hc'). by apply push_spec_run_ext.
Qed.

End PushLemmas.

(** ** Lemmas: the vacation response *)

Section VacationLemmas.
Context {W : Type} (st : Store W) (content : W -> string -> string -> string) (codec : Codec VacationResponse).
Hypothesis Hst : reliable st content.
Hypothesis Hcodec : lossless codec.

Local Abbreviation coh := (coherent content codec "vacation" None).

Definition stored_vacation (w : W) (acct : string) : VacationResponse :=
  default default_vacation (current content codec "vacation" None w acct).

Lemma vacation_saved acct vr wc :
  coh wc ->
  let wc' := fst (persistVacationLocked (Some st) codec acct (prod_map (fun w => w) (set_vacation acct vr) wc)) in
  coh wc' /\ stored_vacation (fst wc') acct = vr
  /\ (forall a, a <> acct -> stored_vacation (fst wc') a = stored_vacation (fst wc) a).
Proof.
  intros Hc. destruct wc as [w c].
  destruct (persist_locked_spec st content codec "vacation" None Hst Hcodec acct vr w c (ca_time c) Hc)
    as (H1 & H2 & H3).
  change (prod_map (fun w => w) (set_vacation acct vr) (w, c))
    with (w, mkCache (<[acct := vr]> (ca_vals c)) (ca_time c)).
  unfold persistVacationLocked, stored_vacation. cbv zeta in *.
  split_and!; [done|by rewrite H2|]. intros a Ha. by rewrite H3.
Qed.

Lemma vacation_loaded acct now wc :
  coh wc ->
  let wc' := fst (loadVacationLocked (Some st) codec acct now wc) in
  coh wc' /\ (forall a, stored_vacation (fst wc') a = stored_vacation (fst wc) a)
  /\ default default_vacation (ca_vals (snd wc') !! acct) = stored_vacation (fst wc) acct.
Proof.
  intros Hc. destruct (load_locked_spec st content codec "vacation" None Hst acct now wc Hc) as (H1 & H2 & H3).
  unfold loadVacationLocked. split_and!; [done| |].
  - intros a. unfold stored_vacation. by rewrite H2.
  - unfold stored_vacation. by rewrite H3.
Qed.

Lemma GetVacation_spec acct now wc :
  coh wc ->
  let '(wc', vr) := GetVacationResponse (Some st) codec acct now wc in
  coh wc' /\ vr = stored_vacation (fst wc) acct /\ forall a, stored_vacation (fst wc') a = stored_vacation (fst wc) a.
Proof.
  intros Hc. pose proof (vacation_loaded acct now wc Hc) as (Hc1 & Hs1 & Hv).
  unfold GetVacationResponse, mbind, St_bind, gets, modify, mret, St_ret.
  destruct (loadVacationLocked (Some st) codec acct now wc) as [wc1 u]. cbn [fst snd] in *.
  destruct (ca_vals (snd wc1) !! acct) as [vr|] eqn:E; [done|]. simpl in Hv.
  pose proof (vacation_saved acct default_vacation wc1 Hc1) as (Hc2 & Hs2 & Hs3).
  destruct (persistVacationLocked _ _ _ _) as [wc2 u']. cbn [fst snd] in *. split_and!; [done|done|].
  intros a. destruct (decide (a = acct)) as [->|Hne]; [congruence|]. by rewrite Hs3.
Qed.

Lemma UpdateVacation_spec acct now patch wc :
  coh wc ->
  let '(wc', vr) := UpdateVacationResponse (Some st) codec acct now patch wc in
  coh wc' /\ vr = foldl patch_vacation_member (stored_vacation (fst wc) acct) patch
  /\ stored_vacation (fst wc') acct = vr
  /\ forall a, a <> acct -> stored_vacation (fst wc') a = stored_vacation (fst wc) a.
Proof.
  intros Hc. pose proof (vacation_loaded acct now wc Hc) as (Hc1 & Hs1 & Hv).
  unfold UpdateVacationResponse, mbind, St_bind, gets, modify, mret, St_ret.
  destruct (loadVacationLocked (Some st) codec acct now wc) as [wc1 u]. cbn [fst snd] in *. rewrite Hv.
  pose proof (vacation_saved acct (foldl patch_vacation_member (stored_vacation (fst wc) acct) patch) wc1 Hc1)
    as (Hc2 & Hs2 & Hs3).
  destruct (persistVacationLocked _ _ _ _) as [wc2 u']. cbn [fst snd] in *. split_and!; [done|done|done|].
  intros a Hne. by rewrite Hs3, Hs1.
Qed.

End VacationLemmas.

(** ** Lemmas: a store and a codec to evaluate with *)

Definition map_store : Store (gmap (string * string) string) :=
  mkStore _ (fun a k w => (w, Ok (default EmptyString (w !! (a, k)))))
    (fun a k d w => (<[(a, k) := d]> w, None)) (fun a k w => (delete (a, k) w, None)).
Definition map_content (w : gmap (string * string) string) (a k : string) : string := default EmptyString (w !! (a, k)).

Lemma map_store_reliable : reliable map_store map_content.
Proof.
  split; [done|done| |]; unfold map_content; simpl; intros.
  - by rewrite lookup_insert_eq.
  - by rewrite lookup_insert_ne by congruence.
Qed.

#[export] Instance push_sub_eq_dec : EqDecision PushSubscription.
Proof. solve_decision. Defined.
#[export] Instance push_sub_countable : Countable PushSubscription.
Proof.
  refine (inj_countable'
    (fun p => (ps_ID p, ps_DeviceClientID p, ps_URL p, ps_Keys p, ps_VerificationCode p, ps_Expires p, ps_Types p))
    (fun '(i, d, u, k, v, e, t) => mkPushSub i d u k v e t) _). by intros [].
Defined.

(** Documents that are the decimal number of a value. *)
Definition number_codec {A} `{Countable A} : Codec A :=
  mkCodec _ (fun v => Some (String "n" (pretty (Npos (encode v)))))
    (fun d => match digits_val 0 (str_drop 1 d) with Some z => decode (Z.to_pos z) | None => None end).

Lemma number_codec_lossless {A} `{Countable A} : lossless (number_codec (A := A)).
Proof.
  intros v. eexists. split; [done|]. split; [done|]. simpl.
  rewrite digits_val_pretty. simpl. apply decode_encode.
Qed.

(** ** Properties *)

(** C17: the cache of push subscriptions cannot be noticed.  Over a store that
    works, every history of reads, creations, updates and deletions, at any
    times and by any accounts, gives the answers of the same operations made
    directly on what the store has: an account has at most fifty
    subscriptions, a verification code is accepted only if it is the one that
    was created, and no operation sees or changes another account's. *)
Theorem push_cache_transparent {W} (st : Store W) content codec ops w :
  reliable st content -> lossless codec ->
  snd (push_run (Some st) codec ops (w, mkCache ∅ ∅)) = push_spec_run ops (stored_subs content codec w).
Proof. intros Hst Hcodec. by apply push_run_spec. Qed.

Lemma push_cache_transparent_witness :
  let sub := mkPushSub EmptyString "dev" "https://x" None None None None in
  snd (push_run (Some map_store) number_codec
         [("a1", 7, PCreate "code" sub); ("a1", 10 ^ 15, PUpdate "push-7" [("verificationCode", JStr "code")]);
          ("a2", 10 ^ 15, PGetAll)] (∅, mkCache ∅ ∅))
  = [ACreate (Ok (mkPushSub "push-7" "dev" "https://x" None (Some "code") None None));
     AUpdate (Ok (mkPushSub "push-7" "dev" "https://x" None None None None)); AGetAll []].
Proof.
  intros sub. etransitivity;
    [apply (push_cache_transparent map_store map_content number_codec _ ∅ map_store_reliable number_codec_lossless)|].
  vm_compute. reflexivity.
Defined.

(** the subscriptions of an account never exceed fifty, and a pending
    verification code disappears only when the update presents it. *)
Theorem push_spec_invariants now op m :
  ((base.size m <= 50)%nat -> (base.size (fst (push_spec now op m)) <= 50)%nat)
  /\ (forall id sub sub' code, m !! id = Some sub -> ps_VerificationCode sub = Some code ->
        fst (push_spec now op m) !! id = Some sub' -> ps_VerificationCode sub' = None ->
        exists patch, op = PUpdate id patch /\ get_str patch "verificationCode" = Some code).
Proof.
  split.
  - intros Hm. destruct op as [ids| |vCode sub|i patch|i]; cbn [push_spec]; try done.
    + destruct (50 <=? base.size m)%nat eqn:E; cbn [fst]; [done|]. apply Nat.leb_gt in E.
      rewrite map_size_insert. destruct (m !! _); unfold id; lia.
    + destruct (m !! i) as [sub|] eqn:E; [|done]. destruct (patch_push patch sub); simpl; [|done].
      by rewrite map_size_insert_Some by eauto.
    + destruct (m !! i) eqn:E; simpl; [|done]. rewrite map_size_delete_Some by eauto. lia.
  - intros id sub sub' code Hs Hcode Hs' Hn. destruct op as [ids| |vCode new|i patch|i]; cbn [push_spec fst] in Hs';
      try (rewrite Hs in Hs'; simplify_eq; congruence).
    + destruct (50 <=? _)%nat; simpl in Hs'; [rewrite Hs in Hs'; simplify_eq; congruence|].
      rewrite lookup_insert in Hs'. case_decide; [by simplify_eq/=|]. rewrite Hs in Hs'. simplify_eq; congruence.
    + destruct (m !! i) as [cur|] eqn:E; [|simpl in Hs'; rewrite Hs in Hs'; simplify_eq; congruence].
      destruct (patch_push patch cur) as [p|] eqn:Ep; simpl in Hs'; [|rewrite Hs in Hs'; simplify_eq; congruence].
      rewrite lookup_insert in Hs'. case_decide as Hi; [|rewrite Hs in Hs'; simplify_eq; congruence].
      simplify_eq/=. exists patch. split; [done|]. unfold patch_push in Ep.
      destruct (get_str patch "verificationCode") as [vc|]; [|by simplify_eq; congruence].
      rewrite Hcode in Ep. destruct (String.eqb_spec code vc); [by subst|done].
    + destruct (m !! i) eqn:E; simpl in Hs'; [|rewrite Hs in Hs'; simplify_eq; congruence].
      apply lookup_delete_Some in Hs' as [_ Hs']. rewrite Hs in Hs'. simplify_eq; congruence.
Qed.

(** the vacation response an update answers with is the stored one with
    the members of the patch applied; every later read of the account, however
    much later, returns it, and the other accounts keep theirs. *)
Theorem vacation_update_is_read_back {W} (st : Store W) content codec acct patch now now' w :
  reliable st content -> lossless codec ->
  let '(wc1, vr) := UpdateVacationResponse (Some st) codec acct now patch (w, mkCache ∅ ∅) in
  vr = foldl patch_vacation_member (stored_vacation content codec w acct) patch
  /\ snd (GetVacationResponse (Some st) codec acct now' wc1) = vr
  /\ forall a, a <> acct -> snd (GetVacationResponse (Some st) codec a now' wc1) = stored_vacation content codec w a.
Proof.
  intros Hst Hcodec.
  assert (Hc : coherent content codec "vacation" None (w, mkCache ∅ ∅)) by done.
  pose proof (UpdateVacation_spec st content codec Hst Hcodec acct now patch (w, mkCache ∅ ∅) Hc) as H.
  destruct (UpdateVacationResponse _ _ _ _ _ _) as [wc1 vr]. destruct H as (Hc1 & Hvr & Hs & Ho).
  assert (Hget : forall a, snd (GetVacationResponse (Some st) codec a now' wc1) = stored_vacation content codec (fst wc1) a).
  { intros a. pose proof (GetVacation_spec st content codec Hst Hcodec a now' wc1 Hc1) as H.
    destruct (GetVacationResponse _ _ _ _ _) as [wc2 v]. by destruct H as (_ & -> & _). }
  split_and!; [done|by rewrite Hget|]. intros a Ha. rewrite Hget. by apply Ho.
Qed.

#[export] Instance vacation_eq_dec : EqDecision VacationResponse.
Proof. solve_decision. Defined.
#[export] Instance vacation_countable : Countable VacationResponse.
Proof.
  refine (inj_countable'
    (fun v => (vr_ID v, vr_IsEnabled v, vr_FromDate v, vr_ToDate v, vr_Subject v, vr_TextBody v, vr_HTMLBody v))
    (fun '(i, e, f, t, s, x, h) => mkVacation i e f t s x h) _). by intros [].
Defined.

Lemma vacation_update_is_read_back_witness :
  let patch := [("isEnabled", JBool true); ("subject", JStr "away")] in
  let '(wc1, vr) := UpdateVacationResponse (Some map_store) number_codec "a1" 5 patch (∅, mkCache ∅ ∅) in
  snd (GetVacationResponse (Some map_store) number_codec "a1" (10 ^ 15) wc1) = vr.
Proof.
  intros patch. pose proof (vacation_update_is_read_back map_store map_content number_codec "a1" patch 5 (10 ^ 15) ∅
    map_store_reliable number_codec_lossless) as H.
  destruct (UpdateVacationResponse (Some map_store) number_codec "a1" 5 patch (∅, mkCache ∅ ∅)) as [wc1 vr]. apply H.
Defined.

(** *** One expiry time for two caches *)

Lemma load_fresh {W A} (s : option (Store W)) (codec : Codec A) key dflt acct now wc :
  fresh (ca_time (snd (fst (load_locked s codec key dflt acct now wc)))) acct now = true.
Proof.
  destruct wc as [w c]. unfold load_locked. destruct (_ && _) eqn:E; [by apply andb_prop in E as [_ E]|].
  destruct (Load s codec acct key w) as [w' [[v|]|e]]; simpl; unfold fresh; rewrite lookup_insert_eq; simpl;
    unfold defaultExtensionCacheTTL, minute; lia.
Qed.

Lemma load_cached {W A} (s : option (Store W)) (codec : Codec A) key dflt acct now w c v :
  ca_vals c !! acct = Some v -> fresh (ca_time c) acct now = true ->
  load_locked s codec key dflt acct now (w, c) = ((w, c), tt).
Proof. intros Hv Hf. unfold load_locked. by rewrite Hv, Hf. Qed.

Section Stale.
Context {W : Type} (s : option (Store W)).
Context (parents_codec : Codec (gmap string (option string))) (orders_codec : Codec (gmap string Z)).

(** What [GetAllMailboxes] asks for each mailbox, at the times [ts], with
    anything [other] the outside world does to the store in between. *)
Fixpoint listings (other : W -> W) (acct id : string) (ts : list Z) : St (W * mailbox_overrides) (list (option Z)) :=
  match ts with
  | [] => mret []
  | t :: ts' =>
      _ ← modify (prod_map other (fun o => o));
      _ ← getMailboxParentOverride s parents_codec acct t id;
      r ← getMailboxSortOrder s orders_codec acct t id;
      rs ← listings other acct id ts';
      mret (r :: rs)
  end.

Lemma listing_keeps_orders acct id t w o m :
  mo_orders o !! acct = Some m ->
  let '(wo1, _) := getMailboxParentOverride s parents_codec acct t id (w, o) in
  let '(wo2, r) := getMailboxSortOrder s orders_codec acct t id wo1 in
  r = m !! id /\ mo_orders (snd wo2) !! acct = Some m.
Proof.
  intros Hm. unfold getMailboxParentOverride, loadMailboxParentOverridesLocked, on_parents, mbind, St_bind, gets.
  pose proof (load_fresh s parents_codec "mailbox_parent_overrides" (Some ∅) acct t (w, mkCache (mo_parents o) (mo_time o))) as Hf.
  destruct (load_locked s parents_codec _ _ acct t _) as [[w1 c1] u]. cbn [fst snd] in *.
  unfold getMailboxSortOrder, loadMailboxSortOrdersLocked, on_orders, mbind, St_bind, gets.
  rewrite (load_cached s orders_codec _ _ acct t w1 _ m) by done. simpl. unfold at_account. simpl. by rewrite Hm.
Qed.

End Stale.

(** sort orders that were cached once are never read from the store again.
    The listing of the mailboxes looks up the parent of a mailbox before its
    sort order; when the shared expiry time has passed, the first lookup
    rereads the parents and renews the time for both, so the second always
    finds its cache fresh.  Whatever anybody writes to the store, at whatever
    times the mailboxes are listed, the sort order stays what it was. *)
Theorem sort_orders_never_reread {W} (s : option (Store W)) pc oc other acct id ts w o m :
  mo_orders o !! acct = Some m ->
  snd (listings s pc oc other acct id ts (w, o)) = map (fun _ => m !! id) ts.
Proof.
  revert w o. induction ts as [|t ts IH]; intros w o Hm; [done|]. cbn [listings map].
  rewrite St_bind_eq. cbn [modify fst snd prod_map].
  pose proof (listing_keeps_orders s pc oc acct id t (other w) o m Hm) as H.
  rewrite !St_bind_eq. destruct (getMailboxParentOverride _ _ _ _ _ _) as [wo1 x]. cbn [fst snd].
  destruct (getMailboxSortOrder _ _ _ _ _ _) as [[w2 o2] r]. destruct H as [-> Hm2]. cbn [fst snd].
  simpl. f_equal. by apply IH.
Qed.

Lemma sort_orders_never_reread_witness :
  let o := mkOverrides ∅ {["a1" := {["mb" := 10]}]} ∅ in
  snd (listings (Some map_store) number_codec number_codec
         (fun w => <[("a1", "mailbox_sort_orders") := "n1"]> w) "a1" "mb" [0; 10 ^ 15; 10 ^ 16] (∅, o))
  = [Some 10; Some 10; Some 10].
Proof.
  intros o. etransitivity; [apply (sort_orders_never_reread (Some map_store) number_codec number_codec
    (fun w => <[("a1", "mailbox_sort_orders") := "n1"]> w) "a1" "mb" [0; 10 ^ 15; 10 ^ 16] ∅ o {["mb" := 10]})|];
    vm_compute; reflexivity.
Defined.
