(* ===== verification/ImapMailboxes.v ===== *)
(** * Mailboxes of the IMAP backend

    [jmap/imapsmtp/mailbox.go]: mailboxes as folders of an IMAP server, with
    the parents and sort orders the server has no place for in the extension
    store and the ids of renamed folders in the moved-id map.

    The IMAP server is an interface of this model: each command is a function
    on a world, with the error it may return.  What the backend does beside
    (recording the account, sweeping the staging folder, publishing the state
    change) is one such function too.  Resolving the id of a renamed mailbox
    can loop forever ([ImapStores]), so an operation hangs, fails or returns. *)

From S2P Require Import Prelude GoSort GoStrings GoState Base64 Json Envelope Query Patch Handler MailTypes ImapConvert ImapChanges ImapStores ExtStore.
From Stdlib Require Import Ascii SpecFloat.

(** ** Package path *)

Module GoPath.

(** The elements of a path after [..] and [.] are resolved, in reverse. *)
Fixpoint clean_elems (rooted : bool) (out : list string) (elems : list string) : list string :=
  match elems with
  | [] => out
  | e :: rest =>
      if String.eqb e EmptyString || String.eqb e "." then clean_elems rooted out rest
      else if String.eqb e ".." then
        match out with
        | [] => clean_elems rooted (if rooted then [] else [".."]) rest
        | top :: out' =>
            if String.eqb top ".." then clean_elems rooted (".." :: out) rest
            else clean_elems rooted out' rest
        end
      else clean_elems rooted (e :: out) rest
  end.

Definition Clean (p : string) : string :=
  let rooted := HasPrefix p "/" in
  let body := Join (rev (clean_elems rooted [] (Split p "/"))) "/" in
  if rooted then "/" +:+ body
  else if String.eqb body EmptyString then "." else body.

(** [path.Join] of two elements; empty ones are ignored. *)
Definition Join2 (a b : string) : string :=
  if String.eqb a EmptyString then (if String.eqb b EmptyString then EmptyString else Clean b)
  else if String.eqb b EmptyString then Clean a else Clean (a +:+ "/" +:+ b).

End GoPath.

(** ** Data *)

(** [imap.MailboxInfo]: the fields the backend reads.  The hierarchy delimiter
    is one ASCII character; [None] is the rune 0. *)
Record MailboxInfo : Type := mkInfo {
  mi_Name : string;
  mi_Attrs : list string;
  mi_Delimiter : option ascii;
  mi_Messages : Z;
  mi_Unseen : Z;
  mi_IsSubscribed : bool;
}.

Inductive outcome (A : Type) : Type :=
| Hangs
| Fails (e : go_error)
| Returns (a : A).
Arguments Hangs {A}.
Arguments Fails {A} _.
Arguments Returns {A} _.

(** ** The IMAP server *)

Record ImapServer (W : Type) : Type := mkServerOps {
  im_connect : Ctx -> St W (option string);
  im_ListFolders : Ctx -> St W (result string (list MailboxInfo));
  im_Create : Ctx -> string -> St W (option string);
  im_Delete : Ctx -> string -> St W (option string);
  im_Rename : Ctx -> string -> string -> St W (option string);
  im_Subscribe : Ctx -> string -> St W (option string);
  im_Unsubscribe : Ctx -> string -> St W (option string);
}.
Arguments im_connect {W} _ _ _.
Arguments im_ListFolders {W} _ _ _.
Arguments im_Create {W} _ _ _ _.
Arguments im_Delete {W} _ _ _ _.
Arguments im_Rename {W} _ _ _ _ _.
Arguments im_Subscribe {W} _ _ _ _.
Arguments im_Unsubscribe {W} _ _ _ _.

(** The state of the backend that mailboxes use. *)
Record mb_state (W : Type) : Type := mkMbState {
  ms_world : W;
  ms_overrides : mailbox_overrides;
  ms_moved : gmap string string;
}.
Arguments mkMbState {W} _ _ _.
Arguments ms_world {W} _.
Arguments ms_overrides {W} _.
Arguments ms_moved {W} _.

Section Backend.
Context `{GoRuntime} {W : Type} (im : ImapServer W).
Context (store : option (Store W)).
Context (parents_codec : Codec (gmap string (option string))) (orders_codec : Codec (gmap string Z)).
Context (housekeeping publish : Ctx -> St W unit).

Definition on_world {A} (m : St W A) : St (mb_state W) A :=
  fun s => let '(w, x) := m (ms_world s) in (mkMbState w (ms_overrides s) (ms_moved s), x).
Definition on_overrides {A} (m : St (W * mailbox_overrides) A) : St (mb_state W) A :=
  fun s => let '((w, o), x) := m (ms_world s, ms_overrides s) in (mkMbState w o (ms_moved s), x).
Definition track (oldID newID : string) : St (mb_state W) unit :=
  modify (fun s => mkMbState (ms_world s) (ms_overrides s) (trackMovedMailbox (ms_moved s) oldID newID)).
Definition resolve (id : string) : St (mb_state W) (option string) :=
  gets (fun s => resolveMovedMailboxID (base.size (ms_moved s)) (ms_moved s) id).

Definition getParent (c : Ctx) (now : Z) (id : string) : St (mb_state W) (option (option string)) :=
  on_overrides (getMailboxParentOverride store parents_codec (fst (AccountIDFromContext c)) now id).
Definition setParent (c : Ctx) (now : Z) (id : string) (p : option string) : St (mb_state W) unit :=
  on_overrides (setMailboxParentOverride store parents_codec (fst (AccountIDFromContext c)) now id p).
Definition getOrder (c : Ctx) (now : Z) (id : string) : St (mb_state W) (option Z) :=
  on_overrides (getMailboxSortOrder store orders_codec (fst (AccountIDFromContext c)) now id).
Definition setOrder (c : Ctx) (now : Z) (id : string) (so : Z) : St (mb_state W) unit :=
  on_overrides (setMailboxSortOrder store orders_codec (fst (AccountIDFromContext c)) now id so).

(** *** Listing *)

(** The id of the parent folder, from the name. *)
Definition parent_of (fi : MailboxInfo) : option string :=
  match mi_Delimiter fi with
  | None => None
  | Some d =>
      match LastIndexByte (mi_Name fi) d with
      | Some (S idx) => Some (MailboxIDForName (str_take (S idx) (mi_Name fi)))
      | _ => None
      end
  end.

(** The last part of the name, and the INBOX spelled [Inbox]. *)
Definition display_name (fi : MailboxInfo) : string :=
  let dispName :=
    match parent_of fi, mi_Delimiter fi with
    | Some _, Some d => List.last (Split (mi_Name fi) (str_of [d])) EmptyString
    | _, _ => mi_Name fi
    end in
  if EqualFold dispName "INBOX" then "Inbox" else dispName.

Definition role_order (role : string) : Z :=
  if String.eqb role "inbox" then 10
  else if String.eqb role "drafts" then 20
  else if String.eqb role "sent" then 30
  else if String.eqb role "archive" then 40
  else if String.eqb role "trash" then 50
  else if String.eqb role "junk" then 60
  else if String.eqb role "outbox" then 70
  else if String.eqb role "templates" then 80
  else 100.

(** The override of the id, or of the id of the role. *)
Definition override_or_role {V} (lookup : string -> St (mb_state W) (option V)) (mbID role : string)
  : St (mb_state W) (option V) :=
  v ← lookup mbID;
  match v with
  | Some v => mret (Some v)
  | None => if negb (String.eqb role EmptyString) then lookup ("mb-" +:+ role) else mret None
  end.

Definition mailbox_of (c : Ctx) (now : Z) (fi : MailboxInfo) : St (mb_state W) Mailbox :=
  let name := mi_Name fi in
  let sel := negb (existsb (fun attr => EqualFold attr "\NoSelect") (mi_Attrs fi)) in
  let mbID := MailboxIDForName name in
  let role := DetectRole name (mi_Attrs fi) in
  pOverride ← override_or_role (getParent c now) mbID role;
  so ← override_or_role (getOrder c now) mbID role;
  let may := negb (EqualFold name "INBOX") in
  mret (mkMailbox mbID (display_name fi)
    (match pOverride with Some p => p | None => parent_of fi end)
    (if negb (String.eqb role EmptyString) then Some role else None)
    (default (role_order role) so)
    (mi_Messages fi) (mi_Unseen fi) (mi_Messages fi) (mi_Unseen fi)
    (mkRights sel sel sel sel sel true may may true true) (mi_IsSubscribed fi)).

Definition mailbox_cmp (a b : Mailbox) : comparison :=
  match Z.compare (mb_SortOrder a) (mb_SortOrder b) with
  | Eq => String.compare (ToLower (mb_Name a)) (ToLower (mb_Name b))
  | r => r
  end.

Definition GetAllMailboxes (c : Ctx) (now : Z) : St (mb_state W) (result string (list Mailbox)) :=
  _ ← on_world (housekeeping c);
  conn ← on_world (im_connect im c);
  match conn with
  | Some e => mret (Err e)
  | None =>
      folders ← on_world (im_ListFolders im c);
      match folders with
      | Err e => mret (Err ("failed to list mailboxes: " +:+ e))
      | Ok folders =>
          all ← fold_state (fun acc fi =>
                  if HasPrefix (mi_Name fi) "." then mret acc
                  else mb ← mailbox_of c now fi; mret (acc ++ [mb])) [] folders;
          mret (Ok (stable_sort (lt_of mailbox_cmp) all))
      end
  end.

(** *** Reading by id *)

(** The mailbox with an id; a later one of the list replaces an earlier one in
    the Go map. *)
Definition by_id (all : list Mailbox) (id : string) : option Mailbox :=
  List.find (fun mb => String.eqb (mb_ID mb) id) (rev all).

(** The mailbox an id of [GetMailboxes] stands for: [None] when resolving it
    hangs. *)
Definition find_mailbox (m : gmap string string) (all : list Mailbox) (id : string) : option (option Mailbox) :=
  let follow i := resolveMovedMailboxID (base.size m) m i in
  match by_id all id with
  | Some mb => Some (Some mb)
  | None =>
      match follow id with
      | None => None
      | Some resolved =>
          match by_id all resolved with
          | Some mb => Some (Some mb)
          | None =>
              match NameForMailboxID id with
              | Err _ => Some None
              | Ok realName =>
                  let realID := MailboxIDForName realName in
                  match by_id all realID with
                  | Some mb => Some (Some mb)
                  | None =>
                      match follow realID with
                      | None => None
                      | Some resolvedReal =>
                          match by_id all resolvedReal with
                          | Some mb => Some (Some mb)
                          | None =>
                              Some (List.find (fun mb =>
                                EqualFold (mb_Name mb) realName
                                || match mb_Role mb with
                                   | Some r => EqualFold r (TrimPrefix id "mb-")
                                   | None => false
                                   end) all)
                          end
                      end
                  end
              end
          end
      end
  end.

Fixpoint find_mailboxes (m : gmap string string) (all : list Mailbox) (ids : list string)
  : option (list Mailbox * list string) :=
  match ids with
  | [] => Some ([], [])
  | id :: ids' =>
      match find_mailbox m all id, find_mailboxes m all ids' with
      | Some (Some mb), Some (found, notFound) => Some (mb :: found, notFound)
      | Some None, Some (found, notFound) => Some (found, id :: notFound)
      | _, _ => None
      end
  end.

(** The list, the ids not found and the error; [None] when it hangs. *)
Definition GetMailboxes (c : Ctx) (now : Z) (ids : list string)
  : St (mb_state W) (option (list Mailbox * list string * option string)) :=
  all ← GetAllMailboxes c now;
  match all with
  | Err e => mret (Some ([], ids, Some e))
  | Ok all =>
      m ← gets ms_moved;
      mret (match find_mailboxes m all ids with
            | Some (found, notFound) => Some (found, notFound, None)
            | None => None
            end)
  end.

(** *** Creating *)

Definition folder_for (mb : Mailbox) : string :=
  match mb_ParentID mb with
  | Some pid =>
      match NameForMailboxID pid with
      | Ok parentName => GoPath.Join2 parentName (mb_Name mb)
      | Err _ => mb_Name mb
      end
  | None => mb_Name mb
  end.

Definition set_mb_ID (mb : Mailbox) (id : string) : Mailbox :=
  mkMailbox id (mb_Name mb) (mb_ParentID mb) (mb_Role mb) (mb_SortOrder mb) (mb_TotalEmails mb) (mb_UnreadEmails mb)
    (mb_TotalThreads mb) (mb_UnreadThreads mb) (mb_MyRights mb) (mb_IsSubscribed mb).

Definition CreateMailbox (c : Ctx) (now : Z) (mb : Mailbox) : St (mb_state W) (outcome Mailbox) :=
  let folderName := folder_for mb in
  conn ← on_world (im_connect im c);
  match conn with
  | Some e => mret (Fails (GError e))
  | None =>
      err ← on_world (im_Create im c folderName);
      match err with
      | Some e => mret (Fails (GError ("failed to create IMAP mailbox " +:+ folderName +:+ ": " +:+ e)))
      | None =>
          _ ← on_world (if mb_IsSubscribed mb then im_Subscribe im c folderName else im_Unsubscribe im c folderName);
          let mb := set_mb_ID mb (MailboxIDForName folderName) in
          _ ← (if negb (mb_SortOrder mb =? 0) then setOrder c now (mb_ID mb) (mb_SortOrder mb) else mret tt);
          _ ← on_world (publish c);
          mret (Returns mb)
      end
  end.

(** *** Deleting *)

(** The mailbox an update or a deletion is about: the first of the list with
    the id, the id given, or the name of the folder. *)
Definition is_target (id origID folderName : string) (mb : Mailbox) : bool :=
  String.eqb (mb_ID mb) id || String.eqb (mb_ID mb) origID || EqualFold (mb_Name mb) folderName.

Definition folder_of_id (id : string) : string :=
  match NameForMailboxID id with Ok n => n | Err _ => id end.
Definition folder_of_target (target : Mailbox) (folderName : string) : string :=
  match NameForMailboxID (mb_ID target) with
  | Ok realName => if negb (String.eqb realName EmptyString) then realName else folderName
  | Err _ => folderName
  end.

Definition DeleteMailbox (c : Ctx) (now : Z) (origID : string) (onDestroyRemoveMessages : bool)
  : St (mb_state W) (outcome bool) :=
  resolved ← resolve origID;
  match resolved with
  | None => mret Hangs
  | Some id =>
      let folderName := folder_of_id id in
      all ← GetAllMailboxes c now;
      match all with
      | Err e => mret (Fails (GError e))
      | Ok all =>
          match List.find (is_target id origID folderName) all with
          | None => mret (Returns false)
          | Some target =>
              let folderToDelete := folder_of_target target folderName in
              if existsb (fun other =>
                   match mb_ParentID other with
                   | Some p => String.eqb p (mb_ID target) || String.eqb p id || String.eqb p origID
                   | None => false
                   end) all
              then mret (Fails (GSetError (set_error "mailboxHasChild" EmptyString)))
              else
                conn ← on_world (im_connect im c);
                match conn with
                | Some e => mret (Fails (GError e))
                | None =>
                    err ← on_world (im_Delete im c folderToDelete);
                    match err with
                    | Some e => mret (Fails (GError ("failed to delete IMAP mailbox " +:+ folderToDelete +:+ ": " +:+ e)))
                    | None => _ ← on_world (publish c); mret (Returns true)
                    end
                end
          end
      end
  end.

(** *** Updating *)

(** The printed form of the rights, which is all the patch check looks at. *)
Definition fmt_bool (b : bool) : string := if b then "true" else "false".
Definition fmt_rights (r : MailboxRights) : string :=
  "{" +:+ Join (map fmt_bool [mr_MayReadItems r; mr_MayAddItems r; mr_MayRemoveItems r; mr_MaySetSeen r;
    mr_MaySetKeywords r; mr_MayCreateChild r; mr_MayRename r; mr_MayDelete r; mr_MaySubmit r; mr_MayAdmin r]) " " +:+ "}".

(** [targetMap]; the role is a pointer, never null and never a map. *)
Definition target_map (t : Mailbox) : obj :=
  [("id", JStr (mb_ID t)); ("name", JStr (mb_Name t));
   ("parentId", match mb_ParentID t with Some p => JStr p | None => JNull end);
   ("role", JStr (default EmptyString (mb_Role t))); ("sortOrder", jint (mb_SortOrder t));
   ("totalEmails", jint (mb_TotalEmails t)); ("unreadEmails", jint (mb_UnreadEmails t));
   ("totalThreads", jint (mb_TotalThreads t)); ("unreadThreads", jint (mb_UnreadThreads t));
   ("myRights", JStr (fmt_rights (mb_MyRights t))); ("isSubscribed", JBool (mb_IsSubscribed t))].

Definition mailbox_server_set : list string :=
  ["id"; "totalEmails"; "unreadEmails"; "totalThreads"; "unreadThreads"; "myRights"].

(** The fields of the mailbox an update changes. *)
Definition with_order (t : Mailbox) (so : Z) : Mailbox :=
  mkMailbox (mb_ID t) (mb_Name t) (mb_ParentID t) (mb_Role t) so (mb_TotalEmails t) (mb_UnreadEmails t)
    (mb_TotalThreads t) (mb_UnreadThreads t) (mb_MyRights t) (mb_IsSubscribed t).
Definition with_subscribed (t : Mailbox) (sub : bool) : Mailbox :=
  mkMailbox (mb_ID t) (mb_Name t) (mb_ParentID t) (mb_Role t) (mb_SortOrder t) (mb_TotalEmails t) (mb_UnreadEmails t)
    (mb_TotalThreads t) (mb_UnreadThreads t) (mb_MyRights t) sub.
Definition with_parent (t : Mailbox) (p : option string) : Mailbox :=
  mkMailbox (mb_ID t) (mb_Name t) p (mb_Role t) (mb_SortOrder t) (mb_TotalEmails t) (mb_UnreadEmails t)
    (mb_TotalThreads t) (mb_UnreadThreads t) (mb_MyRights t) (mb_IsSubscribed t).
Definition with_name (t : Mailbox) (id name : string) : Mailbox :=
  mkMailbox id name (mb_ParentID t) (mb_Role t) (mb_SortOrder t) (mb_TotalEmails t) (mb_UnreadEmails t)
    (mb_TotalThreads t) (mb_UnreadThreads t) (mb_MyRights t) (mb_IsSubscribed t).

(** [None] when the patch leaves the parent alone. *)
Definition patched_parent (patch : obj) : option (option string) :=
  match obj_get patch "parentId" with
  | None => None
  | Some (JStr pid) => Some (if negb (String.eqb pid EmptyString) then Some pid else None)
  | Some _ => Some None
  end.

Definition new_leaf_name (target : Mailbox) (patch : obj) : string :=
  match get_str patch "name" with
  | Some n => if negb (String.eqb n EmptyString) then n else mb_Name target
  | None => mb_Name target
  end.

(** The path the folder of the mailbox gets. *)
Definition new_folder_path (currentFolder : string) (target : Mailbox) (patch : obj) : string :=
  let newLeafName := new_leaf_name target patch in
  let newParentFolder :=
    match patched_parent patch with
    | Some (Some pid) => match NameForMailboxID pid with Ok pName => pName | Err _ => EmptyString end
    | Some None => EmptyString
    | None => match LastIndexByte currentFolder "/" with
              | Some (S idx) => str_take (S idx) currentFolder
              | _ => EmptyString
              end
    end in
  if negb (String.eqb newParentFolder EmptyString) then GoPath.Join2 newParentFolder newLeafName else newLeafName.

Definition is_inbox (currentFolder : string) (target : Mailbox) : bool :=
  EqualFold currentFolder "INBOX" || EqualFold (mb_Name target) "INBOX"
  || match mb_Role target with Some r => String.eqb r "inbox" | None => false end.

(** The metadata part: sort order and subscription. *)
Definition update_metadata (c : Ctx) (now : Z) (origID currentFolder : string) (target : Mailbox) (patch : obj)
  : St (mb_state W) Mailbox :=
  target ← (match get_num patch "sortOrder" with
            | Some so =>
                let val := f64_to_uint64 so in
                _ ← setOrder c now (mb_ID target) val;
                _ ← setOrder c now origID val;
                mret (with_order target val)
            | None =>
                prev ← getOrder c now (mb_ID target);
                mret (match prev with Some so => with_order target so | None => target end)
            end);
  match get_bool patch "isSubscribed" with
  | Some sub =>
      conn ← on_world (im_connect im c);
      _ ← (match conn with
           | None => _ ← on_world (if sub then im_Subscribe im c currentFolder else im_Unsubscribe im c currentFolder);
                     mret tt
           | Some _ => mret tt
           end);
      mret (with_subscribed target sub)
  | None => mret target
  end.

(** The rename part; the new id is remembered for every id the mailbox had. *)
Definition rename_folder (c : Ctx) (now : Z) (origID id currentFolder newFolderPath newLeafName : string) (target : Mailbox)
  : St (mb_state W) (result string Mailbox) :=
  conn ← on_world (im_connect im c);
  match conn with
  | Some e => mret (Err e)
  | None =>
      err ← on_world (im_Rename im c currentFolder newFolderPath);
      match err with
      | Some e => mret (Err ("failed to rename IMAP mailbox: " +:+ e))
      | None =>
          _ ← (if mb_IsSubscribed target
               then _ ← on_world (im_Subscribe im c newFolderPath); mret tt else mret tt);
          let newID := MailboxIDForName newFolderPath in
          _ ← track origID newID;
          _ ← track id newID;
          _ ← track (mb_ID target) newID;
          so ← getOrder c now (mb_ID target);
          _ ← (match so with Some so => setOrder c now newID so | None => mret tt end);
          mret (Ok (with_name target newID newLeafName))
      end
  end.

(** What follows the check of the patch. *)
Definition update_target (c : Ctx) (now : Z) (origID id currentFolder : string) (target : Mailbox) (patch : obj)
  : St (mb_state W) (outcome Mailbox) :=
  target ← update_metadata c now origID currentFolder target patch;
  if is_inbox currentFolder target then
    target ← (match patched_parent patch with
              | Some p =>
                  _ ← setParent c now (mb_ID target) p;
                  _ ← setParent c now origID p;
                  _ ← setParent c now "mb-inbox" p;
                  mret (with_parent target p)
              | None => mret target
              end);
    _ ← on_world (publish c);
    mret (Returns target)
  else
    let path := new_folder_path currentFolder target patch in
    renamed ← (if negb (String.eqb path currentFolder)
               then rename_folder c now origID id currentFolder path (new_leaf_name target patch) target
               else mret (Ok target));
    match renamed with
    | Err e => mret (Fails (GError e))
    | Ok target =>
        target ← (match patched_parent patch with
                  | Some p =>
                      _ ← setParent c now (mb_ID target) p;
                      _ ← setParent c now origID p;
                      mret (with_parent target p)
                  | None => mret target
                  end);
        _ ← on_world (publish c);
        mret (Returns target)
    end.

Definition UpdateMailbox (c : Ctx) (now : Z) (origID : string) (patch : obj) : St (mb_state W) (outcome Mailbox) :=
  resolved ← resolve origID;
  match resolved with
  | None => mret Hangs
  | Some id =>
      let folderName := folder_of_id id in
      all ← GetAllMailboxes c now;
      match all with
      | Err e => mret (Fails (GError e))
      | Ok all =>
          match List.find (is_target id origID folderName) all with
          | None => mret (Fails (GSetError (set_error "notFound" "mailbox not found")))
          | Some target =>
              match ValidatePatch (target_map target) patch mailbox_server_set with
              | Some e => mret (Fails (GSetError e))
              | None => update_target c now origID id (folder_of_target target folderName) target patch
              end
          end
      end
  end.

End Backend.

(** ** Lemmas: splitting a path *)

(** A name with no empty, dot or dot-dot part. *)
Definition clean_part (e : string) : bool :=
  negb (String.eqb e EmptyString) && negb (String.eqb e ".") && negb (String.eqb e "..").
Definition clean_name (name : string) : bool := forallb clean_part (Split name "/").

Lemma clean_elems_clean rooted out elems :
  forallb clean_part elems = true -> GoPath.clean_elems rooted out elems = rev elems ++ out.
Proof.
  revert out. induction elems as [|e elems IH]; intros out; simpl; [done|].
  intros [He Hes]%andb_prop. unfold clean_part in He.
  destruct (String.eqb e EmptyString) eqn:E1, (String.eqb e ".") eqn:E2, (String.eqb e "..") eqn:E3; try done. simpl.
  rewrite IH by done. by rewrite <- app_assoc.
Qed.

Lemma clean_name_not_rooted name : clean_name name = true -> HasPrefix name "/" = false /\ name <> EmptyString.
Proof.
  unfold clean_name. destruct name as [|a name]; [intros Hc; discriminate Hc|]. intros Hc. split; [|done].
  destruct (Ascii.eqb_spec "/" a) as [<-|Hne]; [discriminate Hc|].
  cbn [HasPrefix]. by rewrite (proj2 (Ascii.eqb_neq _ _) Hne).
Qed.

Lemma Clean_clean name : clean_name name = true -> GoPath.Clean name = name.
Proof.
  intros Hc. destruct (clean_name_not_rooted name Hc) as [Hr Hne]. unfold GoPath.Clean. rewrite Hr.
  rewrite clean_elems_clean by exact Hc. rewrite app_nil_r, rev_involutive.
  rewrite (Join_Split "/"). by rewrite (proj2 (String.eqb_neq _ _) Hne).
Qed.

Lemma Join2_cut p t :
  p <> EmptyString -> clean_name (p +:+ String "/" t) = true -> GoPath.Join2 p t = p +:+ String "/" t.
Proof.
  intros Hp Hc. unfold GoPath.Join2. rewrite (proj2 (String.eqb_neq _ _) Hp).
  assert (Ht : t <> EmptyString).
  { intros ->. unfold clean_name in Hc. rewrite (Split_app_sep "/") in Hc. rewrite forallb_app in Hc.
    apply andb_prop in Hc as [_ Hc]. done. }
  rewrite (proj2 (String.eqb_neq _ _) Ht). by apply Clean_clean.
Qed.

(** ** Lemmas: the listing *)

Section Listing.
Context `{GoRuntime} {W : Type} (im : ImapServer W) (store : option (Store W)).
Context (pc : Codec (gmap string (option string))) (oc : Codec (gmap string Z)).
Context (housekeeping publish : Ctx -> St W unit).

Lemma on_world_eq {A} (m : St W A) (s : mb_state W) :
  on_world m s = (mkMbState (fst (m (ms_world s))) (ms_overrides s) (ms_moved s), snd (m (ms_world s))).
Proof. unfold on_world. by destruct (m (ms_world s)). Qed.

Definition visible (fi : MailboxInfo) : bool := negb (HasPrefix (mi_Name fi) ".").

(** The parts of a mailbox that come from its folder alone. *)
Definition from_folder (fi : MailboxInfo) (mb : Mailbox) : Prop :=
  mb_ID mb = MailboxIDForName (mi_Name fi) /\ mb_Name mb = display_name fi
  /\ mb_Role mb = (let role := DetectRole (mi_Name fi) (mi_Attrs fi) in
                   if negb (String.eqb role EmptyString) then Some role else None)
  /\ mb_TotalEmails mb = mi_Messages fi /\ mb_UnreadEmails mb = mi_Unseen fi
  /\ mb_IsSubscribed mb = mi_IsSubscribed fi.

Lemma mailbox_of_folder c now fi s : from_folder fi (snd (mailbox_of store pc oc c now fi s)).
Proof. unfold mailbox_of. rewrite !St_bind_eq. done. Qed.

Lemma listing_folders c now folders acc s :
  let acc' := snd (fold_state (fun acc fi =>
    if HasPrefix (mi_Name fi) "." then mret acc
    else mb ← mailbox_of store pc oc c now fi; mret (acc ++ [mb])) acc folders s) in
  exists l, acc' = acc ++ l /\ Forall2 from_folder (List.filter visible folders) l.
Proof.
  revert acc s. induction folders as [|fi folders IH]; intros acc s; cbn [fold_state List.filter].
  - exists []. split; [by rewrite app_nil_r|constructor].
  - rewrite St_bind_eq. unfold visible at 1. destruct (HasPrefix (mi_Name fi) "."); cbn [negb]; [apply IH|].
    rewrite St_bind_eq. pose proof (mailbox_of_folder c now fi s) as Hf.
    destruct (mailbox_of store pc oc c now fi s) as [s' mb]. simpl in *.
    destruct (IH (acc ++ [mb]) s') as (l & Hl & Hall). exists (mb :: l). split; [|by constructor].
    rewrite Hl. by rewrite <- app_assoc.
Qed.

Lemma mailbox_cmp_lawful : lawful mailbox_cmp.
Proof.
  apply (lawful_lex (fun a b => Z.compare (mb_SortOrder a) (mb_SortOrder b))
    (fun a b => String.compare (ToLower (mb_Name a)) (ToLower (mb_Name b)))).
  - exact (lawful_key Z.compare mb_SortOrder lawful_Z).
  - exact (lawful_key String.compare (fun m => ToLower (mb_Name m)) lawful_string).
Qed.

(** The state in which the folders are listed. *)
Definition listing_world (c : Ctx) (w : W) : W := fst (im_connect im c (fst (housekeeping c w))).

Lemma GetAllMailboxes_listed c now s s' all :
  GetAllMailboxes im store pc oc housekeeping c now s = (s', Ok all) ->
  exists folders l, snd (im_ListFolders im c (listing_world c (ms_world s))) = Ok folders
    /\ Forall2 from_folder (List.filter visible folders) l
    /\ all = stable_sort (lt_of mailbox_cmp) l.
Proof.
  unfold GetAllMailboxes, listing_world. rewrite St_bind_eq, on_world_eq. cbn [fst snd].
  rewrite St_bind_eq, on_world_eq. cbn [fst snd ms_world ms_overrides ms_moved].
  destruct (snd (im_connect im c _)) as [e|]; [by intros [=]|].
  rewrite St_bind_eq, on_world_eq. cbn [fst snd ms_world ms_overrides ms_moved].
  destruct (snd (im_ListFolders im c _)) as [folders|e]; [|by intros [=]]. rewrite St_bind_eq.
  match goal with |- context [fold_state ?f ?a ?fs ?st] => pose proof (listing_folders c now fs a st) as Hl;
    destruct (fold_state f a fs st) as [s3 acc'] end.
  cbn [fst snd] in *. destruct Hl as (l & -> & Hall). intros [= <- <-]. exists folders, l. done.
Qed.

End Listing.

(** ** The commands an operation sends *)

Inductive imap_cmd : Type :=
| CCreate (folder : string)
| CDelete (folder : string)
| CRename (from to : string)
| CSubscribe (folder : string)
| CUnsubscribe (folder : string).

Section Logged.
Context {W : Type}.

Definition quietly {A} (m : St W A) : St (W * list imap_cmd) A :=
  fun '(w, log) => let '(w', x) := m w in ((w', log), x).
Definition logging {A} (cmd : imap_cmd) (m : St W A) : St (W * list imap_cmd) A :=
  fun '(w, log) => let '(w', x) := m w in ((w', log ++ [cmd]), x).

(** The server with a log of the commands that change it. *)
Definition logged (im : ImapServer W) : ImapServer (W * list imap_cmd) :=
  mkServerOps _ (fun c => quietly (im_connect im c)) (fun c => quietly (im_ListFolders im c))
    (fun c f => logging (CCreate f) (im_Create im c f)) (fun c f => logging (CDelete f) (im_Delete im c f))
    (fun c a b => logging (CRename a b) (im_Rename im c a b))
    (fun c f => logging (CSubscribe f) (im_Subscribe im c f))
    (fun c f => logging (CUnsubscribe f) (im_Unsubscribe im c f)).
Definition logged_store (st : Store W) : Store (W * list imap_cmd) :=
  mkStore _ (fun a k => quietly (st_Get st a k)) (fun a k d => quietly (st_Put st a k d))
    (fun a k => quietly (st_Delete st a k)).
Definition log_of (s : mb_state (W * list imap_cmd)) : list imap_cmd := snd (ms_world s).

End Logged.

(** A computation keeps a property of the log. *)
Definition keeps {S A} (P : S -> Prop) (m : St S A) : Prop := forall s, P s -> P (fst (m s)).

Create HintDb keeps.

Lemma keeps_ret {S A} (P : S -> Prop) (x : A) : keeps P (mret x).
Proof. by intros s. Qed.
Lemma keeps_gets {S A} (P : S -> Prop) (f : S -> A) : keeps P (gets f).
Proof. by intros s. Qed.
Lemma keeps_bind {S A B} (P : S -> Prop) (m : St S A) (f : A -> St S B) :
  keeps P m -> (forall x, keeps P (f x)) -> keeps P (x ← m; f x).
Proof. intros Hm Hf s Hs. rewrite St_bind_eq. apply Hf. by apply Hm. Qed.

Lemma keeps_apply {S A} (P : S -> Prop) (m : St S A) s : keeps P m -> P s -> P (fst (m s)).
Proof. intros Hm. apply Hm. Qed.

#[export] Hint Resolve keeps_ret keeps_gets : keeps.

Section Keeps.
Context `{GoRuntime} {W : Type} (im : ImapServer W) (store : Store W).
Context (pc : Codec (gmap string (option string))) (oc : Codec (gmap string Z)).
Context (hk publish : Ctx -> St W unit) (P : list imap_cmd -> Prop).

Local Abbreviation Q := (fun s : mb_state (W * list imap_cmd) => P (log_of s)).
Local Abbreviation lim := (logged im).
Local Abbreviation lst := (Some (logged_store store)).
Local Abbreviation lhk := (fun c => quietly (hk c)).

Lemma keeps_quiet {A} (m : St W A) : keeps Q (on_world (quietly m)).
Proof. intros [[w log] o mv] Hs. unfold on_world, quietly. simpl. by destruct (m w). Qed.

Lemma keeps_logging {A} cmd (m : St W A) :
  (forall l, P l -> P (l ++ [cmd])) -> keeps Q (on_world (logging cmd m)).
Proof. intros Hcmd [[w log] o mv] Hs. unfold on_world, logging. simpl. destruct (m w). by apply Hcmd. Qed.

Lemma keeps_track a b : keeps Q (track a b).
Proof. by intros s. Qed.

(** Computations on the world and the caches that leave the log alone. *)
Definition log_silent {O A} (m : St ((W * list imap_cmd) * O) A) : Prop :=
  forall w, snd (fst (fst (m w))) = snd (fst w).

Lemma silent_bind {O A B} (m : St ((W * list imap_cmd) * O) A) (f : A -> St _ B) :
  log_silent m -> (forall x, log_silent (f x)) -> log_silent (x ← m; f x).
Proof. intros Hm Hf w. rewrite St_bind_eq, Hf. apply Hm. Qed.

Lemma silent_load {A} (codec : Codec A) key dflt acct now : log_silent (load_locked lst codec key dflt acct now).
Proof.
  intros [[w log] c]. unfold load_locked. destruct (_ && _); [done|]. unfold Load, logged_store, quietly, mbind, St_bind.
  simpl. destruct (st_Get store acct key w) as [w' [d|e]]; simpl; [|done].
  destruct (String.eqb d EmptyString); simpl; [done|]. by destruct (dec codec d).
Qed.

Lemma silent_persist {A} (codec : Codec A) key acct : log_silent (persist_locked lst codec key acct).
Proof.
  intros [[w log] c]. unfold persist_locked. destruct (ca_vals c !! acct) as [v|]; [|done].
  unfold Save, logged_store, quietly. destruct (enc codec v) as [d|]; [|done]. simpl. by destruct (st_Put store acct key d w).
Qed.

Lemma silent_parents {A} (m : St ((W * list imap_cmd) * _) A) : log_silent m -> log_silent (on_parents m).
Proof. intros Hm [w o]. unfold on_parents. specialize (Hm (w, mkCache (mo_parents o) (mo_time o))). by destruct (m _) as [[w' c] x]. Qed.
Lemma silent_orders {A} (m : St ((W * list imap_cmd) * _) A) : log_silent m -> log_silent (on_orders m).
Proof. intros Hm [w o]. unfold on_orders. specialize (Hm (w, mkCache (mo_orders o) (mo_time o))). by destruct (m _) as [[w' c] x]. Qed.
Lemma silent_gets {O A} (f : (W * list imap_cmd) * O -> A) : log_silent (gets f).
Proof. done. Qed.
Lemma silent_modify {O} (f : O -> O) : log_silent (modify (prod_map (fun w : W * list imap_cmd => w) f)).
Proof. by intros [w o]. Qed.

Lemma keeps_overrides {A} (m : St ((W * list imap_cmd) * mailbox_overrides) A) : log_silent m -> keeps Q (on_overrides m).
Proof.
  intros Hm s Hs. unfold on_overrides, log_of in *. specialize (Hm (ms_world s, ms_overrides s)).
  destruct (m _) as [[w o] x]. simpl in *. by rewrite Hm.
Qed.

Lemma keeps_getParent c now id : keeps Q (getParent lst pc c now id).
Proof. apply keeps_overrides, silent_bind; [apply silent_parents, silent_load|intros; apply silent_gets]. Qed.
Lemma keeps_getOrder c now id : keeps Q (getOrder lst oc c now id).
Proof. apply keeps_overrides, silent_bind; [apply silent_orders, silent_load|intros; apply silent_gets]. Qed.
Lemma keeps_setParent c now id p : keeps Q (setParent lst pc c now id p).
Proof.
  apply keeps_overrides, silent_bind; [apply silent_parents, silent_load|intros _].
  apply silent_parents, silent_bind; [apply silent_modify|intros _; apply silent_persist].
Qed.
Lemma keeps_setOrder c now id so : keeps Q (setOrder lst oc c now id so).
Proof.
  apply keeps_overrides, silent_bind; [apply silent_orders, silent_load|intros _].
  apply silent_orders, silent_bind; [apply silent_modify|intros _; apply silent_persist].
Qed.

End Keeps.

#[export] Hint Resolve keeps_quiet keeps_track keeps_getParent keeps_getOrder keeps_setParent keeps_setOrder : keeps.

(** One step of a proof that a computation keeps a property. *)
Ltac keeps_step :=
  first [ solve [auto with keeps] | apply keeps_bind; [|intros ?]
        | match goal with
          | |- keeps _ (match ?x with _ => _ end) => destruct x
          | |- keeps _ (on_world (match ?x with _ => _ end)) => destruct x
          end ].
Ltac keeps := repeat keeps_step.

Section Operations.
Context `{GoRuntime} {W : Type} (im : ImapServer W) (store : Store W).
Context (pc : Codec (gmap string (option string))) (oc : Codec (gmap string Z)).
Context (hk publish : Ctx -> St W unit).

Local Abbreviation lim := (logged im).
Local Abbreviation lst := (Some (logged_store store)).
Local Abbreviation lhk := (fun c => quietly (hk c)).
Local Abbreviation lpub := (fun c => quietly (publish c)).

Lemma keeps_override_or_role {V} (P : list imap_cmd -> Prop)
    (lookup : string -> St (mb_state (W * list imap_cmd)) (option V)) mbID role :
  (forall id, keeps (fun s => P (log_of s)) (lookup id)) ->
  keeps (fun s => P (log_of s)) (override_or_role lookup mbID role).
Proof. intros Hl. unfold override_or_role. apply keeps_bind; [done|]. intros [v|]; keeps. Qed.

Lemma keeps_fold {A B} (P : list imap_cmd -> Prop) (f : B -> A -> St (mb_state (W * list imap_cmd)) B) acc l :
  (forall b x, keeps (fun s => P (log_of s)) (f b x)) -> keeps (fun s => P (log_of s)) (fold_state f acc l).
Proof.
  intros Hf. revert acc. induction l as [|x l IH]; intros acc; simpl; [auto with keeps|].
  apply keeps_bind; [done|]. intros b. apply IH.
Qed.

(** Listing the mailboxes sends no command that changes the server. *)
Lemma keeps_GetAll (P : list imap_cmd -> Prop) c now :
  keeps (fun s => P (log_of s)) (GetAllMailboxes lim lst pc oc lhk c now).
Proof.
  unfold GetAllMailboxes. simpl. keeps. apply keeps_fold. intros acc fi. unfold mailbox_of. keeps;
    apply keeps_override_or_role; intros; auto with keeps.
Qed.

Lemma GetAll_log c now s : log_of (fst (GetAllMailboxes lim lst pc oc lhk c now s)) = log_of s.
Proof. exact (keeps_GetAll (fun l => l = log_of s) c now s eq_refl). Qed.

(** The metadata part changes neither id, name nor role. *)
Lemma update_metadata_identity c now origID folder t patch s :
  let t' := snd (update_metadata lim lst oc c now origID folder t patch s) in
  mb_ID t' = mb_ID t /\ mb_Name t' = mb_Name t /\ mb_Role t' = mb_Role t.
Proof.
  unfold update_metadata. rewrite St_bind_eq.
  match goal with |- context [snd (?m s)] => assert (Hm : mb_ID (snd (m s)) = mb_ID t
    /\ mb_Name (snd (m s)) = mb_Name t /\ mb_Role (snd (m s)) = mb_Role t) end.
  { destruct (get_num patch "sortOrder"); rewrite ?St_bind_eq; [done|].
    by destruct (snd (getOrder lst oc c now (mb_ID t) s)). }
  destruct (get_bool patch "isSubscribed"); [|exact Hm]. rewrite !St_bind_eq. exact Hm.
Qed.

Definition no_rename (l : list imap_cmd) : Prop := forall a b, CRename a b ∉ l.

Lemma no_rename_app l cmd : (forall a b, cmd <> CRename a b) -> no_rename l -> no_rename (l ++ [cmd]).
Proof. intros Hc Hl a b [Hx|Hx%list_elem_of_singleton]%elem_of_app; [by apply (Hl a b)|by apply (Hc a b)]. Qed.

Lemma keeps_metadata c now origID folder t patch :
  keeps (fun s => no_rename (log_of s)) (update_metadata lim lst oc c now origID folder t patch).
Proof.
  unfold update_metadata. simpl. keeps; apply (keeps_logging no_rename); intros; by apply no_rename_app.
Qed.

(** A folder the gateway names as the server does. *)
Definition plain_folder (fi : MailboxInfo) : Prop :=
  mi_Delimiter fi = Some "/"%char /\ clean_name (mi_Name fi) = true
  /\ NameForMailboxID (MailboxIDForName (mi_Name fi)) = Ok (mi_Name fi).

(** Without a new name and a new parent the path of a plain folder stays. *)
Lemma path_unchanged fi mb patch :
  plain_folder fi -> from_folder fi mb -> is_inbox (mi_Name fi) mb = false ->
  get_str patch "name" = None -> obj_get patch "parentId" = None ->
  new_folder_path (mi_Name fi) mb patch = mi_Name fi.
Proof.
  intros (Hd & Hc & Hn) (_ & Hname & _) Hin Hp1 Hp2. unfold new_folder_path, new_leaf_name, patched_parent.
  rewrite Hp1, Hp2.
  assert (Hdisp : mb_Name mb = match parent_of fi with
    | Some _ => List.last (Split (mi_Name fi) "/") EmptyString | None => mi_Name fi end).
  { unfold is_inbox in Hin. rewrite Hname in Hin |- *. unfold display_name in Hin |- *. rewrite Hd in Hin |- *.
    destruct (parent_of fi); simpl in Hin |- *;
      match goal with |- (if ?b then _ else _) = _ => destruct b eqn:E end; try done.
    change (EqualFold "Inbox" "INBOX") with true in Hin. by rewrite orb_true_r in Hin. }
  rewrite Hdisp. clear Hdisp. unfold parent_of. rewrite Hd.
  destruct (LastIndexByte (mi_Name fi) "/") as [[|idx]|] eqn:E; cbn match; [done| |done].
  destruct (LastIndexByte_cut _ _ _ E) as (t & Ht & Hl).
  set (p := str_take (S idx) (mi_Name fi)) in *.
  assert (Hp : p <> EmptyString).
  { unfold p. destruct (mi_Name fi); [done|]. done. }
  rewrite (proj2 (String.eqb_neq _ _) Hp). cbn [negb]. rewrite Ht.
  rewrite (Split_app_sep "/"), (Split_lacks "/" t Hl), last_last.
  apply Join2_cut; [done|]. by rewrite <- Ht.
Qed.

(** A mailbox of the list comes from a folder of the server. *)
Lemma listed_from_folder c now s s' all mb :
  GetAllMailboxes lim lst pc oc lhk c now s = (s', Ok all) -> mb ∈ all ->
  exists w folders fi, snd (im_ListFolders im c w) = Ok folders /\ fi ∈ folders /\ from_folder fi mb.
Proof.
  intros Hg Hmb. destruct (GetAllMailboxes_listed lim lst pc oc lhk c now s s' all Hg) as (folders & l & Hf & Hall & ->).
  rewrite (proj1 (stable_sort_spec mailbox_cmp mailbox_cmp_lawful l)) in Hmb.
  destruct (listing_world lim lhk c (ms_world s)) as [w log]. simpl in Hf. unfold quietly in Hf.
  exists w, folders. apply list_elem_of_lookup in Hmb as [i Hi].
  destruct (Forall2_lookup_r _ _ _ _ _ Hall Hi) as (fi & Hfi & Hff). exists fi.
  split; [by destruct (im_ListFolders im c w)|]. split; [|done].
  apply list_elem_of_lookup_2 in Hfi. apply list_elem_of_In, filter_In in Hfi as [Hfi _]. by apply list_elem_of_In.
Qed.

Lemma target_folder fi mb folderName :
  plain_folder fi -> from_folder fi mb -> folder_of_target mb folderName = mi_Name fi.
Proof.
  intros (_ & Hc & Hn) (Hid & _). unfold folder_of_target. rewrite Hid, Hn.
  destruct (clean_name_not_rooted _ Hc) as [_ Hne]. by rewrite (proj2 (String.eqb_neq _ _) Hne).
Qed.

Lemma target_renames_nothing c now origID id folder fi t patch s :
  plain_folder fi -> from_folder fi t -> get_str patch "name" = None -> obj_get patch "parentId" = None ->
  folder = mi_Name fi -> no_rename (log_of s) ->
  no_rename (log_of (fst (update_target lim lst pc oc lpub c now origID id folder t patch s))).
Proof.
  intros Hplain Hfrom Hp1 Hp2 -> Hs. unfold update_target. rewrite St_bind_eq.
  pose proof (keeps_metadata c now origID (mi_Name fi) t patch s Hs) as Hs1.
  pose proof (update_metadata_identity c now origID (mi_Name fi) t patch s) as (Hi & Hn & Hr).
  destruct (update_metadata lim lst oc c now origID (mi_Name fi) t patch s) as [s1 t1]. cbn [fst snd] in *.
  assert (Hpp : patched_parent patch = None) by (unfold patched_parent; by rewrite Hp2). rewrite Hpp.
  destruct (is_inbox (mi_Name fi) t1) eqn:Ein.
  { apply (keeps_apply (fun s => no_rename (log_of s))); [keeps|done]. }
  assert (Hpath : new_folder_path (mi_Name fi) t1 patch = mi_Name fi).
  { rewrite <- (path_unchanged fi t patch Hplain Hfrom) at 2; [|by unfold is_inbox in Ein |- *; rewrite <- Hn, <- Hr|done|done].
    unfold new_folder_path, new_leaf_name. by rewrite Hn. }
  cbv zeta. rewrite Hpath, String.eqb_refl. cbn [negb]. rewrite St_bind_eq. cbn [fst snd mret St_ret].
  apply (keeps_apply (fun s => no_rename (log_of s))); [keeps|done].
Qed.

End Operations.

(** ** Properties *)

(** the list of mailboxes is the list of the visible folders: one mailbox
    for each folder whose name does not start with a dot, with the id, the
    display name, the role, the counts and the subscription of that folder,
    and the list is ordered by sort order and then by name without regard to
    case. *)
Theorem mailboxes_are_the_folders `{GoRuntime} {W} (im : ImapServer W) store pc oc hk c now s s' all :
  GetAllMailboxes im store pc oc hk c now s = (s', Ok all) ->
  exists folders l, snd (im_ListFolders im c (listing_world im hk c (ms_world s))) = Ok folders
    /\ Forall2 from_folder (List.filter visible folders) l /\ all ≡ₚ l
    /\ StronglySorted (fun a b => mailbox_cmp a b <> Gt) all.
Proof.
  intros Hg. destruct (GetAllMailboxes_listed im store pc oc hk c now s s' all Hg) as (folders & l & Hf & Hall & ->).
  exists folders, l. destruct (stable_sort_spec mailbox_cmp mailbox_cmp_lawful l) as (Hp & Hs & _). done.
Qed.

(** A server that is its list of folders, to evaluate with. *)
Definition folder_server : ImapServer (list MailboxInfo) :=
  let named f fi := String.eqb (mi_Name fi) f in
  let on f g := map (fun fi => if named f fi then g fi else fi) in
  let sub b fi := mkInfo (mi_Name fi) (mi_Attrs fi) (mi_Delimiter fi) (mi_Messages fi) (mi_Unseen fi) b in
  mkServerOps _ (fun _ w => (w, None)) (fun _ w => (w, Ok w))
    (fun _ f w => if existsb (named f) w then (w, Some "exists")
                  else (w ++ [mkInfo f [] (Some "/"%char) 0 0 false], None))
    (fun _ f w => if existsb (named f) w then (List.filter (fun fi => negb (named f fi)) w, None) else (w, Some "missing"))
    (fun _ a b w => if existsb (named a) w
                    then (on a (fun fi => mkInfo b (mi_Attrs fi) (mi_Delimiter fi) (mi_Messages fi) (mi_Unseen fi)
                                            (mi_IsSubscribed fi)) w, None) else (w, Some "missing"))
    (fun _ f w => (on f (sub true) w, None)) (fun _ f w => (on f (sub false) w, None)).
Definition silent {W} (_ : Ctx) : St W unit := mret tt.
Definition folder (name : string) (delim : ascii) (messages : Z) : MailboxInfo :=
  mkInfo name [] (Some delim) messages 0 true.
Definition start_with {W} (w : W) : mb_state W := mkMbState w (mkOverrides ∅ ∅ ∅) ∅.
Definition no_store {W} : Store W :=
  mkStore _ (fun _ _ w => (w, Ok EmptyString)) (fun _ _ _ w => (w, None)) (fun _ _ w => (w, None)).

Lemma mailboxes_are_the_folders_witness :
  let w := [folder "INBOX" "/" 3; folder ".jmap" "/" 1; folder "Work" "/" 0] in
  exists s all, GetAllMailboxes (H := ascii_runtime) folder_server None number_codec number_codec silent Background 0
                  (start_with w) = (s, Ok all)
    /\ map mb_Name all = ["Inbox"; "Work"]
    /\ StronglySorted (fun a b => mailbox_cmp (H := ascii_runtime) a b <> Gt) all.
Proof.
  intros w. eexists _, _. split; [vm_compute; reflexivity|]. split; [reflexivity|].
  edestruct (mailboxes_are_the_folders (H := ascii_runtime) folder_server None number_codec number_codec silent
    Background 0 (start_with w)) as (folders & l & _ & _ & _ & Hs); [vm_compute; reflexivity|exact Hs].
Defined.

(** changing the sort order or the subscription of a mailbox does not
    rename its folder.  When the server uses [/] between the parts of a name,
    no name has an empty, dot or dot-dot part, and each folder is spelled the
    way its id decodes, an update without a name and a parent sends no RENAME,
    whatever else the patch contains and whatever the server answers. *)
Theorem metadata_update_never_renames `{GoRuntime} {W} (im : ImapServer W) store pc oc hk publish c now origID patch s :
  (forall w folders fi, snd (im_ListFolders im c w) = Ok folders -> fi ∈ folders -> plain_folder fi) ->
  get_str patch "name" = None -> obj_get patch "parentId" = None -> no_rename (log_of s) ->
  no_rename (log_of (fst (UpdateMailbox (logged im) (Some (logged_store store)) pc oc
    (fun c => quietly (hk c)) (fun c => quietly (publish c)) c now origID patch s))).
Proof.
  intros Hplain Hp1 Hp2 Hs. unfold UpdateMailbox. rewrite St_bind_eq. cbn [resolve gets fst snd].
  destruct (resolveMovedMailboxID _ _ origID) as [id|]; [|done]. cbv zeta. rewrite St_bind_eq.
  pose proof (GetAll_log im store pc oc hk c now s) as Hl.
  destruct (GetAllMailboxes _ _ _ _ _ c now s) as [s1 [all|e]] eqn:Eg; cbn [fst snd] in *; [|by rewrite <- Hl in Hs].
  rewrite <- Hl in Hs. destruct (List.find _ all) as [target|] eqn:Ef; [|done].
  apply find_some in Ef as [Hin%list_elem_of_In _].
  destruct (listed_from_folder im store pc oc hk c now s s1 all target Eg Hin) as (w & folders & fi & Hw & Hfi & Hff).
  destruct (ValidatePatch _ _ _); [done|].
  pose proof (Hplain w folders fi Hw Hfi) as Hpf.
  apply (target_renames_nothing im store pc oc publish c now origID id _ fi); try done.
  by apply target_folder.
Qed.

Lemma plain_example fi folders :
  forallb (fun fi => bool_decide (mi_Delimiter fi = Some "/"%char) && clean_name (mi_Name fi)
    && match NameForMailboxID (MailboxIDForName (H := ascii_runtime) (mi_Name fi)) with
       | Ok n => String.eqb n (mi_Name fi) | Err _ => false end) folders = true ->
  fi ∈ folders -> plain_folder (H := ascii_runtime) fi.
Proof.
  intros Hall Hfi. rewrite forallb_forall in Hall. apply list_elem_of_In in Hfi. apply Hall in Hfi.
  apply andb_prop in Hfi as [[H1%bool_decide_eq_true H2]%andb_prop H3]. split_and!; [done|done|].
  destruct (NameForMailboxID _) as [n|e]; [|done]. by apply String.eqb_eq in H3 as ->.
Qed.

Lemma metadata_update_never_renames_witness :
  let w := [folder "INBOX" "/" 3; folder "Work/Plans" "/" 2] in
  let server := mkServerOps _ (fun _ s => (s, None)) (fun _ s => (s, Ok w))
    (fun _ _ s => (s, None)) (fun _ _ s => (s, None)) (fun _ _ _ s => (s, None))
    (fun _ _ s => (s, None)) (fun _ _ s => (s, None)) in
  no_rename (log_of (fst (UpdateMailbox (H := ascii_runtime) (logged server) (Some (logged_store no_store)) number_codec
    number_codec (fun c => quietly (silent c)) (fun c => quietly (silent c)) Background 0
    (MailboxIDForName (H := ascii_runtime) "Work/Plans") [("sortOrder", jint 5); ("isSubscribed", JBool false)]
    (start_with (tt, []))))).
Proof.
  intros w server.
  apply (metadata_update_never_renames (H := ascii_runtime) server no_store number_codec number_codec silent silent Background 0).
  - intros w0 folders fi [= <-] Hfi. by apply (plain_example fi w).
  - reflexivity.
  - reflexivity.
  - intros a b Hx. by apply elem_of_nil in Hx.
Defined.

(** on a server that separates the parts of a name by a dot, setting the
    sort order of a nested mailbox moves its folder to the top level: the path
    is taken apart at [/] only, so the parent of [Work.Plans] is lost. *)
Theorem dotted_folder_moved_by_metadata_update :
  let w := [folder "INBOX" "." 3; folder "Work" "." 0; folder "Work.Plans" "." 2] in
  let '(s, res) := UpdateMailbox (H := ascii_runtime) (logged folder_server) None number_codec number_codec
    (fun c => quietly (silent c)) (fun c => quietly (silent c)) Background 0
    (MailboxIDForName (H := ascii_runtime) "Work.Plans") [("sortOrder", jint 5)] (start_with (w, [])) in
  log_of s = [CRename "Work.Plans" "Plans"; CSubscribe "Plans"]
  /\ map mi_Name (fst (ms_world s)) = ["INBOX"; "Work"; "Plans"].
Proof. vm_compute. done. Qed.

(** deleting a mailbox can delete another one.  The target of a deletion
    is the first mailbox with the id or with the name of the folder, and the
    names compared are the last parts: a request to delete [Work] deletes
    [Archive/Work], with its messages, and keeps [Work]. *)
Theorem delete_takes_namesake :
  let w := [folder "INBOX" "/" 3; folder "Archive/Work" "/" 7; folder "Work" "/" 0] in
  let '(s, res) := DeleteMailbox (H := ascii_runtime) (logged folder_server) None number_codec number_codec
    (fun c => quietly (silent c)) (fun c => quietly (silent c)) Background 0
    (MailboxIDForName (H := ascii_runtime) "Work") false (start_with (w, [])) in
  res = Returns true /\ log_of s = [CDelete "Archive/Work"]
  /\ map mi_Name (fst (ms_world s)) = ["INBOX"; "Work"].
Proof. vm_compute. done. Qed.

(** the flag [onDestroyRemoveMessages] makes no difference: a mailbox is
    deleted with its messages whether or not the client agreed to that. *)
Theorem delete_ignores_remove_messages `{GoRuntime} {W} (im : ImapServer W) store pc oc hk publish c now id s :
  DeleteMailbox im store pc oc hk publish c now id true s = DeleteMailbox im store pc oc hk publish c now id false s
  /\ (let w := [folder "INBOX" "/" 3; folder "Work" "/" 7] in
      let '(s', res) := DeleteMailbox (H := ascii_runtime) (logged folder_server) None number_codec number_codec
        (fun c => quietly (silent c)) (fun c => quietly (silent c)) Background 0
        (MailboxIDForName (H := ascii_runtime) "Work") false (start_with (w, [])) in
      res = Returns true /\ log_of s' = [CDelete "Work"]).
Proof. split; [done|]. vm_compute. done. Qed.
