(* ===== verification/Mailboxes.v ===== *)
(** * Mailbox methods

    [jmap/jmapmail/mailbox_handlers.go]: Mailbox/get, changes, set, query,
    queryChanges and copy over a mail backend.  The backend is a record of its
    mailbox operations; [ImapMailboxes] is the one the server runs on. *)

From S2P Require Import Prelude GoSort GoStrings GoState Json Envelope CreationRefs Query Handler Server MailTypes ImapConvert ImapStores ExtStore ImapMailboxes MethodSupport.
From Stdlib Require Import Ascii SpecFloat.

(** ** The backend *)

(** The mailbox operations of [MailBackend].  [GetMailboxes] returns the list,
    the ids not found and the error, [MailboxChanges] the created, updated and
    destroyed ids, the updated properties, the new state and whether there are
    more changes. *)
Record MailboxOps (W : Type) : Type := mkMailboxOps {
  mo_State : Ctx -> W -> string;
  mo_Changes : Ctx -> string -> option Z -> St W (list string * list string * list string * list string * string * bool);
  mo_Get : Ctx -> list string -> St W (list Mailbox * list string * option go_error);
  mo_GetAll : Ctx -> St W (list Mailbox * option go_error);
  mo_Create : Ctx -> Mailbox -> St W (result go_error Mailbox);
  mo_Update : Ctx -> string -> obj -> St W (result go_error Mailbox);
  mo_Delete : Ctx -> string -> bool -> St W (result go_error bool);
}.
Arguments mo_State {W} _ _ _.
Arguments mo_Changes {W} _ _ _ _ _.
Arguments mo_Get {W} _ _ _ _.
Arguments mo_GetAll {W} _ _ _.
Arguments mo_Create {W} _ _ _ _.
Arguments mo_Update {W} _ _ _ _ _.
Arguments mo_Delete {W} _ _ _ _ _.

Definition allowedMailboxProperties : list string :=
  ["id"; "name"; "parentId"; "role"; "sortOrder"; "totalEmails"; "unreadEmails"; "totalThreads"; "unreadThreads";
   "myRights"; "isSubscribed"; "shareWith"].

(** ** Filter and sort *)

Section Filter.
Context `{GoRuntime}.

(** A FilterCondition *)
Definition match_mailbox (mb : Mailbox) (filter : obj) : bool :=
  match obj_get filter "parentId" with
  | Some JNull => match mb_ParentID mb with Some _ => false | None => true end
  | Some (JStr p) => match mb_ParentID mb with Some q => String.eqb q p | None => false end
  | _ => true
  end
  && match get_str filter "name" with Some n => String.eqb (mb_Name mb) n | None => true end
  && match get_str filter "role" with
     | Some r => match mb_Role mb with Some q => String.eqb q r | None => false end
     | None => true
     end
  && match get_bool filter "hasAnyRole" with
     | Some b => Bool.eqb (match mb_Role mb with Some r => negb (String.eqb r EmptyString) | None => false end) b
     | None => true
     end
  && match get_bool filter "isSubscribed" with Some b => Bool.eqb (mb_IsSubscribed mb) b | None => true end.

Fixpoint matches_mailbox (fuel : nat) (mb : Mailbox) (filter : obj) : bool :=
  match filter with
  | [] => true
  | _ =>
      match EvalFilterOperator (Some filter)
              (match fuel with O => fun _ => false | S f => matches_mailbox f mb end) with
      | (match_, true) => match_
      | (_, false) => match_mailbox mb filter
      end
  end.
Definition MatchesMailboxFilter (mb : Mailbox) (filter : obj) : bool :=
  matches_mailbox (json_depth (JObj filter)) mb filter.

(** A nil filter is the empty one. *)
Definition filterMailboxes (all : list Mailbox) (filter : obj) : list Mailbox :=
  List.filter (fun mb => MatchesMailboxFilter mb filter) all.
End Filter.

Definition MailboxSortableProperties : list string := ["sortOrder"; "name"].

Definition mailbox_by (property : string) (a b : Mailbox) : comparison :=
  if String.eqb property "sortOrder" then (mb_SortOrder a ?= mb_SortOrder b)
  else if String.eqb property "name" then String.compare (mb_Name a) (mb_Name b)
  else Eq.

(** The first comparator that tells the two apart decides. *)
Fixpoint mailbox_order (comparators : list Comparator) (a b : Mailbox) : comparison :=
  match comparators with
  | [] => Eq
  | c :: rest =>
      match mailbox_by (c_Property c) a b with
      | Eq => mailbox_order rest a b
      | r => if c_IsAscending c then r else CompOpp r
      end
  end.

Definition default_mailbox_order : list Comparator :=
  [mkComparator "sortOrder" true EmptyString EmptyString; mkComparator "name" true EmptyString EmptyString].

Definition SortMailboxes (all : list Mailbox) (comparators : list Comparator) : list Mailbox :=
  let usable := existsb (fun c => String.eqb (c_Property c) "sortOrder" || String.eqb (c_Property c) "name") comparators in
  stable_sort (lt_of (mailbox_order (if usable then comparators else default_mailbox_order))) all.

(** ** Methods *)

Section Methods.
Context `{GoRuntime} {W : Type}.
Variable b : MailboxOps W.
Variable order : MapOrder.

Definition state_now (c : Ctx) : St (HState W) string := gets (fun s => mo_State b c (fst s)).

Definition HandleMailboxGet : BackendHandler W := fun c args =>
  let accountID := str_or_empty args "accountId" in
  let props := ParseProperties args in
  match ValidateProperties props (Some allowedMailboxProperties) None with
  | (false, bad) => mret ("error", InvalidArgumentsErrorArgs ["properties"] ("invalid property: " +:+ bad))
  | (true, _) =>
      let answer (found : list Mailbox) (notFound : list string) (err : option go_error) : St (HState W) (string * obj) :=
        let found := match err with Some _ => [] | None => found end in
        st ← state_now c;
        mret ("Mailbox/get",
              [("accountId", JStr accountID); ("state", JStr st);
               ("list", JArr (FilterList (map mailbox_json found) props)); ("notFound", jstrs notFound)]) in
      match ParseIDs args with
      | Some ids =>
          r ← back (mo_Get b c ids);
          let '(found, notFound, err) := r in answer found notFound err
      | None =>
          r ← back (mo_GetAll b c);
          let '(found, err) := r in
          match ValidateGetLimits c (Z.of_nat (length found)) with
          | Some e => mret e
          | None => answer found [] err
          end
      end
  end.

Definition HandleMailboxChanges : BackendHandler W := fun c args =>
  let accountID := str_or_empty args "accountId" in
  let sinceState := str_or_empty args "sinceState" in
  match ParseMaxChanges args with
  | Err errArgs => mret ("error", errArgs)
  | Ok maxChanges =>
      r ← back (mo_Changes b c sinceState maxChanges);
      let '(created, updated, destroyed, updatedProperties, newState, hasMore) := r in
      mret ("Mailbox/changes",
            changes_response accountID sinceState newState hasMore created updated destroyed
            ++ match updatedProperties, created, destroyed with
               | _ :: _, [], [] => [("updatedProperties", jstrs updatedProperties)]
               | _, _, _ => []
               end)
  end.

(** *** Mailbox/set: create *)

Definition zero_number (j : json) : bool :=
  match j with JNum n => SFeqb n (S754_zero false) | _ => false end.

Definition valid_sort_order (j : json) : bool :=
  match j with
  | JNum so => negb (SFltb so (S754_zero false)) && SFltb so (f64_of_Z (2 ^ 31))
               && SFeqb so (f64_of_Z (f64_to_int so))
  | _ => false
  end.

Definition invalid_rights (m : obj) : list string :=
  match obj_get m "myRights" with
  | None => []
  | Some (JObj mr) =>
      flat_map (fun kv => match snd kv with JBool true => [] | _ => ["myRights/" +:+ fst kv] end) (range_map order mr)
  | Some _ => ["myRights"]
  end.

Definition invalid_properties (m : obj) : list string :=
  let check k (ok : json -> bool) :=
    match obj_get m k with Some v => if ok v then [] else [k] | None => [] end in
  check "id" (fun _ => false)
  ++ check "totalEmails" zero_number ++ check "unreadEmails" zero_number
  ++ check "totalThreads" zero_number ++ check "unreadThreads" zero_number
  ++ invalid_rights m
  ++ check "sortOrder" valid_sort_order
  ++ (if String.eqb (str_or_empty m "name") EmptyString then ["name"] else []).

(** The role must be new to the account. *)
Definition check_role (all : list Mailbox) (m : obj) : option SetError :=
  match get_present m "role" with
  | None => None
  | Some (JStr role) =>
      if String.eqb role EmptyString then Some (property_error "invalidProperties" EmptyString ["role"])
      else if existsb (fun e => match mb_Role e with Some r => EqualFold r role | None => false end) all
      then Some (property_error "invalidProperties" "an account cannot have two mailboxes with the same role" ["role"])
      else None
  | Some _ => Some (property_error "invalidProperties" EmptyString ["role"])
  end.

Definition requested_parent (m : obj) : option string :=
  match get_str m "parentId" with
  | Some pid => if String.eqb pid EmptyString then None else Some pid
  | None => None
  end.

Definition same_parent (p q : option string) : bool :=
  match p, q with None, None => true | Some p, Some q => String.eqb p q | _, _ => false end.

Definition check_sibling (all : list Mailbox) (parent : option string) (name : string) : option SetError :=
  if existsb (fun e => same_parent (mb_ParentID e) parent && EqualFold (mb_Name e) name) all
  then Some (property_error "alreadyExists" "two sibling mailboxes cannot have the same name and parent" ["name"])
  else None.

Definition requested_mailbox (m : obj) : Mailbox :=
  let role := match get_str m "role" with
              | Some r => if String.eqb r EmptyString then None else Some r
              | None => None
              end in
  mkMailbox EmptyString (str_or_empty m "name") (requested_parent m) role
    (match get_num m "sortOrder" with Some so => f64_to_uint64 so | None => 10 end)
    0 0 0 0 no_rights (bool_or_false m "isSubscribed").

Definition create_mailbox (c : Ctx) (_ : string) (m : obj) : St W (result create_error (string * json)) :=
  match invalid_properties m with
  | (_ :: _) as props => mret (Err (ESet (property_error "invalidProperties" EmptyString props)))
  | [] =>
      r ← mo_GetAll b c;
      let all := fst r in
      match check_role all m with
      | Some e => mret (Err (ESet e))
      | None =>
          match check_sibling all (requested_parent m) (str_or_empty m "name") with
          | Some e => mret (Err (ESet e))
          | None =>
              r ← mo_Create b c (requested_mailbox m);
              mret (match r with
                    | Err e => Err (create_error_of e)
                    | Ok mb => Ok (mb_ID mb, mailbox_json mb)
                    end)
          end
      end
  end.

(** *** Mailbox/set: update and destroy *)

Definition parent_is (patch : obj) (id : string) : bool :=
  match get_str patch "parentId" with
  | Some p => negb (String.eqb p EmptyString) && String.eqb p id
  | None => false
  end.

Definition mailbox_update_error (e : go_error) : SetError :=
  match e with
  | GNotFound msg => set_error "notFound" msg
  | GSetError e => e
  | GError msg => set_error "invalidProperties" msg
  end.

Definition update_mailbox (c : Ctx) (refs : refmap) (acc : set_acc) (kv : string * json) : St (HState W) set_acc :=
  let rawPatch := match snd kv with JObj m => m | _ => [] end in
  let patch := ResolvePatchCreationRefs rawPatch refs in
  let resolvedID := ResolveCreationID (fst kv) refs in
  if parent_is patch resolvedID
  then mret (acc_failed acc resolvedID
               (property_error "invalidProperties" "mailbox parentId cannot form a loop" ["parentId"]))
  else
    r ← back (mo_Update b c resolvedID patch);
    mret (match r with
          | Err e => acc_failed acc resolvedID (mailbox_update_error e)
          | Ok _ => acc_done acc resolvedID JNull
          end).

Definition destroy_mailbox (c : Ctx) (refs : refmap) (removeEmails : bool) (acc : destroy_acc) (idStr : string)
  : St (HState W) destroy_acc :=
  let resolvedID := ResolveCreationID idStr refs in
  r ← back (mo_Delete b c resolvedID removeEmails);
  mret (match r with
        | Err (GSetError e) => destroy_failed acc resolvedID e
        | Err e => destroy_failed acc resolvedID (set_error "serverFail" (err_Error e))
        | Ok false => destroy_failed acc resolvedID (set_error "notFound" "mailbox not found")
        | Ok true => destroy_done acc resolvedID
        end).

Definition HandleMailboxSet : BackendHandler W := fun c args =>
  let accountID := str_or_empty args "accountId" in
  oldState ← state_now c;
  if state_mismatch args "ifInState" oldState
  then mret ("error", MethodErrorArgs "stateMismatch" "state mismatch")
  else
    refs ← new_refs;
    r ← run_creates order (create_mailbox c) args refs;
    let '(refs, created, notCreated) := r in
    u ← range_obj order (get_obj args "update") (update_mailbox c refs) (mkAcc [] []);
    let removeEmails := bool_or_false args "onDestroyRemoveMessages" || bool_or_false args "onDestroyRemoveEmails" in
    d ← range_strings (get_arr args "destroy") (destroy_mailbox c refs removeEmails) (mkDestroy [] []);
    newState ← state_now c;
    mret ("Mailbox/set", set_response accountID oldState newState created notCreated u d).

(** *** Mailbox/query and queryChanges *)

(** The ids of the mailboxes that match, in order. *)
Definition mailbox_results (all : list Mailbox) (args : obj) : list string :=
  map mb_ID (SortMailboxes (filterMailboxes all (default [] (get_obj args "filter"))) (ParseComparators args)).

Definition HandleMailboxQuery : BackendHandler W := fun c args =>
  let accountID := str_or_empty args "accountId" in
  r ← back (mo_GetAll b c);
  match ValidateComparators (ParseComparators args) MailboxSortableProperties with
  | (String _ _ as errType, errMsg) => mret ("error", MethodErrorArgs errType errMsg)
  | (EmptyString, _) =>
      let ids := mailbox_results (fst r) args in
      let '(position, posErr) := ParseQueryPosition args in
      if negb (String.eqb posErr EmptyString)
      then mret ("error", InvalidArgumentsErrorArgs ["position"] posErr)
      else
        let '(anchor, anchorOffset, anchorErr) := ParseQueryAnchor args in
        if negb (String.eqb anchorErr EmptyString)
        then mret ("error", InvalidArgumentsErrorArgs ["anchor"] anchorErr)
        else if match get_num args "limit" with Some l => SFltb l (S754_zero false) | None => false end
        then mret ("error", InvalidArgumentsErrorArgs ["limit"] "limit must be non-negative")
        else
          let total := Z.of_nat (length ids) in
          match query_page args (NormalizePosition position total) anchor anchorOffset ids with
          | None => mret ("error", MethodErrorArgs "anchorNotFound" "anchor is not in query results")
          | Some (position, paged) =>
              let position := match paged with [] => 0 | _ => position end in
              st ← state_now c;
              mret ("Mailbox/query",
                    [("accountId", JStr accountID); ("queryState", JStr st); ("canCalculateChanges", JBool true);
                     ("position", jint position); ("ids", jstrs paged); ("total", jint total)]
                    ++ (if bool_or_false args "calculateTotal" then [("calculateTotal", JBool true)] else []))
          end
  end.

Definition HandleMailboxQueryChanges : BackendHandler W := fun c args =>
  let accountID := str_or_empty args "accountId" in
  let upToID := str_or_empty args "upToId" in
  let sinceState := str_or_empty args "sinceQueryState" in
  match ValidateComparators (ParseComparators args) MailboxSortableProperties with
  | (String _ _ as errType, errMsg) => mret ("error", MethodErrorArgs errType errMsg)
  | (EmptyString, _) =>
      r ← back (mo_Changes b c sinceState None);
      let '(createdIDs, updatedIDs, destroyedIDs, _, newState, hasMore) := r in
      if hasMore : bool
      then mret ("error", MethodErrorArgs "cannotCalculateChanges" "sinceQueryState is too old")
      else
        r ← back (mo_GetAll b c);
        let '(added, removed) :=
          ComputeQueryChanges createdIDs updatedIDs destroyedIDs (mailbox_results (fst r) args) upToID in
        mret ("Mailbox/queryChanges",
              [("accountId", JStr accountID); ("oldQueryState", JStr sinceState); ("newQueryState", JStr newState);
               ("added", added_json added); ("removed", jstrs removed)]
              ++ (if String.eqb upToID EmptyString then [] else [("upToId", JStr upToID)]))
  end.

(** *** Mailbox/copy *)

Definition copied_mailbox (source : Mailbox) (mbData : obj) (refs : refmap) : Mailbox :=
  let name := match get_str mbData "name" with
              | Some n => if String.eqb n EmptyString then mb_Name source else n
              | None => mb_Name source
              end in
  let parent := match get_str mbData "parentId" with
                | Some p => if String.eqb p EmptyString then None else Some (ResolveCreationID p refs)
                | None => mb_ParentID source
                end in
  mkMailbox EmptyString name parent (mb_Role source) (mb_SortOrder source) (mb_TotalEmails source)
    (mb_UnreadEmails source) (mb_TotalThreads source) (mb_UnreadThreads source) (mb_MyRights source)
    (mb_IsSubscribed source).

Definition copy_mailbox (c srcCtx : Ctx) (acc : copy_acc) (kv : string * json) : St (HState W) copy_acc :=
  let '(clientKey, raw) := kv in
  match raw with
  | JObj mbData =>
      let idStr := str_or_empty mbData "id" in
      if String.eqb idStr EmptyString
      then mret (copy_failed acc clientKey (set_error "invalidProperties" "missing id"))
      else
        let resolvedID := ResolveCreationID idStr (ca_refs acc) in
        r ← back (mo_Get b srcCtx [resolvedID]);
        match r with
        | (source :: _, [], _) =>
            r ← back (mo_Create b c (copied_mailbox source mbData (ca_refs acc)));
            match r with
            | Err e => mret (copy_failed acc clientKey (set_error "serverFail" (err_Error e)))
            | Ok mb =>
                refs ← record_ref (ca_refs acc) clientKey (mb_ID mb);
                mret (mkCopy refs (obj_set (ca_created acc) clientKey (mailbox_json mb)) (ca_notCreated acc)
                        (ca_originals acc ++ [resolvedID]))
            end
        | _ => mret (copy_failed acc clientKey (set_error "notFound" "mailbox not found"))
        end
  | _ => mret (copy_failed acc clientKey (set_error "invalidProperties" "invalid create entry"))
  end.

Definition HandleMailboxCopy : BackendHandler W := fun c args =>
  let '(accountID, fromAccountID) := ResolveCopyAccountIDs args in
  let srcCtx := SourceAccountContext c args in
  checked ← gets (fun s => let st c := mo_State b c (fst s) in ValidateCopyStates c srcCtx args st st);
  match checked with
  | Err e => mret e
  | Ok oldState =>
      refs ← new_refs;
      a ← range_obj order (get_obj args "create") (copy_mailbox c srcCtx) (mkCopy refs [] [] []);
      _ ← (if bool_or_false args "onSuccessDestroyOriginal"
           then fold_state (fun _ srcID => _ ← back (mo_Delete b srcCtx srcID false); mret tt) tt (ca_originals a)
           else mret tt);
      newState ← state_now c;
      mret ("Mailbox/copy",
            [("fromAccountId", JStr fromAccountID); ("accountId", JStr accountID); ("oldState", JStr oldState);
             ("newState", JStr newState); ("created", NilIfEmpty (JObj (ca_created a)));
             ("notCreated", NilIfEmpty (JObj (ca_notCreated a)))])
  end.

(** [RegisterMailboxHandlers] *)
Definition RegisterMailboxHandlers {V} (r : MethodRegistry (W := W) (V := V)) : MethodRegistry :=
  foldl (fun r h => Register r (fst h) (as_method (snd h))) r
    [("Mailbox/get", HandleMailboxGet); ("Mailbox/changes", HandleMailboxChanges); ("Mailbox/set", HandleMailboxSet);
     ("Mailbox/copy", HandleMailboxCopy); ("Mailbox/query", HandleMailboxQuery);
     ("Mailbox/queryChanges", HandleMailboxQueryChanges)].
End Methods.

(** ** Lemmas: the order of mailboxes *)

Lemma mailbox_by_lawful property : lawful (mailbox_by property).
Proof.
  unfold mailbox_by. destruct (String.eqb property "sortOrder"); [|destruct (String.eqb property "name")].
  - apply (lawful_key Z.compare mb_SortOrder), lawful_Z.
  - apply (lawful_key String.compare mb_Name), lawful_string.
  - apply lawful_const.
Qed.

Lemma mailbox_order_lawful comparators : lawful (mailbox_order comparators).
Proof.
  induction comparators as [|c rest IH]; [apply lawful_const|].
  assert (lawful (fun a b => if c_IsAscending c then mailbox_by (c_Property c) a b
                             else CompOpp (mailbox_by (c_Property c) a b))) as Hc.
  { destruct (c_IsAscending c); [|apply lawful_opp]; apply mailbox_by_lawful. }
  destruct (lawful_lex _ _ Hc IH) as [Ha Ht]. split.
  - intros a b. specialize (Ha a b). cbn [mailbox_order].
    by destruct (c_IsAscending c), (mailbox_by (c_Property c) a b), (mailbox_by (c_Property c) b a).
  - intros x y z. specialize (Ht x y z). cbn [mailbox_order].
    by destruct (c_IsAscending c), (mailbox_by (c_Property c) x y), (mailbox_by (c_Property c) y z),
      (mailbox_by (c_Property c) x z).
Qed.

(** The comparators that [SortMailboxes] uses. *)
Definition effective_order (comparators : list Comparator) : Mailbox -> Mailbox -> comparison :=
  mailbox_order
    (if existsb (fun c => String.eqb (c_Property c) "sortOrder" || String.eqb (c_Property c) "name") comparators
     then comparators else default_mailbox_order).

(** ** Lemmas: what a query looks at *)

(** A mailbox without its counts and rights, which neither the filter nor the
    sort looks at. *)
Definition mailbox_view (m : Mailbox) : Mailbox :=
  mkMailbox (mb_ID m) (mb_Name m) (mb_ParentID m) (mb_Role m) (mb_SortOrder m) 0 0 0 0 no_rights (mb_IsSubscribed m).

Lemma filter_map_comm {A B} (f : A -> B) (p : B -> bool) l :
  List.filter p (map f l) = map f (List.filter (fun x => p (f x)) l).
Proof. induction l as [|x l IH]; simpl; [done|]. rewrite IH. by destruct (p (f x)). Qed.

Lemma filter_comm {A} (p q : A -> bool) l : List.filter p (List.filter q l) = List.filter q (List.filter p l).
Proof. induction l as [|x l IH]; simpl; [done|]. destruct (p x) eqn:E1, (q x) eqn:E2; simpl; rewrite ?E1, ?E2, IH; done. Qed.


Section Results.
Context `{GoRuntime}.

Lemma matches_view fuel : forall m f, matches_mailbox fuel (mailbox_view m) f = matches_mailbox fuel m f.
Proof.
  induction fuel as [|fuel IH]; intros m [|kv f]; cbn [matches_mailbox]; try done.
  erewrite EvalFilterOperator_ext; [|intros g _; apply IH]. done.
Qed.

Lemma order_view comparators a b :
  mailbox_order comparators (mailbox_view a) (mailbox_view b) = mailbox_order comparators a b.
Proof. induction comparators as [|c rest IH]; [done|]. cbn [mailbox_order]. by rewrite IH. Qed.

Lemma results_view all args : mailbox_results (map mailbox_view all) args = mailbox_results all args.
Proof.
  unfold mailbox_results, SortMailboxes, filterMailboxes. rewrite filter_map_comm.
  erewrite (filter_ext_elem (fun x => MatchesMailboxFilter (mailbox_view x) _)); [|intros; apply matches_view].
  erewrite <- stable_sort_map; [rewrite map_map; done|].
  intros x y. unfold lt_of. by rewrite order_view.
Qed.

(** Selecting ids from the results is selecting mailboxes from the list. *)
Lemma results_filter p all args :
  List.filter p (mailbox_results all args) = mailbox_results (List.filter (fun m => p (mb_ID m)) all) args.
Proof.
  unfold mailbox_results, SortMailboxes, filterMailboxes. rewrite filter_map_comm. f_equal.
  rewrite stable_sort_filter by apply mailbox_order_lawful. f_equal. apply filter_comm.
Qed.

Lemma sorted_results all args :
  exists sorted, mailbox_results all args = map mb_ID sorted
    /\ sorted ≡ₚ filterMailboxes all (default [] (get_obj args "filter"))
    /\ StronglySorted (fun a b => effective_order (ParseComparators args) a b <> Gt) sorted
    /\ forall k, List.filter (tie (effective_order (ParseComparators args)) k) sorted
                 = List.filter (tie (effective_order (ParseComparators args)) k)
                     (filterMailboxes all (default [] (get_obj args "filter"))).
Proof. eexists. split; [done|]. apply stable_sort_spec, mailbox_order_lawful. Qed.

Lemma results_NoDup all args : NoDup (map mb_ID all) -> NoDup (mailbox_results all args).
Proof.
  intros Hnd. destruct (sorted_results all args) as (sorted & -> & Hp & _).
  apply (Permutation_map mb_ID) in Hp. rewrite Hp. clear Hp. unfold filterMailboxes.
  induction all as [|x all IH]; [done|]. cbn [map List.filter] in *. apply NoDup_cons in Hnd as [Hx Hnd].
  destruct (MatchesMailboxFilter x _); [|by apply IH, Hnd].
  cbn [map]. apply NoDup_cons. split; [|by apply IH]. intros Hin. apply Hx.
  apply list_elem_of_fmap in Hin as (y & -> & Hy). apply list_elem_of_fmap. exists y. split; [done|].
  apply list_elem_of_In in Hy. apply filter_In in Hy as [Hy _]. by apply list_elem_of_In.
Qed.

Lemma results_elem all args id : id ∈ mailbox_results all args -> id ∈ map mb_ID all.
Proof.
  destruct (sorted_results all args) as (sorted & -> & Hp & _). intros Hin.
  apply list_elem_of_fmap in Hin as (m & -> & Hm). rewrite Hp in Hm. apply list_elem_of_fmap. exists m. split; [done|].
  apply list_elem_of_In, filter_In in Hm as [Hm _]. by apply list_elem_of_In.
Qed.
End Results.

(** ** Lemmas: Mailbox/set *)

(** What the handler has checked before it asks the backend for a mailbox. *)
Record checked_mailbox `{GoRuntime} (all : list Mailbox) (m : Mailbox) : Prop := {
  cm_name : mb_Name m <> EmptyString;
  cm_sibling : forall e, e ∈ all -> same_parent (mb_ParentID e) (mb_ParentID m) = true ->
               EqualFold (mb_Name e) (mb_Name m) = false;
  cm_role : forall r, mb_Role m = Some r ->
            r <> EmptyString /\ forall e er, e ∈ all -> mb_Role e = Some er -> EqualFold er r = false;
}.

Lemma existsb_false_elem {A} (p : A -> bool) l x : existsb p l = false -> x ∈ l -> p x = false.
Proof. intros He Hx. destruct (p x) eqn:E; [|done]. rewrite <- He. symmetry. apply existsb_exists. exists x. by rewrite <- list_elem_of_In. Qed.

Section SetLemmas.
Context `{GoRuntime} {W : Type}.
Variable b : MailboxOps W.
Variable order : MapOrder.
Variable c : Ctx.

Lemma requested_checked all m :
  invalid_properties order m = [] -> check_role all m = None ->
  check_sibling all (requested_parent m) (str_or_empty m "name") = None ->
  checked_mailbox all (requested_mailbox m).
Proof.
  unfold invalid_properties, check_role, check_sibling. intros Hp Hr Hs.
  repeat (apply app_eq_nil in Hp as [_ Hp]).
  split; unfold requested_mailbox; cbn [mb_Name mb_ParentID mb_Role].
  - intros E. rewrite E in Hp. done.
  - intros e He Hpar. destruct (existsb _ all) eqn:Ex; [done|].
    apply (existsb_false_elem _ _ e) in Ex; [|done]. cbn beta in Ex. by rewrite Hpar in Ex.
  - intros r. unfold get_present in Hr. unfold get_str at 1.
    destruct (obj_get m "role") as [[| | |role| |]|]; try done.
    destruct (String.eqb role EmptyString) eqn:E; [done|]. intros [= <-].
    split; [by apply String.eqb_neq|]. intros e er He Her.
    destruct (existsb _ all) eqn:Ex; [done|]. apply (existsb_false_elem _ _ e) in Ex; [|done]. cbn beta in Ex. by rewrite Her in Ex.
Qed.

Variable I : W -> Prop.
Hypothesis Hget : forall w, I w -> I (fst (mo_GetAll b c w)).
Hypothesis Hcreate : forall w m, I w -> checked_mailbox (fst (snd (mo_GetAll b c w))) m ->
  I (fst (mo_Create b c m (fst (mo_GetAll b c w)))).
Hypothesis Hupdate : forall w id patch, I w -> parent_is patch id = false -> I (fst (mo_Update b c id patch w)).
Hypothesis Hdelete : forall w id rm, I w -> I (fst (mo_Delete b c id rm w)).

Lemma create_mailbox_keeps w cid m : I w -> I (fst (create_mailbox b order c cid m w)).
Proof.
  intros Hi. unfold create_mailbox. destruct (invalid_properties order m) as [|p ps] eqn:Hp; [|done].
  rewrite St_bind_eq. destruct (check_role _ m) eqn:Hr; [by apply Hget|].
  destruct (check_sibling _ _ _) eqn:Hs; [by apply Hget|]. rewrite St_bind_eq. cbn [fst mret St_ret].
  apply Hcreate; [done|]. by apply requested_checked.
Qed.

Lemma update_mailbox_keeps refs acc kv (s : HState W) :
  I (fst s) -> I (fst (fst (update_mailbox b c refs acc kv s))).
Proof.
  intros Hi. unfold update_mailbox. destruct (parent_is _ _) eqn:Hp; [done|].
  rewrite St_bind_eq, back_eq. cbn [fst mret St_ret]. by apply Hupdate.
Qed.

Lemma destroy_mailbox_keeps refs rm acc id (s : HState W) :
  I (fst s) -> I (fst (fst (destroy_mailbox b c refs rm acc id s))).
Proof. intros Hi. unfold destroy_mailbox. rewrite St_bind_eq, back_eq. cbn [fst mret St_ret]. by apply Hdelete. Qed.
End SetLemmas.

(** ** Properties *)

(** Mailbox/query without an anchor answers with the window of the result
    list that position and limit describe, and with its length as the total;
    the result list holds the ids of the mailboxes that match the filter,
    ordered by the comparators (by sortOrder and name when there are none),
    those that tie in the order of the backend.  Position and limit are below
    2^62, so their sum does not wrap. *)
Theorem mailbox_query_window `{GoRuntime} {W} (b : MailboxOps W) c args s
    (Hcmp : ValidateComparators (ParseComparators args) MailboxSortableProperties = (EmptyString, EmptyString))
    (Hanchor : get_present args "anchor" = None)
    (Hlim : forall f, get_num args "limit" = Some f -> SFltb f (S754_zero false) = false /\ 0 <= f64_to_int f < 2 ^ 62)
    (Hpos : - 2 ^ 62 <= fst (ParseQueryPosition args) < 2 ^ 62) :
  let all := fst (snd (mo_GetAll b c (fst s))) in
  let ids := mailbox_results all args in
  let position := NormalizePosition (fst (ParseQueryPosition args)) (Z.of_nat (length ids)) in
  let page := match get_num args "limit" with
              | Some f => take (Z.to_nat (f64_to_int f)) (drop (Z.to_nat position) ids)
              | None => drop (Z.to_nat position) ids
              end in
  (Z.of_nat (length ids) < 2 ^ 62 ->
   exists resp, snd (HandleMailboxQuery b c args s) = ("Mailbox/query", resp)
     /\ obj_get resp "ids" = Some (jstrs page)
     /\ obj_get resp "total" = Some (jint (Z.of_nat (length ids)))
     /\ obj_get resp "position" = Some (jint (match page with [] => 0 | _ => position end)))
  /\ fst (fst (HandleMailboxQuery b c args s)) = fst (mo_GetAll b c (fst s))
  /\ exists sorted, ids = map mb_ID sorted
     /\ sorted ≡ₚ filterMailboxes all (default [] (get_obj args "filter"))
     /\ StronglySorted (fun x y => effective_order (ParseComparators args) x y <> Gt) sorted
     /\ forall k, List.filter (tie (effective_order (ParseComparators args)) k) sorted
                  = List.filter (tie (effective_order (ParseComparators args)) k)
                      (filterMailboxes all (default [] (get_obj args "filter"))).
Proof.
  intros all ids position page.
  assert (HandleMailboxQuery b c args s
          = (fst (mo_GetAll b c (fst s)), snd s,
             let paged := page_from position (get_num args "limit") ids in
             ("Mailbox/query",
              [("accountId", JStr (str_or_empty args "accountId"));
               ("queryState", JStr (mo_State b c (fst (mo_GetAll b c (fst s)))));
               ("canCalculateChanges", JBool true); ("position", jint (match paged with [] => 0 | _ => position end));
               ("ids", jstrs paged); ("total", jint (Z.of_nat (length ids)))]
              ++ (if bool_or_false args "calculateTotal" then [("calculateTotal", JBool true)] else [])))) as Heq.
  { unfold HandleMailboxQuery. rewrite St_bind_eq, back_eq. cbn [fst snd]. rewrite Hcmp.
    unfold position. unfold ParseQueryPosition in *.
    assert (ParseQueryAnchor args = ((EmptyString, 0), EmptyString)) as -> by (unfold ParseQueryAnchor; by rewrite Hanchor).
    assert (match get_num args "limit" with Some l => SFltb l (S754_zero false) | None => false end = false) as ->.
    { destruct (get_num args "limit") as [f|]; [|done]. by destruct (Hlim f eq_refl). }
    destruct (get_num args "position"); reflexivity. }
  rewrite Heq. clear Heq. cbn [fst snd]. split_and!; [|done|apply sorted_results].
  intros Hlen.
  assert (0 <= position < 2 ^ 62) as Hp.
  { unfold position, NormalizePosition, i64. cbv zeta. destruct (fst (ParseQueryPosition args) <? 0) eqn:E; [|lia].
    rewrite Z.mod_small by lia. case_match; lia. }
  assert (page_from position (get_num args "limit") ids = page) as Hpage.
  { unfold page. apply page_from_spec; [lia|]. intros f Hf. destruct (Hlim f Hf). lia. }
  rewrite Hpage. eexists. split; [done|]. by destruct page, (bool_or_false args "calculateTotal").
Qed.


(** Mailbox/set touches its backend only with checked requests: whatever
    invariant of the backend is kept by reading the mailboxes, by creating a
    mailbox with a name, with a name that no sibling has and a role that no
    mailbox has, by an update that does not make a mailbox its own parent and
    by a destroy, is kept by the whole call, for every iteration order of its
    maps. *)
Theorem mailbox_set_checks_requests `{GoRuntime} {W} (b : MailboxOps W) order c args s (I : W -> Prop)
    (Hget : forall w, I w -> I (fst (mo_GetAll b c w)))
    (Hcreate : forall w m, I w -> checked_mailbox (fst (snd (mo_GetAll b c w))) m ->
               I (fst (mo_Create b c m (fst (mo_GetAll b c w)))))
    (Hupdate : forall w id patch, I w -> parent_is patch id = false -> I (fst (mo_Update b c id patch w)))
    (Hdelete : forall w id rm, I w -> I (fst (mo_Delete b c id rm w)))
    (Hs : I (fst s)) :
  I (fst (fst (HandleMailboxSet b order c args s))).
Proof.
  unfold HandleMailboxSet. rewrite St_bind_eq. cbn [state_now gets fst snd].
  destruct (state_mismatch _ _ _); [done|]. rewrite !St_bind_eq. cbn [new_refs gets fst snd].
  pose proof (run_creates_world order (create_mailbox b order c) I args (NewSetCreationRefs (snd s)) s
                (fun w cid m => create_mailbox_keeps b order c I Hget Hcreate w cid m) Hs) as H1.
  destruct (run_creates order (create_mailbox b order c) args _ s) as [s1 [[refs created] notCreated]].
  cbn [fst snd] in *. rewrite !St_bind_eq. cbn [state_now gets fst snd mret St_ret].
  apply (range_strings_inv _ _ _ (fun s => I (fst s))); [intros ???; cbn beta; by apply destroy_mailbox_keeps|].
  apply (range_obj_inv _ _ _ _ (fun s => I (fst s))); [intros ???; cbn beta; by apply update_mailbox_keeps|done].
Qed.

(** ** A backend in memory *)

(** A list of mailboxes; an update changes the parent only. *)
Definition patch_parent (m : Mailbox) (id : string) (patch : obj) : Mailbox :=
  if String.eqb (mb_ID m) id
  then match get_str patch "parentId" with Some p => with_parent m (Some p) | None => m end else m.
Definition list_ops (cr up de : list string) : MailboxOps (list Mailbox) :=
  mkMailboxOps _ (fun _ _ => "s")
    (fun _ _ _ w => (w, (cr, up, de, [], "s", false)))
    (fun _ ids w => (w, (List.filter (fun m => str_in (mb_ID m) ids) w,
                         List.filter (fun id => negb (str_in id (map mb_ID w))) ids, None)))
    (fun _ w => (w, (w, None)))
    (fun _ m w => let m := set_mb_ID m ("mb-" +:+ mb_Name m) in (w ++ [m], Ok m))
    (fun _ id patch w => (map (fun m => patch_parent m id patch) w,
                          match List.find (fun m => String.eqb (mb_ID m) id) w with Some m => Ok m | None => Err ErrNotFound end))
    (fun _ id _ w => (List.filter (fun m => negb (String.eqb (mb_ID m) id)) w, Ok (str_in id (map mb_ID w)))).
Definition plain_mailbox (id name : string) (role : option string) (order : Z) : Mailbox :=
  mkMailbox id name None role order 0 0 0 0 no_rights true.

Lemma mailbox_query_window_witness :
  let w := [plain_mailbox "a" "Zoo" None 10; plain_mailbox "b" "Inbox" (Some "inbox") 10; plain_mailbox "c" "Work" None 5;
            plain_mailbox "d" "Lists" None 20] in
  let args := [("position", jint 1); ("limit", jint 2);
               ("filter", JObj [("operator", JStr "NOT"); ("conditions", JArr [JObj [("name", JStr "Lists")]])])] in
  exists resp, snd (HandleMailboxQuery (H := ascii_runtime) (list_ops [] [] []) Background args (w, None)) = ("Mailbox/query", resp)
    /\ obj_get resp "ids" = Some (jstrs ["b"; "a"])
    /\ obj_get resp "total" = Some (jint 3)
    /\ obj_get resp "position" = Some (jint 1).
Proof.
  intros w args. refine (proj1 (mailbox_query_window (H := ascii_runtime) (list_ops [] [] []) Background args (w, None) _ _ _ _) _).
  - reflexivity.
  - reflexivity.
  - intros f [= <-]. vm_compute. intuition congruence.
  - vm_compute. intuition congruence.
  - vm_compute. reflexivity.
Defined.


(** No two mailboxes have the same role. *)
Definition role_clash (a b : Mailbox) : bool :=
  match mb_Role a, mb_Role b with Some r, Some r' => EqualFold (H := ascii_runtime) r r' | _, _ => false end.
Definition unique_roles : list Mailbox -> Prop := ForallOrdPairs (fun a b => role_clash a b = false).

Lemma unique_roles_snoc l m :
  unique_roles l -> Forall (fun e => role_clash e m = false) l -> unique_roles (l ++ [m]).
Proof.
  induction 1 as [|x l Hx Hl IH]; intros Hm; simpl; [repeat constructor|]. inversion_clear Hm.
  constructor; [|by apply IH]. apply Forall_app. split; [done|]. by constructor.
Qed.

Lemma unique_roles_filter p l : unique_roles l -> unique_roles (List.filter p l).
Proof.
  induction 1 as [|x l Hx Hl IH]; simpl; [constructor|]. destruct (p x); [|done]. constructor; [|done].
  rewrite Forall_forall in *. intros y Hy. apply Hx. apply list_elem_of_In, filter_In in Hy as [Hy _].
  by apply list_elem_of_In.
Qed.

Lemma unique_roles_map f l : (forall m, mb_Role (f m) = mb_Role m) -> unique_roles l -> unique_roles (map f l).
Proof.
  intros Hf. induction 1 as [|x l Hx Hl IH]; simpl; [constructor|]. constructor; [|done].
  apply Forall_fmap. eapply Forall_impl; [exact Hx|]. intros y Hy. unfold role_clash, compose in *. by rewrite !Hf.
Qed.

Lemma mailbox_set_checks_requests_witness :
  let w := [plain_mailbox "a" "Inbox" (Some "inbox") 10] in
  let node role := JObj [("name", JStr "Copy"); ("role", JStr role)] in
  let args := [("create", JObj [("k1", node "Inbox"); ("k2", node "sent")]); ("destroy", JArr [JStr "a"])] in
  let s := HandleMailboxSet (H := ascii_runtime) (list_ops [] [] []) in_order Background args (w, None) in
  unique_roles (fst (fst s)) /\ map mb_ID (fst (fst s)) = ["mb-Copy"].
Proof.
  intros w node args s. split; [|vm_compute; reflexivity].
  apply (mailbox_set_checks_requests (H := ascii_runtime) (list_ops [] [] []) in_order Background args (w, None) unique_roles).
  - done.
  - intros l m Hl [_ _ Hr]. apply unique_roles_snoc; [done|]. apply Forall_forall. intros e He.
    unfold role_clash. cbn [set_mb_ID mb_Role]. destruct (mb_Role m) as [r|] eqn:Em; [|by destruct (mb_Role e)].
    destruct (Hr r eq_refl) as [_ Hr']. destruct (mb_Role e) as [re|] eqn:Ee; [|done]. by apply (Hr' e re).
  - intros l id patch Hl _. apply unique_roles_map; [|done]. intros m. unfold patch_parent.
    destruct (String.eqb (mb_ID m) id); [|done]. by destruct (get_str patch "parentId").
  - intros l id rm Hl. by apply unique_roles_filter.
  - repeat constructor.
Defined.

(** ** What the checks miss *)

(** the loop check of Mailbox/set compares a mailbox with its new parent
    only: one call makes two mailboxes parents of each other, and both updates
    are reported as done. *)
Theorem parent_loop_accepted :
  let w := [plain_mailbox "a" "A" None 10; plain_mailbox "b" "B" None 10] in
  let args := [("update", JObj [("a", JObj [("parentId", JStr "b")]); ("b", JObj [("parentId", JStr "a")])])] in
  let '(s, (name, resp)) := HandleMailboxSet (H := ascii_runtime) (list_ops [] [] []) in_order Background args (w, None) in
  name = "Mailbox/set" /\ obj_get resp "updated" = Some (JObj [("a", JNull); ("b", JNull)])
  /\ obj_get resp "notUpdated" = Some (JObj [])
  /\ map (fun m => (mb_ID m, mb_ParentID m)) (fst s) = [("a", Some "b"); ("b", Some "a")].
Proof. vm_compute. done. Qed.

(** Mailbox/copy makes none of the checks of Mailbox/set: copying the inbox
    within an account leaves two mailboxes with the role inbox, and with the
    same name under the same parent. *)
Theorem copy_duplicates_role :
  let w := [plain_mailbox "a" "Inbox" (Some "inbox") 10] in
  let args := [("create", JObj [("k", JObj [("id", JStr "a")])])] in
  let '(s, (name, resp)) := HandleMailboxCopy (list_ops [] [] []) in_order Background args (w, None) in
  name = "Mailbox/copy" /\ obj_get resp "notCreated" = Some JNull
  /\ map (fun m => (mb_Name m, mb_ParentID m, mb_Role m)) (fst s)
     = [("Inbox", None, Some "inbox"); ("Inbox", None, Some "inbox")].
Proof. vm_compute. done. Qed.

(** *** Over the IMAP backend *)

(** A call that hangs is shown as an error here; the methods below make none. *)
Definition of_outcome {A} (o : outcome A) : result go_error A :=
  match o with Returns a => Ok a | Fails e => Err e | Hangs => Err (GError "hangs") end.

Definition imap_ops `{GoRuntime} {W} (im : ImapServer W) (store : option (Store W)) (pc : Codec (gmap string (option string)))
    (oc : Codec (gmap string Z)) (hk publish : Ctx -> St W unit) (now : Z)
    (state : Ctx -> mb_state W -> string)
    (changes : Ctx -> string -> option Z ->
               St (mb_state W) (list string * list string * list string * list string * string * bool))
  : MailboxOps (mb_state W) :=
  mkMailboxOps _ state changes
    (fun c ids => r ← GetMailboxes im store pc oc hk c now ids;
                  mret (match r with
                        | Some (l, nf, e) => (l, nf, GError <$> e)
                        | None => ([], ids, Some (GError "hangs"))
                        end))
    (fun c => r ← GetAllMailboxes im store pc oc hk c now;
              mret (match r with Ok l => (l, None) | Err e => ([], Some (GError e)) end))
    (fun c m => r ← CreateMailbox im store oc publish c now m; mret (of_outcome r))
    (fun c id patch => r ← UpdateMailbox im store pc oc hk publish c now id patch; mret (of_outcome r))
    (fun c id rm => r ← DeleteMailbox im store pc oc hk publish c now id rm; mret (of_outcome r)).

Definition demo_imap : MailboxOps (mb_state (list MailboxInfo)) :=
  imap_ops (H := ascii_runtime) folder_server None number_codec number_codec silent silent 0 (fun _ _ => "s")
    (fun _ _ _ s => (s, ([], [], [], [], "s", false))).

(** over IMAP the role of a mailbox comes from its name, wherever a known
    word occurs in it, and the role check of Mailbox/set does not see that: a
    mailbox created without a role and named Presentations becomes the second
    mailbox with the role sent. *)
Theorem name_gives_second_role :
  let w := start_with [folder "INBOX" "/" 3; folder "Sent" "/" 7] in
  let args := [("create", JObj [("k", JObj [("name", JStr "Presentations")])])] in
  let '(s, (_, resp)) := HandleMailboxSet (H := ascii_runtime) demo_imap in_order Background args (w, None) in
  obj_get resp "notCreated" = Some (JObj [])
  /\ map (fun m => (mb_Name m, mb_Role m)) (fst (snd (mo_GetAll demo_imap Background (fst s))))
     = [("Inbox", Some "inbox"); ("Presentations", Some "sent"); ("Sent", Some "sent")].
Proof. vm_compute. done. Qed.
