(* ===== verification/ImapEmails.v ===== *)
(** * Emails of the IMAP backend

    [jmap/imapsmtp/email_read.go]: emails and threads read from the folders of
    an IMAP server.  One method sees one snapshot of the server.  The message
    parser [ParseRFC822] (built on a third-party MIME library), SHA-256 and the
    HTML parser are parameters. *)

From S2P Require Import Prelude GoSort GoStrings GoState Base64 Json Envelope CreationRefs Query Handler Server MailTypes ImapConvert MailQuery MethodSupport ImapStores ExtStore ImapMailboxes.
From Stdlib Require Import Ascii SpecFloat.

(** ** The IMAP server *)

(** A fetched message; the date is its RFC 3339 text in UTC, [None] for the
    zero time. *)
Record ImapMessage : Type := mkMessage {
  im_UID : Z;
  im_Flags : list string;
  im_Body : string;
  im_InternalDate : option string;
}.

Record ImapSnapshot : Type := mkSnapshot {
  sn_ListFolders : result string (list MailboxInfo);
  sn_FetchMessagesByUIDs : string -> list Z -> result string (list ImapMessage);
  sn_FetchAllMessages : string -> result string (list ImapMessage);
  sn_SearchITIP : string -> string -> result string (list Z);
}.

Definition blobStagingMarker := "[JMAP-BLOB:".
Definition storeStagingMarker := "[JMAP-STORE:".

(** [l[a:b]]; [None] is the panic of a slice out of range. *)
Definition go_slice {A} (a b : Z) (l : list A) : option (list A) :=
  if (0 <=? a) && (a <=? b) && (b <=? Z.of_nat (length l)) then Some (slice a b l) else None.

Section Emails.
Context `{GoRuntime}.
Variable ParseRFC822 : string -> option Email.
Variable sha256 : string -> string.
Variable html_Parse : string -> option html_node.

(** ** A message as an email *)

(** The message id the thread is named after, empty when there is none. *)
Definition root_message_id (em : Email) : string :=
  let first (l : list string) := match l with x :: _ => x | [] => EmptyString end in
  if negb (String.eqb (first (em_References em)) EmptyString) then first (em_References em)
  else if negb (String.eqb (first (em_InReplyTo em)) EmptyString) then first (em_InReplyTo em)
  else first (em_MessageID em).

(** The fields the backend sets on a parsed message; [id] is the id of the
    result, [emailID] the one of the message. *)
Definition complete_email (em : Email) (id emailID mbID : string) (msg : ImapMessage) : Email :=
  let received := default (em_ReceivedAt em) (im_InternalDate msg) in
  let sent := match em_SentAt em with
              | Some s => Some s
              | None => if String.eqb received EmptyString then None else Some received
              end in
  let root := root_message_id em in
  let thread := if String.eqb root EmptyString then emailID else ThreadIDFor sha256 root emailID in
  mkEmail id emailID thread [(mbID, true)] (map (fun k => (k, true)) (elements (MapIMAPFlagsToKeywords (im_Flags msg))))
    (em_Size em) received (em_MessageID em) (em_InReplyTo em) (em_References em) (em_Sender em) (em_From em) (em_To em)
    (em_CC em) (em_BCC em) (em_ReplyTo em) (em_Subject em) sent (em_Headers em) (em_BodyStructure em) (em_BodyValues em)
    (em_TextBody em) (em_HTMLBody em) (em_Attachments em) (em_HasAttachment em) (em_Preview em).

(** Messages without a body, that do not parse or that stage a blob or a store
    are skipped. *)
Definition parsed_message (msg : ImapMessage) : option Email :=
  if String.eqb (im_Body msg) EmptyString then None
  else match ParseRFC822 (im_Body msg) with
       | None => None
       | Some em => if HasPrefix (em_Subject em) blobStagingMarker || HasPrefix (em_Subject em) storeStagingMarker
                    then None else Some em
       end.

(** ** Reading by id *)

(** The message id an email id stands for. *)
Definition resolve_email (moved : gmap string (gmap string string)) (c : Ctx) (id : string) : string :=
  default id (resolveMovedEmailID moved (fst (AccountIDFromContext c)) id).

Record id_groups : Type := mkGroups {
  ig_alias : gmap string string;
  ig_uids : list (string * list Z);
  ig_notFound : list string;
}.

(** [m[k] = append(m[k], v)] *)
Fixpoint group_append (m : list (string * list Z)) (k : string) (v : Z) : list (string * list Z) :=
  match m with
  | [] => [(k, [v])]
  | (k', l) :: m' => if String.eqb k' k then (k', l ++ [v]) :: m' else (k', l) :: group_append m' k v
  end.

Definition group_id (moved : gmap string (gmap string string)) (c : Ctx) (g : id_groups) (id : string) : id_groups :=
  let resolved := resolve_email moved c id in
  let alias := if String.eqb resolved id then ig_alias g else <[resolved := id]> (ig_alias g) in
  match ParseEmailID resolved with
  | Err _ => mkGroups alias (ig_uids g) (ig_notFound g ++ [id])
  | Ok (mbID, uid) => mkGroups alias (group_append (ig_uids g) mbID uid) (ig_notFound g)
  end.

(** One fetched message: the email is entered under its own id, and under the
    id it was asked for by when that is another one. *)
Definition found_message (alias : gmap string string) (mbID : string) (foundMap : gmap string Email) (msg : ImapMessage)
  : gmap string Email :=
  match parsed_message msg with
  | None => foundMap
  | Some em =>
      let emailID := EmailIDFor mbID (im_UID msg) in
      match alias !! emailID with
      | Some origID =>
          let em' := complete_email em origID emailID mbID msg in
          <[emailID := em']> (<[origID := em']> foundMap)
      | None => <[emailID := complete_email em emailID emailID mbID msg]> foundMap
      end
  end.

Definition fetch_group (sn : ImapSnapshot) (alias : gmap string string) (acc : gmap string Email * list string)
    (group : string * list Z) : gmap string Email * list string :=
  let '(foundMap, notFound) := acc in
  let '(mbID, uids) := group in
  let missing := (foundMap, notFound ++ map (EmailIDFor mbID) uids) in
  match NameForMailboxID mbID with
  | Err _ => missing
  | Ok folderName =>
      match sn_FetchMessagesByUIDs sn folderName uids with
      | Err _ => missing
      | Ok messages => (foldl (found_message alias mbID) foundMap messages, notFound)
      end
  end.

(** The emails in the order of the ids, and the ids not found. *)
Definition collect (foundMap : gmap string Email) (acc : list Email * list string) (id : string)
  : list Email * list string :=
  match foundMap !! id with
  | Some em => (fst acc ++ [em], snd acc)
  | None => if str_in id (snd acc) then acc else (fst acc, snd acc ++ [id])
  end.

(** [order] is the iteration order of the map of mailboxes. *)
Definition GetEmails (order : list (string * list Z) -> list (string * list Z)) (conn : option string)
    (sn : ImapSnapshot) (moved : gmap string (gmap string string)) (c : Ctx) (ids : list string)
  : list Email * list string * option string :=
  match conn with
  | Some err => ([], ids, Some err)
  | None =>
      let g := foldl (group_id moved c) (mkGroups ∅ [] []) ids in
      let '(foundMap, notFound) := foldl (fetch_group sn (ig_alias g)) (∅, ig_notFound g) (order (ig_uids g)) in
      (foldl (collect foundMap) ([], notFound) ids, None)
  end.

(** ** Reading everything *)

Definition selectable (m : MailboxInfo) : bool :=
  negb (HasPrefix (mi_Name m) ".") && negb (existsb (fun a => EqualFold a "\NoSelect") (mi_Attrs m)).

Definition folder_emails (sn : ImapSnapshot) (m : MailboxInfo) : list Email :=
  if selectable m then
    match sn_FetchAllMessages sn (mi_Name m) with
    | Err _ => []
    | Ok messages =>
        let mbID := MailboxIDForName (mi_Name m) in
        omap (fun msg => (fun em => let emailID := EmailIDFor mbID (im_UID msg) in
                                    complete_email em emailID emailID mbID msg) <$> parsed_message msg) messages
    end
  else [].

Definition GetAllEmails (conn : option string) (sn : ImapSnapshot) : result string (list Email) :=
  match conn with
  | Some err => Err err
  | None => match sn_ListFolders sn with
            | Err e => Err e
            | Ok folders => Ok (flat_map (folder_emails sn) folders)
            end
  end.

Definition ITIPEmails (conn : option string) (sn : ImapSnapshot) (marker : string) : result string (list string) :=
  match conn with
  | Some err => Err err
  | None =>
      match sn_ListFolders sn with
      | Err e => Err e
      | Ok folders =>
          Ok (flat_map (fun m =>
            if selectable m && negb (str_in (DetectRole (mi_Name m) (mi_Attrs m)) ["sent"; "drafts"; "trash"])
            then match sn_SearchITIP sn (mi_Name m) marker with
                 | Err _ => []
                 | Ok uids => map (EmailIDFor (MailboxIDForName (mi_Name m))) uids
                 end
            else []) folders)
      end
  end.

(** ** Queries *)

(** The ids that match, in order: newest first unless the call sorts. *)
Definition email_results (emails : list Email) (filter : obj) (comparators : list Comparator) : list string :=
  let tc := BuildThreadFilterContext emails in
  let filtered := List.filter (fun em => MatchesFilterWithThreadContext html_Parse em filter (Some tc)) emails in
  let comparators := match comparators with
                     | [] => [mkComparator "receivedAt" false EmptyString EmptyString]
                     | _ => comparators
                     end in
  map em_ID (SortEmails filtered comparators).

(** The page and the total; [None] when the slice panics. *)
Definition query_emails (emails : list Email) (filter : obj) (comparators : list Comparator) (position : Z)
    (limit : option Z) : option (list string * Z) :=
  let allIDs := email_results emails filter comparators in
  let total := Z.of_nat (length allIDs) in
  let position := NormalizePosition position total in
  if total <=? position then Some ([], total)
  else
    let end_ := match limit with
                | Some l => if i64 (position + i64 l) <? total then i64 (position + i64 l) else total
                | None => total
                end in
    (fun ids => (ids, total)) <$> go_slice position end_ allIDs.

(** An error leaves the ids nil. *)
Definition QueryEmails (conn : option string) (sn : ImapSnapshot) (filter : obj) (comparators : list Comparator)
    (position : Z) (limit : option Z) : option (option (list string) * Z * option string) :=
  match GetAllEmails conn sn with
  | Err e => Some (None, 0, Some e)
  | Ok emails => (fun r => (Some (fst r), snd r, None)) <$> query_emails emails filter comparators position limit
  end.

(** ** Threads *)

Record Thread : Type := mkThread { th_ID : string; th_EmailIDs : list string }.

(** [threadEmails]: the ids of the emails of each thread, without repetition. *)
Definition thread_add (m : list (string * list string)) (em : Email) : list (string * list string) :=
  let fix go (m : list (string * list string)) :=
    match m with
    | [] => [(em_ThreadID em, [em_ID em])]
    | (t, l) :: m' => if String.eqb t (em_ThreadID em)
                      then (t, if str_in (em_ID em) l then l else l ++ [em_ID em]) :: m'
                      else (t, l) :: go m'
    end in
  go m.
Definition thread_map (emails : list Email) : list (string * list string) := foldl thread_add [] emails.
Definition thread_get (m : list (string * list string)) (t : string) : option (list string) :=
  snd <$> List.find (fun kv => String.eqb (fst kv) t) m.

(** The two ids of the demonstration data stand for the first message of the
    inbox. *)
Definition get_thread (m : list (string * list string)) (id : string) : option Thread :=
  let legacy := str_in id ["thread-2"; "thread-1"] in
  let targetID := if legacy then "mb-inbox-1" else id in
  (fun eIDs => mkThread id (if legacy then map (fun e => if String.eqb e "mb-inbox-1" then "email-1" else e) eIDs
                            else eIDs)) <$> thread_get m targetID.

Definition GetThreads (conn : option string) (sn : ImapSnapshot) (ids : list string)
  : list Thread * list string * option string :=
  match GetAllEmails conn sn with
  | Err e => ([], ids, Some e)
  | Ok emails =>
      let m := thread_map emails in
      (omap (get_thread m) ids,
       List.filter (fun id => match get_thread m id with Some _ => false | None => true end) ids, None)
  end.

(** [order] is the iteration order of the map of threads. *)
Definition GetAllThreads (order : list (string * list string) -> list (string * list string)) (conn : option string)
    (sn : ImapSnapshot) : result string (list Thread) :=
  match GetAllEmails conn sn with
  | Err e => Err e
  | Ok emails => Ok (map (fun kv => mkThread (fst kv) (snd kv)) (order (thread_map emails)))
  end.
End Emails.

(** ** Lemmas: threads *)

Lemma thread_get_cons t l m u :
  thread_get ((t, l) :: m) u = if String.eqb t u then Some l else thread_get m u.
Proof. unfold thread_get. simpl. by destruct (String.eqb t u). Qed.

Lemma thread_add_get m em t :
  thread_get (thread_add m em) t
  = if String.eqb (em_ThreadID em) t
    then Some (let l := default [] (thread_get m t) in if str_in (em_ID em) l then l else l ++ [em_ID em])
    else thread_get m t.
Proof.
  induction m as [|[u l] m IH].
  - unfold thread_add. rewrite thread_get_cons. by destruct (String.eqb (em_ThreadID em) t).
  - change (thread_add ((u, l) :: m) em)
      with (if String.eqb u (em_ThreadID em) then (u, if str_in (em_ID em) l then l else l ++ [em_ID em]) :: m
            else (u, l) :: thread_add m em).
    destruct (String.eqb_spec u (em_ThreadID em)) as [->|Hne]; rewrite !thread_get_cons.
    + by destruct (String.eqb (em_ThreadID em) t).
    + rewrite IH. destruct (String.eqb_spec u t) as [->|Hut]; [|done].
      destruct (String.eqb_spec (em_ThreadID em) t) as [E|]; [congruence|done].
Qed.

Lemma thread_add_keys m em : NoDup (map fst m) -> NoDup (map fst (thread_add m em))
  /\ forall t, t ∈ map fst (thread_add m em) <-> t ∈ map fst m \/ t = em_ThreadID em.
Proof.
  induction m as [|[u l] m IH]; intros Hnd.
  - simpl. split; [apply NoDup_singleton|]. set_solver.
  - change (thread_add ((u, l) :: m) em)
      with (if String.eqb u (em_ThreadID em) then (u, if str_in (em_ID em) l then l else l ++ [em_ID em]) :: m
            else (u, l) :: thread_add m em).
    cbn [map fst] in *. apply NoDup_cons in Hnd as [Hu Hnd]. destruct (IH Hnd) as [IH1 IH2].
    destruct (String.eqb_spec u (em_ThreadID em)) as [->|Hne]; cbn [map fst].
    + split; [by apply NoDup_cons|]. intros t. rewrite elem_of_cons. naive_solver.
    + split; [apply NoDup_cons; split; [rewrite IH2; naive_solver|done]|]. intros t. rewrite !elem_of_cons, IH2. naive_solver.
Qed.

(** The emails of a thread, in the order of the list. *)
Definition in_thread (t : string) (em : Email) : bool := String.eqb (em_ThreadID em) t.

Lemma thread_map_snoc emails em : thread_map (emails ++ [em]) = thread_add (thread_map emails) em.
Proof. unfold thread_map. by rewrite foldl_app. Qed.

Lemma thread_map_get emails t :
  NoDup (map em_ID emails) ->
  thread_get (thread_map emails) t
  = match map em_ID (List.filter (in_thread t) emails) with [] => None | l => Some l end.
Proof.
  induction emails as [|em emails IH] using rev_ind; intros Hnd; [done|].
  rewrite map_app in Hnd. apply NoDup_app in Hnd as (Hnd & Hx & _).
  rewrite thread_map_snoc, thread_add_get, IH by done. rewrite List.filter_app, map_app. cbn [List.filter].
  change (in_thread t em) with (String.eqb (em_ThreadID em) t). destruct (String.eqb (em_ThreadID em) t); [|by rewrite app_nil_r].
  cbn [map]. set (l := map em_ID (List.filter (in_thread t) emails)).
  assert (str_in (em_ID em) l = false) as Hl.
  { apply not_true_is_false. intros Hin. apply str_in_spec in Hin. apply (Hx (em_ID em)); [|by left].
    unfold l in Hin. apply list_elem_of_fmap in Hin as (y & -> & Hy). apply list_elem_of_fmap. exists y. split; [done|].
    apply list_elem_of_In, filter_In in Hy as [Hy _]. by apply list_elem_of_In. }
  destruct l as [|x l'] eqn:El; [done|]. cbn [from_option id]. cbv zeta. by rewrite Hl.
Qed.

Lemma thread_map_keys emails :
  NoDup (map fst (thread_map emails))
  /\ forall t, t ∈ map fst (thread_map emails) <-> exists em, em ∈ emails /\ em_ThreadID em = t.
Proof.
  induction emails as [|em emails [IH1 IH2]] using rev_ind; [split; [apply NoDup_nil_2|set_solver]|].
  rewrite thread_map_snoc. destruct (thread_add_keys (thread_map emails) em IH1) as [H1 H2].
  split; [done|]. intros t. rewrite H2, IH2. setoid_rewrite elem_of_app. setoid_rewrite list_elem_of_singleton. naive_solver.
Qed.

Lemma thread_get_elem m t l : NoDup (map fst m) -> (t, l) ∈ m <-> thread_get m t = Some l.
Proof.
  induction m as [|[u l'] m IH]; intros Hnd; [set_solver|]. cbn [map fst] in Hnd. apply NoDup_cons in Hnd as [Hu Hnd].
  rewrite thread_get_cons, elem_of_cons, IH by done. destruct (String.eqb_spec u t) as [->|Hne]; [|naive_solver].
  split; [|naive_solver]. intros [[= ->]|Hg]; [done|]. exfalso. apply Hu. apply IH in Hg; [|done].
  apply list_elem_of_fmap. by exists (t, l).
Qed.

(** ** Lemmas: reading by id *)

Lemma omap_ext_elem {A B} (f g : A -> option B) (l : list A) : (forall x, x ∈ l -> f x = g x) -> omap f l = omap g l.
Proof.
  induction l as [|x l IH]; intros Hfg; [done|]. cbn [omap list_omap]. rewrite Hfg by by left.
  change (list_omap _ _ f l) with (omap f l). rewrite IH; [done|]. intros y Hy. apply Hfg. by right.
Qed.

Lemma map_inj_NoDup {A B} (f : A -> B) l a b : NoDup (map f l) -> a ∈ l -> b ∈ l -> f a = f b -> a = b.
Proof.
  induction l as [|x l IH]; intros Hnd Ha Hb E; [by apply not_elem_of_nil in Ha|]. cbn [map] in Hnd.
  apply NoDup_cons in Hnd as [Hx Hnd].
  apply elem_of_cons in Ha as [->|Ha], Hb as [->|Hb]; [done| | |by apply IH]; exfalso; apply Hx.
  - rewrite E. apply list_elem_of_fmap. by exists b.
  - rewrite <- E. apply list_elem_of_fmap. by exists a.
Qed.

Lemma collect_spec (foundMap : gmap string Email) ids : forall found nf,
  let '(found', nf') := foldl (collect foundMap) (found, nf) ids in
  found' = found ++ omap (fun id => foundMap !! id) ids
  /\ (forall id, id ∈ nf -> id ∈ nf')
  /\ (forall id, id ∈ ids -> foundMap !! id = None -> id ∈ nf').
Proof.
  induction ids as [|id ids IH]; intros found nf; cbn [foldl].
  { rewrite app_nil_r. set_solver. }
  unfold collect at 2. cbn [fst snd]. cbn [omap list_omap]. destruct (foundMap !! id) as [em|] eqn:E.
  - specialize (IH (found ++ [em]) nf). destruct (foldl _ _ ids) as [found' nf']. destruct IH as (-> & H1 & H2).
    rewrite <- app_assoc. split; [done|]. split; [done|]. intros x [->|Hx]%elem_of_cons; [congruence|by apply H2].
  - specialize (IH found (if str_in id nf then nf else nf ++ [id])).
    assert ((if str_in id nf then (found, nf) else (found, nf ++ [id]))
            = (found, if str_in id nf then nf else nf ++ [id])) as -> by by destruct (str_in id nf).
    destruct (foldl _ _ ids) as [found' nf']. destruct IH as (-> & H1 & H2). split; [done|].
    assert (id ∈ (if str_in id nf then nf else nf ++ [id])) as Hid.
    { destruct (str_in id nf) eqn:Es; [by apply str_in_spec|set_solver]. }
    split; [intros x Hx; apply H1; destruct (str_in id nf); set_solver|].
    intros x [->|Hx]%elem_of_cons Hn; [by apply H1|by apply H2].
Qed.

Section ReadLemmas.
Context `{GoRuntime}.
Variable ParseRFC822 : string -> option Email.
Variable sha256 : string -> string.

(** A mailbox and a UID that are in the groups. *)
Definition grouped (m : list (string * list Z)) (mbID : string) (uid : Z) : Prop :=
  exists l, (mbID, l) ∈ m /\ uid ∈ l.

Lemma grouped_append m k v mbID uid :
  grouped (group_append m k v) mbID uid <-> grouped m mbID uid \/ (mbID = k /\ uid = v).
Proof.
  unfold grouped. induction m as [|[k' l] m IH]; cbn [group_append].
  { split; [intros (l & Hl & Hu); right|intros [(l & Hl & _)|[-> ->]]; [by apply not_elem_of_nil in Hl|]].
    - apply list_elem_of_singleton in Hl as [= -> ->]. by apply list_elem_of_singleton in Hu.
    - exists [v]. split; by left. }
  destruct (String.eqb_spec k' k) as [->|Hne].
  - split.
    + intros (l' & [[= -> ->]|Hl]%elem_of_cons & Hu); [|left; exists l'; split; [by right|done]].
      apply elem_of_app in Hu as [Hu| ->%list_elem_of_singleton]; [left; exists l; split; [by left|done]|by right].
    + intros [(l' & [[= -> ->]|Hl]%elem_of_cons & Hu)|[-> ->]].
      * exists (l ++ [v]). split; [by left|]. apply elem_of_app. by left.
      * exists l'. split; [by right|done].
      * exists (l ++ [v]). split; [by left|]. apply elem_of_app. right. by left.
  - split.
    + intros (l' & [[= -> ->]|Hl]%elem_of_cons & Hu); [left; exists l; split; [by left|done]|].
      destruct IH as [IH _]. destruct IH as [(l2 & ? & ?)|?]; [eauto|left; exists l2; split; [by right|done]|by right].
    + intros [(l' & [[= -> ->]|Hl]%elem_of_cons & Hu)|Hkv]; [exists l; split; [by left|done]| |].
      all: destruct IH as [_ IH]; destruct IH as (l2 & ? & ?); [eauto|exists l2; split; [by right|done]].
Qed.

Variable moved : gmap string (gmap string string).
Variable c : Ctx.
Notation resolved := (resolve_email moved c).

(** What the first loop has collected from the ids it has seen. *)
Lemma group_ids_spec ids :
  let g := foldl (group_id moved c) (mkGroups ∅ [] []) ids in
  (forall r o, ig_alias g !! r = Some o -> o ∈ ids /\ resolved o = r /\ r <> o)
  /\ (forall id, id ∈ ids -> resolved id <> id -> is_Some (ig_alias g !! resolved id))
  /\ (forall mbID uid, grouped (ig_uids g) mbID uid <-> exists id, id ∈ ids /\ ParseEmailID (resolved id) = Ok (mbID, uid)).
Proof.
  induction ids as [|id ids (IH1 & IH2 & IH3)] using rev_ind; intros g.
  { unfold g, grouped. cbn [foldl ig_alias ig_uids]. split_and!; [by intros ??; rewrite lookup_empty|by intros ? ?%not_elem_of_nil|].
    intros mbID uid. split; [by intros (l & ?%not_elem_of_nil & _)|by intros (? & ?%not_elem_of_nil & _)]. }
  unfold g. rewrite foldl_app. cbn [foldl]. set (g0 := foldl (group_id moved c) (mkGroups ∅ [] []) ids) in *.
  assert (ig_alias (group_id moved c g0 id)
          = if String.eqb (resolved id) id then ig_alias g0 else <[resolved id := id]> (ig_alias g0)) as Ha.
  { unfold group_id. by destruct (ParseEmailID (resolved id)) as [[]|]. }
  assert (forall mbID uid, grouped (ig_uids (group_id moved c g0 id)) mbID uid
            <-> grouped (ig_uids g0) mbID uid \/ ParseEmailID (resolved id) = Ok (mbID, uid)) as Hg.
  { intros mbID uid. unfold group_id. destruct (ParseEmailID (resolved id)) as [[mb u]|]; cbn [ig_uids].
    - rewrite grouped_append. split; intros [?|E]; [by left|right|by left|right]; [by destruct E as [-> ->]|by simplify_eq].
    - split; [by left|by intros [?|?]]. }
  rewrite Ha. split_and!.
  - intros r o. destruct (String.eqb_spec (resolved id) id) as [E|E].
    + intros Ho. apply IH1 in Ho as (? & ? & ?). split; [|done]. apply elem_of_app. by left.
    + destruct (decide (resolved id = r)) as [<-|Hr].
      * rewrite lookup_insert_eq. intros [= <-]. split; [|done]. apply elem_of_app. right. by left.
      * rewrite lookup_insert_ne by done. intros Ho. apply IH1 in Ho as (? & ? & ?). split; [|done]. apply elem_of_app. by left.
  - intros x Hx Hne. destruct (String.eqb_spec (resolved id) id) as [E|E].
    + apply elem_of_app in Hx as [Hx| ->%list_elem_of_singleton]; [by apply IH2|done].
    + destruct (decide (resolved id = resolved x)) as [->|Hr]; [rewrite lookup_insert_eq; eauto|].
      rewrite lookup_insert_ne by done. apply elem_of_app in Hx as [Hx| ->%list_elem_of_singleton]; [by apply IH2|done].
  - intros mbID uid. rewrite Hg, IH3. setoid_rewrite elem_of_app. setoid_rewrite list_elem_of_singleton. naive_solver.
Qed.

(** The second loop: [alias] and the messages of the server are fixed. *)
Variable sn : ImapSnapshot.
Variable content : string -> option (list ImapMessage).

(** Fetching by UID returns the messages of the folder with one of the UIDs. *)
Definition serves_content : Prop := forall f uids,
  match content f with
  | None => exists e, sn_FetchMessagesByUIDs sn f uids = Err e
  | Some ms => sn_FetchMessagesByUIDs sn f uids = Ok (List.filter (fun m => existsb (Z.eqb (im_UID m)) uids) ms)
               /\ NoDup (map im_UID ms)
  end.
Hypothesis Hserves : serves_content.

(** The message of a folder with a UID, parsed. *)
Definition message_at (mbID : string) (uid : Z) : option (Email * ImapMessage) :=
  match NameForMailboxID mbID with
  | Err _ => None
  | Ok folder =>
      match content folder with
      | None => None
      | Some ms =>
          match List.find (fun m => im_UID m =? uid) ms with
          | None => None
          | Some msg => (fun p => (p, msg)) <$> parsed_message ParseRFC822 msg
          end
      end
  end.

(** The email an id stands for. *)
Definition email_at (id : string) : option Email :=
  match ParseEmailID (resolved id) with
  | Err _ => None
  | Ok (mbID, uid) =>
      (fun pm => complete_email sha256 (fst pm) id (EmailIDFor mbID uid) mbID (snd pm)) <$> message_at mbID uid
  end.

Lemma find_uid ms msg : NoDup (map im_UID ms) -> msg ∈ ms -> List.find (fun m => im_UID m =? im_UID msg) ms = Some msg.
Proof.
  induction ms as [|m ms IH]; intros Hnd Hin; [by apply not_elem_of_nil in Hin|]. cbn [map] in Hnd.
  apply NoDup_cons in Hnd as [Hm Hnd]. simpl. apply elem_of_cons in Hin as [->|Hin]; [by rewrite Z.eqb_refl|].
  destruct (Z.eqb_spec (im_UID m) (im_UID msg)) as [E|]; [|by apply IH].
  exfalso. apply Hm. rewrite E. apply list_elem_of_fmap. by exists msg.
Qed.

Section Fetch.
Variable alias : gmap string string.

(** Where an entry of the found map comes from. *)
Definition found_from (G : string -> Z -> Prop) (k : string) (em : Email) : Prop :=
  exists mbID msg p, G mbID (im_UID msg) /\ message_at mbID (im_UID msg) = Some (p, msg)
    /\ let e := EmailIDFor mbID (im_UID msg) in
       (k = e \/ alias !! e = Some k) /\ em = complete_email sha256 p (default e (alias !! e)) e mbID msg.

Lemma found_message_spec G mbID fm msg :
  (forall k em, fm !! k = Some em -> found_from G k em) ->
  (forall p, parsed_message ParseRFC822 msg = Some p -> G mbID (im_UID msg) /\ message_at mbID (im_UID msg) = Some (p, msg)) ->
  let fm' := found_message ParseRFC822 sha256 alias mbID fm msg in
  (forall k em, fm' !! k = Some em -> found_from G k em)
  /\ (forall k, is_Some (fm !! k) -> is_Some (fm' !! k))
  /\ (forall p, parsed_message ParseRFC822 msg = Some p ->
       let e := EmailIDFor mbID (im_UID msg) in is_Some (fm' !! e) /\ forall o, alias !! e = Some o -> is_Some (fm' !! o)).
Proof.
  intros Hfm Hmsg. unfold found_message. destruct (parsed_message ParseRFC822 msg) as [p|]; [|done].
  destruct (Hmsg p eq_refl) as [Hg Hm]. set (e := EmailIDFor mbID (im_UID msg)). cbv zeta.
  destruct (alias !! e) as [o|] eqn:Ea; split_and!.
  - intros k em. rewrite !lookup_insert. repeat case_decide; subst; intros E; try (injection E as <-); [..|by apply Hfm].
    all: exists mbID, msg, p; cbv zeta; fold e; rewrite Ea; cbn [from_option id]; split_and!; try done; first [by left|by right].
  - intros k [v Hk]. rewrite !lookup_insert. repeat case_decide; eauto.
  - intros p' [= <-]. rewrite !lookup_insert. split; [by rewrite decide_True|].
    intros o' [= <-]. rewrite lookup_insert. case_decide; [eauto|]. rewrite lookup_insert_eq. eauto.
  - intros k em. rewrite lookup_insert. case_decide; subst; [|by apply Hfm]. intros [= <-].
    exists mbID, msg, p. cbv zeta. fold e. rewrite Ea. cbn [from_option id]. split_and!; try done. by left.
  - intros k Hk. rewrite lookup_insert. case_decide; eauto.
  - intros p' [= <-]. rewrite lookup_insert. split; [by rewrite decide_True|done].
Qed.

Definition present (fm : gmap string Email) (mbID : string) (uid : Z) : Prop :=
  let e := EmailIDFor mbID uid in is_Some (fm !! e) /\ forall o, alias !! e = Some o -> is_Some (fm !! o).
Definition from_groups (G : string -> Z -> Prop) (fm : gmap string Email) : Prop :=
  forall k em, fm !! k = Some em -> found_from G k em.
Definition extends (fm fm' : gmap string Email) : Prop := forall k, is_Some (fm !! k) -> is_Some (fm' !! k).

Lemma present_extends fm fm' mbID uid : extends fm fm' -> present fm mbID uid -> present fm' mbID uid.
Proof. intros He [H1 H2]. split; [by apply He|]. intros o Ho. by apply He, H2. Qed.

Lemma found_messages_spec G mbID msgs : forall fm,
  from_groups G fm ->
  (forall msg p, msg ∈ msgs -> parsed_message ParseRFC822 msg = Some p ->
     G mbID (im_UID msg) /\ message_at mbID (im_UID msg) = Some (p, msg)) ->
  let fm' := foldl (found_message ParseRFC822 sha256 alias mbID) fm msgs in
  from_groups G fm' /\ extends fm fm'
  /\ forall msg p, msg ∈ msgs -> parsed_message ParseRFC822 msg = Some p -> present fm' mbID (im_UID msg).
Proof.
  induction msgs as [|msg msgs IH]; intros fm Hfm Hmsgs; cbn [foldl].
  { split; [done|]. split; [by intros k|]. by intros ? ? ?%not_elem_of_nil. }
  destruct (found_message_spec G mbID fm msg Hfm) as (H1 & H2 & H3); [intros p; apply Hmsgs; by left|].
  destruct (IH _ H1) as (H4 & H5 & H6); [intros m p Hm; apply Hmsgs; by right|].
  split; [done|]. split; [by intros k Hk; apply H5, H2|].
  intros m p [->|Hm]%elem_of_cons Hp; [|by eapply H6]. eapply present_extends; [exact H5|]. by eapply H3.
Qed.

Lemma message_at_Some mbID uid p msg :
  message_at mbID uid = Some (p, msg) ->
  im_UID msg = uid /\ parsed_message ParseRFC822 msg = Some p
  /\ exists folder ms, NameForMailboxID mbID = Ok folder /\ content folder = Some ms /\ msg ∈ ms.
Proof.
  unfold message_at. destruct (NameForMailboxID mbID) as [folder|] eqn:En; [|done].
  destruct (content folder) as [ms|] eqn:Ec; [|done].
  destruct (List.find _ ms) as [m|] eqn:Ef; [|done]. apply find_some in Ef as [Hin Hu%Z.eqb_eq].
  destruct (parsed_message ParseRFC822 m) as [q|] eqn:Ep; [|done]. intros [= <- <-].
  split_and!; [done..|]. exists folder, ms. split_and!; [done..|]. by apply list_elem_of_In.
Qed.

Lemma fetch_group_spec G fm nf mbID uids :
  from_groups G fm -> (forall uid, uid ∈ uids -> G mbID uid) ->
  let '(fm', _) := fetch_group ParseRFC822 sha256 sn alias (fm, nf) (mbID, uids) in
  from_groups G fm' /\ extends fm fm'
  /\ forall uid p msg, uid ∈ uids -> message_at mbID uid = Some (p, msg) -> present fm' mbID uid.
Proof.
  intros Hfm HG. unfold fetch_group. destruct (NameForMailboxID mbID) as [folder|] eqn:En.
  2: { split; [done|]. split; [by intros k|]. intros uid p msg _ Hm. apply message_at_Some in Hm as (_ & _ & f & ms & ? & _). congruence. }
  pose proof (Hserves folder uids) as Hs. destruct (content folder) as [ms|] eqn:Ec.
  2: { destruct Hs as [e ->]. split; [done|]. split; [by intros k|]. intros uid p msg _ Hm.
       apply message_at_Some in Hm as (_ & _ & f & ms & ? & ? & _). congruence. }
  destruct Hs as [-> Hnd].
  destruct (found_messages_spec G mbID (List.filter (fun m => existsb (Z.eqb (im_UID m)) uids) ms) fm Hfm) as (H1 & H2 & H3).
  { intros msg p Hin Hp. apply list_elem_of_In, filter_In in Hin as [Hin Hu]. apply existsb_exists in Hu as (u & Hu & <-%Z.eqb_eq).
    apply list_elem_of_In in Hin, Hu. split; [by apply HG|]. unfold message_at. rewrite En, Ec, (find_uid ms msg), Hp by done. done. }
  split; [done|]. split; [done|]. intros uid p msg Hu Hm. apply message_at_Some in Hm as (<- & Hp & f & ms' & Hn & Hc & Hin).
  assert (f = folder) as -> by congruence. assert (ms' = ms) as -> by congruence.
  apply (H3 msg p); [|done]. apply list_elem_of_In, filter_In. split; [by apply list_elem_of_In|].
  apply existsb_exists. exists (im_UID msg). split; [by apply list_elem_of_In|apply Z.eqb_refl].
Qed.

Lemma fetch_groups_spec G groups : forall fm nf,
  from_groups G fm -> (forall mbID uid, grouped groups mbID uid -> G mbID uid) ->
  let '(fm', _) := foldl (fetch_group ParseRFC822 sha256 sn alias) (fm, nf) groups in
  from_groups G fm' /\ extends fm fm'
  /\ forall mbID uid p msg, grouped groups mbID uid -> message_at mbID uid = Some (p, msg) -> present fm' mbID uid.
Proof.
  induction groups as [|[mbID uids] groups IH]; intros fm nf Hfm HG; cbn [foldl].
  { split; [done|]. split; [by intros k|]. by intros ? ? ? ? (l & ?%not_elem_of_nil & _). }
  pose proof (fetch_group_spec G fm nf mbID uids Hfm) as H1.
  destruct (fetch_group ParseRFC822 sha256 sn alias (fm, nf) (mbID, uids)) as [fm1 nf1].
  destruct H1 as (H1 & H2 & H3); [intros uid Hu; apply HG; exists uids; split; [by left|done]|].
  specialize (IH fm1 nf1 H1). destruct (foldl _ _ groups) as [fm2 nf2].
  destruct IH as (H4 & H5 & H6); [intros m u (l & Hl & Hu); apply HG; exists l; split; [by right|done]|].
  split; [done|]. split; [by intros k Hk; apply H5, H2|].
  intros m u p msg (l & [[= -> ->]|Hl]%elem_of_cons & Hu) Hm.
  - eapply present_extends; [exact H5|]. by eapply H3.
  - eapply H6; [|done]. by exists l.
Qed.
End Fetch.

(** The ids of a call are in the form the server gives out, and no two of them
    stand for the same message. *)
Record plain_request (ids : list string) : Prop := {
  pr_inj : forall a b, a ∈ ids -> b ∈ ids -> resolved a = resolved b -> a = b;
  pr_idem : forall a, a ∈ ids -> resolved (resolved a) = resolved a;
  pr_canonical : forall a mbID uid, a ∈ ids -> ParseEmailID (resolved a) = Ok (mbID, uid) -> EmailIDFor mbID uid = resolved a;
}.

Lemma found_map_spec ids order :
  plain_request ids -> (forall l, order l ≡ₚ l) ->
  let g := foldl (group_id moved c) (mkGroups ∅ [] []) ids in
  let fm := fst (foldl (fetch_group ParseRFC822 sha256 sn (ig_alias g)) (∅, ig_notFound g) (order (ig_uids g))) in
  forall id, id ∈ ids -> fm !! id = email_at id.
Proof.
  intros [Hinj Hidem Hcan] Hord g fm id Hid. destruct (group_ids_spec ids) as (Ha & Ha' & Hg). fold g in Ha, Ha', Hg.
  pose proof (fetch_groups_spec (ig_alias g) (grouped (ig_uids g)) (order (ig_uids g)) ∅ (ig_notFound g)) as Hf.
  destruct (foldl _ _ (order (ig_uids g))) as [fm' nf'] eqn:Efold. unfold fm. cbn [fst]. clear fm.
  destruct Hf as (H1 & _ & H3); [by intros k em; rewrite lookup_empty|intros m u (l & Hl & Hu); rewrite Hord in Hl; by exists l|].
  assert (forall em, fm' !! id = Some em -> email_at id = Some em) as Hsound.
  { intros em Hem. apply H1 in Hem as (mbID & msg & p & Hgr & Hm & Hk & ->).
    apply Hg in Hgr as (a & Hina & Hpa). pose proof (Hcan _ _ _ Hina Hpa) as He.
    assert (id = a) as ->.
    { destruct Hk as [Hk|Hk].
      - apply Hinj; [done..|]. rewrite Hk, He. by apply Hidem.
      - apply Ha in Hk as (_ & Hk & _). apply Hinj; [done..|]. by rewrite Hk. }
    assert (default (EmailIDFor mbID (im_UID msg)) (ig_alias g !! EmailIDFor mbID (im_UID msg)) = a) as ->.
    { destruct (ig_alias g !! EmailIDFor mbID (im_UID msg)) as [o|] eqn:Eo; cbn [from_option id].
      - apply Ha in Eo as (Ho & Hr & _). apply Hinj; [done..|]. by rewrite Hr.
      - destruct (decide (resolved a = a)) as [Er|Er]; [by rewrite He|].
        destruct (Ha' a Hina Er) as [o Ho]. rewrite <- He in Ho. congruence. }
    unfold email_at. by rewrite Hpa, Hm. }
  destruct (fm' !! id) as [em|] eqn:Em; [by rewrite (Hsound em)|].
  destruct (email_at id) as [em|] eqn:Ee; [|done]. exfalso. unfold email_at in Ee.
  destruct (ParseEmailID (resolved id)) as [[mbID uid]|] eqn:Ep; [|done].
  destruct (message_at mbID uid) as [[p msg]|] eqn:Em2; [|done].
  destruct (H3 mbID uid p msg) as [Hp1 Hp2]; [|done|].
  { assert (grouped (ig_uids g) mbID uid) as (l & Hl & Hu) by (apply Hg; eauto). exists l. split; [by rewrite Hord|done]. }
  rewrite (Hcan _ _ _ Hid Ep) in Hp1, Hp2. destruct (decide (resolved id = id)) as [Er|Er].
  - rewrite Er, Em in Hp1. by destruct Hp1.
  - destruct (Ha' id Hid Er) as [o Ho]. pose proof (Ha _ _ Ho) as (Hoin & Hro & _).
    assert (o = id) as -> by (by apply Hinj). apply Hp2 in Ho. rewrite Em in Ho. by destruct Ho.
Qed.
End ReadLemmas.

Lemma SortEmails_spec `{GoRuntime} emails cs :
  SortEmails emails cs ≡ₚ emails
  /\ exists all any, StronglySorted (fun a b => compare_emails all any (default_comparators cs) a b <> Gt) (SortEmails emails cs).
Proof.
  unfold SortEmails, SortEmailsWithContext. cbv zeta.
  match goal with |- stable_sort (email_less ?all ?any ?c) _ ≡ₚ _ /\ _ =>
    destruct (stable_sort_spec (compare_emails all any c) (lawful_compare_emails all any c) emails) as (Hp & Hs & _) end.
  split; [exact Hp|]. eexists _, _. exact Hs.
Qed.

(** ** Properties *)

(** C24: Email/get over IMAP is a lookup: when the server answers a fetch with
    the messages of the folder that have the UIDs, and no two of the ids stand
    for the same message, GetEmails returns, in the order of the ids, the email
    each id stands for after following the moves, under the id it was asked
    for by, and reports every other id as not found; the order in which the
    mailboxes are visited does not matter. *)
Theorem get_emails_refines_lookup `{GoRuntime} ParseRFC822 sha256 moved c sn content order ids
    (Hs : serves_content sn content) (Hp : plain_request moved c ids) (Hord : forall l, order l ≡ₚ l) :
  let '(found, notFound, err) := GetEmails ParseRFC822 sha256 order None sn moved c ids in
  err = None
  /\ found = omap (email_at ParseRFC822 sha256 moved c content) ids
  /\ forall id, id ∈ ids -> email_at ParseRFC822 sha256 moved c content id = None -> id ∈ notFound.
Proof.
  unfold GetEmails.
  pose proof (found_map_spec ParseRFC822 sha256 moved c sn content Hs ids order Hp Hord) as Hfm. cbv zeta in Hfm.
  destruct (foldl (fetch_group _ _ _ _) _ _) as [fm nf]. cbn [fst] in Hfm.
  pose proof (collect_spec fm ids [] nf) as Hc. destruct (foldl (collect fm) ([], nf) ids) as [found nf'].
  destruct Hc as (-> & _ & H2). split; [done|]. split.
  - cbn [app]. by apply omap_ext_elem.
  - intros id Hid Hn. apply H2; [done|]. by rewrite Hfm.
Qed.

(** A folder with two messages; the parser takes the body for the subject. *)
Definition subject_email (s : string) : option Email :=
  Some (mkEmail EmptyString EmptyString EmptyString [] [] 0 EmptyString [s] [] [] [] [] [] [] [] [] s None []
          demo_part [] [] [] [] false EmptyString).
Definition demo_content (f : string) : option (list ImapMessage) :=
  if String.eqb f "INBOX" then Some [mkMessage 1 [] "one" (Some "2024-01-01T00:00:00Z"); mkMessage 2 ["\Seen"] "two" None]
  else None.
Definition demo_snapshot : ImapSnapshot :=
  mkSnapshot (Ok [folder "INBOX" "/" 2])
    (fun f uids => match demo_content f with
                   | Some ms => Ok (List.filter (fun m => existsb (Z.eqb (im_UID m)) uids) ms)
                   | None => Err "no such folder"
                   end)
    (fun f => match demo_content f with Some ms => Ok ms | None => Err "no such folder" end)
    (fun _ _ => Ok []).
Definition demo_moves : gmap string (gmap string string) := trackMovedEmail ∅ EmptyString "mb-work-9" "mb-inbox-2".

Lemma demo_serves : serves_content demo_snapshot demo_content.
Proof.
  intros f uids. cbn [demo_snapshot sn_FetchMessagesByUIDs]. unfold demo_content. destruct (String.eqb f "INBOX"); [|eauto].
  split; [done|]. apply (bool_decide_unpack _). vm_compute. exact I.
Qed.

Lemma get_emails_refines_lookup_witness :
  let ids := ["mb-work-9"; "mb-inbox-7"; "mb-inbox-1"] in
  let '(found, notFound, err) := GetEmails (H := ascii_runtime) subject_email (fun s => s) (fun l => l) None demo_snapshot
                                   demo_moves Background ids in
  err = None /\ map (fun e => (em_ID e, em_Subject e)) found = [("mb-work-9", "two"); ("mb-inbox-1", "one")]
  /\ "mb-inbox-7" ∈ notFound.
Proof.
  intros ids.
  pose proof (get_emails_refines_lookup (H := ascii_runtime) subject_email (fun s => s) demo_moves Background demo_snapshot
                demo_content (fun l => l) ids demo_serves) as Hg.
  destruct (GetEmails _ _ _ _ _ _ _ _) as [[found notFound] err].
  destruct Hg as (He & Hf & Hn).
  - split.
    + intros a b Ha Hb. apply (map_inj_NoDup (resolve_email demo_moves Background) ids); [|done..].
      apply (bool_decide_unpack _). vm_compute. exact I.
    + refine (proj1 (Forall_forall _ _) _). repeat constructor; vm_compute; reflexivity.
    + intros a mbID uid Ha. revert a Ha mbID uid. refine (proj1 (Forall_forall _ _) _). unfold ids.
      repeat (constructor; [intros mbID uid; vm_compute; intros E; injection E as <- <-; reflexivity|]). constructor.
  - done.
  - split; [done|]. split; [rewrite Hf; vm_compute; reflexivity|]. apply Hn; [by right; left|vm_compute; reflexivity].
Defined.

(** two ids of one message in a call: a message that was moved twice is
    found under one of its two old ids only, the other is reported as not
    found; and when an old id is asked for together with the current one, both
    entries of the response carry the old id. *)
Theorem moved_ids_collide :
  let moved := trackMovedEmail demo_moves EmptyString "mb-work-8" "mb-inbox-2" in
  let get ids := GetEmails (H := ascii_runtime) subject_email (fun s => s) (fun l => l) None demo_snapshot moved Background ids in
  (let '(found, notFound, _) := get ["mb-work-8"; "mb-work-9"] in
   map em_ID found = ["mb-work-9"] /\ notFound = ["mb-work-8"])
  /\ (let '(found, notFound, _) := get ["mb-inbox-2"; "mb-work-9"] in
      map em_ID found = ["mb-work-9"; "mb-work-9"] /\ notFound = []).
Proof. vm_compute. done. Qed.

(** Email/query over IMAP pages through the sorted matches: the ids are
    those of the emails that match the filter, as often as they are listed,
    ordered by the comparators (newest first by default), and the page is the
    window that position and limit describe, for positions and limits below
    2^62. *)
Theorem imap_query_pages `{GoRuntime} html_Parse emails filter comparators position limit
    (Hpos : - 2 ^ 62 <= position < 2 ^ 62) (Hlim : forall l, limit = Some l -> 0 <= l < 2 ^ 62)
    (Hlen : Z.of_nat (length emails) < 2 ^ 62) :
  let ids := email_results html_Parse emails filter comparators in
  let start := NormalizePosition position (Z.of_nat (length ids)) in
  query_emails html_Parse emails filter comparators position limit
  = Some (match limit with
          | Some l => take (Z.to_nat l) (drop (Z.to_nat start) ids)
          | None => drop (Z.to_nat start) ids
          end, Z.of_nat (length ids))
  /\ exists sorted all any, ids = map em_ID sorted
     /\ sorted ≡ₚ List.filter (fun em => MatchesFilterWithThreadContext html_Parse em filter
                                          (Some (BuildThreadFilterContext emails))) emails
     /\ StronglySorted (fun a b => compare_emails all any
          (default_comparators (match comparators with
                                | [] => [mkComparator "receivedAt" false EmptyString EmptyString]
                                | _ => comparators end)) a b <> Gt) sorted.
Proof.
  intros ids start.
  assert (exists sorted all any, ids = map em_ID sorted
     /\ sorted ≡ₚ List.filter (fun em => MatchesFilterWithThreadContext html_Parse em filter
                                          (Some (BuildThreadFilterContext emails))) emails
     /\ StronglySorted (fun a b => compare_emails all any
          (default_comparators (match comparators with
                                | [] => [mkComparator "receivedAt" false EmptyString EmptyString]
                                | _ => comparators end)) a b <> Gt) sorted) as Hsort.
  { unfold ids, email_results. destruct (SortEmails_spec (List.filter (fun em => MatchesFilterWithThreadContext html_Parse em
      filter (Some (BuildThreadFilterContext emails))) emails) (match comparators with
        | [] => [mkComparator "receivedAt" false EmptyString EmptyString] | _ => comparators end)) as (Hp & all & any & Hs).
    eexists _, all, any. split; [done|]. by split. }
  split; [|done]. destruct Hsort as (sorted & _ & _ & Hids & Hperm & _).
  assert (Z.of_nat (length ids) < 2 ^ 62) as Hids62.
  { rewrite Hids, length_map, Hperm. pose proof (filter_shorter (fun em => MatchesFilterWithThreadContext html_Parse em
      filter (Some (BuildThreadFilterContext emails))) emails). lia. }
  unfold query_emails. fold ids. cbv zeta. fold start.
  assert (0 <= start < 2 ^ 62) as Hstart.
  { unfold start, NormalizePosition, i64. cbv zeta. destruct (position <? 0) eqn:E; [|lia].
    rewrite Z.mod_small by lia. case_match; lia. }
  destruct (Z.of_nat (length ids) <=? start) eqn:Etot.
  { rewrite (drop_ge ids) by lia. by destruct limit; rewrite ?take_nil. }
  unfold go_slice, slice. destruct limit as [l|].
  - specialize (Hlim l eq_refl). rewrite (i64_small l) by lia. rewrite i64_small by lia.
    destruct (start + l <? Z.of_nat (length ids)) eqn:El.
    + replace ((0 <=? start) && (start <=? start + l) && (start + l <=? Z.of_nat (length ids))) with true by lia.
      cbn [fmap option_fmap option_map]. repeat f_equal. lia.
    + replace ((0 <=? start) && (start <=? Z.of_nat (length ids)) && (Z.of_nat (length ids) <=? Z.of_nat (length ids)))
        with true by lia. cbn [fmap option_fmap option_map]. rewrite !take_ge; [done|rewrite length_drop; lia..].
  - replace ((0 <=? start) && (start <=? Z.of_nat (length ids)) && (Z.of_nat (length ids) <=? Z.of_nat (length ids)))
      with true by lia. cbn [fmap option_fmap option_map]. rewrite take_ge; [done|rewrite length_drop; lia].
Qed.

Definition dated (id at_ : string) : Email :=
  mkEmail id id ("t-" +:+ id) [("mb-inbox", true)] [] 100 at_ [] [] [] [] [] [] [] [] [] "Hello" None []
    demo_part [] [] [] [] false EmptyString.

Lemma imap_query_pages_witness :
  query_emails (H := ascii_runtime) (fun _ => None) [dated "a" "2024-01-01"; dated "b" "2024-01-03"; dated "c" "2024-01-02"]
    [] [] (-2) (Some 1) = Some (["c"], 3).
Proof.
  etransitivity; [|vm_compute; reflexivity].
  - apply (imap_query_pages (H := ascii_runtime) (fun _ => None)
             [dated "a" "2024-01-01"; dated "b" "2024-01-03"; dated "c" "2024-01-02"] [] [] (-2) (Some 1)); [lia| |vm_compute; reflexivity].
    intros l [= <-]. lia.
Defined.

(** a limit of 2^63 or more is a negative number after the conversion to
    int, the end of the page falls before its start, and the slice panics: the
    whole request is lost.  The number check of the API endpoint lets such a
    limit pass. *)
Theorem huge_limit_panics `{GoRuntime} html_Parse emails filter comparators limit
    (Hne : email_results html_Parse emails filter comparators <> [])
    (Hlen : Z.of_nat (length (email_results html_Parse emails filter comparators)) < 2 ^ 62)
    (Hlim : 2 ^ 63 <= limit < 2 ^ 64) :
  query_emails html_Parse emails filter comparators 0 (Some limit) = None
  /\ check_numbers "Email/query" [("limit", JNum (f64_of_Z (2 ^ 63)))] = Ok tt
  /\ f64_to_uint64 (f64_of_Z (2 ^ 63)) = 2 ^ 63.
Proof.
  split; [|split; vm_compute; reflexivity]. unfold query_emails. cbv zeta.
  set (ids := email_results html_Parse emails filter comparators) in *.
  replace (NormalizePosition 0 (Z.of_nat (length ids))) with 0 by done.
  destruct ids as [|x ids'] eqn:Eids; [done|]. rewrite <- Eids in *.
  assert (0 < Z.of_nat (length ids)) by (rewrite Eids; simpl; lia).
  replace (Z.of_nat (length ids) <=? 0) with false by lia.
  assert (i64 limit = limit - 2 ^ 64) as ->.
  { unfold i64. rewrite <- (Z.mod_add _ (-1)) by lia. rewrite Z.mod_small; lia. }
  rewrite (i64_small (0 + (limit - 2 ^ 64))) by lia.
  replace (0 + (limit - 2 ^ 64) <? Z.of_nat (length ids)) with true by lia.
  unfold go_slice. replace ((0 <=? 0) && (0 <=? 0 + (limit - 2 ^ 64)) && _) with false; [done|].
  replace (0 <=? 0 + (limit - 2 ^ 64)) with false by lia. by rewrite andb_false_r.
Qed.

Lemma huge_limit_panics_witness :
  query_emails (H := ascii_runtime) (fun _ => None) [dated "a" "2024-01-01"] [] [] 0 (Some (2 ^ 63)) = None.
Proof.
  apply (huge_limit_panics (H := ascii_runtime) (fun _ => None) [dated "a" "2024-01-01"] [] [] (2 ^ 63));
    [vm_compute; discriminate|vm_compute; reflexivity|lia].
Defined.

(** threads partition the emails: GetAllThreads returns each thread once,
    with the ids of exactly the emails of that thread in the order they were
    read, whatever the iteration order of its map; and GetThreads returns the
    same list for a thread it is asked for, and reports a thread without
    emails as not found. *)
Theorem threads_partition_emails `{GoRuntime} ParseRFC822 sha256 order sn emails
    (Hall : GetAllEmails ParseRFC822 sha256 None sn = Ok emails)
    (Hnd : NoDup (map em_ID emails)) (Hord : forall l, order l ≡ₚ l) :
  (exists threads, GetAllThreads ParseRFC822 sha256 order None sn = Ok threads
     /\ NoDup (map th_ID threads)
     /\ forall th, th ∈ threads <->
          th_EmailIDs th = map em_ID (List.filter (in_thread (th_ID th)) emails) /\ th_EmailIDs th <> [])
  /\ forall t, str_in t ["thread-2"; "thread-1"] = false ->
       GetThreads ParseRFC822 sha256 None sn [t]
       = match map em_ID (List.filter (in_thread t) emails) with
         | [] => ([], [t], None)
         | l => ([mkThread t l], [], None)
         end.
Proof.
  unfold GetAllThreads, GetThreads. rewrite Hall. destruct (thread_map_keys emails) as [Hk _]. split.
  - eexists. split; [done|]. split.
    { rewrite map_map. cbn [th_ID]. assert (map fst (order (thread_map emails)) ≡ₚ map fst (thread_map emails)) as Hp
        by (by apply Permutation_map). by rewrite Hp. }
    intros [t l]. cbn [th_ID th_EmailIDs].
    transitivity (thread_get (thread_map emails) t = Some l).
    + rewrite <- (thread_get_elem _ _ _ Hk). split.
      * intros ([t' l'] & [= -> ->] & Hin)%list_elem_of_fmap. by rewrite Hord in Hin.
      * intros Hin. apply list_elem_of_fmap. exists (t, l). split; [done|]. by rewrite Hord.
    + rewrite thread_map_get by done. destruct (map em_ID (List.filter (in_thread t) emails)) as [|x l']; [naive_solver|].
      split; [by intros [= <-]|]. by intros [-> _].
  - intros t Ht. cbn [omap list_omap List.filter]. unfold get_thread. rewrite Ht, thread_map_get by done.
    by destruct (map em_ID (List.filter (in_thread t) emails)).
Qed.

Lemma threads_partition_emails_witness :
  GetThreads (H := ascii_runtime) subject_email (fun s => s) None demo_snapshot ["two"]
  = ([mkThread "two" ["mb-inbox-2"]], [], None).
Proof.
  edestruct (threads_partition_emails (H := ascii_runtime) subject_email (fun s => s) (fun l => l) demo_snapshot) as [_ Ht];
    [vm_compute; reflexivity|apply (bool_decide_unpack _); vm_compute; exact I|done|].
  rewrite Ht; vm_compute; reflexivity.
Defined.
