(* ===== verification/EmailQuery.v ===== *)
(** * Email/query, Email/queryChanges and Thread methods

    [jmap/jmapmail/email_query_handlers.go] and [thread_handlers.go] over a
    mail backend.  A panic (a slice out of range, here or in the backend) loses
    the request: the handler then has no result. *)

From S2P Require Import Prelude GoSort GoStrings GoState Base64 Json Envelope CreationRefs Query Handler Server MailTypes ImapConvert MailQuery MethodSupport ImapStores ExtStore ImapMailboxes ImapEmails.
From Stdlib Require Import SpecFloat.

(** ** The backend *)

(** The email and thread operations of [MailBackend] that these methods call.
    [QueryEmails] returns the ids (nil on an error) and the total; it may
    panic. *)
Record EmailOps (W : Type) : Type := mkEmailOps {
  eo_State : Ctx -> W -> string;
  eo_Changes : Ctx -> string -> option Z -> St W (list string * list string * list string * string * bool);
  eo_Get : Ctx -> list string -> St W (list Email * list string * option go_error);
  eo_Query : Ctx -> obj -> list Comparator -> Z -> option Z -> St W (option (option (list string) * Z));
  to_State : Ctx -> W -> string;
  to_Changes : Ctx -> string -> option Z -> St W (list string * list string * list string * string * bool);
  to_Get : Ctx -> list string -> St W (list Thread * list string * option go_error);
  to_GetAll : Ctx -> St W (list Thread * option go_error);
}.
Arguments eo_State {W} _ _ _.
Arguments eo_Changes {W} _ _ _ _ _.
Arguments eo_Get {W} _ _ _ _.
Arguments eo_Query {W} _ _ _ _ _ _ _.
Arguments to_State {W} _ _ _.
Arguments to_Changes {W} _ _ _ _ _.
Arguments to_Get {W} _ _ _ _.
Arguments to_GetAll {W} _ _ _.

(** A nil slice marshals to null. *)
Definition ids_json (ids : option (list string)) : json := match ids with Some l => jstrs l | None => JNull end.

(** ** The filter *)

Definition check_header (filter : obj) : string :=
  match obj_get filter "header" with
  | None => EmptyString
  | Some (JArr [JStr _]) | Some (JArr [JStr _; JStr _]) => EmptyString
  | Some (JArr [JStr _; _]) => "second element of header filter must be a string"
  | Some (JArr [_]) | Some (JArr [_; _]) => "first element of header filter must be a string"
  | Some _ => "header filter property must be an array of 1 or 2 elements"
  end.

Section Validate.
Context `{GoRuntime}.

Fixpoint validate_email_filter (fuel : nat) (filter : obj) : string :=
  let err := ValidateFilter filter in
  if negb (String.eqb err EmptyString) then err
  else match get_present filter "operator" with
       | Some _ =>
           match fuel with
           | O => EmptyString
           | S f =>
               first_message (fun c => match c with JObj m => validate_email_filter f m | _ => EmptyString end)
                 (default [] (get_arr filter "conditions"))
           end
       | None => check_header filter
       end.
Definition ValidateEmailFilter (filter : obj) : string := validate_email_filter (json_depth (JObj filter)) filter.
End Validate.

(** ** Collapsing threads *)

(** [emailMap[id]]: the last email of the list with the id. *)
Definition email_by_id (emails : list Email) (id : string) : option Email :=
  List.find (fun em => String.eqb (em_ID em) id) (rev emails).

(** The first id of every thread; an id without an email is kept. *)
Fixpoint collapse_from (emails : list Email) (seen : list string) (ids : list string) : list string :=
  match ids with
  | [] => []
  | id :: ids' =>
      match email_by_id emails id with
      | Some em => if str_in (em_ThreadID em) seen then collapse_from emails seen ids'
                   else id :: collapse_from emails (em_ThreadID em :: seen) ids'
      | None => id :: collapse_from emails seen ids'
      end
  end.
Definition collapse (emails : list Email) (ids : list string) : list string := collapse_from emails [] ids.

(** The page of the collapsed list: position and ids, [None] on a panic. *)
Definition collapsed_page (position : Z) (limit : option Z) (ids : list string) : option (Z * option (list string)) :=
  let len := Z.of_nat (length ids) in
  let position := NormalizePosition position len in
  if len <? position then Some (position, Some [])
  else
    let end_ := match limit with
                | Some l => if i64 (position + i64 l) <? len then i64 (position + i64 l) else len
                | None => len
                end in
    match ids with
    | [] => (fun _ => (position, None)) <$> go_slice position end_ ids
    | _ => (fun p => (position, Some p)) <$> go_slice position end_ ids
    end.

(** ** Methods *)

Section Methods.
Context `{GoRuntime} {W : Type}.
Variable b : EmailOps W.

(** The checks both query methods start with. *)
Definition check_query (args : obj) : option (string * obj) :=
  let filterErr := match get_obj args "filter" with Some f => ValidateEmailFilter f | None => EmptyString end in
  if negb (String.eqb filterErr EmptyString)
  then Some ("error", MethodErrorArgs MethodErrorInvalidArguments filterErr)
  else match ValidateComparators (ParseComparators args) EmailSortableProperties with
       | (EmptyString, _) => None
       | (errType, errMsg) => Some ("error", MethodErrorArgs errType errMsg)
       end.

Definition anchor_missing (anchor : string) : string * obj :=
  ("error", MethodErrorArgs MethodErrorAnchorNotFound ("anchor not found in results: " +:+ anchor)).

(** The position, the ids and the total of the page, or an error response. *)
Definition query_ids (c : Ctx) (args : obj) (position : Z) (anchor : string) (anchorOffset : Z) (limit : option Z)
    (collapseThreads : bool) : St W (option (result (string * obj) (Z * option (list string) * Z))) :=
  let filter := default [] (get_obj args "filter") in
  let comparators := ParseComparators args in
  let anchored (ids : list string) (total : Z) :=
    match ApplyQueryAnchor anchor anchorOffset ids limit with
    | None => Err (anchor_missing anchor)
    | Some (pos, page) => Ok (pos, Some page, total)
    end in
  if collapseThreads then
    r ← eo_Query b c filter comparators 0 None;
    match r with
    | None => mret None
    | Some (allIDs, _) =>
        let allIDs := default [] allIDs in
        emails ← (match allIDs with [] => mret [] | _ => r ← eo_Get b c allIDs; mret (fst (fst r)) end);
        let collapsed := collapse emails allIDs in
        let total := Z.of_nat (length collapsed) in
        mret (if negb (String.eqb anchor EmptyString) then Some (anchored collapsed total)
              else (fun r => Ok (fst r, snd r, total)) <$> collapsed_page position limit collapsed)
    end
  else if negb (String.eqb anchor EmptyString) then
    r ← eo_Query b c filter comparators 0 None;
    mret ((fun r => anchored (default [] (fst r)) (snd r)) <$> r)
  else
    r ← eo_Query b c filter comparators position limit;
    mret ((fun r => Ok (NormalizePosition position (snd r), fst r, snd r)) <$> r).

Definition HandleEmailQuery (c : Ctx) (args : obj) : St W (option (string * obj)) :=
  let accountID := str_or_empty args "accountId" in
  let c := if String.eqb accountID EmptyString then c else ContextWithAccountID c accountID in
  match check_query args with
  | Some e => mret (Some e)
  | None =>
      let '(position, posErr) := ParseQueryPosition args in
      if negb (String.eqb posErr EmptyString)
      then mret (Some ("error", MethodErrorArgs MethodErrorInvalidArguments posErr))
      else
        let '(anchor, anchorOffset, anchorErr) := ParseQueryAnchor args in
        if negb (String.eqb anchorErr EmptyString)
        then mret (Some ("error", MethodErrorArgs MethodErrorInvalidArguments anchorErr))
        else
          let collapseThreads := bool_or_false args "collapseThreads" in
          r ← query_ids c args position anchor anchorOffset (f64_to_uint64 <$> get_num args "limit") collapseThreads;
          match r with
          | None => mret None
          | Some (Err e) => mret (Some e)
          | Some (Ok (position, ids, total)) =>
              st ← gets (eo_State b c);
              mret (Some ("Email/query",
                [("accountId", JStr accountID); ("queryState", JStr st); ("canCalculateChanges", JBool true);
                 ("position", jint position); ("ids", ids_json ids)]
                ++ (if bool_or_false args "calculateTotal"
                    then [("total", jint total); ("calculateTotal", JBool true)] else [])
                ++ match obj_get args "collapseThreads" with
                   | Some _ => [("collapseThreads", JBool collapseThreads)]
                   | None => []
                   end))
          end
  end.

Definition HandleEmailQueryChanges (c : Ctx) (args : obj) : St W (option (string * obj)) :=
  let accountID := str_or_empty args "accountId" in
  let upToID := str_or_empty args "upToId" in
  let sinceState := str_or_empty args "sinceQueryState" in
  match check_query args with
  | Some e => mret (Some e)
  | None =>
      r ← eo_Changes b c sinceState None;
      let '(createdIDs, updatedIDs, destroyedIDs, newState, hasMore) := r in
      if hasMore : bool
      then mret (Some ("error", MethodErrorArgs "cannotCalculateChanges" "sinceQueryState is too old"))
      else
        r ← eo_Query b c (default [] (get_obj args "filter")) (ParseComparators args) 0 None;
        match r with
        | None => mret None
        | Some (ids, _) =>
            let currentIDs := default [] ids in
            let '(added, removed) := ComputeQueryChanges createdIDs updatedIDs destroyedIDs currentIDs upToID in
            mret (Some ("Email/queryChanges",
              [("accountId", JStr accountID); ("oldQueryState", JStr sinceState); ("newQueryState", JStr newState);
               ("added", added_json added); ("removed", jstrs removed)]
              ++ match get_present args "filter" with Some f => [("filter", f)] | None => [] end
              ++ match get_present args "sort" with Some s => [("sort", s)] | None => [] end
              ++ (if String.eqb upToID EmptyString then [] else [("upToId", JStr upToID)])
              ++ (if bool_or_false args "calculateTotal"
                  then [("total", jint (Z.of_nat (length currentIDs)))] else [])))
        end
  end.

Definition allowedThreadProperties : list string := ["id"; "emailIds"].
Definition thread_json (t : Thread) : json := JObj [("id", JStr (th_ID t)); ("emailIds", jstrs (th_EmailIDs t))].

Definition HandleThreadGet (c : Ctx) (args : obj) : St W (string * obj) :=
  let accountID := str_or_empty args "accountId" in
  let props := ParseProperties args in
  match ValidateProperties props (Some allowedThreadProperties) None with
  | (false, bad) => mret ("error", InvalidArgumentsErrorArgs ["properties"] ("invalid property: " +:+ bad))
  | (true, _) =>
      r ← (match ParseIDs args with
           | Some ids => to_Get b c ids
           | None => r ← to_GetAll b c; mret (fst r, [], snd r)
           end);
      let '(found, notFound, err) := r in
      let found := match err with Some _ => [] | None => found end in
      st ← gets (to_State b c);
      mret ("Thread/get",
            [("accountId", JStr accountID); ("state", JStr st);
             ("list", JArr (FilterList (map thread_json found) props)); ("notFound", jstrs notFound)])
  end.

Definition HandleThreadChanges (c : Ctx) (args : obj) : St W (string * obj) :=
  let accountID := str_or_empty args "accountId" in
  let sinceState := str_or_empty args "sinceState" in
  match ParseMaxChanges args with
  | Err errArgs => mret ("error", errArgs)
  | Ok maxChanges =>
      r ← to_Changes b c sinceState maxChanges;
      let '(created, updated, destroyed, newState, hasMore) := r in
      mret ("Thread/changes", changes_response accountID sinceState newState hasMore created updated destroyed)
  end.
End Methods.

(** ** Lemmas *)

(** The conditions at the leaves of a filter. *)
Inductive leaf_of : obj -> obj -> Prop :=
| leaf_self f : obj_get f "operator" = None -> leaf_of f f
| leaf_under f c g conds :
    is_Some (obj_get f "operator") -> obj_get f "conditions" = Some (JArr conds) -> JObj c ∈ conds ->
    leaf_of c g -> leaf_of f g.

Lemma validate_email_filter_iff `{GoRuntime} fuel : forall f,
  (json_depth (JObj f) <= fuel)%nat ->
  (validate_email_filter fuel f = EmptyString
   <-> valid_filter f /\ forall g, leaf_of f g -> check_header g = EmptyString).
Proof.
  induction fuel as [|fuel IH]; intros f Hd; [cbn in Hd; lia|]. cbn [validate_email_filter].
  destruct (String.eqb_spec (ValidateFilter f) EmptyString) as [E|E]; cbn [negb].
  2: { split; [done|]. intros [Hv _]. apply (validate_filter_iff (json_depth (JObj f))) in Hv; done. }
  apply validate_filter_iff in E; [|done]. unfold get_present. inversion E as [? Hop|? op conds Hop Hname Hconds Hall]; subst.
  - rewrite Hop. split.
    + intros Hc. split; [done|]. inversion 1; subst; [done|]. rewrite Hop in *. by destruct H1.
    + intros [_ Hl]. apply Hl. by constructor.
  - rewrite Hop. unfold get_arr. rewrite Hconds. cbn [from_option id]. rewrite first_message_empty. split.
    + intros Hm. split; [done|]. inversion 1 as [|? c0 g0 ? _ Hc Hin Hl]; subst; [congruence|].
      rewrite Hconds in Hc. injection Hc as <-. specialize (Hm _ Hin). cbn beta match in Hm.
      apply IH in Hm as [_ Hm]; [by apply Hm|]. pose proof (json_depth_condition _ _ _ _ Hconds Hin). lia.
    + intros [_ Hl] c Hc. destruct (Hall c Hc) as (m & -> & Hv). apply IH.
      { pose proof (json_depth_condition _ _ _ _ Hconds Hc). lia. }
      split; [done|]. intros g Hg. apply Hl. eapply leaf_under; eauto.
Qed.

Section Collapse.
Variable emails : list Email.
Definition thread_of (id : string) : option string := em_ThreadID <$> email_by_id emails id.

Lemma collapse_from_sublist seen ids : collapse_from emails seen ids `sublist_of` ids.
Proof.
  revert seen. induction ids as [|id ids IH]; intros seen; [constructor|]. simpl.
  destruct (email_by_id emails id) as [em|]; [destruct (str_in _ seen)|]; constructor; apply IH.
Qed.

Lemma collapse_from_threads seen ids :
  NoDup (omap thread_of (collapse_from emails seen ids))
  /\ forall t, t ∈ omap thread_of (collapse_from emails seen ids) -> t ∉ seen.
Proof.
  revert seen. induction ids as [|id ids IH]; intros seen; [split; [constructor|by intros ? ?%not_elem_of_nil]|].
  cbn [collapse_from]. destruct (email_by_id emails id) as [em|] eqn:E.
  - destruct (str_in (em_ThreadID em) seen) eqn:Es; [apply IH|].
    assert (thread_of id = Some (em_ThreadID em)) as Ht by (unfold thread_of; by rewrite E).
    cbn [omap list_omap]. rewrite Ht. destruct (IH (em_ThreadID em :: seen)) as [H1 H2]. split.
    + apply NoDup_cons. split; [|done]. intros Hin. apply H2 in Hin. apply Hin. by left.
    + intros t [->|Hin]%elem_of_cons.
      * intros Hin. apply str_in_spec in Hin. congruence.
      * intros Hin'. apply (H2 t Hin). by right.
  - assert (thread_of id = None) as Ht by (unfold thread_of; by rewrite E).
    cbn [omap list_omap]. rewrite Ht. apply IH.
Qed.

(** An id is kept unless its thread was seen or is the one of an earlier id. *)
Lemma collapse_from_first seen pre id post :
  (forall t, thread_of id = Some t -> t ∉ seen /\ forall x, x ∈ pre -> thread_of x <> Some t) ->
  id ∈ collapse_from emails seen (pre ++ id :: post).
Proof.
  revert seen. induction pre as [|x pre IH]; intros seen Hid; cbn [app collapse_from].
  - unfold thread_of in Hid. destruct (email_by_id emails id) as [em|]; [|by left].
    destruct (str_in (em_ThreadID em) seen) eqn:Es; [|by left]. apply str_in_spec in Es.
    by destruct (Hid _ eq_refl).
  - destruct (email_by_id emails x) as [em|] eqn:E.
    + assert (thread_of x = Some (em_ThreadID em)) as Hx by (unfold thread_of; by rewrite E).
      destruct (str_in (em_ThreadID em) seen); [|right]; apply IH; intros t Ht; destruct (Hid t Ht) as [H1 H2].
      * split; [done|]. intros y Hy. apply H2. by right.
      * split; [|intros y Hy; apply H2; by right]. intros [->|]%elem_of_cons; [|done].
        apply (H2 x); [by left|done].
    + right. apply IH. intros t Ht. destruct (Hid t Ht) as [H1 H2]. split; [done|]. intros y Hy. apply H2. by right.
Qed.
End Collapse.

(** ** Properties *)

(** [ValidateEmailFilter] accepts exactly the well-formed filters whose
    conditions, at every depth, give the header to search for as an array of
    one or two strings. *)
Theorem email_filter_sound_complete `{GoRuntime} f :
  ValidateEmailFilter f = EmptyString
  <-> valid_filter f /\ forall g, leaf_of f g -> check_header g = EmptyString.
Proof. apply validate_email_filter_iff. done. Qed.

(** Email/query with collapseThreads returns one id per thread, the first
    in the order of the sort: the ids of the response are a subsequence of the
    result list, no two are of the same thread, and every id that has none of
    its thread before it in the result list is there. *)
Theorem collapsed_query_one_per_thread `{GoRuntime} {W} (b : EmailOps W) c args w w1 w2 allIDs total emails nf err
    (Hok : check_query args = None) (Hcoll : get_bool args "collapseThreads" = Some true)
    (Hacct : str_or_empty args "accountId" = EmptyString)
    (Hanchor : get_present args "anchor" = None) (Hpos : get_num args "position" = None)
    (Hlim : get_num args "limit" = None)
    (Hquery : eo_Query b c (default [] (get_obj args "filter")) (ParseComparators args) 0 None w = (w1, Some (Some allIDs, total)))
    (Hne : allIDs <> [])
    (Hget : eo_Get b c allIDs w1 = (w2, (emails, nf, err))) :
  exists resp, HandleEmailQuery b c args w = (w2, Some ("Email/query", resp))
    /\ obj_get resp "ids" = Some (jstrs (collapse emails allIDs))
    /\ collapse emails allIDs `sublist_of` allIDs
    /\ NoDup (omap (thread_of emails) (collapse emails allIDs))
    /\ (forall pre id post, allIDs = pre ++ id :: post ->
          (forall t x, thread_of emails id = Some t -> x ∈ pre -> thread_of emails x <> Some t) ->
          id ∈ collapse emails allIDs).
Proof.
  assert (collapse emails allIDs <> []) as Hcne.
  { destruct allIDs as [|id ids]; [done|]. unfold collapse. simpl. by destruct (email_by_id emails id). }
  eexists. split.
  { unfold HandleEmailQuery. rewrite Hok, Hacct. cbn [String.eqb].
    unfold ParseQueryPosition, ParseQueryAnchor. rewrite Hpos, Hanchor. cbn [String.eqb negb].
    assert (bool_or_false args "collapseThreads" = true) as -> by (unfold bool_or_false; by rewrite Hcoll).
    rewrite Hlim, St_bind_eq. cbn [from_option id fmap option_fmap option_map].
    unfold query_ids. rewrite St_bind_eq, Hquery. cbn [fst snd from_option id].
    destruct allIDs as [|x l] eqn:El; [exfalso; by apply Hne|]. rewrite <- El in *. rewrite !St_bind_eq, Hget.
    cbn [fst snd mret St_ret String.eqb negb]. unfold collapsed_page, go_slice.
    change (NormalizePosition 0 (Z.of_nat (length (collapse emails allIDs)))) with 0. cbv zeta.
    destruct (collapse emails allIDs) as [|y l'] eqn:Ec; [exfalso; by apply Hcne|]. rewrite <- Ec in *.
    set (n := Z.of_nat (length (collapse emails allIDs))). assert (0 <= n) as Hn by apply Nat2Z.is_nonneg.
    rewrite (proj2 (Z.ltb_ge n 0) Hn), (proj2 (Z.leb_le 0 n) Hn), !Z.leb_refl. cbn [andb Z.leb Z.compare].
    unfold slice. rewrite drop_0, take_ge by lia. cbn [fmap option_fmap option_map fst snd gets]. reflexivity. }
  split; [done|]. split; [apply collapse_from_sublist|]. split; [apply collapse_from_threads|].
  intros pre id post -> Hfirst. apply collapse_from_first. intros t Ht. split; [apply not_elem_of_nil|].
  intros x Hx. by apply Hfirst.
Qed.

(** *** A backend in memory *)

(** The emails the IMAP backend reads, queried the way it does. *)
Definition emails_ops `{GoRuntime} (cr up de : list string) : EmailOps (list Email) :=
  mkEmailOps _ (fun _ _ => "s") (fun _ _ _ w => (w, (cr, up, de, "s", false)))
    (fun _ ids w => (w, (List.filter (fun e => str_in (em_ID e) ids) w, [], None)))
    (fun _ f cs p l w => (w, (fun r => (Some (fst r), snd r)) <$> query_emails (fun _ => None) w f cs p l))
    (fun _ _ => "s") (fun _ _ _ w => (w, ([], [], [], "s", false)))
    (fun _ ids w => (w, (omap (get_thread (thread_map w)) ids, [], None)))
    (fun _ w => (w, (map (fun kv => mkThread (fst kv) (snd kv)) (thread_map w), None))).
Definition threaded (id at_ thread : string) : Email :=
  mkEmail id id thread [("mb-inbox", true)] [] 100 at_ [] [] [] [] [] [] [] [] [] "Hello" None []
    demo_part [] [] [] [] false EmptyString.

Lemma collapsed_query_one_per_thread_witness :
  let w := [threaded "a" "2024-01-01" "t"; threaded "b" "2024-01-03" "u"; threaded "c" "2024-01-02" "t"] in
  exists resp, HandleEmailQuery (H := ascii_runtime) (emails_ops (H := ascii_runtime) [] [] []) Background
                 [("collapseThreads", JBool true)] w = (w, Some ("Email/query", resp))
    /\ obj_get resp "ids" = Some (jstrs ["b"; "c"]).
Proof.
  intros w.
  edestruct (collapsed_query_one_per_thread (H := ascii_runtime) (emails_ops (H := ascii_runtime) [] [] []) Background
    [("collapseThreads", JBool true)] w w w ["b"; "c"; "a"] 3) as (resp & Hr & Hi & _); try (vm_compute; reflexivity).
  - discriminate.
  - exists resp. split; [exact Hr|]. rewrite Hi. vm_compute. reflexivity.
Defined.

(** Email/queryChanges ignores collapseThreads, although Email/query says
    that it can calculate changes for a collapsed query: after a new message
    in a known thread, the client that splices the deltas in shows both
    messages of the thread, the query shows one. *)
Theorem query_changes_ignore_collapse :
  let before := [threaded "a" "2024-01-01" "t"] in
  let after := before ++ [threaded "b" "2024-01-02" "t"] in
  let args := [("collapseThreads", JBool true)] in
  let ops := emails_ops (H := ascii_runtime) ["b"] [] [] in
  let ids w := match snd (HandleEmailQuery (H := ascii_runtime) ops Background args w) with
               | Some (_, resp) => (obj_get resp "ids", obj_get resp "canCalculateChanges") | None => (None, None) end in
  ids before = (Some (jstrs ["a"]), Some (JBool true)) /\ ids after = (Some (jstrs ["b"]), Some (JBool true))
  /\ exists resp, snd (HandleEmailQueryChanges (H := ascii_runtime) ops Background args after) = Some ("Email/queryChanges", resp)
     /\ obj_get resp "added" = Some (added_json [("b", 0)]) /\ obj_get resp "removed" = Some (jstrs [])
     /\ splice_changes ["a"] [("b", 0)] [] = ["b"; "a"].
Proof. split; [vm_compute; done|]. split; [vm_compute; done|]. eexists. vm_compute. done. Qed.

(** a collapsed query without results answers with the ids null, where the
    plain query answers with an empty array. *)
Theorem empty_collapsed_query_is_null :
  let ids args := match snd (HandleEmailQuery (H := ascii_runtime) (emails_ops (H := ascii_runtime) [] [] []) Background args []) with
                  | Some (_, resp) => obj_get resp "ids" | None => None end in
  ids [("collapseThreads", JBool true)] = Some JNull /\ ids [] = Some (JArr []).
Proof. vm_compute. done. Qed.
