(* ===== verification/Identities.v ===== *)
(** * Identities

    [jmap/imapsmtp/identity.go]: the identities of an account, cached in front
    of the extension store, with the primary one made from the name of the
    user; and [jmap/jmapmail/identity_vacation_handlers.go]: Identity/get,
    changes and set over a mail backend.

    Times are nanoseconds.  [range_ids] is the order in which Go ranges over a
    map of identities. *)

From S2P Require Import Prelude GoStrings GoState Base64 Json Envelope CreationRefs Query Handler Server MailTypes ChangeTracker MailQuery MethodSupport ImapStores ExtStore.
From Stdlib Require Import Ascii.

(** ** Data *)

(** A nil slice of addresses is [None]. *)
Record Identity : Type := mkIdentity {
  id_ID : string;
  id_Name : string;
  id_Email : string;
  id_ReplyTo : option (list EmailAddress);
  id_BCC : option (list EmailAddress);
  id_TextSignature : string;
  id_HTMLSignature : string;
  id_MayDelete : bool;
}.
Abbreviation ident_map := (gmap string Identity).

Definition addresses_json (l : option (list EmailAddress)) : json :=
  match l with Some l => JArr (map address_json l) | None => JNull end.
Definition identity_json (i : Identity) : json :=
  JObj [("id", JStr (id_ID i)); ("name", JStr (id_Name i)); ("email", JStr (id_Email i));
        ("replyTo", addresses_json (id_ReplyTo i)); ("bcc", addresses_json (id_BCC i));
        ("textSignature", JStr (id_TextSignature i)); ("htmlSignature", JStr (id_HTMLSignature i));
        ("mayDelete", JBool (id_MayDelete i))].

(** ** json.Unmarshal into an Identity *)

Section Unmarshal.
Context `{GoRuntime}.

(** A member is matched with a field whatever its case; null and a value of
    another type leave a string as it is. *)
Definition set_string (k name : string) (v : json) (old : string) : string :=
  if EqualFold k name then match v with JStr s => s | _ => old end else old.
(** Whether a member with this name is a string or null. *)
Definition string_member (name : string) (kv : string * json) : bool :=
  negb (EqualFold (fst kv) name) || match snd kv with JStr _ | JNull => true | _ => false end.
(** [EmailAddress.UnmarshalJSON]; [None] is its error. *)
Definition decode_address (j : json) : option EmailAddress :=
  match j with
  | JObj m => if forallb (fun kv => string_member "name" kv && string_member "email" kv) m
              then Some (foldl (fun a kv => mkAddress (match snd kv with
                                                       | JNull => if EqualFold (fst kv) "name" then EmptyString else ea_Name a
                                                       | v => set_string (fst kv) "name" v (ea_Name a)
                                                       end)
                                              (set_string (fst kv) "email" (snd kv) (ea_Email a)))
                           (mkAddress EmptyString EmptyString)
                           (GoSort.stable_sort (fun a b => String.ltb (fst a) (fst b)) m))
              else None
  | JNull => Some (mkAddress EmptyString EmptyString)
  | _ => None
  end.
(** An error of an address stops the decoder at that element, with the
    elements before it written over the old ones. *)
Fixpoint decode_addresses (l : list json) (old : list EmailAddress) : list EmailAddress * bool :=
  match l with
  | [] => ([], true)
  | j :: l' =>
      match decode_address j with
      | Some a => let '(as_, ok) := decode_addresses l' (tail old) in (a :: as_, ok)
      | None => (match old with [] => [mkAddress EmptyString EmptyString] | _ => old end, false)
      end
  end.
Definition set_addresses (k name : string) (v : json) (old : option (list EmailAddress)) : option (list EmailAddress) * bool :=
  if EqualFold k name
  then match v with
       | JArr l => let '(as_, ok) := decode_addresses l (default [] old) in (Some as_, ok)
       | JNull => (None, true)
       | _ => (old, true)
       end
  else (old, true).

(** The flag is false once the decoder has stopped. *)
Definition set_identity_member (st : Identity * bool) (kv : string * json) : Identity * bool :=
  let '(i, on) := st in
  let '(k, v) := kv in
  if negb on then st
  else
    let '(replyTo, ok1) := set_addresses k "replyTo" v (id_ReplyTo i) in
    let '(bcc, ok2) := set_addresses k "bcc" v (id_BCC i) in
    (mkIdentity (set_string k "id" v (id_ID i)) (set_string k "name" v (id_Name i)) (set_string k "email" v (id_Email i))
       replyTo bcc
       (set_string k "textSignature" v (id_TextSignature i)) (set_string k "htmlSignature" v (id_HTMLSignature i))
       (if EqualFold k "mayDelete" then match v with JBool b => b | _ => id_MayDelete i end else id_MayDelete i), ok1 && ok2).

(** [json.Marshal] sorts the members of the map; the id is cleared after. *)
Definition decode_identity (m : obj) : Identity :=
  let i := fst (foldl set_identity_member (mkIdentity EmptyString EmptyString EmptyString None None EmptyString EmptyString false, true)
                  (GoSort.stable_sort (fun a b => String.ltb (fst a) (fst b)) m)) in
  mkIdentity EmptyString (id_Name i) (id_Email i) (id_ReplyTo i) (id_BCC i) (id_TextSignature i) (id_HTMLSignature i)
    (id_MayDelete i).
End Unmarshal.

(** ** The IMAP backend *)

Record id_state (W : Type) : Type := mkIdState {
  is_store : W * cache ident_map;
  is_trackers : gmap string itemTracker;
}.
Arguments mkIdState {W} _ _.
Arguments is_store {W} _.
Arguments is_trackers {W} _.

Section Backend.
Context `{GoRuntime} {W : Type} (s : option (Store W)) (codec : Codec ident_map).
Context (range_ids : ident_map -> list (string * Identity)).
Context (publish : Ctx -> St W unit).
(** [jmappush.ObjectFingerprint], and the JSON codec of the state vectors *)
Context (ObjectFingerprint : Identity -> string).
Context (marshal_map : gmap string string -> string) (unmarshal_map : string -> option (gmap string string)).

Definition on_cache {A} (m : St (W * cache ident_map) A) : St (id_state W) A :=
  fun st => let '(p, x) := m (is_store st) in (mkIdState p (is_trackers st), x).
Definition publishing (c : Ctx) : St (id_state W) unit :=
  fun st => let '(w, x) := publish c (fst (is_store st)) in (mkIdState (w, snd (is_store st)) (is_trackers st), x).

Definition loadIdentitiesLocked (accountID : string) (now : Z) : St (W * cache ident_map) unit :=
  load_locked s codec "identities" (Some ∅) accountID now.
Definition persistIdentitiesLocked (accountID : string) : St (W * cache ident_map) unit :=
  persist_locked s codec "identities" accountID.

Definition idents (c : cache ident_map) (accountID : string) : ident_map := default ∅ (ca_vals c !! accountID).
Definition set_idents (accountID : string) (m : ident_map) : St (W * cache ident_map) unit :=
  modify (prod_map (fun w => w) (fun c => mkCache (<[accountID := m]> (ca_vals c)) (ca_time c))).

Definition getIdentityTracker (accountID : string) (st : id_state W) : itemTracker :=
  default newItemTracker (is_trackers st !! accountID).
Definition record_identity (accountID id action : string) : St (id_state W) unit :=
  modify (fun st => mkIdState (is_store st)
    (<[accountID := fst (itemTracker_Record (getIdentityTracker accountID st) id action)]> (is_trackers st))).

(** The address of the primary identity. *)
Definition primary_email (c : Ctx) : string :=
  match SubjectFromContext c with
  | (subject, true) => subject
  | _ =>
      match ctx_AccountID c with
      | Some a => match SubjectForAccountID a with Some sub => sub | None => "user@example.com" end
      | None => "user@example.com"
      end
  end.
Definition primary_identity (email : string) : Identity :=
  mkIdentity "id-primary" email email None None EmptyString EmptyString false.

Definition GetIdentities (c : Ctx) (now : Z) : St (id_state W) (list Identity) :=
  let accountID := fst (AccountIDFromContext c) in
  on_cache (
    _ ← loadIdentitiesLocked accountID now;
    m ← gets (fun wc => idents (snd wc) accountID);
    m ← (match m !! "id-primary" with
         | Some _ => mret m
         | None =>
             let m := <["id-primary" := primary_identity (primary_email c)]> m in
             _ ← set_idents accountID m;
             _ ← persistIdentitiesLocked accountID;
             mret m
         end);
    mret (map snd (range_ids m))).

Definition identityStateMap (items : list Identity) : gmap string string :=
  list_to_map (rev (map (fun it => (id_ID it, ObjectFingerprint it)) items)).

Definition IdentityState (c : Ctx) (now : Z) : St (id_state W) string :=
  items ← GetIdentities c now;
  mret (EncodeStateVector marshal_map "id-v1:" (identityStateMap items)).

(** The state vector path does not look at [maxChanges]. *)
Definition IdentityChanges (c : Ctx) (now : Z) (sinceState : string) (maxChanges : option Z)
  : St (id_state W) (list string * list string * list string * string * bool) :=
  let accountID := fst (AccountIDFromContext c) in
  if negb (HasPrefix sinceState "id-v1:")
  then r ← gets (fun st => itemTracker_Changes (getIdentityTracker accountID st) sinceState maxChanges);
       mret (ch_created r, ch_updated r, ch_destroyed r, ch_newState r, ch_hasMore r)
  else match DecodeStateVector unmarshal_map "id-v1:" sinceState with
       | None => mret ([], [], [], EmptyString, false)
       | Some old =>
           items ← GetIdentities c now;
           let cur := identityStateMap items in
           let '(created, updated, destroyed) := DiffStateVectors old cur in
           mret (created, updated, destroyed, EncodeStateVector marshal_map "id-v1:" cur, false)
       end.

Definition CreateIdentity (c : Ctx) (now : Z) (identity : Identity) : St (id_state W) (result go_error Identity) :=
  let accountID := fst (AccountIDFromContext c) in
  m ← on_cache (
    _ ← loadIdentitiesLocked accountID now;
    m ← gets (fun wc => idents (snd wc) accountID);
    let m := match m !! "id-primary" with
             | Some _ => m
             | None => <["id-primary" := primary_identity (primary_email c)]> m
             end in
    _ ← set_idents accountID m;
    mret m);
  match List.find (fun kv => EqualFold (id_Email (snd kv)) (id_Email identity)) (range_ids m) with
  | Some (existingID, _) =>
      mret (Err (GSetError (mkSetError "alreadyExists"
        ("identity with email " +:+ fmt_q (id_Email identity) +:+ " already exists") [] [] existingID None None [])))
  | None =>
      let id := if String.eqb (id_ID identity) EmptyString then "id-" +:+ fmt_d now else id_ID identity in
      let identity := mkIdentity id (id_Name identity) (id_Email identity) (id_ReplyTo identity) (id_BCC identity)
                        (id_TextSignature identity) (id_HTMLSignature identity) (id_MayDelete identity) in
      _ ← on_cache (_ ← set_idents accountID (<[id := identity]> m); persistIdentitiesLocked accountID);
      _ ← record_identity accountID id "create";
      _ ← publishing c;
      mret (Ok identity)
  end.

(** The two lists of addresses have the type of the Go struct: a patch from
    JSON never matches it. *)
Definition patch_identity (patch : obj) (i : Identity) : Identity :=
  mkIdentity (id_ID i) (default (id_Name i) (get_str patch "name")) (default (id_Email i) (get_str patch "email"))
    (id_ReplyTo i) (id_BCC i) (default (id_TextSignature i) (get_str patch "textSignature"))
    (default (id_HTMLSignature i) (get_str patch "htmlSignature")) (default (id_MayDelete i) (get_bool patch "mayDelete")).

Definition UpdateIdentity (c : Ctx) (now : Z) (id : string) (patch : obj) : St (id_state W) (result go_error Identity) :=
  let accountID := fst (AccountIDFromContext c) in
  m ← on_cache (_ ← loadIdentitiesLocked accountID now; gets (fun wc => idents (snd wc) accountID));
  match m !! id with
  | None => mret (Err ErrNotFound)
  | Some ident =>
      let ident := patch_identity patch ident in
      _ ← on_cache (_ ← set_idents accountID (<[id := ident]> m); persistIdentitiesLocked accountID);
      _ ← record_identity accountID id "update";
      _ ← publishing c;
      mret (Ok ident)
  end.

Definition DeleteIdentity (c : Ctx) (now : Z) (id : string) : St (id_state W) (result go_error bool) :=
  let accountID := fst (AccountIDFromContext c) in
  m ← on_cache (_ ← loadIdentitiesLocked accountID now; gets (fun wc => idents (snd wc) accountID));
  match m !! id with
  | None => mret (Ok false)
  | Some _ =>
      _ ← on_cache (_ ← set_idents accountID (delete id m); persistIdentitiesLocked accountID);
      _ ← record_identity accountID id "destroy";
      _ ← publishing c;
      mret (Ok true)
  end.
End Backend.

(** ** The methods *)

Record IdentityOps (W : Type) : Type := mkIdentityOps {
  io_State : Ctx -> St W string;
  io_Changes : Ctx -> string -> option Z -> St W (list string * list string * list string * string * bool);
  io_GetAll : Ctx -> St W (list Identity);
  io_Create : Ctx -> Identity -> St W (result go_error Identity);
  io_Update : Ctx -> string -> obj -> St W (result go_error Identity);
  io_Delete : Ctx -> string -> St W (result go_error bool);
}.
Arguments io_State {W} _ _ _.
Arguments io_Changes {W} _ _ _ _ _.
Arguments io_GetAll {W} _ _ _.
Arguments io_Create {W} _ _ _ _.
Arguments io_Update {W} _ _ _ _ _.
Arguments io_Delete {W} _ _ _ _.

Section Methods.
Context `{GoRuntime} {W : Type}.
Variable b : IdentityOps W.
Variable order : MapOrder.
(** Whether [mail.ParseAddress] accepts the text. *)
Variable ParseAddress_ok : string -> bool.

(** [idMap[id]]: the last one of the list with the id. *)
Definition identity_by_id (all : list Identity) (id : string) : option Identity :=
  List.find (fun i => String.eqb (id_ID i) id) (rev all).

Definition HandleIdentityGet : BackendHandler W := fun c args =>
  let accountID := str_or_empty args "accountId" in
  all ← back (io_GetAll b c);
  let '(found, notFound) :=
    match get_arr args "ids" with
    | Some raw =>
        let ids := strings_of raw in
        (omap (identity_by_id all) ids,
         List.filter (fun id => match identity_by_id all id with Some _ => false | None => true end) ids)
    | None => (all, [])
    end in
  st ← back (io_State b c);
  mret ("Identity/get",
        [("accountId", JStr accountID); ("state", JStr st); ("list", JArr (map identity_json found));
         ("notFound", jstrs notFound)]).

Definition HandleIdentityChanges : BackendHandler W := fun c args =>
  let accountID := str_or_empty args "accountId" in
  let sinceState := str_or_empty args "sinceState" in
  match ParseMaxChanges args with
  | Err errArgs => mret ("error", errArgs)
  | Ok maxChanges =>
      r ← back (io_Changes b c sinceState maxChanges);
      let '(created, updated, destroyed, newState, hasMore) := r in
      mret ("Identity/changes", changes_response accountID sinceState newState hasMore created updated destroyed)
  end.

(** The checks of a create, before the backend is asked. *)
Definition check_identity (i : Identity) : option SetError :=
  let lower := ToLower (id_Email i) in
  if String.eqb (id_Email i) EmptyString then Some (set_error "invalidProperties" "email is required")
  else if negb (ParseAddress_ok (id_Email i)) then Some (set_error "invalidProperties" "invalid email address format")
  else if Contains lower "unauthorized" || Contains lower "forbidden"
  then Some (set_error "forbidden" "user does not have permission to use that email address to send from")
  else None.

Definition identity_create_error (e : go_error) : SetError :=
  match e with GSetError e => e | _ => set_error "invalidProperties" (err_Error e) end.

Record identity_acc : Type := mkIdAcc { ia_refs : refmap; ia_created : obj; ia_notCreated : obj }.

Definition create_identity (c : Ctx) (acc : identity_acc) (kv : string * json) : St (HState W) identity_acc :=
  let '(creationID, raw) := kv in
  let identity := decode_identity (match raw with JObj m => m | _ => [] end) in
  let failed e := mkIdAcc (ia_refs acc) (ia_created acc) (obj_set (ia_notCreated acc) creationID (SetError_json e)) in
  match check_identity identity with
  | Some e => mret (failed e)
  | None =>
      r ← back (io_Create b c identity);
      match r with
      | Err e => mret (failed (identity_create_error e))
      | Ok created =>
          refs ← record_ref (ia_refs acc) creationID (id_ID created);
          mret (mkIdAcc refs (obj_set (ia_created acc) creationID (identity_json created)) (ia_notCreated acc))
      end
  end.

Definition update_identity (c : Ctx) (refs : refmap) (acc : set_acc) (kv : string * json) : St (HState W) set_acc :=
  let patch := match snd kv with JObj m => m | _ => [] end in
  let resolvedID := ResolveCreationID (fst kv) refs in
  r ← back (io_Update b c resolvedID (ResolvePatchCreationRefs patch refs));
  mret (match r with
        | Err (GNotFound msg) => acc_failed acc resolvedID (set_error "notFound" msg)
        | Err e => acc_failed acc resolvedID (set_error "invalidProperties" (err_Error e))
        | Ok _ => acc_done acc resolvedID JNull
        end).

Definition destroy_identity (c : Ctx) (refs : refmap) (acc : destroy_acc) (idStr : string) : St (HState W) destroy_acc :=
  let resolvedID := ResolveCreationID idStr refs in
  r ← back (io_Delete b c resolvedID);
  mret (match r with
        | Err e => destroy_failed acc resolvedID (set_error "serverFail" (err_Error e))
        | Ok false => destroy_failed acc resolvedID (set_error "notFound" "identity not found")
        | Ok true => destroy_done acc resolvedID
        end).

(** The created objects are shown as the backend returned them. *)
Definition HandleIdentitySet : BackendHandler W := fun c args =>
  let accountID := str_or_empty args "accountId" in
  oldState ← back (io_State b c);
  if state_mismatch args "ifInState" oldState
  then mret ("error", MethodErrorArgs "stateMismatch" "state mismatch")
  else
    refs ← new_refs;
    a ← range_obj order (get_obj args "create") (create_identity c) (mkIdAcc refs [] []);
    u ← range_obj order (get_obj args "update") (update_identity c (ia_refs a)) (mkAcc [] []);
    d ← range_strings (get_arr args "destroy") (destroy_identity c (ia_refs a)) (mkDestroy [] []);
    newState ← back (io_State b c);
    mret ("Identity/set", set_response accountID oldState newState (ia_created a) (ia_notCreated a) u d).
End Methods.

(** The IMAP backend as the methods see it, at one time. *)
Definition imap_identities `{GoRuntime} {W} (s : option (Store W)) (codec : Codec ident_map)
    (range_ids : ident_map -> list (string * Identity)) (publish : Ctx -> St W unit) (fp : Identity -> string)
    (mm : gmap string string -> string) (um : string -> option (gmap string string)) (now : Z) : IdentityOps (id_state W) :=
  mkIdentityOps _ (fun c => IdentityState s codec range_ids fp mm c now)
    (fun c => IdentityChanges s codec range_ids fp mm um c now)
    (fun c => GetIdentities s codec range_ids c now)
    (fun c i => CreateIdentity s codec range_ids publish c now i)
    (fun c id patch => UpdateIdentity s codec publish c now id patch)
    (fun c id => DeleteIdentity s codec publish c now id).

(** ** Lemmas: what stays true of a document *)

Section DocumentLemmas.
Context {W A : Type} (st : Store W) (content : W -> string -> string -> string) (codec : Codec A).
Context (key : string) (d : A) (a : string) (P : A -> Prop).
Hypothesis Hst : reliable st content.
Hypothesis Hcodec : lossless codec.
Hypothesis Hd : P d.

(** The document of the account in the store, and in the cache, satisfies [P]. *)
Definition stored_good (w : W) : Prop := forall m, current content codec key (Some d) w a = Some m -> P m.
Definition cached_good (c : cache A) : Prop := forall m, ca_vals c !! a = Some m -> P m.

Lemma load_good now w c :
  stored_good w -> cached_good c ->
  let wc' := fst (load_locked (Some st) codec key (Some d) a now (w, c)) in
  stored_good (fst wc') /\ exists m, ca_vals (snd wc') !! a = Some m /\ P m.
Proof.
  intros Hw Hc. unfold load_locked. destruct (_ && _) eqn:E; simpl.
  - split; [done|]. apply andb_prop in E as [[v Hv]%bool_decide_eq_true _]. eauto.
  - destruct (load_result st content codec key (Some d) Hst w a) as [Hr Hk].
    destruct (Load (Some st) codec a key w) as [w' res]. cbn [fst snd] in *.
    assert (stored_good w') as Hw' by (intros m; rewrite Hk; apply Hw).
    assert (exists v, current content codec key (Some d) w a = Some v /\ P v) as (v & Hv & Pv).
    { rewrite Hr. destruct res as [[v|]|]; [|by exists d..]. exists v. split; [done|]. by apply Hw. }
    destruct res as [[v'|]|]; simpl in *; (split; [done|]); rewrite lookup_insert_eq; eauto;
      rewrite Hr in Hv; simplify_eq; eauto.
Qed.

Lemma persist_good v w c time :
  P v -> stored_good w ->
  let wc' := fst (persist_locked (Some st) codec key a (w, mkCache (<[a := v]> (ca_vals c)) time)) in
  stored_good (fst wc') /\ cached_good (snd wc') /\ ca_vals (snd wc') = <[a := v]> (ca_vals c).
Proof.
  intros Hv Hw. unfold persist_locked. cbn [ca_vals]. rewrite lookup_insert_eq. unfold Save.
  destruct (Hcodec v) as (doc & He & Hne & Hdec). rewrite He.
  pose proof (rl_put _ _ Hst a key doc w) as Hp. destruct (st_Put st a key doc w) as [w' e]. cbn [fst snd ca_vals] in *.
  split_and!; [| |done].
  - intros m. unfold current. rewrite Hp, (proj2 (String.eqb_neq _ _) Hne), Hdec. by intros [= <-].
  - intros m. cbn [ca_vals]. rewrite lookup_insert_eq. by intros [= <-].
Qed.
End DocumentLemmas.

(** ** Lemmas: distinct addresses *)

Definition same_address `{GoRuntime} (x y : string) : bool := EqualFold x y && EqualFold y x.

Section Unique.
Context `{GoRuntime}.
Variable own : string.

(** The addresses are distinct, and the user's own is that of the primary
    identity only. *)
Record distinct_addresses (m : ident_map) : Prop := {
  da_pairs : forall i j a b, m !! i = Some a -> m !! j = Some b -> i <> j -> same_address (id_Email a) (id_Email b) = false;
  da_own : forall i a, m !! i = Some a -> i <> "id-primary" ->
           same_address (id_Email a) own = false /\ same_address own (id_Email a) = false;
  da_primary : forall a, m !! "id-primary" = Some a -> id_Email a = own;
}.

Lemma distinct_empty : distinct_addresses ∅.
Proof. split; intros *; by rewrite lookup_empty. Qed.

Lemma distinct_delete id m : distinct_addresses m -> distinct_addresses (delete id m).
Proof.
  intros [H1 H2 H3]. split.
  - intros i j a b [_ Ha]%lookup_delete_Some [_ Hb]%lookup_delete_Some. by apply (H1 i j).
  - intros i a [_ Ha]%lookup_delete_Some. by apply (H2 i).
  - intros a [_ Ha]%lookup_delete_Some. by apply H3.
Qed.

Lemma same_address_sym x y : same_address x y = same_address y x.
Proof. apply andb_comm. Qed.

(** Storing an identity under an id with an address that no other id has. *)
Lemma distinct_insert id i m :
  distinct_addresses m ->
  (forall j b, m !! j = Some b -> j <> id -> same_address (id_Email i) (id_Email b) = false) ->
  (if String.eqb id "id-primary" then id_Email i = own else same_address (id_Email i) own = false) ->
  distinct_addresses (<[id := i]> m).
Proof.
  intros [H1 H2 H3] Hn Ho. split.
  - intros j k a b. rewrite !lookup_insert. repeat case_decide; subst; intros Ha Hb Hjk; simplify_eq; try done.
    + by apply (Hn k).
    + rewrite same_address_sym. by apply (Hn j).
    + by apply (H1 j k).
  - intros j a. rewrite lookup_insert. case_decide; subst; intros Ha Hj; [|by apply (H2 j)]. injection Ha as <-.
    rewrite (proj2 (String.eqb_neq _ _) Hj) in Ho. split; [done|]. by rewrite same_address_sym.
  - intros a. rewrite lookup_insert. case_decide; subst; [intros [= <-]; done|apply H3].
Qed.

Lemma distinct_primary m :
  distinct_addresses m -> m !! "id-primary" = None -> distinct_addresses (<["id-primary" := primary_identity own]> m).
Proof. intros Hm Hn. apply distinct_insert; [done| |done]. intros j b Hb Hj. by apply (da_own m Hm j b). Qed.

Lemma distinct_patch id i patch m :
  distinct_addresses m -> m !! id = Some i -> get_str patch "email" = None ->
  distinct_addresses (<[id := patch_identity patch i]> m).
Proof.
  intros Hm Hi Hp.
  assert (id_Email (patch_identity patch i) = id_Email i) as He by (cbn [patch_identity id_Email]; by rewrite Hp).
  apply distinct_insert; [done| |]; rewrite He.
  - intros j b Hb Hj. by apply (da_pairs m Hm id j).
  - destruct (String.eqb_spec id "id-primary") as [->|Hne]; [by apply (da_primary m Hm)|by apply (da_own m Hm id)].
Qed.

Lemma distinct_create id i m :
  distinct_addresses m -> is_Some (m !! "id-primary") -> id <> "id-primary" ->
  (forall j b, m !! j = Some b -> EqualFold (id_Email b) (id_Email i) = false) ->
  distinct_addresses (<[id := i]> m).
Proof.
  intros Hm [p Hp] Hid Hnew.
  assert (forall j b, m !! j = Some b -> same_address (id_Email i) (id_Email b) = false) as Hs.
  { intros j b Hb. unfold same_address. by rewrite (Hnew j b), andb_false_r. }
  apply distinct_insert; [done| |]; [intros j b Hb _; by apply (Hs j)|].
  rewrite (proj2 (String.eqb_neq _ _) Hid). rewrite <- (da_primary m Hm p Hp). by apply (Hs "id-primary").
Qed.
End Unique.

(** ** Lemmas: the operations keep the addresses distinct *)

Inductive id_op : Type :=
| IGet
| ICreate (i : Identity)
| IUpdate (id : string) (patch : obj)
| IDelete (id : string).

(** The creates come from Identity/set, which clears the id; the updates leave
    the address alone. *)
Definition plain_op (now : Z) (op : id_op) : Prop :=
  match op with
  | ICreate i => 0 <= now /\ id_ID i = EmptyString
  | IUpdate _ patch => get_str patch "email" = None
  | _ => True
  end.

Lemma new_id_not_primary now : 0 <= now -> "id-" +:+ fmt_d now <> "id-primary".
Proof.
  intros Hn E. change "id-primary" with ("id-" +:+ "primary") in E. apply (inj (String.app "id-")) in E.
  pose proof (fmt_d_digits now Hn) as Hd. by rewrite E in Hd.
Qed.

Section Ops.
Context `{GoRuntime} {W : Type} (store : Store W) (content : W -> string -> string -> string) (codec : Codec ident_map).
Context (range_ids : ident_map -> list (string * Identity)) (publish : Ctx -> St W unit).
Context (c : Ctx).
Hypothesis Hst : reliable store content.
Hypothesis Hcodec : lossless codec.
Hypothesis Hrange : forall m, range_ids m ≡ₚ map_to_list m.

Local Abbreviation acct := (fst (AccountIDFromContext c)).
Local Abbreviation own := (primary_email c).
Local Abbreviation sgood := (stored_good content codec "identities" ∅ acct (distinct_addresses own)).
Local Abbreviation cgood := (cached_good acct (distinct_addresses own)).
Hypothesis Hpub : forall w, sgood w -> sgood (fst (publish c w)).

Definition id_exec (now : Z) (op : id_op) : St (id_state W) unit :=
  match op with
  | IGet => _ ← GetIdentities (Some store) codec range_ids c now; mret tt
  | ICreate i => _ ← CreateIdentity (Some store) codec range_ids publish c now i; mret tt
  | IUpdate id patch => _ ← UpdateIdentity (Some store) codec publish c now id patch; mret tt
  | IDelete id => _ ← DeleteIdentity (Some store) codec publish c now id; mret tt
  end.
Fixpoint id_run (ops : list (Z * id_op)) : St (id_state W) unit :=
  match ops with [] => mret tt | (now, op) :: ops' => _ ← id_exec now op; id_run ops' end.

Definition good_state (s : id_state W) : Prop := sgood (fst (is_store s)) /\ cgood (snd (is_store s)).

Lemma on_cache_eq {A} (m : St (W * cache ident_map) A) (s : id_state W) :
  on_cache m s = (mkIdState (fst (m (is_store s))) (is_trackers s), snd (m (is_store s))).
Proof. unfold on_cache. by destruct (m (is_store s)). Qed.

(** Loading gives a document with distinct addresses. *)
Lemma load_idents now s :
  good_state s ->
  let wc := fst (loadIdentitiesLocked (Some store) codec acct now (is_store s)) in
  sgood (fst wc) /\ cgood (snd wc) /\ distinct_addresses own (idents (snd wc) acct).
Proof.
  destruct s as [[w ca] tr]. intros [Hs Hc]. unfold loadIdentitiesLocked. cbn [is_store].
  destruct (load_good store content codec "identities" ∅ acct (distinct_addresses own) Hst
              (distinct_empty own) now w ca Hs Hc) as (H1 & m & Hm & Pm).
  split; [done|]. split; [by intros m'; rewrite Hm; intros [= <-]|]. unfold idents. by rewrite Hm.
Qed.

(** Setting and persisting a document with distinct addresses. *)
Lemma save_idents m (wc : W * cache ident_map) :
  sgood (fst wc) -> distinct_addresses own m ->
  let wc' := fst ((_ ← set_idents acct m; persistIdentitiesLocked (Some store) codec acct) wc) in
  sgood (fst wc') /\ cgood (snd wc').
Proof.
  destruct wc as [w ca]. intros Hw Hm. rewrite St_bind_eq. unfold set_idents, modify, prod_map, persistIdentitiesLocked.
  cbn [fst snd].
  destruct (persist_good store content codec "identities" ∅ acct (distinct_addresses own) Hst Hcodec m w ca
              (ca_time ca) Hm Hw) as (H1 & H2 & _). done.
Qed.

Lemma publishing_good s : good_state s -> good_state (fst (publishing publish c s)).
Proof.
  destruct s as [[w ca] tr]. intros [H1 H2]. unfold publishing. cbn [is_store fst snd] in *. specialize (Hpub w H1).
  by destruct (publish c w).
Qed.

Lemma recorded_good s id action : good_state s -> good_state (fst (record_identity acct id action s)).
Proof. done. Qed.

(** A write that ends with a record and a publication. *)
Lemma write_good {A} (r : A) m id action (s : id_state W) :
  sgood (fst (is_store s)) -> distinct_addresses own m ->
  good_state (fst ((_ ← on_cache (_ ← set_idents acct m; persistIdentitiesLocked (Some store) codec acct);
                    _ ← record_identity acct id action; _ ← publishing publish c; mret r) s)).
Proof.
  intros Hs Hm. rewrite !St_bind_eq. cbn [fst mret St_ret]. apply publishing_good, recorded_good.
  rewrite on_cache_eq. cbn [fst]. by apply (save_idents m (is_store s)).
Qed.

Lemma GetIdentities_good now s :
  good_state s ->
  good_state (fst (GetIdentities (Some store) codec range_ids c now s))
  /\ exists m, distinct_addresses own m /\ snd (GetIdentities (Some store) codec range_ids c now s) = map snd (range_ids m)
       /\ is_Some (m !! "id-primary").
Proof.
  intros Hg. unfold GetIdentities. rewrite on_cache_eq, !St_bind_eq. cbn [gets fst snd].
  destruct (load_idents now s Hg) as (H1 & H2 & H3).
  set (wc := fst (loadIdentitiesLocked (Some store) codec acct now (is_store s))) in *.
  destruct (idents (snd wc) acct !! "id-primary") as [p|] eqn:Ep; cbn [fst snd mret St_ret].
  - split; [done|]. exists (idents (snd wc) acct). eauto.
  - pose proof (distinct_primary own _ H3 Ep) as Hm. set (m := <["id-primary" := primary_identity own]> (idents (snd wc) acct)) in *.
    pose proof (save_idents m wc H1 Hm) as Hsave. rewrite St_bind_eq in Hsave. rewrite !St_bind_eq. cbn [fst snd mret St_ret].
    split; [done|]. exists m. split; [done|]. split; [done|]. unfold m. rewrite lookup_insert_eq. eauto.
Qed.

Lemma CreateIdentity_good now i s :
  0 <= now -> id_ID i = EmptyString -> good_state s ->
  good_state (fst (CreateIdentity (Some store) codec range_ids publish c now i s)).
Proof.
  intros Hnow Hid Hg. unfold CreateIdentity. rewrite St_bind_eq, on_cache_eq, !St_bind_eq. cbn [gets fst snd mret St_ret].
  destruct (load_idents now s Hg) as (H1 & H2 & H3).
  set (wc := fst (loadIdentitiesLocked (Some store) codec acct now (is_store s))) in *.
  set (m := match idents (snd wc) acct !! "id-primary" with Some _ => idents (snd wc) acct | None => _ end).
  assert (distinct_addresses own m /\ is_Some (m !! "id-primary")) as [Hm Hp].
  { unfold m. destruct (idents (snd wc) acct !! "id-primary") as [p|] eqn:Ep; [split; [done|by rewrite Ep]|].
    split; [by apply distinct_primary|]. rewrite lookup_insert_eq. eauto. }
  destruct (List.find _ (range_ids m)) as [[eid e]|] eqn:Ef.
  - cbn [fst mret St_ret]. split; [done|]. intros m'. destruct wc as [w ca]. cbn [is_store]. unfold set_idents, modify, prod_map. cbn [fst snd ca_vals].
    rewrite lookup_insert_eq. by intros [= <-].
  - apply write_good; [by destruct wc|]. rewrite Hid. cbn [String.eqb].
    apply distinct_create; [done|done|by apply new_id_not_primary|]. intros j e Hj. cbn [id_Email].
    assert ((j, e) ∈ range_ids m) as Hin by (rewrite Hrange; by apply elem_of_map_to_list).
    apply list_elem_of_In in Hin. exact (find_none _ _ Ef _ Hin).
Qed.

Lemma loaded_eq now s :
  (_ ← loadIdentitiesLocked (Some store) codec acct now; gets (fun wc => idents (snd wc) acct)) (is_store s)
  = let wc := fst (loadIdentitiesLocked (Some store) codec acct now (is_store s)) in (wc, idents (snd wc) acct).
Proof. by rewrite St_bind_eq. Qed.

Lemma id_exec_good now op s : plain_op now op -> good_state s -> good_state (fst (id_exec now op s)).
Proof.
  intros Hop Hg. destruct op as [|i|id patch|id]; cbn [id_exec]; rewrite St_bind_eq; cbn [fst mret St_ret].
  - by apply GetIdentities_good.
  - destruct Hop. by apply CreateIdentity_good.
  - unfold UpdateIdentity. rewrite St_bind_eq, on_cache_eq, loaded_eq. cbv zeta. cbn [fst snd].
    destruct (load_idents now s Hg) as (H1 & H2 & H3). destruct (_ !! id) as [old|] eqn:Eo; [|done].
    apply write_good; [done|]. by apply distinct_patch.
  - unfold DeleteIdentity. rewrite St_bind_eq, on_cache_eq, loaded_eq. cbv zeta. cbn [fst snd].
    destruct (load_idents now s Hg) as (H1 & H2 & H3). destruct (_ !! id) as [old|] eqn:Eo; [|done].
    apply write_good; [done|]. by apply distinct_delete.
Qed.

Lemma id_run_good ops : forall s,
  Forall (fun no => plain_op (fst no) (snd no)) ops -> good_state s -> good_state (fst (id_run ops s)).
Proof.
  induction ops as [|[now op] ops IH]; intros s Hops Hg; [done|]. inversion_clear Hops as [|? ? Hop Hrest].
  cbn [id_run]. rewrite St_bind_eq. apply IH; [done|]. by apply id_exec_good.
Qed.
End Ops.

Lemma identityStateMap_lookup fp items id :
  NoDup (map id_ID items) ->
  identityStateMap fp items !! id = fp <$> List.find (fun i => String.eqb (id_ID i) id) items.
Proof.
  intros Hnd. unfold identityStateMap.
  assert (list_to_map (rev (map (fun it => (id_ID it, fp it)) items)) = (list_to_map (map (fun it => (id_ID it, fp it)) items) : gmap string string)) as ->.
  { apply list_to_map_proper; [|by rewrite <- Permutation_rev]. rewrite map_rev, <- Permutation_rev. by rewrite map_map. }
  induction items as [|i items IH]; [apply lookup_empty|]. cbn [map] in *. apply NoDup_cons in Hnd as [_ Hnd].
  simpl. rewrite lookup_insert. destruct (String.eqb_spec (id_ID i) id); [by rewrite decide_True|].
  rewrite decide_False by done. by apply IH.
Qed.

Lemma find_by_id items i : NoDup (map id_ID items) -> i ∈ items ->
  List.find (fun j => String.eqb (id_ID j) (id_ID i)) items = Some i.
Proof.
  induction items as [|j items IH]; intros Hnd Hin; [by apply not_elem_of_nil in Hin|]. cbn [map] in Hnd.
  apply NoDup_cons in Hnd as [Hj Hnd]. simpl. apply elem_of_cons in Hin as [->|Hin]; [by rewrite String.eqb_refl|].
  destruct (String.eqb_spec (id_ID j) (id_ID i)) as [E|]; [|by apply IH].
  exfalso. apply Hj. rewrite E. apply list_elem_of_fmap. by exists i.
Qed.

Lemma find_id_None items id : List.find (fun i => String.eqb (id_ID i) id) items = None <-> id ∉ map id_ID items.
Proof.
  induction items as [|i items IH]; simpl; [split; [by intros _ ?%not_elem_of_nil|done]|].
  rewrite elem_of_cons. destruct (String.eqb_spec (id_ID i) id) as [->|Hne]; [naive_solver|]. rewrite IH. naive_solver.
Qed.

(** ** Properties *)


#[export] Instance address_eq_dec : EqDecision EmailAddress.
Proof. solve_decision. Defined.
#[export] Instance address_countable : Countable EmailAddress.
Proof. refine (inj_countable' (fun a => (ea_Name a, ea_Email a)) (fun '(n, e) => mkAddress n e) _). by intros []. Defined.
#[export] Instance identity_eq_dec : EqDecision Identity.
Proof. solve_decision. Defined.
#[export] Instance identity_countable : Countable Identity.
Proof.
  refine (inj_countable'
    (fun i => (id_ID i, id_Name i, id_Email i, id_ReplyTo i, id_BCC i, id_TextSignature i, id_HTMLSignature i, id_MayDelete i))
    (fun '(i, n, e, r, b, t, h, m) => mkIdentity i n e r b t h m) _). by intros [].
Defined.

(** Documents that are the bits of a value. *)
Fixpoint pos_bits (p : positive) : string :=
  match p with xH => "." | xO p => String "0" (pos_bits p) | xI p => String "1" (pos_bits p) end.
Fixpoint bits_pos (s : string) : option positive :=
  match s with
  | EmptyString => None
  | String c s' =>
      if Ascii.eqb c "." then Some xH
      else (if Ascii.eqb c "0" then xO else xI) <$> bits_pos s'
  end.
Definition bits_codec {A} `{Countable A} : Codec A :=
  mkCodec _ (fun v => Some (pos_bits (encode v))) (fun d => bits_pos d ≫= decode).

Lemma bits_pos_bits p : bits_pos (pos_bits p) = Some p.
Proof. induction p as [p IH|p IH|]; cbn; rewrite ?IH; done. Qed.

Lemma bits_codec_lossless {A} `{Countable A} : lossless (bits_codec (A := A)).
Proof.
  intros v. eexists. split; [done|]. split; [cbn; by destruct (encode v)|]. cbn. rewrite bits_pos_bits. apply decode_encode.
Qed.

Definition with_email (email : string) : Identity := mkIdentity EmptyString EmptyString email None None EmptyString EmptyString false.
Definition quiet_publish {W} (_ : Ctx) : St W unit := mret tt.
Definition own_ctx : Ctx := ContextWithSubject Background "me@x".
Definition no_identities {W} (w : W) : id_state W := mkIdState (w, mkCache ∅ ∅) ∅.


(** Identity/changes is exact: between the state a client was given and
    now, created are the ids that are new, destroyed those that are gone and
    updated those whose identity differs, whatever maxChanges says; the new
    state is the one of the current identities.  Ids are unique, equal
    fingerprints mean equal identities, and the state vector codec reads back
    what it wrote. *)
Theorem identity_changes_exact `{GoRuntime} {W} (s : option (Store W)) codec range_ids fp mm um c now st0 st1 now1 st2 maxChanges state items0 items1
    (Hstate : IdentityState s codec range_ids fp mm c now st0 = (st1, state))
    (Hitems0 : snd (GetIdentities s codec range_ids c now st0) = items0)
    (Hitems1 : snd (GetIdentities s codec range_ids c now1 st2) = items1)
    (Hnd0 : NoDup (map id_ID items0)) (Hnd1 : NoDup (map id_ID items1))
    (Hfp : forall a b, a ∈ items0 -> b ∈ items1 -> fp a = fp b -> a = b)
    (Hcodec : um (mm (identityStateMap fp items0)) = Some (identityStateMap fp items0))
    (Hne : mm (identityStateMap fp items0) <> EmptyString) :
  exists created updated destroyed,
    snd (IdentityChanges s codec range_ids fp mm um c now1 state maxChanges st2)
      = (created, updated, destroyed, snd (IdentityState s codec range_ids fp mm c now1 st2), false)
    /\ (forall id, id ∈ created <-> id ∈ map id_ID items1 /\ id ∉ map id_ID items0)
    /\ (forall id, id ∈ destroyed <-> id ∈ map id_ID items0 /\ id ∉ map id_ID items1)
    /\ (forall id, id ∈ updated <-> exists a b, a ∈ items0 /\ b ∈ items1 /\ id_ID a = id /\ id_ID b = id /\ a <> b).
Proof.
  unfold IdentityState in Hstate. rewrite St_bind_eq, Hitems0 in Hstate. injection Hstate as _ <-.
  pose proof (DiffStateVectors_spec (identityStateMap fp items0) (identityStateMap fp items1)) as Hd.
  destruct (DiffStateVectors _ _) as [[created updated] destroyed] eqn:Ed. exists created, updated, destroyed.
  destruct Hd as (H1 & H2 & H3 & _). split.
  - unfold IdentityChanges.
    assert (HasPrefix (EncodeStateVector mm "id-v1:" (identityStateMap fp items0)) "id-v1:" = true) as ->.
    { unfold EncodeStateVector. case_match; apply HasPrefix_app. }
    cbn [negb]. rewrite state_vector_roundtrip by done. rewrite St_bind_eq. cbv zeta. rewrite Hitems1, Ed.
    unfold IdentityState. by rewrite St_bind_eq, Hitems1.
  - assert (forall items, NoDup (map id_ID items) -> forall id, identityStateMap fp items !! id = None <-> id ∉ map id_ID items) as HN.
    { intros items Hnd id. rewrite identityStateMap_lookup, fmap_None by done. apply find_id_None. }
    assert (forall items, NoDup (map id_ID items) -> forall id, is_Some (identityStateMap fp items !! id) <-> id ∈ map id_ID items) as HS.
    { intros items Hnd id. rewrite <- not_eq_None_Some, HN by done. split; [apply dec_stable|tauto]. }
    split_and!.
    + intros id. by rewrite H1, HS, HN.
    + intros id. by rewrite H3, HS, HN.
    + intros id. rewrite H2. split.
      * intros (f & g & Hf & Hg & Hfg). rewrite identityStateMap_lookup in Hf, Hg by done.
        apply fmap_Some in Hf as (a & Ha & ->), Hg as (b & Hb & ->).
        apply find_some in Ha as [Ha Ea%String.eqb_eq], Hb as [Hb Eb%String.eqb_eq].
        exists a, b. rewrite <- !list_elem_of_In in *. split_and!; [done..|]. by intros ->.
      * intros (a & b & Ha & Hb & Ea & Eb & Hab). exists (fp a), (fp b). rewrite !identityStateMap_lookup by done.
        subst id. rewrite (find_by_id items0 a), <- Eb, (find_by_id items1 b) by done.
        split_and!; [done..|]. intros E. by apply Hab, Hfp.
Qed.

Lemma identity_changes_exact_witness :
  let st0 := no_identities tt in
  let mm m := pos_bits (encode (map_to_list m)) in
  let um d := (list_to_map : list (string * string) -> gmap string string) <$> (bits_pos d ≫= decode) in
  let fp (i : Identity) := id_Email i in
  let go st := IdentityState (None : option (Store unit)) bits_codec map_to_list fp mm own_ctx 1 st in
  let st2 := fst (CreateIdentity (H := ascii_runtime) (None : option (Store unit)) bits_codec map_to_list quiet_publish own_ctx 2 (with_email "you@x") (fst (go st0))) in
  exists created updated destroyed,
    snd (IdentityChanges (None : option (Store unit)) bits_codec map_to_list fp mm um own_ctx 3 (snd (go st0)) (Some 1) st2)
      = (created, updated, destroyed, snd (IdentityState (None : option (Store unit)) bits_codec map_to_list fp mm own_ctx 3 st2), false)
    /\ forall id, id ∈ created <-> id ∈ ["id-2"; "id-primary"] /\ id ∉ ["id-primary"].
Proof.
  intros st0 mm um fp go st2.
  set (primary := primary_identity "me@x"). set (new := mkIdentity "id-2" EmptyString "you@x" None None EmptyString EmptyString false).
  destruct (identity_changes_exact (H := ascii_runtime) (None : option (Store unit)) bits_codec map_to_list fp mm um own_ctx 1 st0
              (fst (go st0)) 3 st2 (Some 1) (snd (go st0)) [primary] [new; primary])
    as (created & updated & destroyed & H1 & H2 & _).
  - apply surjective_pairing.
  - vm_compute; reflexivity.
  - vm_compute; reflexivity.
  - apply (bool_decide_unpack _). vm_compute. exact I.
  - apply (bool_decide_unpack _). vm_compute. exact I.
  - intros a b Ha Hb. apply list_elem_of_In in Ha, Hb. destruct Ha as [<-|[]], Hb as [<-|[<-|[]]]; [discriminate|done].
  - vm_compute. reflexivity.
  - vm_compute. discriminate.
  - exists created, updated, destroyed. split; [exact H1|]. intros id. rewrite H2. cbn [map id_ID]. reflexivity.
Defined.

(** ** What the code does not check *)

(** an update is not checked: it can give an identity the address of
    another one, set the server-set mayDelete, and its replyTo and bcc are
    dropped, while Identity/set reports it as done.  And the primary identity
    can be destroyed although its mayDelete is false. *)
Theorem identity_update_unchecked :
  let ops := imap_identities (H := ascii_runtime) (Some map_store) bits_codec map_to_list quiet_publish
               (fun i => id_Email i) (fun _ => "m") (fun _ => None) 7 in
  let set args st := HandleIdentitySet (H := ascii_runtime) ops in_order (fun _ => true) own_ctx args st in
  let '(s1, _) := set [("create", JObj [("k", JObj [("email", JStr "you@x")])])] (no_identities ∅, None) in
  let '(s2, (_, resp)) := set [("update", JObj [("id-7", JObj [("email", JStr "me@x"); ("mayDelete", JBool true);
                                 ("replyTo", JArr [JObj [("email", JStr "r@x")]])])])] s1 in
  obj_get resp "updated" = Some (JObj [("id-7", JNull)])
  /\ map (fun i => (id_ID i, id_Email i, id_MayDelete i, id_ReplyTo i)) (snd (io_GetAll ops own_ctx (fst s2)))
     = [("id-7", "me@x", true, None); ("id-primary", "me@x", false, None)]
  /\ let '(s3, (_, resp)) := set [("destroy", JArr [JStr "id-primary"])] s2 in
     obj_get resp "destroyed" = Some (jstrs ["id-primary"]).
Proof. vm_compute. done. Qed.

(** A store whose reads can fail: the next ones fail as the list says. *)
Definition flaky_store : Store (gmap (string * string) string * list bool) :=
  mkStore _
    (fun a k w => match snd w with
                  | true :: rest => ((fst w, rest), Err "connection reset")
                  | rest => ((fst w, tail rest), Ok (default EmptyString (fst w !! (a, k))))
                  end)
    (fun a k d w => ((<[(a, k) := d]> (fst w), snd w), None))
    (fun a k w => ((delete (a, k) (fst w), snd w), None)).

(** a read of the store that fails is taken for an account without
    identities: the next write replaces the stored document, and every
    identity created before is lost. *)
Theorem failed_read_loses_identities :
  let create now email := CreateIdentity (H := ascii_runtime) (Some flaky_store) bits_codec map_to_list quiet_publish own_ctx now (with_email email) in
  let emails now st := map id_Email (snd (GetIdentities (Some flaky_store) bits_codec map_to_list own_ctx now st)) in
  let st1 := fst (create 1 "you@x" (no_identities (∅, [false; true]))) in
  let later := 10 * defaultExtensionCacheTTL in
  let st2 := fst (create later "she@x" st1) in
  emails 2 st1 = ["you@x"; "me@x"] /\ emails (10 * later) st2 = ["she@x"; "me@x"].
Proof. vm_compute. done. Qed.
