(* ===== verification/AccountMethods.v ===== *)
(** * Push subscription, vacation response and quota methods

    [jmap/jmapmail/push_handlers.go], the vacation half of
    [identity_vacation_handlers.go] and [quota_handlers.go], with the quotas of
    [jmap/imapsmtp/quota.go].  The HTTP request that carries the verification
    code to the push service is not modelled; the text of a JSON decoding error
    is a parameter. *)

From S2P Require Import Prelude GoSort GoStrings GoRunes GoState Base64 Json Envelope CreationRefs Query Handler Server MailTypes ChangeTracker MailQuery MethodSupport ImapStores ExtStore Identities.
From Stdlib Require Import Ascii SpecFloat.

(** ** Push subscriptions *)

(** A list of key and value, as a [map[string]any] error. *)
Definition error_map (ty desc : string) (props : list string) : json :=
  JObj ([("type", JStr ty); ("description", JStr desc)]
        ++ match props with [] => [] | _ => [("properties", jstrs props)] end).

Definition push_json (p : PushSubscription) : json :=
  let str k (s : option string) := match s with Some s => [(k, JStr s)] | None => [] end in
  JObj ((if String.eqb (ps_ID p) EmptyString then [] else [("id", JStr (ps_ID p))])
        ++ [("deviceClientId", JStr (ps_DeviceClientID p)); ("url", JStr (ps_URL p))]
        ++ match ps_Keys p with
           | Some (d, a) => [("keys", JObj [("p256dh", JStr d); ("auth", JStr a)])]
           | None => []
           end
        ++ str "verificationCode" (ps_VerificationCode p) ++ str "expires" (ps_Expires p)
        ++ match ps_Types p with Some ((_ :: _) as l) => [("types", jstrs l)] | _ => [] end).

(** The operations of [MailBackend] the methods call. *)
Record PushOps (W : Type) : Type := mkPushOps {
  po_State : Ctx -> W -> string;
  po_Get : Ctx -> list string -> St W (list PushSubscription * list string * option go_error);
  po_GetAll : Ctx -> St W (list PushSubscription * option go_error);
  po_Create : Ctx -> PushSubscription -> St W (result go_error PushSubscription);
  po_Update : Ctx -> string -> obj -> St W (result go_error PushSubscription);
  po_Delete : Ctx -> string -> St W (result go_error bool);
}.
Arguments po_State {W} _ _ _.
Arguments po_Get {W} _ _ _ _.
Arguments po_GetAll {W} _ _ _.
Arguments po_Create {W} _ _ _ _.
Arguments po_Update {W} _ _ _ _ _.
Arguments po_Delete {W} _ _ _ _.

Section Decode.
Context `{GoRuntime}.

(** [json.Unmarshal] into a PushSubscription: null leaves a field as it is, a
    value of the wrong type is an error. *)
Definition decode_str (v : json) (old : string) : option string :=
  match v with JStr s => Some s | JNull => Some old | _ => None end.
Definition decode_ptr (v : json) (old : option string) : option (option string) :=
  match v with JStr s => Some (Some s) | JNull => Some None | _ => None end.
Definition decode_strs (v : json) (old : option (list string)) : option (option (list string)) :=
  match v with
  | JArr l => Some <$> mapM (fun j => decode_str j EmptyString) l
  | JNull => Some None
  | _ => None
  end.
Definition decode_keys (v : json) (old : option (string * string)) : option (option (string * string)) :=
  match v with
  | JNull => Some None
  | JObj m =>
      Some <$> foldl (fun acc kv =>
        acc ≫= fun '(d, a) =>
          if EqualFold (fst kv) "p256dh" then (fun d => (d, a)) <$> decode_str (snd kv) d
          else if EqualFold (fst kv) "auth" then (fun a => (d, a)) <$> decode_str (snd kv) a
          else Some (d, a)) (Some (default (EmptyString, EmptyString) old)) m
  | _ => None
  end.

Definition decode_push_member (acc : option PushSubscription) (kv : string * json) : option PushSubscription :=
  acc ≫= fun p =>
  let '(k, v) := kv in
  let '(mkPushSub i d u ks c e t) := p in
  if EqualFold k "id" then (fun i => mkPushSub i d u ks c e t) <$> decode_str v i
  else if EqualFold k "deviceClientId" then (fun d => mkPushSub i d u ks c e t) <$> decode_str v d
  else if EqualFold k "url" then (fun u => mkPushSub i d u ks c e t) <$> decode_str v u
  else if EqualFold k "keys" then (fun ks => mkPushSub i d u ks c e t) <$> decode_keys v ks
  else if EqualFold k "verificationCode" then (fun c => mkPushSub i d u ks c e t) <$> decode_ptr v c
  else if EqualFold k "expires" then (fun e => mkPushSub i d u ks c e t) <$> decode_ptr v e
  else if EqualFold k "types" then (fun t => mkPushSub i d u ks c e t) <$> decode_strs v t
  else Some p.

Definition decode_push (raw : json) : option PushSubscription :=
  let zero := mkPushSub EmptyString EmptyString EmptyString None None None None in
  match raw with
  | JNull => Some zero
  | JObj m => foldl decode_push_member (Some zero) (stable_sort (fun a b => String.ltb (fst a) (fst b)) m)
  | _ => None
  end.

(** The checks of a create, in their order. *)
Definition allowed_url (url : string) : bool :=
  let lower := ToLower url in
  HasPrefix lower "https://" || HasPrefix lower "http://localhost" || HasPrefix lower "http://127.0.0.1"
  || HasPrefix lower "http://[::1]".

Definition check_push (p : PushSubscription) : option json :=
  let bad desc prop := Some (error_map "invalidProperties" desc [prop]) in
  if String.eqb (ps_URL p) EmptyString then bad "url is required" "url"
  else if negb (allowed_url (ps_URL p)) then bad "url must be https" "url"
  else if String.eqb (ps_DeviceClientID p) EmptyString then bad "deviceClientId is required" "deviceClientId"
  else if match ps_Keys p with
          | Some (d, a) => String.eqb d EmptyString || String.eqb a EmptyString
          | None => false
          end
  then bad "keys must contain p256dh and auth" "keys"
  else match ps_VerificationCode p with
       | Some (String _ _) =>
           bad "verificationCode must be null or omitted when creating a subscription" "verificationCode"
       | _ => None
       end.
End Decode.

Section PushMethods.
Context `{GoRuntime} {W : Type}.
Variable b : PushOps W.
Variable order : MapOrder.
Variable json_error : json -> string.

Definition forbidden_property (args : obj) : option string :=
  match get_arr args "properties" with
  | Some l => List.find (fun p => String.eqb p "url" || String.eqb p "keys") (strings_of l)
  | None => None
  end.

(** What a subscription shows: neither its url nor its keys. *)
Definition sanitized (sub : PushSubscription) : obj :=
  [("id", JStr (ps_ID sub)); ("deviceClientId", JStr (ps_DeviceClientID sub))]
  ++ match ps_Expires sub with Some e => [("expires", JStr e)] | None => [] end
  ++ match ps_Types sub with Some l => [("types", jstrs l)] | None => [] end
  ++ match ps_VerificationCode sub with Some v => [("verificationCode", JStr v)] | None => [] end.

Definition select_properties (reqProps : list string) (item : obj) : obj :=
  match reqProps with
  | [] => item
  | _ => foldl (fun out p => match obj_get item p with Some v => obj_set out p v | None => out end)
           [("id", default JNull (obj_get item "id"))] reqProps
  end.

Definition HandlePushSubscriptionGet (c : Ctx) (args : obj) : St W (string * obj) :=
  let accountID := str_or_empty args "accountId" in
  match forbidden_property args with
  | Some p => mret ("error", MethodErrorArgs "forbidden"
                      ("property " +:+ fmt_q p +:+ " cannot be requested on PushSubscription/get"))
  | None =>
      let reqProps := match get_arr args "properties" with Some l => strings_of l | None => [] end in
      r ← (match get_present args "ids" with
           | Some idsRaw =>
               let ids := match idsRaw with JArr l => strings_of l | _ => [] end in
               r ← po_Get b c ids;
               let '(found, notFound, err) := r in
               mret (match err with Some _ => [] | None => found end, notFound)
           | None =>
               r ← po_GetAll b c;
               mret (match snd r with Some _ => [] | None => fst r end, [])
           end);
      mret ("PushSubscription/get",
            [("list", JArr (map (fun sub => JObj (select_properties reqProps (sanitized sub))) (fst r)));
             ("notFound", jstrs (snd r))]
            ++ (if String.eqb accountID EmptyString then [] else [("accountId", JStr accountID)]))
  end.

Definition create_push (c : Ctx) (acc : set_acc) (kv : string * json) : St W set_acc :=
  let '(clientKey, raw) := kv in
  let failed e := mkAcc (sa_done acc) (obj_set (sa_failed acc) clientKey e) in
  match decode_push raw with
  | None => mret (failed (error_map "invalidProperties" (json_error raw) []))
  | Some sub =>
      match check_push sub with
      | Some e => mret (failed e)
      | None =>
          r ← po_Create b c sub;
          mret (match r with
                | Err e => failed (error_map "serverFail" (err_Error e) [])
                | Ok created => acc_done acc clientKey (push_json created)
                end)
      end
  end.

Definition update_push (c : Ctx) (acc : set_acc) (kv : string * json) : St W set_acc :=
  let '(idStr, rawPatch) := kv in
  let failed e := mkAcc (sa_done acc) (obj_set (sa_failed acc) idStr e) in
  match rawPatch with
  | JObj patch =>
      match obj_get patch "url", obj_get patch "keys" with
      | Some _, _ => mret (failed (error_map "invalidProperties" "url is immutable" ["url"]))
      | None, Some _ => mret (failed (error_map "invalidProperties" "keys is immutable" ["keys"]))
      | None, None =>
          r ← po_Update b c idStr patch;
          mret (match r with
                | Err (GNotFound msg) => failed (error_map "notFound" msg [])
                | Err e => failed (error_map "invalidProperties" (err_Error e) [])
                | Ok upd => acc_done acc idStr (push_json upd)
                end)
      end
  | _ => mret (failed (error_map "invalidProperties" "patch must be an object" []))
  end.

Definition destroy_push (c : Ctx) (acc : destroy_acc) (idStr : string) : St W destroy_acc :=
  r ← po_Delete b c idStr;
  let failed msg := mkDestroy (da_destroyed acc) (obj_set (da_failed acc) idStr (error_map "notFound" msg [])) in
  mret (match r with
        | Err e => failed (err_Error e)
        | Ok false => failed "not found"
        | Ok true => destroy_done acc idStr
        end).

Definition HandlePushSubscriptionSet (c : Ctx) (args : obj) : St W (string * obj) :=
  let accountID := str_or_empty args "accountId" in
  oldState ← gets (po_State b c);
  if state_mismatch args "ifInState" oldState
  then mret ("error", MethodErrorArgs "stateMismatch"
               ("state token " +:+ fmt_q (str_or_empty args "ifInState") +:+ " does not match current state "
                +:+ fmt_q oldState))
  else
    cr ← range_obj order (get_obj args "create") (create_push c) (mkAcc [] []);
    u ← range_obj order (get_obj args "update") (update_push c) (mkAcc [] []);
    d ← range_strings (get_arr args "destroy") (destroy_push c) (mkDestroy [] []);
    mret ("PushSubscription/set",
          [("accountId", JStr accountID); ("created", JObj (sa_done cr)); ("notCreated", JObj (sa_failed cr));
           ("updated", JObj (sa_done u)); ("notUpdated", JObj (sa_failed u)); ("destroyed", jstrs (da_destroyed d));
           ("notDestroyed", JObj (da_failed d))]).
End PushMethods.

(** ** The vacation response *)

Record VacationOps (W : Type) : Type := mkVacationOps {
  vo_State : Ctx -> St W string;
  vo_Get : Ctx -> St W (option VacationResponse);
  vo_Update : Ctx -> obj -> St W (result go_error VacationResponse);
}.
Arguments vo_State {W} _ _ _.
Arguments vo_Get {W} _ _ _.
Arguments vo_Update {W} _ _ _ _.

Definition vacation_json (v : VacationResponse) : json :=
  JObj [("id", JStr (vr_ID v)); ("isEnabled", JBool (vr_IsEnabled v)); ("fromDate", opt_str (vr_FromDate v));
        ("toDate", opt_str (vr_ToDate v)); ("subject", opt_str (vr_Subject v)); ("textBody", opt_str (vr_TextBody v));
        ("htmlBody", opt_str (vr_HTMLBody v))].

Section VacationMethods.
Context {W : Type}.
Variable b : VacationOps W.
Variable order : MapOrder.

(** An element of ids that is not a string counts as the empty id. *)
Definition HandleVacationResponseGet (c : Ctx) (args : obj) : St W (string * obj) :=
  let accountID := str_or_empty args "accountId" in
  vr ← vo_Get b c;
  let ids := match get_arr args "ids" with
             | Some raw => Some (map (fun j => match j with JStr s => s | _ => EmptyString end) raw)
             | None => None
             end in
  let is_found s := String.eqb s "singleton" && match vr with Some _ => true | None => false end in
  let found := match ids, vr with
               | Some ids, Some v => map (fun _ => vacation_json v) (List.filter is_found ids)
               | None, Some v => [vacation_json v]
               | _, None => []
               end in
  let notFound := match ids with Some ids => List.filter (fun s => negb (is_found s)) ids | None => [] end in
  st ← vo_State b c;
  mret ("VacationResponse/get",
        [("accountId", JStr accountID); ("state", JStr st); ("list", JArr found); ("notFound", jstrs notFound)]).

Definition singleton_error (verb : string) : SetError :=
  set_error "singleton" ("VacationResponse is a singleton and cannot be " +:+ verb).

Definition update_vacation (c : Ctx) (acc : set_acc) (kv : string * json) : St W set_acc :=
  let '(idStr, patchRaw) := kv in
  if negb (String.eqb idStr "singleton")
  then mret (acc_failed acc idStr
               (set_error "notFound" ("the only VacationResponse id is " +:+ str_of [dquote] +:+ "singleton" +:+ str_of [dquote])))
  else
    r ← vo_Update b c (match patchRaw with JObj m => m | _ => [] end);
    mret (match r with
          | Err e => acc_failed acc idStr (set_error "invalidProperties" (err_Error e))
          | Ok _ => acc_done acc idStr JNull
          end).

Definition HandleVacationResponseSet (c : Ctx) (args : obj) : St W (string * obj) :=
  let accountID := str_or_empty args "accountId" in
  oldState ← vo_State b c;
  if state_mismatch args "ifInState" oldState
  then mret ("error", MethodErrorArgs "stateMismatch" "state mismatch")
  else
    let notCreated := foldl (fun m kv => obj_set m (fst kv) (SetError_json (singleton_error "created"))) []
                        (range_map order (default [] (get_obj args "create"))) in
    let notDestroyed := foldl (fun m s => obj_set m s (SetError_json (singleton_error "destroyed"))) []
                          (strings_of (default [] (get_arr args "destroy"))) in
    u ← range_obj order (get_obj args "update") (update_vacation c) (mkAcc [] []);
    newState ← vo_State b c;
    mret ("VacationResponse/set", set_response accountID oldState newState [] notCreated u (mkDestroy [] notDestroyed)).
End VacationMethods.

(** The vacation response of the IMAP backend at one time; its state is the
    fingerprint of what it has. *)
Definition imap_vacation {W} (s : option (Store W)) (codec : Codec VacationResponse) (fp : VacationResponse -> string)
    (now : Z) : VacationOps (W * cache VacationResponse) :=
  mkVacationOps _
    (fun c => vr ← GetVacationResponse s codec (fst (AccountIDFromContext c)) now; mret ("vac-v1:" +:+ fp vr))
    (fun c => vr ← GetVacationResponse s codec (fst (AccountIDFromContext c)) now; mret (Some vr))
    (fun c patch => vr ← UpdateVacationResponse s codec (fst (AccountIDFromContext c)) now patch; mret (Ok vr)).

(** ** Quotas *)

(** *** The IMAP backend *)

Section QuotaBackend.
(** [jmappush.ObjectFingerprint], and the JSON codec of the state vectors *)
Context (fp : Quota -> string).
Context (marshal_map : gmap string string -> string) (unmarshal_map : string -> option (gmap string string)).

Definition quotaStateMap (items : list Quota) : gmap string string :=
  list_to_map (rev (map (fun it => (qo_ID it, fp it)) items)).

Definition GetAllQuotas (c : Ctx) (s : quota_store) : list Quota := getAccountQuotas s (fst (AccountIDFromContext c)).

Definition quota_by_id (all : list Quota) (id : string) : option Quota :=
  List.find (fun q => String.eqb (qo_ID q) id) (rev all).
Definition GetQuotas (c : Ctx) (ids : list string) (s : quota_store) : list Quota * list string :=
  let all := getAccountQuotas s (fst (AccountIDFromContext c)) in
  (omap (quota_by_id all) ids,
   List.filter (fun id => match quota_by_id all id with Some _ => false | None => true end) ids).

Definition QuotaState (c : Ctx) (s : quota_store) : string :=
  EncodeStateVector marshal_map "quota-v1:" (quotaStateMap (GetAllQuotas c s)).

Definition QuotaChanges (c : Ctx) (sinceState : string) (maxChanges : option Z) (s : quota_store)
  : list string * list string * list string * string * bool :=
  if negb (HasPrefix sinceState "quota-v1:")
  then let r := itemTracker_Changes (getQuotaTracker s (fst (AccountIDFromContext c))) sinceState maxChanges in
       (ch_created r, ch_updated r, ch_destroyed r, ch_newState r, ch_hasMore r)
  else match DecodeStateVector unmarshal_map "quota-v1:" sinceState with
       | None => ([], [], [], EmptyString, false)
       | Some old =>
           let cur := quotaStateMap (GetAllQuotas c s) in
           let '(created, updated, destroyed) := DiffStateVectors old cur in
           (created, updated, destroyed, EncodeStateVector marshal_map "quota-v1:" cur, false)
       end.
End QuotaBackend.

(** *** The methods *)

(** Reading quotas changes nothing. *)
Record QuotaOps (W : Type) : Type := mkQuotaOps {
  qp_State : Ctx -> W -> string;
  qp_Changes : Ctx -> string -> option Z -> W -> list string * list string * list string * string * bool;
  qp_Get : Ctx -> list string -> W -> list Quota * list string * option go_error;
  qp_GetAll : Ctx -> W -> list Quota * option go_error;
}.
Arguments qp_State {W} _ _ _.
Arguments qp_Changes {W} _ _ _ _ _.
Arguments qp_Get {W} _ _ _ _.
Arguments qp_GetAll {W} _ _ _.

Definition imap_quotas (fp : Quota -> string) (mm : gmap string string -> string)
    (um : string -> option (gmap string string)) : QuotaOps quota_store :=
  mkQuotaOps _ (QuotaState fp mm) (QuotaChanges fp mm um)
    (fun c ids s => (GetQuotas c ids s, None)) (fun c s => (GetAllQuotas c s, None)).

Definition quotaSortableProperties : list string := ["name"; "used"].

Definition capabilityForQuotaType (typeName : string) : string :=
  if str_in typeName ["Email"; "Mailbox"; "Thread"] then "urn:ietf:params:jmap:mail"
  else if String.eqb typeName "Submission" then "urn:ietf:params:jmap:submission"
  else if str_in typeName ["Calendar"; "CalendarEvent"] then "urn:ietf:params:jmap:calendars"
  else if str_in typeName ["Card"; "ContactCard"; "AddressBook"] then "urn:ietf:params:jmap:contacts"
  else if String.eqb typeName "FileNode" then "urn:ietf:params:jmap:filenode"
  else if String.eqb typeName "SieveScript" then "urn:ietf:params:jmap:sieve"
  else if String.eqb typeName "Blob" then "urn:ietf:params:jmap:blob"
  else EmptyString.

Definition filterQuotaTypes (c : Ctx) (q : Quota) : option Quota :=
  let srcTypes := match qo_Types q with [] => qo_DataTypes q | l => l end in
  let filtered := List.filter (fun t => let cap := capabilityForQuotaType t in
                                        String.eqb cap EmptyString || IsUsingCapability (ctx_Using c) cap) srcTypes in
  match filtered with
  | [] => None
  | _ => Some (mkQuotaObj (qo_ID q) (qo_ResourceType q) (qo_Used q) (qo_HardLimit q) (qo_WarnLimit q) (qo_SoftLimit q)
                 (qo_Scope q) (qo_Name q)
                 (match qo_Description q with Some d => if valid_utf8 d then Some d else None | None => None end)
                 (qo_AccountIDs q) filtered filtered)
  end.

Definition quota_json (q : Quota) : json :=
  let num k (n : option Z) := match n with Some z => [(k, jint z)] | None => [] end in
  let strs k (l : list string) := match l with [] => [] | _ => [(k, jstrs l)] end in
  JObj ([("id", JStr (qo_ID q)); ("resourceType", JStr (qo_ResourceType q)); ("used", jint (qo_Used q));
         ("hardLimit", jint (qo_HardLimit q))] ++ num "warnLimit" (qo_WarnLimit q) ++ num "softLimit" (qo_SoftLimit q)
        ++ [("scope", JStr (qo_Scope q)); ("name", JStr (qo_Name q))]
        ++ match qo_Description q with Some d => [("description", JStr d)] | None => [] end
        ++ strs "accountIds" (qo_AccountIDs q) ++ [("types", jstrs (qo_Types q))] ++ strs "dataTypes" (qo_DataTypes q)).

Definition quota_by (property : string) (a b : Quota) : comparison :=
  if String.eqb property "name" then String.compare (qo_Name a) (qo_Name b)
  else if String.eqb property "used" then (qo_Used a ?= qo_Used b) else Eq.
Fixpoint quota_order (comparators : list Comparator) (a b : Quota) : comparison :=
  match comparators with
  | [] => Eq
  | c :: rest =>
      match quota_by (c_Property c) a b with
      | Eq => quota_order rest a b
      | r => if c_IsAscending c then r else CompOpp r
      end
  end.
Definition sortQuotas (l : list Quota) (comparators : list Comparator) : list Quota :=
  match comparators with [] => l | _ => stable_sort (lt_of (quota_order comparators)) l end.

Section QuotaMethods.
Context `{GoRuntime} {W : Type}.
Variable b : QuotaOps W.

Definition match_quota (q : Quota) (filter : obj) : bool :=
  let str k (f : string -> bool) := match get_str filter k with Some s => f s | None => true end in
  str "name" (String.eqb (qo_Name q)) && str "scope" (String.eqb (qo_Scope q))
  && str "resourceType" (String.eqb (qo_ResourceType q))
  && str "type" (fun t => existsb (fun d => EqualFold d t) (qo_Types q))
  && str "dataTypes" (fun t => existsb (fun d => EqualFold d t) (qo_DataTypes q)).
Fixpoint matches_quota (fuel : nat) (q : Quota) (filter : obj) : bool :=
  match EvalFilterOperator (Some filter) (match fuel with O => fun _ => false | S f => matches_quota f q end) with
  | (match_, true) => match_
  | (_, false) => match_quota q filter
  end.
Definition matchQuotaFilter (q : Quota) (filter : obj) : bool := matches_quota (json_depth (JObj filter)) q filter.

Definition HandleQuotaGet (c : Ctx) (args : obj) (w : W) : string * obj :=
  let accountID := str_or_empty args "accountId" in
  let props := ParseProperties args in
  let '(visible, notFound, err) :=
    match get_arr args "ids" with
    | Some raw =>
        let '(l, nf, err) := qp_Get b c (strings_of raw) w in
        (omap (filterQuotaTypes c) l,
         nf ++ map qo_ID (List.filter (fun q => match filterQuotaTypes c q with Some _ => false | None => true end) l), err)
    | None => let '(l, err) := qp_GetAll b c w in (omap (filterQuotaTypes c) l, [], err)
    end in
  let visible := match err with Some _ => [] | None => visible end in
  ("Quota/get",
   [("accountId", JStr accountID); ("state", JStr (qp_State b c w));
    ("list", JArr (FilterList (map quota_json visible) props)); ("notFound", jstrs notFound)]).

Definition HandleQuotaChanges (c : Ctx) (args : obj) (w : W) : string * obj :=
  let accountID := str_or_empty args "accountId" in
  let sinceState := str_or_empty args "sinceState" in
  match ParseMaxChanges args with
  | Err errArgs => ("error", errArgs)
  | Ok maxChanges =>
      let '(created, updated, destroyed, newState, hasMore) := qp_Changes b c sinceState maxChanges w in
      ("Quota/changes", changes_response accountID sinceState newState hasMore created updated destroyed
                        ++ [("updatedProperties", JNull)])
  end.

Definition HandleQuotaQuery (c : Ctx) (args : obj) (w : W) : string * obj :=
  let accountID := str_or_empty args "accountId" in
  let comparators := ParseComparators args in
  match ValidateComparators comparators quotaSortableProperties with
  | (String _ _ as errType, errMsg) => ("error", MethodErrorArgs errType errMsg)
  | (EmptyString, _) =>
      let visible := omap (filterQuotaTypes c) (fst (qp_GetAll b c w)) in
      let filtered := match get_present args "filter" with
                      | None => Some visible
                      | Some (JObj f) => Some (List.filter (fun q => matchQuotaFilter q f) visible)
                      | Some _ => None
                      end in
      match filtered with
      | None => ("error", MethodErrorArgs MethodErrorInvalidArguments "filter must be an object")
      | Some l =>
          let ids := map qo_ID (sortQuotas l comparators) in
          let '(position, posErr) := ParseQueryPosition args in
          if negb (String.eqb posErr EmptyString) then ("error", MethodErrorArgs MethodErrorInvalidArguments posErr)
          else
            let '(anchor, anchorOffset, anchorErr) := ParseQueryAnchor args in
            if negb (String.eqb anchorErr EmptyString)
            then ("error", MethodErrorArgs MethodErrorInvalidArguments anchorErr)
            else
              let total := Z.of_nat (length ids) in
              match query_page args (NormalizePosition position total) anchor anchorOffset ids with
              | None => ("error", MethodErrorArgs MethodErrorAnchorNotFound ("anchor not found in results: " +:+ anchor))
              | Some (position, paged) =>
                  ("Quota/query",
                   [("accountId", JStr accountID); ("queryState", JStr (qp_State b c w)); ("canCalculateChanges", JBool true);
                    ("position", jint position); ("ids", jstrs paged); ("total", jint total)]
                   ++ (if bool_or_false args "calculateTotal" then [("calculateTotal", JBool true)] else []))
              end
      end
  end.

(** Neither the filter, nor the sort, nor the capabilities are looked at. *)
Definition HandleQuotaQueryChanges (c : Ctx) (args : obj) (w : W) : string * obj :=
  let accountID := str_or_empty args "accountId" in
  let upToID := str_or_empty args "upToId" in
  let sinceState := str_or_empty args "sinceQueryState" in
  let '(createdIDs, updatedIDs, destroyedIDs, newState, hasMore) := qp_Changes b c sinceState None w in
  if hasMore : bool
  then ("error", MethodErrorArgs "cannotCalculateChanges" "sinceQueryState is too old")
  else
    let currentIDs := map qo_ID (fst (qp_GetAll b c w)) in
    let '(added, removed) := ComputeQueryChanges createdIDs updatedIDs destroyedIDs currentIDs upToID in
    ("Quota/queryChanges",
     [("accountId", JStr accountID); ("oldQueryState", JStr sinceState); ("newQueryState", JStr newState);
      ("added", added_json added); ("removed", jstrs removed)]
     ++ (if String.eqb upToID EmptyString then [] else [("upToId", JStr upToID)])).
End QuotaMethods.

(** ** Lemmas *)

Lemma select_properties_get reqProps item k :
  k <> "id" -> reqProps <> [] ->
  obj_get (select_properties reqProps item) k = if str_in k reqProps then obj_get item k else None.
Proof.
  intros Hk Hne. destruct reqProps as [|p ps]; [done|]. clear Hne. unfold select_properties.
  assert (forall l out, obj_get (foldl (fun out p => match obj_get item p with Some v => obj_set out p v | None => out end) out l) k
            = if str_in k l then match obj_get item k with Some v => Some v | None => obj_get out k end else obj_get out k) as Hfold.
  { induction l as [|x l IH]; intros out; [done|]. cbn [foldl str_in existsb]. rewrite IH. fold (str_in k l).
    destruct (String.eqb_spec k x) as [<-|Hx]; cbn [orb].
    - destruct (obj_get item k) as [v|]; [rewrite obj_get_set_eq|]; by destruct (str_in k l).
    - assert (obj_get (match obj_get item x with Some v => obj_set out x v | None => out end) k = obj_get out k) as ->; [|done].
      destruct (obj_get item x); [|done]. by rewrite obj_get_set_ne by congruence. }
  rewrite Hfold. assert (obj_get [("id", default JNull (obj_get item "id"))] k = None) as ->.
  { cbn [obj_get]. destruct (String.eqb_spec "id" k), (String.eqb_spec k "id"); congruence. }
  destruct (str_in k (p :: ps)); [|done]. by destruct (obj_get item k).
Qed.

Lemma sanitized_hides sub k : k = "url" \/ k = "keys" -> obj_get (sanitized sub) k = None.
Proof. unfold sanitized. intros [-> | ->]; destruct (ps_Expires sub), (ps_Types sub), (ps_VerificationCode sub); reflexivity. Qed.

Lemma obj_set_keeps m x v k : is_Some (obj_get m k) -> is_Some (obj_get (obj_set m x v) k).
Proof. intros Hs. rewrite obj_get_set. case_decide; eauto. Qed.

Lemma fold_set_get {A} (f : A -> string) (v : json) l k : forall m,
  obj_get (foldl (fun m x => obj_set m (f x) v) m l) k = if str_in k (map f l) then Some v else obj_get m k.
Proof.
  induction l as [|x l IH]; intros m; [done|]. cbn [foldl map str_in existsb]. rewrite IH. fold (str_in k (map f l)).
  destruct (str_in k (map f l)); [by rewrite orb_true_r|]. rewrite orb_false_r.
  destruct (String.eqb_spec k (f x)) as [->|Hne]; [by rewrite obj_get_set_eq|by rewrite obj_get_set_ne by congruence].
Qed.

(** ** Properties *)

(** PushSubscription/get shows neither the url nor the keys of a
    subscription, whatever the backend returns and whatever properties are
    asked for; asking for one of the two by name is refused. *)
Theorem push_get_hides_url_and_keys `{GoRuntime} {W} (b : PushOps W) c args w name resp :
  snd (HandlePushSubscriptionGet b c args w) = (name, resp) ->
  (forall k, k = "url" \/ k = "keys" ->
     (exists l, get_arr args "properties" = Some l /\ k ∈ strings_of l) -> name = "error")
  /\ (name <> "error" -> exists items, obj_get resp "list" = Some (JArr items)
       /\ forall item k, item ∈ items -> k = "url" \/ k = "keys" -> exists m, item = JObj m /\ obj_get m k = None).
Proof.
  intros Hr. unfold HandlePushSubscriptionGet, forbidden_property in Hr. split.
  - intros k Hk (l & Hl & Hin). rewrite Hl in Hr. destruct (List.find _ (strings_of l)) as [p|] eqn:Ef.
    + cbn [snd mret St_ret] in Hr. by injection Hr as <- <-.
    + exfalso. apply list_elem_of_In in Hin. apply (find_none _ _ Ef) in Hin. cbn beta in Hin. by destruct Hk as [-> | ->].
  - intros Hname.
    assert (exists props found nf, resp = [("list", JArr (map (fun sub => JObj (select_properties props (sanitized sub))) found)); ("notFound", nf)]
              ++ (if String.eqb (str_or_empty args "accountId") EmptyString then [] else [("accountId", JStr (str_or_empty args "accountId"))])
              /\ forall k, k = "url" \/ k = "keys" -> k ∉ props) as (props & found & nf & -> & Hprops).
    { destruct (match get_arr args "properties" with Some l => List.find _ (strings_of l) | None => None end) as [p|] eqn:Ef.
      { cbn [snd mret St_ret] in Hr. injection Hr as <- <-. done. }
      rewrite St_bind_eq in Hr. cbn [snd mret St_ret] in Hr. injection Hr as _ <-. eexists _, _, _. split; [reflexivity|].
      intros k Hk Hin. destruct (get_arr args "properties") as [l|]; [|by apply not_elem_of_nil in Hin].
      apply list_elem_of_In in Hin. apply (find_none _ _ Ef) in Hin. cbn beta in Hin. by destruct Hk as [-> | ->]. }
    eexists. split; [reflexivity|]. intros item k (sub & -> & _)%list_elem_of_fmap Hk. eexists. split; [reflexivity|].
    destruct props as [|p ps]; [by apply sanitized_hides|]. rewrite select_properties_get by (done || by destruct Hk as [-> | ->]).
    destruct (str_in k (p :: ps)) eqn:Es; [|done]. by apply sanitized_hides.
Qed.

(** A backend with one subscription. *)
Definition one_push (p : PushSubscription) : PushOps unit :=
  mkPushOps _ (fun _ _ => "s") (fun _ _ w => (w, ([p], [], None))) (fun _ w => (w, ([p], None)))
    (fun _ q w => (w, Ok q)) (fun _ _ _ w => (w, Ok p)) (fun _ _ w => (w, Ok true)).
Definition demo_push : PushSubscription :=
  mkPushSub "p1" "dev" "https://push.example/x" (Some ("k", "a")) (Some "code") None None.

Lemma push_get_hides_url_and_keys_witness :
  let '(name, resp) := snd (HandlePushSubscriptionGet (H := ascii_runtime) (one_push demo_push) Background [] tt) in
  name <> "error" -> exists items, obj_get resp "list" = Some (JArr items)
    /\ forall item k, item ∈ items -> k = "url" \/ k = "keys" -> exists m, item = JObj m /\ obj_get m k = None.
Proof.
  destruct (snd (HandlePushSubscriptionGet _ _ _ _)) as [name resp] eqn:E.
  exact (proj2 (push_get_hides_url_and_keys (H := ascii_runtime) (one_push demo_push) Background [] tt name resp E)).
Defined.

(** the vacation response is a singleton for Vacation/set: nothing is
    created or destroyed, every create and every destroy is refused as such,
    and an update of any other id is not found; only the update of the
    singleton reaches the backend. *)
Theorem vacation_set_singleton {W} (b : VacationOps W) order c args w
    (Hord : fair order) (Hst : state_mismatch args "ifInState" (snd (vo_State b c w)) = false) :
  exists resp notCreated notUpdated notDestroyed,
    snd (HandleVacationResponseSet b order c args w) = ("VacationResponse/set", resp)
    /\ obj_get resp "created" = Some (JObj []) /\ obj_get resp "destroyed" = Some (jstrs [])
    /\ obj_get resp "notCreated" = Some (JObj notCreated) /\ obj_get resp "notUpdated" = Some (JObj notUpdated)
    /\ obj_get resp "notDestroyed" = Some (JObj notDestroyed)
    /\ (forall k, obj_get notCreated k
          = if str_in k (obj_keys (default [] (get_obj args "create")))
            then Some (SetError_json (singleton_error "created")) else None)
    /\ (forall k, obj_get notDestroyed k
          = if str_in k (strings_of (default [] (get_arr args "destroy")))
            then Some (SetError_json (singleton_error "destroyed")) else None)
    /\ (forall m k, get_obj args "update" = Some m -> k ∈ obj_keys m -> k <> "singleton" -> is_Some (obj_get notUpdated k)).
Proof.
  destruct Hord as [_ Hmap]. unfold HandleVacationResponseSet. rewrite St_bind_eq. cbn [fst snd]. rewrite Hst.
  rewrite !St_bind_eq. cbn [snd mret St_ret].
  set (u := snd (range_obj order (get_obj args "update") (update_vacation b c) (mkAcc [] []) (fst (vo_State b c w)))).
  eexists _, _, (sa_failed u), _. split; [reflexivity|]. do 5 (split; [reflexivity|]). split_and!.
  - intros k. rewrite (fold_set_get fst). cbn [obj_get].
    assert (str_in k (map fst (range_map order (default [] (get_obj args "create")))) = str_in k (obj_keys (default [] (get_obj args "create")))) as ->; [|done].
    apply Bool.eq_iff_eq_true. rewrite !str_in_spec. unfold obj_keys.
    assert (map fst (range_map order (default [] (get_obj args "create"))) ≡ₚ map fst (default [] (get_obj args "create"))) as ->; [|done].
    by apply Permutation_map.
  - intros k. cbn [da_failed]. rewrite (fold_set_get (fun s => s)), map_id. done.
  - intros m k Hm Hk Hne. unfold u, range_obj. rewrite Hm. specialize (Hmap m).
    assert (k ∈ map fst (range_map order m)) as Hin.
    { assert (map fst (range_map order m) ≡ₚ obj_keys m) as -> by (by apply Permutation_map). done. }
    clear -Hin Hne. revert Hin. generalize (range_map order m) (mkAcc [] []) (fst (vo_State b c w)).
    assert (forall l acc w0, is_Some (obj_get (sa_failed acc) k) ->
              is_Some (obj_get (sa_failed (snd (fold_state (update_vacation b c) acc l w0))) k)) as Hkeep.
    { induction l as [|[x v] l IH]; intros acc w0 Hs; [done|]. cbn [fold_state]. rewrite St_bind_eq. apply IH.
      cbn [update_vacation]. destruct (negb (String.eqb x "singleton")) eqn:E.
      - by apply obj_set_keeps.
      - rewrite St_bind_eq. cbn [snd mret St_ret].
        destruct (snd (vo_Update b c _ w0)) as [vr|e]; [done|by apply obj_set_keeps]. }
    induction l as [|[x v] l IH]; intros acc w0 Hin; [by apply not_elem_of_nil in Hin|]. cbn [map fst] in Hin.
    cbn [fold_state]. rewrite St_bind_eq. apply elem_of_cons in Hin as [<-|Hin]; [|by apply IH].
    apply Hkeep. cbn [update_vacation]. rewrite (proj2 (String.eqb_neq _ _) Hne). cbn [negb snd mret St_ret acc_failed sa_failed].
    rewrite obj_get_set_eq. eauto.
Qed.

Lemma vacation_set_singleton_witness :
  let b := imap_vacation (None : option (Store unit)) (mkCodec _ (fun _ => None) (fun _ => None)) vr_ID 5 in
  let args := [("create", JObj [("k", JObj [])]); ("update", JObj [("other", JObj []); ("singleton", JObj [("isEnabled", JBool true)])])] in
  exists resp notCreated notUpdated notDestroyed,
    snd (HandleVacationResponseSet b in_order Background args (tt, mkCache ∅ ∅)) = ("VacationResponse/set", resp)
    /\ obj_get resp "created" = Some (JObj []) /\ obj_get resp "destroyed" = Some (jstrs [])
    /\ obj_get resp "notCreated" = Some (JObj notCreated) /\ obj_get resp "notUpdated" = Some (JObj notUpdated)
    /\ obj_get resp "notDestroyed" = Some (JObj notDestroyed) /\ is_Some (obj_get notUpdated "other").
Proof.
  intros b args.
  destruct (vacation_set_singleton b in_order Background args (tt, mkCache ∅ ∅)) as (resp & nc & nu & nd & H1 & H2 & H3 & H4 & H5 & H6 & _ & _ & H7).
  - split; done.
  - vm_compute. reflexivity.
  - exists resp, nc, nu, nd. split_and!; try done. eapply H7; [reflexivity|left|discriminate].
Defined.

(** ** What the methods give away *)

(** the verification of a push subscription proves nothing: the response
    to the create carries the code that was sent to the push service, as does
    PushSubscription/get, so a client can confirm a subscription for a url it
    does not control.  And the check for https lets every host pass whose name
    starts with localhost. *)
Theorem push_code_revealed `{GoRuntime} {W} (b : PushOps W) json_error c acc k raw sub p code w w'
    (Hd : decode_push raw = Some sub) (Hc : check_push sub = None)
    (Hcreate : po_Create b c sub w = (w', Ok p)) (Hcode : ps_VerificationCode p = Some code) :
  (exists m, obj_get (sa_done (snd (create_push b json_error c acc (k, raw) w))) k = Some (JObj m)
     /\ obj_get m "verificationCode" = Some (JStr code))
  /\ obj_get (sanitized p) "verificationCode" = Some (JStr code)
  /\ allowed_url (H := ascii_runtime) "http://localhost.attacker.example/collect" = true.
Proof.
  split; [|split; [|vm_compute; reflexivity]].
  - unfold create_push. rewrite Hd, Hc, St_bind_eq, Hcreate. cbn [snd mret St_ret acc_done sa_done]. rewrite obj_get_set_eq.
    eexists. split; [reflexivity|]. rewrite Hcode. destruct (String.eqb (ps_ID p) EmptyString), (ps_Keys p) as [[]|]; reflexivity.
  - unfold sanitized. rewrite Hcode. by destruct (ps_Expires p), (ps_Types p).
Qed.

Lemma push_code_revealed_witness :
  let raw := JObj [("url", JStr "https://victim.example/"); ("deviceClientId", JStr "d")] in
  exists m, obj_get (sa_done (snd (create_push (H := ascii_runtime)
      (mkPushOps unit (fun _ _ => "s") (fun _ _ w => (w, ([], [], None))) (fun _ w => (w, ([], None)))
         (fun _ q w => (w, Ok (mkPushSub "p1" (ps_DeviceClientID q) (ps_URL q) None (Some "c0de") None None)))
         (fun _ _ _ w => (w, Err ErrNotFound)) (fun _ _ w => (w, Ok true))) (fun _ => EmptyString) Background (mkAcc [] []) ("k", raw) tt))) "k"
      = Some (JObj m) /\ obj_get m "verificationCode" = Some (JStr "c0de").
Proof.
  intros raw. eapply (push_code_revealed (H := ascii_runtime)); [vm_compute; reflexivity|vm_compute; reflexivity|reflexivity|reflexivity].
Defined.

(** Quota/queryChanges skips the visibility check of the other methods and
    the filter: a client that uses only the core capability gets no quota from
    Quota/query and Quota/get, and both ids from Quota/queryChanges; with a
    filter the spliced list is not the queried one. *)
Theorem quota_changes_unfiltered :
  let b := imap_quotas qo_Name (fun _ => EmptyString) (fun _ => None) in
  let s := mkQuotas ∅ ∅ in
  let core := WithUsingCapabilities Background ["urn:ietf:params:jmap:core"] in
  let since := [("sinceQueryState", JStr "quota-v1:empty")] in
  let both := added_json [("quota-octets", 0); ("quota-messages", 1)] in
  let filter := [("filter", JObj [("name", JStr "Storage")])] in
  obj_get (snd (HandleQuotaQuery (H := ascii_runtime) b core [] s)) "ids" = Some (jstrs [])
  /\ obj_get (snd (HandleQuotaGet b core [] s)) "list" = Some (JArr [])
  /\ obj_get (snd (HandleQuotaQueryChanges b core since s)) "added" = Some both
  /\ obj_get (snd (HandleQuotaQuery (H := ascii_runtime) b Background filter s)) "ids" = Some (jstrs ["quota-octets"])
  /\ obj_get (snd (HandleQuotaQueryChanges b Background (filter ++ since) s)) "added" = Some both.
Proof. vm_compute. done. Qed.
