(* ===== verification/ManageSieve.v ===== *)
(** * The ManageSieve protocol

    The client of [jmap/managesieve/client.go], the tokens of [tokens.go] and
    the embedded server of [embedded.go].  A connection is the two byte
    streams between them: [send] hands the client's bytes to the server, which
    runs its command loop on them, and the replies are read back line by line.
    A read beyond the bytes of the stream is the end of the stream.

    The scripts of a user are listed in the order of a Go map, which is the
    parameter [range_keys]. *)

From S2P Require Import Prelude GoStrings GoState Base64 Patch HttpFront.
From Stdlib Require Import Ascii.

(** ** Tokens *)

Definition lf : ascii := "010"%char.
Definition crlf : string := str_of ["013"%char; lf].
Definition dq : string := str_of [dquote].
Definition quoted (s : string) : string := dq +:+ s +:+ dq.

Definition unquote (s : string) : string :=
  let s := TrimSpace s in
  let is_quote o := match o with Some c => Ascii.eqb c dquote | None => false end in
  if (2 <=? slen s)%nat && is_quote (String.get 0 s) && is_quote (String.get (slen s - 1) s)
  then str_take (slen s - 2) (str_drop 1 s) else s.

(** The variables of the loop of [parseTokens]. *)
Record tok_state : Type := mkTok {
  tk_tokens : list string;
  tk_cur : string;
  tk_quotes : bool;
  tk_escaped : bool;
}.
Definition tok_write (st : tok_state) (ch : ascii) : tok_state :=
  mkTok (tk_tokens st) (tk_cur st +:+ str_of [ch]) (tk_quotes st) false.
Definition tok_flush (st : tok_state) : list string :=
  if String.eqb (tk_cur st) EmptyString then tk_tokens st else tk_tokens st ++ [tk_cur st].
Definition tok_step (st : tok_state) (ch : ascii) : tok_state :=
  if tk_escaped st then tok_write st ch
  else if Ascii.eqb ch backslash && tk_quotes st then mkTok (tk_tokens st) (tk_cur st) (tk_quotes st) true
  else if Ascii.eqb ch dquote then mkTok (tk_tokens st) (tk_cur st +:+ str_of [ch]) (negb (tk_quotes st)) false
  else if (Ascii.eqb ch " " || Ascii.eqb ch "009") && negb (tk_quotes st)
  then mkTok (tok_flush st) EmptyString (tk_quotes st) false
  else tok_write st ch.
Definition parseTokens (line : string) : list string :=
  tok_flush (fold_left tok_step (str_bytes line) (mkTok [] EmptyString false false)).

(** ** Reading a stream *)

(** [ReadString] up to and with the first line feed. *)
Fixpoint read_line (s : string) : option (string * string) :=
  match s with
  | EmptyString => None
  | String c s' =>
      if Ascii.eqb c lf then Some (String c EmptyString, s')
      else match read_line s' with
           | Some (l, r) => Some (String c l, r)
           | None => None
           end
  end.
Definition chomp (line : string) : string := TrimRight line crlf.

Section Protocol.
Context `{GoRuntime}.

(** The text of the error of [strconv.Atoi]. *)
Definition atoi_error (s : string) : string :=
  let ds := match s with
            | String c s' => if Ascii.eqb c "-" || Ascii.eqb c "+" then s' else s
            | EmptyString => EmptyString
            end in
  "strconv.Atoi: parsing " +:+ fmt_q s +:+ ": "
  +:+ (if str_forallb is_digit_ascii ds && negb (String.eqb ds EmptyString) then "value out of range" else "invalid syntax").

(** [readLiteral] returns the text or an error, and the rest of the stream; a
    negative length makes it panic, which is [None]. *)
Definition readLiteral (header stream : string) : option (result string string * string) :=
  let header := TrimSuffix (Trim header "{}") "+" in
  match Atoi header with
  | None => Some (Err ("invalid literal length " +:+ fmt_q header +:+ ": " +:+ atoi_error header), stream)
  | Some size =>
      if size <? 0 then None
      else if Z.of_nat (slen stream) <? size
      then Some (Err (if String.eqb stream EmptyString then "EOF" else "unexpected EOF"), EmptyString)
      else
        let n := Z.to_nat size in
        let rest := str_drop n stream in
        Some (Ok (str_take n stream), match read_line rest with Some (_, r) => r | None => EmptyString end)
  end.

(** ** The embedded server *)

Record EmbeddedServer : Type := mkServer {
  es_scripts : gmap string (gmap string string);
  es_active : gmap string string;
}.
Definition NewEmbeddedServer : EmbeddedServer := mkServer ∅ ∅.

(** [s.scripts[user]] and [s.active[user]]; missing entries read as zero. *)
Definition scripts_of (s : EmbeddedServer) (user : string) : gmap string string := default ∅ (es_scripts s !! user).
Definition active_of (s : EmbeddedServer) (user : string) : string := default EmptyString (es_active s !! user).

Variable range_keys : gmap string string -> list string.

Definition reply_ok (msg : string) : string := "OK " +:+ quoted msg +:+ crlf.
Definition reply_no (msg : string) : string := "NO " +:+ quoted msg +:+ crlf.
Definition reply_no_code (code msg : string) : string := "NO (" +:+ code +:+ ") " +:+ quoted msg +:+ crlf.
Definition nonexistent : string := reply_no_code "NONEXISTENT" "Script does not exist.".

Definition capabilities : string :=
  quoted "IMPLEMENTATION" +:+ " " +:+ quoted "InProcess Pigeonhole" +:+ crlf
  +:+ quoted "SASL" +:+ " " +:+ quoted "PLAIN" +:+ crlf
  +:+ quoted "SIEVE" +:+ " " +:+ quoted "fileinto reject vacation envelope date imap4flags subaddress" +:+ crlf.
Definition greeting : string :=
  capabilities +:+ quoted "STARTTLS" +:+ crlf +:+ reply_ok "ManageSieve ready.".

(** What one command does: the server, the user of the connection, the rest
    of the input, the reply, and whether the connection goes on. *)
Record cmd_result : Type := mkResult {
  cr_server : EmbeddedServer;
  cr_user : string;
  cr_rest : string;
  cr_reply : string;
  cr_open : bool;
}.

Definition trim_quotes (s : string) : string := Trim s dq.

Definition cmd_authenticate (s : EmbeddedServer) (user : string) (parts : list string) (rest : string) : cmd_result :=
  match parts with
  | _ :: mech :: args =>
      if negb (String.eqb (ToUpper (trim_quotes mech)) "PLAIN")
      then mkResult s user rest (reply_no "Unsupported SASL mechanism.") true
      else
        let '(payload, rest, challenge) :=
          match args with
          | p :: _ => (p, rest, EmptyString)
          | [] => match read_line rest with
                  | Some (l, r) => (chomp l, r, dq +:+ dq +:+ crlf)
                  | None => (chomp rest, EmptyString, dq +:+ dq +:+ crlf)
                  end
          end in
        match B64.decode true true (trim_quotes payload) with
        | None => mkResult s user rest (challenge +:+ reply_no "Invalid SASL encoding.") true
        | Some data =>
            match Split data (str_of ["000"%char]) with
            | authzid :: authcid :: _ :: _ =>
                let u := if String.eqb authcid EmptyString then authzid else authcid in
                mkResult s u rest (challenge +:+ reply_ok ("Logged in as " +:+ u)) true
            | _ => mkResult s user rest (challenge +:+ reply_no "Invalid SASL PLAIN format.") true
            end
        end
  | _ => mkResult s user rest (reply_no "Missing mechanism.") true
  end.

Definition list_line (active name : string) : string :=
  quoted name +:+ (if String.eqb name active then " ACTIVE" else EmptyString) +:+ crlf.
Definition cmd_list (s : EmbeddedServer) (user rest : string) : cmd_result :=
  mkResult s user rest
    (Join (map (list_line (active_of s user)) (range_keys (scripts_of s user))) EmptyString
     +:+ reply_ok "Listscripts completed.") true.

Definition cmd_get (s : EmbeddedServer) (user name rest : string) : cmd_result :=
  mkResult s user rest
    match scripts_of s user !! name with
    | None => nonexistent
    | Some content =>
        "{" +:+ fmt_d (Z.of_nat (slen content)) +:+ "+}" +:+ crlf +:+ content +:+ crlf +:+ reply_ok "Getscript completed."
    end true.

Definition cmd_put (s : EmbeddedServer) (user name header rest : string) : option cmd_result :=
  match readLiteral header rest with
  | None => None
  | Some (Err e, rest) => Some (mkResult s user rest (reply_no ("Failed to read script literal: " +:+ e)) true)
  | Some (Ok content, rest) =>
      Some (mkResult (mkServer (<[user := <[name := content]> (scripts_of s user)]> (es_scripts s)) (es_active s))
              user rest (reply_ok "Putscript completed.") true)
  end.

Definition cmd_setactive (s : EmbeddedServer) (user name rest : string) : cmd_result :=
  if String.eqb name EmptyString
  then mkResult (mkServer (es_scripts s) (delete user (es_active s))) user rest (reply_ok "Setactive completed.") true
  else match scripts_of s user !! name with
       | None => mkResult s user rest nonexistent true
       | Some _ => mkResult (mkServer (es_scripts s) (<[user := name]> (es_active s))) user rest
                     (reply_ok "Setactive completed.") true
       end.

Definition cmd_delete (s : EmbeddedServer) (user name rest : string) : cmd_result :=
  if String.eqb (active_of s user) name
  then mkResult s user rest (reply_no_code "ACTIVE" "Cannot delete active script.") true
  else match scripts_of s user !! name with
       | None => mkResult s user rest nonexistent true
       | Some _ => mkResult (mkServer (<[user := delete name (scripts_of s user)]> (es_scripts s)) (es_active s))
                     user rest (reply_ok "Deletescript completed.") true
       end.

Definition cmd_check (s : EmbeddedServer) (user header rest : string) : option cmd_result :=
  match readLiteral header rest with
  | None => None
  | Some (Err e, rest) => Some (mkResult s user rest (reply_no ("Failed to read script literal: " +:+ e)) true)
  | Some (Ok _, rest) => Some (mkResult s user rest (reply_ok "Checkscript completed.") true)
  end.

(** The body of the loop of [handleConn] on one line without its line end. *)
Definition handle_command (s : EmbeddedServer) (user line rest : string) : option cmd_result :=
  let parts := parseTokens line in
  let say reply := Some (mkResult s user rest reply true) in
  match parts with
  | [] => say EmptyString
  | word :: args =>
      let cmd := ToUpper word in
      let signed_in k := if String.eqb user EmptyString then say (reply_no "Not authenticated.") else k in
      let named k := match args with n :: _ => k (unquote n) | [] => say (reply_no "Missing script name.") end in
      if String.eqb cmd "CAPABILITY" then say (capabilities +:+ reply_ok "Capability completed.")
      else if String.eqb cmd "NOOP" then say (reply_ok "Noop completed.")
      else if String.eqb cmd "LOGOUT"
      then Some (mkResult s user rest ("BYE " +:+ quoted "Logout completed." +:+ crlf +:+ reply_ok "Logout completed.") false)
      else if String.eqb cmd "AUTHENTICATE" then Some (cmd_authenticate s user parts rest)
      else if String.eqb cmd "LISTSCRIPTS" then signed_in (Some (cmd_list s user rest))
      else if String.eqb cmd "GETSCRIPT" then signed_in (named (fun n => Some (cmd_get s user n rest)))
      else if String.eqb cmd "PUTSCRIPT"
      then signed_in match args with
                     | n :: h :: _ => cmd_put s user (unquote n) h rest
                     | _ => say (reply_no "Invalid PUTSCRIPT arguments.")
                     end
      else if String.eqb cmd "SETACTIVE" then signed_in (named (fun n => Some (cmd_setactive s user n rest)))
      else if String.eqb cmd "DELETESCRIPT" then signed_in (named (fun n => Some (cmd_delete s user n rest)))
      else if String.eqb cmd "CHECKSCRIPT"
      then match args with
           | h :: _ => cmd_check s user h rest
           | [] => say (reply_no "Missing script literal.")
           end
      else say (reply_no ("Unknown command " +:+ cmd))
  end.

(** The loop of [handleConn] on the bytes received so far: the state it
    reaches, the bytes of an unfinished line, and its replies.  Every turn
    consumes a line, so the length of the input is enough fuel; [None] is a
    panic. *)
Fixpoint handleConn (fuel : nat) (s : EmbeddedServer) (user input : string) : option cmd_result :=
  match fuel, read_line input with
  | S f, Some (line, rest) =>
      r ← handle_command s user (chomp line) rest;
      if cr_open r
      then r' ← handleConn f (cr_server r) (cr_user r) (cr_rest r);
           Some (mkResult (cr_server r') (cr_user r') (cr_rest r') (cr_reply r +:+ cr_reply r') (cr_open r'))
      else Some r
  | _, _ => Some (mkResult s user input EmptyString true)
  end.

(** ** The client *)

(** A connection: the server, its idea of the user, the bytes it has not yet
    processed, the bytes the client has not yet read, and whether the server
    still reads commands. *)
Record session : Type := mkSession {
  ss_server : EmbeddedServer;
  ss_user : string;
  ss_pending : string;
  ss_unread : string;
  ss_open : bool;
}.

(** Write, flush, and let the server run; a panic of the server ends it. *)
Definition send (txt : string) : St session unit := fun c =>
  if ss_open c
  then let input := ss_pending c +:+ txt in
       match handleConn (slen input) (ss_server c) (ss_user c) input with
       | Some r => (mkSession (cr_server r) (cr_user r) (cr_rest r) (ss_unread c +:+ cr_reply r) (cr_open r), tt)
       | None => (mkSession (ss_server c) (ss_user c) EmptyString (ss_unread c) false, tt)
       end
  else (c, tt).

Definition set_unread (u : string) : St session unit :=
  modify (fun c => mkSession (ss_server c) (ss_user c) (ss_pending c) u (ss_open c)).
(** [c.r.ReadString] and the removal of the line end. *)
Definition next_line : St session (result string string) :=
  u ← gets ss_unread;
  match read_line u with
  | Some (l, r) => set_unread r ≫= fun _ => mret (Ok (chomp l))
  | None => set_unread EmptyString ≫= fun _ => mret (Err "EOF")
  end.

Definition refused (line : string) : bool := HasPrefix line "NO" || HasPrefix line "BYE".

(** Each turn reads a line, so the unread bytes are enough fuel. *)
Fixpoint read_until_ok (fuel : nat) : St session (result string unit) :=
  match fuel with
  | O => mret (Err "EOF")
  | S f =>
      l ← next_line;
      match l with
      | Err e => mret (Err e)
      | Ok line =>
          if HasPrefix line "OK" then mret (Ok tt)
          else if refused line then mret (Err ("server error: " +:+ line))
          else read_until_ok f
      end
  end.
Definition readUntilOK : St session (result string unit) :=
  u ← gets ss_unread; read_until_ok (S (slen u)).

Definition escapeString (s : string) : string :=
  ReplaceAll (ReplaceAll s (str_of [backslash]) (str_of [backslash; backslash]))
             (str_of [dquote]) (str_of [backslash; dquote]).

(** [Dial]: the greeting of a new connection is read. *)
Definition Dial (s : EmbeddedServer) : session * result string unit :=
  match readUntilOK (mkSession s EmptyString EmptyString greeting true) with
  | (c, Err e) => (c, Err ("ManageSieve greeting failed: " +:+ e))
  | r => r
  end.

Definition Authenticate (user pass : string) : St session (result string unit) :=
  let nul := str_of ["000"%char] in
  send ("AUTHENTICATE " +:+ quoted "PLAIN" +:+ " " +:+ quoted (B64.encode_std (nul +:+ user +:+ nul +:+ pass)) +:+ crlf)
  ≫= fun _ => readUntilOK.

Record ScriptInfo : Type := mkScript {
  si_Name : string;
  si_Active : bool;
}.
Definition script_info (parts : list string) : list ScriptInfo :=
  match parts with
  | [] => []
  | [n] => [mkScript (unquote n) false]
  | n :: a :: _ => [mkScript (unquote n) (String.eqb (ToUpper a) "ACTIVE")]
  end.
Fixpoint read_scripts (fuel : nat) (acc : list ScriptInfo) : St session (result string (list ScriptInfo)) :=
  match fuel with
  | O => mret (Err "EOF")
  | S f =>
      l ← next_line;
      match l with
      | Err e => mret (Err e)
      | Ok line =>
          if HasPrefix line "OK" then mret (Ok acc)
          else if refused line then mret (Err ("LISTSCRIPTS failed: " +:+ line))
          else read_scripts f (acc ++ script_info (parseTokens line))
      end
  end.
Definition ListScripts : St session (result string (list ScriptInfo)) :=
  send ("LISTSCRIPTS" +:+ crlf) ≫= fun _ =>
  u ← gets ss_unread; read_scripts (S (slen u)) [].

Definition GetScript (name : string) : St session (result string string) :=
  send ("GETSCRIPT " +:+ quoted (escapeString name) +:+ crlf) ≫= fun _ =>
  l ← next_line;
  match l with
  | Err e => mret (Err e)
  | Ok line =>
      if refused line then mret (Err ("GETSCRIPT failed: " +:+ line))
      else if negb (HasPrefix line "{") then mret (Err ("unexpected GETSCRIPT response header: " +:+ line))
      else
        u ← gets ss_unread;
        match readLiteral line u with
        | None => mret (Err "panic")
        | Some (Err e, r) => set_unread r ≫= fun _ => mret (Err e)
        | Some (Ok content, r) =>
            set_unread r ≫= fun _ =>
            ok ← readUntilOK;
            mret match ok with Ok _ => Ok content | Err e => Err e end
        end
  end.

Definition literal (content : string) : string :=
  "{" +:+ fmt_d (Z.of_nat (slen content)) +:+ "+}" +:+ crlf +:+ content +:+ crlf.
Definition PutScript (name content : string) : St session (result string unit) :=
  send ("PUTSCRIPT " +:+ quoted (escapeString name) +:+ " " +:+ literal content) ≫= fun _ => readUntilOK.
Definition SetActive (name : string) : St session (result string unit) :=
  send ("SETACTIVE " +:+ quoted (escapeString name) +:+ crlf) ≫= fun _ => readUntilOK.
Definition DeleteScript (name : string) : St session (result string unit) :=
  send ("DELETESCRIPT " +:+ quoted (escapeString name) +:+ crlf) ≫= fun _ => readUntilOK.
Definition CheckScript (content : string) : St session (result string unit) :=
  send ("CHECKSCRIPT " +:+ literal content) ≫= fun _ => readUntilOK.
Definition Close : St session unit := send ("LOGOUT" +:+ crlf).

(** ** The scripts of one user *)

(** What the protocol is for: a map of scripts, of which one may be active. *)
Record script_store : Type := mkScripts {
  st_scripts : gmap string string;
  st_active : string;
}.
Inductive sieve_op : Type :=
| OpList | OpGet (name : string) | OpPut (name content : string)
| OpActivate (name : string) | OpDelete (name : string) | OpCheck (content : string).
Inductive sieve_answer : Type :=
| AnsScripts (l : list ScriptInfo) | AnsContent (c : string) | AnsDone | AnsError.

Definition spec_step (s : script_store) (op : sieve_op) : script_store * sieve_answer :=
  let m := st_scripts s in
  match op with
  | OpList => (s, AnsScripts (map (fun n => mkScript n (String.eqb n (st_active s))) (range_keys m)))
  | OpGet n => (s, match m !! n with Some c => AnsContent c | None => AnsError end)
  | OpPut n c => (mkScripts (<[n := c]> m) (st_active s), AnsDone)
  | OpActivate n =>
      if String.eqb n EmptyString then (mkScripts m EmptyString, AnsDone)
      else match m !! n with Some _ => (mkScripts m n, AnsDone) | None => (s, AnsError) end
  | OpDelete n =>
      if String.eqb (st_active s) n then (s, AnsError)
      else match m !! n with Some _ => (mkScripts (delete n m) (st_active s), AnsDone) | None => (s, AnsError) end
  | OpCheck _ => (s, AnsDone)
  end.
Fixpoint spec_run (s : script_store) (ops : list sieve_op) : script_store * list sieve_answer :=
  match ops with
  | [] => (s, [])
  | op :: ops' =>
      let '(s', a) := spec_step s op in
      let '(s'', l) := spec_run s' ops' in (s'', a :: l)
  end.

(** The client's calls. *)
Definition answer_of {A} (f : A -> sieve_answer) (r : result string A) : sieve_answer :=
  match r with Ok x => f x | Err _ => AnsError end.
Definition client_step (op : sieve_op) : St session sieve_answer :=
  match op with
  | OpList => r ← ListScripts; mret (answer_of AnsScripts r)
  | OpGet n => r ← GetScript n; mret (answer_of AnsContent r)
  | OpPut n c => r ← PutScript n c; mret (answer_of (fun _ => AnsDone) r)
  | OpActivate n => r ← SetActive n; mret (answer_of (fun _ => AnsDone) r)
  | OpDelete n => r ← DeleteScript n; mret (answer_of (fun _ => AnsDone) r)
  | OpCheck c => r ← CheckScript c; mret (answer_of (fun _ => AnsDone) r)
  end.
Fixpoint client_run (ops : list sieve_op) : St session (list sieve_answer) :=
  match ops with
  | [] => mret []
  | op :: ops' => a ← client_step op; l ← client_run ops'; mret (a :: l)
  end.
End Protocol.

(** ** Lemmas: texts on the wire *)

Definition no_lf (s : string) : bool := str_forallb (fun c => negb (Ascii.eqb c lf)) s.

Lemma read_line_lf s t : no_lf s = true -> read_line (s +:+ String lf t) = Some (s +:+ String lf EmptyString, t).
Proof.
  induction s as [|c s IH]; simpl; [done|]. intros [Hc Hs]%andb_prop. apply negb_true_iff in Hc.
  by rewrite Hc, IH.
Qed.

(** A line with its line end is read as the line. *)
Lemma read_crlf s t :
  no_lf s = true -> read_line (s +:+ crlf +:+ t) = Some (s +:+ crlf, t).
Proof.
  intros Hs. change (crlf +:+ t) with (str_of ["013"%char] +:+ String lf t).
  rewrite <- append_assoc, read_line_lf; [by rewrite append_assoc|].
  unfold no_lf. rewrite str_forallb_app. by apply andb_true_intro.
Qed.

Lemma chomp_crlf s c : in_cutset c crlf = false -> chomp ((s +:+ str_of [c]) +:+ crlf) = s +:+ str_of [c].
Proof. intros Hc. by apply TrimRight_stop. Qed.

(** *** Quoted names *)

Lemma escapeString_cons c s :
  escapeString (String c s)
  = (if Ascii.eqb c backslash || Ascii.eqb c dquote then str_of [backslash; c] else str_of [c]) +:+ escapeString s.
Proof.
  unfold escapeString. rewrite replace_byte_cons, replace_byte_app. f_equal.
  rewrite (Ascii.eqb_sym backslash c).
  destruct (Ascii.eqb_spec c backslash) as [->|Hb]; [done|]. simpl orb.
  pose proof (replace_byte_cons dquote (str_of [backslash; dquote]) c EmptyString) as E.
  change (String c EmptyString) with (str_of [c]) in E. rewrite E, append_nil_r, (Ascii.eqb_sym dquote c).
  by destruct (Ascii.eqb_spec c dquote) as [->|Hq].
Qed.

Lemma no_lf_escape s : no_lf s = true -> no_lf (escapeString s) = true.
Proof.
  induction s as [|c s IH]; [done|]. intros [Hc Hs]%andb_prop. rewrite escapeString_cons. unfold no_lf.
  rewrite str_forallb_app. apply andb_true_intro. split; [|by apply IH].
  destruct (Ascii.eqb c backslash || Ascii.eqb c dquote); simpl; by rewrite Hc.
Qed.

(** The bytes of an escaped name inside quotes give back the name. *)
Lemma tok_escaped toks cur s :
  fold_left tok_step (str_bytes (escapeString s)) (mkTok toks cur true false) = mkTok toks (cur +:+ s) true false.
Proof.
  revert cur. induction s as [|c s IH]; intros cur; [by rewrite append_nil_r|].
  rewrite escapeString_cons, str_bytes_app, fold_left_app.
  assert (fold_left tok_step
            (str_bytes (if Ascii.eqb c backslash || Ascii.eqb c dquote then str_of [backslash; c] else str_of [c]))
            (mkTok toks cur true false) = mkTok toks (cur +:+ str_of [c]) true false) as ->.
  { destruct (Ascii.eqb_spec c backslash) as [->|Hb]; [done|].
    destruct (Ascii.eqb_spec c dquote) as [->|Hq]; [done|]. simpl. unfold tok_step; simpl.
    rewrite (proj2 (Ascii.eqb_neq c backslash) Hb), (proj2 (Ascii.eqb_neq c dquote) Hq); simpl.
    by rewrite andb_false_r. }
  rewrite IH, append_assoc. done.
Qed.

(** Bytes with no meaning for the token reader. *)
Definition token_byte (c : ascii) : bool :=
  negb (Ascii.eqb c backslash || Ascii.eqb c dquote || Ascii.eqb c " " || Ascii.eqb c "009" || Ascii.eqb c lf).

Lemma tok_word q toks cur s :
  str_forallb token_byte s = true ->
  fold_left tok_step (str_bytes s) (mkTok toks cur q false) = mkTok toks (cur +:+ s) q false.
Proof.
  revert cur. induction s as [|c s IH]; intros cur; simpl; [by rewrite append_nil_r|].
  intros [Hc Hs]%andb_prop. apply negb_true_iff in Hc.
  apply orb_false_elim in Hc as [[[[Hbs Hdq]%orb_false_elim Hsp]%orb_false_elim Htb]%orb_false_elim _].
  change (String.list_ascii_of_string s) with (str_bytes s).
  unfold tok_step at 2. cbn [tk_escaped tk_quotes tk_tokens tk_cur].
  rewrite Hbs, Hdq, Hsp, Htb; simpl. unfold tok_write; simpl. by rewrite IH, append_assoc.
Qed.

Lemma tok_quoted toks cur s :
  fold_left tok_step (str_bytes (quoted (escapeString s))) (mkTok toks cur false false)
  = mkTok toks (cur +:+ quoted s) false false.
Proof.
  unfold quoted. rewrite !str_bytes_app, !fold_left_app. simpl. unfold tok_step at 3; simpl.
  rewrite tok_escaped. unfold tok_step; simpl. by rewrite !append_assoc.
Qed.

Lemma quoted_nonempty s : String.eqb (quoted s) EmptyString = false.
Proof. done. Qed.

(** A word and a blank. *)
Lemma tok_word_blank toks cur w rest :
  str_forallb token_byte w = true -> cur +:+ w <> EmptyString ->
  fold_left tok_step (str_bytes (w +:+ " " +:+ rest)) (mkTok toks cur false false)
  = fold_left tok_step (str_bytes rest) (mkTok (toks ++ [cur +:+ w]) EmptyString false false).
Proof.
  intros Hw Hne. rewrite (str_bytes_app w), fold_left_app, tok_word by done.
  rewrite (str_bytes_app " "), fold_left_app. f_equal. cbn. unfold tok_flush; cbn.
  by rewrite (proj2 (String.eqb_neq _ _) Hne).
Qed.

(** [WORD "name"], [WORD "name" argument] and [WORD argument] *)
Lemma parse_command w n :
  str_forallb token_byte w = true -> w <> EmptyString ->
  parseTokens (w +:+ " " +:+ quoted (escapeString n)) = [w; quoted n].
Proof.
  intros Hw Hne. unfold parseTokens. by rewrite tok_word_blank, tok_quoted.
Qed.

Lemma parse_command_arg w n a :
  str_forallb token_byte w = true -> w <> EmptyString ->
  str_forallb token_byte a = true -> a <> EmptyString ->
  parseTokens (w +:+ " " +:+ quoted (escapeString n) +:+ " " +:+ a) = [w; quoted n; a].
Proof.
  intros Hw Hwn Ha Han. unfold parseTokens.
  rewrite tok_word_blank, (str_bytes_app (quoted _)), fold_left_app, tok_quoted by done.
  rewrite (str_bytes_app " "), fold_left_app. unfold tok_flush. cbn.
  rewrite tok_word by done. unfold tok_flush; cbn. by rewrite (proj2 (String.eqb_neq _ _) Han).
Qed.

Lemma parse_words w a :
  str_forallb token_byte w = true -> w <> EmptyString ->
  str_forallb token_byte a = true -> a <> EmptyString ->
  parseTokens (w +:+ " " +:+ a) = [w; a].
Proof.
  intros Hw Hwn Ha Han. unfold parseTokens. rewrite tok_word_blank, tok_word by done.
  unfold tok_flush; cbn. by rewrite (proj2 (String.eqb_neq _ _) Han).
Qed.

Lemma TrimSpace_quoted s : TrimSpace (quoted s) = quoted s.
Proof.
  assert (TrimLeftSpace (quoted s) = quoted s) as E by done.
  unfold TrimSpace. rewrite E. unfold TrimRightSpace, quoted. rewrite !str_rev_app.
  change (String.rev dq) with dq. cbn [String.append dq str_of String.string_of_list_ascii].
  change (strip_left _ (map String.rev space_runes) (String dquote ?r)) with (String dquote r).
  change (String dquote (String.rev s +:+ ?t)) with ((dq +:+ String.rev s) +:+ t).
  rewrite !str_rev_app, str_rev_involutive. by rewrite ?append_assoc.
Qed.

Lemma get_last s c : String.get (slen s) (s +:+ str_of [c]) = Some c.
Proof. unfold slen. induction s; simpl; [done|done]. Qed.

Lemma unquote_quoted s : unquote (quoted s) = s.
Proof.
  unfold unquote. rewrite TrimSpace_quoted.
  assert (slen (quoted s) = (slen s + 2)%nat) as ->.
  { unfold quoted. rewrite !slen_app. simpl. lia. }
  replace (slen s + 2 - 1)%nat with (slen (dq +:+ s)) by (rewrite slen_app; simpl; lia).
  pose proof (get_last (dq +:+ s) dquote) as E. rewrite append_assoc in E.
  change (dq +:+ s +:+ str_of [dquote]) with (quoted s) in E. rewrite E.
  change (String.get 0 (quoted s)) with (Some dquote). rewrite Ascii.eqb_refl.
  replace (2 <=? slen s + 2)%nat with true by (symmetry; apply Nat.leb_le; lia). cbn [andb].
  replace (slen s + 2 - 2)%nat with (slen s) by lia.
  change (str_drop 1 (quoted s)) with (s +:+ dq). apply str_take_app.
Qed.

(** *** Literals *)

Lemma literal_header d :
  str_forallb is_digit_ascii d = true -> d <> EmptyString ->
  TrimSuffix (Trim ("{" +:+ d +:+ "+}") "{}") "+" = d.
Proof.
  intros Hd Hne. destruct d as [|c d]; [done|]. apply andb_prop in Hd as [Hc _].
  assert (in_cutset c "{}" = false) as Hcut.
  { simpl. rewrite orb_false_r. apply orb_false_intro; apply Ascii.eqb_neq; by intros ->. }
  unfold Trim.
  assert (TrimLeft ("{" +:+ String c d +:+ "+}") "{}" = (String c d +:+ str_of ["+"%char]) +:+ "}") as ->.
  { rewrite append_assoc. simpl. simpl in Hcut. by rewrite Hcut. }
  rewrite TrimRight_stop by done. apply TrimSuffix_app.
Qed.

Lemma readLiteral_literal `{GoRuntime} content rest :
  Z.of_nat (slen content) < 2 ^ 63 ->
  readLiteral ("{" +:+ fmt_d (Z.of_nat (slen content)) +:+ "+}") (content +:+ crlf +:+ rest) = Some (Ok content, rest).
Proof.
  intros Hlen. unfold readLiteral.
  rewrite literal_header by (apply fmt_d_digits || apply fmt_d_nonempty; lia). rewrite Atoi_fmt_d by lia.
  replace (Z.of_nat (slen content) <? 0) with false by (symmetry; apply Z.ltb_ge; lia).
  replace (Z.of_nat (slen (content +:+ crlf +:+ rest)) <? Z.of_nat (slen content)) with false
    by (symmetry; apply Z.ltb_ge; rewrite !slen_app; lia).
  by rewrite Nat2Z.id, str_take_app, str_drop_app.
Qed.

Lemma digits_token s : str_forallb is_digit_ascii s = true -> str_forallb token_byte s = true.
Proof.
  apply str_forallb_impl. intros c Hc. unfold token_byte. apply negb_true_iff.
  repeat (apply orb_false_intro); apply Ascii.eqb_neq; by intros ->.
Qed.

Lemma literal_token n : 0 <= n -> str_forallb token_byte ("{" +:+ fmt_d n +:+ "+}") = true.
Proof.
  intros Hn. rewrite !str_forallb_app. repeat apply andb_true_intro; split; [done|].
  apply andb_true_intro. split; [by apply digits_token, fmt_d_digits|done].
Qed.

Lemma token_no_lf s : str_forallb token_byte s = true -> no_lf s = true.
Proof.
  apply str_forallb_impl. unfold token_byte. intros c [_ Hc]%negb_true_iff%orb_false_elim. by rewrite Hc.
Qed.

(** ** Lemmas: commands and replies *)

Section Exchange.
Context `{GoRuntime} (range_keys : gmap string string -> list string).
Notation handle := (handle_command range_keys).

(** A connection with nothing on the wire. *)
Definition idle (s : EmbeddedServer) (u : string) : session := mkSession s u EmptyString EmptyString true.
Definition replied (s : EmbeddedServer) (u reply : string) : session := mkSession s u EmptyString reply true.

Lemma send_command s u l ch rest r :
  no_lf (l +:+ str_of [ch]) = true -> in_cutset ch crlf = false ->
  handle s u (l +:+ str_of [ch]) rest = Some r -> cr_open r = true -> cr_rest r = EmptyString ->
  send range_keys ((l +:+ str_of [ch]) +:+ crlf +:+ rest) (idle s u) = (replied (cr_server r) (cr_user r) (cr_reply r), tt).
Proof.
  intros Hlf Hch Hr Ho Hrest. unfold send, idle. cbn [ss_open ss_pending ss_server ss_user ss_unread].
  change (EmptyString +:+ ?t) with t.
  assert (exists f, slen ((l +:+ str_of [ch]) +:+ crlf +:+ rest) = S f) as [f ->].
  { rewrite !slen_app. exists (slen l + S (S (slen rest)))%nat. simpl. lia. }
  cbn [handleConn]. rewrite read_crlf by done. rewrite chomp_crlf by done. rewrite Hr. cbn [mbind option_bind].
  rewrite Ho, Hrest. destruct f; cbn [handleConn read_line mbind option_bind cr_server cr_user cr_rest cr_reply cr_open];
    by rewrite append_nil_r.
Qed.

(** A reply of one line. *)
Lemma read_reply s u l ch rest :
  no_lf (l +:+ str_of [ch]) = true -> in_cutset ch crlf = false ->
  next_line (replied s u ((l +:+ str_of [ch]) +:+ crlf +:+ rest)) = (replied s u rest, Ok (l +:+ str_of [ch])).
Proof.
  intros Hlf Hch. unfold next_line. rewrite St_bind_eq. cbn [gets fst snd ss_unread replied].
  rewrite read_crlf by done. rewrite St_bind_eq. by rewrite chomp_crlf.
Qed.

Lemma reply_ok_line msg : reply_ok msg = (("OK " +:+ dq +:+ msg) +:+ str_of [dquote]) +:+ crlf +:+ EmptyString.
Proof. unfold reply_ok, quoted, dq. by rewrite append_nil_r, !append_assoc. Qed.

Lemma readUntilOK_ok s u msg : no_lf msg = true -> readUntilOK (replied s u (reply_ok msg)) = (idle s u, Ok tt).
Proof.
  intros Hm. unfold readUntilOK. rewrite St_bind_eq. cbn [gets fst snd ss_unread replied].
  generalize (slen (reply_ok msg)) as f. intros f. rewrite reply_ok_line. cbn [read_until_ok].
  rewrite St_bind_eq, read_reply; [done| |done].
  unfold no_lf in *. by rewrite !str_forallb_app, Hm.
Qed.

(** The two refusals of the server. *)
Definition active_refusal : string := reply_no_code "ACTIVE" "Cannot delete active script.".
Lemma readUntilOK_no s u reply :
  reply = nonexistent \/ reply = active_refusal ->
  exists e, readUntilOK (replied s u reply) = (idle s u, Err e).
Proof. intros [->| ->]; eexists; reflexivity. Qed.

(** *** The commands as the server reads them *)

Ltac dispatch w := change (ToUpper w) with w; cbn -[quoted escapeString unquote cmd_get cmd_put cmd_setactive
  cmd_delete cmd_check cmd_list parseTokens].

Section Signed_in.
Variables (s : EmbeddedServer) (u : string) (signed_in : u <> EmptyString).

Lemma handle_get n rest : handle s u ("GETSCRIPT" +:+ " " +:+ quoted (escapeString n)) rest = Some (cmd_get s u n rest).
Proof.
  unfold handle_command. rewrite parse_command by done. dispatch "GETSCRIPT".
  by rewrite (proj2 (String.eqb_neq _ _) signed_in), unquote_quoted.
Qed.
Lemma handle_setactive n rest :
  handle s u ("SETACTIVE" +:+ " " +:+ quoted (escapeString n)) rest = Some (cmd_setactive s u n rest).
Proof.
  unfold handle_command. rewrite parse_command by done. dispatch "SETACTIVE".
  by rewrite (proj2 (String.eqb_neq _ _) signed_in), unquote_quoted.
Qed.
Lemma handle_delete n rest :
  handle s u ("DELETESCRIPT" +:+ " " +:+ quoted (escapeString n)) rest = Some (cmd_delete s u n rest).
Proof.
  unfold handle_command. rewrite parse_command by done. dispatch "DELETESCRIPT".
  by rewrite (proj2 (String.eqb_neq _ _) signed_in), unquote_quoted.
Qed.
Lemma handle_put n h rest :
  str_forallb token_byte h = true -> h <> EmptyString ->
  handle s u ("PUTSCRIPT" +:+ " " +:+ quoted (escapeString n) +:+ " " +:+ h) rest = cmd_put s u n h rest.
Proof.
  intros Hh Hne. unfold handle_command. rewrite parse_command_arg by done. dispatch "PUTSCRIPT".
  by rewrite (proj2 (String.eqb_neq _ _) signed_in), unquote_quoted.
Qed.
Lemma handle_check h rest :
  str_forallb token_byte h = true -> h <> EmptyString ->
  handle s u ("CHECKSCRIPT" +:+ " " +:+ h) rest = cmd_check s u h rest.
Proof. intros Hh Hne. unfold handle_command. rewrite parse_words by done. by dispatch "CHECKSCRIPT". Qed.
Lemma handle_list rest : handle s u "LISTSCRIPTS" rest = Some (cmd_list range_keys s u rest).
Proof.
  unfold handle_command. change (parseTokens "LISTSCRIPTS") with ["LISTSCRIPTS"]. dispatch "LISTSCRIPTS".
  by rewrite (proj2 (String.eqb_neq _ _) signed_in).
Qed.

(** A command with a name, and one with a name and a literal. *)
Lemma send_named w n r :
  str_forallb token_byte w = true -> no_lf n = true ->
  handle s u (w +:+ " " +:+ quoted (escapeString n)) EmptyString = Some r ->
  cr_open r = true -> cr_rest r = EmptyString ->
  send range_keys (w +:+ " " +:+ quoted (escapeString n) +:+ crlf) (idle s u)
  = (replied (cr_server r) (cr_user r) (cr_reply r), tt).
Proof.
  intros Hw%token_no_lf Hn%no_lf_escape Hr Ho Hrest.
  assert (w +:+ " " +:+ quoted (escapeString n) = (w +:+ " " +:+ dq +:+ escapeString n) +:+ str_of [dquote]) as E
    by (unfold quoted, dq; by rewrite !append_assoc).
  rewrite <- !append_assoc, <- (append_nil_r crlf).
  rewrite E in Hr. rewrite (append_assoc w), E. apply (send_command _ _ _ _ EmptyString); try done.
  unfold no_lf in *. by rewrite !str_forallb_app, Hw, Hn.
Qed.

Lemma literal_split content rest :
  literal content +:+ rest
  = ("{" +:+ fmt_d (Z.of_nat (slen content)) +:+ "+}") +:+ crlf +:+ (content +:+ crlf +:+ rest).
Proof. unfold literal. by rewrite !append_assoc. Qed.

Lemma send_literal l content r :
  no_lf l = true -> l <> EmptyString ->
  let h := "{" +:+ fmt_d (Z.of_nat (slen content)) +:+ "+}" in
  handle s u (l +:+ h) (content +:+ crlf) = Some r ->
  cr_open r = true -> cr_rest r = EmptyString ->
  send range_keys (l +:+ literal content) (idle s u) = (replied (cr_server r) (cr_user r) (cr_reply r), tt).
Proof.
  intros Hl Hne h Hr Ho Hrest. pose proof (literal_split content EmptyString) as E.
  rewrite append_nil_r, (append_nil_r crlf) in E. rewrite E. fold h.
  pose proof (literal_token (Z.of_nat (slen content)) ltac:(lia)) as Hh%token_no_lf. fold h in Hh.
  assert (l +:+ h = (l +:+ "{" +:+ fmt_d (Z.of_nat (slen content)) +:+ "+") +:+ str_of ["}"%char]) as El
    by (unfold h; by rewrite !append_assoc).
  rewrite <- append_assoc, El. rewrite El in Hr. eapply send_command; try done. rewrite <- El.
  unfold no_lf in *. by rewrite str_forallb_app, Hl, Hh.
Qed.
End Signed_in.
End Exchange.

(** ** Lemmas: the client implements the store *)

(** Names the server can list: it does not escape them. *)
Definition list_name (n : string) : bool :=
  str_forallb (fun c => negb (Ascii.eqb c lf || Ascii.eqb c dquote || Ascii.eqb c backslash)) n.

Lemma list_name_no_lf n : list_name n = true -> no_lf n = true.
Proof. apply str_forallb_impl. intros c [[-> _]%orb_false_elim _]%negb_true_iff%orb_false_elim. done. Qed.

Lemma list_name_escape n : list_name n = true -> escapeString n = n.
Proof.
  induction n as [|c n IH]; [done|]. intros [Hc Hn]%andb_prop. rewrite escapeString_cons, IH by done.
  apply negb_true_iff in Hc as [[_ Hq]%orb_false_elim Hb]%orb_false_elim. by rewrite Hb, Hq.
Qed.

Section Client.
Context `{GoRuntime} (range_keys : gmap string string -> list string).

Lemma parse_list_line n (active : bool) :
  list_name n = true ->
  parseTokens (quoted n +:+ (if active then " ACTIVE" else EmptyString))
  = quoted n :: (if active then ["ACTIVE"] else []).
Proof.
  intros Hn. rewrite <- (list_name_escape n Hn) at 1. unfold parseTokens.
  rewrite str_bytes_app, fold_left_app, tok_quoted. by destruct active.
Qed.

Definition listed (active n : string) : ScriptInfo := mkScript n (String.eqb n active).

Lemma read_scripts_lines s u active msg names acc f :
  Forall (fun n => list_name n = true) names -> no_lf msg = true -> (length names < f)%nat ->
  read_scripts f acc (replied s u (Join (map (list_line active) names) EmptyString +:+ reply_ok msg))
  = (idle s u, Ok (acc ++ map (listed active) names)).
Proof.
  intros Hn Hm. revert acc f. induction names as [|n names IH]; intros acc f Hf; (destruct f as [|f]; [simpl in Hf; lia|]).
  - simpl Join. change (EmptyString +:+ ?t) with t. cbn [read_scripts]. rewrite reply_ok_line, St_bind_eq, read_reply;
      [simpl; by rewrite app_nil_r| |done]. unfold no_lf in *. by rewrite !str_forallb_app, Hm.
  - apply Forall_cons in Hn as [Hn Hns].
    assert (Join (map (list_line active) (n :: names)) EmptyString
            = list_line active n +:+ Join (map (list_line active) names) EmptyString) as ->.
    { cbn [map Join]. destruct (map (list_line active) names); [by rewrite append_nil_r|done]. }
    set (rest := Join _ EmptyString +:+ _) in IH. rewrite append_assoc. fold rest.
    assert (exists l ch, quoted n +:+ (if String.eqb n active then " ACTIVE" else EmptyString) = l +:+ str_of [ch]
                         /\ in_cutset ch crlf = false) as (l & ch & E & Hch).
    { destruct (String.eqb n active).
      - exists (quoted n +:+ " ACTIV"), "E"%char. by rewrite append_assoc.
      - exists (dq +:+ n), dquote. split; [by rewrite append_nil_r; unfold quoted, dq; rewrite append_assoc|done]. }
    unfold list_line. rewrite <- append_assoc, E, (append_assoc _ crlf). cbn [read_scripts].
    rewrite St_bind_eq, read_reply by (try done; rewrite <- E; unfold no_lf; rewrite str_forallb_app;
      unfold quoted; rewrite !str_forallb_app; fold (no_lf n); rewrite (list_name_no_lf n Hn); by destruct (String.eqb n active)).
    cbn [fst snd]. rewrite <- E. change (HasPrefix (quoted n +:+ _) "OK") with false.
    change (refused (quoted n +:+ _)) with false. cbn iota. rewrite parse_list_line by done.
    rewrite IH by (simpl in Hf; done || lia). f_equal. f_equal. rewrite map_cons, <- app_assoc. f_equal.
    unfold listed at 2. destruct (String.eqb n active); simpl; by rewrite unquote_quoted.
Qed.

Lemma lines_length active names : (length names <= slen (Join (map (list_line active) names) EmptyString))%nat.
Proof.
  induction names as [|n names IH]; [simpl; lia|]. cbn [map Join].
  assert (1 <= slen (list_line active n))%nat by (unfold list_line, quoted; rewrite !slen_app; simpl; lia).
  destruct (map (list_line active) names); [destruct names; simpl in *; lia|]. rewrite !slen_app. simpl in *. lia.
Qed.

(** The scripts of a user, as the server keeps them. *)
Definition view (s : EmbeddedServer) (u : string) : script_store := mkScripts (scripts_of s u) (active_of s u).
Definition store_ok (st : script_store) : Prop :=
  forall n c, st_scripts st !! n = Some c -> list_name n = true /\ Z.of_nat (slen c) < 2 ^ 63.
Definition op_ok (op : sieve_op) : Prop :=
  match op with
  | OpList => True
  | OpGet n | OpActivate n | OpDelete n => no_lf n = true
  | OpPut n c => list_name n = true /\ Z.of_nat (slen c) < 2 ^ 63
  | OpCheck c => Z.of_nat (slen c) < 2 ^ 63
  end.

(** What a step of the client must do: answer as the store does, leave the
    connection idle, and keep the other users' scripts. *)
Definition step_ok (s : EmbeddedServer) (u : string) (op : sieve_op) : Prop :=
  exists s', client_step range_keys op (idle s u) = (idle s' u, snd (spec_step range_keys (view s u) op))
    /\ view s' u = fst (spec_step range_keys (view s u) op)
    /\ (forall v, v <> u -> view s' v = view s v).

Lemma after_ok s u m msg (A : St session unit) s' :
  m = (A ≫= fun _ => readUntilOK) -> A (idle s u) = (replied s' u (reply_ok msg), tt) -> no_lf msg = true ->
  m (idle s u) = (idle s' u, Ok tt).
Proof. intros -> HA Hm. rewrite St_bind_eq, HA. by apply readUntilOK_ok. Qed.

Lemma after_no s u m reply (A : St session unit) s' :
  m = (A ≫= fun _ => readUntilOK) -> A (idle s u) = (replied s' u reply, tt) ->
  reply = nonexistent \/ reply = active_refusal -> exists e, m (idle s u) = (idle s' u, Err e).
Proof. intros -> HA Hr. rewrite St_bind_eq, HA. by apply readUntilOK_no. Qed.

Section Step.
Variables (s : EmbeddedServer) (u : string) (signed_in : u <> EmptyString).

Lemma step_put n c : op_ok (OpPut n c) -> step_ok s u (OpPut n c).
Proof.
  intros [Hn Hc]. set (s' := mkServer (<[u := <[n := c]> (scripts_of s u)]> (es_scripts s)) (es_active s)).
  exists s'. split_and!.
  - unfold client_step. rewrite St_bind_eq. rewrite (after_ok s u (PutScript range_keys n c) "Putscript completed."
      (send range_keys ("PUTSCRIPT " +:+ quoted (escapeString n) +:+ " " +:+ literal c)) s'); [done|done| |done].
    pose proof (send_literal range_keys s u ("PUTSCRIPT " +:+ quoted (escapeString n) +:+ " ") c
      (mkResult s' u EmptyString (reply_ok "Putscript completed.") true)) as Hs.
    rewrite !append_assoc in Hs. apply Hs; [| done | | done | done].
    + unfold no_lf. rewrite str_forallb_app. unfold quoted. rewrite !str_forallb_app.
      fold (no_lf (escapeString n)). by rewrite (no_lf_escape n (list_name_no_lf n Hn)).
    + rewrite (append_assoc "PUTSCRIPT "), (append_assoc (quoted _)).
      change ("PUTSCRIPT " +:+ ?t) with ("PUTSCRIPT" +:+ " " +:+ t).
      rewrite handle_put; [|done|by apply literal_token; lia|done].
      unfold cmd_put. rewrite <- (append_nil_r crlf), readLiteral_literal by lia. done.
  - unfold view, s', scripts_of, active_of; simpl. by rewrite lookup_insert_eq.
  - intros v Hv. unfold view, s', scripts_of, active_of; simpl. by rewrite lookup_insert_ne.
Qed.

Lemma step_check c : op_ok (OpCheck c) -> step_ok s u (OpCheck c).
Proof.
  intros Hc. exists s. split_and!; [|done..]. unfold client_step. rewrite St_bind_eq.
  rewrite (after_ok s u (CheckScript range_keys c) "Checkscript completed."
    (send range_keys ("CHECKSCRIPT " +:+ literal c)) s); [done|done| |done].
  apply (send_literal range_keys s u "CHECKSCRIPT " c (mkResult s u EmptyString (reply_ok "Checkscript completed.") true));
    [done|done| |done|done].
  change ("CHECKSCRIPT " +:+ ?t) with ("CHECKSCRIPT" +:+ " " +:+ t).
  rewrite handle_check; [|by apply literal_token; lia|done]. unfold cmd_check.
  by rewrite <- (append_nil_r crlf), readLiteral_literal by done.
Qed.

Lemma step_activate n : op_ok (OpActivate n) -> step_ok s u (OpActivate n).
Proof.
  intros Hn. pose proof (send_named range_keys s u "SETACTIVE" n _ eq_refl Hn (handle_setactive range_keys s u signed_in n _)) as Hs.
  unfold step_ok, client_step, spec_step, cmd_setactive in *. cbn [view st_scripts st_active].
  destruct (String.eqb n EmptyString) eqn:E; [|destruct (scripts_of s u !! n) eqn:El].
  - exists (mkServer (es_scripts s) (delete u (es_active s))). rewrite St_bind_eq. split_and!.
    + by rewrite (after_ok s u (SetActive range_keys n) "Setactive completed." _ _ eq_refl (Hs eq_refl eq_refl)).
    + unfold view, active_of; simpl. by rewrite lookup_delete_eq.
    + intros v Hv. unfold view, active_of; simpl. by rewrite lookup_delete_ne.
  - exists (mkServer (es_scripts s) (<[u := n]> (es_active s))). rewrite St_bind_eq. split_and!.
    + by rewrite (after_ok s u (SetActive range_keys n) "Setactive completed." _ _ eq_refl (Hs eq_refl eq_refl)).
    + unfold view, active_of; simpl. by rewrite lookup_insert_eq.
    + intros v Hv. unfold view, active_of; simpl. by rewrite lookup_insert_ne.
  - exists s. rewrite St_bind_eq.
    destruct (after_no s u (SetActive range_keys n) _ _ _ eq_refl (Hs eq_refl eq_refl) (or_introl eq_refl)) as [e He].
    by rewrite He.
Qed.

Lemma step_delete n : op_ok (OpDelete n) -> step_ok s u (OpDelete n).
Proof.
  intros Hn. pose proof (send_named range_keys s u "DELETESCRIPT" n _ eq_refl Hn (handle_delete range_keys s u signed_in n _)) as Hs.
  unfold step_ok, client_step, spec_step, cmd_delete in *. cbn [view st_scripts st_active].
  destruct (String.eqb (active_of s u) n) eqn:E; [|destruct (scripts_of s u !! n) eqn:El].
  - exists s. rewrite St_bind_eq.
    destruct (after_no s u (DeleteScript range_keys n) _ _ _ eq_refl (Hs eq_refl eq_refl) (or_intror eq_refl)) as [e He].
    by rewrite He.
  - exists (mkServer (<[u := delete n (scripts_of s u)]> (es_scripts s)) (es_active s)). rewrite St_bind_eq. split_and!.
    + by rewrite (after_ok s u (DeleteScript range_keys n) "Deletescript completed." _ _ eq_refl (Hs eq_refl eq_refl)).
    + unfold view, scripts_of; simpl. by rewrite lookup_insert_eq.
    + intros v Hv. unfold view, scripts_of; simpl. by rewrite lookup_insert_ne.
  - exists s. rewrite St_bind_eq.
    destruct (after_no s u (DeleteScript range_keys n) _ _ _ eq_refl (Hs eq_refl eq_refl) (or_introl eq_refl)) as [e He].
    by rewrite He.
Qed.

Lemma step_get n : store_ok (view s u) -> op_ok (OpGet n) -> step_ok s u (OpGet n).
Proof.
  intros Hst Hn. pose proof (send_named range_keys s u "GETSCRIPT" n _ eq_refl Hn (handle_get range_keys s u signed_in n _) eq_refl eq_refl) as Hs.
  exists s. split_and!; [|done..]. unfold client_step, spec_step, cmd_get in *. cbn [view st_scripts cr_server cr_user cr_reply] in *.
  rewrite St_bind_eq. unfold GetScript. rewrite St_bind_eq.
  change ("GETSCRIPT " +:+ ?t) with ("GETSCRIPT" +:+ " " +:+ t). rewrite Hs. cbn [fst snd].
  destruct (scripts_of s u !! n) as [c|] eqn:El; [|done].
  destruct (Hst n c El) as [_ Hc]. set (d := fmt_d (Z.of_nat (slen c))).
  assert ("{" +:+ d +:+ "+}" +:+ crlf +:+ c +:+ crlf +:+ reply_ok "Getscript completed."
          = (("{" +:+ d +:+ "+") +:+ str_of ["}"%char]) +:+ crlf +:+ (c +:+ crlf +:+ reply_ok "Getscript completed.")) as ->
    by (by rewrite !append_assoc).
  assert (("{" +:+ d +:+ "+") +:+ str_of ["}"%char] = "{" +:+ d +:+ "+}") as E by (by rewrite !append_assoc).
  rewrite St_bind_eq, read_reply; [|rewrite E; by apply token_no_lf, literal_token; lia|done].
  cbn [fst snd]. rewrite E. change (refused ("{" +:+ _)) with false. change (HasPrefix ("{" +:+ _) "{") with true.
  cbn [negb]. rewrite St_bind_eq. cbn [gets fst snd ss_unread replied].
  unfold d. rewrite readLiteral_literal by done. rewrite !St_bind_eq.
  change (set_unread (reply_ok "Getscript completed.") _) with (replied s u (reply_ok "Getscript completed."), tt).
  cbn [fst snd]. by rewrite readUntilOK_ok.
Qed.

Lemma step_list :
  (forall m n, n ∈ range_keys m -> is_Some (m !! n)) -> store_ok (view s u) -> step_ok s u OpList.
Proof.
  intros Hr Hst. exists s. split_and!; [|done..]. unfold client_step. rewrite St_bind_eq. unfold ListScripts.
  rewrite St_bind_eq. change ("LISTSCRIPTS" +:+ crlf) with (("LISTSCRIPT" +:+ str_of ["S"%char]) +:+ crlf +:+ EmptyString).
  rewrite (send_command range_keys s u "LISTSCRIPT" "S" EmptyString _ eq_refl eq_refl (handle_list range_keys s u signed_in _) eq_refl eq_refl).
  cbn [fst snd cr_server cr_user cr_reply cmd_list]. rewrite St_bind_eq. cbn [gets fst snd ss_unread replied].
  rewrite read_scripts_lines; [done| |done|].
  - apply Forall_forall. intros n Hn. apply Hr in Hn as [c Hc]. by apply (Hst n c).
  - pose proof (lines_length (active_of s u) (range_keys (scripts_of s u))). rewrite slen_app. lia.
Qed.
End Step.
End Client.

Section Histories.
Context `{GoRuntime} (range_keys : gmap string string -> list string).
Hypothesis range_visits : forall m, range_keys m ≡ₚ map fst (map_to_list m).

Lemma range_present m n : n ∈ range_keys m -> is_Some (m !! n).
Proof.
  rewrite range_visits. intros ([k c] & -> & Hc)%list_elem_of_fmap. apply elem_of_map_to_list in Hc. by exists c.
Qed.

Lemma client_step_ok s u op :
  u <> EmptyString -> store_ok (view s u) -> op_ok op -> step_ok range_keys s u op.
Proof.
  intros Hu Hst Hop. destruct op.
  - apply step_list; [done|apply range_present|done].
  - by apply step_get.
  - by apply step_put.
  - by apply step_activate.
  - by apply step_delete.
  - by apply step_check.
Qed.

Lemma spec_keeps_ok st op : store_ok st -> op_ok op -> store_ok (fst (spec_step range_keys st op)).
Proof.
  intros Hst Hop. destruct op as [|n|n c|n|n|c]; simpl; try done.
  - intros k v. simpl. destruct (decide (n = k)) as [->|Hne].
    + rewrite lookup_insert_eq. by intros [= <-].
    + rewrite lookup_insert_ne by done. apply Hst.
  - by case_match; [|case_match].
  - case_match; [done|]. case_match; [|done]. intros k v. simpl. intros Hk. apply lookup_delete_Some in Hk as [_ Hk]. by apply Hst.
Qed.

Lemma client_run_ok ops s u :
  u <> EmptyString -> store_ok (view s u) -> Forall op_ok ops ->
  exists s', client_run range_keys ops (idle s u) = (idle s' u, snd (spec_run range_keys (view s u) ops))
    /\ view s' u = fst (spec_run range_keys (view s u) ops)
    /\ (forall v, v <> u -> view s' v = view s v).
Proof.
  intros Hu. revert s. induction ops as [|op ops IH]; intros s Hst Hops; [by exists s|].
  apply Forall_cons in Hops as [Hop Hops].
  destruct (client_step_ok s u op Hu Hst Hop) as (s1 & E & Hv & Hfr).
  pose proof (spec_keeps_ok _ op Hst Hop) as Hst1. rewrite <- Hv in Hst1.
  destruct (IH s1 Hst1 Hops) as (s2 & E2 & Hv2 & Hfr2). exists s2. cbn [client_run spec_run].
  rewrite !St_bind_eq, E. cbn [fst snd]. rewrite E2. cbn [fst snd]. rewrite Hv in Hv2 |- *.
  destruct (spec_step range_keys (view s u) op) as [st' a] eqn:Es. simpl in Hv, Hv2 |- *.
  destruct (spec_run range_keys st' ops) as [st'' l] eqn:Er. simpl in *. split_and!; [done|done|].
  intros v Hne. by rewrite Hfr2, Hfr.
Qed.

(** *** Signing in *)

Definition no_nul (s : string) : bool := str_forallb (fun c => negb (Ascii.eqb c "000")) s.

Lemma std_char_token x : token_byte (B64.std_char (b64_char x)) = true.
Proof. by destruct x as [[] [] [] [] [] []]; vm_compute. Qed.

Lemma encode_std_token s : str_forallb token_byte (B64.encode_std s) = true.
Proof.
  unfold B64.encode_std. rewrite b64_encode_sextets, str_forallb_app. apply andb_true_intro. split.
  - rewrite std_chars_map. unfold std_chars. induction (enc_sextets s) as [|x l IH]; [done|].
    cbn. by rewrite std_char_token.
  - unfold B64.padding. by destruct (_ mod 4)%nat as [|[|[|[|k]]]].
Qed.

Lemma trim_quotes_quoted s : str_forallb token_byte s = true -> trim_quotes (quoted s) = s.
Proof.
  intros Hs. assert (str_forallb (fun c => negb (in_cutset c dq)) s = true) as Hq.
  { revert Hs. apply str_forallb_impl. intros c.
    intros [[[[_ Hc]%orb_false_elim _]%orb_false_elim _]%orb_false_elim _]%negb_true_iff%orb_false_elim. simpl. by rewrite Hc. }
  unfold trim_quotes, Trim, quoted. change (TrimLeft (dq +:+ ?t) dq) with (TrimLeft t dq).
  destruct (String.eqb_spec s EmptyString) as [->|Hne]; [done|].
  assert (TrimLeft (s +:+ dq) dq = s +:+ dq) as ->.
  { destruct s as [|c s]; [done|]. apply andb_prop in Hq as [Hc%negb_true_iff _]. simpl in *. by rewrite Hc. }
  unfold TrimRight. rewrite str_rev_app. change (TrimLeft (String.rev dq +:+ ?t) dq) with (TrimLeft t dq).
  rewrite TrimLeft_none by (by apply str_forallb_rev). apply str_rev_involutive.
Qed.

Lemma token_list_name s : str_forallb token_byte s = true -> list_name s = true.
Proof.
  apply str_forallb_impl. unfold token_byte. intros c Hc. bool_props.
  repeat match goal with E : Ascii.eqb c _ = false |- _ => rewrite E; clear E end. done.
Qed.

Lemma split_plain user pass :
  no_nul user = true ->
  let nul := str_of ["000"%char] in
  Split (nul +:+ user +:+ nul +:+ pass) nul = EmptyString :: user :: Split pass nul.
Proof.
  intros Hn nul. change (Split (nul +:+ ?t) nul) with (EmptyString :: Split t nul).
  f_equal. exact (split_go_app "000" EmptyString user pass Hn).
Qed.

(** A connection signs in as the user of the SASL response. *)
Lemma sign_in s user pass :
  user <> EmptyString -> no_nul user = true -> no_lf user = true ->
  Dial s = (idle s EmptyString, Ok tt)
  /\ Authenticate range_keys user pass (idle s EmptyString) = (idle s user, Ok tt).
Proof.
  intros Hu Hn Hl. split; [done|]. unfold Authenticate. rewrite St_bind_eq.
  set (b := B64.encode_std _). pose proof (encode_std_token (str_of ["000"%char] +:+ user +:+ str_of ["000"%char] +:+ pass)) as Hb.
  fold b in Hb.
  assert ("AUTHENTICATE " +:+ quoted "PLAIN" +:+ " " +:+ quoted b +:+ crlf
          = (("AUTHENTICATE " +:+ quoted "PLAIN" +:+ " " +:+ dq +:+ b) +:+ str_of [dquote]) +:+ crlf +:+ EmptyString) as ->
    by (unfold quoted, dq; by rewrite append_nil_r, !append_assoc).
  assert (("AUTHENTICATE " +:+ quoted "PLAIN" +:+ " " +:+ dq +:+ b) +:+ str_of [dquote]
          = "AUTHENTICATE" +:+ " " +:+ quoted (escapeString "PLAIN") +:+ " " +:+ quoted (escapeString b)) as El.
  { rewrite (list_name_escape b) by (by apply token_list_name). unfold quoted, dq. by rewrite !append_assoc. }
  erewrite send_command; [| |done| | |].
  3: { rewrite El. unfold handle_command.
    assert (parseTokens ("AUTHENTICATE" +:+ " " +:+ quoted (escapeString "PLAIN") +:+ " " +:+ quoted (escapeString b))
            = ["AUTHENTICATE"; quoted "PLAIN"; quoted b]) as ->.
    { unfold parseTokens. rewrite tok_word_blank, (str_bytes_app (quoted _)), fold_left_app, tok_quoted by done.
      rewrite (str_bytes_app " "), fold_left_app. unfold tok_flush. cbn -[quoted escapeString]. by rewrite tok_quoted. }
    change (ToUpper "AUTHENTICATE") with "AUTHENTICATE". cbn -[quoted cmd_authenticate].
    unfold cmd_authenticate. rewrite !trim_quotes_quoted by done. change (ToUpper "PLAIN") with "PLAIN".
    cbn -[quoted B64.decode Split reply_ok str_of]. unfold b. rewrite decode_encode_std.
    rewrite split_plain by done.
    destruct (Split pass (str_of ["000"%char])) as [|x l] eqn:E; [exfalso; by apply split_go_nonempty in E|].
    rewrite (proj2 (String.eqb_neq _ _) Hu). reflexivity. }
  - cbn [fst snd cr_server cr_user cr_reply]. change (EmptyString +:+ ?t) with t. apply readUntilOK_ok.
    exact Hl.
  - rewrite El. rewrite (list_name_escape b) by (by apply token_list_name). unfold no_lf, quoted.
    rewrite !str_forallb_app. fold (no_lf b). by rewrite (token_no_lf b Hb).
  - done.
  - done.
Qed.
End Histories.

(** ** Properties *)

(** C20: The embedded ManageSieve server and its client implement the scripts
    of one user.  A client that signs in as a user and then makes any sequence
    of calls, on names that fit on a line and that the server can list, gets
    exactly the answers of a map of scripts with at most one active script:
    names with blanks, tabs and quotes and scripts with any bytes pass through
    the wire unchanged, refusals included.  After every call nothing is left
    on the connection, and no call touches the scripts of another user. *)
Theorem sieve_wire_refines_store `{GoRuntime} (range_keys : gmap string string -> list string)
    (range_visits : forall m, range_keys m ≡ₚ map fst (map_to_list m)) s user pass ops :
  user <> EmptyString -> no_nul user = true -> no_lf user = true ->
  store_ok (view s user) -> Forall op_ok ops ->
  let c := fst (Authenticate range_keys user pass (fst (Dial s))) in
  exists s', client_run range_keys ops c = (idle s' user, snd (spec_run range_keys (view s user) ops))
    /\ view s' user = fst (spec_run range_keys (view s user) ops)
    /\ (forall v, v <> user -> view s' v = view s v).
Proof.
  intros Hu Hn Hl Hst Hops c. destruct (sign_in range_keys s user pass Hu Hn Hl) as [Hd Ha].
  unfold c. rewrite Hd. cbn [fst]. rewrite Ha. by apply client_run_ok.
Qed.

Definition map_keys (m : gmap string string) : list string := map fst (map_to_list m).

Definition demo_ops : list sieve_op :=
  [OpPut "my rules" "keep;"; OpActivate "my rules"; OpDelete "my rules"; OpGet "my rules"; OpList;
   OpActivate EmptyString; OpDelete "my rules"; OpGet "my rules"; OpCheck "stop;"].

Lemma sieve_wire_refines_store_witness :
  snd (client_run (H := ascii_runtime) map_keys demo_ops
         (fst (Authenticate (H := ascii_runtime) map_keys "ann" "secret" (fst (Dial NewEmbeddedServer)))))
  = [AnsDone; AnsDone; AnsError; AnsContent "keep;"; AnsScripts [mkScript "my rules" true]; AnsDone; AnsDone; AnsError; AnsDone].
Proof.
  destruct (sieve_wire_refines_store (H := ascii_runtime) map_keys (fun m => reflexivity _) NewEmbeddedServer "ann" "secret" demo_ops)
    as (s' & E & _); [done|done|done|done| |].
  - repeat constructor.
  - etransitivity; [exact (f_equal snd E)|]. vm_compute. reflexivity.
Defined.

(** A name with a line feed ends the command it is written into: escaping
    covers quotes and backslashes only.  Asking for the script of such a name
    deletes another script, and the replies that are left over answer the
    calls that follow. *)
Theorem line_feed_injects_commands :
  let evil := "x" +:+ crlf +:+ "DELETESCRIPT rules" +:+ crlf in
  let s := mkServer {[ "ann" := {[ "rules" := "keep;" ]} ]} ∅ in
  let c := fst (GetScript (H := ascii_runtime) map_keys evil (idle s "ann")) in
  view (ss_server c) "ann" = mkScripts ∅ EmptyString
  /\ snd (GetScript (H := ascii_runtime) map_keys "gone" c) = Err ("unexpected GETSCRIPT response header: OK " +:+ quoted "Deletescript completed.").
Proof. vm_compute. by split. Qed.
