(* ===== verification/SieveScripts.v ===== *)
(** * The store of sieve scripts

    The backend of [jmap/managesieve/backend.go].  It keeps no scripts: every
    operation opens a connection to the ManageSieve server as the user of the
    request and works through the calls of the client, which are the interface
    [SieveServer] here.  What it keeps is where renamed scripts went and a
    change tracker per user.

    [embedded_server] is the interface over the wire of [ManageSieve],
    [spec_server] over the scripts alone; [embedded_server_refines_scripts] relates them. *)

From S2P Require Import Prelude GoSort GoStrings GoState Base64 Json Envelope Query Patch Handler MailTypes ChangeTracker ImapStores MethodSupport HttpFront ManageSieve.
From Stdlib Require Import Ascii SpecFloat.

(** ** The interface of the server *)

(** The calls of a connection that is signed in as [user]; between two calls
    nothing is on the wire. *)
Record SieveServer (W : Type) : Type := mkSieveServer {
  sv_dial : string -> string -> St W (option string);
  sv_list : string -> St W (result string (list ScriptInfo));
  sv_get : string -> string -> St W (result string string);
  sv_put : string -> string -> string -> St W (result string unit);
  sv_activate : string -> string -> St W (result string unit);
  sv_delete : string -> string -> St W (result string unit);
}.
Arguments mkSieveServer {W}.
Arguments sv_dial {W}. Arguments sv_list {W}. Arguments sv_get {W}.
Arguments sv_put {W}. Arguments sv_activate {W}. Arguments sv_delete {W}.

(** The scripts of every user. *)
Abbreviation stores := (gmap string script_store).

Section Servers.
Context `{GoRuntime} (range_keys : gmap string string -> list string).

(** A call on an idle connection. *)
Definition on_wire {A} (user : string) (m : St session A) : St EmbeddedServer A := fun s =>
  let '(c, r) := m (idle s user) in (ss_server c, r).
Definition embedded_server : SieveServer EmbeddedServer := mkSieveServer
  (fun user pass s =>
     match Dial s with
     | (_, Err e) => (s, Some ("ManageSieve dial failed: " +:+ e))
     | (c, Ok _) => match Authenticate range_keys user pass c with
                    | (c, Ok _) => (ss_server c, None)
                    | (c, Err e) => (ss_server c, Some ("ManageSieve authenticate failed: " +:+ e))
                    end
     end)
  (fun user => on_wire user (ListScripts range_keys))
  (fun user n => on_wire user (GetScript range_keys n))
  (fun user n c => on_wire user (PutScript range_keys n c))
  (fun user n => on_wire user (SetActive range_keys n))
  (fun user n => on_wire user (DeleteScript range_keys n)).

Definition store_of (w : stores) (user : string) : script_store := default (mkScripts ∅ EmptyString) (w !! user).
Definition spec_call {A} (user : string) (op : sieve_op) (get : sieve_answer -> option A) : St stores (result string A) :=
  fun w =>
    let '(st, a) := spec_step range_keys (store_of w user) op in
    (<[user := st]> w, match get a with Some x => Ok x | None => Err "refused" end).
Definition done_only (a : sieve_answer) : option unit := match a with AnsDone => Some tt | _ => None end.
Definition spec_server : SieveServer stores := mkSieveServer
  (fun _ _ => mret None)
  (fun user => spec_call user OpList (fun a => match a with AnsScripts l => Some l | _ => None end))
  (fun user n => spec_call user (OpGet n) (fun a => match a with AnsContent c => Some c | _ => None end))
  (fun user n c => spec_call user (OpPut n c) done_only)
  (fun user n => spec_call user (OpActivate n) done_only)
  (fun user n => spec_call user (OpDelete n) done_only).
End Servers.

(** ** Ids and names *)

Definition SieveScriptIDForName (name : string) : string := "s-" +:+ b64_encode name.
Definition NameForSieveScriptID (id : string) : string :=
  if HasPrefix id "s-"
  then match b64_decode (str_drop 2 id) with Some n => n | None => id end
  else id.

(** ** Scripts *)

Record SieveScript : Type := mkSieve {
  sv_ID : string;
  sv_Name : string;
  sv_Content : string;
  sv_IsActive : bool;
  sv_IsValid : bool;
}.

(** ** The backend *)

Record sieve_state (W : Type) : Type := mkSieveState {
  bs_world : W;
  bs_moved : gmap string (gmap string string);
  bs_trackers : gmap string ChangeTracker;
}.
Arguments mkSieveState {W}. Arguments bs_world {W}. Arguments bs_moved {W}. Arguments bs_trackers {W}.

Section Backend.
Context `{GoRuntime} {W : Type} (srv : SieveServer W).
(** [go-sieve]: [None] when the script loads. *)
Variable sieve_load : string -> option string.
(** [json.Marshal] and [json.Unmarshal] of a map of strings, and
    [ObjectFingerprint] of a script. *)
Variable marshal_map : gmap string string -> string.
Variable unmarshal_map : string -> option (gmap string string).
Variable fingerprint : SieveScript -> string.
(** The broadcaster, when one is set. *)
Variable broadcaster : option (string -> string -> string -> St W unit).
(** The order in which [range] visits a map. *)
Variable range_ids : gmap string string -> list string.

Definition on_server {A} (m : St W A) : St (sieve_state W) A :=
  on_part bs_world (fun w st => mkSieveState w (bs_moved st) (bs_trackers st)) m.

Definition InvalidateCache (user : string) : St (sieve_state W) unit :=
  modify (fun st => mkSieveState (bs_world st) (delete user (bs_moved st)) (bs_trackers st)).

Definition emitStateChange (u newState : string) : St (sieve_state W) unit :=
  match broadcaster with
  | Some publish =>
      if String.eqb u EmptyString then mret tt
      else on_server (publish (AccountIDForSubject u) "SieveScript" newState)
  | None => mret tt
  end.

Definition getTracker (u : string) (st : sieve_state W) : ChangeTracker :=
  default (NewChangeTracker 1000) (bs_trackers st !! u).
Definition record_script (u id action : string) : St (sieve_state W) unit :=
  modify (fun st => mkSieveState (bs_world st) (bs_moved st)
    (<[u := fst (ChangeTracker_Record (getTracker u st) id action)]> (bs_trackers st))).

Definition userAndPass (c : Ctx) : string * string :=
  let '(cr, ok) := CredentialsFromContext c in
  if ok && negb (String.eqb (fst cr) EmptyString) then cr
  else
    let subj := fst (SubjectFromContext c) in
    if negb (String.eqb subj EmptyString) then (subj, subj)
    else
      let '(accID, ok) := AccountIDFromContext c in
      if ok && negb (String.eqb accID EmptyString)
      then match SubjectForAccountID accID with
           | Some s => if String.eqb s EmptyString then (accID, accID) else (s, s)
           | None => (accID, accID)
           end
      else ("user@example.com", "user@example.com").

(** [dial]; the user of the connection. *)
Definition dial (c : Ctx) : St (sieve_state W) (result go_error string) :=
  let '(user, pass) := userAndPass c in
  r ← on_server (sv_dial srv user pass);
  mret (match r with None => Ok user | Some e => Err (GError e) end).

Definition resolveID (st : sieve_state W) (u id : string) : string :=
  match bs_moved st !! u with
  | Some m => default id (m !! id)
  | None => id
  end.
Definition recordMove (u oldID newID : string) : St (sieve_state W) unit :=
  modify (fun st => mkSieveState (bs_world st)
    (<[u := <[oldID := newID]> (default ∅ (bs_moved st !! u))]> (bs_moved st)) (bs_trackers st)).

Definition ValidateSieveScript (content : string) : bool * string :=
  if String.eqb (TrimSpace content) EmptyString then (false, "sieve script content is empty")
  else match sieve_load content with Some e => (false, e) | None => (true, EmptyString) end.

(** *** Reading *)

Definition or_gerror {A} (r : result string A) : result go_error A :=
  match r with Ok x => Ok x | Err e => Err (GError e) end.

(** [infoMap]: the last entry of a name counts. *)
Definition info_map (infos : list ScriptInfo) : gmap string ScriptInfo :=
  foldl (fun m i => <[si_Name i := i]> m) ∅ infos.

(** The name under which an id is looked up. *)
Definition script_name (infos : gmap string ScriptInfo) (resolvedID rawID : string) : option (string * ScriptInfo) :=
  let name := NameForSieveScriptID resolvedID in
  match infos !! name with
  | Some i => Some (name, i)
  | None =>
      match infos !! resolvedID with
      | Some i => Some (resolvedID, i)
      | None => match infos !! rawID with Some i => Some (rawID, i) | None => None end
      end
  end.

Definition read_script (user : string) (acc : list SieveScript) (i : ScriptInfo) : St (sieve_state W) (list SieveScript) :=
  r ← on_server (sv_get srv user (si_Name i));
  let content := match r with Ok c => c | Err _ => EmptyString end in
  mret (acc ++ [mkSieve (SieveScriptIDForName (si_Name i)) (si_Name i) content (si_Active i) true]).
Definition all_scripts (user : string) (infos : list ScriptInfo) : St (sieve_state W) (list SieveScript) :=
  fold_state (read_script user) [] infos.

Definition get_script (user : string) (infos : gmap string ScriptInfo)
    (acc : list SieveScript * list string) (rawID : string) : St (sieve_state W) (list SieveScript * list string) :=
  st ← (fun st => (st, st));
  match script_name infos (resolveID st user rawID) rawID with
  | None => mret (fst acc, snd acc ++ [rawID])
  | Some (name, i) =>
      r ← on_server (sv_get srv user name);
      mret (match r with
            | Err _ => (fst acc, snd acc ++ [rawID])
            | Ok content =>
                (fst acc ++ [mkSieve (SieveScriptIDForName name) name content (si_Active i) true], snd acc)
            end)
  end.

Definition GetSieveScripts (c : Ctx) (ids : list string)
  : St (sieve_state W) (result go_error (list SieveScript * list string)) :=
  u ← dial c;
  match u with
  | Err e => mret (Err e)
  | Ok user =>
      infos ← on_server (sv_list srv user);
      match infos with
      | Err e => mret (Err (GError e))
      | Ok infos =>
          match ids with
          | [] => l ← all_scripts user infos; mret (Ok (l, []))
          | _ => r ← fold_state (get_script user (info_map infos)) ([], []) ids; mret (Ok r)
          end
      end
  end.
Definition GetAllSieveScripts (c : Ctx) : St (sieve_state W) (result go_error (list SieveScript)) :=
  r ← GetSieveScripts c [];
  mret (match r with Ok (l, _) => Ok l | Err e => Err e end).

(** *** State and changes *)

Definition sieveScriptStateMap (scripts : list SieveScript) : gmap string string :=
  list_to_map (rev (map (fun s => (sv_ID s, fingerprint s)) scripts)).

Definition SieveScriptState (c : Ctx) : St (sieve_state W) string :=
  r ← GetAllSieveScripts c;
  match r with
  | Err _ => gets (fun st => ChangeTracker_State (getTracker (fst (userAndPass c)) st))
  | Ok l => mret (EncodeStateVector marshal_map "sieve-v1:" (sieveScriptStateMap l))
  end.

(** The renamed scripts: what is reported as updated, and what is left of the
    two vectors. *)
Record rename_acc : Type := mkRename {
  ra_updated : list string;
  ra_old : gmap string string;
  ra_cur : gmap string string;
}.
Definition rename_step (moves : gmap string string) (a : rename_acc) (oldID : string) : rename_acc :=
  match moves !! oldID with
  | Some target =>
      match ra_cur a !! target with
      | Some _ => mkRename (ra_updated a ++ [oldID]) (delete oldID (ra_old a)) (delete target (ra_cur a))
      | None => a
      end
  | None => a
  end.
Definition script_changes (moves old cur : gmap string string) : list string * list string * list string :=
  let a := foldl (rename_step moves) (mkRename [] old cur) (range_ids old) in
  let '(created, updated, destroyed) := DiffStateVectors (ra_old a) (ra_cur a) in
  (created, sort_ids (ra_updated a ++ updated), destroyed).

Definition SieveScriptChanges (c : Ctx) (sinceState : string)
  : St (sieve_state W) (list string * list string * list string * string * bool) :=
  let user := fst (userAndPass c) in
  if negb (HasPrefix sinceState "sieve-v1:")
  then t ← gets (getTracker user);
       let r := ChangeTracker_Changes t sinceState None in
       mret (ch_created r, ch_updated r, ch_destroyed r, ch_newState r, ch_hasMore r)
  else match DecodeStateVector unmarshal_map "sieve-v1:" sinceState with
       | None => mret ([], [], [], EmptyString, false)
       | Some old =>
           r ← GetAllSieveScripts c;
           match r with
           | Err _ => mret ([], [], [], EmptyString, false)
           | Ok l =>
               let cur := sieveScriptStateMap l in
               moves ← gets (fun st => default ∅ (bs_moved st !! user));
               let '(created, updated, destroyed) := script_changes moves old cur in
               mret (created, updated, destroyed, EncodeStateVector marshal_map "sieve-v1:" cur, false)
           end
       end.

(** *** Writing *)

(** The end of every change: it is recorded and published. *)
Definition changed (c : Ctx) (user id action : string) : St (sieve_state W) unit :=
  record_script user id action ≫= fun _ =>
  st ← SieveScriptState c; emitStateChange user st.

Definition create_name (s : SieveScript) : string :=
  let name := if String.eqb (sv_Name s) EmptyString && negb (String.eqb (sv_ID s) EmptyString)
              then NameForSieveScriptID (sv_ID s) else sv_Name s in
  if String.eqb name EmptyString then "default" else name.

Definition CreateSieveScript (c : Ctx) (script : SieveScript) : St (sieve_state W) (result go_error SieveScript) :=
  let '(isValid, errDetail) := ValidateSieveScript (sv_Content script) in
  if negb isValid then mret (Err (GError ("invalid sieve script: " +:+ errDetail)))
  else
    u ← dial c;
    match u with
    | Err e => mret (Err e)
    | Ok user =>
        let name := create_name script in
        r ← on_server (sv_put srv user name (sv_Content script));
        match r with
        | Err e => mret (Err (GError e))
        | Ok _ =>
            r ← (if sv_IsActive script then on_server (sv_activate srv user name) else mret (Ok tt));
            match r with
            | Err e => mret (Err (GError e))
            | Ok _ =>
                let id := SieveScriptIDForName name in
                changed c user id "create" ≫= fun _ =>
                mret (Ok (mkSieve id name (sv_Content script) (sv_IsActive script) true))
            end
        end
    end.

(** The script an update is about: its name and its content. *)
Definition find_script (user resolvedID : string) : St (sieve_state W) (option (string * string)) :=
  let oldName := NameForSieveScriptID resolvedID in
  r ← on_server (sv_get srv user oldName);
  match r with
  | Ok content => mret (Some (oldName, content))
  | Err _ =>
      if String.eqb resolvedID oldName then mret None
      else r ← on_server (sv_get srv user resolvedID);
           mret (match r with Ok content => Some (resolvedID, content) | Err _ => None end)
  end.

Definition new_name (patch : obj) (oldName : string) : string :=
  match get_str patch "name" with
  | Some n => if String.eqb n EmptyString then oldName else n
  | None => oldName
  end.

(** Whether the listing shows a name as active; an error reads as no scripts. *)
Definition listed_active (user name : string) : St (sieve_state W) bool :=
  r ← on_server (sv_list srv user);
  mret (match r with
        | Ok infos => existsb (fun i => String.eqb (si_Name i) name && si_Active i) infos
        | Err _ => false
        end).

(** Upload under the new name, keep it active if it was, remove the old name
    and remember where the ids went. *)
Definition rename_script (user id resolvedID oldName newName content : string)
  : St (sieve_state W) (option string) :=
  let newID := SieveScriptIDForName newName in
  wasActive ← listed_active user oldName;
  r ← on_server (sv_put srv user newName content);
  match r with
  | Err e => mret (Some e)
  | Ok _ =>
      (if wasActive : bool then on_server (sv_activate srv user newName) else mret (Ok tt)) ≫= fun _ =>
      on_server (sv_delete srv user oldName) ≫= fun _ =>
      recordMove user id newID ≫= fun _ =>
      (if String.eqb resolvedID id then mret tt else recordMove user resolvedID newID) ≫= fun _ =>
      mret None
  end.

(** The last part of an update: activation. *)
Definition activate_patch (user newName : string) (patch : obj) (isActive : bool)
  : St (sieve_state W) (result string bool) :=
  match get_bool patch "isActive" with
  | Some true =>
      r ← on_server (sv_activate srv user newName);
      mret (match r with Ok _ => Ok true | Err e => Err e end)
  | Some false =>
      if isActive then on_server (sv_activate srv user EmptyString) ≫= fun _ => mret (Ok false) else mret (Ok false)
  | None => mret (Ok isActive)
  end.

Definition UpdateSieveScript (c : Ctx) (id : string) (patch : obj) : St (sieve_state W) (result go_error SieveScript) :=
  u ← dial c;
  match u with
  | Err e => mret (Err e)
  | Ok user =>
      resolvedID ← gets (fun st => resolveID st user id);
      f ← find_script user resolvedID;
      match f with
      | None => mret (Err (GNotFound ("sieve script " +:+ id +:+ ": not found")))
      | Some (oldName, oldContent) =>
          let newName := new_name patch oldName in
          let check := match get_str patch "content" with
                       | Some cp => ValidateSieveScript cp
                       | None => (true, EmptyString)
                       end in
          if negb (fst check) then mret (Err (GError ("invalid sieve script: " +:+ snd check)))
          else
            let content := match get_str patch "content" with Some cp => cp | None => oldContent end in
            let newID := SieveScriptIDForName newName in
            e ← (if negb (String.eqb newName oldName) then rename_script user id resolvedID oldName newName content
                 else match obj_get patch "content" with
                      | Some _ => r ← on_server (sv_put srv user newName content);
                                  mret (match r with Ok _ => None | Err e => Some e end)
                      | None => mret None
                      end);
            match e with
            | Some e => mret (Err (GError e))
            | None =>
                isActive ← listed_active user newName;
                a ← activate_patch user newName patch isActive;
                match a with
                | Err e => mret (Err (GError e))
                | Ok isActive =>
                    changed c user newID "update" ≫= fun _ =>
                    mret (Ok (mkSieve newID newName content isActive true))
                end
            end
      end
  end.

Definition DeleteSieveScript (c : Ctx) (id : string) : St (sieve_state W) (result go_error bool) :=
  u ← dial c;
  match u with
  | Err e => mret (Err e)
  | Ok user =>
      resolvedID ← gets (fun st => resolveID st user id);
      let name := NameForSieveScriptID resolvedID in
      r ← on_server (sv_list srv user);
      let infos := match r with Ok l => l | Err _ => [] end in
      match List.find (fun i => String.eqb (si_Name i) name || String.eqb (si_Name i) resolvedID) infos with
      | None => mret (Ok false)
      | Some i =>
          (if si_Active i then on_server (sv_activate srv user EmptyString) else mret (Ok tt)) ≫= fun _ =>
          r ← on_server (sv_delete srv user (si_Name i));
          match r with
          | Err _ => mret (Ok false)
          | Ok _ => changed c user id "destroy" ≫= fun _ => mret (Ok true)
          end
      end
  end.

(** *** Queries *)

Definition match_script (filter : obj) (s : SieveScript) : bool :=
  let nameFilter := str_or_empty filter "name" in
  (String.eqb nameFilter EmptyString || Contains (ToLower (sv_Name s)) (ToLower nameFilter))
  && match get_bool filter "isActive" with Some b => Bool.eqb (sv_IsActive s) b | None => true end
  && match get_bool filter "isValid" with Some b => Bool.eqb (sv_IsValid s) b | None => true end.
Definition script_cmp (a b : SieveScript) : comparison :=
  match String.compare (sv_Name a) (sv_Name b) with
  | Eq => String.compare (sv_ID a) (sv_ID b)
  | r => r
  end.
Definition less_of (cmp : SieveScript -> SieveScript -> comparison) (a b : SieveScript) : bool :=
  match cmp a b with Lt => true | _ => false end.

(** The page of the matching ids; [None] is the panic of [make] with a
    negative capacity. *)
Definition script_page (ids : list string) (position : Z) (limit : option Z) : option (list string * Z) :=
  let total := Z.of_nat (length ids) in
  let position := NormalizePosition position total in
  if total <=? position then Some ([], total)
  else
    let end_ := match limit with
                | Some l => if i64 (position + i64 l) <? total then i64 (position + i64 l) else total
                | None => total
                end in
    if end_ <? position then None else Some (slice position end_ ids, total).

Definition QuerySieveScripts (c : Ctx) (filter : obj) (position : Z) (limit : option Z)
  : St (sieve_state W) (option (result go_error (list string * Z))) :=
  r ← GetAllSieveScripts c;
  mret (match r with
        | Err e => Some (Err e)
        | Ok all =>
            let matched := stable_sort (less_of script_cmp) (List.filter (match_script filter) all) in
            Ok <$> script_page (map sv_ID matched) position limit
        end).
End Backend.

(** ** Lemmas: ids *)

Lemma name_of_id n : NameForSieveScriptID (SieveScriptIDForName n) = n.
Proof.
  unfold NameForSieveScriptID, SieveScriptIDForName. rewrite HasPrefix_app.
  change (str_drop 2 ("s-" +:+ b64_encode n)) with (b64_encode n). by rewrite b64_decode_encode.
Qed.

Lemma script_id_inj m n : SieveScriptIDForName m = SieveScriptIDForName n -> m = n.
Proof. intros E. by rewrite <- (name_of_id m), E, name_of_id. Qed.

(** ** Lemmas: the calls on a store *)

Section Store.
Context (range_keys : gmap string string -> list string).
Hypothesis range_visits : forall m, range_keys m ≡ₚ map fst (map_to_list m).
Notation st := (sieve_state stores).
Notation srv := (spec_server range_keys).

Abbreviation state_of s u := (store_of (bs_world s) u).

(** A call changes the scripts of one user to [x] and nothing else. *)
Definition sets (u : string) (x : script_store) (s s' : st) : Prop :=
  state_of s' u = x /\ (forall v, v <> u -> state_of s' v = state_of s v) /\ bs_moved s' = bs_moved s.

Lemma sets_trans u x y s s1 s2 : sets u x s s1 -> sets u y s1 s2 -> sets u y s s2.
Proof.
  intros (E1 & F1 & M1) (E2 & F2 & M2). split_and!; [done| |congruence].
  intros v Hv. by rewrite F2, F1.
Qed.

Lemma sets_refl u s : sets u (state_of s u) s s.
Proof. by split_and!. Qed.

Definition get_of (a : sieve_answer) : option string := match a with AnsContent c => Some c | _ => None end.
Definition list_of (a : sieve_answer) : option (list ScriptInfo) := match a with AnsScripts l => Some l | _ => None end.

Lemma call_eq {A} u op (get : sieve_answer -> option A) s :
  let r := spec_step range_keys (state_of s u) op in
  snd (on_server (spec_call range_keys u op get) s)
  = (match get (snd r) with Some x => Ok x | None => Err "refused" end)
  /\ sets u (fst r) s (fst (on_server (spec_call range_keys u op get) s)).
Proof.
  unfold on_server, on_part, spec_call. destruct (spec_step range_keys (state_of s u) op) as [x a]. simpl.
  split; [done|]. unfold sets, store_of; simpl. split_and!; [by rewrite lookup_insert_eq| |done].
  intros v Hv. by rewrite lookup_insert_ne.
Qed.

Lemma range_elem m n : n ∈ range_keys m <-> is_Some (m !! n).
Proof.
  rewrite range_visits, list_elem_of_fmap. split.
  - intros ([k c] & -> & Hc%elem_of_map_to_list). by exists c.
  - intros [c Hc]. exists (n, c). by rewrite elem_of_map_to_list.
Qed.

Lemma listed_active_eq u n s :
  snd (listed_active srv u n s)
  = match st_scripts (state_of s u) !! n with Some _ => String.eqb n (st_active (state_of s u)) | None => false end
  /\ sets u (state_of s u) s (fst (listed_active srv u n s)).
Proof.
  unfold listed_active. rewrite St_bind_eq. cbn [sv_list srv spec_server].
  destruct (call_eq u OpList list_of s) as [Er Hs]. unfold list_of in *. rewrite Er. cbn [spec_step snd fst] in *.
  split; [|done]. cbn. set (m := st_scripts (state_of s u)). set (act := st_active (state_of s u)).
  apply eq_true_iff_eq. rewrite existsb_exists. split.
  - intros (i & Hi & [<-%String.eqb_eq Ha]%andb_prop). apply in_map_iff in Hi as (k & <- & Hk).
    apply list_elem_of_In, range_elem in Hk as [c Hc]. simpl in *. by rewrite Hc.
  - destruct (m !! n) eqn:En; [|done]. intros Ha. exists (mkScript n true). split.
    + apply in_map_iff. exists n. rewrite Ha. split; [done|]. apply list_elem_of_In, range_elem. by exists s0.
    + simpl. by rewrite String.eqb_refl.
Qed.

(** *** Reading *)

Lemma call_get_eq u n s :
  snd (on_server (sv_get srv u n) s)
  = match st_scripts (state_of s u) !! n with Some c => Ok c | None => Err "refused" end
  /\ sets u (state_of s u) s (fst (on_server (sv_get srv u n) s)).
Proof.
  destruct (call_eq u (OpGet n) get_of s) as [E Hs]. split; [|exact Hs].
  etransitivity; [exact E|]. simpl. by destruct (st_scripts (state_of s u) !! n).
Qed.

Lemma call_done_eq u op s (m : St stores (result string unit)) :
  m = spec_call range_keys u op done_only ->
  snd (spec_step range_keys (state_of s u) op) = AnsDone ->
  snd (on_server m s) = Ok tt
  /\ sets u (fst (spec_step range_keys (state_of s u) op)) s (fst (on_server m s)).
Proof. intros -> Hd. destruct (call_eq u op done_only s) as [E Hs]. split; [|exact Hs]. by rewrite E, Hd. Qed.

(** What leaves every user's scripts and the moves as they are. *)
Definition kept (s s' : st) : Prop := (forall v, state_of s' v = state_of s v) /\ bs_moved s' = bs_moved s.

Lemma kept_trans s s1 s2 : kept s s1 -> kept s1 s2 -> kept s s2.
Proof. intros [E1 M1] [E2 M2]. split; [intros v; by rewrite E2, E1|congruence]. Qed.
Lemma sets_kept u s s' : sets u (state_of s u) s s' -> kept s s'.
Proof.
  intros (E & F & M). split; [|done]. intros v. destruct (decide (v = u)) as [->|Hne]; [done|by apply F].
Qed.
Lemma sets_then_kept u x s s1 s2 : sets u x s s1 -> kept s1 s2 -> sets u x s s2.
Proof. intros (E & F & M) [K N]. split_and!; [by rewrite K|intros v Hv; by rewrite K, F|congruence]. Qed.

Section Operations.
Context `{GoRuntime}.
Variables (sieve_load : string -> option string) (marshal_map : gmap string string -> string)
  (fingerprint : SieveScript -> string) (broadcaster : option (string -> string -> string -> St stores unit)).
(** Publishing a state does not change scripts. *)
Hypothesis quiet : forall p, broadcaster = Some p -> forall a t n w v, store_of (fst (p a t n w)) v = store_of w v.

Lemma all_scripts_kept u infos s : kept s (fst (all_scripts srv u infos s)).
Proof.
  unfold all_scripts. apply (fold_state_inv _ (fun s' _ => kept s s')); [|by split].
  intros s1 acc i _ Hk. unfold read_script. rewrite St_bind_eq. cbn [fst snd mret St_ret].
  eapply kept_trans; [exact Hk|]. eapply sets_kept, call_get_eq.
Qed.

Lemma all_scripts_eq u infos s :
  snd (all_scripts srv u infos s)
  = map (fun i => mkSieve (SieveScriptIDForName (si_Name i)) (si_Name i)
                    (default EmptyString (st_scripts (state_of s u) !! si_Name i)) (si_Active i) true) infos.
Proof.
  unfold all_scripts. rewrite <- (app_nil_l (map _ infos)). generalize (@nil SieveScript) as acc. revert s.
  induction infos as [|i infos IH]; intros s acc; [by rewrite app_nil_r|]. cbn [fold_state map].
  rewrite St_bind_eq, IH. unfold read_script. rewrite !St_bind_eq. cbn [fst snd mret St_ret].
  destruct (call_get_eq u (si_Name i) s) as [-> Hk%sets_kept]. rewrite (proj1 Hk), <- app_assoc. simpl.
  by destruct (st_scripts (state_of s u) !! si_Name i).
Qed.

Lemma call_list_eq u s :
  snd (on_server (sv_list srv u) s)
  = Ok (map (fun n => mkScript n (String.eqb n (st_active (state_of s u)))) (range_keys (st_scripts (state_of s u))))
  /\ kept s (fst (on_server (sv_list srv u) s)).
Proof. destruct (call_eq u OpList list_of s) as [E Hs%sets_kept]. by split. Qed.

Lemma dial_eq c s : dial srv c s = (s, Ok (fst (userAndPass c))).
Proof. unfold dial. destruct (userAndPass c) as [u p]. by destruct s. Qed.

Lemma GetAll_kept c s : kept s (fst (GetAllSieveScripts srv c s)).
Proof.
  unfold GetAllSieveScripts. rewrite St_bind_eq. cbn [fst mret St_ret]. unfold GetSieveScripts.
  rewrite St_bind_eq, dial_eq. cbn [fst snd]. set (u := fst (userAndPass c)).
  rewrite St_bind_eq. destruct (call_list_eq u s) as [-> Hk]. rewrite St_bind_eq. cbn [fst snd mret St_ret].
  eapply kept_trans; [exact Hk|]. apply all_scripts_kept.
Qed.

Lemma State_kept c s : kept s (fst (SieveScriptState srv marshal_map fingerprint c s)).
Proof.
  unfold SieveScriptState. rewrite St_bind_eq. pose proof (GetAll_kept c s).
  by destruct (snd (GetAllSieveScripts srv c s)).
Qed.

Lemma changed_kept c u id action s : kept s (fst (changed srv marshal_map fingerprint broadcaster c u id action s)).
Proof.
  unfold changed. rewrite !St_bind_eq.
  set (s1 := fst (record_script u id action s)). assert (kept s s1) as H1 by done.
  set (r := SieveScriptState srv marshal_map fingerprint c s1).
  pose proof (State_kept c s1) as H2. fold r in H2.
  eapply kept_trans; [exact H1|]. eapply kept_trans; [exact H2|].
  unfold emitStateChange. destruct broadcaster as [p|] eqn:Ep; [|by split]. destruct (String.eqb u EmptyString); [by split|].
  unfold on_server, on_part. pose proof (quiet p eq_refl (AccountIDForSubject u) "SieveScript" (snd r) (bs_world (fst r))) as Hq.
  destruct (p _ _ _ (bs_world (fst r))) as [w []]. by split.
Qed.

(** *** Renaming *)

Definition renamed (x : script_store) (old new content : string) : script_store :=
  mkScripts (delete old (<[new := content]> (st_scripts x))) (if String.eqb (st_active x) old then new else st_active x).

(** The calls of a rename, up to the record of the move. *)
Lemma rename_calls u old new content s :
  let x := state_of s u in
  is_Some (st_scripts x !! old) -> old <> EmptyString -> new <> EmptyString -> new <> old ->
  let s1 := fst (listed_active srv u old s) in
  let s2 := fst (on_server (sv_put srv u new content) s1) in
  let s3 := fst ((if String.eqb old (st_active x) then on_server (sv_activate srv u new) else mret (Ok tt)) s2) in
  let s4 := fst (on_server (sv_delete srv u old) s3) in
  snd (on_server (sv_put srv u new content) s1) = Ok tt /\ sets u (renamed x old new content) s s4.
Proof.
  intros x [c0 Hold] Ho Hn Hne s1 s2 s3 s4. unfold renamed.
  destruct (listed_active_eq u old s) as [_ H1]. fold s1 in H1.
  destruct (call_done_eq u (OpPut new content) s1 (sv_put srv u new content) eq_refl eq_refl) as [E2 H2]. fold s2 in H2. cbn [spec_step fst] in H2.
  rewrite (proj1 H1) in H2. fold x in H2. split; [exact E2|].
  pose proof (sets_trans _ _ _ _ _ _ H1 H2) as H12. clear H1 H2.
  rewrite (String.eqb_sym (st_active x) old).
  assert (sets u (mkScripts (<[new := content]> (st_scripts x)) (if String.eqb old (st_active x) then new else st_active x)) s s3) as H3.
  { unfold s3. destruct (String.eqb old (st_active x)); [|exact H12].
    destruct (call_done_eq u (OpActivate new) s2 (sv_activate srv u new) eq_refl) as [_ Ha].
    - rewrite (proj1 H12). simpl. rewrite (proj2 (String.eqb_neq _ _) Hn), lookup_insert_eq. done.
    - rewrite (proj1 H12) in Ha. simpl in Ha. rewrite (proj2 (String.eqb_neq _ _) Hn), lookup_insert_eq in Ha. simpl in Ha.
      by eapply sets_trans. }
  unfold s4. assert (forall a, String.eqb (if String.eqb old (st_active x) then new else st_active x) old = a -> a = false) as Hact.
  { intros a <-. destruct (String.eqb_spec old (st_active x)) as [->|Hx]; apply String.eqb_neq; [done|congruence]. }
  specialize (Hact _ eq_refl).
  destruct (call_done_eq u (OpDelete old) s3 (sv_delete srv u old) eq_refl) as [_ Hd].
  - rewrite (proj1 H3). simpl. by rewrite Hact, lookup_insert_ne, Hold by done.
  - rewrite (proj1 H3) in Hd. simpl in Hd. rewrite Hact, lookup_insert_ne, Hold in Hd by done. simpl in Hd.
    by eapply sets_trans.
Qed.

Lemma rename_script_eq u id rid old new content s :
  let x := state_of s u in
  is_Some (st_scripts x !! old) -> old <> EmptyString -> new <> EmptyString -> new <> old ->
  let r := rename_script srv u id rid old new content s in
  snd r = None
  /\ state_of (fst r) u = renamed x old new content
  /\ (forall v, v <> u -> state_of (fst r) v = state_of s v)
  /\ resolveID (fst r) u id = SieveScriptIDForName new /\ resolveID (fst r) u rid = SieveScriptIDForName new.
Proof.
  intros x Hold Ho Hn Hne. unfold rename_script. rewrite St_bind_eq.
  destruct (listed_active_eq u old s) as [-> _]. destruct (rename_calls u old new content s Hold Ho Hn Hne) as [E2 H4].
  fold x in H4 |- *. destruct Hold as [c0 Hold]. rewrite Hold. rewrite St_bind_eq, E2.
  rewrite !St_bind_eq. cbn [snd]. set (s4 := fst (on_server (sv_delete srv u old) _)) in *.
  destruct H4 as (E & F & M). cbv zeta.
  destruct (String.eqb_spec rid id) as [->|Hrid]; cbn [fst snd mret St_ret recordMove modify bs_world];
    (split_and!; [done|exact E|exact F|..]); unfold resolveID; cbn [bs_moved]; rewrite ?lookup_insert_eq; simpl.
  - done.
  - done.
  - by rewrite lookup_insert_ne, lookup_insert_eq by done.
  - done.
Qed.

Lemma activate_none u n patch act (s : st) :
  get_bool patch "isActive" = None -> activate_patch srv u n patch act s = (s, Ok act).
Proof. unfold activate_patch. by intros ->. Qed.

Lemma find_script_eq u rid content s :
  st_scripts (state_of s u) !! NameForSieveScriptID rid = Some content ->
  snd (find_script srv u rid s) = Some (NameForSieveScriptID rid, content) /\ kept s (fst (find_script srv u rid s)).
Proof.
  intros Hc. unfold find_script. rewrite St_bind_eq.
  destruct (call_get_eq u (NameForSieveScriptID rid) s) as [-> Hk%sets_kept]. by rewrite Hc.
Qed.
End Operations.
End Store.

(** ** Properties: renaming *)

(** Renaming a script keeps it.  An update that only gives a new name to a
    script leaves its content, and whether it is active, under the new name;
    the old name is gone, and every other script and every other user's
    scripts are as they were.  The id the client used and the id it stood for
    lead to the renamed script from then on. *)
Theorem sieve_rename_keeps_script `{GoRuntime} range_keys
    (range_visits : forall m, range_keys m ≡ₚ map fst (map_to_list m))
    sieve_load marshal_map fingerprint (broadcaster : option (string -> string -> string -> St stores unit))
    (quiet : forall p, broadcaster = Some p -> forall a t n w v, store_of (fst (p a t n w)) v = store_of w v)
    c s id patch old new content :
  let u := fst (userAndPass c) in
  let x := store_of (bs_world s) u in
  resolveID s u id = SieveScriptIDForName old -> st_scripts x !! old = Some content -> old <> EmptyString ->
  get_str patch "name" = Some new -> new <> EmptyString -> new <> old -> st_scripts x !! new = None ->
  get_str patch "content" = None -> get_bool patch "isActive" = None ->
  st_active x = EmptyString \/ is_Some (st_scripts x !! st_active x) ->
  let r := UpdateSieveScript (spec_server range_keys) sieve_load marshal_map fingerprint broadcaster c id patch s in
  let x' := store_of (bs_world (fst r)) u in
  snd r = Ok (mkSieve (SieveScriptIDForName new) new content (String.eqb (st_active x) old) true)
  /\ st_scripts x' !! new = Some content /\ st_scripts x' !! old = None
  /\ (forall n, n <> old -> n <> new -> st_scripts x' !! n = st_scripts x !! n)
  /\ st_active x' = (if String.eqb (st_active x) old then new else st_active x)
  /\ (forall v, v <> u -> store_of (bs_world (fst r)) v = store_of (bs_world s) v)
  /\ resolveID (fst r) u id = SieveScriptIDForName new
  /\ resolveID (fst r) u (SieveScriptIDForName old) = SieveScriptIDForName new.
Proof.
  intros u x Hid Hc Hold Hn Hne Hno Hnew Hcont Hact Hactive r.
  assert (st_scripts x !! NameForSieveScriptID (SieveScriptIDForName old) = Some content) as Hf by (by rewrite name_of_id).
  destruct (find_script_eq range_keys u _ content s Hf) as [Ef Hk]. rewrite name_of_id in Ef.
  assert (snd r = Ok (mkSieve (SieveScriptIDForName new) new content (String.eqb (st_active x) old) true)
          /\ store_of (bs_world (fst r)) u = renamed x old new content
          /\ (forall v, v <> u -> store_of (bs_world (fst r)) v = store_of (bs_world s) v)
          /\ resolveID (fst r) u id = SieveScriptIDForName new
          /\ resolveID (fst r) u (SieveScriptIDForName old) = SieveScriptIDForName new) as (E & Ex & Fr & R1 & R2).
  2: { rewrite Ex. cbn [renamed st_scripts st_active]. split_and!; try done.
       - by rewrite lookup_delete_ne, lookup_insert_eq.
       - apply lookup_delete_eq.
       - intros n Ho Hn'. by rewrite lookup_delete_ne, lookup_insert_ne. }
  unfold r, UpdateSieveScript. rewrite St_bind_eq, dial_eq. cbn [fst snd]. fold u.
  rewrite St_bind_eq. cbn [gets fst snd]. rewrite Hid, St_bind_eq, Ef. cbn [fst snd].
  set (s1 := fst (find_script _ u _ s)) in *.
  unfold new_name. rewrite Hn, (proj2 (String.eqb_neq _ _) Hne), Hcont. cbn [fst negb].
  rewrite (proj2 (String.eqb_neq _ _) Hno). cbn [negb]. rewrite St_bind_eq.
  assert (state_eq : store_of (bs_world s1) u = x) by apply (proj1 Hk).
  destruct (rename_script_eq range_keys range_visits u id (SieveScriptIDForName old) old new content s1)
    as (E2 & Ex & Fr & R1 & R2); [by rewrite state_eq, Hc|done|done|done|].
  rewrite state_eq in Ex. rewrite E2. set (s2 := fst (rename_script _ u id _ old new content s1)) in *.
  rewrite St_bind_eq. destruct (listed_active_eq range_keys range_visits u new s2) as [Ea Hk2%sets_kept].
  rewrite Ex in Ea. cbn [renamed st_scripts st_active] in Ea. rewrite lookup_delete_ne, lookup_insert_eq in Ea by done.
  rewrite Ea. set (s3 := fst (listed_active _ u new s2)) in *. rewrite St_bind_eq. rewrite activate_none by done.
  cbn [fst snd mret St_ret]. rewrite St_bind_eq. cbn [fst snd mret St_ret].
  pose proof (changed_kept range_keys marshal_map fingerprint broadcaster quiet c u (SieveScriptIDForName new) "update" s3) as Hk3.
  set (s4 := fst (changed (spec_server range_keys) marshal_map fingerprint broadcaster c u (SieveScriptIDForName new) "update" s3)) in *.
  destruct (kept_trans _ _ _ Hk2 Hk3) as [K M].
  split_and!.
  - f_equal. f_equal. destruct (String.eqb_spec (st_active x) old) as [_|Hx]; [by rewrite String.eqb_refl|].
    apply String.eqb_neq. intros En. rewrite <- En in Hactive. destruct Hactive as [Ha|[? Ha]]; congruence.
  - by rewrite K.
  - intros v Hv. rewrite K, Fr by done. apply (proj1 Hk).
  - unfold resolveID in *. by rewrite M.
  - unfold resolveID in *. by rewrite M.
Qed.

Definition demo_order (m : gmap string string) : list string := map fst (map_to_list m).
Definition demo_ctx : Ctx := ContextWithSubject Background "u".
Definition demo_state (x : script_store) : sieve_state stores := mkSieveState {["u" := x]} ∅ ∅.

Lemma sieve_rename_keeps_script_witness :
  let r := UpdateSieveScript (spec_server demo_order) (fun _ => None) (fun _ => EmptyString) (fun _ => EmptyString)
             None demo_ctx (SieveScriptIDForName "a") [("name", JStr "b")]
             (demo_state (mkScripts {["a" := "keep;"; "c" := "stop;"]} "a")) in
  st_scripts (store_of (bs_world (fst r)) "u") !! "b" = Some "keep;"
  /\ resolveID (fst r) "u" (SieveScriptIDForName "a") = SieveScriptIDForName "b".
Proof.
  pose (s0 := demo_state (mkScripts {["a" := "keep;"; "c" := "stop;"]} "a")).
  pose proof (sieve_rename_keeps_script (H := ascii_runtime) demo_order (fun m => reflexivity _) (fun _ => None) (fun _ => EmptyString)
    (fun _ => EmptyString) None (fun p Hp => ltac:(discriminate Hp)) demo_ctx s0 (SieveScriptIDForName "a") [("name", JStr "b")] "a" "b" "keep;") as T.
  cbv zeta in T. change (fst (userAndPass demo_ctx)) with "u" in T.
  destruct T as (_ & Eb & _ & _ & _ & _ & _ & Er).
  1, 2, 4, 7, 8, 9: vm_compute; reflexivity.
  1, 2, 3: discriminate.
  - right. exists "keep;". vm_compute. reflexivity.
  - exact (conj Eb Er).
Defined.

(** ** Lemmas: the changes of renamed scripts *)

Section Renames.
Context (moves old cur : gmap string string).

(** An id of the old vector whose script went to a script there is now. *)
Definition follows (id : string) : bool :=
  match moves !! id with Some t => bool_decide (is_Some (cur !! t)) | None => false end.
Definition went_to (l : list string) (t : string) : Prop := exists id, id ∈ l /\ moves !! id = Some t /\ is_Some (cur !! t).

Hypothesis moves_apart : forall i j t, is_Some (old !! i) -> is_Some (old !! j) ->
  moves !! i = Some t -> moves !! j = Some t -> i = j.

(** What the loop has taken out of the two vectors after the ids [l]. *)
Definition followed_upto (l : list string) (a : rename_acc) : Prop :=
  ra_updated a = List.filter follows l
  /\ (forall k, ra_old a !! k = if decide (k ∈ l /\ follows k = true) then None else old !! k)
  /\ (forall t, went_to l t -> ra_cur a !! t = None)
  /\ (forall t, ~ went_to l t -> ra_cur a !! t = cur !! t).

Lemma rename_step_followed l id a :
  NoDup (l ++ [id]) -> (forall k, k ∈ l ++ [id] -> is_Some (old !! k)) ->
  followed_upto l a -> followed_upto (l ++ [id]) (rename_step moves a id).
Proof.
  intros Hnd Hin (Eu & Eo & Ec & Ek). apply NoDup_app in Hnd as (_ & Hl & _).
  assert (forall t, went_to (l ++ [id]) t <-> went_to l t \/ (moves !! id = Some t /\ is_Some (cur !! t))) as Hw.
  { intros t. unfold went_to. setoid_rewrite elem_of_app. setoid_rewrite list_elem_of_singleton.
    split; [intros (k & [Hk| ->] & H); eauto|intros [(k & Hk & H)|H]; eauto 6]. }
  assert (forall k, k ∈ l ++ [id] /\ follows k = true <-> (k ∈ l /\ follows k = true) \/ (k = id /\ follows id = true)) as Hf.
  { intros k. rewrite elem_of_app, list_elem_of_singleton. naive_solver. }
  assert (follows id = false -> followed_upto (l ++ [id]) a) as Hskip.
  { intros Hno. unfold followed_upto. setoid_rewrite Hw. rewrite List.filter_app. simpl. rewrite Hno, app_nil_r. split_and!; [done|..].
    - intros k. rewrite Eo. apply decide_ext. rewrite Hf, Hno. naive_solver.
    - intros t [Ht|[Hm Hc]]; [by apply Ec|]. unfold follows in Hno. rewrite Hm in Hno. by apply bool_decide_eq_false in Hno.
    - intros t Ht. apply Ek. tauto. }
  assert (follows id = match moves !! id with Some t => bool_decide (is_Some (cur !! t)) | None => false end) as Efid by done.
  unfold rename_step. destruct (moves !! id) as [t|] eqn:Em; [|by apply Hskip].
  assert (~ went_to l t) as Hnt.
  { intros (k & Hk & Hkm & _). assert (k = id) as -> by (eapply moves_apart; [apply Hin; set_solver..| |]; eauto).
    apply (Hl id Hk). set_solver. }
  rewrite (Ek t Hnt). destruct (cur !! t) as [v|] eqn:Ev;
    [|apply Hskip; rewrite Efid; apply bool_decide_eq_false; by intros [??]].
  rewrite bool_decide_eq_true_2 in Efid by eauto.
  unfold followed_upto. setoid_rewrite Hw. cbn [ra_updated ra_old ra_cur]. rewrite List.filter_app. simpl. rewrite Efid, Eu. split_and!; [done|..].
  - intros k. destruct (decide (k = id)) as [->|Hk].
    + rewrite lookup_delete_eq, decide_True; [done|]. rewrite Hf. by right.
    + rewrite lookup_delete_ne, Eo by done. apply decide_ext. rewrite Hf. naive_solver.
  - intros t' [Ht'|[[= <-] _]]; [|apply lookup_delete_eq]. destruct (decide (t' = t)) as [->|Hne]; [done|].
    rewrite lookup_delete_ne by done. by apply Ec.
  - intros t' Ht'. assert (t' <> t) by (intros ->; apply Ht'; right; by rewrite Ev).
    rewrite lookup_delete_ne by done. apply Ek. tauto.
Qed.

Lemma rename_loop_followed l :
  NoDup l -> (forall k, k ∈ l -> is_Some (old !! k)) -> followed_upto l (foldl (rename_step moves) (mkRename [] old cur) l).
Proof.
  induction l as [|id l IH] using rev_ind; intros Hnd Hin.
  - unfold followed_upto. simpl. split_and!; [done|..].
    + done.
    + intros t (k & Hk%not_elem_of_nil & _). done.
    + done.
  - rewrite foldl_app. simpl. apply rename_step_followed; [done|done|]. apply IH.
    + by apply NoDup_app in Hnd as (? & _ & _).
    + intros k Hk. apply Hin. set_solver.
Qed.
End Renames.

(** ** Properties: changes *)

(** Every script is accounted for once in SieveScript/changes, with a
    rename read as an update.  When no two scripts of the old state went to
    the same script and none took the name another had then, an id of the old
    state is reported updated if its script was renamed and is still there,
    or if it kept its name and changed; destroyed if it was not renamed and is
    gone; and an id is reported created if it is new, or taken again after its
    script was renamed away, unless a renamed script brought it. *)
Theorem sieve_changes_follow_renames range_ids moves old cur :
  range_ids old ≡ₚ map fst (map_to_list old) ->
  (forall i j t, is_Some (old !! i) -> is_Some (old !! j) -> moves !! i = Some t -> moves !! j = Some t -> i = j) ->
  (forall i t, is_Some (old !! i) -> moves !! i = Some t -> old !! t = None) ->
  let renamed id := exists t, moves !! id = Some t /\ is_Some (old !! id) /\ is_Some (cur !! t) in
  let '(created, updated, destroyed) := script_changes range_ids moves old cur in
  (forall id, id ∈ destroyed <-> is_Some (old !! id) /\ ~ renamed id /\ cur !! id = None)
  /\ (forall id, id ∈ updated <->
        renamed id \/ (~ renamed id /\ exists f g, old !! id = Some f /\ cur !! id = Some g /\ f <> g))
  /\ (forall id, id ∈ created <-> is_Some (cur !! id) /\ (old !! id = None \/ renamed id)
        /\ ~ exists i, moves !! i = Some id /\ renamed i).
Proof.
  intros Hr Hinj Hfresh renamed. unfold script_changes.
  assert (forall k, k ∈ range_ids old <-> is_Some (old !! k)) as Hin.
  { intros k. rewrite Hr, list_elem_of_fmap. split.
    - intros ([k' c] & -> & Hc%elem_of_map_to_list). by exists c.
    - intros [c Hc]. exists (k, c). by rewrite elem_of_map_to_list. }
  destruct (rename_loop_followed moves old cur Hinj (range_ids old)) as (Eu & Eo & Ec & Ek).
  { rewrite Hr. apply NoDup_fst_map_to_list. }
  { intros k. apply Hin. }
  set (a := foldl _ _ _) in *.
  assert (forall k, (k ∈ range_ids old /\ follows moves cur k = true) <-> renamed k) as Hf.
  { intros k. unfold follows, renamed. rewrite Hin. destruct (moves !! k) as [t|]; [|naive_solver].
    rewrite bool_decide_eq_true. naive_solver. }
  assert (forall t, went_to moves cur (range_ids old) t <-> exists i, moves !! i = Some t /\ renamed i) as Hw.
  { intros t. unfold went_to, renamed. setoid_rewrite Hin. naive_solver. }
  assert (forall k, ra_old a !! k = None <-> old !! k = None \/ renamed k) as Eo1.
  { intros k. rewrite Eo. case_decide as Hd; rewrite Hf in Hd; naive_solver. }
  assert (forall k f, ra_old a !! k = Some f <-> old !! k = Some f /\ ~ renamed k) as Eo2.
  { intros k f. rewrite Eo. case_decide as Hd; rewrite Hf in Hd; naive_solver. }
  assert (forall k, is_Some (ra_cur a !! k) <-> is_Some (cur !! k) /\ ~ exists i, moves !! i = Some k /\ renamed i) as Ec1.
  { intros k. rewrite <- Hw. split.
    - intros Hk. assert (~ went_to moves cur (range_ids old) k) as Hn by (intros Hn; rewrite (Ec k Hn) in Hk; by destruct Hk).
      by rewrite Ek in Hk.
    - intros [Hk Hn]. by rewrite Ek. }
  assert (forall k, is_Some (old !! k) -> ra_cur a !! k = cur !! k) as Ec2.
  { intros k Hk. apply Ek. rewrite Hw. intros (i & Hm & t & _ & Hi & _).
    rewrite (Hfresh i k) in Hk by done. by destruct Hk. }
  pose proof (DiffStateVectors_spec (ra_old a) (ra_cur a)) as Hd.
  destruct (DiffStateVectors (ra_old a) (ra_cur a)) as [[created updated] destroyed].
  destruct Hd as (Hc & Hu & Hdel & _). split_and!; intros id.
  - rewrite Hdel. split.
    + intros [[f Hs] Hk]. apply Eo2 in Hs as [Ho Hn]. rewrite Ec2 in Hk by eauto. eauto 10.
    + intros ([f Ho] & Hn & Hk). rewrite Ec2 by eauto. split; [|done]. exists f. by apply Eo2.
  - unfold sort_ids. rewrite merge_sort_Permutation, elem_of_app, Eu, list_elem_of_In, filter_In, <- list_elem_of_In, Hf, Hu.
    setoid_rewrite Eo2. split; (intros [H|H]; [by left|right]).
    + destruct H as (f & g & [Ho Hn] & Hk & Hfg). rewrite Ec2 in Hk by eauto. eauto 10.
    + destruct H as (Hn & f & g & Ho & Hk & Hfg). exists f, g. rewrite Ec2 by eauto. eauto 10.
  - rewrite Hc, Ec1, Eo1. tauto.
Qed.

Lemma sieve_changes_follow_renames_witness :
  let '(created, updated, destroyed) :=
    script_changes demo_order {["s-a" := "s-b"]} {["s-a" := "1"; "s-c" := "1"]} {["s-b" := "1"; "s-c" := "2"]} in
  (forall id, id ∈ destroyed <-> is_Some (({["s-a" := "1"; "s-c" := "1"]} : gmap string string) !! id)
     /\ ~ (exists t, ({["s-a" := "s-b"]} : gmap string string) !! id = Some t
           /\ is_Some (({["s-a" := "1"; "s-c" := "1"]} : gmap string string) !! id)
           /\ is_Some (({["s-b" := "1"; "s-c" := "2"]} : gmap string string) !! t))
     /\ ({["s-b" := "1"; "s-c" := "2"]} : gmap string string) !! id = None)
  /\ updated = ["s-a"; "s-c"] /\ created = [].
Proof.
  pose proof (sieve_changes_follow_renames demo_order {["s-a" := "s-b"]} {["s-a" := "1"; "s-c" := "1"]} {["s-b" := "1"; "s-c" := "2"]}) as T.
  cbv zeta in T.
  assert (snd (fst (script_changes demo_order {["s-a" := "s-b"]} {["s-a" := "1"; "s-c" := "1"]} {["s-b" := "1"; "s-c" := "2"]})) = ["s-a"; "s-c"]
    /\ fst (fst (script_changes demo_order {["s-a" := "s-b"]} {["s-a" := "1"; "s-c" := "1"]} {["s-b" := "1"; "s-c" := "2"]})) = []) as [Eu Ec]
    by (vm_compute; split; reflexivity).
  destruct (script_changes _ _ _ _) as [[created updated] destroyed]. simpl in Eu, Ec.
  destruct T as (Hd & _ & _).
  - reflexivity.
  - intros i j t _ _ [<- _]%lookup_singleton_Some [<- _]%lookup_singleton_Some. reflexivity.
  - intros i t _ [_ <-]%lookup_singleton_Some. vm_compute. reflexivity.
  - exact (conj Hd (conj Eu Ec)).
Defined.

(** A deleted script can be another one than the client named.  Rename
    script a to b, create a new script a: it gets the id the first one had,
    which the backend still takes for b, so that destroying the new script
    succeeds, removes b and leaves the new one. *)
Theorem reused_script_id_destroys_other :
  let srv := spec_server demo_order in
  let fp := fun _ => EmptyString in
  let enc := fun _ => EmptyString in
  let id := SieveScriptIDForName "a" in
  let s1 := fst (UpdateSieveScript srv (fun _ => None) enc fp None demo_ctx id [("name", JStr "b")]
                   (demo_state (mkScripts {["a" := "keep;"]} EmptyString))) in
  let '(s2, created) := CreateSieveScript srv (fun _ => None) enc fp None demo_ctx (mkSieve EmptyString "a" "stop;" false false) s1 in
  let '(s3, destroyed) := DeleteSieveScript srv enc fp None demo_ctx id s2 in
  created = Ok (mkSieve id "a" "stop;" false true) /\ destroyed = Ok true
  /\ store_of (bs_world s3) "u" = mkScripts {["a" := "stop;"]} EmptyString.
Proof. vm_compute. split_and!; reflexivity. Qed.

(** ** The two servers *)

(** A call of the interface, with its error text forgotten; the backend never
    asks for a check. *)
Definition sieve_call {W} (srv : SieveServer W) (user : string) (op : sieve_op) : St W sieve_answer :=
  match op with
  | OpList => r ← sv_list srv user; mret (answer_of AnsScripts r)
  | OpGet n => r ← sv_get srv user n; mret (answer_of AnsContent r)
  | OpPut n c => r ← sv_put srv user n c; mret (answer_of (fun _ => AnsDone) r)
  | OpActivate n => r ← sv_activate srv user n; mret (answer_of (fun _ => AnsDone) r)
  | OpDelete n => r ← sv_delete srv user n; mret (answer_of (fun _ => AnsDone) r)
  | OpCheck _ => mret AnsDone
  end.
Definition same_scripts (s : EmbeddedServer) (w : stores) : Prop := forall u, view s u = store_of w u.
Definition is_check (op : sieve_op) : bool := match op with OpCheck _ => true | _ => false end.

Lemma on_wire_bind {A B} u (m : St session A) (f : A -> B) s :
  (on_wire u m ≫= fun x => mret (f x)) s = on_wire u (m ≫= fun x => mret (f x)) s.
Proof.
  rewrite St_bind_eq. unfold on_wire. rewrite St_bind_eq. by destruct (m (idle s u)).
Qed.

Lemma embedded_call_eq `{GoRuntime} range_keys u op s :
  is_check op = false ->
  sieve_call (embedded_server range_keys) u op s = on_wire u (client_step range_keys op) s.
Proof.
  destruct op; intros Hc; try discriminate Hc;
    cbn [sieve_call embedded_server sv_list sv_get sv_put sv_activate sv_delete client_step]; apply on_wire_bind.
Qed.

Lemma spec_call_eq range_keys u op w :
  is_check op = false ->
  sieve_call (spec_server range_keys) u op w
  = (<[u := fst (spec_step range_keys (store_of w u) op)]> w, snd (spec_step range_keys (store_of w u) op)).
Proof.
  destruct op as [|n|n c|n|n|c]; intros Hc; try discriminate Hc;
    cbn [sieve_call spec_server sv_list sv_get sv_put sv_activate sv_delete]; rewrite St_bind_eq; unfold spec_call;
    cbn [spec_step]; repeat (case_match; simplify_eq/=); done.
Qed.

(** The backend may be read over the scripts alone.  Signing in to the
    embedded server succeeds for a user whose name fits on a line, and every
    call the backend makes there, on names the server can list, answers as the
    call on the map of that user's scripts does and leaves the two in step. *)
Theorem embedded_server_refines_scripts `{GoRuntime} range_keys
    (range_visits : forall m, range_keys m ≡ₚ map fst (map_to_list m)) s w user pass op :
  user <> EmptyString -> no_nul user = true -> no_lf user = true ->
  same_scripts s w -> store_ok (store_of w user) -> op_ok op -> is_check op = false ->
  sv_dial (embedded_server range_keys) user pass s = (s, None)
  /\ snd (sieve_call (embedded_server range_keys) user op s) = snd (sieve_call (spec_server range_keys) user op w)
  /\ same_scripts (fst (sieve_call (embedded_server range_keys) user op s)) (fst (sieve_call (spec_server range_keys) user op w)).
Proof.
  intros Hu Hn Hl Hs Hok Hop Hc. destruct (sign_in range_keys s user pass Hu Hn Hl) as [Hd Ha].
  split; [cbn [embedded_server sv_dial]; by rewrite Hd, Ha|].
  rewrite <- (Hs user) in Hok. rewrite embedded_call_eq, spec_call_eq by done. unfold on_wire.
  destruct (client_step_ok range_keys range_visits s user op Hu Hok Hop) as (s' & E & Hv & Hf).
  rewrite E, <- Hs. split; [done|]. intros v. cbn [fst]. unfold store_of. destruct (decide (v = user)) as [->|Hne].
  - by rewrite lookup_insert_eq.
  - rewrite lookup_insert_ne by done. rewrite Hf by done. apply Hs.
Qed.

Lemma embedded_server_refines_scripts_witness :
  snd (sieve_call (embedded_server (H := ascii_runtime) demo_order) "u" (OpPut "a b" "keep;") NewEmbeddedServer)
  = snd (sieve_call (spec_server demo_order) "u" (OpPut "a b" "keep;") {["u" := mkScripts ∅ EmptyString]}).
Proof.
  destruct (embedded_server_refines_scripts (H := ascii_runtime) demo_order (fun m => reflexivity _) NewEmbeddedServer
    {["u" := mkScripts ∅ EmptyString]} "u" "pw" (OpPut "a b" "keep;")) as (_ & E & _).
  - discriminate.
  - reflexivity.
  - reflexivity.
  - intros u. unfold store_of. destruct (decide (u = "u")) as [->|Hne].
    + rewrite lookup_singleton_eq. reflexivity.
    + rewrite lookup_singleton_ne by congruence. reflexivity.
  - intros n c Hc. unfold store_of in Hc. rewrite lookup_singleton_eq in Hc. discriminate Hc.
  - split; vm_compute; reflexivity.
  - reflexivity.
  - exact E.
Defined.
