(* ===== verification/SieveMethods.v ===== *)
(** * The SieveScript methods

    [jmap/jmapsieve/sieve_handlers.go]: SieveScript/get, changes, set, query,
    queryChanges and validate over a sieve backend, which may be missing.  A
    query returns [None] where the slice expression of the source panics. *)

From S2P Require Import Prelude GoSort GoStrings GoRunes GoState Base64 Json Envelope CreationRefs Query Handler Server MailTypes MethodSupport ImapStores Identities ManageSieve SieveScripts.
From Stdlib Require Import Ascii SpecFloat.

(** ** The backend *)

Record SieveBackend (W : Type) : Type := mkSieveBackend {
  so_State : Ctx -> St W string;
  so_Changes : Ctx -> string -> St W (list string * list string * list string * string * bool);
  so_Get : Ctx -> list string -> St W (result go_error (list SieveScript * list string));
  so_GetAll : Ctx -> St W (result go_error (list SieveScript));
  so_Create : Ctx -> SieveScript -> St W (result go_error SieveScript);
  so_Update : Ctx -> string -> obj -> St W (result go_error SieveScript);
  so_Delete : Ctx -> string -> St W (result go_error bool);
  so_Query : Ctx -> obj -> Z -> option Z -> St W (option (result go_error (list string * Z)));
  so_Validate : string -> bool * string;
}.
Arguments mkSieveBackend {W}.
Arguments so_State {W}. Arguments so_Changes {W}. Arguments so_Get {W}. Arguments so_GetAll {W}.
Arguments so_Create {W}. Arguments so_Update {W}. Arguments so_Delete {W}. Arguments so_Query {W}.
Arguments so_Validate {W}.

(** The backend of [SieveScripts] as the methods see it. *)
Definition managesieve_backend `{GoRuntime} {W} (srv : SieveServer W) (load : string -> option string)
    (mm : gmap string string -> string) (um : string -> option (gmap string string)) (fp : SieveScript -> string)
    (bc : option (string -> string -> string -> St W unit)) (range_ids : gmap string string -> list string)
  : SieveBackend (sieve_state W) :=
  mkSieveBackend (SieveScriptState srv mm fp) (SieveScriptChanges srv mm um fp range_ids)
    (GetSieveScripts srv) (GetAllSieveScripts srv) (CreateSieveScript srv load mm fp bc)
    (UpdateSieveScript srv load mm fp bc) (DeleteSieveScript srv mm fp bc) (QuerySieveScripts srv)
    (ValidateSieveScript load).

(** ** Names *)

Definition forbidden_rune (r : Z) : bool :=
  (r <=? 31) || ((127 <=? r) && (r <=? 159)) || (r =? 8232) || (r =? 8233).
Definition validateSieveScriptName (name : string) : option SetError :=
  if String.eqb name EmptyString then None
  else if existsb forbidden_rune (runes name)
  then Some (mkSetError "invalidProperties" "name contains a forbidden character" ["name"] [] EmptyString None None [])
  else None.

(** ** Sorting *)

Definition sieveScriptSortableProperties : list string := ["name"; "isActive"].
(** The comparison of two scripts by one comparator: less and greater. *)
Definition script_order (c : Comparator) (a b : SieveScript) : bool * bool :=
  if String.eqb (c_Property c) "name"
  then (String.ltb (sv_Name a) (sv_Name b), String.ltb (sv_Name b) (sv_Name a))
  else if String.eqb (c_Property c) "isActive"
  then (negb (sv_IsActive a) && sv_IsActive b, sv_IsActive a && negb (sv_IsActive b))
  else (false, false).
Fixpoint script_less (comparators : list Comparator) (a b : SieveScript) : bool :=
  match comparators with
  | [] => false
  | c :: rest =>
      let '(less, greater) := script_order c a b in
      if negb less && negb greater then script_less rest a b
      else if c_IsAscending c then less else greater
  end.
Definition sortSieveScripts (scripts : list SieveScript) (comparators : list Comparator) : list SieveScript :=
  match comparators with
  | [] => scripts
  | _ => stable_sort (script_less comparators) scripts
  end.

(** ** JSON *)

Definition sieve_json (s : SieveScript) : json :=
  JObj [("id", JStr (sv_ID s)); ("name", JStr (sv_Name s)); ("content", JStr (sv_Content s));
        ("isActive", JBool (sv_IsActive s)); ("isValid", JBool (sv_IsValid s))].

Section Decode.
Context `{GoRuntime}.
Definition set_bool (k name : string) (v : json) (old : bool) : bool :=
  if EqualFold k name then match v with JBool b => b | _ => old end else old.
Definition set_script_member (s : SieveScript) (kv : string * json) : SieveScript :=
  let '(k, v) := kv in
  mkSieve (set_string k "id" v (sv_ID s)) (set_string k "name" v (sv_Name s)) (set_string k "content" v (sv_Content s))
    (set_bool k "isActive" v (sv_IsActive s)) (set_bool k "isValid" v (sv_IsValid s)).
Definition empty_script : SieveScript := mkSieve EmptyString EmptyString EmptyString false false.
(** [json.Marshal] sorts the members; a value that is no object leaves the
    script empty. *)
Definition decode_script (j : json) : SieveScript :=
  match j with
  | JObj m => foldl set_script_member empty_script (stable_sort (fun a b => String.ltb (fst a) (fst b)) m)
  | _ => empty_script
  end.
End Decode.

(** ** The methods *)

Section Methods.
Context `{GoRuntime} {W : Type}.
Variable backend : option (SieveBackend W).
Variable order : MapOrder.

(** [if backend != nil { x = ... }] *)
Definition asking {A} (d : A) (f : SieveBackend W -> St W A) : St (HState W) A :=
  match backend with Some b => back (f b) | None => mret d end.

Definition handleSieveScriptGet : BackendHandler W := fun c args =>
  let accountID := str_or_empty args "accountId" in
  state ← asking "0" (fun b => so_State b c);
  r ← asking (Ok ([], [])) (fun b =>
        match get_arr args "ids" with
        | Some raw => so_Get b c (strings_of raw)
        | None => l ← so_GetAll b c; mret (match l with Ok l => Ok (l, []) | Err e => Err e end)
        end);
  let '(found, notFound) := match r with Ok p => p | Err _ => ([], []) end in
  mret ("SieveScript/get",
        [("accountId", JStr accountID); ("state", JStr state);
         ("list", JArr (FilterList (map sieve_json found) (ParseProperties args))); ("notFound", jstrs notFound)]).

Definition handleSieveScriptChanges : BackendHandler W := fun c args =>
  let accountID := str_or_empty args "accountId" in
  let sinceState := str_or_empty args "sinceState" in
  r ← asking ([], [], [], "0", false) (fun b => so_Changes b c sinceState);
  let '(created, updated, destroyed, newState, hasMore) := r in
  mret ("SieveScript/changes", changes_response accountID sinceState newState hasMore created updated destroyed).

(** *** SieveScript/set *)

Abbreviation names := (gmap string string).

(** [existingNames]: the id that has a name; the last script counts. *)
Definition existing_names (all : list SieveScript) : names :=
  foldl (fun m s => if String.eqb (sv_Name s) EmptyString then m else <[sv_Name s := sv_ID s]> m) ∅ all.
Definition already_exists (id : string) : SetError :=
  mkSetError "alreadyExists" "a SieveScript with this name already exists" [] [] id None None [].

Record create_acc : Type := mkCreated { ca_names : names; ca_refs : refmap; ca_created : obj; ca_notCreated : obj }.

Definition create_script (b : SieveBackend W) (c : Ctx) (acc : create_acc) (kv : string * json) : St (HState W) create_acc :=
  let '(creationID, raw) := kv in
  let script := decode_script raw in
  let failed e := mkCreated (ca_names acc) (ca_refs acc) (ca_created acc)
                    (obj_set (ca_notCreated acc) creationID (SetError_json e)) in
  match validateSieveScriptName (sv_Name script) with
  | Some e => mret (failed e)
  | None =>
      match (if String.eqb (sv_Name script) EmptyString then None else ca_names acc !! sv_Name script) with
      | Some existingID => mret (failed (already_exists existingID))
      | None =>
          r ← back (so_Create b c script);
          match r with
          | Err e => mret (failed (set_error "invalidScript" (err_Error e)))
          | Ok s =>
              refs ← record_ref (ca_refs acc) creationID (sv_ID s);
              mret (mkCreated
                (if String.eqb (sv_Name s) EmptyString then ca_names acc else <[sv_Name s := sv_ID s]> (ca_names acc))
                refs (obj_set (ca_created acc) creationID (sieve_json s)) (ca_notCreated acc))
          end
      end
  end.

(** What the name of a patch leads to: an error, or the names afterwards. *)
Definition check_new_name (m : names) (resolvedID : string) (patch : obj) : result SetError names :=
  match obj_get patch "name" with
  | None => Ok m
  | Some raw =>
      let name := match raw with JStr n => n | _ => EmptyString end in
      match validateSieveScriptName name with
      | Some e => Err e
      | None =>
          if String.eqb name EmptyString then Ok m
          else match m !! name with
               | Some existingID => if String.eqb existingID resolvedID then Ok (<[name := resolvedID]> m)
                                    else Err (already_exists existingID)
               | None => Ok (<[name := resolvedID]> m)
               end
      end
  end.
Definition update_script_error (e : go_error) : SetError :=
  match e with
  | GNotFound msg => set_error "notFound" msg
  | _ => set_error "invalidScript" (err_Error e)
  end.
Definition update_script (b : SieveBackend W) (c : Ctx) (refs : refmap) (acc : names * set_acc) (kv : string * json)
  : St (HState W) (names * set_acc) :=
  let '(m, a) := acc in
  let patch := match snd kv with JObj p => p | _ => [] end in
  let resolvedID := ResolveCreationID (fst kv) refs in
  match check_new_name m resolvedID patch with
  | Err e => mret (m, acc_failed a resolvedID e)
  | Ok m =>
      r ← back (so_Update b c resolvedID (ResolvePatchCreationRefs patch refs));
      mret (m, match r with
               | Err e => acc_failed a resolvedID (update_script_error e)
               | Ok _ => acc_done a resolvedID JNull
               end)
  end.

(** [onSuccessActivateScript] and [onSuccessDeactivateScript]. *)
Definition set_activity (b : SieveBackend W) (c : Ctx) (refs : refmap) (args : obj) (k : string) (active : bool)
  : St (HState W) unit :=
  let actID := str_or_empty args k in
  if String.eqb actID EmptyString then mret tt
  else back (so_Update b c (ResolveCreationID actID refs) [("isActive", JBool active)]) ≫= fun _ => mret tt.

Definition destroy_script (b : SieveBackend W) (c : Ctx) (refs : refmap) (acc : destroy_acc) (idStr : string)
  : St (HState W) destroy_acc :=
  let resolvedID := ResolveCreationID idStr refs in
  r ← back (so_Delete b c resolvedID);
  mret (match r with
        | Ok true => destroy_done acc resolvedID
        | _ => destroy_failed acc resolvedID (set_error "notFound" "sieve script not found")
        end).

Definition script_set_response (accountID oldState newState : string) (created notCreated : obj) (u : set_acc)
    (d : destroy_acc) : obj :=
  [("accountId", JStr accountID); ("oldState", JStr oldState); ("newState", JStr newState);
   ("created", NilIfEmpty (JObj created)); ("updated", NilIfEmpty (JObj (sa_done u)));
   ("destroyed", NilIfEmpty (jstrs (da_destroyed d))); ("notCreated", NilIfEmpty (JObj notCreated));
   ("notUpdated", NilIfEmpty (JObj (sa_failed u))); ("notDestroyed", NilIfEmpty (JObj (da_failed d)))].

Definition handleSieveScriptSet : BackendHandler W := fun c args =>
  let accountID := str_or_empty args "accountId" in
  oldState ← asking "0" (fun b => so_State b c);
  if state_mismatch args "ifInState" oldState
  then mret ("error", MethodErrorArgs "stateMismatch" "state mismatch")
  else
    refs ← new_refs;
    match backend with
    | None =>
        mret ("SieveScript/set", script_set_response accountID oldState "0" [] [] (mkAcc [] []) (mkDestroy [] []))
    | Some b =>
        all ← back (so_GetAll b c);
        let m := match all with Ok l => existing_names l | Err _ => ∅ end in
        a ← range_obj order (get_obj args "create") (create_script b c) (mkCreated m refs [] []);
        u ← range_obj order (get_obj args "update") (update_script b c (ca_refs a)) (ca_names a, mkAcc [] []);
        set_activity b c (ca_refs a) args "onSuccessActivateScript" true ≫= fun _ =>
        set_activity b c (ca_refs a) args "onSuccessDeactivateScript" false ≫= fun _ =>
        d ← range_strings (get_arr args "destroy") (destroy_script b c (ca_refs a)) (mkDestroy [] []);
        newState ← back (so_State b c);
        mret ("SieveScript/set",
              script_set_response accountID oldState newState (ca_created a) (ca_notCreated a) (snd u) d)
    end.

(** *** Queries *)

(** [allIDs = allIDs[:0]] and the appends: the array under the slice keeps
    what was not written over. *)
Definition write_over (old new : list string) : list string := new ++ drop (length new) old.

(** The outcome of a query before the response: the anchor is missing, or the
    position, the ids ([None] is the nil slice) and the total. *)
Inductive script_query : Type :=
| QMissing
| QPage (position : Z) (ids : option (list string)) (total : Z).

(** The sorted page without an anchor; [None] when the bounds of
    [allIDs[position:end]] are out of order. *)
Definition sorted_page (array : list string) (position total : Z) (limit : option Z) : option script_query :=
  let position := NormalizePosition position total in
  let end_ := match limit with
              | Some l => if i64 (position + i64 l) <? total then i64 (position + i64 l) else total
              | None => total
              end in
  if end_ <? position then None
  else let page := slice position end_ array in
       Some (QPage position (match page with [] => None | _ => Some page end) total).

Definition anchored (anchor : string) (offset : Z) (ids : list string) (limit : option Z) (total : Z) : script_query :=
  match ApplyQueryAnchor anchor offset ids limit with
  | Some (position, page) => QPage position (Some page) total
  | None => QMissing
  end.

Definition run_script_query (b : SieveBackend W) (c : Ctx) (filter : obj) (position : Z) (anchor : string) (offset : Z)
    (limit : option Z) (comparators : list Comparator) : St W (option script_query) :=
  match comparators with
  | [] =>
      if String.eqb anchor EmptyString
      then r ← so_Query b c filter position limit;
           mret (match r with
                 | None => None
                 | Some (Err _) => Some (QPage position None 0)
                 | Some (Ok (ids, total)) => Some (QPage position (Some ids) total)
                 end)
      else r ← so_Query b c filter 0 None;
           mret (match r with
                 | None => None
                 | Some (Err _) => Some (QPage position None 0)
                 | Some (Ok (all, total)) => Some (anchored anchor offset all limit total)
                 end)
  | _ =>
      r ← so_Query b c filter 0 None;
      match r with
      | None => mret None
      | Some (Err _) => mret (Some (QPage position None 0))
      | Some (Ok (all, total)) =>
          g ← so_Get b c all;
          let scripts := match g with Ok (l, _) => l | Err _ => [] end in
          let ids := map sv_ID (sortSieveScripts scripts comparators) in
          mret (if String.eqb anchor EmptyString then sorted_page (write_over all ids) position total limit
                else Some (anchored anchor offset ids limit total))
      end
  end.

Definition handleSieveScriptQuery (c : Ctx) (args : obj) : St (HState W) (option (string * obj)) :=
  let accountID := str_or_empty args "accountId" in
  let filter := default [] (get_obj args "filter") in
  let '(position, posErr) := ParseQueryPosition args in
  let '((anchor, offset), anchorErr) := ParseQueryAnchor args in
  let comparators := ParseComparators args in
  let '(errType, errMsg) := ValidateComparators comparators sieveScriptSortableProperties in
  if negb (String.eqb posErr EmptyString) then mret (Some ("error", MethodErrorArgs MethodErrorInvalidArguments posErr))
  else if negb (String.eqb anchorErr EmptyString) then mret (Some ("error", MethodErrorArgs MethodErrorInvalidArguments anchorErr))
  else if negb (String.eqb errType EmptyString) then mret (Some ("error", MethodErrorArgs errType errMsg))
  else
    let respond position ids total state :=
      let '(ids, total) := match ids with Some ids => (ids, total) | None => ([], 0) end in
      ("SieveScript/query",
       [("accountId", JStr accountID); ("queryState", JStr state); ("canCalculateChanges", JBool true);
        ("position", jint position); ("total", jint total); ("ids", jstrs ids)]) in
    match backend with
    | None => mret (Some (respond position None 0 "0"))
    | Some b =>
        q ← back (run_script_query b c filter position anchor offset (f64_to_uint64 <$> get_num args "limit") comparators);
        match q with
        | None => mret None
        | Some QMissing =>
            mret (Some ("error", MethodErrorArgs MethodErrorAnchorNotFound ("anchor not found in results: " +:+ anchor)))
        | Some (QPage position ids total) => state ← back (so_State b c); mret (Some (respond position ids total state))
        end
    end.

Definition handleSieveScriptQueryChanges (c : Ctx) (args : obj) : St (HState W) (option (string * obj)) :=
  let accountID := str_or_empty args "accountId" in
  let upToID := str_or_empty args "upToId" in
  let sinceState := str_or_empty args "sinceQueryState" in
  let filter := default [] (get_obj args "filter") in
  r ← asking ([], [], [], "0", false) (fun b => so_Changes b c sinceState);
  let '(created, updated, destroyed, newQueryState, hasMore) := r in
  if hasMore : bool then mret (Some ("error", MethodErrorArgs "cannotCalculateChanges" "sinceQueryState is too old"))
  else
    q ← asking (Some (Ok ([], 0))) (fun b => so_Query b c filter 0 None);
    mret (match q with
          | None => None
          | Some q =>
              let currentIDs := match q with Ok (ids, _) => ids | Err _ => [] end in
              let '(added, removed) := ComputeQueryChanges created updated destroyed currentIDs upToID in
              Some ("SieveScript/queryChanges",
                [("accountId", JStr accountID); ("oldQueryState", JStr sinceState); ("newQueryState", JStr newQueryState);
                 ("added", added_json added); ("removed", jstrs removed)]
                ++ (if String.eqb upToID EmptyString then [] else [("upToId", JStr upToID)])
                ++ (if bool_or_false args "calculateTotal" then [("total", jint (Z.of_nat (length currentIDs)))] else []))
          end).

Definition handleSieveScriptValidate : BackendHandler W := fun c args =>
  let accountID := str_or_empty args "accountId" in
  let content := str_or_empty args "content" in
  let '(isValid, errDetail) := match backend with Some b => so_Validate b content | None => (true, EmptyString) end in
  mret ("SieveScript/validate",
        [("accountId", JStr accountID); ("isValid", JBool isValid)]
        ++ (if isValid then [] else [("error", SetError_json (set_error "invalidScript" errDetail))])).
End Methods.

(** ** Lemmas: creating over the scripts *)

Section Creating.
Context `{GoRuntime} (range_keys : gmap string string -> list string).
Hypothesis range_visits : forall m, range_keys m ≡ₚ map fst (map_to_list m).
Variables (load : string -> option string) (mm : gmap string string -> string)
  (um : string -> option (gmap string string)) (fp : SieveScript -> string)
  (range_ids : gmap string string -> list string) (bc : option (string -> string -> string -> St stores unit)).
Hypothesis quiet : forall p, bc = Some p -> forall a t n w v, store_of (fst (p a t n w)) v = store_of w v.

Notation srv := (spec_server range_keys).
Notation b := (managesieve_backend srv load mm um fp bc range_ids).
Abbreviation scripts s u := (st_scripts (store_of (bs_world s) u)).

(** Other users' scripts stay, and so do this user's under the names [P]. *)
Definition keeps (P : string -> Prop) (u : string) (s s' : sieve_state stores) : Prop :=
  (forall v, v <> u -> store_of (bs_world s') v = store_of (bs_world s) v)
  /\ (forall n, P n -> scripts s' u !! n = scripts s u !! n).

Lemma kept_keeps P u s s' : kept s s' -> keeps P u s s'.
Proof. intros [K _]. split; [intros v _; apply K|intros n _; by rewrite K]. Qed.

Lemma keeps_trans P u s s1 s2 : keeps P u s s1 -> keeps P u s1 s2 -> keeps P u s s2.
Proof. intros [F1 N1] [F2 N2]. split; [intros v Hv; by rewrite F2, F1|intros n Hn; by rewrite N2, N1]. Qed.

Lemma create_name_some script : create_name script <> EmptyString.
Proof. unfold create_name. repeat case_match; try done; by apply String.eqb_neq. Qed.

(** A create puts one script, under its own name when it has one. *)
Lemma create_keeps c script s :
  let u := fst (userAndPass c) in
  let r := CreateSieveScript srv load mm fp bc c script s in
  keeps (fun n => n <> create_name script) u s (fst r)
  /\ match snd r with
     | Ok s' => sv_Name s' = create_name script /\ sv_Content s' = sv_Content script /\ sv_ID s' = SieveScriptIDForName (create_name script)
                /\ scripts (fst r) u !! create_name script = Some (sv_Content script)
     | Err _ => kept s (fst r)
     end.
Proof.
  intros u r. unfold r, CreateSieveScript. destruct (ValidateSieveScript load (sv_Content script)) as [[] e]; cbn [negb].
  2: { split; [|done]. by apply kept_keeps. }
  rewrite St_bind_eq, dial_eq. cbn [fst snd]. fold u. set (name := create_name script).
  rewrite St_bind_eq.
  destruct (call_done_eq range_keys u (OpPut name (sv_Content script)) s (sv_put srv u name (sv_Content script)) eq_refl eq_refl)
    as [-> Hput]. cbn [spec_step fst] in Hput. set (s1 := fst (on_server (sv_put srv u name (sv_Content script)) s)) in *.
  assert (keeps (fun n => n <> name) u s s1 /\ scripts s1 u !! name = Some (sv_Content script)) as [K1 E1].
  { destruct Hput as (E & F & _). split; [split; [exact F|]|]; rewrite E; simpl.
    - intros n Hn. by rewrite lookup_insert_ne.
    - apply lookup_insert_eq. }
  rewrite St_bind_eq.
  set (act := if sv_IsActive script then on_server (sv_activate srv u name) else mret (Ok tt)).
  assert (snd (act s1) = Ok tt /\ keeps (fun _ => True) u s1 (fst (act s1))) as [-> K2].
  { unfold act. destruct (sv_IsActive script); [|split; [done|by apply kept_keeps]].
    assert (spec_step range_keys (store_of (bs_world s1) u) (OpActivate name)
            = (mkScripts (scripts s1 u) name, AnsDone)) as Ea.
    { cbn [spec_step]. pose proof (create_name_some script) as Hne. fold name in Hne. by rewrite (proj2 (String.eqb_neq _ _) Hne), E1. }
    destruct (call_done_eq range_keys u (OpActivate name) s1 (sv_activate srv u name) eq_refl) as [-> (E & F & _)]; [by rewrite Ea|].
    split; [done|]. split; [exact F|]. intros n _. by rewrite E, Ea. }
  assert (keeps (fun n => n <> name) u s (fst (act s1))) as K.
  { eapply keeps_trans; [exact K1|]. destruct K2 as [F N]. split; [exact F|]. intros n _. by apply N. }
  assert (scripts (fst (act s1)) u !! name = Some (sv_Content script)) as E2 by (by rewrite (proj2 K2)).
  rewrite St_bind_eq. cbn [fst snd mret St_ret sv_Name sv_ID sv_Content].
  pose proof (changed_kept range_keys mm fp bc quiet c u (SieveScriptIDForName name) "create" (fst (act s1))) as Hk.
  split; [|split_and!; [done..|]].
  - eapply keeps_trans; [exact K|]. by apply kept_keeps.
  - by rewrite (proj1 Hk).
Qed.

(** The names of the scripts there are known to the create loop. *)
Definition names_known (u : string) (s : sieve_state stores) (m : gmap string string) : Prop :=
  forall n, n <> EmptyString -> is_Some (scripts s u !! n) -> is_Some (m !! n).

Lemma existing_names_elem l n : n <> EmptyString -> (exists s, s ∈ l /\ sv_Name s = n) -> is_Some (existing_names l !! n).
Proof.
  intros Hn. unfold existing_names.
  assert (forall (m : gmap string string), is_Some (m !! n) \/ (exists s, s ∈ l /\ sv_Name s = n) ->
    is_Some (foldl (fun m s => if String.eqb (sv_Name s) EmptyString then m else <[sv_Name s := sv_ID s]> m) m l !! n)) as Hg.
  2: { intros Hs. apply Hg. by right. }
  induction l as [|x l IH]; intros m Hm; simpl.
  - destruct Hm as [Hm|(s & Hs%not_elem_of_nil & _)]; done.
  - apply IH. destruct Hm as [Hm|(s & [->|Hs]%elem_of_cons & <-)]; [left..|right; eauto].
    + destruct (String.eqb _ _); [done|]. rewrite lookup_insert. by case_decide.
    + rewrite (proj2 (String.eqb_neq _ _) Hn), lookup_insert_eq. eauto.
Qed.

Lemma GetAll_eq c s :
  snd (GetAllSieveScripts srv c s)
  = Ok (map (fun n => mkSieve (SieveScriptIDForName n) n (default EmptyString (scripts s (fst (userAndPass c)) !! n))
                        (String.eqb n (st_active (store_of (bs_world s) (fst (userAndPass c))))) true)
          (range_keys (scripts s (fst (userAndPass c))))).
Proof.
  unfold GetAllSieveScripts. rewrite St_bind_eq. unfold GetSieveScripts. rewrite St_bind_eq, dial_eq. cbn [fst snd].
  set (u := fst (userAndPass c)). rewrite St_bind_eq. destruct (call_list_eq range_keys u s) as [-> Hk].
  rewrite St_bind_eq. cbn [fst snd mret St_ret]. rewrite all_scripts_eq, map_map, (proj1 Hk). done.
Qed.

Lemma names_known_start c s :
  names_known (fst (userAndPass c)) s
    (match snd (GetAllSieveScripts srv c s) with Ok l => existing_names l | Err _ => ∅ end).
Proof.
  intros n Hn Hs. rewrite GetAll_eq. apply existing_names_elem; [done|].
  apply (range_elem range_keys range_visits) in Hs. eexists. split; [apply list_elem_of_fmap_2, Hs|done].
Qed.
(** What the create loop keeps true. *)
Record creating (u : string) (s0 : sieve_state stores) (hs : HState (sieve_state stores)) (acc : create_acc) : Prop := {
  cr_kept : keeps (fun n => is_Some (scripts s0 u !! n)) u s0 (fst hs);
  cr_known : names_known u (fst hs) (ca_names acc);
  cr_stored : forall cid j, obj_get (ca_created acc) cid = Some j ->
    exists s', j = sieve_json s' /\ scripts (fst hs) u !! sv_Name s' = Some (sv_Content s')
               /\ scripts s0 u !! sv_Name s' = None;
}.

Lemma creating_weaken u s0 hs acc failed :
  creating u s0 hs acc -> creating u s0 hs (mkCreated (ca_names acc) (ca_refs acc) (ca_created acc) failed).
Proof. by intros [K N S]. Qed.

Lemma create_script_creating c s0 hs acc cid raw :
  let u := fst (userAndPass c) in
  sv_Name (decode_script raw) <> EmptyString -> creating u s0 hs acc ->
  let r := create_script b c acc (cid, raw) hs in creating u s0 (fst r) (snd r).
Proof.
  intros u Hnm Hc. unfold create_script. set (script := decode_script raw) in *.
  destruct (validateSieveScriptName (sv_Name script)); [by apply creating_weaken|].
  rewrite (proj2 (String.eqb_neq _ _) Hnm).
  destruct (ca_names acc !! sv_Name script) eqn:En; [by apply creating_weaken|].
  assert (create_name script = sv_Name script) as Hcn.
  { unfold create_name. rewrite (proj2 (String.eqb_neq _ _) Hnm). simpl. by rewrite (proj2 (String.eqb_neq _ _) Hnm). }
  destruct Hc as [K N S]. destruct hs as [s refs0]. cbn [fst] in *.
  assert (scripts s u !! sv_Name script = None) as Hfree.
  { destruct (scripts s u !! sv_Name script) eqn:E; [|done]. destruct (N (sv_Name script)) as [? Hx]; [done|by eauto|congruence]. }
  assert (scripts s0 u !! sv_Name script = None) as Hfree0.
  { destruct (scripts s0 u !! sv_Name script) eqn:E; [|done]. rewrite <- (proj2 K), Hfree in E; [done|]. by eauto. }
  destruct (create_keeps c script s) as [Kc Hr]. fold u in Kc, Hr. rewrite Hcn in Kc, Hr.
  rewrite St_bind_eq. unfold back, on_part. cbn [fst snd managesieve_backend so_Create].
  destruct (CreateSieveScript srv load mm fp bc c script s) as [s1 r]. cbn [fst snd] in *.
  assert (keeps (fun n => is_Some (scripts s0 u !! n)) u s0 s1) as K1.
  { destruct K as [F1 N1], Kc as [F2 N2]. split; [intros v Hv; by rewrite F2, F1|].
    intros n Hn. rewrite N2, N1; [done..|]. intros ->. rewrite Hfree0 in Hn. by destruct Hn. }
  assert (forall s', scripts s u !! sv_Name s' = Some (sv_Content s') -> scripts s1 u !! sv_Name s' = Some (sv_Content s')) as Hst.
  { intros s' Hs'. rewrite (proj2 Kc); [done|]. intros E. rewrite E, Hfree in Hs'. done. }
  destruct r as [s'|e]; [|].
  - destruct Hr as (En' & Ec' & _ & Es'). rewrite St_bind_eq. unfold record_ref. cbn [fst snd].
    destruct (RecordCreationRefs refs0 (ca_refs acc) cid (sv_ID s')) as [refs1 refs2]. cbn [fst snd mret St_ret].
    split; [done|..]; cbn [ca_names ca_created fst].
    + intros n Hn Hs. rewrite En', (proj2 (String.eqb_neq _ _) Hnm). rewrite lookup_insert. case_decide as Hd; [by eauto|].
      apply N; [done|]. by rewrite <- (proj2 Kc) by congruence.
    + intros cid' j. rewrite obj_get_set. case_decide as Hcid; [|intros Hj; destruct (S cid' j Hj) as (x & -> & Hx & Hz); eauto].
      intros [= <-]. exists s'. rewrite En', Ec'. done.
  - cbn [fst snd mret St_ret]. split; cbn [ca_names ca_created fst]; [done| |].
    + intros n Hn Hs. apply N; [done|]. by rewrite <- (proj1 Hr).
    + intros cid' j Hj. destruct (S cid' j Hj) as (x & -> & Hx & Hz). eauto.
Qed.
End Creating.

Lemma set_activity_absent `{GoRuntime} {W} (b : SieveBackend W) c refs args k active s :
  get_str args k = None -> set_activity b c refs args k active s = (s, tt).
Proof. intros Hk. unfold set_activity, str_or_empty. by rewrite Hk. Qed.

(** ** Properties *)

(** C21: A SieveScript/set that only creates named scripts never overwrites
    one.  Whatever the order in which Go visits the creates, every script that
    was there keeps its content, every script reported as created is stored
    under its name with its content, and that name was free before; other
    users' scripts are not touched. *)
Theorem named_creates_never_overwrite `{GoRuntime} range_keys
    (range_visits : forall m, range_keys m ≡ₚ map fst (map_to_list m))
    load mm um fp range_ids (bc : option (string -> string -> string -> St stores unit))
    (quiet : forall p, bc = Some p -> forall a t n w v, store_of (fst (p a t n w)) v = store_of w v)
    order (is_fair : fair order) c args creates s refs :
  get_obj args "create" = Some creates -> get_str args "ifInState" = None ->
  get_obj args "update" = None -> get_arr args "destroy" = None ->
  get_str args "onSuccessActivateScript" = None -> get_str args "onSuccessDeactivateScript" = None ->
  (forall kv, kv ∈ creates -> sv_Name (decode_script (snd kv)) <> EmptyString) ->
  let u := fst (userAndPass c) in
  let scripts s := st_scripts (store_of (bs_world s) u) in
  let b := managesieve_backend (spec_server range_keys) load mm um fp bc range_ids in
  let r := handleSieveScriptSet (Some b) order c args (s, refs) in
  let s' := fst (fst r) in
  (forall n content, scripts s !! n = Some content -> scripts s' !! n = Some content)
  /\ (forall v, v <> u -> store_of (bs_world s') v = store_of (bs_world s) v)
  /\ exists created, obj_get (snd (snd r)) "created" = Some (NilIfEmpty (JObj created))
     /\ forall cid j, obj_get created cid = Some j -> exists x, j = sieve_json x
        /\ scripts s' !! sv_Name x = Some (sv_Content x) /\ scripts s !! sv_Name x = None.
Proof.
  intros Hcr Hif Hup Hde Ha Hd Hnamed u scripts b r.
  assert (forall x, kept x (fst (SieveScriptState (spec_server range_keys) mm fp c x))) as Hstate by apply State_kept.
  pose proof (GetAll_kept range_keys c) as Hall. pose proof (names_known_start range_keys range_visits c) as Hknown.
  assert (r = handleSieveScriptSet (Some b) order c args (s, refs)) as Hr by done. clearbody r.
  unfold handleSieveScriptSet, asking in Hr. rewrite St_bind_eq, back_eq in Hr. cbn [b managesieve_backend so_State so_GetAll fst snd] in Hr.
  unfold state_mismatch in Hr. rewrite Hif in Hr.
  set (s1 := fst (SieveScriptState _ mm fp c s)) in Hr. pose proof (Hstate s) as K1. fold s1 in K1.
  rewrite St_bind_eq in Hr. cbn [new_refs gets fst snd] in Hr. rewrite St_bind_eq, back_eq in Hr. cbn [fst snd] in Hr.
  set (s2 := fst (GetAllSieveScripts _ c s1)) in Hr. pose proof (Hall s1) as K2. fold s2 in K2. specialize (Hknown s1).
  set (m := match snd (GetAllSieveScripts _ c s1) with Ok l => existing_names l | Err _ => ∅ end) in Hr, Hknown.
  rewrite St_bind_eq, Hcr in Hr. cbn [range_obj] in Hr. set (acc0 := mkCreated m _ [] []) in Hr.
  assert (creating u s (s2, refs) acc0) as Hc0.
  { split; cbn [fst].
    - apply kept_keeps. by eapply kept_trans.
    - intros n Hn. rewrite (proj1 K2). by apply Hknown.
    - done. }
  assert (creating u s (fst (fold_state (create_script b c) acc0 (range_map order creates) (s2, refs)))
            (snd (fold_state (create_script b c) acc0 (range_map order creates) (s2, refs)))) as Hloop.
  { apply (fold_state_inv _ (creating u s)); [|exact Hc0]. intros w a [k v] Hin Hi.
    apply (create_script_creating range_keys load mm um fp range_ids bc quiet c s); [|exact Hi].
    apply (Hnamed (k, v)). by rewrite <- (proj2 is_fair creates). }
  change (managesieve_backend (spec_server range_keys) load mm um fp bc range_ids) with b in Hr.
  set (l := fold_state (create_script b c) acc0 _ _) in *.
  rewrite St_bind_eq, Hup in Hr. cbn [range_obj fst snd mret St_ret] in Hr.
  do 2 rewrite St_bind_eq, set_activity_absent in Hr by done.
  rewrite St_bind_eq, Hde in Hr. cbn [range_strings mret St_ret fst snd] in Hr.
  rewrite St_bind_eq, back_eq in Hr. cbn [fst snd mret St_ret] in Hr. rewrite Hr. cbn [fst snd].
  destruct Hloop as [K N S]. pose proof (Hstate (fst (fst l))) as K3.
  set (s3 := fst (SieveScriptState (spec_server range_keys) mm fp c (fst (fst l)))) in *.
  destruct K as [F Kn]. split_and!.
  - intros n content Hn. unfold scripts. rewrite (proj1 K3), Kn; [done|]. by eauto.
  - intros v Hv. by rewrite (proj1 K3), F.
  - exists (ca_created (snd l)). split; [done|]. intros cid j Hj. destruct (S cid j Hj) as (x & -> & Hx & Hz).
    exists x. unfold scripts. by rewrite (proj1 K3).
Qed.

Definition demo_backend : SieveBackend (sieve_state stores) :=
  managesieve_backend (H := ascii_runtime) (spec_server demo_order) (fun _ => None) (fun _ => EmptyString) (fun _ => None)
    (fun _ => EmptyString) None demo_order.
Definition demo_set (args : obj) (x : script_store) : HState (sieve_state stores) * (string * obj) :=
  handleSieveScriptSet (H := ascii_runtime) (Some demo_backend) in_order demo_ctx args (demo_state x, None).
Definition demo_scripts (h : HState (sieve_state stores)) : script_store := store_of (bs_world (fst h)) "u".
Definition demo_create (members : obj) : obj := [("create", JObj [("k", JObj members)])].

Lemma named_creates_never_overwrite_witness :
  let r := demo_set (demo_create [("content", JStr "stop;"); ("name", JStr "b")]) (mkScripts {["a" := "keep;"]} EmptyString) in
  st_scripts (demo_scripts (fst r)) !! "a" = Some "keep;".
Proof.
  pose (s := demo_state (mkScripts {["a" := "keep;"]} EmptyString)).
  pose proof (named_creates_never_overwrite (H := ascii_runtime) demo_order (fun m => reflexivity _) (fun _ => None) (fun _ => EmptyString)
    (fun _ => None) (fun _ => EmptyString) demo_order None (fun p Hp => ltac:(discriminate Hp)) in_order
    (conj (fun n l => reflexivity l) (fun m => reflexivity m)) demo_ctx
    (demo_create [("content", JStr "stop;"); ("name", JStr "b")])
    [("k", JObj [("content", JStr "stop;"); ("name", JStr "b")])] s None) as T.
  cbv zeta in T. change (fst (userAndPass demo_ctx)) with "u" in T. destruct T as (E & _).
  1, 2, 3, 4, 5, 6: reflexivity.
  - intros kv Hkv. apply list_elem_of_singleton in Hkv. subst kv. vm_compute. discriminate.
  - apply E. vm_compute. reflexivity.
Defined.

(** A create without a name can overwrite.  The backend names such a
    script "default", or after the id the client sent, which the check of
    existing names has not seen: the script of that name loses its content and
    the create is reported as done. *)
Theorem unnamed_create_overwrites :
  (let r := demo_set (demo_create [("content", JStr "stop;")]) (mkScripts {["default" := "keep;"]} EmptyString) in
   demo_scripts (fst r) = mkScripts {["default" := "stop;"]} EmptyString
   /\ obj_get (snd (snd r)) "notCreated" = Some JNull)
  /\ (let r := demo_set (demo_create [("content", JStr "stop;"); ("id", JStr (SieveScriptIDForName "a"))])
                 (mkScripts {["a" := "keep;"]} EmptyString) in
      demo_scripts (fst r) = mkScripts {["a" := "stop;"]} EmptyString
      /\ obj_get (snd (snd r)) "notCreated" = Some JNull).
Proof. vm_compute. split_and!; reflexivity. Qed.

(** onSuccessActivateScript is applied whatever happened.  A request whose
    only create fails still changes the active script, although RFC 9661 asks
    for the change only after all creates, updates and destroys succeeded; and
    as it comes before the destroys, the same request can destroy the script
    it has just activated. *)
Theorem activation_ignores_failures :
  (let r := demo_set (demo_create [("name", JStr "b")] ++ [("onSuccessActivateScript", JStr (SieveScriptIDForName "a"))])
              (mkScripts {["a" := "keep;"; "c" := "stop;"]} "c") in
   st_active (demo_scripts (fst r)) = "a"
   /\ obj_get (snd (snd r)) "created" = Some JNull
   /\ obj_get (snd (snd r)) "notCreated"
      = Some (JObj [("k", SetError_json (set_error "invalidScript" "invalid sieve script: sieve script content is empty"))]))
  /\ (let r := demo_set [("onSuccessActivateScript", JStr (SieveScriptIDForName "a")); ("destroy", JArr [JStr (SieveScriptIDForName "a")])]
                 (mkScripts {["a" := "keep;"; "c" := "stop;"]} "c") in
      demo_scripts (fst r) = mkScripts {["c" := "stop;"]} EmptyString
      /\ obj_get (snd (snd r)) "destroyed" = Some (jstrs [SieveScriptIDForName "a"])).
Proof. vm_compute. split_and!; reflexivity. Qed.

(** A sorted query past the end panics.  Without a sort a position behind
    the last script gives an empty page; with one, for every backend whose
    query succeeds, the slice bounds are out of order and the handler never
    answers. *)
Theorem sorted_query_past_end_panics {W} (b : SieveBackend W) c filter position offset limit cmp cmps w all total :
  snd (so_Query b c filter 0 None w) = Some (Ok (all, total)) -> 0 <= total -> total < position ->
  snd (run_script_query b c filter position EmptyString offset limit (cmp :: cmps) w) = None.
Proof.
  intros Hq Ht Hp. unfold run_script_query. rewrite St_bind_eq, Hq. rewrite St_bind_eq. cbn [snd mret St_ret].
  change (String.eqb EmptyString EmptyString) with true. unfold sorted_page, NormalizePosition.
  replace (position <? 0) with false by (symmetry; bool_props; lia).
  set (end_ := match limit with Some _ => _ | None => _ end). assert (end_ <= total) as He.
  { unfold end_. destruct limit; [|lia]. case_match; bool_props; lia. }
  by replace (end_ <? position) with true by (symmetry; bool_props; lia).
Qed.

Lemma sorted_query_past_end_panics_witness :
  snd (run_script_query demo_backend demo_ctx [] 5 EmptyString 0 None [mkComparator "name" true EmptyString EmptyString]
         (demo_state (mkScripts {["a" := "keep;"]} EmptyString))) = None.
Proof.
  apply (sorted_query_past_end_panics demo_backend demo_ctx [] 5 0 None _ [] _ [SieveScriptIDForName "a"] 1).
  - vm_compute. reflexivity.
  - discriminate.
  - reflexivity.
Defined.
