(* ===== verification/GoTime.v ===== *)
(** * Package time

    Instants, zones, the civil calendar, and the layouts of [time.Parse] and
    [Format] that the calendar code uses.  A time is the number of nanoseconds
    since 1970 with the zone in which its fields are read.  The zone database
    and the zone of the machine are a parameter. *)

From S2P Require Import Prelude GoStrings.
From Stdlib Require Import Ascii.

(** ** Zones *)

Inductive Location : Type := UTC | Zone (name : string) | FixedZone (offset : Z).
Class TimeZones := {
  (** [time.LoadLocation] *)
  tz_load : string -> option Location;
  (** the offset of a named zone, in seconds, at a Unix time *)
  tz_offset : string -> Z -> Z;
  (** [time.Local] *)
  tz_Local : Location;
}.
Record Time : Type := mkTime { t_ns : Z; t_loc : Location }.

Definition second : Z := 1000000000.
Definition day_seconds : Z := 86400.

(** ** The civil calendar *)

Definition is_leap (y : Z) : bool := (y mod 4 =? 0) && (negb (y mod 100 =? 0) || (y mod 400 =? 0)).
(** The days of the years 1 to [k]. *)
Definition days_before_year (k : Z) : Z := 365 * k + k / 4 - k / 100 + k / 400.
Definition month_lengths (leap : bool) : list Z := [31; if leap then 29 else 28; 31; 30; 31; 30; 31; 31; 30; 31; 30; 31].
Definition days_in (m y : Z) : Z := nth (Z.to_nat (m - 1)) (month_lengths (is_leap y)) 0.
Definition days_before_month (m : Z) (leap : bool) : Z := foldl Z.add 0 (take (Z.to_nat (m - 1)) (month_lengths leap)).
Definition unix_epoch_days : Z := 719162.

(** The days from 1970-01-01 to a date; a day beyond the month runs on. *)
Definition days_of_date (y m d : Z) : Z :=
  days_before_year (y - 1) + days_before_month m (is_leap y) + (d - 1) - unix_epoch_days.

(** The month and the day of the month of a day of the year. *)
Fixpoint month_of (ls : list Z) (m doy : Z) : Z * Z :=
  match ls with
  | l :: ls' => if doy <? l then (m, doy + 1) else month_of ls' (m + 1) (doy - l)
  | [] => (m, doy + 1)
  end.
Definition year_of_era_day (r : Z) : Z := let k := r / 365 in if r <? days_before_year k then k - 1 else k.
Definition date_in_era (r : Z) : Z * Z * Z :=
  let k := year_of_era_day r in
  let '(m, d) := month_of (month_lengths (is_leap (k + 1))) 1 (r - days_before_year k) in (k + 1, m, d).
Definition era_days : Z := 146097.
Definition date_of_days (n : Z) : Z * Z * Z :=
  let a := n + unix_epoch_days in
  let '(y, m, d) := date_in_era (a mod era_days) in (400 * (a / era_days) + y, m, d).

(** ** Times *)

Section Times.
Context `{TimeZones}.

Definition loc_offset (l : Location) (unix : Z) : Z :=
  match l with UTC => 0 | FixedZone o => o | Zone n => tz_offset n unix end.
Definition unix_of (t : Time) : Z := t_ns t / second.
(** The seconds of the wall clock of the time's zone, as if they were UTC. *)
Definition wall_seconds (t : Time) : Z := unix_of t + loc_offset (t_loc t) (unix_of t).

(** [t.UTC()], [t.In(loc)], [t.Add(d)] *)
Definition In_loc (t : Time) (l : Location) : Time := mkTime (t_ns t) l.
Definition Add (t : Time) (d : Z) : Time := mkTime (t_ns t + d) (t_loc t).
Definition Before (t u : Time) : bool := t_ns t <? t_ns u.
Definition After (t u : Time) : bool := t_ns u <? t_ns t.

(** [time.Date]: the offset at the wall clock read as UTC, corrected once. *)
Definition Date (y m d h mi s ns : Z) (l : Location) : Time :=
  let unix := days_of_date y m d * day_seconds + h * 3600 + mi * 60 + s in
  let o := loc_offset l unix in
  let unix := if o =? 0 then unix else unix - loc_offset l (unix - o) in
  mkTime (unix * second + ns) l.

(** [t.AddDate(years, 0, 0)] *)
Definition AddYears (t : Time) (years : Z) : Time :=
  let w := wall_seconds t in
  let '(y, m, d) := date_of_days (w / day_seconds) in
  let r := w mod day_seconds in
  Date (y + years) m d (r / 3600) (r mod 3600 / 60) (r mod 60) (t_ns t mod second) (t_loc t).

(** [time.Time{}], the first instant of the year 1. *)
Definition zero_time : Time := mkTime (- unix_epoch_days * day_seconds * second) UTC.
Definition IsZero (t : Time) : bool := t_ns t =? t_ns zero_time.

(** ** Layouts *)

Inductive layout_elt : Type :=
| LYear | LMonth | LDay | LHour | LMinute | LSecond | LFrac | LZone | LChar (c : ascii).
Definition layout_date : list layout_elt := [LYear; LChar "-"; LMonth; LChar "-"; LDay].
Definition layout_minute : list layout_elt := layout_date ++ [LChar "T"; LHour; LChar ":"; LMinute].
Definition layout_second : list layout_elt := layout_minute ++ [LChar ":"; LSecond].
Definition layout_frac : list layout_elt := layout_second ++ [LFrac].
Definition layout_Z : list layout_elt := layout_second ++ [LChar "Z"].
Definition RFC3339 : list layout_elt := layout_second ++ [LZone].
Definition RFC3339Nano : list layout_elt := layout_frac ++ [LZone].

Record fields : Type := mkFields {
  f_year : Z; f_month : Z; f_day : Z; f_hour : Z; f_min : Z; f_sec : Z; f_nsec : Z;
  f_zone : option (option Z);  (** [Some None] for Z, [Some (Some o)] for an offset *)
}.
Definition no_fields : fields := mkFields 0 1 1 0 0 0 0 None.

Definition digit_of (c : ascii) : option Z := if is_digit_ascii c then Some (byte_val c - 48) else None.
(** [getnum] *)
Definition getnum (s : string) (fixed : bool) : option (Z * string) :=
  match s with
  | EmptyString => None
  | String a s1 =>
      x ← digit_of a;
      let single := if fixed then None else Some (x, s1) in
      match s1 with
      | String b s2 => match digit_of b with Some y => Some (10 * x + y, s2) | None => single end
      | EmptyString => single
      end
  end.
Definition between (lo hi : Z) (r : option (Z * string)) : option (Z * string) :=
  '(n, s) ← r; if (lo <=? n) && (n <=? hi) then Some (n, s) else None.
Definition four_digits (s : string) : option (Z * string) :=
  '(a, s1) ← getnum s true; '(b, s2) ← getnum s1 true; Some (100 * a + b, s2).

Fixpoint span_digits (s : string) : string * string :=
  match s with
  | String c s' => if is_digit_ascii c then let '(a, b) := span_digits s' in (String c a, b) else (EmptyString, s)
  | EmptyString => (EmptyString, EmptyString)
  end.
(** [parseNanoseconds]: at most nine digits count. *)
Definition nanoseconds (ds : string) : Z :=
  let ds := str_take 9 ds in
  default 0 (digits_val 0 ds) * 10 ^ (9 - Z.of_nat (slen ds)).
(** A fraction after the seconds: [None] when there is none. *)
Definition fraction (s : string) : option (Z * string) :=
  match s with
  | String p (String d s') =>
      if (Ascii.eqb p "." || Ascii.eqb p ",") && is_digit_ascii d
      then let '(ds, rest) := span_digits (String d s') in Some (nanoseconds ds, rest)
      else None
  | _ => None
  end.
Definition read_zone (s : string) : option (option Z * string) :=
  match s with
  | String "Z" s' => Some (None, s')
  | String sign s1 =>
      '(hh, s2) ← between 0 24 (getnum s1 true);
      match s2 with
      | String ":" s3 =>
          '(mm, s4) ← between 0 60 (getnum s3 true);
          let o := (hh * 60 + mm) * 60 in
          if Ascii.eqb sign "+" then Some (Some o, s4)
          else if Ascii.eqb sign "-" then Some (Some (- o), s4) else None
      | _ => None
      end
  | EmptyString => None
  end.

Definition is_frac (l : list layout_elt) : bool := match l with LFrac :: _ => true | _ => false end.
Fixpoint parse_fields (l : list layout_elt) (s : string) (f : fields) : option fields :=
  match l with
  | [] => if String.eqb s EmptyString then Some f else None
  | e :: l' =>
      match e with
      | LYear => '(n, s) ← four_digits s;
          parse_fields l' s (mkFields n (f_month f) (f_day f) (f_hour f) (f_min f) (f_sec f) (f_nsec f) (f_zone f))
      | LMonth => '(n, s) ← between 1 12 (getnum s true);
          parse_fields l' s (mkFields (f_year f) n (f_day f) (f_hour f) (f_min f) (f_sec f) (f_nsec f) (f_zone f))
      | LDay => '(n, s) ← getnum s true;
          parse_fields l' s (mkFields (f_year f) (f_month f) n (f_hour f) (f_min f) (f_sec f) (f_nsec f) (f_zone f))
      | LHour => '(n, s) ← between 0 23 (getnum s false);
          parse_fields l' s (mkFields (f_year f) (f_month f) (f_day f) n (f_min f) (f_sec f) (f_nsec f) (f_zone f))
      | LMinute => '(n, s) ← between 0 59 (getnum s true);
          parse_fields l' s (mkFields (f_year f) (f_month f) (f_day f) (f_hour f) n (f_sec f) (f_nsec f) (f_zone f))
      | LSecond => '(n, s) ← between 0 59 (getnum s true);
          let '(ns, s) := if is_frac l' then (f_nsec f, s)
                          else match fraction s with Some (ns, s) => (ns, s) | None => (f_nsec f, s) end in
          parse_fields l' s (mkFields (f_year f) (f_month f) (f_day f) (f_hour f) (f_min f) n ns (f_zone f))
      | LFrac => let '(ns, s) := match fraction s with Some (ns, s) => (ns, s) | None => (f_nsec f, s) end in
          parse_fields l' s (mkFields (f_year f) (f_month f) (f_day f) (f_hour f) (f_min f) (f_sec f) ns (f_zone f))
      | LZone => '(z, s) ← read_zone s;
          parse_fields l' s (mkFields (f_year f) (f_month f) (f_day f) (f_hour f) (f_min f) (f_sec f) (f_nsec f) (Some z))
      | LChar c => match s with String d s' => if Ascii.eqb c d then parse_fields l' s' f else None | EmptyString => None end
      end
  end.

Definition valid_day (f : fields) : bool := (1 <=? f_day f) && (f_day f <=? days_in (f_month f) (f_year f)).

(** The time of the fields: in [default] without a zone; with an offset, in
    [local] when that has the offset then. *)
Definition time_of (f : fields) (default_ local : Location) : Time :=
  let date := Date (f_year f) (f_month f) (f_day f) (f_hour f) (f_min f) (f_sec f) (f_nsec f) in
  match f_zone f with
  | None => date default_
  | Some None => date UTC
  | Some (Some o) =>
      let t := Add (date UTC) (- o * second) in
      In_loc t (if loc_offset local (unix_of t) =? o then local else FixedZone o)
  end.
Definition parse (layout : list layout_elt) (value : string) (default_ local : Location) : option Time :=
  f ← parse_fields layout value no_fields;
  if valid_day f then Some (time_of f default_ local) else None.
(** [time.Parse] and [time.ParseInLocation] *)
Definition Parse (layout : list layout_elt) (value : string) : option Time := parse layout value UTC tz_Local.
Definition ParseInLocation (layout : list layout_elt) (value : string) (l : Location) : option Time := parse layout value l l.

(** ** Format *)

(** [appendInt]: at least [width] digits. *)
Definition digit_char (n : Z) : ascii := ascii_of_N (Z.to_N (48 + n)).
Fixpoint fixed_digits (w : nat) (n : Z) : string :=
  match w with O => EmptyString | S w' => fixed_digits w' (n / 10) +:+ str_of [digit_char (n mod 10)] end.
Definition pad (width : nat) (n : Z) : string :=
  let a := Z.abs n in
  (if n <? 0 then "-" else EmptyString)
  +:+ (if a <? 10 ^ Z.of_nat width then fixed_digits width a else fmt_d a).
(** [t.Format("2006-01-02T15:04:05")] *)
Definition Format_second (t : Time) : string :=
  let w := wall_seconds t in
  let '(y, m, d) := date_of_days (w / day_seconds) in
  let r := w mod day_seconds in
  pad 4 y +:+ "-" +:+ pad 2 m +:+ "-" +:+ pad 2 d +:+ "T"
  +:+ pad 2 (r / 3600) +:+ ":" +:+ pad 2 (r mod 3600 / 60) +:+ ":" +:+ pad 2 (r mod 60).
(** [t.UTC().Format] of the layout with Z, and of RFC 3339. *)
Definition Format_UTC (t : Time) : string := Format_second (In_loc t UTC) +:+ "Z".
End Times.

(** ** Lemmas: the civil calendar *)

Fixpoint check_from (ok : Z -> bool) (n : nat) (r : Z) : bool :=
  match n with O => true | S n' => if ok r then check_from ok n' (r + 1) else false end.
Lemma check_from_spec ok n r x : check_from ok n r = true -> r <= x < r + Z.of_nat n -> ok x = true.
Proof.
  revert r. induction n as [|n IH]; intros r Hc Hx; [lia|]. cbn [check_from] in Hc.
  destruct (ok r) eqn:E; [|done]. destruct (decide (x = r)) as [->|Hne]; [done|]. apply (IH (r + 1)); [done|lia].
Qed.

(** The month of a day of the year, by going through the year. *)
Definition month_ok (leap : bool) (doy : Z) : bool :=
  let '(m, d) := month_of (month_lengths leap) 1 doy in
  (days_before_month m leap + (d - 1) =? doy)
  && (1 <=? m) && (m <=? 12) && (1 <=? d) && (d <=? nth (Z.to_nat (m - 1)) (month_lengths leap) 0).
Lemma months_ok (leap : bool) doy : 0 <= doy < 365 + Z.b2z leap -> month_ok leap doy = true.
Proof.
  intros Hd. destruct leap; simpl in Hd.
  - apply (check_from_spec (month_ok true) 366 0); [by vm_compute|lia].
  - apply (check_from_spec (month_ok false) 365 0); [by vm_compute|lia].
Qed.

Lemma year_length k : 0 <= k < 400 -> days_before_year (k + 1) = days_before_year k + 365 + Z.b2z (is_leap (k + 1)).
Proof.
  intros Hk. apply Z.eqb_eq.
  apply (check_from_spec (fun k => days_before_year (k + 1) =? days_before_year k + 365 + Z.b2z (is_leap (k + 1))) 400 0);
    [by vm_compute|lia].
Qed.

Lemma year_of_era_day_spec r :
  0 <= r < era_days -> let k := year_of_era_day r in 0 <= k < 400 /\ days_before_year k <= r < days_before_year (k + 1).
Proof.
  intros Hr k. unfold k, year_of_era_day, days_before_year, era_days in *. clear k.
  destruct (Z.ltb_spec r (365 * (r / 365) + r / 365 / 4 - r / 365 / 100 + r / 365 / 400)); Z.to_euclidean_division_equations; lia.
Qed.

Lemma era_days_ok r :
  0 <= r < era_days -> let '(y, m, d) := date_in_era r in
  days_before_year (y - 1) + days_before_month m (is_leap y) + (d - 1) = r /\ 1 <= m <= 12 /\ 1 <= d <= days_in m y.
Proof.
  intros Hr. unfold date_in_era. destruct (year_of_era_day_spec r Hr) as [Hk Hd]. set (k := year_of_era_day r) in *.
  rewrite (year_length k Hk) in Hd. pose proof (months_ok (is_leap (k + 1)) (r - days_before_year k) ltac:(lia)) as Hm.
  unfold month_ok, days_in in *. destruct (month_of _ 1 _) as [m d]. replace (k + 1 - 1) with k by lia. bool_props. lia.
Qed.

Lemma is_leap_era k y : is_leap (400 * k + y) = is_leap y.
Proof.
  unfold is_leap. rewrite !(Z.add_comm (400 * k)).
  replace (400 * k) with (100 * k * 4) at 1 by lia. rewrite Z_mod_plus_full.
  replace (400 * k) with (4 * k * 100) at 1 by lia. rewrite Z_mod_plus_full.
  replace (400 * k) with (k * 400) by lia. by rewrite Z_mod_plus_full.
Qed.

Lemma days_before_era k y : days_before_year (400 * k + y) = era_days * k + days_before_year y.
Proof.
  unfold days_before_year, era_days. rewrite !(Z.add_comm (400 * k)).
  replace (400 * k) with (100 * k * 4) at 2 by lia. rewrite Z_div_plus_full by done.
  replace (400 * k) with (4 * k * 100) at 2 by lia. rewrite Z_div_plus_full by done.
  replace (400 * k) with (k * 400) at 2 by lia. rewrite Z_div_plus_full by done. lia.
Qed.

Lemma date_of_days_spec n :
  let '(y, m, d) := date_of_days n in days_of_date y m d = n /\ 1 <= m <= 12 /\ 1 <= d <= days_in m y.
Proof.
  unfold date_of_days. set (a := n + unix_epoch_days).
  pose proof (Z.mod_pos_bound a era_days eq_refl) as Hr. pose proof (Z.div_mod a era_days) as Hd.
  pose proof (era_days_ok _ Hr) as Hok. destruct (date_in_era (a mod era_days)) as [[y m] d].
  unfold days_of_date, days_in in *. rewrite is_leap_era.
  replace (400 * (a / era_days) + y - 1) with (400 * (a / era_days) + (y - 1)) by lia. rewrite days_before_era.
  destruct Hok as (Ho & Hm & Hdm). split; [|done]. unfold a, era_days in *. lia.
Qed.

(** ** Lemmas: printing and reading *)

Lemma pad_two_ok n : 0 <= n <= 99 -> forall s, getnum (pad 2 n +:+ s) true = Some (n, s) /\ getnum (pad 2 n +:+ s) false = Some (n, s).
Proof.
  intros Hn.
  assert (match pad 2 n with
          | String a (String b EmptyString) =>
              match digit_of a, digit_of b with Some x, Some y => 10 * x + y =? n | _, _ => false end
          | _ => false
          end = true) as Hp.
  { apply (check_from_spec (fun n => match pad 2 n with
      | String a (String b EmptyString) => match digit_of a, digit_of b with Some x, Some y => 10 * x + y =? n | _, _ => false end
      | _ => false end) 100 0); [by vm_compute|lia]. }
  intros s. destruct (pad 2 n) as [|a [|b [|]]]; try done. cbn [String.append getnum].
  destruct (digit_of a) as [x|]; [|done]. destruct (digit_of b) as [y|]; [|done]. apply Z.eqb_eq in Hp. by subst.
Qed.

Arguments pad : simpl never.
Arguments getnum : simpl never.
Arguments between : simpl never.

Lemma pad_four n : 0 <= n <= 9999 -> pad 4 n = pad 2 (n / 100) +:+ pad 2 (n mod 100).
Proof.
  intros Hn. unfold pad. change (10 ^ Z.of_nat 4) with 10000. change (10 ^ Z.of_nat 2) with 100. rewrite !Z.abs_eq by (Z.to_euclidean_division_equations; lia).
  replace (n <? 0) with false by (symmetry; bool_props; lia).
  replace (n / 100 <? 0) with false by (symmetry; bool_props; Z.to_euclidean_division_equations; lia).
  replace (n mod 100 <? 0) with false by (symmetry; bool_props; Z.to_euclidean_division_equations; lia).
  replace (n <? _) with true by (symmetry; bool_props; lia).
  replace (n / 100 <? _) with true by (symmetry; bool_props; Z.to_euclidean_division_equations; lia).
  replace (n mod 100 <? _) with true by (symmetry; bool_props; Z.to_euclidean_division_equations; lia).
  cbn [fixed_digits String.append str_of String.string_of_list_ascii].
  replace (n / 100 / 10 mod 10) with (n / 10 / 10 / 10 mod 10) by (Z.to_euclidean_division_equations; lia).
  replace (n / 100 mod 10) with (n / 10 / 10 mod 10) by (Z.to_euclidean_division_equations; lia).
  replace (n mod 100 / 10 mod 10) with (n / 10 mod 10) by (Z.to_euclidean_division_equations; lia).
  by replace (n mod 100 mod 10) with (n mod 10) by (Z.to_euclidean_division_equations; lia).
Qed.

Lemma four_digits_pad n s : 0 <= n <= 9999 -> four_digits (pad 4 n +:+ s) = Some (n, s).
Proof.
  intros Hn. rewrite pad_four, append_assoc by done. unfold four_digits.
  pose proof (Z.div_mod n 100). pose proof (Z.mod_pos_bound n 100).
  rewrite (proj1 (pad_two_ok (n / 100) ltac:(lia) _)). simpl. rewrite (proj1 (pad_two_ok (n mod 100) ltac:(lia) _)). simpl.
  do 2 f_equal. lia.
Qed.

Lemma between_ok lo hi n s : lo <= n <= hi -> between lo hi (Some (n, s)) = Some (n, s).
Proof.
  intros Hn. unfold between. simpl. by replace ((lo <=? n) && (n <=? hi)) with true by (symmetry; bool_props; lia).
Qed.

Section Reading.
Context `{TimeZones}.

(** The text of a time with the suffix [z] reads as the fields of the time. *)
Lemma read_formatted l' z y m d h mi s :
  0 <= y <= 9999 -> 1 <= m <= 12 -> 0 <= d <= 99 -> 0 <= h <= 23 -> 0 <= mi <= 59 -> 0 <= s <= 59 ->
  fraction z = None ->
  parse_fields (layout_second ++ l')
    (pad 4 y +:+ "-" +:+ pad 2 m +:+ "-" +:+ pad 2 d +:+ "T" +:+ pad 2 h +:+ ":" +:+ pad 2 mi +:+ ":" +:+ pad 2 s +:+ z) no_fields
  = parse_fields l' z (mkFields y m d h mi s 0 None).
Proof.
  intros Hy Hm Hd Hh Hmi Hs Hz. unfold layout_second, layout_minute, layout_date. cbn [app parse_fields].
  rewrite four_digits_pad by done. simpl.
  rewrite (proj1 (pad_two_ok m ltac:(lia) _)), between_ok by done. simpl.
  rewrite (proj1 (pad_two_ok d ltac:(lia) _)). simpl.
  rewrite (proj2 (pad_two_ok h ltac:(lia) _)), between_ok by done. simpl.
  rewrite (proj1 (pad_two_ok mi ltac:(lia) _)), between_ok by done. simpl.
  rewrite (proj1 (pad_two_ok s ltac:(lia) _)), between_ok by done. simpl.
  rewrite Hz. by destruct (is_frac l').
Qed.

(** The fields of a time, put together again. *)
Lemma fields_of_seconds w :
  let '(y, m, d) := date_of_days (w / day_seconds) in
  let r := w mod day_seconds in
  days_of_date y m d * day_seconds + r / 3600 * 3600 + r mod 3600 / 60 * 60 + r mod 60 = w
  /\ 0 <= r / 3600 <= 23 /\ 0 <= r mod 3600 / 60 <= 59 /\ 0 <= r mod 60 <= 59
  /\ 1 <= m <= 12 /\ 1 <= d <= days_in m y.
Proof.
  pose proof (date_of_days_spec (w / day_seconds)) as Hd. destruct (date_of_days _) as [[y m] d].
  destruct Hd as (-> & Hm & Hd). unfold day_seconds. split_and!; try (Z.to_euclidean_division_equations; lia); lia.
Qed.

Lemma days_in_bound m y : days_in m y <= 31.
Proof.
  unfold days_in. destruct (nth_in_or_default (Z.to_nat (m - 1)) (month_lengths (is_leap y)) 0) as [Hin| ->]; [|lia].
  revert Hin. generalize (nth (Z.to_nat (m - 1)) (month_lengths (is_leap y)) 0). intros x Hx.
  destruct (is_leap y); simpl in Hx; intuition lia.
Qed.

(** Reading what [Format] wrote, in UTC, with or without the Z. *)
Lemma parse_formatted t l' z f0 default_ local :
  0 <= fst (fst (date_of_days (wall_seconds (In_loc t UTC) / day_seconds))) <= 9999 -> fraction z = None ->
  (forall y m d h mi s, parse_fields l' z (mkFields y m d h mi s 0 None) = Some (mkFields y m d h mi s 0 f0)) ->
  f0 = Some None \/ (f0 = None /\ default_ = UTC) ->
  parse (layout_second ++ l') (Format_second (In_loc t UTC) +:+ z) default_ local = Some (mkTime (unix_of t * second) UTC).
Proof.
  intros Hy Hz Hl Hf0. unfold parse, Format_second.
  assert (wall_seconds (In_loc t UTC) = unix_of t) as Hw by (unfold wall_seconds, unix_of; simpl; lia).
  rewrite Hw in *. pose proof (fields_of_seconds (unix_of t)) as Hf.
  destruct (date_of_days (unix_of t / day_seconds)) as [[y m] d]. cbv zeta in Hf. set (r := unix_of t mod day_seconds) in *.
  destruct Hf as (Hsum & Hh & Hmi & Hs & Hm & Hd). pose proof (days_in_bound m y) as Hb. simpl in Hy.
  rewrite !append_assoc, read_formatted by (done || lia). rewrite Hl. simpl.
  unfold valid_day. cbn [f_day f_month f_year]. replace ((1 <=? d) && (d <=? days_in m y)) with true by (symmetry; bool_props; lia).
  unfold time_of. cbn [f_year f_month f_day f_hour f_min f_sec f_nsec f_zone].
  assert (Date y m d (r / 3600) (r mod 3600 / 60) (r mod 60) 0 UTC = mkTime (unix_of t * second) UTC) as Ed.
  { unfold Date. simpl. rewrite Hsum. f_equal. lia. }
  destruct Hf0 as [->|[-> ->]]; by rewrite Ed.
Qed.
End Reading.

(** A time of the years 0 to 9999 written as a UTC timestamp reads back as the
    same second. *)
Lemma utc_timestamp_roundtrip `{TimeZones} t :
  0 <= fst (fst (date_of_days (unix_of t / day_seconds))) <= 9999 ->
  Parse RFC3339 (Format_UTC t) = Some (mkTime (unix_of t * second) UTC)
  /\ ParseInLocation layout_Z (Format_UTC t) UTC = Some (mkTime (unix_of t * second) UTC)
  /\ ParseInLocation layout_second (Format_second (In_loc t UTC)) UTC = Some (mkTime (unix_of t * second) UTC).
Proof.
  intros Hy. assert (wall_seconds (In_loc t UTC) = unix_of t) as Hw by (unfold wall_seconds, unix_of; simpl; lia).
  rewrite <- Hw in Hy. unfold Parse, ParseInLocation, Format_UTC. split_and!.
  - apply (parse_formatted t [LZone] "Z" (Some None)); [done|done|done|by left].
  - apply (parse_formatted t [LChar "Z"] "Z" None); [done|done|done|by right].
  - rewrite <- (append_nil_r (Format_second _)), <- (app_nil_r layout_second).
    apply (parse_formatted t [] EmptyString None); [done|done|done|by right].
Qed.

(** The zones of the examples: Berlin without its summer time. *)
Definition demo_zones : TimeZones := {|
  tz_load n := if String.eqb n "Europe/Berlin" then Some (Zone n) else None;
  tz_offset _ _ := 3600;
  tz_Local := UTC;
|}.

Example demo_format : Format_UTC (H := demo_zones) (mkTime (1709210096 * second) UTC) = "2024-02-29T12:34:56Z".
Proof. vm_compute. reflexivity. Qed.
