(* ===== verification/TextCodecs.v ===== *)
(** * Text codecs

    Two ways in which arbitrary text is written into a restricted alphabet:
    the tag keywords of [jmap/tags.go], and the TEXT escaping of iCalendar in
    [jmap/jmapcalendar/ical_text_escaping.go]. *)

From S2P Require Import Prelude GoStrings Keywords.
From Stdlib Require Import Ascii.

(** ** Tags *)

Definition tagKeywordPrefix : string := "$tag/".
Definition tilde : ascii := "126"%char.

Definition IsTagKeyword (keyword : string) : bool :=
  HasPrefix keyword tagKeywordPrefix && (slen tagKeywordPrefix <? slen keyword)%nat.

Definition isTagSegmentLiteral (b : ascii) : bool :=
  is_alnum_ascii b || Ascii.eqb b "$" || Ascii.eqb b "_" || Ascii.eqb b "-".

(** [hexDigits[n]] for [n] below 16. *)
Definition hexDigits (n : Z) : ascii := ascii_of_N (Z.to_N (if n <? 10 then 48 + n else 87 + n)).

Fixpoint escapeTagSegment (s : string) : string :=
  match s with
  | EmptyString => EmptyString
  | String c s' =>
      if isTagSegmentLiteral c then String c (escapeTagSegment s')
      else String tilde (String (hexDigits (Z.shiftr (byte_val c) 4))
             (String (hexDigits (Z.land (byte_val c) 15)) (escapeTagSegment s')))
  end.

Inductive tag_error : Type :=
| InvalidEscape (s : string)
| InvalidHexDigit (c : ascii)
| EmptyTagName
| TagKeywordTooLong.

Definition hexValue (c : ascii) : result tag_error Z :=
  let v := byte_val c in
  if byte_between 48 57 c then Ok (v - 48)
  else if byte_between 97 102 c then Ok (v - 97 + 10)
  else if byte_between 65 70 c then Ok (v - 65 + 10)
  else Err (InvalidHexDigit c).

(** The loop; [whole] is the string the error names. *)
Fixpoint unescape_tag (whole s : string) : result tag_error string :=
  match s with
  | EmptyString => Ok EmptyString
  | String c s' =>
      if negb (Ascii.eqb c tilde)
      then match unescape_tag whole s' with Ok r => Ok (String c r) | Err e => Err e end
      else match s' with
           | String h (String l rest) =>
               match hexValue h, hexValue l with
               | Ok hi, Ok lo =>
                   match unescape_tag whole rest with
                   | Ok r => Ok (String (ascii_of_N (Z.to_N (Z.lor (Z.shiftl hi 4) lo))) r)
                   | Err e => Err e
                   end
               | Err e, _ => Err e
               | _, Err e => Err e
               end
           | _ => Err (InvalidEscape whole)
           end
  end.
Definition unescapeTagSegment (s : string) : result tag_error string := unescape_tag s s.

Definition TagToKeyword `{GoRuntime} (name value : string) : result tag_error string :=
  if String.eqb name EmptyString then Err EmptyTagName
  else
    let kw := tagKeywordPrefix +:+ escapeTagSegment (ToLower name) in
    let kw := if String.eqb value EmptyString then kw else kw +:+ "/" +:+ escapeTagSegment (ToLower value) in
    if (255 <? slen kw)%nat then Err TagKeywordTooLong else Ok kw.

(** [None] stands for [ok = false]. *)
Definition KeywordToTag `{GoRuntime} (keyword : string) : option (string * string) :=
  let kw := ToLower keyword in
  if negb (IsTagKeyword kw) then None
  else
    let rest := TrimPrefix kw tagKeywordPrefix in
    let '(seg1, seg2) := match IndexByte rest "/" with
                         | Some i => (str_take i rest, str_drop (S i) rest)
                         | None => (rest, EmptyString)
                         end in
    match unescapeTagSegment seg1 with
    | Ok name =>
        if String.eqb name EmptyString then None
        else match unescapeTagSegment seg2 with Ok value => Some (name, value) | Err _ => None end
    | Err _ => None
    end.

(** ** iCalendar TEXT *)

(** [strings.NewReplacer]: at each position the first pair that matches. *)
Fixpoint replacer_go (pairs : list (string * string)) (skip : nat) (s : string) : string :=
  match s with
  | EmptyString => EmptyString
  | String c s' =>
      match skip with
      | S k => replacer_go pairs k s'
      | O => match List.find (fun p => HasPrefix s (fst p)) pairs with
             | Some (old, new) => new +:+ replacer_go pairs (slen old - 1) s'
             | None => String c (replacer_go pairs 0 s')
             end
      end
  end.

Definition cr : ascii := "013"%char.
Definition nl : ascii := "010"%char.
Definition esc (c : ascii) : string := str_of [backslash; c].
Definition ical_pairs : list (string * string) :=
  [(str_of [backslash], esc backslash); (str_of [cr; nl], esc "n"); (str_of [nl], esc "n"); (str_of [cr], esc "n");
   (";", esc ";"); (",", esc ",")].
Definition escapeICalText (s : string) : string := replacer_go ical_pairs 0 s.

Fixpoint unescapeICalText (s : string) : string :=
  match s with
  | EmptyString => EmptyString
  | String c s' =>
      match s' with
      | String d rest =>
          if Ascii.eqb c backslash
          then String (if Ascii.eqb d "n" || Ascii.eqb d "N" then nl else d) (unescapeICalText rest)
          else String c (unescapeICalText s')
      | EmptyString => String c EmptyString
      end
  end.

(** ** Lemmas: tags *)

Definition escaped_byte (c : ascii) : bool := isTagSegmentLiteral c || Ascii.eqb c tilde.

(** The two hex digits of any byte read back as the byte, and are literals
    without upper case. *)
Lemma hex_pair c :
  let h := hexDigits (Z.shiftr (byte_val c) 4) in let l := hexDigits (Z.land (byte_val c) 15) in
  (exists hi lo, hexValue h = Ok hi /\ hexValue l = Ok lo /\ ascii_of_N (Z.to_N (Z.lor (Z.shiftl hi 4) lo)) = c)
  /\ isTagSegmentLiteral h = true /\ isTagSegmentLiteral l = true /\ is_upper_ascii h = false /\ is_upper_ascii l = false.
Proof.
  assert (forall c, (match hexValue (hexDigits (Z.shiftr (byte_val c) 4)), hexValue (hexDigits (Z.land (byte_val c) 15)) with
             | Ok hi, Ok lo => Ascii.eqb (ascii_of_N (Z.to_N (Z.lor (Z.shiftl hi 4) lo))) c
             | _, _ => false end
             && isTagSegmentLiteral (hexDigits (Z.shiftr (byte_val c) 4)) && isTagSegmentLiteral (hexDigits (Z.land (byte_val c) 15))
             && negb (is_upper_ascii (hexDigits (Z.shiftr (byte_val c) 4)))
             && negb (is_upper_ascii (hexDigits (Z.land (byte_val c) 15)))) = true) as Hall
    by (apply ascii_forall; by vm_compute).
  specialize (Hall c). cbv zeta. apply andb_prop in Hall as [Hall H4]. apply andb_prop in Hall as [Hall H3].
  apply andb_prop in Hall as [Hall H2]. apply andb_prop in Hall as [Hall H1].
  apply negb_true_iff in H3, H4. split_and!; [|done..].
  destruct (hexValue (hexDigits (Z.shiftr (byte_val c) 4))) as [hi|]; [|done].
  destruct (hexValue (hexDigits (Z.land (byte_val c) 15))) as [lo|]; [|done].
  apply Ascii.eqb_eq in Hall. eauto.
Qed.

Lemma literal_escaped c : isTagSegmentLiteral c = true -> escaped_byte c = true.
Proof. unfold escaped_byte. by intros ->. Qed.

Lemma escape_bytes s : str_forallb escaped_byte (escapeTagSegment s) = true.
Proof.
  induction s as [|c s IH]; [done|]. cbn [escapeTagSegment]. destruct (isTagSegmentLiteral c) eqn:E; cbn [str_forallb].
  - by rewrite (literal_escaped c), IH.
  - destruct (hex_pair c) as (_ & Hh & Hl & _). by rewrite (literal_escaped _ Hh), (literal_escaped _ Hl), IH.
Qed.

Lemma escape_low s :
  str_forallb (fun c => negb (is_upper_ascii c)) s = true ->
  str_forallb (fun c => negb (is_upper_ascii c)) (escapeTagSegment s) = true.
Proof.
  induction s as [|c s IH]; [done|]. intros [Hc Hs]%andb_prop. cbn [escapeTagSegment].
  destruct (isTagSegmentLiteral c); cbn [str_forallb]; [by rewrite Hc, IH|].
  destruct (hex_pair c) as (_ & _ & _ & -> & ->). by rewrite IH.
Qed.

Lemma unescape_escape_tag whole s : unescape_tag whole (escapeTagSegment s) = Ok s.
Proof.
  induction s as [|c s IH]; [done|]. cbn [escapeTagSegment]. destruct (isTagSegmentLiteral c) eqn:E; cbn [unescape_tag].
  - destruct (Ascii.eqb_spec c tilde) as [->|Hc]; [done|]. cbn [negb]. by rewrite IH.
  - change (Ascii.eqb tilde tilde) with true. cbn [negb].
    destruct (hex_pair c) as ((hi & lo & -> & -> & Ec) & _). by rewrite IH, Ec.
Qed.

Lemma lower_fixed s : str_forallb (fun c => negb (is_upper_ascii c)) s = true -> str_map lower_ascii s = s.
Proof.
  induction s as [|c s IH]; [done|]. intros [Hc Hs]%andb_prop. cbn [str_map].
  unfold lower_ascii at 1. apply negb_true_iff in Hc. by rewrite Hc, IH.
Qed.

Lemma IndexByte_app s t c : str_forallb (fun d => negb (Ascii.eqb d c)) s = true -> IndexByte (s +:+ String c t) c = Some (slen s).
Proof.
  induction s as [|d s IH]; simpl; [by rewrite Ascii.eqb_refl|]. intros [Hd%negb_true_iff Hs]%andb_prop. by rewrite Hd, IH.
Qed.
Lemma IndexByte_none s c : str_forallb (fun d => negb (Ascii.eqb d c)) s = true -> IndexByte s c = None.
Proof.
  induction s as [|d s IH]; simpl; [done|]. intros [Hd%negb_true_iff Hs]%andb_prop. by rewrite Hd, IH.
Qed.

(** A segment in the alphabet of escaped tags, without upper case. *)
Definition tag_text (s : string) : bool :=
  str_forallb (fun c => escaped_byte c && negb (is_upper_ascii c)) s.

Lemma escape_tag_text s :
  str_forallb (fun c => negb (is_upper_ascii c)) s = true -> tag_text (escapeTagSegment s) = true.
Proof.
  intros Hs. pose proof (escape_low s Hs) as H1. pose proof (escape_bytes s) as H2. revert H1 H2. unfold tag_text.
  generalize (escapeTagSegment s). induction s0 as [|c s0 IH]; [done|]. cbn [str_forallb].
  intros [-> H1]%andb_prop [-> H2]%andb_prop. by apply IH.
Qed.

Lemma tag_byte_facts :
  (forall c, escaped_byte c && negb (is_upper_ascii c) = true -> keyword_byte c = true /\ Ascii.eqb c "/" = false).
Proof.
  assert (forall c, implb (escaped_byte c && negb (is_upper_ascii c)) (keyword_byte c && negb (Ascii.eqb c "/")) = true) as Hall
    by (apply ascii_forall; by vm_compute).
  intros c Hc. specialize (Hall c). rewrite Hc in Hall. apply andb_prop in Hall as [Hk Hs%negb_true_iff]. done.
Qed.

Lemma tag_text_keyword s : tag_text s = true -> str_forallb keyword_byte s = true.
Proof. apply str_forallb_impl. intros c Hc. by apply tag_byte_facts. Qed.
Lemma tag_text_no_slash s : tag_text s = true -> str_forallb (fun d => negb (Ascii.eqb d "/")) s = true.
Proof. apply str_forallb_impl. intros c Hc. by rewrite (proj2 (tag_byte_facts c Hc)). Qed.
Lemma tag_text_low s : tag_text s = true -> str_map lower_ascii s = s.
Proof. intros Hs. apply lower_fixed. revert Hs. apply str_forallb_impl. by intros c [_ Hc]%andb_prop. Qed.

Lemma escape_nonempty s : s <> EmptyString -> escapeTagSegment s <> EmptyString.
Proof. destruct s as [|c s]; [done|]. intros _. cbn [escapeTagSegment]. by destruct (isTagSegmentLiteral c). Qed.

Section Tags.
Context `{GoRuntime}.

(** The two shapes a tag keyword has. *)
Definition tag_keyword (n v : string) : string :=
  tagKeywordPrefix +:+ n +:+ (if String.eqb v EmptyString then EmptyString else "/" +:+ v).

Lemma tag_keyword_bytes n v :
  tag_text n = true -> tag_text v = true ->
  str_forallb keyword_byte (tag_keyword n v) = true /\ str_map lower_ascii (tag_keyword n v) = tag_keyword n v.
Proof.
  intros Hn Hv. unfold tag_keyword. rewrite !str_forallb_app, !str_map_app, (tag_text_keyword n Hn), (tag_text_low n Hn).
  destruct (String.eqb v EmptyString); [done|]. rewrite str_forallb_app, str_map_app, (tag_text_keyword v Hv), (tag_text_low v Hv).
  done.
Qed.

Lemma KeywordToTag_parts n v name value :
  tag_text n = true -> tag_text v = true -> n <> EmptyString -> name <> EmptyString ->
  unescapeTagSegment n = Ok name -> unescapeTagSegment v = Ok value ->
  KeywordToTag (tag_keyword n v) = Some (name, value).
Proof.
  intros Hn Hv Hne Hnm En Ev. destruct (tag_keyword_bytes n v Hn Hv) as [Hk Hl]. unfold KeywordToTag.
  rewrite ToLower_ascii, Hl by (by apply graphic_ascii, keyword_graphic).
  assert (IsTagKeyword (tag_keyword n v) = true) as ->.
  { unfold IsTagKeyword, tag_keyword. rewrite HasPrefix_app. cbn [andb]. apply Nat.ltb_lt. rewrite !slen_app.
    destruct n as [|c n]; [done|]. simpl. lia. }
  cbn [negb]. unfold tag_keyword. rewrite TrimPrefix_app.
  destruct (String.eqb_spec v EmptyString) as [->|Hv0].
  - rewrite append_nil_r, IndexByte_none by (by apply tag_text_no_slash). rewrite En, Ev.
    by rewrite (proj2 (String.eqb_neq _ _) Hnm).
  - change ("/" +:+ v) with (String "/" v). rewrite IndexByte_app by (by apply tag_text_no_slash).
    rewrite str_take_app. replace (str_drop (S (slen n)) (n +:+ String "/" v)) with v.
    + rewrite En, Ev. by rewrite (proj2 (String.eqb_neq _ _) Hnm).
    + change (String "/" v) with (str_of ["/"%char] +:+ v). rewrite <- append_assoc.
      replace (S (slen n)) with (slen (n +:+ str_of ["/"%char])) by (rewrite slen_app; simpl; lia). by rewrite str_drop_app.
Qed.
End Tags.

(** Tags survive being stored as keywords.  The keyword of a tag whose name
    and value are lower-cased without a capital letter left (for ASCII texts
    always) is a valid keyword of RFC 8621 and reads back as the lower-cased
    name and value; whatever bytes the two contain, slashes and escapes
    included, different lower-cased tags have different keywords. *)
Theorem tag_keyword_roundtrip `{GoRuntime} name value kw :
  str_forallb (fun c => negb (is_upper_ascii c)) (ToLower name) = true ->
  str_forallb (fun c => negb (is_upper_ascii c)) (ToLower value) = true ->
  ToLower name <> EmptyString -> (ToLower value = EmptyString -> value = EmptyString) ->
  TagToKeyword name value = Ok kw ->
  IsValidKeyword kw = true /\ IsTagKeyword kw = true /\ KeywordToTag kw = Some (ToLower name, ToLower value).
Proof.
  intros Hn Hv Hne Hve. unfold TagToKeyword. destruct (String.eqb_spec name EmptyString) as [->|Hn0]; [done|].
  set (n := escapeTagSegment (ToLower name)). set (v := escapeTagSegment (ToLower value)).
  assert ((if String.eqb value EmptyString then tagKeywordPrefix +:+ n else (tagKeywordPrefix +:+ n) +:+ "/" +:+ v)
          = tag_keyword n v) as ->.
  { unfold tag_keyword. destruct (String.eqb_spec value EmptyString) as [->|Hv0].
    - assert (v = EmptyString) as -> by done. by rewrite append_nil_r.
    - rewrite (proj2 (String.eqb_neq v EmptyString)), append_assoc; [done|].
      apply escape_nonempty. intros E. by apply Hv0, Hve. }
  destruct (Nat.ltb_spec 255 (slen (tag_keyword n v))) as [|Hlen]; [done|]. intros [= <-].
  pose proof (escape_tag_text _ Hn) as Tn. pose proof (escape_tag_text _ Hv) as Tv.
  assert (n <> EmptyString) as Hn1 by (by apply escape_nonempty).
  assert (slen tagKeywordPrefix < slen (tag_keyword n v))%nat as Hlong.
  { unfold tag_keyword. rewrite !slen_app. destruct n as [|c n']; [done|]. simpl. lia. }
  split_and!.
  - apply valid_keyword_spec. split; [change (slen tagKeywordPrefix) with 5%nat in Hlong; lia|]. by apply tag_keyword_bytes.
  - unfold IsTagKeyword. unfold tag_keyword at 1. rewrite HasPrefix_app. by apply Nat.ltb_lt.
  - apply KeywordToTag_parts; try done; apply unescape_escape_tag.
Qed.

Lemma tag_keyword_roundtrip_witness :
  IsValidKeyword "$tag/a~20b~2fc/~7e1" = true /\ IsTagKeyword "$tag/a~20b~2fc/~7e1" = true
  /\ KeywordToTag (H := ascii_runtime) "$tag/a~20b~2fc/~7e1" = Some ("a b/c", "~1").
Proof.
  apply (tag_keyword_roundtrip (H := ascii_runtime) "A b/C" "~1").
  - reflexivity.
  - reflexivity.
  - discriminate.
  - discriminate.
  - reflexivity.
Defined.

(** ** iCalendar TEXT *)

(** Line breaks of any kind read as line feeds. *)
Definition normal_newlines (s : string) : string := replacer_go [(str_of [cr; nl], str_of [nl]); (str_of [cr], str_of [nl])] 0 s.

(** What may stand in the value of a content line: a backslash takes the byte
    after it along. *)
Fixpoint ical_safe (s : string) : bool :=
  match s with
  | EmptyString => true
  | String c s' =>
      negb (Ascii.eqb c cr) && negb (Ascii.eqb c nl)
      && (if Ascii.eqb c backslash
          then match s' with
               | String d rest => negb (Ascii.eqb d cr) && negb (Ascii.eqb d nl) && ical_safe rest
               | EmptyString => false
               end
          else negb (Ascii.eqb c ";") && negb (Ascii.eqb c ",") && ical_safe s')
  end.

(** One step of the escape: what a byte and the rest become. *)
Lemma escape_step c s :
  escapeICalText (String c s)
  = if Ascii.eqb c backslash then esc backslash +:+ escapeICalText s
    else if Ascii.eqb c cr then esc "n" +:+ escapeICalText (TrimPrefix s (str_of [nl]))
    else if Ascii.eqb c nl then esc "n" +:+ escapeICalText s
    else if Ascii.eqb c ";" || Ascii.eqb c "," then esc c +:+ escapeICalText s
    else String c (escapeICalText s).
Proof.
  unfold escapeICalText. cbn [replacer_go List.find ical_pairs fst HasPrefix str_of String.string_of_list_ascii].
  rewrite !(Ascii.eqb_sym _ c), !andb_true_r.
  destruct (Ascii.eqb_spec c backslash) as [->|_]; [done|]. destruct (Ascii.eqb_spec c cr) as [->|_].
  - destruct s as [|b s]; [done|]. unfold TrimPrefix. cbn [HasPrefix]. rewrite andb_true_r.
    by destruct (Ascii.eqb nl b).
  - cbn [andb]. destruct (Ascii.eqb c nl); [done|].
    destruct (Ascii.eqb_spec c ";") as [->|_]; [done|]. by destruct (Ascii.eqb_spec c ",") as [->|_].
Qed.

Lemma normal_step c s :
  normal_newlines (String c s)
  = if Ascii.eqb c cr then String nl (normal_newlines (TrimPrefix s (str_of [nl]))) else String c (normal_newlines s).
Proof.
  unfold normal_newlines. cbn [replacer_go List.find fst HasPrefix str_of String.string_of_list_ascii].
  rewrite !(Ascii.eqb_sym _ c), !andb_true_r. destruct (Ascii.eqb_spec c cr) as [->|_]; [|done].
  destruct s as [|b s]; [done|]. unfold TrimPrefix. cbn [HasPrefix]. rewrite andb_true_r. by destruct (Ascii.eqb nl b).
Qed.

Lemma TrimPrefix_shorter s p : (slen (TrimPrefix s p) <= slen s)%nat.
Proof. unfold TrimPrefix. destruct (HasPrefix s p); [|lia]. rewrite str_drop_length. lia. Qed.

Lemma unescape_esc d t :
  unescapeICalText (esc d +:+ t) = String (if Ascii.eqb d "n" || Ascii.eqb d "N" then nl else d) (unescapeICalText t).
Proof. done. Qed.

Lemma unescape_plain c t : c <> backslash -> unescapeICalText (String c t) = String c (unescapeICalText t).
Proof. intros Hc. destruct t; [done|]. cbn [unescapeICalText]. by rewrite (proj2 (Ascii.eqb_neq _ _) Hc). Qed.

Lemma unescape_escape_ical s : unescapeICalText (escapeICalText s) = normal_newlines s.
Proof.
  induction s as [[|c s] IH] using (induction_ltof1 _ slen); [done|]. unfold ltof in IH. rewrite escape_step, normal_step.
  assert (unescapeICalText (escapeICalText s) = normal_newlines s) as IHs by (apply IH; simpl; lia).
  destruct (Ascii.eqb_spec c backslash) as [->|Hb]; [by rewrite unescape_esc, IHs|].
  destruct (Ascii.eqb_spec c cr) as [->|Hc].
  { rewrite unescape_esc, IH; [done|]. pose proof (TrimPrefix_shorter s (str_of [nl])). simpl in *. lia. }
  destruct (Ascii.eqb_spec c nl) as [->|Hn]; [by rewrite unescape_esc, IHs|].
  destruct (Ascii.eqb_spec c ";") as [->|H1]; [cbn [orb]; by rewrite unescape_esc, IHs|].
  destruct (Ascii.eqb_spec c ",") as [->|H2]; cbn [orb]; [by rewrite unescape_esc, IHs|].
  by rewrite unescape_plain, IHs.
Qed.

Lemma escape_ical_safe s : ical_safe (escapeICalText s) = true.
Proof.
  induction s as [[|c s] IH] using (induction_ltof1 _ slen); [done|]. unfold ltof in IH. rewrite escape_step.
  assert (ical_safe (escapeICalText s) = true) as IHs by (apply IH; simpl; lia).
  destruct (Ascii.eqb_spec c backslash) as [->|Hb]; [exact IHs|].
  destruct (Ascii.eqb_spec c cr) as [->|Hc].
  { apply IH. pose proof (TrimPrefix_shorter s (str_of [nl])). simpl in *. lia. }
  destruct (Ascii.eqb_spec c nl) as [->|Hn]; [exact IHs|].
  destruct (Ascii.eqb_spec c ";") as [->|H1]; [exact IHs|].
  destruct (Ascii.eqb_spec c ",") as [->|H2]; [exact IHs|].
  cbn [orb ical_safe]. rewrite (proj2 (Ascii.eqb_neq c cr) Hc), (proj2 (Ascii.eqb_neq c nl) Hn),
    (proj2 (Ascii.eqb_neq c backslash) Hb), (proj2 (Ascii.eqb_neq c ";") H1), (proj2 (Ascii.eqb_neq c ",") H2). done.
Qed.

Lemma normal_id s : str_forallb (fun c => negb (Ascii.eqb c cr)) s = true -> normal_newlines s = s.
Proof.
  induction s as [|c s IH]; [done|]. intros [Hc%negb_true_iff Hs]%andb_prop. by rewrite normal_step, Hc, IH.
Qed.

(** C39: Text survives iCalendar.  Escaped text contains no line break and no
    bare semicolon or comma, so it cannot end the line or the value it stands
    in, and unescaping gives the text back with its line breaks as line feeds:
    exactly the text when it has no carriage return. *)
Theorem ical_text_roundtrip s :
  ical_safe (escapeICalText s) = true
  /\ unescapeICalText (escapeICalText s) = normal_newlines s
  /\ (str_forallb (fun c => negb (Ascii.eqb c cr)) s = true -> unescapeICalText (escapeICalText s) = s).
Proof.
  split_and!; [apply escape_ical_safe|apply unescape_escape_ical|]. intros Hs. rewrite unescape_escape_ical. by apply normal_id.
Qed.
