(* ===== verification/GoJson.v ===== *)
(** * encoding/json

    How Go reads a JSON value into a typed variable and writes it back: a
    class [Wire] with an instance per Go type, and the combinators of structs.
    [WireOk] is what the two directions promise: a value that is written and
    read back is the value again. *)

From S2P Require Import Prelude GoSort GoStrings Json.
From Stdlib Require Import SpecFloat.

(** ** Types *)

(** [winto] is [json.Unmarshal] into a variable that has a value: a JSON value
    of another type leaves it, and the decoder goes on.  [wempty] is the test
    of [omitempty]. *)
Class Wire (A : Type) : Type := mkWire {
  wzero : A;
  winto : json -> A -> A;
  wjson : A -> json;
  wempty : A -> bool;
}.
Definition unmarshal {A} `{Wire A} (j : json) : A := winto j wzero.

#[export] Instance string_wire : Wire string :=
  mkWire string EmptyString (fun j old => match j with JStr s => s | _ => old end) JStr
    (fun s => String.eqb s EmptyString).
#[export] Instance bool_wire : Wire bool :=
  mkWire bool false (fun j old => match j with JBool b => b | _ => old end) JBool negb.
(** [any] *)
#[export] Instance any_wire : Wire json := mkWire json JNull (fun j _ => j) (fun j => j) is_null.
(** A pointer: null is the nil pointer, any other value is read into what it
    points to, a new variable if there is none. *)
#[export] Instance pointer_wire `{Wire A} : Wire (option A) :=
  mkWire (option A) None
    (fun j old => match j with JNull => None | _ => Some (winto j (default wzero old)) end)
    (fun o => match o with Some x => wjson x | None => JNull end)
    (fun o => match o with Some _ => false | None => true end).
(** A slice: the elements it has are read into. *)
Fixpoint slice_into `{Wire A} (l : list json) (old : list A) : list A :=
  match l with
  | [] => []
  | j :: l' => winto j (default wzero (head old)) :: slice_into l' (tail old)
  end.
#[export] Instance slice_wire `{Wire A} : Wire (list A) :=
  mkWire (list A) []
    (fun j old => match j with JArr l => slice_into l old | JNull => [] | _ => old end)
    (fun l => JArr (map wjson l)) (fun l => match l with [] => true | _ => false end).
(** A map with string keys, every value read into a new variable.  In a member
    with [omitempty] the nil map and the empty map are not distinguished. *)
Definition map_into `{Wire A} (m : obj) (old : gmap string A) : gmap string A :=
  foldl (fun acc kv => <[fst kv := winto (snd kv) wzero]> acc) old m.
Definition map_json `{Wire A} (m : gmap string A) : json :=
  JObj (map (fun kv => (fst kv, wjson (snd kv))) (map_to_list m)).
#[export] Instance map_wire `{Wire A} : Wire (gmap string A) :=
  mkWire (gmap string A) ∅
    (fun j old => match j with JObj m => map_into m old | JNull => ∅ | _ => old end)
    map_json (fun m => bool_decide (m = ∅)).
(** A map whose nil value shows, as null. *)
Definition nil_map (A : Type) : Type := option (gmap string A).
#[global] Typeclasses Opaque nil_map.
#[export] Instance nil_map_wire `{Wire A} : Wire (nil_map A) :=
  mkWire (nil_map A) None
    (fun j old => match j with JObj m => Some (map_into m (default ∅ old)) | JNull => None | _ => old end)
    (fun o => match o with Some m => map_json m | None => JNull end)
    (fun o => match o with Some m => bool_decide (m = ∅) | None => true end).

Section Numbers.
Context `{GoRuntime}.
(** Whether a float64 prints as a JSON number without sign, fraction and
    exponent that is exact; other numbers are read from their text. *)
Definition f64_natural (f : spec_float) : bool :=
  let t := f64_trunc f in
  (0 <=? t) && (t <? 2 ^ 53) && SFeqb f (f64_of_Z t) && match f with S754_zero s => negb s | _ => true end.
Definition json_uint (bits : Z) (f : spec_float) : option Z :=
  if f64_natural f then (if f64_trunc f <? 2 ^ bits then Some (f64_trunc f) else None)
  else s ← rt_json_float f; ParseUint s bits.
Definition uint_wire (bits : Z) : Wire Z :=
  mkWire Z 0 (fun j old => match j with JNum f => default old (json_uint bits f) | _ => old end) jint
    (fun n => n =? 0).
End Numbers.
Definition uint32 : Type := Z.
Definition uint64 : Type := Z.
#[global] Typeclasses Opaque uint32 uint64.
#[export] Instance uint32_wire `{GoRuntime} : Wire uint32 := uint_wire 32.
#[export] Instance uint64_wire `{GoRuntime} : Wire uint64 := uint_wire 64.

(** ** Structs *)

Section Structs.
Context `{GoRuntime}.

(** One member of the JSON object, read into the field [name]. *)
Definition member {A} `{Wire A} (name : string) (kv : string * json) (old : A) : A :=
  if EqualFold (fst kv) name then winto (snd kv) old else old.

(** [json.Marshal] has put the members in the order of their names. *)
Definition sort_members (m : obj) : obj := stable_sort (fun a b => String.ltb (fst a) (fst b)) m.
Definition struct_into {S} (step : S -> string * json -> S) (j : json) (s : S) : S :=
  match j with JObj m => foldl step s (sort_members m) | _ => s end.

(** The fields of a struct: name, whether it is written, value. *)
Definition field : Type := string * bool * json.
Definition req {A} `{Wire A} (name : string) (x : A) : field := (name, true, wjson x).
Definition opt {A} `{Wire A} (name : string) (x : A) : field := (name, negb (wempty x), wjson x).
Definition written (l : list field) : obj :=
  omap (fun f => if (snd (fst f)) : bool then Some (fst (fst f), snd f) else None) l.
Definition struct_json (l : list field) : json := JObj (written l).
Definition struct_wire {S} (zero : S) (step : S -> string * json -> S) (fields : S -> list field) : Wire S :=
  mkWire S zero (struct_into step) (fun s => struct_json (fields s)) (fun _ => false).
End Structs.

(** ** What is read back *)

Class WireOk (A : Type) `{Wire A} : Type := {
  wvalid : A -> Prop;
  wire_back : forall x, wvalid x -> winto (wjson x) wzero = x;
}.
(** Types for which [omitempty] drops the zero value only. *)
Class WireOmit (A : Type) `{Wire A} : Prop := wire_empty : forall x : A, wempty x = true -> x = wzero.
(** Types whose values are never written as null. *)
Class WireSolid (A : Type) `{Wire A} : Prop := wire_solid : forall x : A, wjson x <> JNull.

#[export] Instance string_solid : WireSolid string. Proof. done. Qed.

#[export] Instance string_omit : WireOmit string. Proof. intros x. apply String.eqb_eq. Qed.
#[export] Instance bool_omit : WireOmit bool. Proof. by intros []. Qed.
#[export] Instance any_omit : WireOmit json. Proof. by intros []. Qed.
#[export] Instance pointer_omit `{Wire A} : WireOmit (option A). Proof. by intros []. Qed.
#[export] Instance slice_omit `{Wire A} : WireOmit (list A). Proof. by intros []. Qed.
#[export] Instance map_omit `{Wire A} : WireOmit (gmap string A).
Proof. intros m. simpl. by intros ?%bool_decide_eq_true_1. Qed.

#[export, refine] Instance string_ok : WireOk string := {| wvalid _ := True |}.
Proof. done. Defined.
#[export, refine] Instance bool_ok : WireOk bool := {| wvalid _ := True |}.
Proof. done. Defined.
#[export, refine] Instance any_ok : WireOk json := {| wvalid _ := True |}.
Proof. done. Defined.
#[export, refine] Instance pointer_ok `{WireOk A} `{!WireSolid A} : WireOk (option A) :=
  {| wvalid o := match o with Some x => wvalid x | None => True end |}.
Proof.
  intros [x|]; [|done]. simpl. intros Hx. pose proof (wire_solid x) as Hn. rewrite <- (wire_back x Hx) at 2.
  by destruct (wjson x).
Defined.

Lemma slice_into_back `{WireOk A} (l : list A) : Forall wvalid l -> slice_into (map wjson l) [] = l.
Proof. induction 1; simpl; [done|]. by rewrite wire_back, IHForall. Qed.
#[export, refine] Instance slice_ok `{WireOk A} : WireOk (list A) := {| wvalid := Forall wvalid |}.
Proof. intros l Hl. by apply slice_into_back. Defined.

Lemma map_into_back `{WireOk A} (m : gmap string A) :
  map_Forall (fun _ x => wvalid x) m -> map_into (map (fun kv => (fst kv, wjson (snd kv))) (map_to_list m)) ∅ = m.
Proof.
  intros Hv. unfold map_into. assert (forall l acc, NoDup (l.*1) -> Forall (fun kv => wvalid kv.2) l ->
    foldl (fun (acc : gmap string A) kv => <[fst kv := winto (snd kv) wzero]> acc) acc (map (fun kv => (fst kv, wjson (snd kv))) l)
    = list_to_map l ∪ acc) as Hl.
  { induction l as [|[k x] l IH]; intros acc Hd Hf; simpl; [by rewrite (left_id_L ∅ (∪))|].
    apply NoDup_cons in Hd as [Hk Hd]. apply Forall_cons in Hf as [Hx Hf].
    rewrite wire_back by done. rewrite IH by done. rewrite <- insert_union_r by (by apply not_elem_of_list_to_map).
    by rewrite insert_union_l. }
  rewrite Hl; [|apply NoDup_fst_map_to_list|].
  - by rewrite list_to_map_to_list, (right_id_L ∅ (∪)).
  - apply Forall_forall. intros [k x] Hin. apply elem_of_map_to_list in Hin. by eapply Hv.
Qed.
#[export, refine] Instance map_ok `{WireOk A} : WireOk (gmap string A) := {| wvalid := map_Forall (fun _ x => wvalid x) |}.
Proof. intros m Hm. by apply map_into_back. Defined.
(** Not with [omitempty], which loses an empty map. *)
#[export, refine] Instance nil_map_ok `{WireOk A} : WireOk (nil_map A) :=
  {| wvalid o := match o with Some m => map_Forall (fun _ x => wvalid x) m | None => True end |}.
Proof. intros [m|] Hm; [|done]. simpl. f_equal. by apply map_into_back. Defined.

(** *** Integers in a float64 *)

Lemma digits2_iter p d : Zpos (digits2_pos (Pos.iter xO p d)) = Zpos (digits2_pos p) + Zpos d.
Proof.
  induction d as [|d IH] using Pos.peano_ind; [simpl; lia|].
  rewrite Pos.iter_succ. simpl. lia.
Qed.
Lemma iter_xO p d : Zpos (Pos.iter xO p d) = Zpos p * 2 ^ Zpos d.
Proof.
  induction d as [|d IH] using Pos.peano_ind; [simpl; lia|].
  rewrite Pos.iter_succ. rewrite Pos2Z.inj_succ, Z.pow_succ_r by lia. rewrite (Pos2Z.inj_xO (Pos.iter _ _ _)), IH. lia.
Qed.
Lemma digits2_bound p n : Zpos p < 2 ^ n -> Zpos (digits2_pos p) <= n.
Proof.
  revert n. induction p as [p IH|p IH|]; intros n Hn; simpl.
  1, 2: rewrite Pos2Z.inj_succ; destruct (decide (n <= 0)); [assert (2 ^ n <= 1) by (apply (Z.pow_le_mono_r 2 n 0); lia); lia|];
    assert (Zpos (digits2_pos p) <= n - 1); [|lia]; apply IH;
    replace n with (Z.succ (n - 1)) in Hn by lia; rewrite Z.pow_succ_r in Hn by lia; lia.
  destruct (decide (n <= 0)); [|lia]. assert (2 ^ n <= 1) by (apply (Z.pow_le_mono_r 2 n 0); lia). lia.
Qed.

(** A mantissa of 53 bits is kept as it is. *)
Lemma round_aux_exact m e : Zpos (digits2_pos m) = 53 -> -1074 <= e <= 971 ->
  binary_round_aux 53 1024 false (Zpos m) e loc_Exact = S754_finite false m e.
Proof.
  intros Hd He. unfold binary_round_aux, shr_fexp, fexp, emin. cbn [Zdigits2]. rewrite Hd.
  replace (Z.max (53 + e - 53) (3 - 1024 - 53) - e) with 0 by lia. cbn [shr shr_record_of_loc shr_m loc_of_shr_record round_nearest_even Zdigits2].
  rewrite Hd. replace (Z.max (53 + e - 53) (3 - 1024 - 53) - e) with 0 by lia. cbn [shr shr_m shr_record_of_loc].
  by rewrite (proj2 (Z.leb_le e (1024 - 53))) by lia.
Qed.

(** An integer below 2^53 is represented exactly. *)
Lemma f64_of_nat z : 0 <= z < 2 ^ 53 ->
  f64_of_Z z = S754_zero false
  \/ exists m d, 0 <= d /\ f64_of_Z z = S754_finite false m (- d) /\ Zpos m = z * 2 ^ d.
Proof.
  intros Hz. destruct z as [|p|p]; [by left| |lia]. right.
  pose proof (digits2_bound p 53 (proj2 Hz)) as Hd. unfold f64_of_Z. cbn [binary_normalize]. unfold binary_round, shl_align, fexp, emin.
  rewrite Z.add_0_r. replace (Z.max (Zpos (digits2_pos p) - 53) (3 - 1024 - 53) - 0) with (Zpos (digits2_pos p) - 53) by lia.
  destruct (Zpos (digits2_pos p) - 53) as [|q|q] eqn:E; [|lia|].
  - exists p, 0. split; [lia|]. rewrite round_aux_exact by lia. split; [done|]. change (2 ^ 0) with 1. lia.
  - pose proof (digits2_iter p q) as Hq. exists (Pos.iter xO p q), (Zpos q). split; [lia|].
    replace (Z.max (Zneg q) (3 - 1024 - 53)) with (- Zpos q) by lia. rewrite round_aux_exact by lia. split; [done|].
    apply iter_xO.
Qed.

Lemma f64_nat_trunc z : 0 <= z < 2 ^ 53 -> f64_trunc (f64_of_Z z) = z.
Proof.
  intros Hz. destruct (f64_of_nat z Hz) as [E|(m & d & Hd & -> & Hm)].
  - destruct z as [|p|p]; [done| |lia]. destruct (f64_of_nat (Zpos p) Hz) as [_|(m & d & Hd & E' & _)]; [|congruence].
    unfold f64_of_Z in E. cbn [binary_normalize] in E. exfalso. revert E. unfold binary_round, shl_align, fexp, emin.
    pose proof (digits2_bound p 53 (proj2 Hz)) as Hb. rewrite Z.add_0_r.
    replace (Z.max (Zpos (digits2_pos p) - 53) (3 - 1024 - 53) - 0) with (Zpos (digits2_pos p) - 53) by lia.
    destruct (Zpos (digits2_pos p) - 53) as [|q|q] eqn:Eq; [by rewrite round_aux_exact by lia|lia|].
    pose proof (digits2_iter p q). replace (Z.max (Zneg q) (3 - 1024 - 53)) with (- Zpos q) by lia.
    by rewrite round_aux_exact by lia.
  - unfold f64_trunc. rewrite Hm. destruct (decide (d = 0)) as [->|Hn]; [change (- 0) with 0; simpl; lia|].
    rewrite (proj2 (Z.leb_gt 0 (- d))) by lia. rewrite Z.opp_involutive. apply Z.div_mul. lia.
Qed.

Lemma SFeqb_refl_finite s m e : SFeqb (S754_finite s m e) (S754_finite s m e) = true.
Proof.
  unfold SFeqb, SFcompare. rewrite Z.compare_refl. change (Pos.compare_cont Eq m m) with (Pos.compare m m).
  rewrite Pos.compare_refl. by destruct s.
Qed.
Lemma json_uint_back `{GoRuntime} bits z : 0 <= z < 2 ^ 53 -> z < 2 ^ bits -> json_uint bits (f64_of_Z z) = Some z.
Proof.
  intros Hz Hb. unfold json_uint. assert (f64_natural (f64_of_Z z) = true) as ->.
  { unfold f64_natural. rewrite f64_nat_trunc by done. destruct (f64_of_nat z Hz) as [->|(m & d & _ & -> & _)];
      rewrite ?SFeqb_refl_finite; repeat (apply andb_true_iff; split); try done; bool_props; lia. }
  rewrite f64_nat_trunc by done. by rewrite (proj2 (Z.ltb_lt z (2 ^ bits))).
Qed.
#[export] Instance uint32_omit `{GoRuntime} : WireOmit uint32. Proof. intros z. apply Z.eqb_eq. Qed.
#[export, refine] Instance uint32_ok `{GoRuntime} : WireOk uint32 := {| wvalid z := 0 <= z < 2 ^ 32 |}.
Proof. intros z Hz. unfold winto, wjson, uint32_wire, uint_wire, jint. by rewrite json_uint_back by lia. Defined.
#[export, refine] Instance uint64_ok `{GoRuntime} : WireOk uint64 := {| wvalid z := 0 <= z < 2 ^ 53 |}.
Proof. intros z Hz. unfold winto, wjson, uint64_wire, uint_wire, jint. by rewrite json_uint_back by lia. Defined.

(** *** Structs *)

Section StructFacts.
Context `{GoRuntime}.

(** A field of a struct is what its members are read into. *)
Lemma fold_field {S A} `{Wire A} (step : S -> string * json -> S) (get : S -> A) name :
  (forall s kv, get (step s kv) = member name kv (get s)) ->
  forall l s, get (foldl step s l) = foldl (fun a kv => member name kv a) (get s) l.
Proof. intros Hg l. induction l as [|kv l IH]; intros s; simpl; [done|]. by rewrite IH, Hg. Qed.

Definition name_of (f : field) : string := fst (fst f).
Fixpoint names_apart (l : list field) : bool :=
  match l with
  | [] => true
  | f :: r => forallb (fun g => negb (EqualFold (name_of g) (name_of f)) && negb (EqualFold (name_of f) (name_of g))) r
              && names_apart r
  end.

Lemma sort_members_perm m : sort_members m ≡ₚ m.
Proof.
  unfold sort_members. exact (proj1 (stable_sort_spec (fun a b : string * json => String.compare (fst a) (fst b))
    (lawful_key _ fst lawful_string) m)).
Qed.

(** The members that are read into a field, when it is the only one of its
    name. *)
Lemma written_of_name l f : names_apart l = true -> f ∈ l -> EqualFold (name_of f) (name_of f) = true ->
  List.filter (fun kv => EqualFold (fst kv) (name_of f)) (written l)
  = if snd (fst f) then [(name_of f, snd f)] else [].
Proof.
  assert (forall r g, forallb (fun h => negb (EqualFold (name_of h) g)) r = true ->
    List.filter (fun kv => EqualFold (fst kv) g) (written r) = []) as Hnone.
  { induction r as [|h r IH]; intros g Hg; [done|]. simpl in Hg. apply andb_true_iff in Hg as [Hh Hr]. apply negb_true_iff in Hh.
    unfold written. cbn [omap list_omap]. fold (written r). destruct (snd (fst h)); [|by apply IH].
    simpl. fold (name_of h). rewrite Hh. by apply IH. }
  intros Hn Hin Hself. induction l as [|g l IH]; [by apply not_elem_of_nil in Hin|].
  simpl in Hn. apply andb_true_iff in Hn as [Hg Hl]. apply elem_of_cons in Hin as [->|Hin].
  - unfold written. cbn [omap list_omap]. fold (written l).
    assert (List.filter (fun kv => EqualFold (fst kv) (name_of g)) (written l) = []) as Hr.
    { apply Hnone. apply forallb_forall. intros h Hh. rewrite forallb_forall in Hg. apply Hg in Hh.
      by apply andb_true_iff in Hh as [Hh _]. }
    destruct (snd (fst g)); [|done]. simpl. fold (name_of g). by rewrite Hself, Hr.
  - unfold written. cbn [omap list_omap]. fold (written l). rewrite forallb_forall in Hg.
    apply list_elem_of_In in Hin as Hin'. apply Hg in Hin'. apply andb_true_iff in Hin' as [_ Hf]. apply negb_true_iff in Hf.
    destruct (snd (fst g)); [|by apply IH]. simpl. fold (name_of g). rewrite Hf. by apply IH.
Qed.

Lemma fold_members {A} `{Wire A} name l (z : A) :
  foldl (fun a kv => member name kv a) z l
  = foldl (fun a kv => winto (snd kv) a) z (List.filter (fun kv => EqualFold (fst kv) name) l).
Proof.
  revert z. induction l as [|kv l IH]; intros z; [done|]. simpl. rewrite IH. unfold member.
  by destruct (EqualFold (fst kv) name).
Qed.

Lemma list_filter_perm {A} (p : A -> bool) l l' : l ≡ₚ l' -> List.filter p l ≡ₚ List.filter p l'.
Proof.
  induction 1; simpl; try done; repeat (destruct (p _)); try by constructor.
  all: etransitivity; eauto.
Qed.

(** A written field is read back from the sorted members. *)
Lemma field_back {A} `{Wire A} l name b (x : A) :
  names_apart l = true -> (name, b, wjson x) ∈ l -> EqualFold name name = true ->
  (b = true -> winto (wjson x) wzero = x) -> (b = false -> x = wzero) ->
  foldl (fun a kv => member name kv a) wzero (sort_members (written l)) = x.
Proof.
  intros Hn Hin Hself Hb Hz. rewrite fold_members. pose proof (written_of_name l (name, b, wjson x) Hn Hin Hself) as Hw.
  assert (forall kvs, kvs ≡ₚ (if b then [(name, wjson x)] else []) -> kvs = if b then [(name, wjson x)] else []) as Hp.
  { intros kvs Hk. destruct b; [by apply Permutation_singleton_r in Hk|by apply Permutation_nil_r in Hk]. }
  rewrite (Hp (List.filter _ _)).
  - destruct b; simpl; [by apply Hb|by rewrite (Hz eq_refl)].
  - cbn [name_of fst snd] in Hw. rewrite <- Hw. apply list_filter_perm. apply sort_members_perm.
Qed.
Lemma req_back {A} `{WireOk A} l name (x : A) :
  names_apart l = true -> req name x ∈ l -> EqualFold name name = true -> wvalid x ->
  foldl (fun a kv => member name kv a) wzero (sort_members (written l)) = x.
Proof. intros. eapply field_back; [done..| |done]. intros _. by apply wire_back. Qed.
Lemma opt_back {A} `{WireOk A} `{!WireOmit A} l name (x : A) :
  names_apart l = true -> opt name x ∈ l -> EqualFold name name = true -> wvalid x ->
  foldl (fun a kv => member name kv a) wzero (sort_members (written l)) = x.
Proof.
  intros. eapply field_back; [done..| |].
  - intros _. by apply wire_back.
  - intros Hb. apply wire_empty. by destruct (wempty x).
Qed.
#[export] Instance struct_solid {S} (zero : S) step fields : WireSolid (H := struct_wire zero step fields) S.
Proof. done. Qed.
End StructFacts.

(** Types without numbers: every value is read back. *)
Class WireAlways (A : Type) `{WireOk A} : Prop := wire_always : forall x : A, wvalid x.
#[export] Instance string_always : WireAlways string. Proof. done. Qed.
#[export] Instance bool_always : WireAlways bool. Proof. done. Qed.
#[export] Instance any_always : WireAlways json. Proof. done. Qed.
#[export] Instance pointer_always `{WireOk A} `{!WireSolid A} `{!WireAlways A} : WireAlways (option A).
Proof. intros [x|]; [apply (wire_always x)|done]. Qed.
#[export] Instance slice_always `{WireOk A} `{!WireAlways A} : WireAlways (list A).
Proof. intros l. apply Forall_forall. intros x _. apply wire_always. Qed.
#[export] Instance map_always `{WireOk A} `{!WireAlways A} : WireAlways (gmap string A).
Proof. intros m k x _. apply wire_always. Qed.
#[export] Instance nil_map_always `{WireOk A} `{!WireAlways A} : WireAlways (nil_map A).
Proof. intros [m|]; [|done]. intros k x _. apply wire_always. Qed.

(** The fields of a struct that is written and read back; what is assumed of
    its numbers is the hypothesis [Hx]. *)
Ltac struct_back read zero fields x Hx :=
  change (winto (wjson x) wzero) with (foldl read zero (sort_members (written (fields x))));
  etransitivity; [eapply fold_field; intros; reflexivity|];
  let there := (unfold fields; repeat first [apply list_elem_of_here | apply list_elem_of_further]) in
  let valid := first [apply wire_always | tauto] in
  first [solve [eapply req_back; [vm_compute; reflexivity|there|vm_compute; reflexivity|valid]]
        |solve [eapply opt_back; [vm_compute; reflexivity|there|vm_compute; reflexivity|valid]]].
