(* ===== verification/CalendarTypes.v ===== *)
(** * Calendars and events

    The types of [jmap/jmapcalendar/types.go] with the JSON form that their
    struct tags give them, as in [CardTypes].  Three types have a decoder of
    their own: a day of a recurrence rule, an alert and a participant.  Where
    such a decoder fails, decoding stops: what comes later in the text, whose
    members are in the order of their names, is not read.  [Fits] says whether
    a value is read without an error, [Aborts] whether reading it stops. *)

From S2P Require Import Prelude GoSort GoStrings Json GoJson.
From Stdlib Require Import SpecFloat.

(** ** Decoders that fail *)

Definition int64 : Type := Z.
#[global] Typeclasses Opaque int64.
Class Fits (A : Type) : Type := fits : json -> bool.
Class Aborts (A : Type) : Type := aborts : json -> bool.
(** The entry of a map that Go visits first. *)
Class FirstKey := { first_key : gmap string bool -> string }.

Section Decoders.
Context `{GoRuntime}.

Definition json_int (f : spec_float) : option Z :=
  if f64_natural f then Some (f64_trunc f)
  else if f64_natural (SFopp f) then Some (- f64_trunc (SFopp f))
  else s ← rt_json_float f; Atoi s.
#[export] Instance int64_wire : Wire int64 :=
  mkWire int64 0 (fun j old => match j with JNum f => default old (json_int f) | _ => old end) jint (fun n => n =? 0).

Definition fits_or_null (p : json -> bool) (j : json) : bool := match j with JNull => true | _ => p j end.
#[export] Instance string_fits : Fits string := fits_or_null (fun j => match j with JStr _ => true | _ => false end).
#[export] Instance bool_fits : Fits bool := fits_or_null (fun j => match j with JBool _ => true | _ => false end).
#[export] Instance uint64_fits : Fits uint64 :=
  fits_or_null (fun j => match j with JNum f => bool_decide (is_Some (json_uint 64 f)) | _ => false end).
#[export] Instance int64_fits : Fits int64 :=
  fits_or_null (fun j => match j with JNum f => bool_decide (is_Some (json_int f)) | _ => false end).
#[export] Instance pointer_fits `{Fits A} : Fits (option A) := fits_or_null (fits (A := A)).
#[export] Instance map_fits `{Fits A} : Fits (gmap string A) :=
  fits_or_null (fun j => match j with JObj m => forallb (fun kv => fits (A := A) (snd kv)) m | _ => false end).
#[export] Instance nil_map_fits `{Fits A} : Fits (nil_map A) := map_fits.
Definition fits_struct (l : list (string * (json -> bool))) : json -> bool :=
  fits_or_null (fun j => match j with
                         | JObj m => forallb (fun kv => forallb (fun f => negb (EqualFold (fst kv) (fst f)) || snd f (snd kv)) l) m
                         | _ => false
                         end).

(** Pointers, slices and maps of a type whose decoder can fail: a null pointer
    is read without it; a slice keeps the element that failed, a map does not. *)
#[export] Instance pointer_aborts `{Aborts A} : Aborts (option A) := fun j => match j with JNull => false | _ => aborts (A := A) j end.
Fixpoint through_abort {B} (p : B -> bool) (l : list B) : list B :=
  match l with [] => [] | x :: l' => if p x then [x] else x :: through_abort p l' end.
Fixpoint until_abort {B} (p : B -> bool) (l : list B) : list B :=
  match l with [] => [] | x :: l' => if p x then [] else x :: until_abort p l' end.
#[export] Instance scan_slice_wire `{Wire A} `{Aborts A} : Wire (list (option A)) | 0 :=
  mkWire (list (option A)) []
    (fun j old => match j with JArr l => slice_into (through_abort (aborts (A := option A)) l) old | JNull => [] | _ => old end)
    (fun l => JArr (map wjson l)) (fun l => match l with [] => true | _ => false end).
#[export] Instance slice_aborts `{Aborts A} : Aborts (list (option A)) :=
  fun j => match j with JArr l => existsb (aborts (A := option A)) l | _ => false end.
#[export] Instance scan_map_wire `{Wire A} `{Aborts A} : Wire (gmap string (option A)) | 0 :=
  mkWire (gmap string (option A)) ∅
    (fun j old => match j with
                  | JObj m => map_into (until_abort (fun kv => aborts (A := option A) (snd kv)) (sort_members m)) old
                  | JNull => ∅
                  | _ => old
                  end)
    map_json (fun m => bool_decide (m = ∅)).
#[export] Instance map_aborts `{Aborts A} : Aborts (gmap string (option A)) :=
  fun j => match j with JObj m => existsb (fun kv => aborts (A := option A) (snd kv)) m | _ => false end.

(** A struct with such fields: the member that fails is the last one read. *)
Definition stops (l : list (string * (json -> bool))) (kv : string * json) : bool :=
  existsb (fun f => EqualFold (fst kv) (fst f) && snd f (snd kv)) l.
Definition scan_struct {S} (step : S -> string * json -> S) (l : list (string * (json -> bool))) (j : json) (s : S) : S :=
  match j with JObj m => foldl step s (through_abort (stops l) (sort_members m)) | _ => s end.
Definition scan_wire {S} (zero : S) (step : S -> string * json -> S) (fields : S -> list field) (l : list (string * (json -> bool))) : Wire S :=
  mkWire S zero (scan_struct step l) (fun s => struct_json (fields s)) (fun _ => false).
Definition scan_aborts (l : list (string * (json -> bool))) (j : json) : bool :=
  match j with JObj m => existsb (stops l) m | _ => false end.
End Decoders.

(** ** The types *)

Section Types.
Context `{GoRuntime} `{FirstKey}.

Record CalendarRights : Type := mkCalRights {
 kr_MayReadFreeBusy : bool; kr_MayReadItems : bool; kr_MayWriteAll : bool; kr_MayWriteOwn : bool; kr_MayUpdatePrivate : bool;
  kr_MayRSVP : bool; kr_MayDelete : bool; kr_MayShare : bool;
}.
Definition zero_kr : CalendarRights := mkCalRights wzero wzero wzero wzero wzero wzero wzero wzero.
Definition read_kr (x : CalendarRights) (kv : string * json) : CalendarRights :=
  mkCalRights (member "mayReadFreeBusy" kv (kr_MayReadFreeBusy x)) (member "mayReadItems" kv (kr_MayReadItems x))
    (member "mayWriteAll" kv (kr_MayWriteAll x)) (member "mayWriteOwn" kv (kr_MayWriteOwn x))
    (member "mayUpdatePrivate" kv (kr_MayUpdatePrivate x)) (member "mayRSVP" kv (kr_MayRSVP x)) (member "mayDelete" kv (kr_MayDelete x))
    (member "mayShare" kv (kr_MayShare x)).
Definition fields_kr (x : CalendarRights) : list field :=
  [req "mayReadFreeBusy" (kr_MayReadFreeBusy x); req "mayReadItems" (kr_MayReadItems x); req "mayWriteAll" (kr_MayWriteAll x);
   req "mayWriteOwn" (kr_MayWriteOwn x); req "mayUpdatePrivate" (kr_MayUpdatePrivate x); req "mayRSVP" (kr_MayRSVP x);
   req "mayDelete" (kr_MayDelete x); req "mayShare" (kr_MayShare x)].
#[export] Instance wire_kr : Wire CalendarRights := struct_wire zero_kr read_kr fields_kr.
Definition FullCalendarRights : CalendarRights := mkCalRights true true true true true true true true.
Definition EnforceInvariants (r : CalendarRights) : CalendarRights :=
  if kr_MayWriteAll r
  then mkCalRights (kr_MayReadFreeBusy r) (kr_MayReadItems r) true true true true (kr_MayDelete r) (kr_MayShare r)
  else r.

Record JSCalendarRelation : Type := mkRelation {
 jr_Relation : gmap string bool;
}.
Definition zero_jr : JSCalendarRelation := mkRelation wzero.
Definition read_jr (x : JSCalendarRelation) (kv : string * json) : JSCalendarRelation :=
  mkRelation (member "relation" kv (jr_Relation x)).
Definition fields_jr (x : JSCalendarRelation) : list field :=
  [opt "relation" (jr_Relation x)].
#[export] Instance wire_jr : Wire JSCalendarRelation := struct_wire zero_jr read_jr fields_jr.
#[export] Instance fits_jr : Fits JSCalendarRelation := fits_struct
  [("relation", fits (A := gmap string bool))].

Record JSCalendarLink : Type := mkLink {
 jl_Type : string; jl_Href : string; jl_Cid : string; jl_Rel : string; jl_ContentType : string; jl_Size : uint64; jl_Display : string;
  jl_Title : string;
}.
Definition zero_jl : JSCalendarLink := mkLink wzero wzero wzero wzero wzero wzero wzero wzero.
Definition read_jl (x : JSCalendarLink) (kv : string * json) : JSCalendarLink :=
  mkLink (member "@type" kv (jl_Type x)) (member "href" kv (jl_Href x)) (member "cid" kv (jl_Cid x)) (member "rel" kv (jl_Rel x))
    (member "contentType" kv (jl_ContentType x)) (member "size" kv (jl_Size x)) (member "display" kv (jl_Display x))
    (member "title" kv (jl_Title x)).
Definition fields_jl (x : JSCalendarLink) : list field :=
  [opt "@type" (jl_Type x); req "href" (jl_Href x); opt "cid" (jl_Cid x); opt "rel" (jl_Rel x); opt "contentType" (jl_ContentType x);
   opt "size" (jl_Size x); opt "display" (jl_Display x); opt "title" (jl_Title x)].
#[export] Instance wire_jl : Wire JSCalendarLink := struct_wire zero_jl read_jl fields_jl.
#[export] Instance fits_jl : Fits JSCalendarLink := fits_struct
  [("@type", fits (A := string)); ("href", fits (A := string)); ("cid", fits (A := string)); ("rel", fits (A := string));
   ("contentType", fits (A := string)); ("size", fits (A := uint64)); ("display", fits (A := string)); ("title", fits (A := string))].

Record NDay : Type := mkNDay {
 nd_Day : string; nd_Nth : int64;
}.
Definition zero_nd : NDay := mkNDay wzero wzero.
Definition read_nd (x : NDay) (kv : string * json) : NDay :=
  mkNDay (member "day" kv (nd_Day x)) (member "nth" kv (nd_Nth x)).
Definition fields_nd (x : NDay) : list field :=
  [req "day" (nd_Day x); opt "nth" (nd_Nth x)].
Definition fits_nd : list (string * (json -> bool)) :=
  [("day", fits (A := string)); ("nth", fits (A := int64))].
Definition wire_into_nd (j : json) (old : NDay) : NDay :=
  match j with
  | JStr s => mkNDay s (nd_Nth old)
  | JNull => mkNDay EmptyString (nd_Nth old)
  | _ => if fits_struct fits_nd j then struct_into read_nd j zero_nd else old
  end.
#[export] Instance wire_nd : Wire NDay := mkWire NDay zero_nd wire_into_nd (fun x => struct_json (fields_nd x)) (fun _ => false).
#[export] Instance aborts_nd : Aborts NDay := fun j => match j with JStr _ => false | _ => negb (fits_struct fits_nd j) end.

Record JSCalendarAlert : Type := mkAlert {
 al_Type : string; al_Trigger : json; al_Action : string; al_Description : string; al_Acknowledged : string;
  al_RelatedTo : gmap string (option JSCalendarRelation);
}.
Definition zero_al : JSCalendarAlert := mkAlert wzero wzero wzero wzero wzero wzero.
Definition read_al (x : JSCalendarAlert) (kv : string * json) : JSCalendarAlert :=
  mkAlert (member "@type" kv (al_Type x)) (al_Trigger x) (member "action" kv (al_Action x)) (member "description" kv (al_Description x))
    (member "acknowledged" kv (al_Acknowledged x)) (member "relatedTo" kv (al_RelatedTo x)).
Definition fields_al (x : JSCalendarAlert) : list field :=
  [opt "@type" (al_Type x); req "trigger" (al_Trigger x); opt "action" (al_Action x); opt "description" (al_Description x);
   opt "acknowledged" (al_Acknowledged x); opt "relatedTo" (al_RelatedTo x)].
Definition fits_al : list (string * (json -> bool)) :=
  [("@type", fits (A := string)); ("action", fits (A := string)); ("description", fits (A := string));
   ("acknowledged", fits (A := string)); ("relatedTo", fits (A := gmap string (option JSCalendarRelation)))].
(** The trigger is kept as JSON; a text is an offset, and so is null. *)
Definition raw_trigger (j : json) : option json :=
  match j with
  | JObj m => foldl (fun acc kv => if EqualFold (fst kv) "trigger" then Some (snd kv) else acc) None (sort_members m)
  | _ => None
  end.
Definition offset_trigger (offset : string) : json := JObj [("@type", JStr "OffsetTrigger"); ("offset", JStr offset)].
Definition trigger_of (raw : option json) : json :=
  match raw with
  | Some (JStr s) => offset_trigger s
  | Some JNull => offset_trigger EmptyString
  | Some (JObj m) => JObj m
  | _ => JNull
  end.
Definition alert_type (t : string) : string := if String.eqb t EmptyString then "Alert" else t.
Definition wire_into_al (j : json) (old : JSCalendarAlert) : JSCalendarAlert :=
  if fits_struct fits_al j
  then
    let raw := struct_into read_al j zero_al in
    mkAlert (alert_type (al_Type raw)) (trigger_of (raw_trigger j)) (al_Action raw) (al_Description raw) (al_Acknowledged raw) (al_RelatedTo raw)
  else old.
#[export] Instance wire_al : Wire JSCalendarAlert := mkWire JSCalendarAlert zero_al wire_into_al (fun x => struct_json (fields_al x)) (fun _ => false).
#[export] Instance aborts_al : Aborts JSCalendarAlert := fun j => negb (fits_struct fits_al j).

Record JSCalendarParticipant : Type := mkParticipant {
 pa_Type : string; pa_Name : string; pa_Email : string; pa_CalendarAddress : string; pa_Role : string; pa_Roles : nil_map bool;
  pa_Status : string; pa_ParticipationStatus : string; pa_Kind : string; pa_ExpectReply : bool; pa_SendTo : gmap string string;
  pa_DelegatedTo : gmap string bool; pa_DelegatedFrom : gmap string bool; pa_MemberOf : gmap string bool; pa_ScheduleAgent : string;
  pa_ScheduleStatus : string; pa_InvitedBy : string; pa_Links : gmap string (option JSCalendarLink); pa_Language : string;
  pa_LocationID : string;
}.
Definition zero_pa : JSCalendarParticipant := mkParticipant wzero wzero wzero wzero wzero wzero wzero wzero wzero wzero wzero wzero wzero
  wzero wzero wzero wzero wzero wzero wzero.
Definition read_pa (x : JSCalendarParticipant) (kv : string * json) : JSCalendarParticipant :=
  mkParticipant (member "@type" kv (pa_Type x)) (member "name" kv (pa_Name x)) (member "email" kv (pa_Email x))
    (member "calendarAddress" kv (pa_CalendarAddress x)) (member "role" kv (pa_Role x)) (member "roles" kv (pa_Roles x))
    (member "status" kv (pa_Status x)) (member "participationStatus" kv (pa_ParticipationStatus x)) (member "kind" kv (pa_Kind x))
    (member "expectReply" kv (pa_ExpectReply x)) (member "sendTo" kv (pa_SendTo x)) (member "delegatedTo" kv (pa_DelegatedTo x))
    (member "delegatedFrom" kv (pa_DelegatedFrom x)) (member "memberOf" kv (pa_MemberOf x))
    (member "scheduleAgent" kv (pa_ScheduleAgent x)) (member "scheduleStatus" kv (pa_ScheduleStatus x))
    (member "invitedBy" kv (pa_InvitedBy x)) (member "links" kv (pa_Links x)) (member "language" kv (pa_Language x))
    (member "locationId" kv (pa_LocationID x)).
Definition fields_pa (x : JSCalendarParticipant) : list field :=
  [opt "@type" (pa_Type x); opt "name" (pa_Name x); opt "email" (pa_Email x); opt "calendarAddress" (pa_CalendarAddress x);
   opt "role" (pa_Role x); opt "roles" (pa_Roles x); opt "status" (pa_Status x); opt "participationStatus" (pa_ParticipationStatus x);
   opt "kind" (pa_Kind x); opt "expectReply" (pa_ExpectReply x); opt "sendTo" (pa_SendTo x); opt "delegatedTo" (pa_DelegatedTo x);
   opt "delegatedFrom" (pa_DelegatedFrom x); opt "memberOf" (pa_MemberOf x); opt "scheduleAgent" (pa_ScheduleAgent x);
   opt "scheduleStatus" (pa_ScheduleStatus x); opt "invitedBy" (pa_InvitedBy x); opt "links" (pa_Links x); opt "language" (pa_Language x);
   opt "locationId" (pa_LocationID x)].
Definition fits_pa : list (string * (json -> bool)) :=
  [("@type", fits (A := string)); ("name", fits (A := string)); ("email", fits (A := string)); ("calendarAddress", fits (A := string));
   ("role", fits (A := string)); ("roles", fits (A := nil_map bool)); ("status", fits (A := string));
   ("participationStatus", fits (A := string)); ("kind", fits (A := string)); ("expectReply", fits (A := bool));
   ("sendTo", fits (A := gmap string string)); ("delegatedTo", fits (A := gmap string bool));
   ("delegatedFrom", fits (A := gmap string bool)); ("memberOf", fits (A := gmap string bool)); ("scheduleAgent", fits (A := string));
   ("scheduleStatus", fits (A := string)); ("invitedBy", fits (A := string)); ("links", fits (A := gmap string (option JSCalendarLink)));
   ("language", fits (A := string)); ("locationId", fits (A := string))].
(** The addresses, roles and states that are given in one of two forms. *)
Definition given_or (v d : string) : string := if String.eqb v EmptyString then d else v.
Definition normal_participant (p : JSCalendarParticipant) : JSCalendarParticipant :=
  let address := if String.eqb (pa_CalendarAddress p) EmptyString && negb (String.eqb (pa_Email p) EmptyString)
                 then "mailto:" +:+ pa_Email p else pa_CalendarAddress p in
  let email := if String.eqb (pa_Email p) EmptyString && HasPrefix address "mailto:" then TrimPrefix address "mailto:" else pa_Email p in
  let roles := match pa_Roles p with
               | None => if String.eqb (pa_Role p) EmptyString then None else Some {[pa_Role p := true]}
               | r => r
               end in
  let role := if String.eqb (pa_Role p) EmptyString
              then match roles with Some m => if bool_decide (m = ∅) then EmptyString else first_key m | None => EmptyString end
              else pa_Role p in
  let partStatus := given_or (pa_ParticipationStatus p) (pa_Status p) in
  let status := given_or (pa_Status p) partStatus in
  mkParticipant (given_or (pa_Type p) "Participant") (pa_Name p) email address role roles status partStatus (pa_Kind p) (pa_ExpectReply p)
    (pa_SendTo p) (pa_DelegatedTo p) (pa_DelegatedFrom p) (pa_MemberOf p) (pa_ScheduleAgent p) (pa_ScheduleStatus p) (pa_InvitedBy p)
    (pa_Links p) (pa_Language p) (pa_LocationID p).
Definition wire_into_pa (j : json) (old : JSCalendarParticipant) : JSCalendarParticipant :=
  if fits_struct fits_pa j then normal_participant (struct_into read_pa j zero_pa) else old.
#[export] Instance wire_pa : Wire JSCalendarParticipant :=
  mkWire JSCalendarParticipant zero_pa wire_into_pa (fun x => struct_json (fields_pa x)) (fun _ => false).
#[export] Instance aborts_pa : Aborts JSCalendarParticipant := fun j => negb (fits_struct fits_pa j).

Record Calendar : Type := mkCalendar {
 kl_ID : string; kl_Name : string; kl_Description : option string; kl_Color : option string; kl_SortOrder : uint64; kl_IsDefault : bool;
  kl_IsVisible : bool; kl_IsSubscribed : bool; kl_IncludeInAvailability : string;
  kl_DefaultAlertsWithTime : gmap string (option JSCalendarAlert); kl_DefaultAlertsWithoutTime : gmap string (option JSCalendarAlert);
  kl_TimeZone : string; kl_ShareWith : nil_map (option CalendarRights); kl_MyRights : CalendarRights;
}.
Definition zero_kl : Calendar := mkCalendar wzero wzero wzero wzero wzero wzero wzero wzero wzero wzero wzero wzero wzero wzero.
Definition read_kl (x : Calendar) (kv : string * json) : Calendar :=
  mkCalendar (member "id" kv (kl_ID x)) (member "name" kv (kl_Name x)) (member "description" kv (kl_Description x))
    (member "color" kv (kl_Color x)) (member "sortOrder" kv (kl_SortOrder x)) (member "isDefault" kv (kl_IsDefault x))
    (member "isVisible" kv (kl_IsVisible x)) (member "isSubscribed" kv (kl_IsSubscribed x))
    (member "includeInAvailability" kv (kl_IncludeInAvailability x)) (member "defaultAlertsWithTime" kv (kl_DefaultAlertsWithTime x))
    (member "defaultAlertsWithoutTime" kv (kl_DefaultAlertsWithoutTime x)) (member "timeZone" kv (kl_TimeZone x))
    (member "shareWith" kv (kl_ShareWith x)) (member "myRights" kv (kl_MyRights x)).
Definition fields_kl (x : Calendar) : list field :=
  [req "id" (kl_ID x); req "name" (kl_Name x); opt "description" (kl_Description x); opt "color" (kl_Color x);
   req "sortOrder" (kl_SortOrder x); req "isDefault" (kl_IsDefault x); req "isVisible" (kl_IsVisible x);
   req "isSubscribed" (kl_IsSubscribed x); opt "includeInAvailability" (kl_IncludeInAvailability x);
   opt "defaultAlertsWithTime" (kl_DefaultAlertsWithTime x); opt "defaultAlertsWithoutTime" (kl_DefaultAlertsWithoutTime x);
   opt "timeZone" (kl_TimeZone x); req "shareWith" (kl_ShareWith x); req "myRights" (kl_MyRights x)].
Definition aborts_kl : list (string * (json -> bool)) :=
  [("defaultAlertsWithTime", aborts (A := gmap string (option JSCalendarAlert)));
   ("defaultAlertsWithoutTime", aborts (A := gmap string (option JSCalendarAlert)))].
#[export] Instance wire_kl : Wire Calendar := scan_wire zero_kl read_kl fields_kl aborts_kl.
#[export] Instance aborts_in_kl : Aborts Calendar := scan_aborts aborts_kl.

Record JSCalendarLocation : Type := mkLocation {
 lo_Type : string; lo_Name : string; lo_Description : string; lo_Rel : string; lo_TimeZone : string; lo_LocationTypes : gmap string bool;
  lo_RelativeTo : string; lo_Coordinates : string; lo_Links : gmap string (option JSCalendarLink);
}.
Definition zero_lo : JSCalendarLocation := mkLocation wzero wzero wzero wzero wzero wzero wzero wzero wzero.
Definition read_lo (x : JSCalendarLocation) (kv : string * json) : JSCalendarLocation :=
  mkLocation (member "@type" kv (lo_Type x)) (member "name" kv (lo_Name x)) (member "description" kv (lo_Description x))
    (member "rel" kv (lo_Rel x)) (member "timeZone" kv (lo_TimeZone x)) (member "locationTypes" kv (lo_LocationTypes x))
    (member "relativeTo" kv (lo_RelativeTo x)) (member "coordinates" kv (lo_Coordinates x)) (member "links" kv (lo_Links x)).
Definition fields_lo (x : JSCalendarLocation) : list field :=
  [opt "@type" (lo_Type x); opt "name" (lo_Name x); opt "description" (lo_Description x); opt "rel" (lo_Rel x);
   opt "timeZone" (lo_TimeZone x); opt "locationTypes" (lo_LocationTypes x); opt "relativeTo" (lo_RelativeTo x);
   opt "coordinates" (lo_Coordinates x); opt "links" (lo_Links x)].
#[export] Instance wire_lo : Wire JSCalendarLocation := struct_wire zero_lo read_lo fields_lo.

Record JSCalendarVirtualLocation : Type := mkVirtual {
 vl_Type : string; vl_URI : string; vl_Name : string; vl_Description : string; vl_Features : gmap string bool;
}.
Definition zero_vl : JSCalendarVirtualLocation := mkVirtual wzero wzero wzero wzero wzero.
Definition read_vl (x : JSCalendarVirtualLocation) (kv : string * json) : JSCalendarVirtualLocation :=
  mkVirtual (member "@type" kv (vl_Type x)) (member "uri" kv (vl_URI x)) (member "name" kv (vl_Name x))
    (member "description" kv (vl_Description x)) (member "features" kv (vl_Features x)).
Definition fields_vl (x : JSCalendarVirtualLocation) : list field :=
  [opt "@type" (vl_Type x); req "uri" (vl_URI x); opt "name" (vl_Name x); opt "description" (vl_Description x);
   opt "features" (vl_Features x)].
#[export] Instance wire_vl : Wire JSCalendarVirtualLocation := struct_wire zero_vl read_vl fields_vl.

Record JSCalendarTimeZone : Type := mkEventZone {
 tz_TZID : string;
}.
Definition zero_tz : JSCalendarTimeZone := mkEventZone wzero.
Definition read_tz (x : JSCalendarTimeZone) (kv : string * json) : JSCalendarTimeZone :=
  mkEventZone (member "tzId" kv (tz_TZID x)).
Definition fields_tz (x : JSCalendarTimeZone) : list field :=
  [opt "tzId" (tz_TZID x)].
#[export] Instance wire_tz : Wire JSCalendarTimeZone := struct_wire zero_tz read_tz fields_tz.

Record JSCalendarRecurrenceRule : Type := mkRule {
 rr_Type : string; rr_Frequency : string; rr_Interval : uint64; rr_RScale : string; rr_Skip : string; rr_FirstDayOfWeek : string;
  rr_Until : string; rr_Count : uint64; rr_ByDay : list (option NDay); rr_ByMonthDay : list int64; rr_ByMonth : list string;
  rr_ByYearDay : list int64; rr_ByWeekNo : list int64; rr_ByHour : list uint32; rr_ByMinute : list uint32; rr_BySecond : list uint32;
  rr_BySetPosition : list int64;
}.
Definition zero_rr : JSCalendarRecurrenceRule := mkRule wzero wzero wzero wzero wzero wzero wzero wzero wzero wzero wzero wzero wzero
  wzero wzero wzero wzero.
Definition read_rr (x : JSCalendarRecurrenceRule) (kv : string * json) : JSCalendarRecurrenceRule :=
  mkRule (member "@type" kv (rr_Type x)) (member "frequency" kv (rr_Frequency x)) (member "interval" kv (rr_Interval x))
    (member "rscale" kv (rr_RScale x)) (member "skip" kv (rr_Skip x)) (member "firstDayOfWeek" kv (rr_FirstDayOfWeek x))
    (member "until" kv (rr_Until x)) (member "count" kv (rr_Count x)) (member "byDay" kv (rr_ByDay x))
    (member "byMonthDay" kv (rr_ByMonthDay x)) (member "byMonth" kv (rr_ByMonth x)) (member "byYearDay" kv (rr_ByYearDay x))
    (member "byWeekNo" kv (rr_ByWeekNo x)) (member "byHour" kv (rr_ByHour x)) (member "byMinute" kv (rr_ByMinute x))
    (member "bySecond" kv (rr_BySecond x)) (member "bySetPosition" kv (rr_BySetPosition x)).
Definition fields_rr (x : JSCalendarRecurrenceRule) : list field :=
  [opt "@type" (rr_Type x); req "frequency" (rr_Frequency x); opt "interval" (rr_Interval x); opt "rscale" (rr_RScale x);
   opt "skip" (rr_Skip x); opt "firstDayOfWeek" (rr_FirstDayOfWeek x); opt "until" (rr_Until x); opt "count" (rr_Count x);
   opt "byDay" (rr_ByDay x); opt "byMonthDay" (rr_ByMonthDay x); opt "byMonth" (rr_ByMonth x); opt "byYearDay" (rr_ByYearDay x);
   opt "byWeekNo" (rr_ByWeekNo x); opt "byHour" (rr_ByHour x); opt "byMinute" (rr_ByMinute x); opt "bySecond" (rr_BySecond x);
   opt "bySetPosition" (rr_BySetPosition x)].
Definition aborts_rr : list (string * (json -> bool)) :=
  [("byDay", aborts (A := list (option NDay)))].
#[export] Instance wire_rr : Wire JSCalendarRecurrenceRule := scan_wire zero_rr read_rr fields_rr aborts_rr.
#[export] Instance aborts_in_rr : Aborts JSCalendarRecurrenceRule := scan_aborts aborts_rr.

Record CalendarEvent : Type := mkEvent {
 ev_ID : string; ev_BaseEventID : option string; ev_CalendarIDs : nil_map bool; ev_Type : string; ev_Title : string;
  ev_Description : string; ev_DescriptionContentType : string; ev_ShowWithoutTime : bool; ev_Start : string; ev_UTCStart : string;
  ev_UTCEnd : string; ev_Duration : string; ev_TimeZone : string; ev_Locations : gmap string (option JSCalendarLocation);
  ev_VirtualLocations : gmap string (option JSCalendarVirtualLocation); ev_Links : gmap string (option JSCalendarLink);
  ev_Locale : string; ev_Categories : gmap string bool; ev_Color : string; ev_Status : string; ev_FreeBusyStatus : string;
  ev_Privacy : string; ev_HideAttendees : bool; ev_Priority : uint32; ev_ReplyTo : gmap string string; ev_SentBy : string;
  ev_RequestStatus : string; ev_UseDefaultAlerts : bool; ev_Localizations : gmap string (nil_map json);
  ev_TimeZones : gmap string (option JSCalendarTimeZone); ev_Participants : gmap string (option JSCalendarParticipant);
  ev_OrganizerCalendarAddress : string; ev_MayInviteSelf : bool; ev_MayInviteOthers : bool;
  ev_RecurrenceRule : option JSCalendarRecurrenceRule; ev_RecurrenceRules : list (option JSCalendarRecurrenceRule);
  ev_RecurrenceID : string; ev_RecurrenceIDTimeZone : string; ev_ExcludedRecurrenceRule : option JSCalendarRecurrenceRule;
  ev_ExcludedRecurrenceRules : list (option JSCalendarRecurrenceRule); ev_RecurrenceOverrides : gmap string (nil_map json);
  ev_Excluded : gmap string bool; ev_Alerts : gmap string (option JSCalendarAlert);
  ev_RelatedTo : gmap string (option JSCalendarRelation); ev_ProdID : string; ev_Sequence : uint32; ev_Method : string; ev_Due : string;
  ev_EstimatedDuration : string; ev_PercentComplete : uint32; ev_Progress : string; ev_ProgressUpdated : string;
  ev_Entries : gmap string (nil_map json); ev_Source : string; ev_Created : string; ev_Updated : string; ev_UID : string;
  ev_Keywords : gmap string bool; ev_IsDraft : bool; ev_IsOrigin : bool;
}.
Definition zero_ev : CalendarEvent := mkEvent wzero wzero wzero wzero wzero wzero wzero wzero wzero wzero wzero wzero wzero wzero wzero
  wzero wzero wzero wzero wzero wzero wzero wzero wzero wzero wzero wzero wzero wzero wzero wzero wzero wzero wzero wzero wzero wzero
  wzero wzero wzero wzero wzero wzero wzero wzero wzero wzero wzero wzero wzero wzero wzero wzero wzero wzero wzero wzero wzero wzero
  wzero.
Definition read_ev (x : CalendarEvent) (kv : string * json) : CalendarEvent :=
  mkEvent (member "id" kv (ev_ID x)) (member "baseEventId" kv (ev_BaseEventID x)) (member "calendarIds" kv (ev_CalendarIDs x))
    (member "@type" kv (ev_Type x)) (member "title" kv (ev_Title x)) (member "description" kv (ev_Description x))
    (member "descriptionContentType" kv (ev_DescriptionContentType x)) (member "showWithoutTime" kv (ev_ShowWithoutTime x))
    (member "start" kv (ev_Start x)) (member "utcStart" kv (ev_UTCStart x)) (member "utcEnd" kv (ev_UTCEnd x))
    (member "duration" kv (ev_Duration x)) (member "timeZone" kv (ev_TimeZone x)) (member "locations" kv (ev_Locations x))
    (member "virtualLocations" kv (ev_VirtualLocations x)) (member "links" kv (ev_Links x)) (member "locale" kv (ev_Locale x))
    (member "categories" kv (ev_Categories x)) (member "color" kv (ev_Color x)) (member "status" kv (ev_Status x))
    (member "freeBusyStatus" kv (ev_FreeBusyStatus x)) (member "privacy" kv (ev_Privacy x))
    (member "hideAttendees" kv (ev_HideAttendees x)) (member "priority" kv (ev_Priority x)) (member "replyTo" kv (ev_ReplyTo x))
    (member "sentBy" kv (ev_SentBy x)) (member "requestStatus" kv (ev_RequestStatus x))
    (member "useDefaultAlerts" kv (ev_UseDefaultAlerts x)) (member "localizations" kv (ev_Localizations x))
    (member "timeZones" kv (ev_TimeZones x)) (member "participants" kv (ev_Participants x))
    (member "organizerCalendarAddress" kv (ev_OrganizerCalendarAddress x)) (member "mayInviteSelf" kv (ev_MayInviteSelf x))
    (member "mayInviteOthers" kv (ev_MayInviteOthers x)) (member "recurrenceRule" kv (ev_RecurrenceRule x))
    (member "recurrenceRules" kv (ev_RecurrenceRules x)) (member "recurrenceId" kv (ev_RecurrenceID x))
    (member "recurrenceIdTimeZone" kv (ev_RecurrenceIDTimeZone x)) (member "excludedRecurrenceRule" kv (ev_ExcludedRecurrenceRule x))
    (member "excludedRecurrenceRules" kv (ev_ExcludedRecurrenceRules x)) (member "recurrenceOverrides" kv (ev_RecurrenceOverrides x))
    (member "excluded" kv (ev_Excluded x)) (member "alerts" kv (ev_Alerts x)) (member "relatedTo" kv (ev_RelatedTo x))
    (member "prodId" kv (ev_ProdID x)) (member "sequence" kv (ev_Sequence x)) (member "method" kv (ev_Method x))
    (member "due" kv (ev_Due x)) (member "estimatedDuration" kv (ev_EstimatedDuration x))
    (member "percentComplete" kv (ev_PercentComplete x)) (member "progress" kv (ev_Progress x))
    (member "progressUpdated" kv (ev_ProgressUpdated x)) (member "entries" kv (ev_Entries x)) (member "source" kv (ev_Source x))
    (member "created" kv (ev_Created x)) (member "updated" kv (ev_Updated x)) (member "uid" kv (ev_UID x))
    (member "keywords" kv (ev_Keywords x)) (member "isDraft" kv (ev_IsDraft x)) (member "isOrigin" kv (ev_IsOrigin x)).
Definition fields_ev (x : CalendarEvent) : list field :=
  [req "id" (ev_ID x); req "baseEventId" (ev_BaseEventID x); req "calendarIds" (ev_CalendarIDs x); req "@type" (ev_Type x);
   req "title" (ev_Title x); opt "description" (ev_Description x); opt "descriptionContentType" (ev_DescriptionContentType x);
   req "showWithoutTime" (ev_ShowWithoutTime x); req "start" (ev_Start x); opt "utcStart" (ev_UTCStart x); opt "utcEnd" (ev_UTCEnd x);
   opt "duration" (ev_Duration x); opt "timeZone" (ev_TimeZone x); opt "locations" (ev_Locations x);
   opt "virtualLocations" (ev_VirtualLocations x); opt "links" (ev_Links x); opt "locale" (ev_Locale x);
   opt "categories" (ev_Categories x); opt "color" (ev_Color x); opt "status" (ev_Status x); opt "freeBusyStatus" (ev_FreeBusyStatus x);
   opt "privacy" (ev_Privacy x); req "hideAttendees" (ev_HideAttendees x); opt "priority" (ev_Priority x); opt "replyTo" (ev_ReplyTo x);
   opt "sentBy" (ev_SentBy x); opt "requestStatus" (ev_RequestStatus x); req "useDefaultAlerts" (ev_UseDefaultAlerts x);
   opt "localizations" (ev_Localizations x); opt "timeZones" (ev_TimeZones x); opt "participants" (ev_Participants x);
   opt "organizerCalendarAddress" (ev_OrganizerCalendarAddress x); req "mayInviteSelf" (ev_MayInviteSelf x);
   req "mayInviteOthers" (ev_MayInviteOthers x); opt "recurrenceRule" (ev_RecurrenceRule x); opt "recurrenceRules" (ev_RecurrenceRules x);
   opt "recurrenceId" (ev_RecurrenceID x); opt "recurrenceIdTimeZone" (ev_RecurrenceIDTimeZone x);
   opt "excludedRecurrenceRule" (ev_ExcludedRecurrenceRule x); opt "excludedRecurrenceRules" (ev_ExcludedRecurrenceRules x);
   opt "recurrenceOverrides" (ev_RecurrenceOverrides x); opt "excluded" (ev_Excluded x); opt "alerts" (ev_Alerts x);
   opt "relatedTo" (ev_RelatedTo x); opt "prodId" (ev_ProdID x); opt "sequence" (ev_Sequence x); opt "method" (ev_Method x);
   opt "due" (ev_Due x); opt "estimatedDuration" (ev_EstimatedDuration x); opt "percentComplete" (ev_PercentComplete x);
   opt "progress" (ev_Progress x); opt "progressUpdated" (ev_ProgressUpdated x); opt "entries" (ev_Entries x); opt "source" (ev_Source x);
   opt "created" (ev_Created x); opt "updated" (ev_Updated x); opt "uid" (ev_UID x); opt "keywords" (ev_Keywords x);
   req "isDraft" (ev_IsDraft x); req "isOrigin" (ev_IsOrigin x)].
Definition aborts_ev : list (string * (json -> bool)) :=
  [("participants", aborts (A := gmap string (option JSCalendarParticipant)));
   ("recurrenceRule", aborts (A := option JSCalendarRecurrenceRule));
   ("recurrenceRules", aborts (A := list (option JSCalendarRecurrenceRule)));
   ("excludedRecurrenceRule", aborts (A := option JSCalendarRecurrenceRule));
   ("excludedRecurrenceRules", aborts (A := list (option JSCalendarRecurrenceRule)));
   ("alerts", aborts (A := gmap string (option JSCalendarAlert)))].
#[export] Instance wire_ev : Wire CalendarEvent := scan_wire zero_ev read_ev fields_ev aborts_ev.
#[export] Instance aborts_in_ev : Aborts CalendarEvent := scan_aborts aborts_ev.

Record ParticipantIdentity : Type := mkParticipantIdentity {
 pt_ID : string; pt_Name : string; pt_CalendarAddress : string; pt_SendTo : nil_map string; pt_IsDefault : bool;
}.
Definition zero_pt : ParticipantIdentity := mkParticipantIdentity wzero wzero wzero wzero wzero.
Definition read_pt (x : ParticipantIdentity) (kv : string * json) : ParticipantIdentity :=
  mkParticipantIdentity (member "id" kv (pt_ID x)) (member "name" kv (pt_Name x)) (member "calendarAddress" kv (pt_CalendarAddress x))
    (member "sendTo" kv (pt_SendTo x)) (member "isDefault" kv (pt_IsDefault x)).
Definition fields_pt (x : ParticipantIdentity) : list field :=
  [req "id" (pt_ID x); req "name" (pt_Name x); req "calendarAddress" (pt_CalendarAddress x); req "sendTo" (pt_SendTo x);
   req "isDefault" (pt_IsDefault x)].
#[export] Instance wire_pt : Wire ParticipantIdentity := struct_wire zero_pt read_pt fields_pt.

Record CalendarEventNotificationPerson : Type := mkPerson {
 np_Name : string; np_Email : option string; np_PrincipalID : option string; np_CalendarAddress : option string;
}.
Definition zero_np : CalendarEventNotificationPerson := mkPerson wzero wzero wzero wzero.
Definition read_np (x : CalendarEventNotificationPerson) (kv : string * json) : CalendarEventNotificationPerson :=
  mkPerson (member "name" kv (np_Name x)) (member "email" kv (np_Email x)) (member "principalId" kv (np_PrincipalID x))
    (member "calendarAddress" kv (np_CalendarAddress x)).
Definition fields_np (x : CalendarEventNotificationPerson) : list field :=
  [req "name" (np_Name x); req "email" (np_Email x); req "principalId" (np_PrincipalID x); req "calendarAddress" (np_CalendarAddress x)].
#[export] Instance wire_np : Wire CalendarEventNotificationPerson := struct_wire zero_np read_np fields_np.

Record CalendarEventNotification : Type := mkEventNote {
 en_ID : string; en_Created : string; en_ChangedBy : CalendarEventNotificationPerson; en_Comment : option string; en_Type : string;
  en_CalendarEventID : string; en_IsDraft : bool; en_Event : option CalendarEvent; en_EventPatch : gmap string json;
}.
Definition zero_en : CalendarEventNotification := mkEventNote wzero wzero wzero wzero wzero wzero wzero wzero wzero.
Definition read_en (x : CalendarEventNotification) (kv : string * json) : CalendarEventNotification :=
  mkEventNote (member "id" kv (en_ID x)) (member "created" kv (en_Created x)) (member "changedBy" kv (en_ChangedBy x))
    (member "comment" kv (en_Comment x)) (member "type" kv (en_Type x)) (member "calendarEventId" kv (en_CalendarEventID x))
    (member "isDraft" kv (en_IsDraft x)) (member "event" kv (en_Event x)) (member "eventPatch" kv (en_EventPatch x)).
Definition fields_en (x : CalendarEventNotification) : list field :=
  [req "id" (en_ID x); req "created" (en_Created x); req "changedBy" (en_ChangedBy x); req "comment" (en_Comment x);
   req "type" (en_Type x); req "calendarEventId" (en_CalendarEventID x); req "isDraft" (en_IsDraft x); req "event" (en_Event x);
   opt "eventPatch" (en_EventPatch x)].
#[export] Instance wire_en : Wire CalendarEventNotification := struct_wire zero_en read_en fields_en.

Record ShareNotificationPerson : Type := mkSharePerson {
 jp_PrincipalID : string; jp_Name : string; jp_Email : string;
}.
Definition zero_jp : ShareNotificationPerson := mkSharePerson wzero wzero wzero.
Definition read_jp (x : ShareNotificationPerson) (kv : string * json) : ShareNotificationPerson :=
  mkSharePerson (member "principalId" kv (jp_PrincipalID x)) (member "name" kv (jp_Name x)) (member "email" kv (jp_Email x)).
Definition fields_jp (x : ShareNotificationPerson) : list field :=
  [req "principalId" (jp_PrincipalID x); req "name" (jp_Name x); req "email" (jp_Email x)].
#[export] Instance wire_jp : Wire ShareNotificationPerson := struct_wire zero_jp read_jp fields_jp.

Record ShareNotification : Type := mkShareNote {
 sn_ID : string; sn_Created : string; sn_Type : string; sn_ChangedBy : ShareNotificationPerson; sn_ObjectType : string;
  sn_ObjectAccountID : string; sn_ObjectID : string; sn_OldRights : option CalendarRights; sn_NewRights : option CalendarRights;
  sn_Name : option string;
}.
Definition zero_sn : ShareNotification := mkShareNote wzero wzero wzero wzero wzero wzero wzero wzero wzero wzero.
Definition read_sn (x : ShareNotification) (kv : string * json) : ShareNotification :=
  mkShareNote (member "id" kv (sn_ID x)) (member "created" kv (sn_Created x)) (member "@type" kv (sn_Type x))
    (member "changedBy" kv (sn_ChangedBy x)) (member "objectType" kv (sn_ObjectType x))
    (member "objectAccountId" kv (sn_ObjectAccountID x)) (member "objectId" kv (sn_ObjectID x)) (member "oldRights" kv (sn_OldRights x))
    (member "newRights" kv (sn_NewRights x)) (member "name" kv (sn_Name x)).
Definition fields_sn (x : ShareNotification) : list field :=
  [req "id" (sn_ID x); req "created" (sn_Created x); opt "@type" (sn_Type x); req "changedBy" (sn_ChangedBy x);
   req "objectType" (sn_ObjectType x); req "objectAccountId" (sn_ObjectAccountID x); req "objectId" (sn_ObjectID x);
   req "oldRights" (sn_OldRights x); req "newRights" (sn_NewRights x); req "name" (sn_Name x)].
#[export] Instance wire_sn : Wire ShareNotification := struct_wire zero_sn read_sn fields_sn.

(** ** Fields that the methods set *)

Definition set_ev_ID (v : string) (x : CalendarEvent) : CalendarEvent :=
  mkEvent v (ev_BaseEventID x) (ev_CalendarIDs x) (ev_Type x) (ev_Title x) (ev_Description x) (ev_DescriptionContentType x)
    (ev_ShowWithoutTime x) (ev_Start x) (ev_UTCStart x) (ev_UTCEnd x) (ev_Duration x) (ev_TimeZone x) (ev_Locations x)
    (ev_VirtualLocations x) (ev_Links x) (ev_Locale x) (ev_Categories x) (ev_Color x) (ev_Status x) (ev_FreeBusyStatus x) (ev_Privacy x)
    (ev_HideAttendees x) (ev_Priority x) (ev_ReplyTo x) (ev_SentBy x) (ev_RequestStatus x) (ev_UseDefaultAlerts x) (ev_Localizations x)
    (ev_TimeZones x) (ev_Participants x) (ev_OrganizerCalendarAddress x) (ev_MayInviteSelf x) (ev_MayInviteOthers x) (ev_RecurrenceRule x)
    (ev_RecurrenceRules x) (ev_RecurrenceID x) (ev_RecurrenceIDTimeZone x) (ev_ExcludedRecurrenceRule x) (ev_ExcludedRecurrenceRules x)
    (ev_RecurrenceOverrides x) (ev_Excluded x) (ev_Alerts x) (ev_RelatedTo x) (ev_ProdID x) (ev_Sequence x) (ev_Method x) (ev_Due x)
    (ev_EstimatedDuration x) (ev_PercentComplete x) (ev_Progress x) (ev_ProgressUpdated x) (ev_Entries x) (ev_Source x) (ev_Created x)
    (ev_Updated x) (ev_UID x) (ev_Keywords x) (ev_IsDraft x) (ev_IsOrigin x).
Definition set_ev_Type (v : string) (x : CalendarEvent) : CalendarEvent :=
  mkEvent (ev_ID x) (ev_BaseEventID x) (ev_CalendarIDs x) v (ev_Title x) (ev_Description x) (ev_DescriptionContentType x)
    (ev_ShowWithoutTime x) (ev_Start x) (ev_UTCStart x) (ev_UTCEnd x) (ev_Duration x) (ev_TimeZone x) (ev_Locations x)
    (ev_VirtualLocations x) (ev_Links x) (ev_Locale x) (ev_Categories x) (ev_Color x) (ev_Status x) (ev_FreeBusyStatus x) (ev_Privacy x)
    (ev_HideAttendees x) (ev_Priority x) (ev_ReplyTo x) (ev_SentBy x) (ev_RequestStatus x) (ev_UseDefaultAlerts x) (ev_Localizations x)
    (ev_TimeZones x) (ev_Participants x) (ev_OrganizerCalendarAddress x) (ev_MayInviteSelf x) (ev_MayInviteOthers x) (ev_RecurrenceRule x)
    (ev_RecurrenceRules x) (ev_RecurrenceID x) (ev_RecurrenceIDTimeZone x) (ev_ExcludedRecurrenceRule x) (ev_ExcludedRecurrenceRules x)
    (ev_RecurrenceOverrides x) (ev_Excluded x) (ev_Alerts x) (ev_RelatedTo x) (ev_ProdID x) (ev_Sequence x) (ev_Method x) (ev_Due x)
    (ev_EstimatedDuration x) (ev_PercentComplete x) (ev_Progress x) (ev_ProgressUpdated x) (ev_Entries x) (ev_Source x) (ev_Created x)
    (ev_Updated x) (ev_UID x) (ev_Keywords x) (ev_IsDraft x) (ev_IsOrigin x).
Definition set_ev_TimeZone (v : string) (x : CalendarEvent) : CalendarEvent :=
  mkEvent (ev_ID x) (ev_BaseEventID x) (ev_CalendarIDs x) (ev_Type x) (ev_Title x) (ev_Description x) (ev_DescriptionContentType x)
    (ev_ShowWithoutTime x) (ev_Start x) (ev_UTCStart x) (ev_UTCEnd x) (ev_Duration x) v (ev_Locations x) (ev_VirtualLocations x)
    (ev_Links x) (ev_Locale x) (ev_Categories x) (ev_Color x) (ev_Status x) (ev_FreeBusyStatus x) (ev_Privacy x) (ev_HideAttendees x)
    (ev_Priority x) (ev_ReplyTo x) (ev_SentBy x) (ev_RequestStatus x) (ev_UseDefaultAlerts x) (ev_Localizations x) (ev_TimeZones x)
    (ev_Participants x) (ev_OrganizerCalendarAddress x) (ev_MayInviteSelf x) (ev_MayInviteOthers x) (ev_RecurrenceRule x)
    (ev_RecurrenceRules x) (ev_RecurrenceID x) (ev_RecurrenceIDTimeZone x) (ev_ExcludedRecurrenceRule x) (ev_ExcludedRecurrenceRules x)
    (ev_RecurrenceOverrides x) (ev_Excluded x) (ev_Alerts x) (ev_RelatedTo x) (ev_ProdID x) (ev_Sequence x) (ev_Method x) (ev_Due x)
    (ev_EstimatedDuration x) (ev_PercentComplete x) (ev_Progress x) (ev_ProgressUpdated x) (ev_Entries x) (ev_Source x) (ev_Created x)
    (ev_Updated x) (ev_UID x) (ev_Keywords x) (ev_IsDraft x) (ev_IsOrigin x).
Definition set_ev_Start (v : string) (x : CalendarEvent) : CalendarEvent :=
  mkEvent (ev_ID x) (ev_BaseEventID x) (ev_CalendarIDs x) (ev_Type x) (ev_Title x) (ev_Description x) (ev_DescriptionContentType x)
    (ev_ShowWithoutTime x) v (ev_UTCStart x) (ev_UTCEnd x) (ev_Duration x) (ev_TimeZone x) (ev_Locations x) (ev_VirtualLocations x)
    (ev_Links x) (ev_Locale x) (ev_Categories x) (ev_Color x) (ev_Status x) (ev_FreeBusyStatus x) (ev_Privacy x) (ev_HideAttendees x)
    (ev_Priority x) (ev_ReplyTo x) (ev_SentBy x) (ev_RequestStatus x) (ev_UseDefaultAlerts x) (ev_Localizations x) (ev_TimeZones x)
    (ev_Participants x) (ev_OrganizerCalendarAddress x) (ev_MayInviteSelf x) (ev_MayInviteOthers x) (ev_RecurrenceRule x)
    (ev_RecurrenceRules x) (ev_RecurrenceID x) (ev_RecurrenceIDTimeZone x) (ev_ExcludedRecurrenceRule x) (ev_ExcludedRecurrenceRules x)
    (ev_RecurrenceOverrides x) (ev_Excluded x) (ev_Alerts x) (ev_RelatedTo x) (ev_ProdID x) (ev_Sequence x) (ev_Method x) (ev_Due x)
    (ev_EstimatedDuration x) (ev_PercentComplete x) (ev_Progress x) (ev_ProgressUpdated x) (ev_Entries x) (ev_Source x) (ev_Created x)
    (ev_Updated x) (ev_UID x) (ev_Keywords x) (ev_IsDraft x) (ev_IsOrigin x).
Definition set_ev_UTCStart (v : string) (x : CalendarEvent) : CalendarEvent :=
  mkEvent (ev_ID x) (ev_BaseEventID x) (ev_CalendarIDs x) (ev_Type x) (ev_Title x) (ev_Description x) (ev_DescriptionContentType x)
    (ev_ShowWithoutTime x) (ev_Start x) v (ev_UTCEnd x) (ev_Duration x) (ev_TimeZone x) (ev_Locations x) (ev_VirtualLocations x)
    (ev_Links x) (ev_Locale x) (ev_Categories x) (ev_Color x) (ev_Status x) (ev_FreeBusyStatus x) (ev_Privacy x) (ev_HideAttendees x)
    (ev_Priority x) (ev_ReplyTo x) (ev_SentBy x) (ev_RequestStatus x) (ev_UseDefaultAlerts x) (ev_Localizations x) (ev_TimeZones x)
    (ev_Participants x) (ev_OrganizerCalendarAddress x) (ev_MayInviteSelf x) (ev_MayInviteOthers x) (ev_RecurrenceRule x)
    (ev_RecurrenceRules x) (ev_RecurrenceID x) (ev_RecurrenceIDTimeZone x) (ev_ExcludedRecurrenceRule x) (ev_ExcludedRecurrenceRules x)
    (ev_RecurrenceOverrides x) (ev_Excluded x) (ev_Alerts x) (ev_RelatedTo x) (ev_ProdID x) (ev_Sequence x) (ev_Method x) (ev_Due x)
    (ev_EstimatedDuration x) (ev_PercentComplete x) (ev_Progress x) (ev_ProgressUpdated x) (ev_Entries x) (ev_Source x) (ev_Created x)
    (ev_Updated x) (ev_UID x) (ev_Keywords x) (ev_IsDraft x) (ev_IsOrigin x).
Definition set_ev_UTCEnd (v : string) (x : CalendarEvent) : CalendarEvent :=
  mkEvent (ev_ID x) (ev_BaseEventID x) (ev_CalendarIDs x) (ev_Type x) (ev_Title x) (ev_Description x) (ev_DescriptionContentType x)
    (ev_ShowWithoutTime x) (ev_Start x) (ev_UTCStart x) v (ev_Duration x) (ev_TimeZone x) (ev_Locations x) (ev_VirtualLocations x)
    (ev_Links x) (ev_Locale x) (ev_Categories x) (ev_Color x) (ev_Status x) (ev_FreeBusyStatus x) (ev_Privacy x) (ev_HideAttendees x)
    (ev_Priority x) (ev_ReplyTo x) (ev_SentBy x) (ev_RequestStatus x) (ev_UseDefaultAlerts x) (ev_Localizations x) (ev_TimeZones x)
    (ev_Participants x) (ev_OrganizerCalendarAddress x) (ev_MayInviteSelf x) (ev_MayInviteOthers x) (ev_RecurrenceRule x)
    (ev_RecurrenceRules x) (ev_RecurrenceID x) (ev_RecurrenceIDTimeZone x) (ev_ExcludedRecurrenceRule x) (ev_ExcludedRecurrenceRules x)
    (ev_RecurrenceOverrides x) (ev_Excluded x) (ev_Alerts x) (ev_RelatedTo x) (ev_ProdID x) (ev_Sequence x) (ev_Method x) (ev_Due x)
    (ev_EstimatedDuration x) (ev_PercentComplete x) (ev_Progress x) (ev_ProgressUpdated x) (ev_Entries x) (ev_Source x) (ev_Created x)
    (ev_Updated x) (ev_UID x) (ev_Keywords x) (ev_IsDraft x) (ev_IsOrigin x).
Definition set_ev_Duration (v : string) (x : CalendarEvent) : CalendarEvent :=
  mkEvent (ev_ID x) (ev_BaseEventID x) (ev_CalendarIDs x) (ev_Type x) (ev_Title x) (ev_Description x) (ev_DescriptionContentType x)
    (ev_ShowWithoutTime x) (ev_Start x) (ev_UTCStart x) (ev_UTCEnd x) v (ev_TimeZone x) (ev_Locations x) (ev_VirtualLocations x)
    (ev_Links x) (ev_Locale x) (ev_Categories x) (ev_Color x) (ev_Status x) (ev_FreeBusyStatus x) (ev_Privacy x) (ev_HideAttendees x)
    (ev_Priority x) (ev_ReplyTo x) (ev_SentBy x) (ev_RequestStatus x) (ev_UseDefaultAlerts x) (ev_Localizations x) (ev_TimeZones x)
    (ev_Participants x) (ev_OrganizerCalendarAddress x) (ev_MayInviteSelf x) (ev_MayInviteOthers x) (ev_RecurrenceRule x)
    (ev_RecurrenceRules x) (ev_RecurrenceID x) (ev_RecurrenceIDTimeZone x) (ev_ExcludedRecurrenceRule x) (ev_ExcludedRecurrenceRules x)
    (ev_RecurrenceOverrides x) (ev_Excluded x) (ev_Alerts x) (ev_RelatedTo x) (ev_ProdID x) (ev_Sequence x) (ev_Method x) (ev_Due x)
    (ev_EstimatedDuration x) (ev_PercentComplete x) (ev_Progress x) (ev_ProgressUpdated x) (ev_Entries x) (ev_Source x) (ev_Created x)
    (ev_Updated x) (ev_UID x) (ev_Keywords x) (ev_IsDraft x) (ev_IsOrigin x).
Definition set_ev_RecurrenceRule (v : option JSCalendarRecurrenceRule) (x : CalendarEvent) : CalendarEvent :=
  mkEvent (ev_ID x) (ev_BaseEventID x) (ev_CalendarIDs x) (ev_Type x) (ev_Title x) (ev_Description x) (ev_DescriptionContentType x)
    (ev_ShowWithoutTime x) (ev_Start x) (ev_UTCStart x) (ev_UTCEnd x) (ev_Duration x) (ev_TimeZone x) (ev_Locations x)
    (ev_VirtualLocations x) (ev_Links x) (ev_Locale x) (ev_Categories x) (ev_Color x) (ev_Status x) (ev_FreeBusyStatus x) (ev_Privacy x)
    (ev_HideAttendees x) (ev_Priority x) (ev_ReplyTo x) (ev_SentBy x) (ev_RequestStatus x) (ev_UseDefaultAlerts x) (ev_Localizations x)
    (ev_TimeZones x) (ev_Participants x) (ev_OrganizerCalendarAddress x) (ev_MayInviteSelf x) (ev_MayInviteOthers x) v
    (ev_RecurrenceRules x) (ev_RecurrenceID x) (ev_RecurrenceIDTimeZone x) (ev_ExcludedRecurrenceRule x) (ev_ExcludedRecurrenceRules x)
    (ev_RecurrenceOverrides x) (ev_Excluded x) (ev_Alerts x) (ev_RelatedTo x) (ev_ProdID x) (ev_Sequence x) (ev_Method x) (ev_Due x)
    (ev_EstimatedDuration x) (ev_PercentComplete x) (ev_Progress x) (ev_ProgressUpdated x) (ev_Entries x) (ev_Source x) (ev_Created x)
    (ev_Updated x) (ev_UID x) (ev_Keywords x) (ev_IsDraft x) (ev_IsOrigin x).
Definition set_ev_RecurrenceRules (v : list (option JSCalendarRecurrenceRule)) (x : CalendarEvent) : CalendarEvent :=
  mkEvent (ev_ID x) (ev_BaseEventID x) (ev_CalendarIDs x) (ev_Type x) (ev_Title x) (ev_Description x) (ev_DescriptionContentType x)
    (ev_ShowWithoutTime x) (ev_Start x) (ev_UTCStart x) (ev_UTCEnd x) (ev_Duration x) (ev_TimeZone x) (ev_Locations x)
    (ev_VirtualLocations x) (ev_Links x) (ev_Locale x) (ev_Categories x) (ev_Color x) (ev_Status x) (ev_FreeBusyStatus x) (ev_Privacy x)
    (ev_HideAttendees x) (ev_Priority x) (ev_ReplyTo x) (ev_SentBy x) (ev_RequestStatus x) (ev_UseDefaultAlerts x) (ev_Localizations x)
    (ev_TimeZones x) (ev_Participants x) (ev_OrganizerCalendarAddress x) (ev_MayInviteSelf x) (ev_MayInviteOthers x) (ev_RecurrenceRule x)
    v (ev_RecurrenceID x) (ev_RecurrenceIDTimeZone x) (ev_ExcludedRecurrenceRule x) (ev_ExcludedRecurrenceRules x)
    (ev_RecurrenceOverrides x) (ev_Excluded x) (ev_Alerts x) (ev_RelatedTo x) (ev_ProdID x) (ev_Sequence x) (ev_Method x) (ev_Due x)
    (ev_EstimatedDuration x) (ev_PercentComplete x) (ev_Progress x) (ev_ProgressUpdated x) (ev_Entries x) (ev_Source x) (ev_Created x)
    (ev_Updated x) (ev_UID x) (ev_Keywords x) (ev_IsDraft x) (ev_IsOrigin x).
Definition set_ev_ExcludedRecurrenceRule (v : option JSCalendarRecurrenceRule) (x : CalendarEvent) : CalendarEvent :=
  mkEvent (ev_ID x) (ev_BaseEventID x) (ev_CalendarIDs x) (ev_Type x) (ev_Title x) (ev_Description x) (ev_DescriptionContentType x)
    (ev_ShowWithoutTime x) (ev_Start x) (ev_UTCStart x) (ev_UTCEnd x) (ev_Duration x) (ev_TimeZone x) (ev_Locations x)
    (ev_VirtualLocations x) (ev_Links x) (ev_Locale x) (ev_Categories x) (ev_Color x) (ev_Status x) (ev_FreeBusyStatus x) (ev_Privacy x)
    (ev_HideAttendees x) (ev_Priority x) (ev_ReplyTo x) (ev_SentBy x) (ev_RequestStatus x) (ev_UseDefaultAlerts x) (ev_Localizations x)
    (ev_TimeZones x) (ev_Participants x) (ev_OrganizerCalendarAddress x) (ev_MayInviteSelf x) (ev_MayInviteOthers x) (ev_RecurrenceRule x)
    (ev_RecurrenceRules x) (ev_RecurrenceID x) (ev_RecurrenceIDTimeZone x) v (ev_ExcludedRecurrenceRules x) (ev_RecurrenceOverrides x)
    (ev_Excluded x) (ev_Alerts x) (ev_RelatedTo x) (ev_ProdID x) (ev_Sequence x) (ev_Method x) (ev_Due x) (ev_EstimatedDuration x)
    (ev_PercentComplete x) (ev_Progress x) (ev_ProgressUpdated x) (ev_Entries x) (ev_Source x) (ev_Created x) (ev_Updated x) (ev_UID x)
    (ev_Keywords x) (ev_IsDraft x) (ev_IsOrigin x).
Definition set_ev_ExcludedRecurrenceRules (v : list (option JSCalendarRecurrenceRule)) (x : CalendarEvent) : CalendarEvent :=
  mkEvent (ev_ID x) (ev_BaseEventID x) (ev_CalendarIDs x) (ev_Type x) (ev_Title x) (ev_Description x) (ev_DescriptionContentType x)
    (ev_ShowWithoutTime x) (ev_Start x) (ev_UTCStart x) (ev_UTCEnd x) (ev_Duration x) (ev_TimeZone x) (ev_Locations x)
    (ev_VirtualLocations x) (ev_Links x) (ev_Locale x) (ev_Categories x) (ev_Color x) (ev_Status x) (ev_FreeBusyStatus x) (ev_Privacy x)
    (ev_HideAttendees x) (ev_Priority x) (ev_ReplyTo x) (ev_SentBy x) (ev_RequestStatus x) (ev_UseDefaultAlerts x) (ev_Localizations x)
    (ev_TimeZones x) (ev_Participants x) (ev_OrganizerCalendarAddress x) (ev_MayInviteSelf x) (ev_MayInviteOthers x) (ev_RecurrenceRule x)
    (ev_RecurrenceRules x) (ev_RecurrenceID x) (ev_RecurrenceIDTimeZone x) (ev_ExcludedRecurrenceRule x) v (ev_RecurrenceOverrides x)
    (ev_Excluded x) (ev_Alerts x) (ev_RelatedTo x) (ev_ProdID x) (ev_Sequence x) (ev_Method x) (ev_Due x) (ev_EstimatedDuration x)
    (ev_PercentComplete x) (ev_Progress x) (ev_ProgressUpdated x) (ev_Entries x) (ev_Source x) (ev_Created x) (ev_Updated x) (ev_UID x)
    (ev_Keywords x) (ev_IsDraft x) (ev_IsOrigin x).
Definition set_ev_IsOrigin (v : bool) (x : CalendarEvent) : CalendarEvent :=
  mkEvent (ev_ID x) (ev_BaseEventID x) (ev_CalendarIDs x) (ev_Type x) (ev_Title x) (ev_Description x) (ev_DescriptionContentType x)
    (ev_ShowWithoutTime x) (ev_Start x) (ev_UTCStart x) (ev_UTCEnd x) (ev_Duration x) (ev_TimeZone x) (ev_Locations x)
    (ev_VirtualLocations x) (ev_Links x) (ev_Locale x) (ev_Categories x) (ev_Color x) (ev_Status x) (ev_FreeBusyStatus x) (ev_Privacy x)
    (ev_HideAttendees x) (ev_Priority x) (ev_ReplyTo x) (ev_SentBy x) (ev_RequestStatus x) (ev_UseDefaultAlerts x) (ev_Localizations x)
    (ev_TimeZones x) (ev_Participants x) (ev_OrganizerCalendarAddress x) (ev_MayInviteSelf x) (ev_MayInviteOthers x) (ev_RecurrenceRule x)
    (ev_RecurrenceRules x) (ev_RecurrenceID x) (ev_RecurrenceIDTimeZone x) (ev_ExcludedRecurrenceRule x) (ev_ExcludedRecurrenceRules x)
    (ev_RecurrenceOverrides x) (ev_Excluded x) (ev_Alerts x) (ev_RelatedTo x) (ev_ProdID x) (ev_Sequence x) (ev_Method x) (ev_Due x)
    (ev_EstimatedDuration x) (ev_PercentComplete x) (ev_Progress x) (ev_ProgressUpdated x) (ev_Entries x) (ev_Source x) (ev_Created x)
    (ev_Updated x) (ev_UID x) (ev_Keywords x) (ev_IsDraft x) v.
Definition set_ev_Alerts (v : gmap string (option JSCalendarAlert)) (x : CalendarEvent) : CalendarEvent :=
  mkEvent (ev_ID x) (ev_BaseEventID x) (ev_CalendarIDs x) (ev_Type x) (ev_Title x) (ev_Description x) (ev_DescriptionContentType x)
    (ev_ShowWithoutTime x) (ev_Start x) (ev_UTCStart x) (ev_UTCEnd x) (ev_Duration x) (ev_TimeZone x) (ev_Locations x)
    (ev_VirtualLocations x) (ev_Links x) (ev_Locale x) (ev_Categories x) (ev_Color x) (ev_Status x) (ev_FreeBusyStatus x) (ev_Privacy x)
    (ev_HideAttendees x) (ev_Priority x) (ev_ReplyTo x) (ev_SentBy x) (ev_RequestStatus x) (ev_UseDefaultAlerts x) (ev_Localizations x)
    (ev_TimeZones x) (ev_Participants x) (ev_OrganizerCalendarAddress x) (ev_MayInviteSelf x) (ev_MayInviteOthers x) (ev_RecurrenceRule x)
    (ev_RecurrenceRules x) (ev_RecurrenceID x) (ev_RecurrenceIDTimeZone x) (ev_ExcludedRecurrenceRule x) (ev_ExcludedRecurrenceRules x)
    (ev_RecurrenceOverrides x) (ev_Excluded x) v (ev_RelatedTo x) (ev_ProdID x) (ev_Sequence x) (ev_Method x) (ev_Due x)
    (ev_EstimatedDuration x) (ev_PercentComplete x) (ev_Progress x) (ev_ProgressUpdated x) (ev_Entries x) (ev_Source x) (ev_Created x)
    (ev_Updated x) (ev_UID x) (ev_Keywords x) (ev_IsDraft x) (ev_IsOrigin x).
Definition set_ev_RecurrenceOverrides (v : gmap string (nil_map json)) (x : CalendarEvent) : CalendarEvent :=
  mkEvent (ev_ID x) (ev_BaseEventID x) (ev_CalendarIDs x) (ev_Type x) (ev_Title x) (ev_Description x) (ev_DescriptionContentType x)
    (ev_ShowWithoutTime x) (ev_Start x) (ev_UTCStart x) (ev_UTCEnd x) (ev_Duration x) (ev_TimeZone x) (ev_Locations x)
    (ev_VirtualLocations x) (ev_Links x) (ev_Locale x) (ev_Categories x) (ev_Color x) (ev_Status x) (ev_FreeBusyStatus x) (ev_Privacy x)
    (ev_HideAttendees x) (ev_Priority x) (ev_ReplyTo x) (ev_SentBy x) (ev_RequestStatus x) (ev_UseDefaultAlerts x) (ev_Localizations x)
    (ev_TimeZones x) (ev_Participants x) (ev_OrganizerCalendarAddress x) (ev_MayInviteSelf x) (ev_MayInviteOthers x) (ev_RecurrenceRule x)
    (ev_RecurrenceRules x) (ev_RecurrenceID x) (ev_RecurrenceIDTimeZone x) (ev_ExcludedRecurrenceRule x) (ev_ExcludedRecurrenceRules x) v
    (ev_Excluded x) (ev_Alerts x) (ev_RelatedTo x) (ev_ProdID x) (ev_Sequence x) (ev_Method x) (ev_Due x) (ev_EstimatedDuration x)
    (ev_PercentComplete x) (ev_Progress x) (ev_ProgressUpdated x) (ev_Entries x) (ev_Source x) (ev_Created x) (ev_Updated x) (ev_UID x)
    (ev_Keywords x) (ev_IsDraft x) (ev_IsOrigin x).
Definition set_ev_Participants (v : gmap string (option JSCalendarParticipant)) (x : CalendarEvent) : CalendarEvent :=
  mkEvent (ev_ID x) (ev_BaseEventID x) (ev_CalendarIDs x) (ev_Type x) (ev_Title x) (ev_Description x) (ev_DescriptionContentType x)
    (ev_ShowWithoutTime x) (ev_Start x) (ev_UTCStart x) (ev_UTCEnd x) (ev_Duration x) (ev_TimeZone x) (ev_Locations x)
    (ev_VirtualLocations x) (ev_Links x) (ev_Locale x) (ev_Categories x) (ev_Color x) (ev_Status x) (ev_FreeBusyStatus x) (ev_Privacy x)
    (ev_HideAttendees x) (ev_Priority x) (ev_ReplyTo x) (ev_SentBy x) (ev_RequestStatus x) (ev_UseDefaultAlerts x) (ev_Localizations x)
    (ev_TimeZones x) v (ev_OrganizerCalendarAddress x) (ev_MayInviteSelf x) (ev_MayInviteOthers x) (ev_RecurrenceRule x)
    (ev_RecurrenceRules x) (ev_RecurrenceID x) (ev_RecurrenceIDTimeZone x) (ev_ExcludedRecurrenceRule x) (ev_ExcludedRecurrenceRules x)
    (ev_RecurrenceOverrides x) (ev_Excluded x) (ev_Alerts x) (ev_RelatedTo x) (ev_ProdID x) (ev_Sequence x) (ev_Method x) (ev_Due x)
    (ev_EstimatedDuration x) (ev_PercentComplete x) (ev_Progress x) (ev_ProgressUpdated x) (ev_Entries x) (ev_Source x) (ev_Created x)
    (ev_Updated x) (ev_UID x) (ev_Keywords x) (ev_IsDraft x) (ev_IsOrigin x).
Definition set_ev_OrganizerCalendarAddress (v : string) (x : CalendarEvent) : CalendarEvent :=
  mkEvent (ev_ID x) (ev_BaseEventID x) (ev_CalendarIDs x) (ev_Type x) (ev_Title x) (ev_Description x) (ev_DescriptionContentType x)
    (ev_ShowWithoutTime x) (ev_Start x) (ev_UTCStart x) (ev_UTCEnd x) (ev_Duration x) (ev_TimeZone x) (ev_Locations x)
    (ev_VirtualLocations x) (ev_Links x) (ev_Locale x) (ev_Categories x) (ev_Color x) (ev_Status x) (ev_FreeBusyStatus x) (ev_Privacy x)
    (ev_HideAttendees x) (ev_Priority x) (ev_ReplyTo x) (ev_SentBy x) (ev_RequestStatus x) (ev_UseDefaultAlerts x) (ev_Localizations x)
    (ev_TimeZones x) (ev_Participants x) v (ev_MayInviteSelf x) (ev_MayInviteOthers x) (ev_RecurrenceRule x) (ev_RecurrenceRules x)
    (ev_RecurrenceID x) (ev_RecurrenceIDTimeZone x) (ev_ExcludedRecurrenceRule x) (ev_ExcludedRecurrenceRules x)
    (ev_RecurrenceOverrides x) (ev_Excluded x) (ev_Alerts x) (ev_RelatedTo x) (ev_ProdID x) (ev_Sequence x) (ev_Method x) (ev_Due x)
    (ev_EstimatedDuration x) (ev_PercentComplete x) (ev_Progress x) (ev_ProgressUpdated x) (ev_Entries x) (ev_Source x) (ev_Created x)
    (ev_Updated x) (ev_UID x) (ev_Keywords x) (ev_IsDraft x) (ev_IsOrigin x).
Definition set_ev_CalendarIDs (v : nil_map bool) (x : CalendarEvent) : CalendarEvent :=
  mkEvent (ev_ID x) (ev_BaseEventID x) v (ev_Type x) (ev_Title x) (ev_Description x) (ev_DescriptionContentType x) (ev_ShowWithoutTime x)
    (ev_Start x) (ev_UTCStart x) (ev_UTCEnd x) (ev_Duration x) (ev_TimeZone x) (ev_Locations x) (ev_VirtualLocations x) (ev_Links x)
    (ev_Locale x) (ev_Categories x) (ev_Color x) (ev_Status x) (ev_FreeBusyStatus x) (ev_Privacy x) (ev_HideAttendees x) (ev_Priority x)
    (ev_ReplyTo x) (ev_SentBy x) (ev_RequestStatus x) (ev_UseDefaultAlerts x) (ev_Localizations x) (ev_TimeZones x) (ev_Participants x)
    (ev_OrganizerCalendarAddress x) (ev_MayInviteSelf x) (ev_MayInviteOthers x) (ev_RecurrenceRule x) (ev_RecurrenceRules x)
    (ev_RecurrenceID x) (ev_RecurrenceIDTimeZone x) (ev_ExcludedRecurrenceRule x) (ev_ExcludedRecurrenceRules x)
    (ev_RecurrenceOverrides x) (ev_Excluded x) (ev_Alerts x) (ev_RelatedTo x) (ev_ProdID x) (ev_Sequence x) (ev_Method x) (ev_Due x)
    (ev_EstimatedDuration x) (ev_PercentComplete x) (ev_Progress x) (ev_ProgressUpdated x) (ev_Entries x) (ev_Source x) (ev_Created x)
    (ev_Updated x) (ev_UID x) (ev_Keywords x) (ev_IsDraft x) (ev_IsOrigin x).
Definition set_ev_UID (v : string) (x : CalendarEvent) : CalendarEvent :=
  mkEvent (ev_ID x) (ev_BaseEventID x) (ev_CalendarIDs x) (ev_Type x) (ev_Title x) (ev_Description x) (ev_DescriptionContentType x)
    (ev_ShowWithoutTime x) (ev_Start x) (ev_UTCStart x) (ev_UTCEnd x) (ev_Duration x) (ev_TimeZone x) (ev_Locations x)
    (ev_VirtualLocations x) (ev_Links x) (ev_Locale x) (ev_Categories x) (ev_Color x) (ev_Status x) (ev_FreeBusyStatus x) (ev_Privacy x)
    (ev_HideAttendees x) (ev_Priority x) (ev_ReplyTo x) (ev_SentBy x) (ev_RequestStatus x) (ev_UseDefaultAlerts x) (ev_Localizations x)
    (ev_TimeZones x) (ev_Participants x) (ev_OrganizerCalendarAddress x) (ev_MayInviteSelf x) (ev_MayInviteOthers x) (ev_RecurrenceRule x)
    (ev_RecurrenceRules x) (ev_RecurrenceID x) (ev_RecurrenceIDTimeZone x) (ev_ExcludedRecurrenceRule x) (ev_ExcludedRecurrenceRules x)
    (ev_RecurrenceOverrides x) (ev_Excluded x) (ev_Alerts x) (ev_RelatedTo x) (ev_ProdID x) (ev_Sequence x) (ev_Method x) (ev_Due x)
    (ev_EstimatedDuration x) (ev_PercentComplete x) (ev_Progress x) (ev_ProgressUpdated x) (ev_Entries x) (ev_Source x) (ev_Created x)
    (ev_Updated x) v (ev_Keywords x) (ev_IsDraft x) (ev_IsOrigin x).
Definition set_ev_Title (v : string) (x : CalendarEvent) : CalendarEvent :=
  mkEvent (ev_ID x) (ev_BaseEventID x) (ev_CalendarIDs x) (ev_Type x) v (ev_Description x) (ev_DescriptionContentType x)
    (ev_ShowWithoutTime x) (ev_Start x) (ev_UTCStart x) (ev_UTCEnd x) (ev_Duration x) (ev_TimeZone x) (ev_Locations x)
    (ev_VirtualLocations x) (ev_Links x) (ev_Locale x) (ev_Categories x) (ev_Color x) (ev_Status x) (ev_FreeBusyStatus x) (ev_Privacy x)
    (ev_HideAttendees x) (ev_Priority x) (ev_ReplyTo x) (ev_SentBy x) (ev_RequestStatus x) (ev_UseDefaultAlerts x) (ev_Localizations x)
    (ev_TimeZones x) (ev_Participants x) (ev_OrganizerCalendarAddress x) (ev_MayInviteSelf x) (ev_MayInviteOthers x) (ev_RecurrenceRule x)
    (ev_RecurrenceRules x) (ev_RecurrenceID x) (ev_RecurrenceIDTimeZone x) (ev_ExcludedRecurrenceRule x) (ev_ExcludedRecurrenceRules x)
    (ev_RecurrenceOverrides x) (ev_Excluded x) (ev_Alerts x) (ev_RelatedTo x) (ev_ProdID x) (ev_Sequence x) (ev_Method x) (ev_Due x)
    (ev_EstimatedDuration x) (ev_PercentComplete x) (ev_Progress x) (ev_ProgressUpdated x) (ev_Entries x) (ev_Source x) (ev_Created x)
    (ev_Updated x) (ev_UID x) (ev_Keywords x) (ev_IsDraft x) (ev_IsOrigin x).
Definition set_ev_HideAttendees (v : bool) (x : CalendarEvent) : CalendarEvent :=
  mkEvent (ev_ID x) (ev_BaseEventID x) (ev_CalendarIDs x) (ev_Type x) (ev_Title x) (ev_Description x) (ev_DescriptionContentType x)
    (ev_ShowWithoutTime x) (ev_Start x) (ev_UTCStart x) (ev_UTCEnd x) (ev_Duration x) (ev_TimeZone x) (ev_Locations x)
    (ev_VirtualLocations x) (ev_Links x) (ev_Locale x) (ev_Categories x) (ev_Color x) (ev_Status x) (ev_FreeBusyStatus x) (ev_Privacy x) v
    (ev_Priority x) (ev_ReplyTo x) (ev_SentBy x) (ev_RequestStatus x) (ev_UseDefaultAlerts x) (ev_Localizations x) (ev_TimeZones x)
    (ev_Participants x) (ev_OrganizerCalendarAddress x) (ev_MayInviteSelf x) (ev_MayInviteOthers x) (ev_RecurrenceRule x)
    (ev_RecurrenceRules x) (ev_RecurrenceID x) (ev_RecurrenceIDTimeZone x) (ev_ExcludedRecurrenceRule x) (ev_ExcludedRecurrenceRules x)
    (ev_RecurrenceOverrides x) (ev_Excluded x) (ev_Alerts x) (ev_RelatedTo x) (ev_ProdID x) (ev_Sequence x) (ev_Method x) (ev_Due x)
    (ev_EstimatedDuration x) (ev_PercentComplete x) (ev_Progress x) (ev_ProgressUpdated x) (ev_Entries x) (ev_Source x) (ev_Created x)
    (ev_Updated x) (ev_UID x) (ev_Keywords x) (ev_IsDraft x) (ev_IsOrigin x).
Definition set_ev_Excluded (v : gmap string bool) (x : CalendarEvent) : CalendarEvent :=
  mkEvent (ev_ID x) (ev_BaseEventID x) (ev_CalendarIDs x) (ev_Type x) (ev_Title x) (ev_Description x) (ev_DescriptionContentType x)
    (ev_ShowWithoutTime x) (ev_Start x) (ev_UTCStart x) (ev_UTCEnd x) (ev_Duration x) (ev_TimeZone x) (ev_Locations x)
    (ev_VirtualLocations x) (ev_Links x) (ev_Locale x) (ev_Categories x) (ev_Color x) (ev_Status x) (ev_FreeBusyStatus x) (ev_Privacy x)
    (ev_HideAttendees x) (ev_Priority x) (ev_ReplyTo x) (ev_SentBy x) (ev_RequestStatus x) (ev_UseDefaultAlerts x) (ev_Localizations x)
    (ev_TimeZones x) (ev_Participants x) (ev_OrganizerCalendarAddress x) (ev_MayInviteSelf x) (ev_MayInviteOthers x) (ev_RecurrenceRule x)
    (ev_RecurrenceRules x) (ev_RecurrenceID x) (ev_RecurrenceIDTimeZone x) (ev_ExcludedRecurrenceRule x) (ev_ExcludedRecurrenceRules x)
    (ev_RecurrenceOverrides x) v (ev_Alerts x) (ev_RelatedTo x) (ev_ProdID x) (ev_Sequence x) (ev_Method x) (ev_Due x)
    (ev_EstimatedDuration x) (ev_PercentComplete x) (ev_Progress x) (ev_ProgressUpdated x) (ev_Entries x) (ev_Source x) (ev_Created x)
    (ev_Updated x) (ev_UID x) (ev_Keywords x) (ev_IsDraft x) (ev_IsOrigin x).
Definition set_kl_ID (v : string) (x : Calendar) : Calendar :=
  mkCalendar v (kl_Name x) (kl_Description x) (kl_Color x) (kl_SortOrder x) (kl_IsDefault x) (kl_IsVisible x) (kl_IsSubscribed x)
    (kl_IncludeInAvailability x) (kl_DefaultAlertsWithTime x) (kl_DefaultAlertsWithoutTime x) (kl_TimeZone x) (kl_ShareWith x)
    (kl_MyRights x).
Definition set_pa_ScheduleStatus (v : string) (x : JSCalendarParticipant) : JSCalendarParticipant :=
  mkParticipant (pa_Type x) (pa_Name x) (pa_Email x) (pa_CalendarAddress x) (pa_Role x) (pa_Roles x) (pa_Status x)
    (pa_ParticipationStatus x) (pa_Kind x) (pa_ExpectReply x) (pa_SendTo x) (pa_DelegatedTo x) (pa_DelegatedFrom x) (pa_MemberOf x)
    (pa_ScheduleAgent x) v (pa_InvitedBy x) (pa_Links x) (pa_Language x) (pa_LocationID x).
End Types.

(** One member of the wrong type in a participant makes the decoder stop: the
    members of the event after the participants, in the order of their names,
    are lost without an error, the start and the title among them.  A null
    trigger becomes an offset. *)
Definition demo_first : FirstKey := {| first_key m := match map_to_list m with (k, _) :: _ => k | [] => EmptyString end |}.
Theorem bad_participant_drops_members :
  let read := unmarshal (H := wire_ev (H := ascii_runtime) (H0 := demo_first)) in
  let base := [("calendarIds", JObj [("c1", JBool true)]); ("start", JStr "2024-01-01T10:00:00"); ("title", JStr "Standup")] in
  let good := read (JObj (("participants", JObj [("p", JObj [("email", JStr "ann@home")])]) :: base)) in
  let bad := read (JObj (("participants", JObj [("p", JObj [("email", JNum (f64_of_Z 5))])]) :: base)) in
  (ev_Start good, ev_Title good, pa_CalendarAddress <$> mjoin (ev_Participants good !! "p"))
    = ("2024-01-01T10:00:00", "Standup", Some "mailto:ann@home")
  /\ (ev_Start bad, ev_Title bad, ev_Participants bad) = (EmptyString, EmptyString, ∅)
  /\ ev_CalendarIDs bad = Some {["c1" := true]}
  /\ al_Trigger (unmarshal (H := wire_al (H := ascii_runtime)) (JObj [("trigger", JNull)])) = offset_trigger EmptyString.
Proof. split_and!; vm_compute; reflexivity. Qed.
