(* ===== verification/CalendarEvents.v ===== *)
(** * Calendar events

    [jmap/jmapcalendar/calendar_utils.go] and [calendar_recurrence.go]: dates
    and durations, the expansion of recurring events, the filter and the order
    of event queries.

    The recurrence rules themselves are expanded by the third-party package
    [rrule-go], which is the interface [RRules].  [range] is the order in which
    Go visits a map. *)

From S2P Require Import Prelude GoSort GoStrings Json Query GoTime GoJson CalendarTypes.
From Stdlib Require Import Ascii.

(** ** Dates and durations *)

Section Dates.
Context `{TimeZones}.

Definition LoadLocation (tz : string) : Location :=
  if String.eqb tz EmptyString || String.eqb tz "UTC" || String.eqb tz "Etc/UTC" then UTC
  else default UTC (tz_load tz).

Fixpoint first_layout (layouts : list (list layout_elt)) (s : string) (l : Location) : option Time :=
  match layouts with
  | [] => None
  | layout :: rest => match ParseInLocation layout s l with Some t => Some t | None => first_layout rest s l end
  end.
Definition local_layouts : list (list layout_elt) := [layout_frac; layout_second; layout_minute; layout_date].
(** The third layout of the second list spells RFC3339Nano out. *)
Definition bound_layouts : list (list layout_elt) :=
  [RFC3339Nano; RFC3339; RFC3339Nano; layout_Z; layout_frac; layout_second; layout_minute; layout_date].

Fixpoint count_byte (c : ascii) (s : string) : nat :=
  match s with EmptyString => O | String d s' => ((if Ascii.eqb d c then 1 else 0) + count_byte c s')%nat end.
Definition ParseLocalDateTimeBound (s : string) (l : Location) : option Time :=
  let s := TrimSpace s in
  if String.eqb s EmptyString then None
  else
    let local := negb (HasSuffix s "Z") && negb (Contains s "+") && (negb (Contains s "-") || (count_byte "-" s <=? 2)%nat) in
    match (if local then first_layout local_layouts s l else None) with
    | Some t => Some t
    | None => first_layout bound_layouts s l
    end.

(** The loop of [ParseISODuration]: the total and the pending number are
    machine integers. *)
Record dur_state : Type := mkDur { du_total : Z; du_value : Z; du_inTime : bool }.
Definition hour : Z := 3600 * second.
Definition dur_flush (unit : Z) (st : dur_state) : dur_state :=
  mkDur (i64 (du_total st + i64 (i64 (du_value st) * unit))) 0 (du_inTime st).
Definition dur_step (st : dur_state) (c : ascii) : option dur_state :=
  if byte_between 48 57 c
  then Some (mkDur (du_total st) (u64 (du_value st * 10 + (byte_val c - 48))) (du_inTime st))
  else if Ascii.eqb c "T" then Some (mkDur (du_total st) (du_value st) true)
  else if Ascii.eqb c "Y" && negb (du_inTime st) then Some (dur_flush (365 * 24 * hour) st)
  else if Ascii.eqb c "M" && negb (du_inTime st) then Some (dur_flush (30 * 24 * hour) st)
  else if Ascii.eqb c "W" && negb (du_inTime st) then Some (dur_flush (7 * 24 * hour) st)
  else if Ascii.eqb c "D" && negb (du_inTime st) then Some (dur_flush (24 * hour) st)
  else if Ascii.eqb c "H" && du_inTime st then Some (dur_flush hour st)
  else if Ascii.eqb c "M" && du_inTime st then Some (dur_flush (60 * second) st)
  else if Ascii.eqb c "S" && du_inTime st then Some (dur_flush second st)
  else None.
Fixpoint dur_loop (s : string) (st : dur_state) : option dur_state :=
  match s with EmptyString => Some st | String c s' => st ← dur_step st c; dur_loop s' st end.
Definition ParseISODuration (raw : string) : option Z :=
  match TrimSpace raw with
  | String "P" s => du_total <$> dur_loop s (mkDur 0 0 false)
  | _ => None
  end.

Definition ComputeUTCStart (start timeZone : string) : string :=
  if String.eqb start EmptyString then EmptyString
  else match ParseLocalDateTimeBound start (LoadLocation timeZone) with
       | Some t => Format_UTC t
       | None => EmptyString
       end.
Definition ComputeUTCEnd (start duration timeZone : string) : string :=
  if String.eqb start EmptyString then EmptyString
  else match ParseLocalDateTimeBound start (LoadLocation timeZone) with
       | Some t =>
           let dur := if String.eqb duration EmptyString then hour else default hour (ParseISODuration duration) in
           Format_UTC (Add t dur)
       | None => EmptyString
       end.

Definition ParseRFC3339 (s : string) : option Time :=
  match Parse RFC3339 s with
  | Some t => Some t
  | None => match Parse layout_second s with Some t => Some t | None => Parse layout_date s end
  end.
Definition parseFloatingDateTime (s : string) : option Time :=
  match Parse layout_second s with Some t => Some t | None => Parse layout_date s end.
End Dates.

(** ** Events *)

(** The overrides of an event; a nil one has no members. *)
Definition overrides (ev : CalendarEvent) : gmap string obj :=
  (fun o : nil_map json => match o with Some m => map_to_list m | None => [] end) <$> ev_RecurrenceOverrides ev.

(** ** Recurrence rules *)

Inductive Frequency : Type := YEARLY | MONTHLY | WEEKLY | DAILY | HOURLY | MINUTELY | SECONDLY.
(** [rrule.Weekday]: the day, Monday being 0, and its number in the period. *)
Definition Weekday : Type := Z * Z.
Record ROption : Type := mkROption {
  ro_Freq : Frequency; ro_Dtstart : Time; ro_Interval : Z; ro_Wkst : Weekday; ro_Count : Z; ro_Until : option Time;
  ro_Bysetpos : list Z; ro_Bymonth : list Z; ro_Bymonthday : list Z; ro_Byyearday : list Z; ro_Byweekno : list Z;
  ro_Byweekday : list Weekday; ro_Byhour : list Z; ro_Byminute : list Z; ro_Bysecond : list Z;
}.
(** [rrule-go]: whether [NewRRule] accepts the options, the occurrences of a
    rule between two times, and those of a set of rules from a start without
    the excluded dates; both ends included. *)
Class RRules := {
  rrule_valid : ROption -> bool;
  rrule_between : ROption -> Time -> Time -> list Time;
  set_between : Time -> list ROption -> list Time -> Time -> Time -> list Time;
}.

Section Recurrence.
Context `{GoRuntime} `{TimeZones}.

Definition jsWeekdayToRRule (nd : option NDay) : option Weekday :=
  match nd with
  | None => None
  | Some nd =>
      let day := ToLower (nd_Day nd) in
      d ← (if String.eqb day "mo" then Some 0 else if String.eqb day "tu" then Some 1
           else if String.eqb day "we" then Some 2 else if String.eqb day "th" then Some 3
           else if String.eqb day "fr" then Some 4 else if String.eqb day "sa" then Some 5
           else if String.eqb day "su" then Some 6 else None);
      Some (d, (nd_Nth nd : Z))
  end.
Definition jsFrequencyToRRule (freq : string) : option Frequency :=
  let f := ToLower freq in
  if String.eqb f "yearly" then Some YEARLY else if String.eqb f "monthly" then Some MONTHLY
  else if String.eqb f "weekly" then Some WEEKLY else if String.eqb f "daily" then Some DAILY
  else if String.eqb f "hourly" then Some HOURLY else if String.eqb f "minutely" then Some MINUTELY
  else if String.eqb f "secondly" then Some SECONDLY else None.
(** The digits of a month are added up as an [int]. *)
Fixpoint month_digits (acc : Z) (s : string) : option Z :=
  match s with
  | EmptyString => Some acc
  | String c s' => if byte_between 48 57 c then month_digits (i64 (acc * 10 + (byte_val c - 48))) s' else None
  end.
Definition jsMonthToRRule (m : string) : option Z :=
  let m := TrimSuffix (ToUpper (TrimSpace m)) "L" in
  if String.eqb m EmptyString then None
  else n ← month_digits 0 m; if (n <? 1) || (12 <? n) then None else Some n.

Definition buildRRuleOption (rule : option JSCalendarRecurrenceRule) (dtstart : Time) : option ROption :=
  match rule with
  | None => None
  | Some rule =>
      freq ← jsFrequencyToRRule (rr_Frequency rule);
      let interval := i64 (rr_Interval rule) in
      let until := if String.eqb (rr_Until rule) EmptyString then None
                   else match ParseRFC3339 (rr_Until rule) with
                        | Some u => Some u
                        | None => parseFloatingDateTime (rr_Until rule)
                        end in
      let wkst := if String.eqb (rr_FirstDayOfWeek rule) EmptyString then (0, 0)
                  else default (0, 0) (jsWeekdayToRRule (Some (mkNDay (rr_FirstDayOfWeek rule) 0))) in
      Some (mkROption freq dtstart (if interval =? 0 then 1 else interval) wkst
              (if 0 <? rr_Count rule then i64 (rr_Count rule) else 0) until
              (rr_BySetPosition rule) (omap jsMonthToRRule (rr_ByMonth rule)) (rr_ByMonthDay rule)
              (rr_ByYearDay rule) (rr_ByWeekNo rule) (omap jsWeekdayToRRule (rr_ByDay rule))
              (rr_ByHour rule) (rr_ByMinute rule) (rr_BySecond rule))
  end.

(** ** Start and end *)

Definition event_location (ev : CalendarEvent) : Location :=
  if String.eqb (ev_TimeZone ev) EmptyString || String.eqb (ev_TimeZone ev) "floating" then UTC
  else LoadLocation (ev_TimeZone ev).
Definition parseEventStart (ev : CalendarEvent) : option Time :=
  if String.eqb (ev_Start ev) EmptyString then None
  else match Parse RFC3339 (ev_Start ev) with
       | Some t => Some t
       | None => ParseLocalDateTimeBound (ev_Start ev) (event_location ev)
       end.
Definition eventEndTime (ev : CalendarEvent) : option Time :=
  start ← parseEventStart ev;
  Some (if String.eqb (ev_Duration ev) EmptyString then start
        else match ParseISODuration (ev_Duration ev) with Some d => Add start d | None => start end).
Definition overrideStart (ev : CalendarEvent) (recID : string) (patch : obj) : option Time :=
  match get_str patch "start" with
  | Some s => ParseLocalDateTimeBound (if String.eqb s EmptyString then recID else s) (event_location ev)
  | None => ParseLocalDateTimeBound recID (event_location ev)
  end.

(** ** Expansion *)

Record RecurrenceInstance : Type := mkInstance { ri_RecurrenceID : string; ri_Start : Time; ri_End : Time }.

Context `{RRules}.
Variable range : forall A, gmap string A -> list (string * A).
Arguments range {A}.

Definition max_occurrences : nat := 5000.
Definition has_rules (ev : CalendarEvent) : bool :=
  existsb (fun r => match r with Some _ => true | None => false end) (ev_RecurrenceRules ev).
Definition event_duration (ev : CalendarEvent) : Z :=
  if String.eqb (ev_Duration ev) EmptyString then 0 else default 0 (ParseISODuration (ev_Duration ev)).

Definition formatRecKey (ev : CalendarEvent) (t : Time) : string :=
  if HasSuffix (ev_Start ev) "Z" then Format_UTC t else Format_second (In_loc t (event_location ev)).

Definition valid_rules (rules : list (option JSCalendarRecurrenceRule)) (start : Time) : list ROption :=
  List.filter rrule_valid (omap (fun r => buildRRuleOption r start) rules).
Definition occurrences (ev : CalendarEvent) (start horizon : Time) : list Time :=
  let from := Add start (- second) in
  let excluded := flat_map (fun o => take max_occurrences (rrule_between o from horizon))
                    (valid_rules (ev_ExcludedRecurrenceRules ev) start) in
  take max_occurrences (set_between start (valid_rules (ev_RecurrenceRules ev) start) excluded from horizon).
(** [starts]: the occurrences by their recurrence id, then the overrides that
    are not among them. *)
Definition rule_starts (ev : CalendarEvent) (start horizon : Time) : gmap string Time :=
  if has_rules ev
  then foldl (fun m t => <[formatRecKey ev t := t]> m) ∅ (occurrences ev start horizon)
  else {[formatRecKey ev start := start]}.
Definition add_override (ev : CalendarEvent) (m : gmap string Time) (kv : string * obj) : gmap string Time :=
  match m !! fst kv with
  | Some _ => m
  | None => match overrideStart ev (fst kv) (snd kv) with Some t => <[fst kv := t]> m | None => m end
  end.
Definition all_starts (ev : CalendarEvent) (start horizon : Time) : gmap string Time :=
  foldl (add_override ev) (rule_starts ev start horizon) (range (overrides ev)).

(** The instance of a start, unless it is excluded. *)
Definition instance_of (ev : CalendarEvent) (kv : string * Time) : option RecurrenceInstance :=
  let '(recID, t) := kv in
  if default false (ev_Excluded ev !! recID) then None
  else match overrides ev !! recID with
       | None => Some (mkInstance recID t (Add t (event_duration ev)))
       | Some ov =>
           if bool_or_false ov "excluded" then None
           else
             let start := default t (overrideStart ev recID ov) in
             let dur := match get_str ov "duration" with
                        | Some ds => if String.eqb ds EmptyString then event_duration ev
                                     else default (event_duration ev) (ParseISODuration ds)
                        | None => event_duration ev
                        end in
             Some (mkInstance recID start (Add start dur))
       end.
Definition instance_less (a b : RecurrenceInstance) : bool :=
  if negb (t_ns (ri_Start a) =? t_ns (ri_Start b)) then Before (ri_Start a) (ri_Start b)
  else String.ltb (ri_RecurrenceID a) (ri_RecurrenceID b).

(** An absent event start gives no instances. *)
Definition ExpandRecurrenceInstances (ev : CalendarEvent) (horizon : Time) : list RecurrenceInstance :=
  match parseEventStart ev with
  | None => []
  | Some start =>
      let master := mkInstance (ev_Start ev) start (Add start (event_duration ev)) in
      if negb (has_rules ev) && (size (overrides ev) =? 0)%nat then [master]
      else
        let horizon := if IsZero horizon then AddYears start 5 else horizon in
        let results := stable_sort instance_less (omap (instance_of ev) (range (all_starts ev start horizon))) in
        match results with [] => [master] | _ => results end
  end.

(** ** Filters *)

Definition eventIsFloating (ev : CalendarEvent) : bool :=
  if negb (String.eqb (ev_TimeZone ev) EmptyString) && negb (String.eqb (ev_TimeZone ev) "floating") then false
  else negb (HasSuffix (ev_Start ev) "Z" || Contains (ev_Start ev) "+").
Definition eventInstantInLoc (ev : CalendarEvent) (t : Time) (l : Location) : Time :=
  if eventIsFloating ev
  then let w := wall_seconds t in
       let '(y, m, d) := date_of_days (w / day_seconds) in
       let r := w mod day_seconds in
       Date y m d (r / 3600) (r mod 3600 / 60) (r mod 60) (t_ns t mod second) l
  else t.
Definition eventEndsAfter (ev : CalendarEvent) (date : string) (l : Location) : bool :=
  match ParseLocalDateTimeBound date l with
  | None => false
  | Some ref => existsb (fun i => After (eventInstantInLoc ev (ri_End i) l) ref) (ExpandRecurrenceInstances ev (AddYears ref 1))
  end.
Definition eventStartsBefore (ev : CalendarEvent) (date : string) (l : Location) : bool :=
  match ParseLocalDateTimeBound date l with
  | None => false
  | Some ref => existsb (fun i => Before (eventInstantInLoc ev (ri_Start i) l) ref) (ExpandRecurrenceInstances ev ref)
  end.

Definition containsFold (haystack needle : string) : bool := Contains (ToLower haystack) (ToLower needle).
Definition some_value {A} (p : A -> bool) (m : gmap string (option A)) : bool :=
  existsb (fun kv => match snd kv with Some x => p x | None => false end) (range m).
Definition match_location (s : string) (lo : JSCalendarLocation) : bool :=
  containsFold (lo_Name lo) s || containsFold (lo_Description lo) s.
Definition match_person (s : string) (p : JSCalendarParticipant) : bool := containsFold (pa_Name p) s || containsFold (pa_Email p) s.
Definition is_owner (p : JSCalendarParticipant) : bool := String.eqb (pa_Role p) "owner" || default false (default ∅ (pa_Roles p) !! "owner").
Definition matchEventText (ev : CalendarEvent) (q : string) : bool :=
  containsFold (ev_Title ev) q || containsFold (ev_Description ev) q
  || some_value (match_location q) (ev_Locations ev) || some_value (match_person q) (ev_Participants ev).
Definition in_calendar (ev : CalendarEvent) (id : string) : bool := default false (default ∅ (ev_CalendarIDs ev) !! id).

(** One member of a filter condition; unknown ones are ignored. *)
Definition match_member (ev : CalendarEvent) (l : Location) (kv : string * json) : bool :=
  let '(k, v) := kv in
  let s := match v with JStr s => s | _ => EmptyString end in
  if String.eqb k "inCalendar" then match v with JStr id => in_calendar ev id | _ => false end
  else if String.eqb k "inCalendars"
  then match v with JArr raw => existsb (fun i => match i with JStr id => in_calendar ev id | _ => false end) raw | _ => false end
  else if String.eqb k "title" then containsFold (ev_Title ev) s
  else if String.eqb k "description" then containsFold (ev_Description ev) s
  else if String.eqb k "location" then some_value (match_location s) (ev_Locations ev)
  else if String.eqb k "text" then matchEventText ev s
  else if String.eqb k "after" then eventEndsAfter ev s l
  else if String.eqb k "before" then eventStartsBefore ev s l
  else if String.eqb k "uid" then String.eqb (ev_UID ev) s
  else if String.eqb k "owner" then some_value (fun p => is_owner p && match_person s p) (ev_Participants ev)
  else if String.eqb k "attendee" then some_value (match_person s) (ev_Participants ev)
  else if String.eqb k "updatedBefore" then String.eqb s EmptyString || String.ltb (ev_Updated ev) s
  else if String.eqb k "updatedAfter" then String.eqb s EmptyString || negb (String.ltb (ev_Updated ev) s)
  else true.
(** [range] over the filter stops at the first member that fails. *)
Fixpoint match_event (fuel : nat) (ev : CalendarEvent) (l : Location) (filter : obj) : bool :=
  match EvalFilterOperator (Some filter) (match fuel with O => fun _ => false | S f => match_event f ev l end) with
  | (m, true) => m
  | (_, false) => forallb (match_member ev l) filter
  end.
Definition matchCalendarEventInLoc (ev : CalendarEvent) (filter : option obj) (l : Location) : bool :=
  match filter with None => true | Some f => match_event (json_depth (JObj f)) ev l f end.
Definition MatchCalendarEvent (ev : CalendarEvent) (filter : option obj) : bool :=
  let tz := match filter with Some f => str_or_empty f "__timeZone" | None => EmptyString end in
  matchCalendarEventInLoc ev filter (if String.eqb tz EmptyString then UTC else LoadLocation tz).

(** ** Order *)

Definition event_key (p : string) (ev : CalendarEvent) : string :=
  if String.eqb p "start" then ev_Start ev else if String.eqb p "uid" then ev_UID ev
  else if String.eqb p "recurrenceId" then ev_RecurrenceID ev else if String.eqb p "created" then ev_Created ev
  else if String.eqb p "updated" then ev_Updated ev else if String.eqb p "title" then ToLower (ev_Title ev)
  else EmptyString.
Fixpoint event_less (comparators : list Comparator) (a b : CalendarEvent) : bool :=
  match comparators with
  | [] => if negb (String.eqb (ev_Start a) (ev_Start b)) then String.ltb (ev_Start a) (ev_Start b)
          else String.ltb (ev_ID a) (ev_ID b)
  | c :: rest =>
      match String.compare (event_key (c_Property c) a) (event_key (c_Property c) b) with
      | Eq => event_less rest a b
      | Lt => c_IsAscending c
      | Gt => negb (c_IsAscending c)
      end
  end.
Definition SortCalendarEvents (events : list CalendarEvent) (comparators : list Comparator) : list CalendarEvent :=
  stable_sort (event_less comparators) events.
End Recurrence.

(** ** Lemmas: expansion *)

Definition instance_cmp (a b : RecurrenceInstance) : comparison :=
  match t_ns (ri_Start a) ?= t_ns (ri_Start b) with
  | Eq => String.compare (ri_RecurrenceID a) (ri_RecurrenceID b)
  | r => r
  end.
Lemma lawful_instance_cmp : lawful instance_cmp.
Proof.
  apply (lawful_lex (fun a b => t_ns (ri_Start a) ?= t_ns (ri_Start b))
           (fun a b => String.compare (ri_RecurrenceID a) (ri_RecurrenceID b))).
  - apply (lawful_key Z.compare (fun a => t_ns (ri_Start a))), lawful_Z.
  - apply (lawful_key String.compare ri_RecurrenceID), lawful_string.
Qed.
Lemma instance_less_cmp a b : instance_less a b = lt_of instance_cmp a b.
Proof.
  unfold instance_less, lt_of, instance_cmp, Before, String.ltb.
  destruct (Z.compare_spec (t_ns (ri_Start a)) (t_ns (ri_Start b))) as [->|Hl|Hg].
  - by rewrite Z.eqb_refl.
  - rewrite (proj2 (Z.eqb_neq _ _)) by lia. simpl. by apply Z.ltb_lt.
  - rewrite (proj2 (Z.eqb_neq _ _)) by lia. simpl. apply Z.ltb_ge. lia.
Qed.
Lemma sort_instances l : stable_sort instance_less l = stable_sort (lt_of instance_cmp) l.
Proof.
  induction l as [|x l IH]; [done|]. simpl. rewrite IH. generalize (stable_sort (lt_of instance_cmp) l) as m.
  induction m as [|y m IHm]; [done|]. simpl. rewrite instance_less_cmp. by destruct (lt_of instance_cmp y x); rewrite ?IHm.
Qed.

Section Expansion.
Context `{GoRuntime} `{TimeZones} `{RRules} (ev : CalendarEvent).

(** The start of a recurrence id: that of the rules, or that of the override. *)
Definition start_of (start horizon : Time) (recID : string) : option Time :=
  match rule_starts ev start horizon !! recID with
  | Some t => Some t
  | None => ov ← overrides ev !! recID; overrideStart ev recID ov
  end.
Definition visits_all (range : forall A, gmap string A -> list (string * A)) : Prop :=
  forall A (m : gmap string A), range A m ≡ₚ map_to_list m.

Lemma add_overrides_lookup l m k :
  NoDup (map fst l) ->
  foldl (add_override ev) m l !! k
  = match m !! k with Some t => Some t | None => ov ← (list_to_map l : gmap string obj) !! k; overrideStart ev k ov end.
Proof.
  revert m. induction l as [|[k' ov] l IH]; intros m Hnd; simpl.
  - rewrite lookup_empty. by destruct (m !! k).
  - apply NoDup_cons in Hnd as [Hk Hnd]. rewrite IH by done. unfold add_override. simpl.
    destruct (decide (k' = k)) as [->|Hne].
    + rewrite lookup_insert_eq. destruct (m !! k) eqn:E; [by rewrite E|].
      assert ((list_to_map l : gmap string obj) !! k = None) as Hno by (apply not_elem_of_list_to_map_1; exact Hk).
      simpl. destruct (overrideStart ev k ov); rewrite ?lookup_insert_eq, ?E, ?Hno; done.
    + rewrite lookup_insert_ne by done.
      destruct (m !! k') eqn:E; [done|]. destruct (overrideStart ev k' ov); [|done]. by rewrite lookup_insert_ne.
Qed.

Context (range : forall A, gmap string A -> list (string * A)) (all_visited : visits_all range).

Lemma range_keys_nodup {A} (m : gmap string A) : NoDup (map fst (range A m)).
Proof. rewrite (all_visited A m). apply NoDup_fst_map_to_list. Qed.

Lemma all_starts_lookup start horizon k : all_starts range ev start horizon !! k = start_of start horizon k.
Proof.
  unfold all_starts, start_of. rewrite add_overrides_lookup by apply range_keys_nodup.
  by rewrite (list_to_map_proper _ _ (range_keys_nodup _) (all_visited _ _)), list_to_map_to_list.
Qed.

Lemma instance_id kv i : instance_of ev kv = Some i -> ri_RecurrenceID i = fst kv.
Proof. destruct kv as [k t]. unfold instance_of. intros E. repeat case_match; simplify_eq; done. Qed.

Lemma omap_ids_nodup (l : list (string * Time)) : NoDup (map fst l) -> NoDup (map ri_RecurrenceID (omap (instance_of ev) l)).
Proof.
  induction l as [|kv l IH]; [done|]. intros [Hk Hnd]%NoDup_cons. simpl.
  destruct (instance_of ev kv) as [i|] eqn:E; [|by apply IH]. simpl. apply NoDup_cons. split; [|by apply IH].
  intros (j & Hj & Hin)%list_elem_of_fmap. apply list_elem_of_omap in Hin as (kv' & Hin & Ej).
  apply Hk. rewrite <- (instance_id _ _ E), Hj, (instance_id _ _ Ej). by apply list_elem_of_fmap_2.
Qed.

(** The instances before they are sorted. *)
Definition instances (start horizon : Time) : list RecurrenceInstance := omap (instance_of ev) (range _ (all_starts range ev start horizon)).

Lemma instances_elem start horizon i :
  i ∈ instances start horizon
  <-> exists t, start_of start horizon (ri_RecurrenceID i) = Some t /\ instance_of ev (ri_RecurrenceID i, t) = Some i.
Proof.
  unfold instances. rewrite list_elem_of_omap. split.
  - intros ([k t] & Hin & Hi). pose proof (instance_id _ _ Hi) as Hk. simpl in Hk. subst k. exists t. split; [|done].
    rewrite <- all_starts_lookup. by rewrite (all_visited _ _), elem_of_map_to_list in Hin.
  - intros (t & Hs & Hi). exists (ri_RecurrenceID i, t). split; [|done].
    by rewrite (all_visited _ _), elem_of_map_to_list, all_starts_lookup.
Qed.

Lemma instances_nodup start horizon : NoDup (map ri_RecurrenceID (instances start horizon)).
Proof. apply omap_ids_nodup, range_keys_nodup. Qed.

Lemma instances_ties start horizon a b :
  a ∈ instances start horizon -> b ∈ instances start horizon -> instance_cmp a b = Eq -> a = b.
Proof.
  intros (t & Ht & Ea)%instances_elem (u & Hu & Eb)%instances_elem E. unfold instance_cmp in E.
  destruct (t_ns (ri_Start a) ?= t_ns (ri_Start b)); [|done..]. apply String.compare_eq_iff in E.
  rewrite E in Ht, Ea. congruence.
Qed.
End Expansion.

(** ** Lemmas: durations *)

Lemma digits_val_ge acc ds v : digits_val acc ds = Some v -> 0 <= acc -> acc <= v.
Proof.
  revert acc. induction ds as [|c ds IH]; intros acc; simpl; [intros [= ->]; lia|].
  destruct (is_digit_ascii c) eqn:Ec; [|done]. intros Hv H0.
  assert (0 <= byte_val c - 48) by (unfold is_digit_ascii, byte_between in Ec; bool_props; lia).
  apply IH in Hv; lia.
Qed.

Lemma dur_digits ds rest total v0 v inTime :
  digits_val v0 ds = Some v -> 0 <= v0 -> v < 2 ^ 64 ->
  dur_loop (ds +:+ rest) (mkDur total v0 inTime) = dur_loop rest (mkDur total v inTime).
Proof.
  revert v0. induction ds as [|c ds IH]; intros v0; simpl; [by intros [= ->]|].
  destruct (is_digit_ascii c) eqn:Ec; [|done]. intros Hv H0 Hlt.
  assert (byte_between 48 57 c = true) as Hb by exact Ec.
  assert (0 <= byte_val c - 48) as Hc by (unfold byte_between in Hb; bool_props; lia).
  pose proof (digits_val_ge _ _ _ Hv ltac:(lia)) as Hge.
  unfold dur_step. cbn [du_total du_value du_inTime]. rewrite Hb. simpl. rewrite u64_small by lia. apply IH; [done|lia|done].
Qed.

(** The duration of days, hours, minutes and seconds, as JSCalendar writes it. *)
Definition iso_duration (d h m s : Z) : string :=
  "P" +:+ fmt_d d +:+ "DT" +:+ fmt_d h +:+ "H" +:+ fmt_d m +:+ "M" +:+ fmt_d s +:+ "S".
Definition duration_ns (d h m s : Z) : Z := (((d * 24 + h) * 60 + m) * 60 + s) * second.

Lemma fmt_d_value n : 0 <= n -> digits_val 0 (fmt_d n) = Some n.
Proof. intros Hn. rewrite fmt_d_N by done. by rewrite digits_val_pretty, Z2N.id by done. Qed.

Lemma dur_component n rest total inTime :
  0 <= n < 2 ^ 64 -> dur_loop (fmt_d n +:+ rest) (mkDur total 0 inTime) = dur_loop rest (mkDur total n inTime).
Proof. intros Hn. apply dur_digits; [apply fmt_d_value; lia|lia|lia]. Qed.

Lemma dur_flush_small total n inTime unit :
  0 <= n -> 0 <= total -> 0 < unit -> total + n * unit < 2 ^ 63 -> dur_flush unit (mkDur total n inTime) = mkDur (total + n * unit) 0 inTime.
Proof.
  intros Hn Ht Hu Hs. unfold dur_flush. cbn [du_total du_value du_inTime].
  assert (n <= n * unit) by nia. rewrite (i64_small n), (i64_small (n * unit)), i64_small by nia. done.
Qed.

Lemma fmt_d_graphic z : 0 <= z -> str_forallb graphic (fmt_d z) = true.
Proof.
  intros Hz. eapply str_forallb_impl; [|by apply fmt_d_digits]. intros c. unfold is_digit_ascii, graphic, byte_between.
  intros Hc. bool_props. lia.
Qed.

Lemma iso_duration_graphic d h m s :
  0 <= d -> 0 <= h -> 0 <= m -> 0 <= s -> str_forallb graphic (iso_duration d h m s) = true.
Proof. intros. unfold iso_duration. by rewrite !str_forallb_app, !fmt_d_graphic. Qed.

(** One component: a number and the letter of its unit. *)
Lemma dur_unit n c unit rest total inTime :
  0 <= n -> 0 <= total -> 0 < unit -> total + n * unit < 2 ^ 63 ->
  (forall st, du_inTime st = inTime -> dur_step st c = Some (dur_flush unit st)) ->
  dur_loop (fmt_d n +:+ String c rest) (mkDur total 0 inTime) = dur_loop rest (mkDur (total + n * unit) 0 inTime).
Proof.
  intros Hn Ht Hu Hs Hc. rewrite dur_component by nia. cbn [dur_loop]. rewrite Hc by done. cbn [mbind option_bind].
  by rewrite dur_flush_small.
Qed.

Lemma dur_time r total v inTime : dur_loop (String "T" r) (mkDur total v inTime) = dur_loop r (mkDur total v true).
Proof. done. Qed.

(** ** Properties *)

(** Durations are read exactly.  A duration of days, hours, minutes and
    seconds that fits the nanosecond counter is read as its length, however
    large the single components are. *)
Theorem duration_read_exactly d h m s :
  0 <= d -> 0 <= h -> 0 <= m -> 0 <= s -> duration_ns d h m s < 2 ^ 63 ->
  ParseISODuration (iso_duration d h m s) = Some (duration_ns d h m s).
Proof.
  intros Hd Hh Hm Hs Hsum. unfold ParseISODuration.
  rewrite TrimSpace_graphic by (by apply iso_duration_graphic). unfold iso_duration, duration_ns in *.
  change ("P" +:+ ?t) with (String "P" t). cbv iota beta. change ("DT" +:+ ?t) with (String "D" (String "T" t)).
  change ("H" +:+ ?t) with (String "H" t). change ("M" +:+ ?t) with (String "M" t). change ("S") with (String "S" EmptyString).
  assert (0 < second) by done. unfold second in *.
  rewrite (dur_unit d _ (24 * hour)); [|unfold hour, second; lia..|by intros [? ? []]]. rewrite dur_time.
  rewrite (dur_unit h _ hour); [|unfold hour, second; lia..|by intros [? ? []]].
  rewrite (dur_unit m _ (60 * second)); [|unfold hour, second; lia..|by intros [? ? []]].
  rewrite (dur_unit s _ second); [|unfold hour, second; lia..|by intros [? ? []]].
  simpl. unfold hour, second. f_equal. lia.
Qed.

Lemma duration_read_exactly_witness : ParseISODuration "P1DT2H30M0S" = Some (95400 * second).
Proof. apply (duration_read_exactly 1 2 30 0); vm_compute; first [reflexivity | discriminate]. Defined.

(** Long and incomplete durations are accepted.  The comment of
    [ParseISODuration] says that malformed input is refused, but an empty
    duration is zero, a number without a unit is dropped, and the digits before
    a T run on into the number after it; and a duration of 300 years overflows
    the nanosecond counter, so that the event ends before it starts. *)
Theorem bad_durations_accepted :
  ParseISODuration "P" = Some 0 /\ ParseISODuration "P5" = Some 0 /\ ParseISODuration "PT1H30" = Some hour
  /\ ParseISODuration "P1T1H" = Some (11 * hour)
  /\ exists n, ParseISODuration "P300Y" = Some n /\ n < 0.
Proof. split_and!; [vm_compute; reflexivity..|]. eexists. split; [vm_compute; reflexivity|reflexivity]. Qed.


(** The rules of the examples never occur. *)
Definition demo_rules : RRules := {| rrule_valid _ := true; rrule_between _ _ _ := []; set_between _ _ _ _ _ := [] |}.
Definition demo_event (start : string) (overrides : gmap string obj) : CalendarEvent :=
  set_ev_ID "e1" (set_ev_UID "u1" (set_ev_Title "Standup" (set_ev_Start start (set_ev_Duration "PT30M" (set_ev_TimeZone "Europe/Berlin"
    (set_ev_RecurrenceOverrides ((fun m : obj => (Some (list_to_map m : gmap string json) : nil_map json)) <$> overrides) (zero_ev (H := ascii_runtime) (H0 := demo_first)))))))).
Definition demo_range A (m : gmap string A) : list (string * A) := map_to_list m.


(** An event whose every occurrence is excluded comes back.  When no
    recurrence id has an instance left, the expansion answers with the event
    itself at its start, so that an excluded event still matches the date
    conditions of a query. *)
Theorem excluded_event_reappears `{GoRuntime} `{TimeZones} `{RRules} ev horizon start
    (range : forall A, gmap string A -> list (string * A)) (all_visited : visits_all range) :
  parseEventStart ev = Some start ->
  (forall id t, start_of ev start (if IsZero horizon then AddYears start 5 else horizon) id = Some t -> instance_of ev (id, t) = None) ->
  ExpandRecurrenceInstances range ev horizon = [mkInstance (ev_Start ev) start (Add start (event_duration ev))].
Proof.
  intros Hs Hnone. unfold ExpandRecurrenceInstances. rewrite Hs. destruct (negb (has_rules ev) && _); [done|].
  set (limit := if IsZero horizon then _ else _) in *.
  change (omap _ (range _ _)) with (instances ev range start limit).
  assert (instances ev range start limit = []) as ->; [|done].
  apply elem_of_nil_inv. intros i (t & Ht & Hi)%instances_elem; [|done]. by rewrite (Hnone _ _ Ht) in Hi.
Qed.

(** The one occurrence of an event that has an override for it only. *)
Lemma excluded_only (id : string) (t : Time) :
  id <> "2024-01-01T10:00:00" ->
  start_of (H := ascii_runtime) (H0 := demo_zones) (H1 := demo_rules) (demo_event "2024-01-01T10:00:00" {["2024-01-01T10:00:00" := [("excluded", JBool true)]]})
    (mkTime (1704099600 * second) (Zone "Europe/Berlin")) (AddYears (H := demo_zones) (mkTime (1704099600 * second) (Zone "Europe/Berlin")) 5) id <> Some t.
Proof.
  intros Hne. unfold start_of, rule_starts.
  assert (has_rules (demo_event "2024-01-01T10:00:00" {["2024-01-01T10:00:00" := [("excluded", JBool true)]]}) = false) as -> by (vm_compute; reflexivity).
  assert (formatRecKey (H0 := demo_zones) (demo_event "2024-01-01T10:00:00" {["2024-01-01T10:00:00" := [("excluded", JBool true)]]})
    (mkTime (1704099600 * second) (Zone "Europe/Berlin")) = "2024-01-01T10:00:00") as -> by (vm_compute; reflexivity).
  rewrite lookup_singleton_ne by congruence.
  assert (overrides (demo_event "2024-01-01T10:00:00" {["2024-01-01T10:00:00" := [("excluded", JBool true)]]})
    = {["2024-01-01T10:00:00" := [("excluded", JBool true)]]}) as -> by (vm_compute; reflexivity).
  by rewrite lookup_singleton_ne by congruence.
Qed.

Lemma excluded_event_reappears_witness :
  map ri_RecurrenceID (ExpandRecurrenceInstances (H := ascii_runtime) (H0 := demo_zones) (H1 := demo_rules) demo_range
    (demo_event "2024-01-01T10:00:00" {["2024-01-01T10:00:00" := [("excluded", JBool true)]]}) zero_time) = ["2024-01-01T10:00:00"].
Proof.
  rewrite (excluded_event_reappears (H := ascii_runtime) (H0 := demo_zones) (H1 := demo_rules)
           (demo_event "2024-01-01T10:00:00" {["2024-01-01T10:00:00" := [("excluded", JBool true)]]}) zero_time
           (mkTime (1704099600 * second) (Zone "Europe/Berlin")) demo_range (fun A m => reflexivity _)).
  - reflexivity.
  - vm_compute. reflexivity.
  - intros id t Ht. destruct (decide (id = "2024-01-01T10:00:00")) as [->|Hne].
    + vm_compute. reflexivity.
    + exfalso. by apply (excluded_only id t).
Defined.

(** ** Lemmas: UTC timestamps *)

Lemma pad_two_graphic n : 0 <= n <= 99 -> str_forallb graphic (pad 2 n) = true.
Proof. intros Hn. apply (check_from_spec (fun n => str_forallb graphic (pad 2 n)) 100 0); [by vm_compute|lia]. Qed.

Lemma Format_UTC_graphic `{TimeZones} t :
  0 <= fst (fst (date_of_days (unix_of t / day_seconds))) <= 9999 -> str_forallb graphic (Format_UTC t) = true.
Proof.
  unfold Format_UTC, Format_second.
  assert (wall_seconds (In_loc t UTC) = unix_of t) as -> by (unfold wall_seconds, unix_of; simpl; lia).
  pose proof (fields_of_seconds (unix_of t)) as Hf. destruct (date_of_days _) as [[y m] d]. cbv zeta in Hf. cbn [fst]. intros Hy.
  pose proof (days_in_bound m y). destruct Hf as (_ & Hh & Hmi & Hs & Hm & Hd).
  rewrite pad_four by done. rewrite !str_forallb_app, !pad_two_graphic by (Z.to_euclidean_division_equations; lia). done.
Qed.

Lemma bound_of_utc `{TimeZones} t l :
  0 <= fst (fst (date_of_days (unix_of t / day_seconds))) <= 9999 ->
  ParseLocalDateTimeBound (Format_UTC t) l = Some (mkTime (unix_of t * second) UTC).
Proof.
  intros Hy. unfold ParseLocalDateTimeBound. rewrite TrimSpace_graphic by (by apply Format_UTC_graphic).
  assert (Format_UTC t <> EmptyString) as Hne by (unfold Format_UTC; by destruct (Format_second _)).
  rewrite (proj2 (String.eqb_neq _ _) Hne). assert (HasSuffix (Format_UTC t) "Z" = true) as -> by apply HasSuffix_app. cbn [negb andb].
  unfold bound_layouts. cbn [first_layout].
  assert (wall_seconds (In_loc t UTC) = unix_of t) as Hw by (unfold wall_seconds, unix_of; simpl; lia). rewrite <- Hw in Hy.
  assert (ParseInLocation RFC3339Nano (Format_UTC t) l = Some (mkTime (unix_of t * second) UTC)) as E.
  { apply (parse_formatted t [LFrac; LZone] "Z" (Some None)); [done|done|done|by left]. }
  by rewrite E.
Qed.

(** The UTC start of an event is a fixed point.  The text [ComputeUTCStart]
    gives for a time of the years 0 to 9999 is read again, in whatever zone,
    as the same second, so computing the UTC start once more changes nothing;
    and the UTC end with a zero duration is the UTC start. *)
Theorem utc_start_idempotent `{TimeZones} t tz :
  0 <= fst (fst (date_of_days (unix_of t / day_seconds))) <= 9999 ->
  ComputeUTCStart (Format_UTC t) tz = Format_UTC t
  /\ ComputeUTCEnd (Format_UTC t) "PT0S" tz = Format_UTC t.
Proof.
  intros Hy. assert (Format_UTC t <> EmptyString) as Hne by (unfold Format_UTC; by destruct (Format_second _)).
  assert (unix_of (mkTime (unix_of t * second) UTC) = unix_of t) as Hu.
  { unfold unix_of at 1. cbn [t_ns]. by rewrite Z.div_mul. }
  assert (forall s, unix_of s = unix_of t -> Format_UTC s = Format_UTC t) as Hfmt.
  { intros s E. unfold Format_UTC, Format_second, wall_seconds. unfold unix_of in *. simpl. by rewrite E. }
  unfold ComputeUTCStart, ComputeUTCEnd. rewrite (proj2 (String.eqb_neq _ _) Hne), bound_of_utc by done.
  split; apply Hfmt; [done|]. change (default hour (ParseISODuration "PT0S")) with 0.
  unfold unix_of at 1. simpl. by rewrite Z.add_0_r, Z.div_mul.
Qed.

Lemma utc_start_idempotent_witness :
  ComputeUTCStart (H := demo_zones) "2024-02-29T12:34:56Z" "Europe/Berlin" = "2024-02-29T12:34:56Z".
Proof.
  refine (eq_trans _ (eq_trans (proj1 (utc_start_idempotent (H := demo_zones) (mkTime (1709210096 * second) UTC) "Europe/Berlin" _)) _)).
  - vm_compute. reflexivity.
  - vm_compute. split; discriminate.
  - vm_compute. reflexivity.
Defined.

(** ** The order of events *)

Definition event_tie (a b : CalendarEvent) : comparison :=
  match String.compare (ev_Start a) (ev_Start b) with Eq => String.compare (ev_ID a) (ev_ID b) | r => r end.
Fixpoint event_cmp `{GoRuntime} (comparators : list Comparator) (a b : CalendarEvent) : comparison :=
  match comparators with
  | [] => event_tie a b
  | c :: rest =>
      let k := event_key (c_Property c) in
      match (if c_IsAscending c then String.compare (k a) (k b) else CompOpp (String.compare (k a) (k b))) with
      | Eq => event_cmp rest a b
      | r => r
      end
  end.

Lemma lawful_event_cmp `{GoRuntime} cs : lawful (event_cmp cs).
Proof.
  induction cs as [|c cs IH]; cbn [event_cmp].
  - apply (lawful_lex (fun a b => String.compare (ev_Start a) (ev_Start b)) (fun a b => String.compare (ev_ID a) (ev_ID b)));
      [apply (lawful_key String.compare ev_Start), lawful_string|apply (lawful_key String.compare ev_ID), lawful_string].
  - apply (lawful_lex (fun a b => if c_IsAscending c
        then String.compare (event_key (c_Property c) a) (event_key (c_Property c) b)
        else CompOpp (String.compare (event_key (c_Property c) a) (event_key (c_Property c) b)))); [|exact IH].
    pose proof (lawful_key String.compare (event_key (c_Property c)) lawful_string) as Hk.
    destruct (c_IsAscending c); [exact Hk|by apply lawful_opp].
Qed.


Lemma event_less_cmp `{GoRuntime} cs a b : event_less cs a b = lt_of (event_cmp cs) a b.
Proof.
  unfold lt_of. induction cs as [|c cs IH]; cbn [event_less event_cmp].
  - unfold event_tie, String.ltb. destruct (String.eqb_spec (ev_Start a) (ev_Start b)) as [->|Hne]; simpl.
    + by rewrite compare_self.
    + destruct (String.compare (ev_Start a) (ev_Start b)) eqn:E; [|done..]. by apply String.compare_eq_iff in E.
  - destruct (String.compare _ _); simpl; by destruct (c_IsAscending c).
Qed.

Lemma sort_events_eq `{GoRuntime} cs l : SortCalendarEvents l cs = stable_sort (lt_of (event_cmp cs)) l.
Proof.
  unfold SortCalendarEvents. rewrite <- (map_id (stable_sort (event_less cs) l)).
  rewrite (stable_sort_map id (event_less cs) (lt_of (event_cmp cs))); [by rewrite map_id|].
  intros a b. symmetry. apply event_less_cmp.
Qed.

Lemma event_cmp_tie `{GoRuntime} cs a b : event_cmp cs a b = Eq -> ev_ID a = ev_ID b.
Proof.
  induction cs as [|c cs IH]; cbn [event_cmp].
  - unfold event_tie. destruct (String.compare (ev_Start a) _); [|done..]. by intros E%String.compare_eq_iff.
  - destruct (if c_IsAscending c then _ else _); [exact IH|done..].
Qed.


(** The order of events is determined by the query.  Sorting events with
    distinct ids gives them in the order of the comparators, then by start and
    by id, and the result is the same in whatever order they were listed. *)
Theorem event_order_deterministic `{GoRuntime} cs l l' :
  NoDup (map ev_ID l) -> l ≡ₚ l' ->
  SortCalendarEvents l cs = SortCalendarEvents l' cs
  /\ SortCalendarEvents l cs ≡ₚ l
  /\ StronglySorted (fun a b => event_cmp cs a b <> Gt) (SortCalendarEvents l cs).
Proof.
  intros Hnd Hp. rewrite !sort_events_eq. destruct (stable_sort_spec _ (lawful_event_cmp cs) l) as (P & S & _).
  split_and!; [|exact P|exact S]. apply stable_sort_unique; [apply lawful_event_cmp| |exact Hp].
  intros a b Ha Hb E%event_cmp_tie. by apply (NoDup_map_inj ev_ID l).
Qed.

Lemma event_order_deterministic_witness :
  SortCalendarEvents (H := ascii_runtime) [demo_event "2024-01-02" ∅; set_ev_ID "e0" (demo_event "2024-01-01" ∅)] []
  = SortCalendarEvents (H := ascii_runtime) [set_ev_ID "e0" (demo_event "2024-01-01" ∅); demo_event "2024-01-02" ∅] [].
Proof.
  apply (event_order_deterministic (H := ascii_runtime) []).
  - apply (bool_decide_unpack _). vm_compute. exact I.
  - apply perm_swap.
Defined.
