(* ===== verification/Calendars.v ===== *)
(** * Calendar methods

    [jmap/jmapcalendar/calendar_handlers.go], [calendar_notification_handlers.go]
    and [share_notification_handlers.go]: the methods of calendars, participant
    identities and the two kinds of notifications over the interface of a
    calendars backend ([backend.go]).  The methods of events are in
    [CalendarMethods]. *)

From S2P Require Import Prelude GoSort GoStrings GoState Json Envelope CreationRefs Query Handler Server MailTypes MethodSupport GoJson CalendarTypes CalendarEvents.
From Stdlib Require Import Ascii.

(** ** The backend *)

(** The four operations that every type of objects has.  The ids of a get are
    [None] where the code passes nil.  Lists have no nil entries. *)
Record Reads (W A : Type) : Type := mkReads {
  rd_State : Ctx -> W -> string;
  rd_Changes : Ctx -> string -> St W (list string * list string * list string * string * bool);
  rd_Get : Ctx -> option (list string) -> St W (list A * list string * option go_error);
  rd_GetAll : Ctx -> St W (list A * option go_error);
}.
Arguments rd_State {W A} _ _ _.
Arguments rd_Changes {W A} _ _ _ _.
Arguments rd_Get {W A} _ _ _ _.
Arguments rd_GetAll {W A} _ _ _.

(** The error that [CalendarHasEvents] returns beside its answer is not looked
    at. *)
Record CalendarsBackend (W : Type) : Type := mkCalendars {
  kb_Calendars : Reads W Calendar;
  kb_CreateCalendar : Ctx -> Calendar -> St W (result go_error Calendar);
  kb_UpdateCalendar : Ctx -> string -> obj -> St W (result go_error Calendar);
  kb_DeleteCalendar : Ctx -> string -> St W (result go_error bool);
  kb_SetDefaultCalendar : Ctx -> string -> St W (option go_error);
  kb_CalendarHasEvents : Ctx -> string -> St W bool;
  kb_Events : Reads W CalendarEvent;
  kb_CreateCalendarEvent : Ctx -> CalendarEvent -> St W (result go_error CalendarEvent);
  kb_UpdateCalendarEvent : Ctx -> string -> obj -> St W (result go_error CalendarEvent);
  kb_DeleteCalendarEvent : Ctx -> string -> St W (result go_error bool);
  kb_QueryCalendarEvents : Ctx -> option obj -> list Comparator -> Z -> option Z -> bool -> St W (list string * Z * option go_error);
  kb_Identities : Reads W ParticipantIdentity;
  kb_CreateParticipantIdentity : Ctx -> ParticipantIdentity -> St W (result go_error ParticipantIdentity);
  kb_UpdateParticipantIdentity : Ctx -> string -> obj -> St W (result go_error ParticipantIdentity);
  kb_DeleteParticipantIdentity : Ctx -> string -> St W (result go_error bool);
  kb_SetDefaultParticipantIdentity : Ctx -> string -> St W (option go_error);
  kb_Notifications : Reads W CalendarEventNotification;
  kb_CreateCalendarEventNotification : Ctx -> CalendarEventNotification -> St W (result go_error CalendarEventNotification);
  kb_DeleteCalendarEventNotification : Ctx -> string -> St W (result go_error bool);
  kb_QueryCalendarEventNotifications : Ctx -> option obj -> list Comparator -> Z -> option Z -> St W (list string * Z * option go_error);
  kb_Shares : Reads W ShareNotification;
  kb_CreateShareNotification : Ctx -> ShareNotification -> St W (result go_error ShareNotification);
  kb_DeleteShareNotification : Ctx -> string -> St W (result go_error bool);
  kb_QueryShareNotifications : Ctx -> option obj -> list Comparator -> Z -> option Z -> St W (list string * Z * option go_error);
}.
Arguments kb_Calendars {W} _.
Arguments kb_CreateCalendar {W} _ _ _ _.
Arguments kb_UpdateCalendar {W} _ _ _ _ _.
Arguments kb_DeleteCalendar {W} _ _ _ _.
Arguments kb_SetDefaultCalendar {W} _ _ _ _.
Arguments kb_CalendarHasEvents {W} _ _ _ _.
Arguments kb_Events {W} _.
Arguments kb_CreateCalendarEvent {W} _ _ _ _.
Arguments kb_UpdateCalendarEvent {W} _ _ _ _ _.
Arguments kb_DeleteCalendarEvent {W} _ _ _ _.
Arguments kb_QueryCalendarEvents {W} _ _ _ _ _ _ _ _.
Arguments kb_Identities {W} _.
Arguments kb_CreateParticipantIdentity {W} _ _ _ _.
Arguments kb_UpdateParticipantIdentity {W} _ _ _ _ _.
Arguments kb_DeleteParticipantIdentity {W} _ _ _ _.
Arguments kb_SetDefaultParticipantIdentity {W} _ _ _ _.
Arguments kb_Notifications {W} _.
Arguments kb_CreateCalendarEventNotification {W} _ _ _ _.
Arguments kb_DeleteCalendarEventNotification {W} _ _ _ _.
Arguments kb_QueryCalendarEventNotifications {W} _ _ _ _ _ _ _.
Arguments kb_Shares {W} _.
Arguments kb_CreateShareNotification {W} _ _ _ _.
Arguments kb_DeleteShareNotification {W} _ _ _ _.
Arguments kb_QueryShareNotifications {W} _ _ _ _ _ _ _.

Section Methods.
Context `{GoRuntime} `{FirstKey} {W : Type}.
Variable b : CalendarsBackend W.
Variable order : MapOrder.

(** ** Methods that the types share *)

Section Typed.
Context {A : Type} `{Wire A}.
Variables (type : string) (reads : Reads W A).

(** What a get reads; [skip] is set where an empty list of ids is not handed
    to the backend. *)
Definition get_objects (skip : bool) (c : Ctx) (args : obj) : St (HState W) (list A * list string) :=
  r ← back (match get_arr args "ids" with
            | Some idsRaw =>
                if skip && (length idsRaw =? 0)%nat then mret ([], [], None)
                else rd_Get reads c (Some (strings_of idsRaw))
            | None => r ← rd_GetAll reads c; mret (fst r, [], snd r)
            end);
  let '(l, notFound, err) := r in
  mret (match err with Some _ => [] | None => l end, notFound).
Definition get_answer (c : Ctx) (args : obj) (l : list A) (notFound : list string) : St (HState W) (string * obj) :=
  state ← gets (fun s => rd_State reads c (fst s));
  mret (type +:+ "/get",
        [("accountId", JStr (str_or_empty args "accountId")); ("state", JStr state);
         ("list", JArr (FilterList (map wjson l) (ParseProperties args))); ("notFound", jstrs notFound)]).
Definition get_handler (skip : bool) : BackendHandler W := fun c args =>
  r ← get_objects skip c args;
  get_answer c args (fst r) (snd r).

Definition changes_handler : BackendHandler W := fun c args =>
  let sinceState := str_or_empty args "sinceState" in
  r ← back (rd_Changes reads c sinceState);
  let '(created, updated, destroyed, newState, hasMore) := r in
  mret (type +:+ "/changes",
        changes_response (str_or_empty args "accountId") sinceState newState hasMore created updated destroyed).

(** The two kinds of notifications are queried in the same way; [validate] is
    the check of the filter. *)
Variable query : Ctx -> option obj -> list Comparator -> Z -> option Z -> St W (list string * Z * option go_error).
Variable validate : option obj -> string * string.
Variable sortable : list string.

Definition query_handler : BackendHandler W := fun c args =>
  let filter := get_obj args "filter" in
  let '(filterErr, filterMsg) := validate filter in
  let '(position, posErr) := ParseQueryPosition args in
  let '((anchor, offset), anchorErr) := ParseQueryAnchor args in
  let comparators := ParseComparators args in
  let '(errType, errMsg) := ValidateComparators comparators sortable in
  let limit := f64_to_uint64 <$> get_num args "limit" in
  if negb (String.eqb filterErr EmptyString) then mret ("error", MethodErrorArgs filterErr filterMsg)
  else if negb (String.eqb posErr EmptyString) then mret ("error", MethodErrorArgs MethodErrorInvalidArguments posErr)
  else if negb (String.eqb anchorErr EmptyString) then mret ("error", MethodErrorArgs MethodErrorInvalidArguments anchorErr)
  else if negb (String.eqb errType EmptyString) then mret ("error", MethodErrorArgs errType errMsg)
  else
    let respond position ids total :=
      state ← gets (fun s => rd_State reads c (fst s));
      mret (type +:+ "/query",
            [("accountId", JStr (str_or_empty args "accountId")); ("queryState", JStr state);
             ("canCalculateChanges", JBool true); ("position", jint position); ("total", jint total); ("ids", jstrs ids)]) in
    if negb (String.eqb anchor EmptyString)
    then r ← back (query c filter comparators 0 None);
         let '(allIDs, total, _) := r in
         match ApplyQueryAnchor anchor offset allIDs limit with
         | None => mret ("error", MethodErrorArgs MethodErrorAnchorNotFound ("anchor not found in results: " +:+ anchor))
         | Some (position, ids) => respond position ids total
         end
    else r ← back (query c filter comparators position limit);
         let '(ids, total, _) := r in respond position ids total.

Definition queryChanges_handler : BackendHandler W := fun c args =>
  let upToID := str_or_empty args "upToId" in
  let sinceState := str_or_empty args "sinceQueryState" in
  if String.eqb sinceState EmptyString
  then mret ("error", MethodErrorArgs "cannotCalculateChanges" "sinceQueryState is required")
  else
    r ← back (rd_Changes reads c sinceState);
    let '(createdIDs, updatedIDs, destroyedIDs, newState, hasMore) := r in
    if hasMore : bool then mret ("error", MethodErrorArgs "cannotCalculateChanges" "sinceQueryState is too old")
    else
      let filter := get_obj args "filter" in
      let '(filterErr, filterMsg) := validate filter in
      if negb (String.eqb filterErr EmptyString) then mret ("error", MethodErrorArgs filterErr filterMsg)
      else
        r ← back (query c filter (ParseComparators args) 0 None);
        let '(added, removed) := ComputeQueryChanges createdIDs updatedIDs destroyedIDs (fst (fst r)) upToID in
        mret (type +:+ "/queryChanges",
              [("accountId", JStr (str_or_empty args "accountId")); ("oldQueryState", JStr sinceState);
               ("newQueryState", JStr newState); ("added", added_json added); ("removed", jstrs removed)]
              ++ (if String.eqb upToID EmptyString then [] else [("upToId", JStr upToID)])).

(** Calendars and events are copied in the same way: the entry names its source
    by its id, and by its creation id where it has none. *)
Variable create : Ctx -> A -> St W (result go_error A).
Variable delete : Ctx -> string -> St W (result go_error bool).
Variables (what : string) (id_of : A -> string) (clear_id : A -> A).

Definition copy_object (source : A) (m : obj) : A := clear_id (unmarshal (JObj (MergeCopyOverrides (Some (wjson source)) m))).
Definition copy_entry (c srcCtx : Ctx) (acc : copy_acc) (kv : string * json) : St (HState W) copy_acc :=
  let '(creationID, raw) := kv in
  let m := match raw with JObj m => m | _ => [] end in
  let srcID := str_or_empty m "id" in
  let srcID := if String.eqb srcID EmptyString then creationID else srcID in
  if String.eqb srcID EmptyString
  then mret (copy_failed acc creationID (set_error "invalidProperties" "copy create entry must reference a source id"))
  else
    let resolvedSrcID := ResolveCreationID srcID (ca_refs acc) in
    r ← back (rd_Get reads srcCtx (Some [resolvedSrcID]));
    match r with
    | (source :: _, [], _) =>
        r ← back (create c (copy_object source m));
        match r with
        | Err e => mret (copy_failed acc creationID (set_error "invalidProperties" (err_Error e)))
        | Ok x =>
            refs ← record_ref (ca_refs acc) creationID (id_of x);
            mret (mkCopy refs (obj_set (ca_created acc) creationID (wjson x)) (ca_notCreated acc)
                    (ca_originals acc ++ [resolvedSrcID]))
        end
    | _ => mret (copy_failed acc creationID (set_error "notFound" ("source " +:+ what +:+ " not found: " +:+ srcID)))
    end.
Definition copy_method : BackendHandler W := fun c args =>
  let '(accountID, fromAccountID) := ResolveCopyAccountIDs args in
  let srcCtx := SourceAccountContext c args in
  checked ← gets (fun s => let st c := rd_State reads c (fst s) in ValidateCopyStates c srcCtx args st st);
  match checked with
  | Err e => mret e
  | Ok oldState =>
      refs ← new_refs;
      a ← range_obj order (get_obj args "create") (copy_entry c srcCtx) (mkCopy refs [] [] []);
      _ ← (if bool_or_false args "onSuccessDestroyOriginal"
           then fold_state (fun _ srcID => _ ← back (delete srcCtx srcID); mret tt) tt (ca_originals a)
           else mret tt);
      newState ← gets (fun s => rd_State reads c (fst s));
      mret (type +:+ "/copy",
            [("fromAccountId", JStr fromAccountID); ("accountId", JStr accountID); ("oldState", JStr oldState);
             ("newState", JStr newState); ("created", NilIfEmpty (JObj (ca_created a)));
             ("notCreated", NilIfEmpty (JObj (ca_notCreated a)))])
  end.
End Typed.

(** ** Calendars *)

Definition handleCalendarGet : BackendHandler W := get_handler "Calendar" (kb_Calendars b) true.
Definition handleCalendarChanges : BackendHandler W := changes_handler "Calendar" (kb_Calendars b).

Definition validCalendarProperties : list string :=
  ["id"; "name"; "description"; "color"; "sortOrder"; "isDefault"; "isVisible"; "isSubscribed"; "includeInAvailability";
   "defaultAlertsWithTime"; "defaultAlertsWithoutTime"; "timeZone"; "shareWith"; "myRights"].
(** The first segment of a path, and the name itself when there is one only. *)
Definition base_key (k : string) : string := if Contains k "/" then default EmptyString (head (Split k "/")) else k.
Definition unknown_property (k : string) : SetError := property_error "invalidProperties" ("unknown property: " +:+ k) [k].
Definition validateCalendarMap (m : obj) : option SetError :=
  match List.find (fun kv => negb (str_in (base_key (fst kv)) validCalendarProperties)) (range_map order m) with
  | Some (k, _) => Some (unknown_property k)
  | None => None
  end.

(** The caller is another user than the owner of the account. *)
Definition shared_caller (c : Ctx) : bool :=
  let '(caller, hasCaller) := PrincipalAccountIDFromContext c in
  hasCaller && negb (String.eqb caller EmptyString) && negb (String.eqb caller (fst (AccountIDFromContext c))).
Definition server_set_default : SetError :=
  property_error "invalidProperties" "isDefault is server-set and cannot be set directly" ["isDefault"].
Definition check_calendar (m : obj) : option SetError :=
  match obj_get m "isDefault" with Some _ => Some server_set_default | None => validateCalendarMap m end.
(** A right of the caller on a calendar; no right where it is not there. *)
Definition has_right (right : CalendarRights -> bool) (c : Ctx) (id : string) : St W bool :=
  r ← rd_Get (kb_Calendars b) c (Some [id]);
  mret (match fst (fst r) with cal :: _ => right (kl_MyRights cal) | [] => false end).
(** The check is made for other users than the owner only. *)
Definition caller_permitted (right : CalendarRights -> bool) (c : Ctx) (id : string) : St W bool :=
  if shared_caller c then has_right right c id else mret true.

Definition map_of (j : json) : obj := match j with JObj m => m | _ => [] end.
Definition create_calendar (c : Ctx) (acc : copy_acc) (kv : string * json) : St (HState W) copy_acc :=
  let '(creationID, calMapRaw) := kv in
  let calMap := map_of calMapRaw in
  if shared_caller c
  then mret (copy_failed acc creationID (set_error "forbidden" "Cannot create calendars in a shared account."))
  else match check_calendar calMap with
       | Some e => mret (copy_failed acc creationID e)
       | None =>
           r ← back (kb_CreateCalendar b c (unmarshal (JObj calMap)));
           match r with
           | Err e => mret (copy_failed acc creationID (set_error "invalidProperties" (err_Error e)))
           | Ok cal =>
               refs ← record_ref (ca_refs acc) creationID (kl_ID cal);
               mret (mkCopy refs (obj_set (ca_created acc) creationID (wjson cal)) (ca_notCreated acc) (ca_originals acc))
           end
       end.
Definition update_calendar (c : Ctx) (refs : refmap) (acc : set_acc) (kv : string * json) : St (HState W) set_acc :=
  let '(idStr, patchRaw) := kv in
  let patch := map_of patchRaw in
  let resolvedID := ResolveCreationID idStr refs in
  allowed ← back (caller_permitted kr_MayWriteAll c resolvedID);
  if negb allowed then mret (acc_failed acc resolvedID (set_error "forbidden" "You are not allowed to modify this calendar."))
  else match check_calendar patch with
       | Some e => mret (acc_failed acc resolvedID e)
       | None =>
           r ← back (kb_UpdateCalendar b c resolvedID (ResolvePatchCreationRefs patch refs));
           mret (match r with
                 | Err e => acc_failed acc resolvedID (set_error "notFound" (err_Error e))
                 | Ok _ => acc_done acc resolvedID JNull
                 end)
       end.
Definition set_default_calendar (c : Ctx) (args : obj) (refs : refmap) : St (HState W) unit :=
  let raw := str_or_empty args "onSuccessSetIsDefault" in
  if String.eqb raw EmptyString then mret tt
  else _ ← back (kb_SetDefaultCalendar b c (ResolveCreationID raw refs)); mret tt.
Definition destroy_calendar (c : Ctx) (remove : bool) (refs : refmap) (acc : destroy_acc) (idStr : string)
  : St (HState W) destroy_acc :=
  let resolvedID := ResolveCreationID idStr refs in
  allowed ← back (caller_permitted kr_MayDelete c resolvedID);
  if negb allowed then mret (destroy_failed acc resolvedID (set_error "forbidden" "You are not allowed to delete this calendar."))
  else
    full ← (if remove then mret false else back (kb_CalendarHasEvents b c resolvedID));
    if full : bool
    then mret (destroy_failed acc resolvedID
                 (set_error "calendarHasEvents" "calendar contains events; use onDestroyRemoveEvents to delete"))
    else
      r ← back (kb_DeleteCalendar b c resolvedID);
      mret (match r with
            | Ok true => destroy_done acc resolvedID
            | _ => destroy_failed acc resolvedID (set_error "notFound" "calendar cannot be deleted")
            end).

Definition handleCalendarSet : BackendHandler W := fun c args =>
  let accountID := str_or_empty args "accountId" in
  oldState ← gets (fun s => rd_State (kb_Calendars b) c (fst s));
  if state_mismatch args "ifInState" oldState
  then mret ("error", MethodErrorArgs "stateMismatch" "state mismatch")
  else
    refs ← new_refs;
    a ← range_obj order (get_obj args "create") (create_calendar c) (mkCopy refs [] [] []);
    u ← range_obj order (get_obj args "update") (update_calendar c (ca_refs a)) (mkAcc [] []);
    _ ← set_default_calendar c args (ca_refs a);
    d ← range_strings (get_arr args "destroy")
          (destroy_calendar c (bool_or_false args "onDestroyRemoveEvents") (ca_refs a)) (mkDestroy [] []);
    newState ← gets (fun s => rd_State (kb_Calendars b) c (fst s));
    mret ("Calendar/set", set_response accountID oldState newState (ca_created a) (ca_notCreated a) u d).

Definition handleCalendarCopy : BackendHandler W :=
  copy_method "Calendar" (kb_Calendars b) (kb_CreateCalendar b) (kb_DeleteCalendar b) "calendar" kl_ID (set_kl_ID EmptyString).

(** ** Participant identities *)

Definition handleParticipantIdentityGet : BackendHandler W := get_handler "ParticipantIdentity" (kb_Identities b) false.
Definition handleParticipantIdentityChanges : BackendHandler W := changes_handler "ParticipantIdentity" (kb_Identities b).

(** A byte that is not ASCII is part of a rune that is none of these. *)
Definition ascii_alphanumeric (s : string) : bool := str_forallb is_alnum_ascii s.
Definition validateParticipantIdentityPayload (m : obj) : option SetError :=
  match obj_get m "isDefault" with
  | Some _ => Some server_set_default
  | None =>
      match get_obj m "sendTo" with
      | Some sendTo =>
          match List.find (fun kv => negb (ascii_alphanumeric (fst kv))) (range_map order sendTo) with
          | Some (k, _) =>
              Some (property_error "invalidProperties" ("sendTo keys must only contain ASCII alphanumeric characters: " +:+ k) ["sendTo"])
          | None => None
          end
      | None => None
      end
  end.
Definition create_participant (c : Ctx) (cid : string) (node : obj) : St W (result create_error (string * json)) :=
  match validateParticipantIdentityPayload node with
  | Some e => mret (Err (ESet e))
  | None =>
      r ← kb_CreateParticipantIdentity b c (unmarshal (JObj node));
      mret (match r with Err e => Err (create_error_of e) | Ok pi => Ok (pt_ID pi, wjson pi) end)
  end.
Definition update_participant (c : Ctx) (refs : refmap) (acc : set_acc) (kv : string * json) : St (HState W) set_acc :=
  let '(idStr, patchRaw) := kv in
  let rawPatch := map_of patchRaw in
  let resolvedID := ResolveCreationID idStr refs in
  match validateParticipantIdentityPayload rawPatch with
  | Some e => mret (acc_failed acc resolvedID e)
  | None =>
      r ← back (kb_UpdateParticipantIdentity b c resolvedID (ResolvePatchCreationRefs rawPatch refs));
      mret (match r with
            | Err e => acc_failed acc resolvedID (set_error "notFound" (err_Error e))
            | Ok _ => acc_done acc resolvedID JNull
            end)
  end.
(** A destroy that asks the backend only. *)
Definition destroy_object (delete : Ctx -> string -> St W (result go_error bool)) (what : string) (c : Ctx)
    (acc : destroy_acc) (id : string) : St (HState W) destroy_acc :=
  r ← back (delete c id);
  mret (match r with
        | Ok true => destroy_done acc id
        | _ => destroy_failed acc id (set_error "notFound" (what +:+ " not found"))
        end).
Definition set_default_identity (c : Ctx) (args : obj) (refs : refmap) (u : set_acc) : St (HState W) set_acc :=
  let raw := str_or_empty args "onSuccessSetIsDefault" in
  if String.eqb raw EmptyString then mret u
  else
    let targetID := ResolveCreationID raw refs in
    err ← back (kb_SetDefaultParticipantIdentity b c targetID);
    mret (match err with None => acc_done u targetID (JObj [("isDefault", JBool true)]) | Some _ => u end).

Definition handleParticipantIdentitySet : BackendHandler W := fun c args =>
  let accountID := str_or_empty args "accountId" in
  oldState ← gets (fun s => rd_State (kb_Identities b) c (fst s));
  if state_mismatch args "ifInState" oldState
  then mret ("error", MethodErrorArgs "stateMismatch" "state mismatch")
  else
    refs ← new_refs;
    r ← run_creates order (create_participant c) args refs;
    let '(refs, created, notCreated) := r in
    u ← range_obj order (get_obj args "update") (update_participant c refs) (mkAcc [] []);
    d ← range_strings (get_arr args "destroy")
          (fun acc id => destroy_object (kb_DeleteParticipantIdentity b) "participant identity" c acc (ResolveCreationID id refs))
          (mkDestroy [] []);
    u ← set_default_identity c args refs u;
    newState ← gets (fun s => rd_State (kb_Identities b) c (fst s));
    mret ("ParticipantIdentity/set", set_response accountID oldState newState created notCreated u d).

(** ** Notifications *)

Definition handleCalendarEventNotificationGet : BackendHandler W := get_handler "CalendarEventNotification" (kb_Notifications b) false.
Definition handleCalendarEventNotificationChanges : BackendHandler W := changes_handler "CalendarEventNotification" (kb_Notifications b).

(** Creates and updates are refused, whatever they hold. *)
Definition refuse_all (e : SetError) (rename : string -> string) (m : option obj) : obj :=
  foldl (fun acc kv => obj_set acc (rename (fst kv)) (SetError_json e)) [] (range_map order (default [] m)).
Definition handleCalendarEventNotificationSet : BackendHandler W := fun c args =>
  let accountID := str_or_empty args "accountId" in
  oldState ← gets (fun s => rd_State (kb_Notifications b) c (fst s));
  if state_mismatch args "ifInState" oldState
  then mret ("error", MethodErrorArgs "stateMismatch" "state mismatch")
  else
    refs ← new_refs;
    let notCreated := refuse_all (set_error "forbidden" "CalendarEventNotification objects are created by the server and cannot be created by clients")
                        id (get_obj args "create") in
    let notUpdated := refuse_all (set_error "forbidden" "CalendarEventNotification objects are managed by the server and cannot be updated by clients")
                        (fun id => ResolveCreationID id refs) (get_obj args "update") in
    d ← range_strings (get_arr args "destroy")
          (fun acc id => destroy_object (kb_DeleteCalendarEventNotification b) "calendar event notification" c acc (ResolveCreationID id refs))
          (mkDestroy [] []);
    newState ← gets (fun s => rd_State (kb_Notifications b) c (fst s));
    mret ("CalendarEventNotification/set", set_response accountID oldState newState [] notCreated (mkAcc [] notUpdated) d).

Definition notificationSortableProperties : list string := ["created"].
Definition handleCalendarEventNotificationQuery : BackendHandler W :=
  query_handler "CalendarEventNotification" (kb_Notifications b) (kb_QueryCalendarEventNotifications b)
    (fun _ => (EmptyString, EmptyString)) notificationSortableProperties.
Definition handleCalendarEventNotificationQueryChanges : BackendHandler W :=
  queryChanges_handler "CalendarEventNotification" (kb_Notifications b) (kb_QueryCalendarEventNotifications b)
    (fun _ => (EmptyString, EmptyString)).

(** The person of a notification: the first owner in the order of the map, the
    organizer, or nobody. *)
Variable range : forall A, gmap string A -> list (string * A).
Definition person (name email calAddr : string) : CalendarEventNotificationPerson :=
  mkPerson name (Some email) (Some (AccountIDForSubject email)) (Some calAddr).
Definition owner_person (p : JSCalendarParticipant) : CalendarEventNotificationPerson :=
  let email := if String.eqb (pa_Email p) EmptyString && negb (String.eqb (pa_CalendarAddress p) EmptyString)
               then TrimPrefix (pa_CalendarAddress p) "mailto:" else pa_Email p in
  let name := if String.eqb (pa_Name p) EmptyString then email else pa_Name p in
  let calAddr := if String.eqb (pa_CalendarAddress p) EmptyString && negb (String.eqb email EmptyString)
                 then "mailto:" +:+ email else pa_CalendarAddress p in
  person name email calAddr.
Definition notificationChangedBy (ev : CalendarEvent) : CalendarEventNotificationPerson :=
  match List.find is_owner (omap snd (range _ (ev_Participants ev))) with
  | Some p => owner_person p
  | None =>
      if String.eqb (ev_OrganizerCalendarAddress ev) EmptyString then zero_np
      else let email := TrimPrefix (ev_OrganizerCalendarAddress ev) "mailto:" in
           person email email (ev_OrganizerCalendarAddress ev)
  end.

(** ** Share notifications *)

Definition handleShareNotificationGet : BackendHandler W := get_handler "ShareNotification" (kb_Shares b) true.
Definition handleShareNotificationChanges : BackendHandler W := changes_handler "ShareNotification" (kb_Shares b).
Definition handleShareNotificationSet : BackendHandler W := fun c args =>
  let accountID := str_or_empty args "accountId" in
  oldState ← gets (fun s => rd_State (kb_Shares b) c (fst s));
  if state_mismatch args "ifInState" oldState
  then mret ("error", MethodErrorArgs "stateMismatch" "state mismatch")
  else
    let notCreated := refuse_all (set_error "forbidden" "Cannot create share notifications.") id (get_obj args "create") in
    let notUpdated := refuse_all (set_error "forbidden" "Cannot update share notifications.") id (get_obj args "update") in
    d ← range_strings (get_arr args "destroy") (destroy_object (kb_DeleteShareNotification b) "share notification" c) (mkDestroy [] []);
    newState ← gets (fun s => rd_State (kb_Shares b) c (fst s));
    mret ("ShareNotification/set",
          [("accountId", JStr accountID); ("oldState", JStr oldState); ("newState", JStr newState);
           ("created", JNull); ("updated", JNull); ("destroyed", jstrs (da_destroyed d));
           ("notCreated", NilIfEmpty (JObj notCreated)); ("notUpdated", NilIfEmpty (JObj notUpdated));
           ("notDestroyed", NilIfEmpty (JObj (da_failed d)))]).

Definition shareNotificationSortableProperties : list string := ["created"].
Definition shareNotificationFilterConditions : list string := ["after"; "before"; "objectType"; "objectAccountId"].
Definition validCalendarFilterOperators : list string := ["AND"; "OR"; "NOT"].

(** The first answer that is an error. *)
Fixpoint first_answer (l : list (string * string)) : string * string :=
  match l with
  | [] => (EmptyString, EmptyString)
  | e :: l' => if String.eqb (fst e) EmptyString then first_answer l' else e
  end.
(** Both filter checks walk the tree in the same way: [leaf] is the check of a
    condition, [not_object] the message for conditions that are none.  The
    fuel is the depth of the filter. *)
Fixpoint walk_filter (leaf : obj -> string * string) (not_object : string) (fuel : nat) (filter : obj) : string * string :=
  match obj_get filter "operator" with
  | Some opVal =>
      let op := match opVal with JStr s => s | _ => EmptyString end in
      if negb (str_in (ToUpper op) validCalendarFilterOperators) then ("unsupportedFilter", "unknown filter operator: " +:+ op)
      else
        match get_arr filter "conditions" with
        | Some ((_ :: _) as conds) =>
            match fuel with
            | S fuel =>
                first_answer (map (fun c => match c with
                                           | JObj cm => walk_filter leaf not_object fuel cm
                                           | _ => ("unsupportedFilter", not_object)
                                           end) conds)
            | O => (EmptyString, EmptyString)
            end
        | _ => ("unsupportedFilter", "filter operator requires a non-empty conditions array")
        end
  | None => leaf filter
  end.
Definition share_condition (filter : obj) : string * string :=
  match List.find (fun kv => negb (str_in (fst kv) shareNotificationFilterConditions)) (range_map order filter) with
  | Some (k, _) => ("unsupportedFilter", "unknown filter condition: " +:+ k)
  | None => (EmptyString, EmptyString)
  end.
Definition validateShareNotificationFilter (filter : option obj) : string * string :=
  match filter with
  | None => (EmptyString, EmptyString)
  | Some f => walk_filter share_condition "filter conditions must be objects" (json_depth (JObj f)) f
  end.
Definition handleShareNotificationQuery : BackendHandler W :=
  query_handler "ShareNotification" (kb_Shares b) (kb_QueryShareNotifications b) validateShareNotificationFilter
    shareNotificationSortableProperties.
Definition handleShareNotificationQueryChanges : BackendHandler W :=
  queryChanges_handler "ShareNotification" (kb_Shares b) (kb_QueryShareNotifications b) validateShareNotificationFilter.
End Methods.

(** ** What Calendar/set asks of the backend *)

(** The caller may do it: it is the owner of the account, or the calendar is
    there and grants the right. *)
Definition granted {W} (b : CalendarsBackend W) (right : CalendarRights -> bool) (c : Ctx) (id : string) (w : W) : Prop :=
  exists cal, head (fst (fst (snd (rd_Get (kb_Calendars b) c (Some [id]) w)))) = Some cal /\ right (kl_MyRights cal) = true.
Definition may {W} (b : CalendarsBackend W) (right : CalendarRights -> bool) (c : Ctx) (id : string) (w : W) : Prop :=
  shared_caller c = false \/ granted b right c id w.
(** Known properties only, and not the one that the server sets. *)
Definition settable (m : obj) : Prop :=
  obj_get m "isDefault" = None /\ forall k v, (k, v) ∈ m -> base_key k ∈ validCalendarProperties.

(** [I] survives what the handler may do: the owner creates calendars, users
    with mayWriteAll change one, users with mayDelete delete one that is empty
    unless its events go too.  Reading leaves the store as it is. *)
Record calendar_rules `{GoRuntime} {W} (b : CalendarsBackend W) (c : Ctx) (remove : bool) (I : W -> Prop) : Prop := {
  cr_get : forall ids w, fst (rd_Get (kb_Calendars b) c ids w) = w;
  cr_has : forall id w, fst (kb_CalendarHasEvents b c id w) = w;
  cr_default : forall id w, I w -> I (fst (kb_SetDefaultCalendar b c id w));
  cr_create : forall m w, I w -> shared_caller c = false -> settable m -> I (fst (kb_CreateCalendar b c (unmarshal (JObj m)) w));
  cr_update : forall id patch refs w, I w -> may b kr_MayWriteAll c id w -> settable patch ->
    I (fst (kb_UpdateCalendar b c id (ResolvePatchCreationRefs patch refs) w));
  cr_delete : forall id w, I w -> may b kr_MayDelete c id w -> remove || negb (snd (kb_CalendarHasEvents b c id w)) = true ->
    I (fst (kb_DeleteCalendar b c id w));
}.

Lemma has_right_granted {W} (b : CalendarsBackend W) right c id w :
  (forall ids w, fst (rd_Get (kb_Calendars b) c ids w) = w) ->
  fst (has_right b right c id w) = w /\ (snd (has_right b right c id w) = true -> granted b right c id w).
Proof.
  intros Hpure. unfold has_right, granted. rewrite St_bind_eq. cbn [mret St_ret fst snd].
  split; [apply Hpure|]. destruct (fst (fst _)) as [|cal l]; [done|]. eauto.
Qed.
Lemma caller_permitted_may {W} (b : CalendarsBackend W) right c id w :
  (forall ids w, fst (rd_Get (kb_Calendars b) c ids w) = w) ->
  fst (caller_permitted b right c id w) = w /\ (snd (caller_permitted b right c id w) = true -> may b right c id w).
Proof.
  intros Hpure. unfold caller_permitted, may. destruct (shared_caller c); [|auto].
  destruct (has_right_granted b right c id w Hpure). auto.
Qed.
Lemma check_settable order m : fair order -> check_calendar order m = None -> settable m.
Proof.
  intros [_ Hr]. unfold check_calendar, validateCalendarMap, settable. destruct (obj_get m "isDefault"); [done|].
  destruct (List.find _ _) as [[? ?]|] eqn:E; [done|]. intros _. split; [done|]. intros k v Hin. rewrite <- (Hr m) in Hin.
  apply list_elem_of_In in Hin. apply (List.find_none _ _ E) in Hin. apply negb_false_iff in Hin. by apply str_in_spec.
Qed.

Section CalendarRights.
Context `{GoRuntime} {W : Type} (b : CalendarsBackend W) (order : MapOrder) (Hfair : fair order) (c : Ctx) (remove : bool) (I : W -> Prop).
Context (rules : calendar_rules b c remove I).

Lemma create_calendar_rights acc kv s : I (fst s) -> I (fst (fst (create_calendar b order c acc kv s))).
Proof.
  intros Hi. destruct kv as [cid raw]. unfold create_calendar. destruct (shared_caller c) eqn:Hs; [done|].
  destruct (check_calendar _ _) eqn:Hc; [done|]. apply check_settable in Hc; [|done].
  pose proof (cr_create _ _ _ _ rules _ (fst s) Hi Hs Hc) as Hn. rewrite St_bind_eq, back_eq. cbn [fst snd].
  destruct (snd (kb_CreateCalendar _ _ _ _)); cbn [mret St_ret fst snd]; [|done].
  rewrite St_bind_eq. unfold record_ref. cbn [fst snd]. by destruct (RecordCreationRefs _ _ _ _).
Qed.
Lemma update_calendar_rights refs acc kv s : I (fst s) -> I (fst (fst (update_calendar b order c refs acc kv s))).
Proof.
  intros Hi. destruct kv as [id raw]. unfold update_calendar. rewrite St_bind_eq, back_eq. cbn [fst snd].
  destruct (caller_permitted_may b kr_MayWriteAll c (ResolveCreationID id refs) (fst s) (cr_get _ _ _ _ rules)) as [-> Hm].
  destruct (snd (caller_permitted _ _ _ _ _)); [|done]. cbn [negb]. destruct (check_calendar _ _) eqn:Hc; [done|].
  apply check_settable in Hc; [|done]. rewrite St_bind_eq, back_eq. cbn [mret St_ret fst snd]. by apply (cr_update _ _ _ _ rules); auto.
Qed.
Lemma destroy_calendar_rights refs acc id s : I (fst s) -> I (fst (fst (destroy_calendar b c remove refs acc id s))).
Proof.
  intros Hi. unfold destroy_calendar. rewrite St_bind_eq, back_eq. cbn [fst snd].
  destruct (caller_permitted_may b kr_MayDelete c (ResolveCreationID id refs) (fst s) (cr_get _ _ _ _ rules)) as [-> Hm].
  destruct (snd (caller_permitted _ _ _ _ _)); [|done]. cbn [negb]. rewrite St_bind_eq.
  pose proof (cr_delete _ _ _ _ rules (ResolveCreationID id refs) (fst s) Hi (Hm eq_refl)) as Hd. clear Hm.
  destruct remove; [|rewrite back_eq]; cbn [mret St_ret fst snd orb] in *.
  2: rewrite (cr_has _ _ _ _ rules); destruct (snd (kb_CalendarHasEvents _ _ _ _)); [done|].
  all: rewrite St_bind_eq, back_eq; by apply Hd.
Qed.
Lemma set_default_calendar_rights args refs s : I (fst s) -> I (fst (fst (set_default_calendar b c args refs s))).
Proof.
  intros Hi. unfold set_default_calendar. destruct (String.eqb _ _); [done|]. rewrite St_bind_eq, back_eq.
  by apply (cr_default _ _ _ _ rules).
Qed.

Lemma calendar_set_world args s : bool_or_false args "onDestroyRemoveEvents" = remove -> I (fst s) -> I (fst (fst (handleCalendarSet b order c args s))).
Proof.
  intros Hr Hi. unfold handleCalendarSet. rewrite Hr. rewrite St_bind_eq. cbn [gets fst snd]. destruct (state_mismatch _ _ _); [done|].
  rewrite St_bind_eq. unfold new_refs. cbn [gets fst snd]. rewrite !St_bind_eq. cbn [gets fst snd mret St_ret].
  apply (range_strings_inv _ _ _ (fun s : HState W => I (fst s))); [intros; by apply destroy_calendar_rights|].
  apply set_default_calendar_rights.
  apply (range_obj_inv _ _ _ _ (fun s : HState W => I (fst s))); [intros; by apply update_calendar_rights|].
  apply (range_obj_inv _ _ _ _ (fun s : HState W => I (fst s))); [intros; by apply create_calendar_rights|done].
Qed.
End CalendarRights.

(** Calendar/set keeps within the rights of its caller.  Whatever property
    of the store survives setting the default, creates by the owner of the
    account with known properties other than isDefault, such patches of a
    calendar on which the caller is the owner or has mayWriteAll, and deletes
    of a calendar with mayDelete that has no events unless they go too,
    survives every request: the handler asks the backend for nothing else. *)
Theorem calendar_set_respects_rights `{GoRuntime} {W} (b : CalendarsBackend W) order c args refs (I : W -> Prop) w :
  fair order -> calendar_rules b c (bool_or_false args "onDestroyRemoveEvents") I -> I w ->
  I (fst (fst (handleCalendarSet b order c args (w, refs)))).
Proof. intros Hf Hr Hi. by apply (calendar_set_world b order Hf c _ I Hr). Qed.

(** A store of calendars in a list and the number of the default identity. *)
Definition no_reads {W A} : Reads W A :=
  mkReads _ _ (fun _ _ => EmptyString) (fun _ _ w => (w, ([], [], [], EmptyString, false))) (fun _ _ w => (w, ([], [], None)))
    (fun _ w => (w, ([], None))).
Definition calendar_list : Reads (list Calendar) Calendar :=
  mkReads _ _ (fun _ w => fmt_d (Z.of_nat (length w))) (fun _ _ w => (w, ([], [], [], EmptyString, false)))
    (fun _ ids w => (w, (match ids with Some ids => List.filter (fun cal => str_in (kl_ID cal) ids) w | None => w end, [], None)))
    (fun _ w => (w, (w, None))).
Definition demo_calendars : CalendarsBackend (list Calendar) :=
  mkCalendars _ calendar_list
    (fun _ cal w => let cal := set_kl_ID ("c" +:+ fmt_d (Z.of_nat (length w))) cal in (w ++ [cal], Ok cal))
    (fun _ _ _ w => (w, Err ErrNotFound))
    (fun _ id w => (List.filter (fun cal => negb (String.eqb (kl_ID cal) id)) w, Ok (existsb (fun cal => String.eqb (kl_ID cal) id) w)))
    (fun _ _ w => (w, None)) (fun _ _ w => (w, false))
    no_reads (fun _ ev w => (w, Ok ev)) (fun _ _ _ w => (w, Err ErrNotFound)) (fun _ _ w => (w, Ok false))
    (fun _ _ _ _ _ _ w => (w, ([], 0, None)))
    no_reads (fun _ pi w => (w, Ok pi)) (fun _ _ _ w => (w, Err ErrNotFound)) (fun _ _ w => (w, Ok false))
    (fun _ _ w => (w, None))
    no_reads (fun _ n w => (w, Ok n)) (fun _ _ w => (w, Ok false)) (fun _ _ _ _ _ w => (w, ([], 0, None)))
    no_reads (fun _ n w => (w, Ok n)) (fun _ _ w => (w, Ok false)) (fun _ _ _ _ _ w => (w, ([], 0, None))).
(** A calendar that its owner has shared for reading, and the user that it is
    shared with. *)
Definition shared_calendar : Calendar :=
  mkCalendar "ro" "Team" None None 0 false true true EmptyString ∅ ∅ EmptyString None
    (mkCalRights true true false false false false false false).
Definition sharee : Ctx := ContextWithPrincipalAccountID (ContextWithAccountID Background "owner") "guest".
Definition demo_calendar_args : obj :=
  [("create", JObj [("k", JObj [("name", JStr "Mine")])]); ("update", JObj [("ro", JObj [("name", JStr "Ours")])]);
   ("destroy", JArr [JStr "ro"])].
Lemma in_order_fair : fair in_order.
Proof. by split. Qed.

Lemma calendar_set_respects_rights_witness :
  head (fst (fst (handleCalendarSet (H := ascii_runtime) demo_calendars in_order sharee demo_calendar_args ([shared_calendar], None))))
  = Some shared_calendar.
Proof.
  apply (calendar_set_respects_rights (H := ascii_runtime) demo_calendars in_order sharee demo_calendar_args None
           (fun w => head w = Some shared_calendar) [shared_calendar] in_order_fair); [|reflexivity].
  split; try done.
  intros id w Hw [Hs|(cal & Hc & Hr)] _; [discriminate Hs|]. destruct w as [|x w]; [done|]. injection Hw as ->.
  change (head (List.filter (fun cal => negb (String.eqb (kl_ID cal) id)) (shared_calendar :: w)) = Some shared_calendar).
  cbn [List.filter]. change (kl_ID shared_calendar) with "ro". destruct (String.eqb_spec "ro" id) as [<-|Hne]; [|done].
  change (Some shared_calendar = Some cal) in Hc. injection Hc as <-. discriminate Hr.
Defined.

(** ** Departures *)

(** What Calendar/set forbids, Calendar/copy does: a user that the account is
    shared with for reading creates a calendar in it. *)
Theorem copy_creates_in_shared_account :
  let set := handleCalendarSet (H := ascii_runtime) demo_calendars in_order sharee
               [("create", JObj [("k", JObj [("name", JStr "Mine")])])] ([shared_calendar], None) in
  let copy := handleCalendarCopy (H := ascii_runtime) demo_calendars in_order sharee
                [("create", JObj [("k", JObj [("id", JStr "ro"); ("name", JStr "Mine")])])] ([shared_calendar], None) in
  fst (fst set) = [shared_calendar]
  /\ get_str (default [] (get_obj (default [] (get_obj (snd (snd set)) "notCreated")) "k")) "type" = Some "forbidden"
  /\ map (fun cal => (kl_ID cal, kl_Name cal)) (fst (fst copy)) = [("ro", "Team"); ("c1", "Mine")]
  /\ obj_get (snd (snd copy)) "notCreated" = Some JNull.
Proof. split_and!; vm_compute; reflexivity. Qed.

(** The default participant identity is set although the destroy of the same
    request failed; a create that is not an object makes a calendar without a
    name. *)
Theorem default_set_despite_failure :
  let resp := snd (snd (handleParticipantIdentitySet (H := ascii_runtime) demo_calendars in_order Background
                          [("destroy", JArr [JStr "gone"]); ("onSuccessSetIsDefault", JStr "p1")] ([], None))) in
  get_str (default [] (get_obj (default [] (get_obj resp "notDestroyed")) "gone")) "type" = Some "notFound"
  /\ get_obj (default [] (get_obj resp "updated")) "p1" = Some [("isDefault", JBool true)]
  /\ map kl_Name (fst (fst (handleCalendarSet (H := ascii_runtime) demo_calendars in_order Background
                              [("create", JObj [("k", JNum (f64_of_Z 5))])] ([], None)))) = [EmptyString].
Proof. split_and!; vm_compute; reflexivity. Qed.

(** ** Filters *)

(** Filters whose operators are known, have conditions that are filters again,
    and whose conditions are in [leaf]. *)
Inductive good_filter `{GoRuntime} (leaf : obj -> Prop) : obj -> Prop :=
| good_condition f : obj_get f "operator" = None -> leaf f -> good_filter leaf f
| good_operator f op conds :
    get_str f "operator" = Some op -> ToUpper op ∈ validCalendarFilterOperators ->
    get_arr f "conditions" = Some conds -> conds <> [] ->
    (forall c, c ∈ conds -> exists m, c = JObj m /\ good_filter leaf m) -> good_filter leaf f.

Lemma good_filter_iff `{GoRuntime} (p q : obj -> Prop) f : (forall f, p f <-> q f) -> good_filter p f <-> good_filter q f.
Proof.
  intros Hpq. enough (forall n (p q : obj -> Prop) f, (forall f, p f <-> q f) -> (json_depth (JObj f) <= n)%nat -> good_filter p f -> good_filter q f) as Hn.
  { split; eapply (Hn (json_depth (JObj f))); naive_solver. }
  clear p q f Hpq. induction n as [|n IH]; intros p q f Hpq Hd Hg; [simpl in Hd; lia|].
  inversion Hg as [? Ho Hl|? op conds Ho Hk Hc Hne Hall]; subst; [by apply good_condition, Hpq|].
  apply (good_operator _ f op conds); [done..|]. intros c Hin. destruct (Hall c Hin) as (m & -> & Hm). exists m. split; [done|].
  apply (IH p q m Hpq); [|done]. unfold get_arr in Hc. destruct (obj_get f "conditions") as [[]|] eqn:E; simplify_eq.
  pose proof (json_depth_condition _ _ _ _ E Hin). lia.
Qed.

Lemma first_answer_ok l : fst (first_answer l) = EmptyString <-> forall e, e ∈ l -> fst e = EmptyString.
Proof.
  induction l as [|e l IH]; simpl; [set_solver|]. destruct (String.eqb_spec (fst e) EmptyString) as [E|E].
  - rewrite IH. set_solver.
  - split; [done|]. intros Hall. destruct E. apply Hall. left.
Qed.

(** The check accepts exactly the good filters; the depth is fuel enough. *)
Lemma walk_filter_ok `{GoRuntime} leaf msg fuel : forall f, (json_depth (JObj f) <= fuel)%nat ->
  fst (walk_filter leaf msg fuel f) = EmptyString <-> good_filter (fun f => fst (leaf f) = EmptyString) f.
Proof.
  induction fuel as [|fuel IH]; intros f Hd; [simpl in Hd; lia|]. cbn [walk_filter].
  destruct (obj_get f "operator") as [opVal|] eqn:Eo.
  2:{ split; [by constructor|]. inversion 1; simplify_eq; [done|]. unfold get_str in *. by rewrite Eo in *. }
  destruct (str_in _ _) eqn:Ek; cbn [negb fst].
  2:{ split; [done|]. inversion 1; simplify_eq. unfold get_str in *. rewrite Eo in *. destruct opVal; simplify_eq.
      apply str_in_spec in H2. congruence. }
  apply str_in_spec in Ek. destruct opVal as [| | |op| |]; try (exfalso; revert Ek; unfold ToUpper; simpl; set_solver).
  assert (get_str f "operator" = Some op) as Hop by (unfold get_str; by rewrite Eo).
  destruct (get_arr f "conditions") as [[|c0 conds]|] eqn:Ec; cbn [fst].
  1, 3: split; [done|]; inversion 1; simplify_eq; congruence.
  unfold get_arr in Ec. destruct (obj_get f "conditions") as [[]|] eqn:Ec'; simplify_eq.
  change (fst (first_answer (map (fun c => match c with JObj cm => walk_filter leaf msg fuel cm | _ => ("unsupportedFilter", msg) end) (c0 :: conds)))
    = EmptyString <-> good_filter (fun f => fst (leaf f) = EmptyString) f).
  rewrite first_answer_ok. split.
  - intros Hall. apply (good_operator _ f op (c0 :: conds)); [done|done|unfold get_arr; by rewrite Ec'|done|]. intros c Hc.
    specialize (Hall _ (list_elem_of_fmap_2 _ _ _ Hc)). destruct c as [| | | | |m]; try done. exists m. split; [done|].
    apply IH; [|done]. pose proof (json_depth_condition _ _ _ _ Ec' Hc). lia.
  - inversion 1; simplify_eq. unfold get_arr in *. rewrite Ec' in *. simplify_eq. intros e (c & -> & Hc)%list_elem_of_fmap.
    match goal with Hall : forall c, _ -> exists m, _ |- _ => destruct (Hall c Hc) as (m & -> & Hm) end.
    apply IH; [|done]. pose proof (json_depth_condition _ _ _ _ Ec' Hc). lia.
Qed.

(** A filter of share notifications passes exactly when its operators have
    conditions and every condition names known properties only, at any depth
    and for every order of the members. *)
Theorem share_filter_accepted `{GoRuntime} order f : fair order ->
  fst (validateShareNotificationFilter order (Some f)) = EmptyString
  <-> good_filter (fun f => forall k, k ∈ obj_keys f -> k ∈ shareNotificationFilterConditions) f.
Proof.
  intros [_ Hr]. unfold validateShareNotificationFilter. rewrite walk_filter_ok by done.
  apply good_filter_iff. clear f. intros f. unfold share_condition. destruct (List.find _ _) as [[k v]|] eqn:E; cbn [fst].
  - split; [done|]. intros Hall. apply List.find_some in E as [Hin Hk]. apply list_elem_of_In in Hin. rewrite (Hr f) in Hin.
    apply negb_true_iff in Hk. apply (list_elem_of_fmap_2 fst), Hall, str_in_spec in Hin. simpl in *. congruence.
  - split; [|done]. intros _ k ((k' & v) & -> & Hin)%list_elem_of_fmap. rewrite <- (Hr f) in Hin. apply list_elem_of_In in Hin.
    apply (List.find_none _ _ E), negb_false_iff in Hin. by apply str_in_spec.
Qed.
