(* ===== verification/CardTypes.v ===== *)
(** * Contact cards and address books

    The types of [jmap/jmapcontacts/types.go] with the JSON form that their
    struct tags give them: for each struct its record, the value Go starts
    from, how one member of a JSON object is read into it, and its fields as
    they are written.  A null entry of a map of pointers is [None]. *)

From S2P Require Import Prelude GoSort GoStrings Json GoJson.

Section Types.
Context `{GoRuntime}.

Record JSContactNameComponent : Type := mkNameComp {
  nc_Value : string; nc_Kind : string; nc_Phonetic : string;
}.
Definition zero_nc : JSContactNameComponent := mkNameComp wzero wzero wzero.
Definition read_nc (x : JSContactNameComponent) (kv : string * json) : JSContactNameComponent :=
  mkNameComp (member "value" kv (nc_Value x)) (member "kind" kv (nc_Kind x)) (member "phonetic" kv (nc_Phonetic x)).
Definition fields_nc (x : JSContactNameComponent) : list field :=
  [req "value" (nc_Value x); req "kind" (nc_Kind x); opt "phonetic" (nc_Phonetic x)].
#[export] Instance wire_nc : Wire JSContactNameComponent := struct_wire zero_nc read_nc fields_nc.

Record AddressBookRights : Type := mkAbRights {
  ar_MayRead : bool; ar_MayWrite : bool; ar_MayShare : bool; ar_MayDelete : bool;
}.
Definition zero_ar : AddressBookRights := mkAbRights wzero wzero wzero wzero.
Definition read_ar (x : AddressBookRights) (kv : string * json) : AddressBookRights :=
  mkAbRights (member "mayRead" kv (ar_MayRead x)) (member "mayWrite" kv (ar_MayWrite x))
    (member "mayShare" kv (ar_MayShare x)) (member "mayDelete" kv (ar_MayDelete x)).
Definition fields_ar (x : AddressBookRights) : list field :=
  [req "mayRead" (ar_MayRead x); req "mayWrite" (ar_MayWrite x); req "mayShare" (ar_MayShare x);
   req "mayDelete" (ar_MayDelete x)].
#[export] Instance wire_ar : Wire AddressBookRights := struct_wire zero_ar read_ar fields_ar.

Record AddressBook : Type := mkAddressBook {
  ab_ID : string; ab_Name : string; ab_Description : option string; ab_SortOrder : uint64; ab_IsDefault : bool;
  ab_IsSubscribed : bool; ab_ShareWith : gmap string (option AddressBookRights); ab_MyRights : AddressBookRights;
}.
Definition zero_ab : AddressBook := mkAddressBook wzero wzero wzero wzero wzero wzero wzero wzero.
Definition read_ab (x : AddressBook) (kv : string * json) : AddressBook :=
  mkAddressBook (member "id" kv (ab_ID x)) (member "name" kv (ab_Name x)) (member "description" kv (ab_Description x))
    (member "sortOrder" kv (ab_SortOrder x)) (member "isDefault" kv (ab_IsDefault x))
    (member "isSubscribed" kv (ab_IsSubscribed x)) (member "shareWith" kv (ab_ShareWith x))
    (member "myRights" kv (ab_MyRights x)).
Definition fields_ab (x : AddressBook) : list field :=
  [req "id" (ab_ID x); req "name" (ab_Name x); opt "description" (ab_Description x);
   req "sortOrder" (ab_SortOrder x); req "isDefault" (ab_IsDefault x); req "isSubscribed" (ab_IsSubscribed x);
   opt "shareWith" (ab_ShareWith x); req "myRights" (ab_MyRights x)].
#[export] Instance wire_ab : Wire AddressBook := struct_wire zero_ab read_ab fields_ab.

Record JSContactName : Type := mkName {
  nm_Components : list (option JSContactNameComponent); nm_Full : string; nm_SortAs : gmap string string;
  nm_IsOrdered : bool; nm_DefaultSeparator : string; nm_PhoneticSystem : string; nm_PhoneticScript : string;
}.
Definition zero_nm : JSContactName := mkName wzero wzero wzero wzero wzero wzero wzero.
Definition read_nm (x : JSContactName) (kv : string * json) : JSContactName :=
  mkName (member "components" kv (nm_Components x)) (member "full" kv (nm_Full x)) (member "sortAs" kv (nm_SortAs x))
    (member "isOrdered" kv (nm_IsOrdered x)) (member "defaultSeparator" kv (nm_DefaultSeparator x))
    (member "phoneticSystem" kv (nm_PhoneticSystem x)) (member "phoneticScript" kv (nm_PhoneticScript x)).
Definition fields_nm (x : JSContactName) : list field :=
  [opt "components" (nm_Components x); opt "full" (nm_Full x); opt "sortAs" (nm_SortAs x);
   opt "isOrdered" (nm_IsOrdered x); opt "defaultSeparator" (nm_DefaultSeparator x);
   opt "phoneticSystem" (nm_PhoneticSystem x); opt "phoneticScript" (nm_PhoneticScript x)].
#[export] Instance wire_nm : Wire JSContactName := struct_wire zero_nm read_nm fields_nm.

Record JSContactEmailAddress : Type := mkCardEmail {
  ce_Address : string; ce_Contexts : gmap string bool; ce_Label : string; ce_Pref : uint32;
}.
Definition zero_ce : JSContactEmailAddress := mkCardEmail wzero wzero wzero wzero.
Definition read_ce (x : JSContactEmailAddress) (kv : string * json) : JSContactEmailAddress :=
  mkCardEmail (member "address" kv (ce_Address x)) (member "contexts" kv (ce_Contexts x)) (member "label" kv (ce_Label x))
    (member "pref" kv (ce_Pref x)).
Definition fields_ce (x : JSContactEmailAddress) : list field :=
  [req "address" (ce_Address x); opt "contexts" (ce_Contexts x); opt "label" (ce_Label x); opt "pref" (ce_Pref x)].
#[export] Instance wire_ce : Wire JSContactEmailAddress := struct_wire zero_ce read_ce fields_ce.

Record JSContactPhone : Type := mkPhone {
  ph_Number : string; ph_Contexts : gmap string bool; ph_Features : gmap string bool; ph_Label : string;
  ph_Pref : uint32;
}.
Definition zero_ph : JSContactPhone := mkPhone wzero wzero wzero wzero wzero.
Definition read_ph (x : JSContactPhone) (kv : string * json) : JSContactPhone :=
  mkPhone (member "number" kv (ph_Number x)) (member "contexts" kv (ph_Contexts x))
    (member "features" kv (ph_Features x)) (member "label" kv (ph_Label x)) (member "pref" kv (ph_Pref x)).
Definition fields_ph (x : JSContactPhone) : list field :=
  [req "number" (ph_Number x); opt "contexts" (ph_Contexts x); opt "features" (ph_Features x);
   opt "label" (ph_Label x); opt "pref" (ph_Pref x)].
#[export] Instance wire_ph : Wire JSContactPhone := struct_wire zero_ph read_ph fields_ph.

Record JSContactAddressComponent : Type := mkAddrComp {
  ac_Value : string; ac_Kind : string;
}.
Definition zero_ac : JSContactAddressComponent := mkAddrComp wzero wzero.
Definition read_ac (x : JSContactAddressComponent) (kv : string * json) : JSContactAddressComponent :=
  mkAddrComp (member "value" kv (ac_Value x)) (member "kind" kv (ac_Kind x)).
Definition fields_ac (x : JSContactAddressComponent) : list field :=
  [req "value" (ac_Value x); req "kind" (ac_Kind x)].
#[export] Instance wire_ac : Wire JSContactAddressComponent := struct_wire zero_ac read_ac fields_ac.

Record JSContactAddress : Type := mkCardAddress {
  ca_Components : list (option JSContactAddressComponent); ca_Full : string; ca_Street : string;
  ca_Locality : string; ca_Region : string; ca_Postcode : string; ca_Country : string; ca_CountryCode : string;
  ca_Coordinates : string; ca_TimeZone : string; ca_IsOrdered : bool; ca_DefaultSeparator : string;
  ca_PhoneticSystem : string; ca_PhoneticScript : string; ca_Contexts : gmap string bool; ca_Pref : uint32;
}.
Definition zero_ca : JSContactAddress :=
  mkCardAddress wzero wzero wzero wzero wzero wzero wzero wzero wzero wzero wzero wzero wzero wzero wzero wzero.
Definition read_ca (x : JSContactAddress) (kv : string * json) : JSContactAddress :=
  mkCardAddress (member "components" kv (ca_Components x)) (member "full" kv (ca_Full x)) (member "street" kv (ca_Street x))
    (member "locality" kv (ca_Locality x)) (member "region" kv (ca_Region x))
    (member "postcode" kv (ca_Postcode x)) (member "country" kv (ca_Country x))
    (member "countryCode" kv (ca_CountryCode x)) (member "coordinates" kv (ca_Coordinates x))
    (member "timeZone" kv (ca_TimeZone x)) (member "isOrdered" kv (ca_IsOrdered x))
    (member "defaultSeparator" kv (ca_DefaultSeparator x)) (member "phoneticSystem" kv (ca_PhoneticSystem x))
    (member "phoneticScript" kv (ca_PhoneticScript x)) (member "contexts" kv (ca_Contexts x))
    (member "pref" kv (ca_Pref x)).
Definition fields_ca (x : JSContactAddress) : list field :=
  [opt "components" (ca_Components x); opt "full" (ca_Full x); opt "street" (ca_Street x);
   opt "locality" (ca_Locality x); opt "region" (ca_Region x); opt "postcode" (ca_Postcode x);
   opt "country" (ca_Country x); opt "countryCode" (ca_CountryCode x); opt "coordinates" (ca_Coordinates x);
   opt "timeZone" (ca_TimeZone x); opt "isOrdered" (ca_IsOrdered x);
   opt "defaultSeparator" (ca_DefaultSeparator x); opt "phoneticSystem" (ca_PhoneticSystem x);
   opt "phoneticScript" (ca_PhoneticScript x); opt "contexts" (ca_Contexts x); opt "pref" (ca_Pref x)].
#[export] Instance wire_ca : Wire JSContactAddress := struct_wire zero_ca read_ca fields_ca.

Record JSContactOrganization : Type := mkOrg {
  og_Name : string; og_Units : list string; og_SortAs : gmap string string; og_Contexts : gmap string bool;
}.
Definition zero_og : JSContactOrganization := mkOrg wzero wzero wzero wzero.
Definition read_og (x : JSContactOrganization) (kv : string * json) : JSContactOrganization :=
  mkOrg (member "name" kv (og_Name x)) (member "units" kv (og_Units x)) (member "sortAs" kv (og_SortAs x))
    (member "contexts" kv (og_Contexts x)).
Definition fields_og (x : JSContactOrganization) : list field :=
  [req "name" (og_Name x); opt "units" (og_Units x); opt "sortAs" (og_SortAs x); opt "contexts" (og_Contexts x)].
#[export] Instance wire_og : Wire JSContactOrganization := struct_wire zero_og read_og fields_og.

Record JSContactTitle : Type := mkTitle {
  ti_Name : string; ti_Kind : string; ti_OrganizationID : string; ti_Contexts : gmap string bool;
}.
Definition zero_ti : JSContactTitle := mkTitle wzero wzero wzero wzero.
Definition read_ti (x : JSContactTitle) (kv : string * json) : JSContactTitle :=
  mkTitle (member "name" kv (ti_Name x)) (member "kind" kv (ti_Kind x))
    (member "organizationId" kv (ti_OrganizationID x)) (member "contexts" kv (ti_Contexts x)).
Definition fields_ti (x : JSContactTitle) : list field :=
  [req "name" (ti_Name x); opt "kind" (ti_Kind x); opt "organizationId" (ti_OrganizationID x);
   opt "contexts" (ti_Contexts x)].
#[export] Instance wire_ti : Wire JSContactTitle := struct_wire zero_ti read_ti fields_ti.

Record JSContactNote : Type := mkNote {
  no_Note : string;
}.
Definition zero_no : JSContactNote := mkNote wzero.
Definition read_no (x : JSContactNote) (kv : string * json) : JSContactNote :=
  mkNote (member "note" kv (no_Note x)).
Definition fields_no (x : JSContactNote) : list field :=
  [req "note" (no_Note x)].
#[export] Instance wire_no : Wire JSContactNote := struct_wire zero_no read_no fields_no.

Record JSContactNickname : Type := mkNickname {
  nn_Name : string; nn_Contexts : gmap string bool;
}.
Definition zero_nn : JSContactNickname := mkNickname wzero wzero.
Definition read_nn (x : JSContactNickname) (kv : string * json) : JSContactNickname :=
  mkNickname (member "name" kv (nn_Name x)) (member "contexts" kv (nn_Contexts x)).
Definition fields_nn (x : JSContactNickname) : list field :=
  [req "name" (nn_Name x); opt "contexts" (nn_Contexts x)].
#[export] Instance wire_nn : Wire JSContactNickname := struct_wire zero_nn read_nn fields_nn.

Record JSContactOnlineService : Type := mkService {
  os_Service : string; os_URI : string; os_Contexts : gmap string bool;
}.
Definition zero_os : JSContactOnlineService := mkService wzero wzero wzero.
Definition read_os (x : JSContactOnlineService) (kv : string * json) : JSContactOnlineService :=
  mkService (member "service" kv (os_Service x)) (member "uri" kv (os_URI x)) (member "contexts" kv (os_Contexts x)).
Definition fields_os (x : JSContactOnlineService) : list field :=
  [opt "service" (os_Service x); opt "uri" (os_URI x); opt "contexts" (os_Contexts x)].
#[export] Instance wire_os : Wire JSContactOnlineService := struct_wire zero_os read_os fields_os.

Record JSContactLink : Type := mkLink {
  lk_URI : string; lk_Contexts : gmap string bool; lk_Label : string; lk_Pref : uint32;
}.
Definition zero_lk : JSContactLink := mkLink wzero wzero wzero wzero.
Definition read_lk (x : JSContactLink) (kv : string * json) : JSContactLink :=
  mkLink (member "uri" kv (lk_URI x)) (member "contexts" kv (lk_Contexts x)) (member "label" kv (lk_Label x))
    (member "pref" kv (lk_Pref x)).
Definition fields_lk (x : JSContactLink) : list field :=
  [req "uri" (lk_URI x); opt "contexts" (lk_Contexts x); opt "label" (lk_Label x); opt "pref" (lk_Pref x)].
#[export] Instance wire_lk : Wire JSContactLink := struct_wire zero_lk read_lk fields_lk.

Record JSContactMedia : Type := mkMedia {
  me_BlobID : string; me_URI : string; me_MediaType : string; me_Contexts : gmap string bool; me_Kind : string;
  me_Pref : uint32;
}.
Definition zero_me : JSContactMedia := mkMedia wzero wzero wzero wzero wzero wzero.
Definition read_me (x : JSContactMedia) (kv : string * json) : JSContactMedia :=
  mkMedia (member "blobId" kv (me_BlobID x)) (member "uri" kv (me_URI x)) (member "mediaType" kv (me_MediaType x))
    (member "contexts" kv (me_Contexts x)) (member "kind" kv (me_Kind x)) (member "pref" kv (me_Pref x)).
Definition fields_me (x : JSContactMedia) : list field :=
  [opt "blobId" (me_BlobID x); opt "uri" (me_URI x); opt "mediaType" (me_MediaType x);
   opt "contexts" (me_Contexts x); opt "kind" (me_Kind x); opt "pref" (me_Pref x)].
#[export] Instance wire_me : Wire JSContactMedia := struct_wire zero_me read_me fields_me.

Record JSContactSpeakToAs : Type := mkSpeak {
  sp_GrammaticalGender : string; sp_Pronouns : gmap string bool;
}.
Definition zero_sp : JSContactSpeakToAs := mkSpeak wzero wzero.
Definition read_sp (x : JSContactSpeakToAs) (kv : string * json) : JSContactSpeakToAs :=
  mkSpeak (member "grammaticalGender" kv (sp_GrammaticalGender x)) (member "pronouns" kv (sp_Pronouns x)).
Definition fields_sp (x : JSContactSpeakToAs) : list field :=
  [opt "grammaticalGender" (sp_GrammaticalGender x); opt "pronouns" (sp_Pronouns x)].
#[export] Instance wire_sp : Wire JSContactSpeakToAs := struct_wire zero_sp read_sp fields_sp.

Record JSContactAnniversary : Type := mkAnniv {
  an_Date : json; an_Kind : string; an_Place : string;
}.
Definition zero_an : JSContactAnniversary := mkAnniv wzero wzero wzero.
Definition read_an (x : JSContactAnniversary) (kv : string * json) : JSContactAnniversary :=
  mkAnniv (member "date" kv (an_Date x)) (member "kind" kv (an_Kind x)) (member "place" kv (an_Place x)).
Definition fields_an (x : JSContactAnniversary) : list field :=
  [opt "date" (an_Date x); opt "kind" (an_Kind x); opt "place" (an_Place x)].
#[export] Instance wire_an : Wire JSContactAnniversary := struct_wire zero_an read_an fields_an.

Record JSContactRelation : Type := mkRelation {
  rl_Relation : gmap string bool; rl_Label : string;
}.
Definition zero_rl : JSContactRelation := mkRelation wzero wzero.
Definition read_rl (x : JSContactRelation) (kv : string * json) : JSContactRelation :=
  mkRelation (member "relation" kv (rl_Relation x)) (member "label" kv (rl_Label x)).
Definition fields_rl (x : JSContactRelation) : list field :=
  [opt "relation" (rl_Relation x); opt "label" (rl_Label x)].
#[export] Instance wire_rl : Wire JSContactRelation := struct_wire zero_rl read_rl fields_rl.

Record JSContactLanguagePref : Type := mkLangPref {
  lp_Language : string; lp_Contexts : gmap string bool; lp_Pref : uint32;
}.
Definition zero_lp : JSContactLanguagePref := mkLangPref wzero wzero wzero.
Definition read_lp (x : JSContactLanguagePref) (kv : string * json) : JSContactLanguagePref :=
  mkLangPref (member "language" kv (lp_Language x)) (member "contexts" kv (lp_Contexts x)) (member "pref" kv (lp_Pref x)).
Definition fields_lp (x : JSContactLanguagePref) : list field :=
  [req "language" (lp_Language x); opt "contexts" (lp_Contexts x); opt "pref" (lp_Pref x)].
#[export] Instance wire_lp : Wire JSContactLanguagePref := struct_wire zero_lp read_lp fields_lp.

Record JSContactCalendar : Type := mkCardCalendar {
  cc_URI : string; cc_Contexts : gmap string bool; cc_Kind : string; cc_Label : string; cc_Pref : uint32;
}.
Definition zero_cc : JSContactCalendar := mkCardCalendar wzero wzero wzero wzero wzero.
Definition read_cc (x : JSContactCalendar) (kv : string * json) : JSContactCalendar :=
  mkCardCalendar (member "uri" kv (cc_URI x)) (member "contexts" kv (cc_Contexts x)) (member "kind" kv (cc_Kind x))
    (member "label" kv (cc_Label x)) (member "pref" kv (cc_Pref x)).
Definition fields_cc (x : JSContactCalendar) : list field :=
  [req "uri" (cc_URI x); opt "contexts" (cc_Contexts x); opt "kind" (cc_Kind x); opt "label" (cc_Label x);
   opt "pref" (cc_Pref x)].
#[export] Instance wire_cc : Wire JSContactCalendar := struct_wire zero_cc read_cc fields_cc.

Record JSContactSchedulingAddress : Type := mkSchedAddr {
  sa_URI : string; sa_Contexts : gmap string bool; sa_Label : string; sa_Pref : uint32;
}.
Definition zero_sa : JSContactSchedulingAddress := mkSchedAddr wzero wzero wzero wzero.
Definition read_sa (x : JSContactSchedulingAddress) (kv : string * json) : JSContactSchedulingAddress :=
  mkSchedAddr (member "uri" kv (sa_URI x)) (member "contexts" kv (sa_Contexts x)) (member "label" kv (sa_Label x))
    (member "pref" kv (sa_Pref x)).
Definition fields_sa (x : JSContactSchedulingAddress) : list field :=
  [req "uri" (sa_URI x); opt "contexts" (sa_Contexts x); opt "label" (sa_Label x); opt "pref" (sa_Pref x)].
#[export] Instance wire_sa : Wire JSContactSchedulingAddress := struct_wire zero_sa read_sa fields_sa.

Record JSContactCryptoKey : Type := mkCryptoKey {
  ck_URI : string; ck_Contexts : gmap string bool; ck_Kind : string; ck_Label : string; ck_Pref : uint32;
}.
Definition zero_ck : JSContactCryptoKey := mkCryptoKey wzero wzero wzero wzero wzero.
Definition read_ck (x : JSContactCryptoKey) (kv : string * json) : JSContactCryptoKey :=
  mkCryptoKey (member "uri" kv (ck_URI x)) (member "contexts" kv (ck_Contexts x)) (member "kind" kv (ck_Kind x))
    (member "label" kv (ck_Label x)) (member "pref" kv (ck_Pref x)).
Definition fields_ck (x : JSContactCryptoKey) : list field :=
  [req "uri" (ck_URI x); opt "contexts" (ck_Contexts x); opt "kind" (ck_Kind x); opt "label" (ck_Label x);
   opt "pref" (ck_Pref x)].
#[export] Instance wire_ck : Wire JSContactCryptoKey := struct_wire zero_ck read_ck fields_ck.

Record JSContactDirectory : Type := mkDirectory {
  dr_URI : string; dr_Contexts : gmap string bool; dr_Kind : string; dr_Label : string; dr_Pref : uint32;
}.
Definition zero_dr : JSContactDirectory := mkDirectory wzero wzero wzero wzero wzero.
Definition read_dr (x : JSContactDirectory) (kv : string * json) : JSContactDirectory :=
  mkDirectory (member "uri" kv (dr_URI x)) (member "contexts" kv (dr_Contexts x)) (member "kind" kv (dr_Kind x))
    (member "label" kv (dr_Label x)) (member "pref" kv (dr_Pref x)).
Definition fields_dr (x : JSContactDirectory) : list field :=
  [req "uri" (dr_URI x); opt "contexts" (dr_Contexts x); opt "kind" (dr_Kind x); opt "label" (dr_Label x);
   opt "pref" (dr_Pref x)].
#[export] Instance wire_dr : Wire JSContactDirectory := struct_wire zero_dr read_dr fields_dr.

Record JSContactPersonalInfo : Type := mkPersonal {
  pi_Kind : string; pi_Value : string; pi_ListAs : uint32;
}.
Definition zero_pi : JSContactPersonalInfo := mkPersonal wzero wzero wzero.
Definition read_pi (x : JSContactPersonalInfo) (kv : string * json) : JSContactPersonalInfo :=
  mkPersonal (member "kind" kv (pi_Kind x)) (member "value" kv (pi_Value x)) (member "listAs" kv (pi_ListAs x)).
Definition fields_pi (x : JSContactPersonalInfo) : list field :=
  [req "kind" (pi_Kind x); req "value" (pi_Value x); opt "listAs" (pi_ListAs x)].
#[export] Instance wire_pi : Wire JSContactPersonalInfo := struct_wire zero_pi read_pi fields_pi.

Record Card : Type := mkCard {
  cd_ID : string; cd_AddressBookIDs : nil_map bool; cd_Type : string; cd_Kind : string; cd_Version : string;
  cd_Uid : string; cd_Created : string; cd_Updated : string; cd_Language : string; cd_ProdID : string;
  cd_Name : option JSContactName; cd_Nicknames : gmap string (option JSContactNickname);
  cd_Emails : gmap string (option JSContactEmailAddress); cd_Phones : gmap string (option JSContactPhone);
  cd_Addresses : gmap string (option JSContactAddress);
  cd_Organizations : gmap string (option JSContactOrganization); cd_Titles : gmap string (option JSContactTitle);
  cd_Notes : gmap string (option JSContactNote); cd_OnlineServices : gmap string (option JSContactOnlineService);
  cd_Links : gmap string (option JSContactLink); cd_Media : gmap string (option JSContactMedia);
  cd_SpeakToAs : option JSContactSpeakToAs; cd_Anniversaries : gmap string (option JSContactAnniversary);
  cd_RelatedTo : gmap string (option JSContactRelation);
  cd_PreferredLanguages : gmap string (option JSContactLanguagePref);
  cd_Calendars : gmap string (option JSContactCalendar);
  cd_SchedulingAddresses : gmap string (option JSContactSchedulingAddress);
  cd_CryptoKeys : gmap string (option JSContactCryptoKey);
  cd_Directories : gmap string (option JSContactDirectory);
  cd_PersonalInfo : gmap string (option JSContactPersonalInfo); cd_Localizations : gmap string (nil_map json);
  cd_Members : gmap string bool; cd_Keywords : gmap string bool;
}.
Definition zero_cd : Card :=
  mkCard wzero wzero wzero wzero wzero wzero wzero wzero wzero wzero wzero wzero wzero wzero wzero wzero wzero wzero
    wzero wzero wzero wzero wzero wzero wzero wzero wzero wzero wzero wzero wzero wzero wzero.
Definition read_cd (x : Card) (kv : string * json) : Card :=
  mkCard (member "id" kv (cd_ID x)) (member "addressBookIds" kv (cd_AddressBookIDs x)) (member "@type" kv (cd_Type x))
    (member "kind" kv (cd_Kind x)) (member "version" kv (cd_Version x)) (member "uid" kv (cd_Uid x))
    (member "created" kv (cd_Created x)) (member "updated" kv (cd_Updated x))
    (member "language" kv (cd_Language x)) (member "prodId" kv (cd_ProdID x)) (member "name" kv (cd_Name x))
    (member "nicknames" kv (cd_Nicknames x)) (member "emails" kv (cd_Emails x)) (member "phones" kv (cd_Phones x))
    (member "addresses" kv (cd_Addresses x)) (member "organizations" kv (cd_Organizations x))
    (member "titles" kv (cd_Titles x)) (member "notes" kv (cd_Notes x))
    (member "onlineServices" kv (cd_OnlineServices x)) (member "links" kv (cd_Links x))
    (member "media" kv (cd_Media x)) (member "speakToAs" kv (cd_SpeakToAs x))
    (member "anniversaries" kv (cd_Anniversaries x)) (member "relatedTo" kv (cd_RelatedTo x))
    (member "preferredLanguages" kv (cd_PreferredLanguages x)) (member "calendars" kv (cd_Calendars x))
    (member "schedulingAddresses" kv (cd_SchedulingAddresses x)) (member "cryptoKeys" kv (cd_CryptoKeys x))
    (member "directories" kv (cd_Directories x)) (member "personalInfo" kv (cd_PersonalInfo x))
    (member "localizations" kv (cd_Localizations x)) (member "members" kv (cd_Members x))
    (member "keywords" kv (cd_Keywords x)).
Definition fields_cd (x : Card) : list field :=
  [req "id" (cd_ID x); req "addressBookIds" (cd_AddressBookIDs x); opt "@type" (cd_Type x);
   opt "kind" (cd_Kind x); opt "version" (cd_Version x); opt "uid" (cd_Uid x); opt "created" (cd_Created x);
   opt "updated" (cd_Updated x); opt "language" (cd_Language x); opt "prodId" (cd_ProdID x);
   opt "name" (cd_Name x); opt "nicknames" (cd_Nicknames x); opt "emails" (cd_Emails x);
   opt "phones" (cd_Phones x); opt "addresses" (cd_Addresses x); opt "organizations" (cd_Organizations x);
   opt "titles" (cd_Titles x); opt "notes" (cd_Notes x); opt "onlineServices" (cd_OnlineServices x);
   opt "links" (cd_Links x); opt "media" (cd_Media x); opt "speakToAs" (cd_SpeakToAs x);
   opt "anniversaries" (cd_Anniversaries x); opt "relatedTo" (cd_RelatedTo x);
   opt "preferredLanguages" (cd_PreferredLanguages x); opt "calendars" (cd_Calendars x);
   opt "schedulingAddresses" (cd_SchedulingAddresses x); opt "cryptoKeys" (cd_CryptoKeys x);
   opt "directories" (cd_Directories x); opt "personalInfo" (cd_PersonalInfo x);
   opt "localizations" (cd_Localizations x); opt "members" (cd_Members x); opt "keywords" (cd_Keywords x)].
#[export] Instance wire_cd : Wire Card := struct_wire zero_cd read_cd fields_cd.

Definition FullAddressBookRights : AddressBookRights := mkAbRights true true true true.

(** ** What is written is read back *)

Lemma ext_nc (a b : JSContactNameComponent) :
  nc_Value a = nc_Value b -> nc_Kind a = nc_Kind b -> nc_Phonetic a = nc_Phonetic b -> a = b.
Proof. destruct a, b; simpl; intros; subst; reflexivity. Qed.
#[export, refine] Instance ok_nc : WireOk JSContactNameComponent :=
  {| wvalid := fun _ => True |}.
Proof. intros x Hx. apply ext_nc; struct_back read_nc zero_nc fields_nc x Hx. Defined.
#[export] Instance always_nc : WireAlways JSContactNameComponent. Proof. done. Qed.
#[export] Instance solid_nc : WireSolid JSContactNameComponent := struct_solid _ _ _.
Lemma ext_ar (a b : AddressBookRights) :
  ar_MayRead a = ar_MayRead b -> ar_MayWrite a = ar_MayWrite b -> ar_MayShare a = ar_MayShare b ->
  ar_MayDelete a = ar_MayDelete b -> a = b.
Proof. destruct a, b; simpl; intros; subst; reflexivity. Qed.
#[export, refine] Instance ok_ar : WireOk AddressBookRights :=
  {| wvalid := fun _ => True |}.
Proof. intros x Hx. apply ext_ar; struct_back read_ar zero_ar fields_ar x Hx. Defined.
#[export] Instance always_ar : WireAlways AddressBookRights. Proof. done. Qed.
#[export] Instance solid_ar : WireSolid AddressBookRights := struct_solid _ _ _.
Lemma ext_ab (a b : AddressBook) :
  ab_ID a = ab_ID b -> ab_Name a = ab_Name b -> ab_Description a = ab_Description b ->
  ab_SortOrder a = ab_SortOrder b -> ab_IsDefault a = ab_IsDefault b -> ab_IsSubscribed a = ab_IsSubscribed b ->
  ab_ShareWith a = ab_ShareWith b -> ab_MyRights a = ab_MyRights b -> a = b.
Proof. destruct a, b; simpl; intros; subst; reflexivity. Qed.
#[export, refine] Instance ok_ab : WireOk AddressBook :=
  {| wvalid := fun x => wvalid (ab_SortOrder x) |}.
Proof. intros x Hx. apply ext_ab; struct_back read_ab zero_ab fields_ab x Hx. Defined.
#[export] Instance solid_ab : WireSolid AddressBook := struct_solid _ _ _.
Lemma ext_nm (a b : JSContactName) :
  nm_Components a = nm_Components b -> nm_Full a = nm_Full b -> nm_SortAs a = nm_SortAs b ->
  nm_IsOrdered a = nm_IsOrdered b -> nm_DefaultSeparator a = nm_DefaultSeparator b ->
  nm_PhoneticSystem a = nm_PhoneticSystem b -> nm_PhoneticScript a = nm_PhoneticScript b -> a = b.
Proof. destruct a, b; simpl; intros; subst; reflexivity. Qed.
#[export, refine] Instance ok_nm : WireOk JSContactName :=
  {| wvalid := fun _ => True |}.
Proof. intros x Hx. apply ext_nm; struct_back read_nm zero_nm fields_nm x Hx. Defined.
#[export] Instance always_nm : WireAlways JSContactName. Proof. done. Qed.
#[export] Instance solid_nm : WireSolid JSContactName := struct_solid _ _ _.
Lemma ext_ce (a b : JSContactEmailAddress) :
  ce_Address a = ce_Address b -> ce_Contexts a = ce_Contexts b -> ce_Label a = ce_Label b ->
  ce_Pref a = ce_Pref b -> a = b.
Proof. destruct a, b; simpl; intros; subst; reflexivity. Qed.
#[export, refine] Instance ok_ce : WireOk JSContactEmailAddress :=
  {| wvalid := fun x => wvalid (ce_Pref x) |}.
Proof. intros x Hx. apply ext_ce; struct_back read_ce zero_ce fields_ce x Hx. Defined.
#[export] Instance solid_ce : WireSolid JSContactEmailAddress := struct_solid _ _ _.
Lemma ext_ph (a b : JSContactPhone) :
  ph_Number a = ph_Number b -> ph_Contexts a = ph_Contexts b -> ph_Features a = ph_Features b ->
  ph_Label a = ph_Label b -> ph_Pref a = ph_Pref b -> a = b.
Proof. destruct a, b; simpl; intros; subst; reflexivity. Qed.
#[export, refine] Instance ok_ph : WireOk JSContactPhone :=
  {| wvalid := fun x => wvalid (ph_Pref x) |}.
Proof. intros x Hx. apply ext_ph; struct_back read_ph zero_ph fields_ph x Hx. Defined.
#[export] Instance solid_ph : WireSolid JSContactPhone := struct_solid _ _ _.
Lemma ext_ac (a b : JSContactAddressComponent) :
  ac_Value a = ac_Value b -> ac_Kind a = ac_Kind b -> a = b.
Proof. destruct a, b; simpl; intros; subst; reflexivity. Qed.
#[export, refine] Instance ok_ac : WireOk JSContactAddressComponent :=
  {| wvalid := fun _ => True |}.
Proof. intros x Hx. apply ext_ac; struct_back read_ac zero_ac fields_ac x Hx. Defined.
#[export] Instance always_ac : WireAlways JSContactAddressComponent. Proof. done. Qed.
#[export] Instance solid_ac : WireSolid JSContactAddressComponent := struct_solid _ _ _.
Lemma ext_ca (a b : JSContactAddress) :
  ca_Components a = ca_Components b -> ca_Full a = ca_Full b -> ca_Street a = ca_Street b ->
  ca_Locality a = ca_Locality b -> ca_Region a = ca_Region b -> ca_Postcode a = ca_Postcode b ->
  ca_Country a = ca_Country b -> ca_CountryCode a = ca_CountryCode b -> ca_Coordinates a = ca_Coordinates b ->
  ca_TimeZone a = ca_TimeZone b -> ca_IsOrdered a = ca_IsOrdered b ->
  ca_DefaultSeparator a = ca_DefaultSeparator b -> ca_PhoneticSystem a = ca_PhoneticSystem b ->
  ca_PhoneticScript a = ca_PhoneticScript b -> ca_Contexts a = ca_Contexts b -> ca_Pref a = ca_Pref b -> a = b.
Proof. destruct a, b; simpl; intros; subst; reflexivity. Qed.
#[export, refine] Instance ok_ca : WireOk JSContactAddress :=
  {| wvalid := fun x => wvalid (ca_Pref x) |}.
Proof. intros x Hx. apply ext_ca; struct_back read_ca zero_ca fields_ca x Hx. Defined.
#[export] Instance solid_ca : WireSolid JSContactAddress := struct_solid _ _ _.
Lemma ext_og (a b : JSContactOrganization) :
  og_Name a = og_Name b -> og_Units a = og_Units b -> og_SortAs a = og_SortAs b -> og_Contexts a = og_Contexts b -> a = b.
Proof. destruct a, b; simpl; intros; subst; reflexivity. Qed.
#[export, refine] Instance ok_og : WireOk JSContactOrganization :=
  {| wvalid := fun _ => True |}.
Proof. intros x Hx. apply ext_og; struct_back read_og zero_og fields_og x Hx. Defined.
#[export] Instance always_og : WireAlways JSContactOrganization. Proof. done. Qed.
#[export] Instance solid_og : WireSolid JSContactOrganization := struct_solid _ _ _.
Lemma ext_ti (a b : JSContactTitle) :
  ti_Name a = ti_Name b -> ti_Kind a = ti_Kind b -> ti_OrganizationID a = ti_OrganizationID b ->
  ti_Contexts a = ti_Contexts b -> a = b.
Proof. destruct a, b; simpl; intros; subst; reflexivity. Qed.
#[export, refine] Instance ok_ti : WireOk JSContactTitle :=
  {| wvalid := fun _ => True |}.
Proof. intros x Hx. apply ext_ti; struct_back read_ti zero_ti fields_ti x Hx. Defined.
#[export] Instance always_ti : WireAlways JSContactTitle. Proof. done. Qed.
#[export] Instance solid_ti : WireSolid JSContactTitle := struct_solid _ _ _.
Lemma ext_no (a b : JSContactNote) :
  no_Note a = no_Note b -> a = b.
Proof. destruct a, b; simpl; intros; subst; reflexivity. Qed.
#[export, refine] Instance ok_no : WireOk JSContactNote :=
  {| wvalid := fun _ => True |}.
Proof. intros x Hx. apply ext_no; struct_back read_no zero_no fields_no x Hx. Defined.
#[export] Instance always_no : WireAlways JSContactNote. Proof. done. Qed.
#[export] Instance solid_no : WireSolid JSContactNote := struct_solid _ _ _.
Lemma ext_nn (a b : JSContactNickname) :
  nn_Name a = nn_Name b -> nn_Contexts a = nn_Contexts b -> a = b.
Proof. destruct a, b; simpl; intros; subst; reflexivity. Qed.
#[export, refine] Instance ok_nn : WireOk JSContactNickname :=
  {| wvalid := fun _ => True |}.
Proof. intros x Hx. apply ext_nn; struct_back read_nn zero_nn fields_nn x Hx. Defined.
#[export] Instance always_nn : WireAlways JSContactNickname. Proof. done. Qed.
#[export] Instance solid_nn : WireSolid JSContactNickname := struct_solid _ _ _.
Lemma ext_os (a b : JSContactOnlineService) :
  os_Service a = os_Service b -> os_URI a = os_URI b -> os_Contexts a = os_Contexts b -> a = b.
Proof. destruct a, b; simpl; intros; subst; reflexivity. Qed.
#[export, refine] Instance ok_os : WireOk JSContactOnlineService :=
  {| wvalid := fun _ => True |}.
Proof. intros x Hx. apply ext_os; struct_back read_os zero_os fields_os x Hx. Defined.
#[export] Instance always_os : WireAlways JSContactOnlineService. Proof. done. Qed.
#[export] Instance solid_os : WireSolid JSContactOnlineService := struct_solid _ _ _.
Lemma ext_lk (a b : JSContactLink) :
  lk_URI a = lk_URI b -> lk_Contexts a = lk_Contexts b -> lk_Label a = lk_Label b -> lk_Pref a = lk_Pref b -> a = b.
Proof. destruct a, b; simpl; intros; subst; reflexivity. Qed.
#[export, refine] Instance ok_lk : WireOk JSContactLink :=
  {| wvalid := fun x => wvalid (lk_Pref x) |}.
Proof. intros x Hx. apply ext_lk; struct_back read_lk zero_lk fields_lk x Hx. Defined.
#[export] Instance solid_lk : WireSolid JSContactLink := struct_solid _ _ _.
Lemma ext_me (a b : JSContactMedia) :
  me_BlobID a = me_BlobID b -> me_URI a = me_URI b -> me_MediaType a = me_MediaType b ->
  me_Contexts a = me_Contexts b -> me_Kind a = me_Kind b -> me_Pref a = me_Pref b -> a = b.
Proof. destruct a, b; simpl; intros; subst; reflexivity. Qed.
#[export, refine] Instance ok_me : WireOk JSContactMedia :=
  {| wvalid := fun x => wvalid (me_Pref x) |}.
Proof. intros x Hx. apply ext_me; struct_back read_me zero_me fields_me x Hx. Defined.
#[export] Instance solid_me : WireSolid JSContactMedia := struct_solid _ _ _.
Lemma ext_sp (a b : JSContactSpeakToAs) :
  sp_GrammaticalGender a = sp_GrammaticalGender b -> sp_Pronouns a = sp_Pronouns b -> a = b.
Proof. destruct a, b; simpl; intros; subst; reflexivity. Qed.
#[export, refine] Instance ok_sp : WireOk JSContactSpeakToAs :=
  {| wvalid := fun _ => True |}.
Proof. intros x Hx. apply ext_sp; struct_back read_sp zero_sp fields_sp x Hx. Defined.
#[export] Instance always_sp : WireAlways JSContactSpeakToAs. Proof. done. Qed.
#[export] Instance solid_sp : WireSolid JSContactSpeakToAs := struct_solid _ _ _.
Lemma ext_an (a b : JSContactAnniversary) :
  an_Date a = an_Date b -> an_Kind a = an_Kind b -> an_Place a = an_Place b -> a = b.
Proof. destruct a, b; simpl; intros; subst; reflexivity. Qed.
#[export, refine] Instance ok_an : WireOk JSContactAnniversary :=
  {| wvalid := fun _ => True |}.
Proof. intros x Hx. apply ext_an; struct_back read_an zero_an fields_an x Hx. Defined.
#[export] Instance always_an : WireAlways JSContactAnniversary. Proof. done. Qed.
#[export] Instance solid_an : WireSolid JSContactAnniversary := struct_solid _ _ _.
Lemma ext_rl (a b : JSContactRelation) :
  rl_Relation a = rl_Relation b -> rl_Label a = rl_Label b -> a = b.
Proof. destruct a, b; simpl; intros; subst; reflexivity. Qed.
#[export, refine] Instance ok_rl : WireOk JSContactRelation :=
  {| wvalid := fun _ => True |}.
Proof. intros x Hx. apply ext_rl; struct_back read_rl zero_rl fields_rl x Hx. Defined.
#[export] Instance always_rl : WireAlways JSContactRelation. Proof. done. Qed.
#[export] Instance solid_rl : WireSolid JSContactRelation := struct_solid _ _ _.
Lemma ext_lp (a b : JSContactLanguagePref) :
  lp_Language a = lp_Language b -> lp_Contexts a = lp_Contexts b -> lp_Pref a = lp_Pref b -> a = b.
Proof. destruct a, b; simpl; intros; subst; reflexivity. Qed.
#[export, refine] Instance ok_lp : WireOk JSContactLanguagePref :=
  {| wvalid := fun x => wvalid (lp_Pref x) |}.
Proof. intros x Hx. apply ext_lp; struct_back read_lp zero_lp fields_lp x Hx. Defined.
#[export] Instance solid_lp : WireSolid JSContactLanguagePref := struct_solid _ _ _.
Lemma ext_cc (a b : JSContactCalendar) :
  cc_URI a = cc_URI b -> cc_Contexts a = cc_Contexts b -> cc_Kind a = cc_Kind b -> cc_Label a = cc_Label b ->
  cc_Pref a = cc_Pref b -> a = b.
Proof. destruct a, b; simpl; intros; subst; reflexivity. Qed.
#[export, refine] Instance ok_cc : WireOk JSContactCalendar :=
  {| wvalid := fun x => wvalid (cc_Pref x) |}.
Proof. intros x Hx. apply ext_cc; struct_back read_cc zero_cc fields_cc x Hx. Defined.
#[export] Instance solid_cc : WireSolid JSContactCalendar := struct_solid _ _ _.
Lemma ext_sa (a b : JSContactSchedulingAddress) :
  sa_URI a = sa_URI b -> sa_Contexts a = sa_Contexts b -> sa_Label a = sa_Label b -> sa_Pref a = sa_Pref b -> a = b.
Proof. destruct a, b; simpl; intros; subst; reflexivity. Qed.
#[export, refine] Instance ok_sa : WireOk JSContactSchedulingAddress :=
  {| wvalid := fun x => wvalid (sa_Pref x) |}.
Proof. intros x Hx. apply ext_sa; struct_back read_sa zero_sa fields_sa x Hx. Defined.
#[export] Instance solid_sa : WireSolid JSContactSchedulingAddress := struct_solid _ _ _.
Lemma ext_ck (a b : JSContactCryptoKey) :
  ck_URI a = ck_URI b -> ck_Contexts a = ck_Contexts b -> ck_Kind a = ck_Kind b -> ck_Label a = ck_Label b ->
  ck_Pref a = ck_Pref b -> a = b.
Proof. destruct a, b; simpl; intros; subst; reflexivity. Qed.
#[export, refine] Instance ok_ck : WireOk JSContactCryptoKey :=
  {| wvalid := fun x => wvalid (ck_Pref x) |}.
Proof. intros x Hx. apply ext_ck; struct_back read_ck zero_ck fields_ck x Hx. Defined.
#[export] Instance solid_ck : WireSolid JSContactCryptoKey := struct_solid _ _ _.
Lemma ext_dr (a b : JSContactDirectory) :
  dr_URI a = dr_URI b -> dr_Contexts a = dr_Contexts b -> dr_Kind a = dr_Kind b -> dr_Label a = dr_Label b ->
  dr_Pref a = dr_Pref b -> a = b.
Proof. destruct a, b; simpl; intros; subst; reflexivity. Qed.
#[export, refine] Instance ok_dr : WireOk JSContactDirectory :=
  {| wvalid := fun x => wvalid (dr_Pref x) |}.
Proof. intros x Hx. apply ext_dr; struct_back read_dr zero_dr fields_dr x Hx. Defined.
#[export] Instance solid_dr : WireSolid JSContactDirectory := struct_solid _ _ _.
Lemma ext_pi (a b : JSContactPersonalInfo) :
  pi_Kind a = pi_Kind b -> pi_Value a = pi_Value b -> pi_ListAs a = pi_ListAs b -> a = b.
Proof. destruct a, b; simpl; intros; subst; reflexivity. Qed.
#[export, refine] Instance ok_pi : WireOk JSContactPersonalInfo :=
  {| wvalid := fun x => wvalid (pi_ListAs x) |}.
Proof. intros x Hx. apply ext_pi; struct_back read_pi zero_pi fields_pi x Hx. Defined.
#[export] Instance solid_pi : WireSolid JSContactPersonalInfo := struct_solid _ _ _.
Lemma ext_cd (a b : Card) :
  cd_ID a = cd_ID b -> cd_AddressBookIDs a = cd_AddressBookIDs b -> cd_Type a = cd_Type b ->
  cd_Kind a = cd_Kind b -> cd_Version a = cd_Version b -> cd_Uid a = cd_Uid b -> cd_Created a = cd_Created b ->
  cd_Updated a = cd_Updated b -> cd_Language a = cd_Language b -> cd_ProdID a = cd_ProdID b ->
  cd_Name a = cd_Name b -> cd_Nicknames a = cd_Nicknames b -> cd_Emails a = cd_Emails b ->
  cd_Phones a = cd_Phones b -> cd_Addresses a = cd_Addresses b -> cd_Organizations a = cd_Organizations b ->
  cd_Titles a = cd_Titles b -> cd_Notes a = cd_Notes b -> cd_OnlineServices a = cd_OnlineServices b ->
  cd_Links a = cd_Links b -> cd_Media a = cd_Media b -> cd_SpeakToAs a = cd_SpeakToAs b ->
  cd_Anniversaries a = cd_Anniversaries b -> cd_RelatedTo a = cd_RelatedTo b ->
  cd_PreferredLanguages a = cd_PreferredLanguages b -> cd_Calendars a = cd_Calendars b ->
  cd_SchedulingAddresses a = cd_SchedulingAddresses b -> cd_CryptoKeys a = cd_CryptoKeys b ->
  cd_Directories a = cd_Directories b -> cd_PersonalInfo a = cd_PersonalInfo b ->
  cd_Localizations a = cd_Localizations b -> cd_Members a = cd_Members b -> cd_Keywords a = cd_Keywords b -> a = b.
Proof. destruct a, b; simpl; intros; subst; reflexivity. Qed.
#[export, refine] Instance ok_cd : WireOk Card :=
  {| wvalid := fun x => wvalid (cd_Emails x) /\ wvalid (cd_Phones x) /\ wvalid (cd_Addresses x) /\ wvalid (cd_Links x) /\
    wvalid (cd_Media x) /\ wvalid (cd_PreferredLanguages x) /\ wvalid (cd_Calendars x) /\
    wvalid (cd_SchedulingAddresses x) /\ wvalid (cd_CryptoKeys x) /\ wvalid (cd_Directories x) /\
    wvalid (cd_PersonalInfo x) |}.
Proof. intros x Hx. apply ext_cd; struct_back read_cd zero_cd fields_cd x Hx. Defined.
#[export] Instance solid_cd : WireSolid Card := struct_solid _ _ _.
End Types.
