(* ===== verification/CardQuery.v ===== *)
(** * Queries on contact cards

    [jmap/jmapcontacts/contacts_filter.go]: the filter conditions of RFC 9610
    section 3.3.1 and the order of a query. *)

From S2P Require Import Prelude GoSort GoStrings GoRunes Json Query GoJson CardTypes.
From Stdlib Require Import Ascii.

Section Filter.
Context `{GoRuntime}.

Definition containsFold (haystack needle : string) : bool := Contains (ToLower haystack) (ToLower needle).

(** [for _, x := range m] with [return true]: nil entries are skipped, and the
    order of the map makes no difference. *)
Definition some_entry {A} (p : A -> bool) (m : gmap string (option A)) : bool :=
  existsb (fun kv => match snd kv with Some x => p x | None => false end) (map_to_list m).

Definition matchesCardName (name : option JSContactName) (q : string) : bool :=
  match name with
  | None => false
  | Some n => containsFold (nm_Full n) q
              || existsb (fun c => match c with Some c => containsFold (nc_Value c) q | None => false end) (nm_Components n)
  end.
Definition matchesNameKind (name : option JSContactName) (kind q : string) : bool :=
  match name with
  | None => false
  | Some n => existsb (fun c => match c with
                                | Some c => String.eqb (nc_Kind c) kind && containsFold (nc_Value c) q
                                | None => false
                                end) (nm_Components n)
  end.
Definition matchesNickname (m : gmap string (option JSContactNickname)) (q : string) : bool :=
  some_entry (fun n => containsFold (nn_Name n) q) m.
Definition matchesOrganization (m : gmap string (option JSContactOrganization)) (q : string) : bool :=
  some_entry (fun o => containsFold (og_Name o) q || existsb (fun u => containsFold u q) (og_Units o)) m.
Definition matchesEmails (m : gmap string (option JSContactEmailAddress)) (q : string) : bool :=
  some_entry (fun e => containsFold (ce_Address e) q || containsFold (ce_Label e) q) m.
Definition matchesPhones (m : gmap string (option JSContactPhone)) (q : string) : bool :=
  some_entry (fun p => containsFold (ph_Number p) q || containsFold (ph_Label p) q) m.
Definition matchesOnlineService (m : gmap string (option JSContactOnlineService)) (q : string) : bool :=
  some_entry (fun s => containsFold (os_Service s) q || containsFold (os_URI s) q) m.
Definition matchesAddresses (m : gmap string (option JSContactAddress)) (q : string) : bool :=
  some_entry (fun a => existsb (fun part => containsFold part q)
    [ca_Full a; ca_Street a; ca_Locality a; ca_Region a; ca_Postcode a; ca_Country a; ca_CountryCode a]) m.
Definition matchesNotes (m : gmap string (option JSContactNote)) (q : string) : bool :=
  some_entry (fun n => containsFold (no_Note n) q) m.

(** The loop of [cardSearchTerms]: the terms so far, the builder, and the two
    flags. *)
Record term_state : Type := mkTerms { tm_terms : list string; tm_b : string; tm_inQuote : bool; tm_escaped : bool }.
Definition card_cutset : string := str_of [" "%char; "009"%char; "013"%char; "010"%char; "*"%char; "'"%char; dquote].
Definition term_flush (inQuote : bool) (st : term_state) : term_state :=
  let t := Trim (tm_b st) card_cutset in
  mkTerms (if String.eqb t EmptyString then tm_terms st else tm_terms st ++ [t]) EmptyString inQuote false.
Definition term_write (r : Z) (st : term_state) : term_state :=
  mkTerms (tm_terms st) (tm_b st +:+ encode_rune r) (tm_inQuote st) false.
Definition term_step (st : term_state) (r : Z) : term_state :=
  if tm_escaped st then term_write r st
  else if (r =? 92) && tm_inQuote st then mkTerms (tm_terms st) (tm_b st) (tm_inQuote st) true
  else if r =? 34 then term_flush (negb (tm_inQuote st)) st
  else if negb (tm_inQuote st) && ((r =? 32) || (r =? 9) || (r =? 13) || (r =? 10)) then term_flush (tm_inQuote st) st
  else term_write r st.
Definition cardSearchTerms (q : string) : list string :=
  tm_terms (term_flush false (foldl term_step (mkTerms [] EmptyString false false) (runes (ToLower q)))).

Definition cardContainsText (card : Card) (q : string) : bool :=
  matchesCardName (cd_Name card) q || matchesNickname (cd_Nicknames card) q || matchesEmails (cd_Emails card) q
  || matchesPhones (cd_Phones card) q || matchesAddresses (cd_Addresses card) q
  || matchesOrganization (cd_Organizations card) q || matchesNotes (cd_Notes card) q
  || some_entry (fun t => containsFold (ti_Name t) q) (cd_Titles card).
Definition matchesCardText (card : Card) (q : string) : bool := forallb (cardContainsText card) (cardSearchTerms q).

Definition flagged (m : gmap string bool) (k : string) : bool := default false (m !! k).
(** One member of a filter condition; a value of another type reads as the
    empty string. *)
Definition match_card_member (card : Card) (kv : string * json) : bool :=
  let '(k, v) := kv in
  let s := match v with JStr s => s | _ => EmptyString end in
  if String.eqb k "operator" || String.eqb k "conditions" then true
  else if String.eqb k "inAddressBook"
  then match v with JStr ab => flagged (default ∅ (cd_AddressBookIDs card)) ab | _ => false end
  else if String.eqb k "uid" then String.eqb (cd_Uid card) s
  else if String.eqb k "hasMember" then flagged (cd_Members card) s
  else if String.eqb k "kind" then String.eqb (cd_Kind card) s
  else if String.eqb k "createdBefore" then negb (String.eqb (cd_Created card) EmptyString) && String.ltb (cd_Created card) s
  else if String.eqb k "createdAfter"
  then negb (String.eqb (cd_Created card) EmptyString) && negb (String.ltb (cd_Created card) s)
  else if String.eqb k "updatedBefore" then negb (String.eqb (cd_Updated card) EmptyString) && String.ltb (cd_Updated card) s
  else if String.eqb k "updatedAfter"
  then negb (String.eqb (cd_Updated card) EmptyString) && negb (String.ltb (cd_Updated card) s)
  else if String.eqb k "name" then matchesCardName (cd_Name card) s
  else if String.eqb k "name/given" || String.eqb k "name/surname" || String.eqb k "name/surname2"
  then matchesNameKind (cd_Name card) (TrimPrefix k "name/") s
  else if String.eqb k "nickname" then matchesNickname (cd_Nicknames card) s
  else if String.eqb k "organization" then matchesOrganization (cd_Organizations card) s
  else if String.eqb k "email" then matchesEmails (cd_Emails card) s
  else if String.eqb k "phone" then matchesPhones (cd_Phones card) s
  else if String.eqb k "onlineService" then matchesOnlineService (cd_OnlineServices card) s
  else if String.eqb k "address" then matchesAddresses (cd_Addresses card) s
  else if String.eqb k "note" then matchesNotes (cd_Notes card) s
  else if String.eqb k "text" then matchesCardText card s
  else true.
(** The recursion over the conditions takes the depth of the filter. *)
Fixpoint match_card (fuel : nat) (card : Card) (filter : obj) : bool :=
  match EvalFilterOperator (Some filter) (match fuel with O => fun _ => false | S f => match_card f card end) with
  | (m, true) => m
  | (_, false) => forallb (match_card_member card) filter
  end.
Definition MatchCard (card : Card) (filter : option obj) : bool :=
  match filter with None => true | Some f => match_card (json_depth (JObj f)) card f end.

(** ** Order *)

Definition GetCardNameComponent (card : Card) (kind : string) : string :=
  match cd_Name card with
  | None => EmptyString
  | Some n =>
      match List.find (fun c => match c with Some c => String.eqb (nc_Kind c) kind | None => false end) (nm_Components n) with
      | Some (Some c) => nc_Value c
      | _ => EmptyString
      end
  end.
(** The values a comparator looks at; [None] for a property it does not know. *)
Definition card_key (p : string) (c : Card) : option string :=
  if String.eqb p "created" then Some (cd_Created c)
  else if String.eqb p "updated" then Some (cd_Updated c)
  else if String.eqb p "name/given" then Some (GetCardNameComponent c "given")
  else if String.eqb p "name/surname" then Some (GetCardNameComponent c "surname")
  else if String.eqb p "name/surname2" then Some (GetCardNameComponent c "surname2")
  else None.
Fixpoint card_less (comparators : list Comparator) (a b : Card) : bool :=
  match comparators with
  | [] => String.ltb (cd_ID a) (cd_ID b)
  | c :: rest =>
      match card_key (c_Property c) a, card_key (c_Property c) b with
      | Some v1, Some v2 =>
          if String.eqb v1 v2 then card_less rest a b
          else if c_IsAscending c then String.ltb v1 v2 else String.ltb v2 v1
      | _, _ => card_less rest a b
      end
  end.
Definition SortCards (cards : list Card) (comparators : list Comparator) : list Card :=
  match comparators with [] => cards | _ => stable_sort (card_less comparators) cards end.
End Filter.

(** ** The order of a query *)

Fixpoint card_cmp (comparators : list Comparator) (a b : Card) : comparison :=
  match comparators with
  | [] => String.compare (cd_ID a) (cd_ID b)
  | c :: rest =>
      let o := String.compare (default EmptyString (card_key (c_Property c) a)) (default EmptyString (card_key (c_Property c) b)) in
      match (if c_IsAscending c then o else CompOpp o) with Eq => card_cmp rest a b | r => r end
  end.


Lemma lawful_card_cmp cs : lawful (card_cmp cs).
Proof.
  induction cs as [|c cs IH]; cbn [card_cmp]; [apply (lawful_key String.compare cd_ID), lawful_string|].
  set (k := fun x => default EmptyString (card_key (c_Property c) x)).
  assert (lawful (fun a b => String.compare (k a) (k b))) as Hk by (apply (lawful_key String.compare k), lawful_string).
  destruct (c_IsAscending c).
  - exact (lawful_lex _ _ Hk IH).
  - exact (lawful_lex _ _ (lawful_opp _ Hk) IH).
Qed.
Lemma card_key_known p a b : is_Some (card_key p a) <-> is_Some (card_key p b).
Proof. unfold card_key. repeat (case_match; [by split; eauto|]). by split; intros []. Qed.
Lemma card_less_cmp cs a b : card_less cs a b = lt_of (card_cmp cs) a b.
Proof.
  unfold lt_of. induction cs as [|c cs IH]; cbn [card_less card_cmp]; [done|].
  pose proof (card_key_known (c_Property c) a b) as Hk.
  destruct (card_key (c_Property c) a) as [v1|], (card_key (c_Property c) b) as [v2|]; cbn [default from_option id]; unfold id.
  - unfold String.ltb. rewrite (String.compare_antisym v2 v1). destruct (String.eqb_spec v1 v2) as [->|Hne].
    + rewrite compare_self. by destruct (c_IsAscending c).
    + destruct (String.compare v1 v2) eqn:E; [by apply String.compare_eq_iff in E| |]; by destruct (c_IsAscending c).
  - by destruct (proj1 Hk).
  - by destruct (proj2 Hk).
  - rewrite compare_self. by destruct (c_IsAscending c).
Qed.
Lemma sort_cards_eq c cs l : SortCards l (c :: cs) = stable_sort (lt_of (card_cmp (c :: cs))) l.
Proof.
  unfold SortCards. rewrite <- (map_id (stable_sort (card_less (c :: cs)) l)).
  rewrite (stable_sort_map id (card_less (c :: cs)) (lt_of (card_cmp (c :: cs)))); [by rewrite map_id|].
  intros a b. symmetry. apply card_less_cmp.
Qed.
Lemma card_cmp_tie cs a b : card_cmp cs a b = Eq -> cd_ID a = cd_ID b.
Proof.
  induction cs as [|c cs IH]; cbn [card_cmp]; [apply String.compare_eq_iff|].
  destruct (if c_IsAscending c then _ else _); [exact IH|done..].
Qed.

(** ** Properties *)

(** A query with a sort order has one answer.  Cards are sorted by the
    comparators and then by id, so that, as long as ids are distinct, the
    result does not depend on the order in which the backend lists the cards. *)
Theorem card_order_deterministic c cs l l' :
  NoDup (map cd_ID l) -> l ≡ₚ l' ->
  SortCards l (c :: cs) = SortCards l' (c :: cs)
  /\ SortCards l (c :: cs) ≡ₚ l
  /\ StronglySorted (fun a b => card_cmp (c :: cs) a b <> Gt) (SortCards l (c :: cs)).
Proof.
  intros Hnd Hp. rewrite !sort_cards_eq. destruct (stable_sort_spec _ (lawful_card_cmp (c :: cs)) l) as (P & S & _).
  split_and!; [|exact P|exact S]. apply stable_sort_unique; [apply lawful_card_cmp| |exact Hp].
  intros a b Ha Hb E%card_cmp_tie. by apply (NoDup_map_inj cd_ID l).
Qed.

Definition demo_card (id : string) (members : obj) : Card :=
  @unmarshal Card (wire_cd (H := ascii_runtime)) (JObj (("id", JStr id) :: members)).
Lemma card_order_deterministic_witness :
  let a := demo_card "1" [("updated", JStr "2024")] in let b := demo_card "2" [("updated", JStr "2023")] in
  let sort := [mkComparator "updated" true EmptyString EmptyString] in
  SortCards [a; b] sort = SortCards [b; a] sort.
Proof.
  intros a b sort. apply card_order_deterministic.
  - apply (bool_decide_unpack _). vm_compute. exact I.
  - apply perm_swap.
Defined.

(** *** Search terms *)

(** A search as the user means it: words, and phrases in quotation marks. *)
Inductive search_term : Type := Word (s : string) | Phrase (s : string).
Definition term_text (t : search_term) : string := match t with Word s | Phrase s => s end.
Fixpoint escape_phrase (s : string) : string :=
  match s with
  | EmptyString => EmptyString
  | String c s' => if Ascii.eqb c dquote || Ascii.eqb c backslash then String backslash (String c (escape_phrase s'))
                   else String c (escape_phrase s')
  end.
Definition print_term (t : search_term) : string :=
  match t with Word s => s | Phrase s => String dquote (escape_phrase s) +:+ str_of [dquote] end.
Definition print_search (l : list search_term) : string := Join (map print_term l) " ".
(** Lower-case ASCII that begins and ends with no byte the parser trims; a word
    has no space and no quotation mark. *)
Definition lower_byte (c : ascii) : bool := byte_between 0 127 c && negb (is_upper_ascii c).
Definition word_byte (c : ascii) : bool :=
  negb (Ascii.eqb c dquote || Ascii.eqb c " " || Ascii.eqb c "009" || Ascii.eqb c "013" || Ascii.eqb c "010").
Definition good_term (t : search_term) : bool :=
  let s := term_text t in
  str_forallb lower_byte s && String.eqb (Trim s card_cutset) s && negb (String.eqb s EmptyString)
  && match t with Word _ => str_forallb word_byte s | Phrase _ => true end.

Section Terms.

Definition feed (st : term_state) (s : string) : term_state := foldl term_step st (map byte_val (str_bytes s)).
Lemma feed_app st s t : feed st (s +:+ t) = feed (feed st s) t.
Proof. unfold feed. rewrite str_bytes_app, map_app, foldl_app. done. Qed.

Lemma runes_ascii s : is_ascii s = true -> runes s = map byte_val (str_bytes s).
Proof.
  induction s as [|c s IH]; [done|]. intros [Hc Hs]%andb_prop.
  rewrite (runes_step _ (byte_val c) s) by (simpl; by rewrite Hc). by rewrite IH.
Qed.
Lemma encode_ascii c : byte_between 0 127 c = true -> encode_rune (byte_val c) = str_of [c].
Proof.
  intros Hc. apply String.eqb_eq. revert Hc. apply implb_true_iff. revert c. apply ascii_forall. vm_compute. reflexivity.
Qed.
Lemma byte_val_code c d : (byte_val c =? byte_val d) = Ascii.eqb c d.
Proof.
  destruct (Ascii.eqb_spec c d) as [->|Hne]; [apply Z.eqb_refl|]. apply Z.eqb_neq. intros E. apply Hne.
  unfold byte_val in E. rewrite <- (ascii_N_embedding c), <- (ascii_N_embedding d). f_equal. lia.
Qed.

Lemma feed_cons st c s : feed st (String c s) = feed (term_step st (byte_val c)) s.
Proof. done. Qed.

(** A byte of a word, and a byte of a phrase that needs no escape. *)
Lemma step_write ts b (q : bool) c : byte_between 0 127 c = true ->
  (if q then Ascii.eqb c dquote || Ascii.eqb c backslash = false else word_byte c = true) ->
  term_step (mkTerms ts b q false) (byte_val c) = mkTerms ts (b +:+ str_of [c]) q false.
Proof.
  intros Hc Hq. unfold term_step. cbn [tm_escaped tm_inQuote tm_terms tm_b].
  change 92 with (byte_val backslash). change 34 with (byte_val dquote). change 32 with (byte_val " ").
  change 9 with (byte_val "009"). change 13 with (byte_val "013"). change 10 with (byte_val "010"). rewrite !byte_val_code.
  unfold term_write. cbn [tm_terms tm_b tm_inQuote]. rewrite encode_ascii by done. destruct q.
  - apply orb_false_iff in Hq as [-> ->]. done.
  - unfold word_byte in Hq. rewrite negb_true_iff in Hq. repeat (apply orb_false_iff in Hq as [Hq ?]).
    rewrite andb_false_r, Hq. cbn [negb andb]. by repeat match goal with E : _ = false |- _ => rewrite E; clear E end.
Qed.

Lemma feed_word ts b s : str_forallb lower_byte s = true -> str_forallb word_byte s = true ->
  feed (mkTerms ts b false false) s = mkTerms ts (b +:+ s) false false.
Proof.
  revert b. induction s as [|c s IH]; intros b; [by rewrite append_nil_r|]. intros [Hc Hs]%andb_prop [Hw Hws]%andb_prop.
  apply andb_prop in Hc as [Hc _]. rewrite feed_cons, step_write by done. rewrite IH by done. by rewrite append_assoc.
Qed.
Lemma feed_phrase ts b s : str_forallb lower_byte s = true ->
  feed (mkTerms ts b true false) (escape_phrase s) = mkTerms ts (b +:+ s) true false.
Proof.
  revert b. induction s as [|c s IH]; intros b; [by rewrite append_nil_r|]. intros [[Hc _]%andb_prop Hs]%andb_prop. simpl.
  destruct (Ascii.eqb c dquote || Ascii.eqb c backslash) eqn:E.
  - rewrite !feed_cons. change (term_step (mkTerms ts b true false) (byte_val backslash)) with (mkTerms ts b true true).
    unfold term_step. cbn [tm_escaped]. unfold term_write. cbn [tm_terms tm_b tm_inQuote]. rewrite encode_ascii by done.
    rewrite IH by done. by rewrite append_assoc.
  - rewrite feed_cons, step_write by done. rewrite IH by done. by rewrite append_assoc.
Qed.

Lemma flush_good ts s q q' : String.eqb (Trim s card_cutset) s = true -> negb (String.eqb s EmptyString) = true ->
  term_flush q' (mkTerms ts s q false) = mkTerms (ts ++ [s]) EmptyString q' false.
Proof. intros Ht Hs. unfold term_flush. cbn [tm_b tm_terms]. apply String.eqb_eq in Ht. rewrite Ht. apply negb_true_iff in Hs. by rewrite Hs. Qed.

(** After a term, or after the space that follows it. *)
Definition after_term (ts : list string) (t : search_term) (st : term_state) : Prop :=
  term_flush false st = mkTerms (ts ++ [term_text t]) EmptyString false false
  /\ feed st " " = mkTerms (ts ++ [term_text t]) EmptyString false false.
Lemma feed_term ts t : good_term t = true -> after_term ts t (feed (mkTerms ts EmptyString false false) (print_term t)).
Proof.
  unfold good_term. intros [[[Hl Ht]%andb_prop Hne]%andb_prop Hw]%andb_prop. destruct t as [s|s]; cbn [print_term term_text] in *.
  - rewrite feed_word by done. simpl. split; [by apply flush_good|]. unfold feed. simpl. by apply flush_good.
  - change (String dquote (escape_phrase s) +:+ str_of [dquote]) with (String dquote (escape_phrase s +:+ str_of [dquote])).
    rewrite feed_cons. change (term_step _ (byte_val dquote)) with (mkTerms ts EmptyString true false).
    rewrite feed_app, feed_phrase by done.
    assert (feed (mkTerms ts s true false) (str_of [dquote]) = mkTerms (ts ++ [s]) EmptyString false false) as E.
    { rewrite <- (flush_good ts s true false) by done. done. }
    simpl in *. rewrite E. done.
Qed.
Lemma feed_search l : forall ts, forallb good_term l = true ->
  tm_terms (term_flush false (feed (mkTerms ts EmptyString false false) (print_search l))) = ts ++ map term_text l.
Proof.
  induction l as [|t l IH]; intros ts Hl; [simpl; by rewrite app_nil_r|]. apply andb_prop in Hl as [Ht Hl].
  destruct (feed_term ts t Ht) as [H1 H2]. unfold print_search in *. destruct l as [|t' l].
  - change (Join (map print_term [t]) " ") with (print_term t). by rewrite H1.
  - change (Join (map print_term (t :: t' :: l)) " ") with (print_term t +:+ " " +:+ Join (map print_term (t' :: l)) " ").
    rewrite !feed_app, H2, IH by done. cbn [map]. by rewrite <- app_assoc.
Qed.

Lemma print_lower t : good_term t = true -> str_forallb lower_byte (print_term t) = true.
Proof.
  unfold good_term. intros [[[Hl _]%andb_prop _]%andb_prop _]%andb_prop. destruct t as [s|s]; cbn [print_term term_text] in *; [done|].
  rewrite str_forallb_app. simpl. rewrite andb_true_r.
  induction s as [|c s IH]; [done|]. apply andb_prop in Hl as [Hc Hs]. simpl.
  destruct (Ascii.eqb c dquote || _); simpl; rewrite ?Hc, ?IH by done; done.
Qed.
Lemma print_search_lower l : forallb good_term l = true -> str_forallb lower_byte (print_search l) = true.
Proof.
  unfold print_search. induction l as [|t l IH]; [done|]. intros [Ht Hl]%andb_prop. apply print_lower in Ht.
  destruct l as [|t' l]; [done|].
  change (Join (map print_term (t :: t' :: l)) " ") with (print_term t +:+ " " +:+ Join (map print_term (t' :: l)) " ").
  rewrite !str_forallb_app, Ht, IH by done. done.
Qed.
Lemma lower_lower s : str_forallb lower_byte s = true -> is_ascii s = true /\ str_map lower_ascii s = s.
Proof.
  induction s as [|c s IH]; [done|]. intros [[Hc Hu]%andb_prop Hs]%andb_prop. destruct (IH Hs) as [H1 H2]. simpl.
  unfold is_ascii in *. simpl. rewrite Hc, H1, H2. unfold lower_ascii. apply negb_true_iff in Hu. by rewrite Hu.
Qed.
End Terms.

(** The text condition looks for what the user typed.  A search of words
    and quoted phrases, printed with quotation marks and backslashes escaped
    inside phrases, is read as exactly these terms, whatever spaces the phrases
    contain; and a card matches it when every term occurs in one of its text
    fields. *)
Theorem search_terms_roundtrip `{GoRuntime} l card :
  forallb good_term l = true ->
  cardSearchTerms (print_search l) = map term_text l
  /\ (matchesCardText card (print_search l) = true <-> forall t, t ∈ l -> cardContainsText card (term_text t) = true).
Proof.
  intros Hl. destruct (lower_lower _ (print_search_lower l Hl)) as [Ha Hlow].
  assert (cardSearchTerms (print_search l) = map term_text l) as E.
  { unfold cardSearchTerms. rewrite ToLower_ascii, Hlow, runes_ascii by done. exact (feed_search l [] Hl). }
  split; [done|]. unfold matchesCardText. rewrite E, forallb_forall. split.
  - intros Hall t Ht. apply Hall, list_elem_of_In. by apply list_elem_of_fmap_2.
  - intros Hall x Hx. apply list_elem_of_In, list_elem_of_fmap in Hx as (t & -> & Ht). by apply Hall.
Qed.

Lemma search_terms_roundtrip_witness :
  cardSearchTerms (H := ascii_runtime) (print_search [Word "ann"; Phrase "new york"]) = ["ann"; "new york"].
Proof. apply (search_terms_roundtrip (H := ascii_runtime) [Word "ann"; Phrase "new york"] (demo_card "1" [])). vm_compute. reflexivity. Defined.
