(* ===== verification/Contacts.v ===== *)
(** * Contact methods

    [jmap/jmapcontacts/contacts_handlers.go]: the AddressBook and ContactCard
    methods over the interface of a contacts backend ([backend.go]).  The blob
    store is optional; [mime.ParseMediaType] and the package that decodes data
    URLs are parameters. *)

From S2P Require Import Prelude GoSort GoStrings GoRunes GoState Json Envelope CreationRefs Query Handler Server MailTypes MethodSupport GoJson CardTypes CardQuery.
From Stdlib Require Import Ascii.

(** ** The backend *)

(** Lists have no nil entries; the error that [AddressBookHasContents] returns
    beside its answer is not looked at. *)
Record ContactsBackend (W : Type) : Type := mkContacts {
  cb_AddressBookState : Ctx -> W -> string;
  cb_AddressBookChanges : Ctx -> string -> St W (list string * list string * list string * string * bool);
  cb_GetAddressBooks : Ctx -> list string -> St W (list AddressBook * list string * option go_error);
  cb_GetAllAddressBooks : Ctx -> St W (list AddressBook * option go_error);
  cb_CreateAddressBook : Ctx -> AddressBook -> St W (result go_error AddressBook);
  cb_UpdateAddressBook : Ctx -> string -> obj -> St W (result go_error AddressBook);
  cb_DeleteAddressBook : Ctx -> string -> bool -> St W (result go_error bool);
  cb_SetDefaultAddressBook : Ctx -> string -> St W (option go_error);
  cb_AddressBookHasContents : Ctx -> string -> St W bool;
  cb_CardState : Ctx -> W -> string;
  cb_CardChanges : Ctx -> string -> St W (list string * list string * list string * string * bool);
  cb_GetCards : Ctx -> list string -> St W (list Card * list string * option go_error);
  cb_GetAllCards : Ctx -> St W (list Card * option go_error);
  cb_CreateCard : Ctx -> Card -> St W (result go_error Card);
  cb_UpdateCard : Ctx -> string -> obj -> St W (result go_error Card);
  cb_DeleteCard : Ctx -> string -> St W (result go_error bool);
  cb_QueryCards : Ctx -> option obj -> list Comparator -> Z -> option Z -> St W (list string * Z * option go_error);
}.
Arguments cb_AddressBookState {W} _ _ _.
Arguments cb_AddressBookChanges {W} _ _ _ _.
Arguments cb_GetAddressBooks {W} _ _ _ _.
Arguments cb_GetAllAddressBooks {W} _ _ _.
Arguments cb_CreateAddressBook {W} _ _ _ _.
Arguments cb_UpdateAddressBook {W} _ _ _ _ _.
Arguments cb_DeleteAddressBook {W} _ _ _ _ _.
Arguments cb_SetDefaultAddressBook {W} _ _ _ _.
Arguments cb_AddressBookHasContents {W} _ _ _ _.
Arguments cb_CardState {W} _ _ _.
Arguments cb_CardChanges {W} _ _ _ _.
Arguments cb_GetCards {W} _ _ _ _.
Arguments cb_GetAllCards {W} _ _ _.
Arguments cb_CreateCard {W} _ _ _ _.
Arguments cb_UpdateCard {W} _ _ _ _ _.
Arguments cb_DeleteCard {W} _ _ _ _.
Arguments cb_QueryCards {W} _ _ _ _ _ _ _.

(** What the handlers use of a blob store: the type of a blob, [Err] for an
    error or a blob that is not there, and the id of a new blob. *)
Record BlobOps (W : Type) : Type := mkBlobOps {
  bo_GetBlob : Ctx -> string -> string -> St W (result unit string);
  bo_PutBlob : Ctx -> string -> string -> string -> St W (option string);
}.
Arguments bo_GetBlob {W} _ _ _ _ _.
Arguments bo_PutBlob {W} _ _ _ _ _ _.

(** ** Checks *)

Definition isOwnerPrincipal (princID accountID ownerUser : string) : bool :=
  if String.eqb princID EmptyString then false
  else String.eqb princID "primary" || String.eqb princID accountID || String.eqb princID ownerUser
       || (negb (String.eqb ownerUser EmptyString)
           && (String.eqb princID (AccountIDForSubject ownerUser)
               || String.eqb (AccountIDForSubject princID) (AccountIDForSubject ownerUser)))
       || (negb (String.eqb accountID EmptyString) && String.eqb (AccountIDForSubject princID) accountID).

Definition validateAddressBookName (name : string) : option SetError :=
  if String.eqb name EmptyString then Some (property_error "invalidProperties" "name must not be empty" ["name"])
  else if 255 <? Z.of_nat (slen name)
  then Some (property_error "invalidProperties" "name must not exceed 255 octets" ["name"])
  else None.

Fixpoint validateUTF8 (val : json) : bool :=
  match val with
  | JStr s => valid_utf8 s
  | JObj m => forallb (fun kv => valid_utf8 (fst kv) && validateUTF8 (snd kv)) m
  | JArr l => forallb validateUTF8 l
  | _ => true
  end.

(** [strings.HasPrefix(mediaType, "image/")] for a type that parses. *)
Definition is_image (ParseMediaType : string -> option string) (t : string) : bool :=
  match ParseMediaType t with Some mt => HasPrefix mt "image/" | None => false end.
Definition media_error (desc : string) : SetError := property_error "invalidProperties" desc ["media"].
Definition photo_type_error : SetError := media_error "photo must be a recognised image type".
Definition invalid_books : SetError := property_error "invalidProperties" EmptyString ["addressBookIds"].

(** A card with another id, type, version, name and media. *)
Definition card_with (c : Card) (id ty version : string) (name : option JSContactName)
    (media : gmap string (option JSContactMedia)) : Card :=
  mkCard id (cd_AddressBookIDs c) ty (cd_Kind c) version (cd_Uid c) (cd_Created c) (cd_Updated c) (cd_Language c)
    (cd_ProdID c) name (cd_Nicknames c) (cd_Emails c) (cd_Phones c) (cd_Addresses c) (cd_Organizations c) (cd_Titles c)
    (cd_Notes c) (cd_OnlineServices c) (cd_Links c) media (cd_SpeakToAs c) (cd_Anniversaries c) (cd_RelatedTo c)
    (cd_PreferredLanguages c) (cd_Calendars c) (cd_SchedulingAddresses c) (cd_CryptoKeys c) (cd_Directories c)
    (cd_PersonalInfo c) (cd_Localizations c) (cd_Members c) (cd_Keywords c).

Section Methods.
Context `{GoRuntime} {W : Type}.
Variable b : ContactsBackend W.
Variable blobs : option (BlobOps W).
Variable order : MapOrder.
Variable ParseMediaType : string -> option string.
(** [dataurl.DecodeString]: the content type and the data *)
Variable DecodeDataURL : string -> option (string * string).

(** A photo of a card: a kind photo in any case, or none. *)
Definition is_photo (m : obj) : bool :=
  let kind := str_or_empty m "kind" in EqualFold kind "photo" || String.eqb kind EmptyString.

(** The blob of a photo. *)
Definition check_photo_blob (c : Ctx) (accountID : string) (m : obj) : St W (option SetError) :=
  let blobID := str_or_empty m "blobId" in
  match blobs with
  | Some bb =>
      if String.eqb blobID EmptyString then mret None
      else r ← bo_GetBlob bb c accountID blobID;
           mret (match r with
                 | Err _ => Some (media_error "blob not found for photo")
                 | Ok ty => if is_image ParseMediaType ty then None else Some photo_type_error
                 end)
  | None => mret None
  end.
Definition check_photo_uri (m : obj) : option SetError :=
  let uri := str_or_empty m "uri" in
  if negb (String.eqb uri EmptyString) && HasPrefix uri "data:"
  then match DecodeDataURL uri with
       | None => Some (media_error "invalid data URI in photo")
       | Some (ty, _) => if is_image ParseMediaType ty then None else Some photo_type_error
       end
  else None.
Definition check_photo_type (m : obj) : option SetError :=
  let mt := str_or_empty m "mediaType" in
  if negb (String.eqb mt EmptyString) && negb (is_image ParseMediaType mt) then Some photo_type_error else None.
(** A create also looks at the media type, an update does not. *)
Definition check_photo (with_type : bool) (c : Ctx) (accountID : string) (item : json) : St W (option SetError) :=
  match item with
  | JObj m =>
      if is_photo m
      then e ← check_photo_blob c accountID m;
           mret (match e with
                 | Some e => Some e
                 | None => match check_photo_uri m with
                           | Some e => Some e
                           | None => if with_type then check_photo_type m else None
                           end
                 end)
      else mret None
  | _ => mret None
  end.
(** The first error of the media. *)
Definition check_media (with_type : bool) (c : Ctx) (accountID : string) (cardMap : obj) : St W (option SetError) :=
  match get_obj cardMap "media" with
  | None => mret None
  | Some media =>
      fold_state (fun e kv => match e with Some e => mret (Some e) | None => check_photo with_type c accountID (snd kv) end)
        None (range_map order media)
  end.

Definition not_writable (abs : list AddressBook) : bool := existsb (fun ab => negb (ar_MayWrite (ab_MyRights ab))) abs.
Definition target_forbidden : SetError := set_error "forbidden" "mayWrite right is required on target addressbook".
Definition card_forbidden : SetError := set_error "forbidden" "mayWrite right is required on card's addressbook".

(** The address books a new card names. *)
Definition check_card_books (c : Ctx) (cardMap : obj) : St W (option SetError) :=
  match get_present cardMap "addressBookIds" with
  | None => mret None
  | Some (JObj (kv :: abMap)) =>
      let ids := kv :: abMap in
      if existsb (fun kv => match snd kv with JBool true => false | _ => true end) ids then mret (Some invalid_books)
      else r ← cb_GetAddressBooks b c (map fst (range_map order ids));
           let '(abs, _, err) := r in
           mret (match err with
                 | None => if not_writable abs then Some target_forbidden else None
                 | Some _ => None
                 end)
  | Some _ => mret (Some invalid_books)
  end.
Definition validateCardInput (c : Ctx) (cardMap : obj) (existingUIDs : list string) (accountID : string)
  : St W (option SetError) :=
  if negb (validateUTF8 (JObj cardMap))
  then mret (Some (property_error "invalidProperties" "string contains invalid UTF-8" []))
  else
    e ← check_card_books c cardMap;
    match e with
    | Some e => mret (Some e)
    | None =>
        let uid := str_or_empty cardMap "uid" in
        if negb (String.eqb uid EmptyString) && str_in uid existingUIDs
        then mret (Some (property_error "invalidProperties" "a ContactCard with this uid already exists" ["uid"]))
        else check_media true c accountID cardMap
    end.

(** ** Address books *)

Definition asked_ids (args : obj) : option (list string) := strings_of <$> get_arr args "ids".

Definition handleAddressBookGet : BackendHandler W := fun c args =>
  r ← back (match asked_ids args with
            | Some ids => cb_GetAddressBooks b c ids
            | None => r ← cb_GetAllAddressBooks b c; mret (fst r, [], snd r)
            end);
  let '(l, notFound, err) := r in
  let l := match err with Some _ => [] | None => l end in
  state ← gets (fun s => cb_AddressBookState b c (fst s));
  mret ("AddressBook/get",
        [("accountId", JStr (str_or_empty args "accountId")); ("state", JStr state);
         ("list", JArr (FilterList (map wjson l) (ParseProperties args))); ("notFound", jstrs notFound)]).

Definition handleAddressBookChanges : BackendHandler W := fun c args =>
  let sinceState := str_or_empty args "sinceState" in
  r ← back (cb_AddressBookChanges b c sinceState);
  let '(created, updated, destroyed, newState, hasMore) := r in
  mret ("AddressBook/changes",
        changes_response (str_or_empty args "accountId") sinceState newState hasMore created updated destroyed).

Definition default_error : SetError :=
  property_error "invalidProperties" "isDefault is server-set and cannot be set directly" ["isDefault"].
Definition owner_error : SetError :=
  property_error "invalidProperties" "the Principal to which this AddressBook belongs MUST NOT be in shareWith" ["shareWith"].
Definition has_owner (c : Ctx) (accountID : string) (principals : list string) : bool :=
  existsb (fun p => isOwnerPrincipal p accountID (fst (SubjectFromContext c))) principals.

(** The creates of a call so far. *)
Record books_acc : Type := mkBooks { bk_refs : refmap; bk_created : list (string * AddressBook); bk_failed : obj }.
Definition create_book (c : Ctx) (accountID : string) (acc : books_acc) (kv : string * json) : St (HState W) books_acc :=
  let '(creationID, itemRaw) := kv in
  let failed e := mkBooks (bk_refs acc) (bk_created acc) (obj_set (bk_failed acc) creationID (SetError_json e)) in
  let abMap := match itemRaw with JObj m => m | _ => [] end in
  match obj_get abMap "isDefault" with
  | Some _ => mret (failed default_error)
  | None =>
      let ab : AddressBook := unmarshal (JObj abMap) in
      match validateAddressBookName (ab_Name ab) with
      | Some se => mret (failed se)
      | None =>
          if 2 ^ 31 <=? ab_SortOrder ab
          then mret (failed (property_error "invalidProperties" "sortOrder out of range" ["sortOrder"]))
          else if has_owner c accountID (map fst (map_to_list (ab_ShareWith ab))) then mret (failed owner_error)
          else
            r ← back (cb_CreateAddressBook b c ab);
            match r with
            | Err e => mret (failed (set_error "invalidProperties" (err_Error e)))
            | Ok ab' =>
                refs ← record_ref (bk_refs acc) creationID (ab_ID ab');
                mret (mkBooks refs (bk_created acc ++ [(creationID, ab')]) (bk_failed acc))
            end
      end
  end.

(** The checks of an update before the address book is read. *)
Definition check_book_patch (patch : obj) : option SetError :=
  match obj_get patch "isDefault" with
  | Some _ => Some default_error
  | None => match obj_get patch "name" with
            | Some n => validateAddressBookName (match n with JStr s => s | _ => EmptyString end)
            | None => None
            end
  end.
(** [checkRight]: a right that is granted, was not granted before, and is not
    the user's own. *)
Definition checkRight (rMap : obj) (rName : string) (myRight prev : bool) : bool :=
  match get_bool rMap rName with Some true => negb prev && negb myRight | _ => false end.
Definition escalates (existing : AddressBook) (share : string * json) : bool :=
  match snd share with
  | JObj rMap =>
      let mine := ab_MyRights existing in
      let prev get := match ab_ShareWith existing !! fst share with Some (Some r) => get r | _ => false end in
      checkRight rMap "mayRead" (ar_MayRead mine) (prev ar_MayRead)
      || checkRight rMap "mayWrite" (ar_MayWrite mine) (prev ar_MayWrite)
      || checkRight rMap "mayShare" (ar_MayShare mine) (prev ar_MayShare)
      || checkRight rMap "mayDelete" (ar_MayDelete mine) (prev ar_MayDelete)
  | _ => false
  end.
(** The checks of the shareWith property against the address book. *)
Definition check_shares (c : Ctx) (accountID : string) (existing : option AddressBook) (patch : obj) : option SetError :=
  match obj_get patch "shareWith" with
  | None => None
  | Some shareWithRaw =>
      if match existing with Some ab => negb (ar_MayShare (ab_MyRights ab)) | None => false end
      then Some (set_error "forbidden" "mayShare right is required to modify shareWith")
      else match shareWithRaw with
           | JObj shareWithMap =>
               if has_owner c accountID (map fst shareWithMap) then Some owner_error
               else if match existing with Some ab => existsb (escalates ab) shareWithMap | None => false end
               then Some (set_error "forbidden" "cannot grant rights not possessed by current user")
               else None
           | _ => None
           end
  end.
Definition update_book (c : Ctx) (accountID : string) (refs : refmap) (acc : set_acc) (kv : string * json)
  : St (HState W) set_acc :=
  let '(idStr, patchRaw) := kv in
  let resolvedID := ResolveCreationID idStr refs in
  match patchRaw with
  | JObj patch =>
      match check_book_patch patch with
      | Some e => mret (acc_failed acc resolvedID e)
      | None =>
          r ← back (cb_GetAddressBooks b c [resolvedID]);
          match check_shares c accountID (head (fst (fst r))) patch with
          | Some e => mret (acc_failed acc resolvedID e)
          | None =>
              r ← back (cb_UpdateAddressBook b c resolvedID (ResolvePatchCreationRefs patch refs));
              mret (match r with
                    | Err e =>
                        let msg := err_Error e in
                        acc_failed acc resolvedID
                          (if HasPrefix msg "forbidden:" then set_error "forbidden" (TrimPrefix msg "forbidden: ")
                           else set_error "notFound" msg)
                    | Ok ab => acc_done acc resolvedID (JObj [("name", JStr (ab_Name ab))])
                    end)
          end
      end
  | _ => mret acc
  end.

Definition with_default (ab : AddressBook) : AddressBook :=
  mkAddressBook (ab_ID ab) (ab_Name ab) (ab_Description ab) (ab_SortOrder ab) true (ab_IsSubscribed ab)
    (ab_ShareWith ab) (ab_MyRights ab).
(** onSuccessSetIsDefault, when nothing has failed so far. *)
Definition set_default (c : Ctx) (args : obj) (a : books_acc) (u : set_acc) : St (HState W) (books_acc * set_acc) :=
  let raw := str_or_empty args "onSuccessSetIsDefault" in
  match bk_failed a, sa_failed u, String.eqb raw EmptyString with
  | [], [], false =>
      let targetID := ResolveCreationID raw (bk_refs a) in
      err ← back (cb_SetDefaultAddressBook b c targetID);
      mret (match err with
            | Some _ => (a, u)
            | None =>
                if existsb (fun kv => String.eqb (fst kv) raw) (bk_created a)
                then (mkBooks (bk_refs a) (map (fun kv => if String.eqb (fst kv) raw then (fst kv, with_default (snd kv)) else kv)
                                             (bk_created a)) (bk_failed a), u)
                else let old := default [] (get_obj (sa_done u) targetID) in
                     (a, acc_done u targetID (JObj (obj_set old "isDefault" (JBool true))))
            end)
  | _, _, _ => mret (a, u)
  end.

Definition destroy_book (c : Ctx) (remove : bool) (refs : refmap) (acc : destroy_acc) (idStr : string)
  : St (HState W) destroy_acc :=
  let resolvedID := ResolveCreationID idStr refs in
  r ← back (cb_GetAddressBooks b c [resolvedID]);
  if match head (fst (fst r)) with Some ab => negb (ar_MayDelete (ab_MyRights ab)) | None => false end
  then mret (destroy_failed acc resolvedID (set_error "forbidden" "mayDelete right is required to delete addressbook"))
  else
    full ← (if remove then mret false else back (cb_AddressBookHasContents b c resolvedID));
    if full : bool
    then mret (destroy_failed acc resolvedID
                 (set_error "addressBookHasContents" "addressbook contains cards; use onDestroyRemoveContents to delete"))
    else
      r ← back (cb_DeleteAddressBook b c resolvedID remove);
      mret (match r with
            | Ok true => destroy_done acc resolvedID
            | _ => destroy_failed acc resolvedID (set_error "notFound" "addressbook not found")
            end).

Definition handleAddressBookSet : BackendHandler W := fun c args =>
  let accountID := str_or_empty args "accountId" in
  oldState ← gets (fun s => cb_AddressBookState b c (fst s));
  if state_mismatch args "ifInState" oldState
  then mret ("error", MethodErrorArgs "stateMismatch" "state mismatch")
  else
    refs ← new_refs;
    a ← range_obj order (get_obj args "create") (create_book c accountID) (mkBooks refs [] []);
    u ← range_obj order (get_obj args "update") (update_book c accountID (bk_refs a)) (mkAcc [] []);
    au ← set_default c args a u;
    let '(a, u) := au in
    d ← range_strings (get_arr args "destroy")
          (destroy_book c (bool_or_false args "onDestroyRemoveContents") (bk_refs a)) (mkDestroy [] []);
    newState ← gets (fun s => cb_AddressBookState b c (fst s));
    mret ("AddressBook/set",
          set_response accountID oldState newState (map (fun kv => (fst kv, wjson (snd kv))) (bk_created a)) (bk_failed a) u d).

(** ** Cards *)

(** The order in which Go visits the address books and the media of a card. *)
Variable range_books : gmap string bool -> list string.
Variable range_media : gmap string (option JSContactMedia) -> list (string * option JSContactMedia).

Definition name_component (kind value : string) : option JSContactNameComponent := Some (mkNameComp value kind EmptyString).
Definition with_components (n : JSContactName) (l : list (option JSContactNameComponent)) (full : string) : JSContactName :=
  mkName l full (nm_SortAs n) (nm_IsOrdered n) (nm_DefaultSeparator n) (nm_PhoneticSystem n) (nm_PhoneticScript n).
(** The components of a full name, and the full name of components. *)
Definition split_full (kind full : string) : list (option JSContactNameComponent) :=
  if EqualFold kind "group" then [name_component "given" full]
  else match Fields full with
       | [] => []
       | [part] => [name_component "given" part]
       | part :: parts => [name_component "given" part; name_component "surname" (Join parts " ")]
       end.
Definition join_components (l : list (option JSContactNameComponent)) : string :=
  Join (omap (fun c => match c with
                       | Some c => if String.eqb (nc_Value c) EmptyString then None else Some (nc_Value c)
                       | None => None
                       end) l) " ".
Definition normalized_name (kind : string) (n : JSContactName) : JSContactName :=
  match nm_Components n, String.eqb (nm_Full n) EmptyString with
  | [], false => with_components n (split_full kind (nm_Full n)) (nm_Full n)
  | (_ :: _) as l, true => with_components n l (join_components l)
  | _, _ => n
  end.
(** The defaults of type and version, and [normalizeCardName]. *)
Definition normalizeCardName (c : Card) : Card :=
  card_with c (cd_ID c) (cd_Type c) (cd_Version c) (normalized_name (cd_Kind c) <$> cd_Name c) (cd_Media c).
Definition with_defaults (c : Card) : Card :=
  normalizeCardName (card_with c (cd_ID c) (if String.eqb (cd_Type c) EmptyString then "Card" else cd_Type c)
                       (if String.eqb (cd_Version c) EmptyString then "1.0" else cd_Version c) (cd_Name c) (cd_Media c)).

(** A data URL becomes a blob, and the type of a blob is filled in. *)
Definition store_media (c : Ctx) (accountID : string) (m : JSContactMedia) : St W JSContactMedia :=
  let with_blob blobID ty := mkMedia blobID EmptyString ty (me_Contexts m) (me_Kind m) (me_Pref m) in
  if HasPrefix (me_URI m) "data:"
  then match DecodeDataURL (me_URI m) with
       | None => mret m
       | Some (ty, data) =>
           match blobs with
           | None => mret (with_blob (me_BlobID m) ty)
           | Some bb => r ← bo_PutBlob bb c accountID ty data; mret (with_blob (default (me_BlobID m) r) ty)
           end
       end
  else if negb (String.eqb (me_BlobID m) EmptyString)
  then match blobs, String.eqb (me_MediaType m) EmptyString with
       | Some bb, true =>
           r ← bo_GetBlob bb c accountID (me_BlobID m);
           mret (with_blob (me_BlobID m) (match r with Ok ty => ty | Err _ => me_MediaType m end))
       | _, _ => mret (with_blob (me_BlobID m) (me_MediaType m))
       end
  else mret m.
Definition store_all_media (c : Ctx) (accountID : string) (card : Card) : St W Card :=
  media ← fold_state (fun acc kv => match snd kv with
                                    | Some m => m' ← store_media c accountID m; mret (<[fst kv := Some m']> acc)
                                    | None => mret acc
                                    end) (cd_Media card) (range_media (cd_Media card));
  mret (card_with card (cd_ID card) (cd_Type card) (cd_Version card) (cd_Name card) media).

Definition may_read (abs : list AddressBook) : gmap string bool :=
  foldl (fun m ab => <[ab_ID ab := ar_MayRead (ab_MyRights ab)]> m) ∅ abs.
(** A card is shown unless it is in known address books none of which may be
    read. *)
Definition card_visible (abRights : gmap string bool) (card : Card) : bool :=
  let books := default ∅ (cd_AddressBookIDs card) in
  bool_decide (books = ∅) || bool_decide (abRights = ∅)
  || existsb (fun abID => flagged abRights abID) (map fst (map_to_list books)).
Definition show_card (c : Ctx) (accountID : string) (abRights : gmap string bool) (acc : list Card) (card : Card)
  : St (HState W) (list Card) :=
  if card_visible abRights card
  then card ← back (store_all_media c accountID (with_defaults card)); mret (acc ++ [card])
  else mret acc.

Definition handleCardGet : BackendHandler W := fun c args =>
  let accountID := str_or_empty args "accountId" in
  r ← back (match asked_ids args with
            | Some ids => cb_GetCards b c ids
            | None => r ← cb_GetAllCards b c; mret (fst r, [], snd r)
            end);
  let '(l, notFound, err) := r in
  let l := match err with Some _ => [] | None => l end in
  abs ← back (cb_GetAllAddressBooks b c);
  shown ← fold_state (show_card c accountID (may_read (fst abs))) [] l;
  state ← gets (fun s => cb_CardState b c (fst s));
  mret ("Card/get",
        [("accountId", JStr accountID); ("state", JStr state);
         ("list", JArr (FilterList (map wjson shown) (ParseProperties args))); ("notFound", jstrs notFound)]).

Definition handleCardChanges : BackendHandler W := fun c args =>
  let sinceState := str_or_empty args "sinceState" in
  r ← back (cb_CardChanges b c sinceState);
  let '(created, updated, destroyed, newState, hasMore) := r in
  mret ("Card/changes",
        changes_response (str_or_empty args "accountId") sinceState newState hasMore created updated destroyed).

(** The callback of the create loop, which also keeps the uids in use. *)
Definition create_card (c : Ctx) (accountID : string) (cid : string) (node : obj)
  : St (W * list string) (result create_error (string * json)) :=
  fun s =>
    let '(w, uids) := s in
    let '(w, e) := validateCardInput c node uids accountID w in
    match e with
    | Some e => ((w, uids), Err (ESet e))
    | None =>
        let card := with_defaults (unmarshal (JObj node)) in
        let uids := if String.eqb (cd_Uid card) EmptyString then uids else cd_Uid card :: uids in
        let '(w, card) := store_all_media c accountID card w in
        let '(w, r) := cb_CreateCard b c card w in
        ((w, uids), match r with Err e => Err (create_error_of e) | Ok card => Ok (cd_ID card, wjson card) end)
    end.

Definition books_of (card : Card) : list string := range_books (default ∅ (cd_AddressBookIDs card)).
(** Whether the address books of a card that is there may be written. *)
Definition card_not_writable (c : Ctx) (id : string) : St W bool :=
  r ← cb_GetCards b c [id];
  match head (fst (fst r)) with
  | Some card => r ← cb_GetAddressBooks b c (books_of card); mret (not_writable (fst (fst r)))
  | None => mret false
  end.
Definition target_not_writable (c : Ctx) (patch : obj) : St W bool :=
  match get_obj patch "addressBookIds" with
  | Some ((_ :: _) as m) => r ← cb_GetAddressBooks b c (map fst (range_map order m)); mret (not_writable (fst (fst r)))
  | _ => mret false
  end.
Definition update_card (c : Ctx) (accountID : string) (refs : refmap) (acc : set_acc) (kv : string * json)
  : St (HState W) set_acc :=
  let '(idStr, patchRaw) := kv in
  match patchRaw with
  | JObj rawPatch =>
      let patch := ResolvePatchCreationRefs rawPatch refs in
      let resolvedID := ResolveCreationID idStr refs in
      if negb (validateUTF8 (JObj patch))
      then mret (acc_failed acc resolvedID (property_error "invalidProperties" "string contains invalid UTF-8" []))
      else
        forbidden ← back (card_not_writable c resolvedID);
        if forbidden : bool then mret (acc_failed acc resolvedID card_forbidden)
        else
          forbidden ← back (target_not_writable c patch);
          if forbidden : bool then mret (acc_failed acc resolvedID target_forbidden)
          else
            photoErr ← back (check_media false c accountID patch);
            match photoErr with
            | Some e => mret (acc_failed acc resolvedID e)
            | None =>
                r ← back (cb_UpdateCard b c resolvedID patch);
                mret (match r with
                      | Err e => acc_failed acc resolvedID (set_error "notFound" (err_Error e))
                      | Ok card => acc_done acc resolvedID (JObj [("updated", JStr (cd_Updated card))])
                      end)
            end
  | _ => mret acc
  end.
Definition destroy_card (c : Ctx) (refs : refmap) (acc : destroy_acc) (idStr : string) : St (HState W) destroy_acc :=
  let resolvedID := ResolveCreationID idStr refs in
  forbidden ← back (card_not_writable c resolvedID);
  if forbidden : bool then mret (destroy_failed acc resolvedID card_forbidden)
  else
    r ← back (cb_DeleteCard b c resolvedID);
    mret (match r with
          | Ok true => destroy_done acc resolvedID
          | _ => destroy_failed acc resolvedID (set_error "notFound" "card not found")
          end).

Definition uids_of (l : list Card) : list string :=
  omap (fun c => if String.eqb (cd_Uid c) EmptyString then None else Some (cd_Uid c)) l.
(** The create loop with the uids beside the world of the backend. *)
Definition run_card_creates (c : Ctx) (accountID : string) (args : obj) (refs : refmap) (uids : list string)
  : St (HState W) (refmap * obj * obj) :=
  fun s => let '((w, _), cr, r) := run_creates order (create_card c accountID) args refs ((fst s, uids), snd s) in ((w, cr), r).

Definition handleCardSet : BackendHandler W := fun c args =>
  let accountID := str_or_empty args "accountId" in
  oldState ← gets (fun s => cb_CardState b c (fst s));
  if state_mismatch args "ifInState" oldState
  then mret ("error", MethodErrorArgs "stateMismatch" "state mismatch")
  else
    refs ← new_refs;
    all ← back (cb_GetAllCards b c);
    let uids := match snd all with None => uids_of (fst all) | Some _ => [] end in
    r ← run_card_creates c accountID args refs uids;
    let '(refs, created, notCreated) := r in
    u ← range_obj order (get_obj args "update") (update_card c accountID refs) (mkAcc [] []);
    d ← range_strings (get_arr args "destroy") (destroy_card c refs) (mkDestroy [] []);
    newState ← gets (fun s => cb_CardState b c (fst s));
    mret ("Card/set", set_response accountID oldState newState created notCreated u d).

Definition cardSortableProperties : list string := ["created"; "updated"; "name/given"; "name/surname"; "name/surname2"].

Definition handleCardQuery : BackendHandler W := fun c args =>
  let accountID := str_or_empty args "accountId" in
  let filter := get_obj args "filter" in
  let comparators := ParseComparators args in
  let '(errType, errMsg) := ValidateComparators comparators cardSortableProperties in
  let '(position, posErr) := ParseQueryPosition args in
  let '((anchor, offset), anchorErr) := ParseQueryAnchor args in
  let limit := f64_to_uint64 <$> get_num args "limit" in
  if negb (String.eqb errType EmptyString) then mret ("error", MethodErrorArgs errType errMsg)
  else if negb (String.eqb posErr EmptyString) then mret ("error", MethodErrorArgs MethodErrorInvalidArguments posErr)
  else if negb (String.eqb anchorErr EmptyString) then mret ("error", MethodErrorArgs MethodErrorInvalidArguments anchorErr)
  else
    let respond position ids total :=
      state ← gets (fun s => cb_CardState b c (fst s));
      mret ("Card/query",
            [("accountId", JStr accountID); ("queryState", JStr state); ("canCalculateChanges", JBool true);
             ("position", jint (NormalizePosition position total)); ("total", jint total); ("ids", jstrs ids)]) in
    if negb (String.eqb anchor EmptyString)
    then r ← back (cb_QueryCards b c filter comparators 0 None);
         let '(allIDs, total, _) := r in
         match ApplyQueryAnchor anchor offset allIDs limit with
         | None => mret ("error", MethodErrorArgs MethodErrorAnchorNotFound ("anchor not found in results: " +:+ anchor))
         | Some (position, ids) => respond position ids total
         end
    else r ← back (cb_QueryCards b c filter comparators position limit);
         let '(ids, total, _) := r in respond position ids total.

Definition handleCardQueryChanges : BackendHandler W := fun c args =>
  let upToID := str_or_empty args "upToId" in
  let sinceState := str_or_empty args "sinceQueryState" in
  if String.eqb sinceState EmptyString
  then mret ("error", MethodErrorArgs MethodErrorInvalidArguments "sinceQueryState is required")
  else
    r ← back (cb_CardChanges b c sinceState);
    let '(createdIDs, updatedIDs, destroyedIDs, newState, hasMore) := r in
    if hasMore : bool then mret ("error", MethodErrorArgs "cannotCalculateChanges" "sinceQueryState is too old")
    else
      let comparators := ParseComparators args in
      let '(errType, errMsg) := ValidateComparators comparators cardSortableProperties in
      if negb (String.eqb errType EmptyString) then mret ("error", MethodErrorArgs errType errMsg)
      else
        r ← back (cb_QueryCards b c (get_obj args "filter") comparators 0 None);
        let '(added, removed) := ComputeQueryChanges createdIDs updatedIDs destroyedIDs (fst (fst r)) upToID in
        mret ("Card/queryChanges",
              [("accountId", JStr (str_or_empty args "accountId")); ("oldQueryState", JStr sinceState);
               ("newQueryState", JStr newState); ("added", added_json added); ("removed", jstrs removed)]
              ++ (if String.eqb upToID EmptyString then [] else [("upToId", JStr upToID)])).

(** ** Copies *)

(** The body of both copy methods for a type of objects. *)
Section Copy.
Context {A : Type} `{Wire A}.
Variables (method what : string) (state : Ctx -> W -> string).
Variable read : Ctx -> list string -> St W (list A * list string * option go_error).
Variable create : Ctx -> A -> St W (result go_error A).
Variable delete : Ctx -> string -> St W (result go_error bool).
Variables (id_of : A -> string) (clear_id : A -> A).

Definition copied (source : A) (m : obj) : A :=
  clear_id (unmarshal (JObj (MergeCopyOverrides (Some (wjson source)) m))).
Definition copy_one (c srcCtx : Ctx) (acc : copy_acc) (kv : string * json) : St (HState W) copy_acc :=
  let '(creationID, raw) := kv in
  let m := match raw with JObj m => m | _ => [] end in
  let srcID := str_or_empty m "id" in
  if String.eqb srcID EmptyString
  then mret (copy_failed acc creationID (set_error "invalidProperties" "copy create entry must reference a source id"))
  else
    let resolvedSrcID := ResolveCreationID srcID (ca_refs acc) in
    r ← back (read srcCtx [resolvedSrcID]);
    match r with
    | (source :: _, [], _) =>
        r ← back (create c (copied source m));
        match r with
        | Err e => mret (copy_failed acc creationID (set_error "invalidProperties" (err_Error e)))
        | Ok x =>
            refs ← record_ref (ca_refs acc) creationID (id_of x);
            mret (mkCopy refs (obj_set (ca_created acc) creationID (wjson x)) (ca_notCreated acc)
                    (ca_originals acc ++ [resolvedSrcID]))
        end
    | _ => mret (copy_failed acc creationID (set_error "notFound" ("source " +:+ what +:+ " not found: " +:+ srcID)))
    end.
Definition copy_handler : BackendHandler W := fun c args =>
  let '(accountID, fromAccountID) := ResolveCopyAccountIDs args in
  let srcCtx := SourceAccountContext c args in
  checked ← gets (fun s => let st c := state c (fst s) in ValidateCopyStates c srcCtx args st st);
  match checked with
  | Err e => mret e
  | Ok oldState =>
      refs ← new_refs;
      a ← range_obj order (get_obj args "create") (copy_one c srcCtx) (mkCopy refs [] [] []);
      _ ← (if bool_or_false args "onSuccessDestroyOriginal"
           then fold_state (fun _ srcID => _ ← back (delete srcCtx srcID); mret tt) tt (ca_originals a)
           else mret tt);
      newState ← gets (fun s => state c (fst s));
      mret (method,
            [("fromAccountId", JStr fromAccountID); ("accountId", JStr accountID); ("oldState", JStr oldState);
             ("newState", JStr newState); ("created", NilIfEmpty (JObj (ca_created a)));
             ("notCreated", NilIfEmpty (JObj (ca_notCreated a)))])
  end.
End Copy.

Definition card_without_id (c : Card) : Card := card_with c EmptyString (cd_Type c) (cd_Version c) (cd_Name c) (cd_Media c).
Definition book_without_id (ab : AddressBook) : AddressBook :=
  mkAddressBook EmptyString (ab_Name ab) (ab_Description ab) (ab_SortOrder ab) (ab_IsDefault ab) (ab_IsSubscribed ab)
    (ab_ShareWith ab) (ab_MyRights ab).
Definition handleCardCopy : BackendHandler W :=
  copy_handler "Card/copy" "card" (cb_CardState b) (cb_GetCards b) (cb_CreateCard b) (cb_DeleteCard b) cd_ID card_without_id.
Definition handleAddressBookCopy : BackendHandler W :=
  copy_handler "AddressBook/copy" "address book" (cb_AddressBookState b) (cb_GetAddressBooks b) (cb_CreateAddressBook b)
    (fun c id => cb_DeleteAddressBook b c id false) ab_ID book_without_id.

Definition RegisterContactsHandlers {V} (r : MethodRegistry (W := W) (V := V)) : MethodRegistry :=
  foldl (fun r h => Register r (fst h) (snd h)) r
    ([("AddressBook/get", as_method handleAddressBookGet); ("AddressBook/changes", as_method handleAddressBookChanges);
      ("AddressBook/set", as_method handleAddressBookSet); ("AddressBook/copy", as_method handleAddressBookCopy)]
     ++ map (fun h => ("ContactCard/" +:+ fst h, AliasMethod ("ContactCard/" +:+ fst h) (as_method (snd h))))
          [("get", handleCardGet); ("changes", handleCardChanges); ("set", handleCardSet); ("query", handleCardQuery);
           ("queryChanges", handleCardQueryChanges); ("copy", handleCardCopy)]
     ++ map (fun h => ("Card/" +:+ fst h, as_method (snd h)))
          [("get", handleCardGet); ("changes", handleCardChanges); ("set", handleCardSet); ("query", handleCardQuery);
           ("queryChanges", handleCardQueryChanges); ("copy", handleCardCopy)]).
End Methods.

(** ** What AddressBook/set asks of the backend *)

Definition rights : list (string * (AddressBookRights -> bool)) :=
  [("mayRead", ar_MayRead); ("mayWrite", ar_MayWrite); ("mayShare", ar_MayShare); ("mayDelete", ar_MayDelete)].
Definition good_name (name : string) : Prop := name <> EmptyString /\ Z.of_nat (slen name) <= 255.
Definition not_owner (c : Ctx) (accountID p : string) : Prop := isOwnerPrincipal p accountID (fst (SubjectFromContext c)) = false.
(** A new address book: a name within the limit, a sort order below 2^31, and
    no share with its owner. *)
Definition fit_book (c : Ctx) (accountID : string) (ab : AddressBook) : Prop :=
  good_name (ab_Name ab) /\ ab_SortOrder ab < 2 ^ 31
  /\ forall p, is_Some (ab_ShareWith ab !! p) -> not_owner c accountID p.
(** A patch that a user with the rights of [existing] may make: shares are
    changed with mayShare only, never for the owner, and a right is granted
    only by who has it or when it was granted before. *)
Record permitted_patch (c : Ctx) (accountID : string) (existing : option AddressBook) (patch : obj) : Prop := {
  pp_default : obj_get patch "isDefault" = None;
  pp_name : forall v, obj_get patch "name" = Some v -> exists s, v = JStr s /\ good_name s;
  pp_share : forall v ab, obj_get patch "shareWith" = Some v -> existing = Some ab -> ar_MayShare (ab_MyRights ab) = true;
  pp_owner : forall m p r, obj_get patch "shareWith" = Some (JObj m) -> (p, r) ∈ m -> not_owner c accountID p;
  pp_grant : forall m p rm right (has : AddressBookRights -> bool) ab,
    obj_get patch "shareWith" = Some (JObj m) -> (p, JObj rm) ∈ m -> existing = Some ab -> (right, has) ∈ rights ->
    get_bool rm right = Some true ->
    has (ab_MyRights ab) = true \/ exists r, ab_ShareWith ab !! p = Some (Some r) /\ has r = true;
}.

(** [I] survives what the handler may do: it reads, creates fit address books,
    applies permitted patches to a book it has just read, deletes a book whose
    rights allow it and that is empty unless its contents go too, and sets the
    default. *)
Record book_rules {W} (b : ContactsBackend W) (c : Ctx) (accountID : string) (I : W -> Prop) : Prop := {
  br_get : forall ids w, I w -> I (fst (cb_GetAddressBooks b c ids w));
  br_contents : forall id w, I w -> I (fst (cb_AddressBookHasContents b c id w));
  br_default : forall id w, I w -> I (fst (cb_SetDefaultAddressBook b c id w));
  br_create : forall ab w, I w -> fit_book c accountID ab -> I (fst (cb_CreateAddressBook b c ab w));
  br_update : forall id patch refs w, let r := cb_GetAddressBooks b c [id] w in
    I w -> permitted_patch c accountID (head (fst (fst (snd r)))) patch ->
    I (fst (cb_UpdateAddressBook b c id (ResolvePatchCreationRefs patch refs) (fst r)));
  br_delete : forall id remove w, let r := cb_GetAddressBooks b c [id] w in
    let h := if remove : bool then (fst r, false) else cb_AddressBookHasContents b c id (fst r) in
    I w -> (forall ab, head (fst (fst (snd r))) = Some ab -> ar_MayDelete (ab_MyRights ab) = true) -> snd h = false ->
    I (fst (cb_DeleteAddressBook b c id remove (fst h)));
}.

Lemma validate_name_good name : validateAddressBookName name = None -> good_name name.
Proof.
  unfold validateAddressBookName, good_name. destruct (String.eqb_spec name EmptyString); [done|].
  destruct (Z.ltb_spec 255 (Z.of_nat (slen name))); [done|]. done.
Qed.

Lemma check_right_sound rm name mine prev :
  checkRight rm name mine prev = false -> get_bool rm name = Some true -> mine = true \/ prev = true.
Proof. unfold checkRight. intros Hc Hg. rewrite Hg in Hc. destruct mine, prev; auto. Qed.

Lemma checks_permit c accountID existing patch :
  check_book_patch patch = None -> check_shares c accountID existing patch = None ->
  permitted_patch c accountID existing patch.
Proof.
  unfold check_book_patch, check_shares. intros Hp Hs. split.
  - by destruct (obj_get patch "isDefault").
  - intros v Hv. destruct (obj_get patch "isDefault"); [done|]. rewrite Hv in Hp. apply validate_name_good in Hp.
    destruct v; try (by destruct Hp). eauto.
  - intros v ab Hv ->. rewrite Hv in Hs. by destruct (ar_MayShare (ab_MyRights ab)).
  - intros m p r Hv Hin. rewrite Hv in Hs. case_match; [done|]. destruct (has_owner _ _ _) eqn:Ho; [done|].
    unfold not_owner. apply not_true_iff_false. intros Hp'. apply not_true_iff_false in Ho. apply Ho.
    unfold has_owner. apply existsb_exists. exists p. split; [|done]. apply list_elem_of_In.
    apply (list_elem_of_fmap_2 fst) in Hin. exact Hin.
  - intros m p rm right has ab Hv Hin -> Hr Hg. rewrite Hv in Hs. case_match; [done|]. case_match; [done|].
    destruct (existsb (escalates ab) m) eqn:He; [done|]. assert (escalates ab (p, JObj rm) = false) as Hesc.
    { apply not_true_iff_false. intros Ht. apply not_true_iff_false in He. apply He. apply existsb_exists.
      exists (p, JObj rm). split; [by apply list_elem_of_In|done]. }
    unfold escalates in Hesc. cbn [fst snd] in Hesc. repeat apply orb_false_iff in Hesc as [Hesc ?].
    repeat (apply elem_of_cons in Hr as [[= -> ->]|Hr]); [| | | |by apply not_elem_of_nil in Hr];
      match goal with E : checkRight rm ?n _ _ = false, G : get_bool rm ?n = _ |- _ => destruct (check_right_sound _ _ _ _ E G) as [?|Hpr] end;
      [by left|right; by destruct (ab_ShareWith ab !! p) as [[r|]|]; [exists r|..]
      |by left|right; by destruct (ab_ShareWith ab !! p) as [[r|]|]; [exists r|..]
      |by left|right; by destruct (ab_ShareWith ab !! p) as [[r|]|]; [exists r|..]
      |by left|right; by destruct (ab_ShareWith ab !! p) as [[r|]|]; [exists r|..]].
Qed.

Section Rights.
Context `{GoRuntime} {W : Type} (b : ContactsBackend W) (order : MapOrder) (c : Ctx) (accountID : string) (I : W -> Prop).
Context (rules : book_rules b c accountID I).

Lemma create_book_rights acc kv s : I (fst s) -> I (fst (fst (create_book b c accountID acc kv s))).
Proof.
  intros Hi. destruct kv as [cid raw]. unfold create_book. case_match; [done|].
  set (ab := unmarshal _). destruct (validateAddressBookName (ab_Name ab)) eqn:Hn; [done|].
  destruct (Z.leb_spec (2 ^ 31) (ab_SortOrder ab)); [done|]. destruct (has_owner _ _ _) eqn:Ho; [done|].
  rewrite St_bind_eq, back_eq. assert (I (fst (cb_CreateAddressBook b c ab (fst s)))) as Hc.
  { apply (br_create _ _ _ _ rules); [done|]. split_and!; [by apply validate_name_good|done|].
    intros p [r Hr]. apply not_true_iff_false. intros Hp. apply not_true_iff_false in Ho. apply Ho.
    apply existsb_exists. exists p. split; [|done]. apply list_elem_of_In, list_elem_of_fmap.
    exists (p, r). split; [done|]. by apply elem_of_map_to_list. }
  cbn [fst snd]. destruct (snd (cb_CreateAddressBook b c ab (fst s))); cbn [fst snd mret St_ret]; [|done].
  rewrite St_bind_eq. unfold record_ref. cbn [fst snd]. by destruct (RecordCreationRefs _ _ _ _).
Qed.
Lemma update_book_rights refs acc kv s : I (fst s) -> I (fst (fst (update_book b c accountID refs acc kv s))).
Proof.
  intros Hi. destruct kv as [id raw]. unfold update_book. destruct raw as [| | | | |patch]; try done.
  destruct (check_book_patch patch) eqn:Hp; [done|]. rewrite St_bind_eq, back_eq. cbn [fst snd].
  set (id' := ResolveCreationID id refs).
  destruct (check_shares _ _ _ _) eqn:Hs; [cbn; by apply (br_get _ _ _ _ rules)|].
  rewrite St_bind_eq, back_eq. cbn [fst snd mret St_ret]. apply (br_update _ _ _ _ rules); [done|]. by apply checks_permit.
Qed.
Lemma set_default_rights args a u s : I (fst s) -> I (fst (fst (set_default b c args a u s))).
Proof.
  intros Hi. unfold set_default. destruct (bk_failed a); [|done]. destruct (sa_failed u); [|done].
  destruct (String.eqb _ _); [done|]. rewrite St_bind_eq, back_eq. cbn [fst snd mret St_ret]. by apply (br_default _ _ _ _ rules).
Qed.
Lemma destroy_book_rights remove refs acc id s : I (fst s) -> I (fst (fst (destroy_book b c remove refs acc id s))).
Proof.
  intros Hi. unfold destroy_book. rewrite St_bind_eq, back_eq. cbn [fst snd]. set (id' := ResolveCreationID id refs).
  pose proof (br_get _ _ _ _ rules [id'] (fst s) Hi) as Hg. destruct (head _) as [ab|] eqn:Hh; cbn [negb].
  1: destruct (ar_MayDelete (ab_MyRights ab)) eqn:Hd; [|cbn; done].
  all: cbn [negb].
  all: rewrite St_bind_eq; destruct remove; rewrite ?back_eq; cbn [fst snd mret St_ret].
  all: try (rewrite St_bind_eq, back_eq; cbn [fst snd mret St_ret];
    apply (br_delete _ _ _ _ rules id' true (fst s)); [done|rewrite Hh; congruence|done]).
  all: pose proof (br_delete _ _ _ _ rules id' false (fst s)) as Hdel; cbv zeta in Hdel; cbv iota in Hdel; rewrite Hh in Hdel;
    pose proof (br_contents _ _ _ _ rules id' _ Hg) as Hcont;
    destruct (cb_AddressBookHasContents b c id' _) as [w2 []]; [exact Hcont|]; cbn [fst snd] in *;
    rewrite St_bind_eq, back_eq; cbn [fst snd mret St_ret]; apply Hdel; [done|congruence|done].
Qed.

Lemma address_book_set_world args refs w :
  str_or_empty args "accountId" = accountID -> I w -> I (fst (fst (handleAddressBookSet b order c args (w, refs)))).
Proof.
  intros Ha Hi.
  unfold handleAddressBookSet. rewrite Ha. rewrite St_bind_eq. cbn [gets fst snd].
  destruct (state_mismatch _ _ _); [done|]. rewrite St_bind_eq. unfold new_refs. cbn [gets fst snd].
  rewrite St_bind_eq.
  assert (forall s m a0, I (fst s) -> I (fst (fst (range_obj order m (create_book b c accountID) a0 s)))) as H1.
  { intros. apply (range_obj_inv _ _ _ _ (fun s : HState W => I (fst s))); [|done]. intros; by apply create_book_rights. }
  assert (forall s m refs u0, I (fst s) -> I (fst (fst (range_obj order m (update_book b c accountID refs) u0 s)))) as H2.
  { intros. apply (range_obj_inv _ _ _ _ (fun s : HState W => I (fst s))); [|done]. intros; by apply update_book_rights. }
  specialize (H1 (w, refs) (get_obj args "create") (mkBooks (NewSetCreationRefs refs) [] []) Hi).
  set (r1 := range_obj order (get_obj args "create") _ _ _) in *. rewrite St_bind_eq.
  specialize (H2 (fst r1) (get_obj args "update") (bk_refs (snd r1)) (mkAcc [] []) H1).
  set (r2 := range_obj order (get_obj args "update") _ _ _) in *. rewrite St_bind_eq.
  match goal with |- context [set_default b c args ?x ?y ?z] =>
    pose proof (set_default_rights args x y z H2) as H3; destruct (set_default b c args x y z) as [s3 [a u]] end.
  cbn [fst snd] in H3 |- *.  rewrite St_bind_eq.
  rewrite St_bind_eq. cbn [gets fst snd mret St_ret].
  apply (range_strings_inv _ _ _ (fun s : HState W => I (fst s))); [|done]. intros; by apply destroy_book_rights.
Qed.
End Rights.


(** A store of address books in a list, newest last. *)
Definition list_backend : ContactsBackend (list AddressBook) :=
  mkContacts _ (fun _ w => fmt_d (Z.of_nat (length w))) (fun _ _ w => (w, ([], [], [], EmptyString, false)))
    (fun _ ids w => (w, (List.filter (fun ab => str_in (ab_ID ab) ids) w, [], None))) (fun _ w => (w, (w, None)))
    (fun _ ab w => let ab' := mkAddressBook "new" (ab_Name ab) (ab_Description ab) (ab_SortOrder ab) false true (ab_ShareWith ab) FullAddressBookRights in
                   (w ++ [ab'], Ok ab'))
    (fun _ _ _ w => (w, Err ErrNotFound))
    (fun _ id _ w => (List.filter (fun ab => negb (String.eqb (ab_ID ab) id)) w, Ok (existsb (fun ab => String.eqb (ab_ID ab) id) w)))
    (fun _ _ w => (w, None)) (fun _ _ w => (w, false))
    (fun _ _ => EmptyString) (fun _ _ w => (w, ([], [], [], EmptyString, false))) (fun _ _ w => (w, ([], [], None)))
    (fun _ w => (w, ([], None))) (fun _ _ w => (w, Err ErrNotFound)) (fun _ _ _ w => (w, Err ErrNotFound))
    (fun _ _ w => (w, Ok false)) (fun _ _ _ _ _ w => (w, ([], 0, None))).
(** An address book shared with the caller for reading. *)
Definition shared_book : AddressBook :=
  mkAddressBook "ro" "Team" None 0 false true ∅ (mkAbRights true false false false).
Definition demo_rights_args : obj :=
  [("create", JObj [("k", JObj [("name", JStr "Friends")])]); ("destroy", JArr [JStr "ro"; JStr "#k"])].


(** ** Cards: the checks and their gaps *)

Section Registered.
Context `{GoRuntime} {W V : Type} (b : ContactsBackend W) (blobs : option (BlobOps W)) (order : MapOrder).
Context (pm : string -> option string) (du : string -> option (string * string)).
Context (rb : gmap string bool -> list string) (rm : gmap string (option JSContactMedia) -> list (string * option JSContactMedia)).
Context (r : MethodRegistry (W := W) (V := V)).

Ltac find_method := repeat (etransitivity; [apply (lookup_insert_ne (M := gmap string) (A := MethodHandler (W := W) (V := V))); discriminate|]);
  apply (lookup_insert_eq (M := gmap string) (A := MethodHandler (W := W) (V := V))).
Lemma registered_card_set :
  RegisterContactsHandlers b blobs order pm du rb rm r !! "Card/set" = Some (as_method (handleCardSet b blobs order pm du rb rm)).
Proof. unfold RegisterContactsHandlers, Register. cbn [foldl app map fst snd String.append]. find_method. Qed.
Lemma registered_contact_card_set :
  RegisterContactsHandlers b blobs order pm du rb rm r !! "ContactCard/set"
  = Some (AliasMethod "ContactCard/set" (as_method (handleCardSet b blobs order pm du rb rm))).
Proof. unfold RegisterContactsHandlers, Register. cbn [foldl app map fst snd String.append]. find_method. Qed.
End Registered.

(** Errors of the ContactCard methods look like results.  The methods are
    registered through [AliasMethod], which puts the name of the method over
    the name of the response, [error] included: where Card/set answers a wrong
    ifInState with an error, ContactCard/set answers with a ContactCard/set
    response that has none of its members. *)
Theorem contact_card_errors_hidden `{GoRuntime} {W V} (b : ContactsBackend W) blobs order pm du rb rm
    (r : MethodRegistry (W := W) (V := V)) c args cid st :
  state_mismatch args "ifInState" (cb_CardState b c (rs_world st)) = true ->
  let answer name := snd <$> ((fun h => h c args cid st) <$> Registry_Get (RegisterContactsHandlers b blobs order pm du rb rm r) name) in
  let err := Some (MethodErrorArgs "stateMismatch" "state mismatch") in
  answer "Card/set" = Some ("error", err) /\ answer "ContactCard/set" = Some ("ContactCard/set", err).
Proof.
  intros Hm answer err. subst answer err.
  assert (snd (as_method (V := V) (handleCardSet b blobs order pm du rb rm) c args cid st)
          = ("error", Some (MethodErrorArgs "stateMismatch" "state mismatch"))) as Hh.
  { unfold as_method, handleCardSet. rewrite St_bind_eq. cbn [gets fst snd]. by rewrite Hm. }
  unfold Registry_Get. split.
  - rewrite registered_card_set. cbn [fmap option_fmap option_map]. by rewrite Hh.
  - rewrite registered_contact_card_set. cbn [fmap option_fmap option_map]. f_equal. unfold AliasMethod.
    destruct (as_method (handleCardSet b blobs order pm du rb rm) c args cid st) as [st' [n resp]]. by injection Hh as -> ->.
Qed.

(** A store of cards in a list, with the read-only address book [shared_book]. *)
Definition cards_backend : ContactsBackend (list Card) :=
  mkContacts _ (fun _ _ => EmptyString) (fun _ _ w => (w, ([], [], [], EmptyString, false)))
    (fun _ ids w => (w, (if str_in "ro" ids then [shared_book] else [], [], None))) (fun _ w => (w, ([shared_book], None)))
    (fun _ _ w => (w, Err ErrNotFound)) (fun _ _ _ w => (w, Err ErrNotFound)) (fun _ _ _ w => (w, Ok false))
    (fun _ _ w => (w, None)) (fun _ _ w => (w, false))
    (fun _ _ => "s1") (fun _ _ w => (w, ([], [], [], EmptyString, false)))
    (fun _ ids w => (w, (List.filter (fun k => str_in (cd_ID k) ids) w, [], None))) (fun _ w => (w, (w, None)))
    (fun _ k w => (w ++ [k], Ok k))
    (fun _ id patch w => match List.find (fun k => String.eqb (cd_ID k) id) w with
                         | Some k => (w, Ok k)
                         | None => (w, Err ErrNotFound)
                         end)
    (fun _ _ w => (w, Ok false)) (fun _ _ _ _ _ w => (w, (map cd_ID w, Z.of_nat (length w), None))).
Definition demo_card_set (args : obj) (w : list Card) : list Card * obj :=
  let '((w, _), (_, resp)) := handleCardSet (H := ascii_runtime) cards_backend None in_order (fun _ => None) (fun _ => None)
                                (fun m => map fst (map_to_list m)) map_to_list Background args (w, None) in (w, resp).
Definition demo_card_create (members : obj) : obj := [("create", JObj [("k", JObj members)])].

Lemma contact_card_errors_hidden_witness :
  let answer := snd <$> ((fun h => h Background [("ifInState", JStr "s0")] "c0" (mkReq (V := unit) [demo_card "1" []] ∅ [] None None))
    <$> Registry_Get (RegisterContactsHandlers (H := ascii_runtime) cards_backend None in_order (fun _ => None) (fun _ => None)
                        (fun m => map fst (map_to_list m)) map_to_list ∅) "ContactCard/set") in
  answer = Some ("ContactCard/set", Some (MethodErrorArgs "stateMismatch" "state mismatch")).
Proof.
  apply (contact_card_errors_hidden (H := ascii_runtime) cards_backend None in_order (fun _ => None) (fun _ => None)
    (fun m => map fst (map_to_list m)) map_to_list ∅ Background [("ifInState", JStr "s0")] "c0"
    (mkReq (V := unit) [demo_card "1" []] ∅ [] None None)). reflexivity.
Defined.

(** The checks of a card look at exact member names, the decoder at any
    case.  A uid in use and an address book without mayWrite are refused in
    the create, but not when the members are spelled UID and AddressBookIds,
    which are read all the same; and an update that moves a card with the
    patch path addressBookIds/ro reaches the backend, where the whole property
    is refused. *)
Theorem card_checks_skipped_by_spelling :
  let w := [demo_card "1" [("uid", JStr "u1")]] in
  let created members := map (fun k => (cd_Uid k, default ∅ (cd_AddressBookIDs k))) (fst (demo_card_set (demo_card_create members) w)) in
  let update patch := obj_get (snd (demo_card_set [("update", JObj [("1", JObj patch)])] w)) "notUpdated" in
  let forbidden := JObj [("1", SetError_json target_forbidden)] in
  created [("uid", JStr "u1")] = [("u1", ∅)] /\ created [("UID", JStr "u1")] = [("u1", ∅); ("u1", ∅)]
  /\ created [("addressBookIds", JObj [("ro", JBool true)])] = [("u1", ∅)]
  /\ created [("AddressBookIds", JObj [("ro", JBool true)])] = [("u1", ∅); (EmptyString, {["ro" := true]})]
  /\ update [("addressBookIds", JObj [("ro", JBool true)])] = Some forbidden
  /\ update [("addressBookIds/ro", JBool true)] = Some (JObj []).
Proof. vm_compute. split_and!; reflexivity. Qed.

(** ** Copies *)

Section CopyFacts.
Context `{GoRuntime}.

Lemma written_keys l k : k ∈ map fst (written l) -> k ∈ map name_of l.
Proof.
  unfold written. induction l as [|[[n []] j] l IH]; simpl; [done| |].
  - rewrite !elem_of_cons. intros [->|Hk]; [by left|right; by apply IH].
  - rewrite elem_of_cons. intros Hk. right. by apply IH.
Qed.
Lemma written_req {A} `{Wire A} n (x : A) l : written (req n x :: l) = (n, wjson x) :: written l.
Proof. done. Qed.
Lemma obj_del_absent m k : k ∉ map fst m -> obj_del m k = m.
Proof.
  induction m as [|[k' v] m IH]; simpl; [done|]. rewrite not_elem_of_cons. intros [Hne Hm].
  rewrite IH by done. by rewrite (proj2 (String.eqb_neq _ _)) by congruence.
Qed.

Lemma obj_del_head m k v : k ∉ map fst m -> obj_del ((k, v) :: m) k = m.
Proof. intros Hm. cbn [obj_del]. rewrite String.eqb_refl. by apply obj_del_absent. Qed.
Lemma delete_first_field {A} `{Wire A} name (x : A) l :
  existsb (String.eqb name) (map name_of l) = false -> obj_del (written (req name x :: l)) name = written l.
Proof.
  intros Hno. rewrite written_req. apply obj_del_head. intros Hin%written_keys%list_elem_of_In.
  apply not_true_iff_false in Hno. apply Hno, existsb_exists. exists name. split; [exact Hin|apply String.eqb_refl].
Qed.
Lemma card_json_without_id (x : Card) : obj_del (written (fields_cd x)) "id" = written (tail (fields_cd x)).
Proof. exact (delete_first_field "id" (cd_ID x) (tail (fields_cd x)) ltac:(vm_compute; reflexivity)). Qed.

(** The JSON of a card without its id is read as the card without its id. *)
Lemma card_without_id_back (x : Card) : wvalid x ->
  card_without_id (unmarshal (JObj (obj_del (written (fields_cd x)) "id"))) = card_without_id x.
Proof.
  intros Hx. rewrite card_json_without_id.
  unfold unmarshal. set (y := winto _ wzero).
  assert (forall A (wA : Wire A) (get : Card -> A) name, (forall s kv, get (read_cd s kv) = member name kv (get s)) ->
    get zero_cd = wzero -> get y = foldl (fun a kv => member name kv a) wzero (sort_members (written (tail (fields_cd x))))) as Hy.
  { intros A wA get name Hg Hz. etransitivity; [apply (fold_field read_cd get name Hg)|]. f_equal. exact Hz. }
  clearbody y. apply ext_cd; cbn [card_without_id card_with cd_ID]; [reflexivity|..]; simpl.
  all: etransitivity; [eapply Hy; [intros; reflexivity|reflexivity]|].
  all: let there := (unfold fields_cd; cbn [tail]; repeat first [apply list_elem_of_here | apply list_elem_of_further]) in
    let valid := first [apply wire_always | cbn in Hx; tauto] in
    first [solve [eapply req_back; [vm_compute; reflexivity|there|vm_compute; reflexivity|valid]]
          |solve [eapply opt_back; [vm_compute; reflexivity|there|vm_compute; reflexivity|valid]]].
Qed.
End CopyFacts.

(** C37: ContactCard/copy copies the whole card.  A create entry that names only
    a source hands the backend the source card itself, with nothing but its id
    cleared, although the card goes through JSON and back; the card the backend
    returns is in the response under the creation id, and is read back from it
    as it is. *)
Theorem card_copy_exact `{GoRuntime} {W} (b : ContactsBackend W) c srcCtx acc cid srcID source others err w w1 cr :
  wvalid source -> srcID <> EmptyString ->
  cb_GetCards b srcCtx [ResolveCreationID srcID (ca_refs acc)] w = (w1, (source :: others, [], err)) ->
  let r := copy_one "card" (cb_GetCards b) (cb_CreateCard b) cd_ID card_without_id c srcCtx acc (cid, JObj [("id", JStr srcID)]) (w, cr) in
  let made := cb_CreateCard b c (card_without_id source) w1 in
  fst (fst r) = fst made
  /\ forall x, snd made = Ok x -> obj_get (ca_created (snd r)) cid = Some (wjson x) /\ (wvalid x -> unmarshal (wjson x) = x).
Proof.
  intros Hv Hid Hget r made. unfold r, copy_one. cbn [snd]. change (str_or_empty [("id", JStr srcID)] "id") with srcID.
  rewrite (proj2 (String.eqb_neq _ _) Hid). rewrite St_bind_eq, back_eq. cbn [fst snd]. rewrite Hget. cbn [fst snd].
  assert (copied card_without_id source [("id", JStr srcID)] = card_without_id source) as ->.
  { unfold copied. change (MergeCopyOverrides (Some (wjson source)) [("id", JStr srcID)]) with (obj_del (written (fields_cd source)) "id").
    by apply card_without_id_back. }
  rewrite St_bind_eq, back_eq. cbn [fst snd]. fold made. destruct (snd made) as [x|e].
  - rewrite St_bind_eq. unfold record_ref. cbn [fst snd]. destruct (RecordCreationRefs cr (ca_refs acc) cid (cd_ID x)) as [? ?].
    cbn [fst snd mret St_ret ca_created]. split; [done|]. intros x' [= <-]. split.
    + rewrite obj_get_set. by rewrite decide_True.
    + intros Hx. by apply wire_back.
  - cbn [fst snd mret St_ret]. split; [done|]. intros x' [=].
Qed.

Lemma card_copy_exact_witness :
  let source := demo_card "1" [("name", JObj [("full", JStr "Ann")])] in
  fst (fst (copy_one (H0 := wire_cd (H := ascii_runtime)) "card" (cb_GetCards cards_backend) (cb_CreateCard cards_backend) cd_ID card_without_id
              Background Background (mkCopy ∅ [] [] []) ("k", JObj [("id", JStr "1")]) ([source], None)))
  = [source; card_without_id source].
Proof.
  intros source. refine (eq_trans (proj1 (card_copy_exact (H := ascii_runtime) cards_backend Background Background (mkCopy ∅ [] [] []) "k" "1"
    source [] None [source] [source] None _ _ _)) _).
  - repeat split; apply map_Forall_empty.
  - discriminate.
  - vm_compute. reflexivity.
  - reflexivity.
Defined.
