(* ===== verification/EmailGet.v ===== *)
(** * Email/get

    [jmap/jmapmail/email_handlers.go] and [email_get_helper.go]: header
    properties, body parts and body values, and the methods Email/get and
    Email/changes.

    [mime.WordDecoder], [net/mail], [net/url] and the third-party
    normalisation of Unicode text are the class [MailText].  An empty slice of
    an email is its nil slice, which shows as null where the code does not
    replace it. *)

From S2P Require Import Prelude GoSort GoStrings GoRunes GoState Json Envelope Query Handler MailTypes ChangeTracker Keywords MailQuery MethodSupport GoTime.
From Stdlib Require Import Ascii SpecFloat.

(** ** Header properties *)

Definition isAddressHeader `{GoRuntime} (name : string) : bool :=
  str_in (ToLower name) ["from"; "to"; "cc"; "bcc"; "reply-to"; "sender"; "resent-from"; "resent-to"; "resent-cc";
                         "resent-bcc"; "resent-sender"; "disposition-notification-to"].
Definition isMessageIdHeader `{GoRuntime} (name : string) : bool :=
  str_in (ToLower name) ["message-id"; "in-reply-to"; "references"; "resent-message-id"].
Definition isDateHeader `{GoRuntime} (name : string) : bool := str_in (ToLower name) ["date"; "resent-date"].
Definition isURLHeader `{GoRuntime} (name : string) : bool :=
  let n := ToLower name in HasPrefix n "list-" || String.eqb n "archived-at".

Inductive HeaderForm : Type :=
| FormRaw | FormText | FormAddresses | FormGroupedAddresses | FormMessageIDs | FormDate | FormURLs.
#[export] Instance HeaderForm_eq_dec : EqDecision HeaderForm.
Proof. solve_decision. Defined.
Definition form_string (f : HeaderForm) : string :=
  match f with
  | FormRaw => "asRaw" | FormText => "asText" | FormAddresses => "asAddresses"
  | FormGroupedAddresses => "asGroupedAddresses" | FormMessageIDs => "asMessageIds" | FormDate => "asDate"
  | FormURLs => "asURLs"
  end.
Definition all_forms : list HeaderForm :=
  [FormRaw; FormText; FormAddresses; FormGroupedAddresses; FormMessageIDs; FormDate; FormURLs].
(** [HeaderForm(s)] when [isValidHeaderForm] *)
Definition isValidHeaderForm (s : string) : option HeaderForm :=
  List.find (fun f => String.eqb (form_string f) s) all_forms.

Record ParsedHeaderProperty : Type := mkHeaderProp { hp_RawProp : string; hp_Name : string; hp_Form : HeaderForm; hp_All : bool }.

Section HeaderProperty.
Context `{GoRuntime}.

(** The forms RFC 8621 permits on a header. *)
Definition form_permitted (f : HeaderForm) (name : string) : bool :=
  match f with
  | FormAddresses | FormGroupedAddresses => isAddressHeader name
  | FormMessageIDs => isMessageIdHeader name
  | FormDate => isDateHeader name
  | FormURLs => isURLHeader name
  | FormRaw | FormText => true
  end.
(** What follows the name: the form and whether all values are wanted. *)
Definition header_suffix (prop : string) (parts : list string) : result string (HeaderForm * bool) :=
  let bad_form p := Err ("invalid header form " +:+ fmt_q p +:+ " in " +:+ fmt_q prop) in
  match parts with
  | [] => Ok (FormRaw, false)
  | [p] => if String.eqb p "all" then Ok (FormRaw, true)
           else match isValidHeaderForm p with Some f => Ok (f, false) | None => bad_form p end
  | [p; q] => match isValidHeaderForm p with
              | None => bad_form p
              | Some f => if String.eqb q "all" then Ok (f, true)
                          else Err ("expected :all as final suffix in " +:+ fmt_q prop)
              end
  | _ => Err ("too many parts in header property: " +:+ fmt_q prop)
  end.
Definition ParseHeaderProperty (prop : string) : result string ParsedHeaderProperty :=
  if negb (HasPrefix prop "header:") then Err "not a header property"
  else match Split prop ":" with
       | _ :: name :: rest =>
           if String.eqb name EmptyString then Err ("empty header name in " +:+ fmt_q prop)
           else match header_suffix prop rest with
                | Err e => Err e
                | Ok (form, all) =>
                    if form_permitted form name then Ok (mkHeaderProp prop name form all)
                    else Err ("form " +:+ form_string form +:+ " is not permitted on header " +:+ fmt_q name)
                end
       | _ => Err ("invalid header property format: " +:+ fmt_q prop)
       end.
End HeaderProperty.

(** ** Header values *)

Class MailText := {
  (** [mime.WordDecoder.DecodeHeader] and [norm.NFC.String] *)
  mt_DecodeHeader : string -> option string;
  mt_NFC : string -> string;
  (** [mail.ParseAddressList] and [mail.ParseDate] *)
  mt_ParseAddressList : string -> option (list EmailAddress);
  mt_ParseDate : string -> option Time;
  (** whether [url.Parse] succeeds with a scheme *)
  mt_has_scheme : string -> bool;
}.

Definition fold_blank (c : ascii) : bool := Ascii.eqb c " " || Ascii.eqb c "009".
(** [unfoldingRegex.ReplaceAllString(raw, " ")]: a line break with the blanks
    that follow it becomes a space; [Break] passes over the line feed of a
    match, [Blanks] over its blanks. *)
Inductive fold_mode : Type := Copy | Break | Blanks.
Definition folds_here (s : string) : option fold_mode :=
  match s with
  | String "013" (String "010" (String d _)) => if fold_blank d then Some Break else None
  | String "010" (String d _) => if fold_blank d then Some Blanks else None
  | _ => None
  end.
Fixpoint unfold_go (mode : fold_mode) (s : string) : string :=
  match s with
  | EmptyString => EmptyString
  | String c s' =>
      match mode, fold_blank c with
      | Break, _ | Blanks, true => unfold_go Blanks s'
      | _, _ => match folds_here s with
                | Some m => String " " (unfold_go m s')
                | None => String c (unfold_go Copy s')
                end
      end
  end.
Definition unfoldHeader (raw : string) : string := TrimSpace (unfold_go Copy raw).

(** The text up to a byte and what follows it. *)
Fixpoint cut_byte (c : ascii) (s : string) : option (string * string) :=
  match s with
  | EmptyString => None
  | String d s' => if Ascii.eqb d c then Some (EmptyString, s')
                   else '(a, r) ← cut_byte c s'; Some (String d a, r)
  end.
(** A match of [<([^>]+)>] at the start of [s]. *)
Definition angle (s : string) : option (string * string) :=
  match s with
  | String "<" s' => '(a, r) ← cut_byte ">" s'; if String.eqb a EmptyString then None else Some (a, r)
  | _ => None
  end.
(** [urlRegex.FindAllStringSubmatch]: every round takes at least a byte. *)
Fixpoint find_angles (fuel : nat) (s : string) : list string :=
  match fuel, s with
  | S f, String _ s' => match angle s with Some (a, r) => a :: find_angles f r | None => find_angles f s' end
  | _, _ => []
  end.
(** A byte of [[^\s<>]] *)
Definition mid_byte (c : ascii) : bool :=
  negb (fold_blank c || Ascii.eqb c "010" || Ascii.eqb c "012" || Ascii.eqb c "013" || Ascii.eqb c "<" || Ascii.eqb c ">").
Fixpoint span_bytes (p : ascii -> bool) (s : string) : string * string :=
  match s with
  | EmptyString => (EmptyString, EmptyString)
  | String c s' => if p c then let '(a, r) := span_bytes p s' in (String c a, r) else (EmptyString, s)
  end.
(** [midRegex.FindAllStringSubmatch]: what is in angle brackets, or a run
    without space and brackets. *)
Fixpoint find_mids (fuel : nat) (s : string) : list string :=
  match fuel, s with
  | S f, String c s' =>
      match angle s with
      | Some (a, r) => a :: find_mids f r
      | None => if mid_byte c then let '(a, r) := span_bytes mid_byte s in a :: find_mids f r else find_mids f s'
      end
  | _, _ => []
  end.

Section HeaderValues.
Context `{GoRuntime} `{TimeZones} `{MailText}.

Definition decodeHeaderText (raw : string) : string :=
  let unfolded := unfoldHeader (ReplaceAll raw (str_of ["000"%char]) EmptyString) in
  mt_NFC (default unfolded (mt_DecodeHeader unfolded)).
Definition decoded_address (a : EmailAddress) : json :=
  JObj [("email", JStr (ea_Email a));
        ("name", if String.eqb (ea_Name a) EmptyString then JNull
                 else JStr (decodeHeaderText (ReplaceAll (ea_Name a) (str_of [backslash]) EmptyString)))].
(** [None] is nil. *)
Definition decodeHeaderAddresses (raw : string) : option (list json) :=
  map decoded_address <$> mt_ParseAddressList (unfoldHeader raw).
Definition nil_slice (l : list json) : json := match l with [] => JNull | _ => JArr l end.
Definition group_json (name : json) (addrs : option (list json)) : json :=
  JArr [JObj [("name", name); ("addresses", match addrs with Some l => JArr l | None => JNull end)]].
Definition decodeHeaderGroupedAddresses (raw : string) : json :=
  let unfolded := TrimSpace (ReplaceAll (ReplaceAll raw (str_of ["013"%char; "010"%char]) " ") (str_of ["010"%char]) " ") in
  match cut_byte ":" unfolded with
  | Some (before, after) =>
      group_json (JStr (decodeHeaderText (TrimSpace before))) (decodeHeaderAddresses (TrimSuffix (TrimSpace after) ";"))
  | None => group_json JNull (decodeHeaderAddresses unfolded)
  end.
Definition mid_cutset : string := str_of ["<"%char; ">"%char; " "%char; "009"%char].
Definition decodeHeaderMessageIDs (raw : string) : json :=
  match find_mids (slen raw) raw with
  | [] => JArr []
  | matches => nil_slice (omap (fun m => let v := Trim m mid_cutset in if String.eqb v EmptyString then None else Some (JStr v)) matches)
  end.
(** [t.Format("2006-01-02T15:04:05-07:00")] *)
Definition format_offset (t : Time) : string :=
  let zone := Z.quot (loc_offset (t_loc t) (unix_of t)) 60 in
  let m := Z.abs zone in
  Format_second t +:+ (if zone <? 0 then "-" else "+") +:+ pad 2 (m / 60) +:+ ":" +:+ pad 2 (m mod 60).
Definition decodeHeaderDate (raw : string) : json :=
  match mt_ParseDate (TrimSpace raw) with Some t => JStr (format_offset t) | None => JNull end.
Definition decodeHeaderURLs (raw : string) : json :=
  match find_angles (slen raw) raw with
  | [] => let trimmed := TrimSpace raw in if mt_has_scheme trimmed then JArr [JStr trimmed] else JNull
  | matches => nil_slice (omap (fun m => let u := TrimSpace m in if mt_has_scheme u then Some (JStr u) else None) matches)
  end.
Definition formatHeaderValue (raw : string) (form : HeaderForm) : json :=
  match form with
  | FormRaw => JStr (if negb (HasPrefix raw " ") && negb (HasPrefix raw (str_of ["009"%char])) then " " +:+ raw else raw)
  | FormText => JStr (decodeHeaderText raw)
  | FormAddresses => match decodeHeaderAddresses raw with Some l => JArr l | None => JNull end
  | FormGroupedAddresses => decodeHeaderGroupedAddresses raw
  | FormMessageIDs => decodeHeaderMessageIDs raw
  | FormDate => decodeHeaderDate raw
  | FormURLs => decodeHeaderURLs raw
  end.
Definition EvaluateHeaderProperty (em : Email) (hp : ParsedHeaderProperty) : json :=
  let matching := omap (fun h => if EqualFold (eh_Name h) (hp_Name hp) then Some (eh_Value h) else None) (em_Headers em) in
  if hp_All hp then JArr (map (fun v => formatHeaderValue v (hp_Form hp)) matching)
  else match last matching with Some v => formatHeaderValue v (hp_Form hp) | None => JNull end.
End HeaderValues.

(** ** Body parts and values *)

Definition defaultBodyProperties : list string :=
  ["partId"; "blobId"; "size"; "name"; "type"; "charset"; "disposition"; "cid"; "language"; "location"].
Definition header_json (h : EmailHeader) : json := JObj [("name", JStr (eh_Name h)); ("value", JStr (eh_Value h))].
Definition nil_strings (l : list string) : json := match l with [] => JNull | _ => jstrs l end.
Fixpoint filter_part (props : list string) (part : EmailBodyPart) : obj :=
  let '(mkPart pid blob size headers name ty charset disposition cid language location subs) := part in
  let want k (v : json) := if str_in k props then [(k, v)] else [] in
  match props with
  | [] => []
  | _ =>
      want "partId" (opt_str pid) ++ want "blobId" (opt_str blob) ++ want "size" (jint size) ++ want "name" (opt_str name)
      ++ want "type" (JStr ty) ++ want "charset" (opt_str charset) ++ want "disposition" (opt_str disposition)
      ++ want "cid" (opt_str cid) ++ want "language" (nil_strings language) ++ want "location" (opt_str location)
      ++ want "headers" (JArr (map header_json headers))
      ++ (if str_in "subParts" props || negb (match subs with [] => true | _ => false end) || HasPrefix ty "multipart/"
          then [("subParts", JArr (map (fun sp => JObj (filter_part props sp)) subs))] else [])
  end.
Definition FilterEmailBodyPart (part : EmailBodyPart) (bodyProperties : option (list string)) : json :=
  JObj (filter_part (default defaultBodyProperties bodyProperties) part).

(** [for len(b) > 0 && !utf8.Valid(b) { b = b[:len(b)-1] }] from [n] bytes. *)
Fixpoint valid_prefix (n : nat) (s : string) : string :=
  if valid_utf8 (str_take n s) then str_take n s
  else match n with O => EmptyString | S n' => valid_prefix n' s end.
Definition ApplyMaxBodyValueBytes (bv : EmailBodyValue) (maxBytes : Z) : EmailBodyValue :=
  if (maxBytes =? 0) || (Z.of_nat (slen (bv_Value bv)) <=? maxBytes) then bv
  else
    let s := valid_prefix (Z.to_nat maxBytes) (bv_Value bv) in
    let s := match LastIndexByte s "<" with
             | Some open => if Contains (str_drop open s) ">" then s else str_take open s
             | None => s
             end in
    mkBodyValue s (bv_IsEncodingProblem bv) true.

(** ** The Email object of a response *)

(** The S/MIME members of an email. *)
Record SMIME : Type := mkSMIME {
  sm_Status : option string; sm_StatusAt : option string; sm_Errors : list string; sm_VerifiedWith : option string;
}.
Definition no_smime : SMIME := mkSMIME None None [] None.

Definition body_value_json (v : EmailBodyValue) : json :=
  JObj [("value", JStr (bv_Value v)); ("isEncodingProblem", JBool (bv_IsEncodingProblem v));
        ("isTruncated", JBool (bv_IsTruncated v))].
Definition bools_json (m : list (string * bool)) : json := JObj (map (fun kv => (fst kv, JBool (snd kv))) m).
Definition body_value (em : Email) (partID : string) : option EmailBodyValue :=
  snd <$> List.find (fun kv => String.eqb (fst kv) partID) (em_BodyValues em).

(** The options of Email/get and Email/parse. *)
Record FetchOptions : Type := mkFetch {
  fo_bodyProps : option (list string); fo_text : bool; fo_html : bool; fo_all : bool; fo_max : Z;
}.

Section Format.
Context `{GoRuntime} `{TimeZones} `{MailText}.
Variable o : FetchOptions.

Definition effectiveTextBody (em : Email) : list EmailBodyPart :=
  match em_TextBody em with [] => em_HTMLBody em | l => l end.
Definition effectiveHTMLBody (em : Email) : list EmailBodyPart :=
  match em_HTMLBody em with [] => em_TextBody em | l => l end.
Definition fetched_values (em : Email) (parts : list EmailBodyPart) (acc : obj) : obj :=
  foldl (fun acc part => match bp_PartID part with
                         | Some id => match body_value em id with
                                      | Some bv => obj_set acc id (body_value_json (ApplyMaxBodyValueBytes bv (fo_max o)))
                                      | None => acc
                                      end
                         | None => acc
                         end) acc parts.
Definition bodyValues (em : Email) : obj :=
  if fo_all o then map (fun kv => (fst kv, body_value_json (ApplyMaxBodyValueBytes (snd kv) (fo_max o)))) (em_BodyValues em)
  else
    let acc := if fo_text o then fetched_values em (effectiveTextBody em) [] else [] in
    if fo_html o then fetched_values em (effectiveHTMLBody em) acc else acc.
Definition parts_json (l : list EmailBodyPart) : json := JArr (map (fun p => FilterEmailBodyPart p (fo_bodyProps o)) l).
Definition address_list (l : list EmailAddress) : json := JArr (map address_json l).
Definition keywords_json (em : Email) : json :=
  JObj (map (fun kv => (fst kv, JBool (snd kv))) (map_to_list (VisibleKeywords (em_Keywords em)))).

(** The object without a list of properties. *)
Definition full_object (em : Email) (sm : SMIME) : obj :=
  let some k v := match v with Some s => [(k, JStr s)] | None => [] end in
  [("id", JStr (em_ID em)); ("blobId", JStr (em_BlobID em)); ("threadId", JStr (em_ThreadID em));
   ("mailboxIds", bools_json (em_MailboxIDs em)); ("keywords", keywords_json em); ("size", jint (em_Size em));
   ("receivedAt", JStr (em_ReceivedAt em)); ("messageId", nil_strings (em_MessageID em));
   ("inReplyTo", nil_strings (em_InReplyTo em)); ("references", nil_strings (em_References em));
   ("sender", nil_slice (map address_json (em_Sender em))); ("from", address_list (em_From em));
   ("to", address_list (em_To em)); ("cc", address_list (em_CC em)); ("bcc", address_list (em_BCC em));
   ("replyTo", address_list (em_ReplyTo em)); ("subject", JStr (em_Subject em)); ("sentAt", opt_str (em_SentAt em));
   ("textBody", parts_json (effectiveTextBody em)); ("htmlBody", parts_json (effectiveHTMLBody em));
   ("attachments", parts_json (em_Attachments em)); ("hasAttachment", JBool (em_HasAttachment em));
   ("preview", JStr (em_Preview em)); ("bodyValues", JObj (bodyValues em))]
  ++ some "smimeStatus" (sm_Status sm) ++ some "smimeStatusAt" (sm_StatusAt sm)
  ++ some "smimeVerifiedWith" (sm_VerifiedWith sm)
  ++ match sm_Errors sm with [] => [] | l => [("smimeErrors", jstrs l)] end.
(** The switch over a requested property; others are ignored. *)
Definition email_property (em : Email) (sm : SMIME) (p : string) : option json :=
  if String.eqb p "id" then Some (JStr (em_ID em))
  else if String.eqb p "blobId" then Some (JStr (em_BlobID em))
  else if String.eqb p "threadId" then Some (JStr (em_ThreadID em))
  else if String.eqb p "mailboxIds" then Some (bools_json (em_MailboxIDs em))
  else if String.eqb p "keywords" then Some (keywords_json em)
  else if String.eqb p "size" then Some (jint (em_Size em))
  else if String.eqb p "receivedAt" then Some (JStr (em_ReceivedAt em))
  else if String.eqb p "messageId" then Some (nil_strings (em_MessageID em))
  else if String.eqb p "inReplyTo" then Some (nil_strings (em_InReplyTo em))
  else if String.eqb p "references" then Some (nil_strings (em_References em))
  else if String.eqb p "sender" then Some (nil_slice (map address_json (em_Sender em)))
  else if String.eqb p "from" then Some (address_list (em_From em))
  else if String.eqb p "to" then Some (address_list (em_To em))
  else if String.eqb p "cc" then Some (address_list (em_CC em))
  else if String.eqb p "bcc" then Some (address_list (em_BCC em))
  else if String.eqb p "replyTo" then Some (address_list (em_ReplyTo em))
  else if String.eqb p "subject" then Some (JStr (em_Subject em))
  else if String.eqb p "sentAt" then Some (opt_str (em_SentAt em))
  else if String.eqb p "headers" then Some (nil_slice (map header_json (em_Headers em)))
  else if String.eqb p "bodyStructure" then Some (FilterEmailBodyPart (em_BodyStructure em) (fo_bodyProps o))
  else if String.eqb p "bodyValues" then Some (JObj (bodyValues em))
  else if String.eqb p "textBody" then Some (parts_json (effectiveTextBody em))
  else if String.eqb p "htmlBody" then Some (parts_json (effectiveHTMLBody em))
  else if String.eqb p "attachments" then Some (parts_json (em_Attachments em))
  else if String.eqb p "hasAttachment" then Some (JBool (em_HasAttachment em))
  else if String.eqb p "preview" then Some (JStr (em_Preview em))
  else if String.eqb p "smimeStatus" then Some (opt_str (sm_Status sm))
  else if String.eqb p "smimeStatusAt" then Some (opt_str (sm_StatusAt sm))
  else if String.eqb p "smimeVerifiedWith" then Some (opt_str (sm_VerifiedWith sm))
  else if String.eqb p "smimeErrors" then Some (jstrs (sm_Errors sm))
  else None.
(** [hpMap[hp.RawProp] = hp]: the last one of a name stays. *)
Definition header_prop (hps : list ParsedHeaderProperty) (p : string) : option ParsedHeaderProperty :=
  last (List.filter (fun hp => String.eqb (hp_RawProp hp) p) hps).
Definition format_property (em : Email) (sm : SMIME) (hps : list ParsedHeaderProperty) (out : obj) (p : string) : obj :=
  match header_prop hps p with
  | Some hp => obj_set out p (EvaluateHeaderProperty em hp)
  | None => match email_property em sm p with Some v => obj_set out p v | None => out end
  end.
Definition FormatEmailGet (em : Email) (sm : SMIME) (props : option (list string)) (hps : list ParsedHeaderProperty) : obj :=
  match props with
  | None => full_object em sm
  | Some props => foldl (format_property em sm hps) [("id", JStr (em_ID em))] props
  end.
End Format.

Definition ParsePropertiesBody (args : obj) : option (list string) := strings_of <$> get_arr args "bodyProperties".

(** ** The methods *)

Record EmailReads (W : Type) : Type := mkEmailReads {
  er_State : Ctx -> W -> string;
  er_Changes : Ctx -> string -> option Z -> St W (list string * list string * list string * string * bool);
  er_Get : Ctx -> list string -> St W (list (Email * SMIME) * list string * option go_error);
  er_GetAll : Ctx -> St W (list (Email * SMIME) * option go_error);
}.
Arguments er_State {W} _ _ _.
Arguments er_Changes {W} _ _ _ _ _.
Arguments er_Get {W} _ _ _ _.
Arguments er_GetAll {W} _ _ _.

Section Methods.
Context `{GoRuntime} `{TimeZones} `{MailText} {W : Type}.
Variable b : EmailReads W.

(** The header properties of a request, or the first error. *)
Fixpoint parse_header_props (props : list string) : result string (list ParsedHeaderProperty) :=
  match props with
  | [] => Ok []
  | p :: rest =>
      if HasPrefix p "header:"
      then match ParseHeaderProperty p with
           | Err e => Err e
           | Ok hp => match parse_header_props rest with Err e => Err e | Ok l => Ok (hp :: l) end
           end
      else parse_header_props rest
  end.
Definition parse_max_body (args : obj) : option Z :=
  match obj_get args "maxBodyValueBytes" with
  | None => Some 0
  | Some (JNum f) => if is_uint_float true f then Some (f64_to_uint64 f) else None
  | Some _ => None
  end.
Definition fetch_options (args : obj) (maxBytes : Z) : FetchOptions :=
  mkFetch (ParsePropertiesBody args) (bool_or_false args "fetchTextBodyValues") (bool_or_false args "fetchHTMLBodyValues")
    (bool_or_false args "fetchAllBodyValues") maxBytes.
Definition HandleEmailGet (c : Ctx) (args : obj) : St W (string * obj) :=
  let props := ParseProperties args in
  match parse_header_props (default [] props) with
  | Err e => mret ("error", MethodErrorArgs MethodErrorInvalidArguments e)
  | Ok hps =>
      match parse_max_body args with
      | None => mret ("error", InvalidArgumentsErrorArgs ["maxBodyValueBytes"] EmptyString)
      | Some maxBytes =>
          r ← (match ParseIDs args with
               | Some ids => r ← er_Get b c ids; mret (Ok r)
               | None => r ← er_GetAll b c;
                         mret (match ValidateGetLimits c (Z.of_nat (length (fst r))) with
                               | Some e => Err e
                               | None => Ok (fst r, [], snd r)
                               end)
               end);
          match r with
          | Err e => mret e
          | Ok (l, notFound, err) =>
              let l := match err with Some _ => [] | None => l end in
              state ← gets (er_State b c);
              mret ("Email/get",
                    [("accountId", JStr (str_or_empty args "accountId")); ("state", JStr state);
                     ("list", JArr (map (fun e => JObj (FormatEmailGet (fetch_options args maxBytes) (fst e) (snd e) props hps)) l));
                     ("notFound", jstrs notFound)])
          end
      end
  end.

Definition HandleEmailChanges (c : Ctx) (args : obj) : St W (string * obj) :=
  let sinceState := str_or_empty args "sinceState" in
  match ParseMaxChanges args with
  | Err e => mret ("error", e)
  | Ok maxChanges =>
      r ← er_Changes b c sinceState maxChanges;
      let '(created, updated, destroyed, newState, hasMore) := r in
      mret (if String.eqb newState EmptyString
            then ("error", MethodErrorArgs "cannotCalculateChanges" "cannot calculate changes from sinceState")
            else ("Email/changes",
                  changes_response (str_or_empty args "accountId") sinceState newState hasMore created updated destroyed))
  end.
End Methods.

(** ** What Email/get returns *)

Lemma slen_take n s : slen (str_take n s) = Nat.min n (slen s).
Proof. unfold slen. revert s. induction n; intros [|c s]; simpl; [done..|]. by rewrite IHn. Qed.

Lemma str_take_take k n s : (k <= n)%nat -> str_take k (str_take n s) = str_take k s.
Proof. revert n s. induction k; intros [|n] [|c s] Hk; simpl; try done; [lia|]. by rewrite IHk by lia. Qed.

(** The loop ends at the longest valid prefix of at most [n] bytes. *)
Lemma valid_prefix_spec n s :
  exists k, (k <= n)%nat /\ valid_prefix n s = str_take k s /\ valid_utf8 (str_take k s) = true
            /\ forall j, (k < j <= n)%nat -> valid_utf8 (str_take j s) = false.
Proof.
  induction n as [|n IH]; cbn [valid_prefix].
  - exists 0%nat. split_and!; [lia|done|done|lia].
  - destruct (valid_utf8 (str_take (S n) s)) eqn:E; [exists (S n); split_and!; [lia|done|done|lia]|].
    destruct IH as (k & Hk & -> & Hv & Hmax). exists k. split_and!; [lia|done|done|].
    intros j Hj. destruct (decide (j = S n)) as [->|]; [done|]. apply Hmax. lia.
Qed.

(** The back-off from an open tag keeps a valid prefix. *)
Lemma tag_backoff_valid s :
  valid_utf8 s = true ->
  exists k, (k <= slen s)%nat /\ (k = slen s \/ exists t, s = str_take k s +:+ String "<" t)
    /\ (match LastIndexByte s "<" with
        | Some open => if Contains (str_drop open s) ">" then s else str_take open s
        | None => s
        end) = str_take k s
    /\ valid_utf8 (str_take k s) = true.
Proof.
  intros Hs. assert (Hall : exists k, (k <= slen s)%nat /\ (k = slen s \/ exists t, s = str_take k s +:+ String "<" t)
    /\ s = str_take k s /\ valid_utf8 (str_take k s) = true) by (exists (slen s); rewrite str_take_all by lia; auto).
  destruct (LastIndexByte s "<") as [n|] eqn:E; [|done]. destruct (Contains (str_drop n s) ">"); [done|].
  destruct (LastIndexByte_cut s "<" n E) as (t & Ht & _).
  assert (Hn : (n <= slen s)%nat).
  { destruct (decide (n <= slen s)%nat); [done|]. rewrite str_take_all in Ht by lia. apply (f_equal slen) in Ht.
    rewrite slen_app in Ht. simpl in Ht. lia. }
  exists n. split_and!; [done|eauto|done|]. apply (valid_before_ascii "<" t); [done|]. by rewrite <- Ht.
Qed.

(** C32: A truncated body value: a text that fits is returned as it is; of a longer
    one a prefix of at most [maxBodyValueBytes] bytes is returned, marked as
    truncated, which is valid UTF-8; the encoding never costs more than three
    bytes, so that a text without tags keeps all but three of the bytes asked
    for. *)
Theorem truncated_body_valid (bv : EmailBodyValue) (maxBytes : Z) :
  valid_utf8 (bv_Value bv) = true -> 0 <= maxBytes ->
  let r := ApplyMaxBodyValueBytes bv maxBytes in
  (maxBytes = 0 \/ Z.of_nat (slen (bv_Value bv)) <= maxBytes -> r = bv)
  /\ (0 < maxBytes < Z.of_nat (slen (bv_Value bv)) ->
      (exists cut, bv_Value bv = bv_Value r +:+ cut)
      /\ Z.of_nat (slen (bv_Value r)) <= maxBytes
      /\ valid_utf8 (bv_Value r) = true
      /\ bv_IsTruncated r = true /\ bv_IsEncodingProblem r = bv_IsEncodingProblem bv
      /\ (str_forallb (fun b => negb (Ascii.eqb b "<")) (bv_Value bv) = true ->
          maxBytes < Z.of_nat (slen (bv_Value r)) + 4)).
Proof.
  intros Hv Hm. cbv zeta. unfold ApplyMaxBodyValueBytes. split.
  { intros [->|Hfit%Z.leb_le]; [done|]. by rewrite Hfit, orb_true_r. }
  intros Hlong. rewrite (proj2 (Z.eqb_neq _ _)), (proj2 (Z.leb_gt _ _)) by lia. cbn [orb bv_Value bv_IsTruncated bv_IsEncodingProblem].
  set (s := bv_Value bv) in *. destruct (valid_prefix_spec (Z.to_nat maxBytes) s) as (k & Hk & -> & Hvk & Hmax).
  destruct (valid_cut s (Z.to_nat maxBytes) Hv ltac:(lia)) as (j & Hj & Hvj).
  assert (Hjk : (j <= k)%nat) by (destruct (decide (j <= k)%nat) as [|Hn]; [done|]; rewrite Hmax in Hvj by lia; done).
  destruct (tag_backoff_valid (str_take k s) Hvk) as (i & Hi & Hcase & -> & Hvi).
  assert (Hsk : slen (str_take k s) = k) by (rewrite slen_take; lia). rewrite Hsk in *.
  assert (Hsi : slen (str_take i (str_take k s)) = i) by (rewrite slen_take, Hsk; lia).
  split_and!; [|lia|done|done|done|].
  - exists (str_drop i s). by rewrite str_take_take, str_take_drop by lia.
  - intros Hno. destruct Hcase as [->|[t Ht]]; [lia|]. exfalso.
    assert (Hk2 : str_forallb (fun b => negb (Ascii.eqb b "<")) (str_take k s) = true) by (by apply str_forallb_take_drop).
    rewrite Ht, str_forallb_app in Hk2. simpl in Hk2. by rewrite andb_false_r in Hk2.
Qed.

Lemma truncated_body_valid_witness :
  let bv := mkBodyValue ("caf" +:+ str_of ["195"%char; "169"%char] +:+ " au lait") false false in
  valid_utf8 (bv_Value bv) = true /\ valid_utf8 (bv_Value (ApplyMaxBodyValueBytes bv 4)) = true
  /\ bv_Value (ApplyMaxBodyValueBytes bv 4) = "caf".
Proof.
  cbv zeta. set (bv := mkBodyValue _ _ _).
  pose proof (truncated_body_valid bv 4 ltac:(reflexivity) ltac:(lia)) as T. cbv zeta in T. destruct T as [_ T].
  destruct T as (_ & _ & T & _); [vm_compute; split; reflexivity|].
  split_and!; [reflexivity|exact T|vm_compute; reflexivity].
Defined.

(** The back-off from an unterminated tag happens once: where a second tag
    starts inside the first, the text still ends inside the first one. *)
Theorem tag_backoff_happens_once :
  bv_Value (ApplyMaxBodyValueBytes (mkBodyValue "hello <a title='<b>link</b>'>text</a>" false false) 18) = "hello <a title='".
Proof. vm_compute. reflexivity. Qed.

(** *** Header properties *)

(** What may follow the name of a header property. *)
Definition suffixes (form : HeaderForm) (all : bool) : list (list string) :=
  let tail := if all then ["all"] else [] in
  (form_string form :: tail) :: match form with FormRaw => [tail] | _ => [] end.
Definition header_text (name : string) (suffix : list string) : string := Join ("header" :: name :: suffix) ":".

Lemma isValidHeaderForm_string f : isValidHeaderForm (form_string f) = Some f.
Proof. by destruct f. Qed.
Lemma isValidHeaderForm_some s f : isValidHeaderForm s = Some f -> s = form_string f.
Proof. unfold isValidHeaderForm. intros H%find_some. by apply proj2, String.eqb_eq in H. Qed.

Section HeaderGrammar.
Context `{GoRuntime}.
Implicit Types (prop name : string).

Lemma header_suffix_ok prop suffix form all :
  header_suffix prop suffix = Ok (form, all) <-> suffix ∈ suffixes form all.
Proof.
  unfold suffixes. split.
  - intros Hs. destruct suffix as [|p [|q [|]]]; simpl in Hs; simplify_eq.
    + right. left.
    + destruct (String.eqb_spec p "all") as [->|]; [simplify_eq; right; left|].
      destruct (isValidHeaderForm p) eqn:E; [|done]. apply isValidHeaderForm_some in E. simplify_eq. left.
    + destruct (isValidHeaderForm p) eqn:E; [|done]. apply isValidHeaderForm_some in E.
      destruct (String.eqb_spec q "all") as [->|]; [|done]. simplify_eq. left.
  - intros Hs. assert (suffix = form_string form :: (if all then ["all"] else []) \/ form = FormRaw /\ suffix = if all then ["all"] else [])
      as [->|[-> ->]] by (destruct form; simpl in Hs; set_solver).
    + by destruct form, all.
    + by destruct all.
Qed.

(** C33: The grammar of header properties, read exactly: [header:name], with the
    form (which must be one the header may have; without one it is the raw
    form) and with [:all] where every value is wanted, is read to the name, the
    form and the flag it shows, and nothing else is read. *)
Theorem header_property_grammar prop name form all :
  ParseHeaderProperty prop = Ok (mkHeaderProp prop name form all)
  <-> name <> EmptyString /\ str_forallb (fun b => negb (Ascii.eqb b ":")) name = true /\ form_permitted form name = true
      /\ exists suffix, suffix ∈ suffixes form all /\ prop = header_text name suffix.
Proof.
  unfold ParseHeaderProperty. split.
  - destruct (HasPrefix prop "header:") eqn:Hp; [|done]. cbn [negb]. apply HasPrefix_spec in Hp as [t Et].
    pose proof (Join_Split ":" prop) as Hj. pose proof (Split_nosep ":" prop) as Hn.
    assert (Hh : exists rest, Split prop ":" = "header" :: rest).
    { subst prop. eexists. exact (split_go_app ":" EmptyString "header" t eq_refl). }
    destruct Hh as [rest Er]. rewrite Er in Hj, Hn |- *. destruct rest as [|n rest]; [done|].
    destruct (String.eqb_spec n EmptyString) as [|Hne]; [done|].
    destruct (header_suffix prop rest) as [[f a]|] eqn:Es; [|done]. destruct (form_permitted f n) eqn:Ef; [|done].
    intros [= -> -> ->]. split_and!; [done| |done|].
    + rewrite Forall_forall in Hn. apply Hn. right. left.
    + exists rest. split; [by apply header_suffix_ok in Es|done].
  - intros (Hne & Hn & Hf & suffix & Hs & ->).
    assert (Hx : Forall (fun s => str_forallb (fun b => negb (Ascii.eqb b ":")) s = true) ("header" :: name :: suffix)).
    { repeat constructor; [done|]. clear - Hs. unfold suffixes in Hs.
      apply list_elem_of_In in Hs.
      destruct form, all; cbn in Hs; destruct_or! Hs; try done; subst; repeat constructor. }
    assert (Hp : HasPrefix (header_text name suffix) "header:" = true).
    { apply HasPrefix_spec. exists (Join (name :: suffix) ":"). done. }
    rewrite Hp. cbn [negb]. unfold header_text at 1. rewrite (Split_Join ":") by done.
    rewrite (proj2 (String.eqb_neq _ _) Hne).
    rewrite (proj2 (header_suffix_ok _ _ form all) Hs). by rewrite Hf.
Qed.
End HeaderGrammar.

(** *** Projection *)

Section Projection.
Context `{GoRuntime} `{TimeZones} `{MailText}.
Variable o : FetchOptions.

Lemma format_property_get em sm hps out p k :
  obj_get (format_property o em sm hps out p) k
  = if decide (p = k) then match header_prop hps p with
                           | Some hp => Some (EvaluateHeaderProperty em hp)
                           | None => match email_property o em sm p with Some v => Some v | None => obj_get out k end
                           end
    else obj_get out k.
Proof.
  unfold format_property. destruct (header_prop hps p); [rewrite obj_get_set; by case_decide|].
  destruct (email_property o em sm p); [rewrite obj_get_set; by case_decide|]. by case_decide.
Qed.

Lemma id_property em sm : email_property o em sm "id" = Some (JStr (em_ID em)).
Proof. done. Qed.

(** A member of the object without a list of properties, by its name. *)
Lemma full_object_property em sm k v :
  obj_get (full_object o em sm) k = Some v -> email_property o em sm k = Some v.
Proof.
  intros Hg. apply obj_get_In in Hg. unfold full_object in Hg.
  apply in_app_or in Hg as [Hg|Hg].
  - repeat (destruct Hg as [[= <- <-]|Hg]; [reflexivity|]). done.
  - rewrite !in_app_iff in Hg. unfold email_property. cbn [String.eqb Ascii.eqb Bool.eqb].
    destruct (sm_Status sm) eqn:E1, (sm_StatusAt sm) eqn:E2, (sm_VerifiedWith sm) eqn:E3, (sm_Errors sm) eqn:E4;
      cbn in Hg; destruct_or! Hg; try done; injection Hg as <- <-; cbn; by rewrite ?E1, ?E2, ?E3, ?E4.
Qed.

Definition property_value (em : Email) (sm : SMIME) (hps : list ParsedHeaderProperty) (p : string) : option json :=
  match header_prop hps p with Some hp => Some (EvaluateHeaderProperty em hp) | None => email_property o em sm p end.

Lemma header_prop_some hps k hp :
  (forall hp, hp ∈ hps -> HasPrefix (hp_RawProp hp) "header:" = true) ->
  header_prop hps k = Some hp -> HasPrefix (hp_RawProp hp) "header:" = true /\ hp_RawProp hp = k.
Proof.
  intros Hh Hk. apply last_Some_elem_of, list_elem_of_In, filter_In in Hk as [Hin He].
  split; [by apply Hh, list_elem_of_In|by apply String.eqb_eq].
Qed.

Lemma id_no_header hps :
  (forall hp, hp ∈ hps -> HasPrefix (hp_RawProp hp) "header:" = true) -> header_prop hps "id" = None.
Proof.
  intros Hh. destruct (header_prop hps "id") eqn:E; [|done]. apply header_prop_some in E as [Hp E]; [|done]. by rewrite E in Hp.
Qed.

Lemma format_get em sm hps props out k :
  obj_get (foldl (format_property o em sm hps) out props) k
  = if decide (k ∈ props) then match property_value em sm hps k with Some v => Some v | None => obj_get out k end
    else obj_get out k.
Proof.
  revert out. induction props as [|p props IH]; intros out; cbn [foldl]; [by rewrite decide_False by apply not_elem_of_nil|].
  rewrite IH, format_property_get. unfold property_value.
  destruct (decide (p = k)) as [->|Hne].
  - rewrite (decide_True _ _ (list_elem_of_here k props)). case_decide; destruct (header_prop hps k); try done;
      by destruct (email_property o em sm k).
  - destruct (decide (k ∈ props)) as [Hin|Hn]; [by rewrite decide_True by (by right)|].
    rewrite decide_False; [done|]. by intros [->|?]%elem_of_cons.
Qed.

(** Asking for properties is projecting the object: of the properties listed,
    each member of the full object is returned with the value it has there,
    header properties with the header's value; the id is always there and
    nothing that is not asked for is. *)
Theorem email_get_projects em sm props hps :
  (forall hp, hp ∈ hps -> HasPrefix (hp_RawProp hp) "header:" = true) ->
  let out := FormatEmailGet o em sm (Some props) hps in
  obj_get out "id" = Some (JStr (em_ID em))
  /\ (forall k v, obj_get (FormatEmailGet o em sm None hps) k = Some v -> k ∈ props -> obj_get out k = Some v)
  /\ (forall k hp, header_prop hps k = Some hp -> k ∈ props -> obj_get out k = Some (EvaluateHeaderProperty em hp))
  /\ (forall k, obj_get out k <> None -> k = "id" \/ k ∈ props).
Proof.
  intros Hhps. cbv zeta. cbn [FormatEmailGet]. split_and!.
  - rewrite format_get. unfold property_value. rewrite id_no_header by done. cbn. by case_decide.
  - intros k v Hk Hin. rewrite format_get, decide_True by done. unfold property_value.
    pose proof (full_object_property em sm k v Hk) as Hp. rewrite Hp.
    destruct (header_prop hps k) as [hp|] eqn:Eh; [|done]. destruct (header_prop_some hps k hp Hhps Eh) as [Hhp Ek].
    rewrite Ek in Hhp. apply HasPrefix_spec in Hhp as [t ->]. done.
  - intros k hp Hk Hin. rewrite format_get, decide_True by done. unfold property_value. by rewrite Hk.
  - intros k Hk. rewrite format_get in Hk. destruct (decide (k ∈ props)); [by right|]. cbn [obj_get] in Hk.
    destruct (String.eqb_spec "id" k); [by left|]. by destruct Hk.
Qed.
End Projection.

(** Header text of the examples: nothing is encoded, no address is read. *)
Definition demo_text : MailText := {|
  mt_DecodeHeader s := Some s; mt_NFC s := s; mt_ParseAddressList _ := None; mt_ParseDate _ := None; mt_has_scheme _ := false;
|}.
Definition demo_message : Email :=
  mkEmail "e1" "e1" "t1" [("mb-inbox", true)] [] 120 "2024-01-01T00:00:00Z" [] [] [] [] [] [] [] [] [] "Hello" None
    [mkHeader "X-Mailer" (" one" +:+ str_of ["013"%char; "010"%char; " "%char] +:+ "two")]
    (mkPart None None 0 [] None "text/plain" None None None [] None []) [] [] [] [] false EmptyString.

Lemma email_get_projects_witness :
  let hp := mkHeaderProp "header:x-mailer:asText" "x-mailer" FormText false in
  let out := FormatEmailGet (H := ascii_runtime) (H0 := demo_zones) (H1 := demo_text) (mkFetch None false false false 0)
               demo_message no_smime (Some ["subject"; "header:x-mailer:asText"]) [hp] in
  obj_get out "id" = Some (JStr "e1") /\ obj_get out "subject" = Some (JStr "Hello")
  /\ obj_get out "header:x-mailer:asText" = Some (JStr "one two").
Proof.
  cbv zeta. set (hp := mkHeaderProp _ _ _ _).
  pose proof (email_get_projects (H := ascii_runtime) (H0 := demo_zones) (H1 := demo_text) (mkFetch None false false false 0)
    demo_message no_smime ["subject"; "header:x-mailer:asText"] [hp]) as T. cbv zeta in T.
  destruct T as (Tid & Tfull & Thead & _).
  { intros p Hp. apply list_elem_of_In in Hp. destruct Hp as [<-|[]]. reflexivity. }
  split_and!; [exact Tid| |].
  - apply Tfull; [vm_compute; reflexivity|left].
  - rewrite (Thead "header:x-mailer:asText" hp); [vm_compute; reflexivity|reflexivity|right; left].
Defined.
