(* ===== verification/MimeBody.v ===== *)
(** * Bodies of messages

    The parts of [jmap/jmapmail/email_parse.go] that do not need the MIME
    parser: which parts of a body structure are the text body, the HTML body
    and the attachments, the preview of a body, the header fields of a raw
    message and the message ids of a header.

    [html.UnescapeString] is a parameter. *)

From S2P Require Import Prelude GoSort GoStrings GoRunes Json Query MailQuery EmailGet.
From Stdlib Require Import Ascii.

Definition bp_Type (p : EmailBodyPart) : string := let '(mkPart _ _ _ _ _ t _ _ _ _ _ _) := p in t.
Definition bp_Disposition (p : EmailBodyPart) : option string := let '(mkPart _ _ _ _ _ _ _ d _ _ _ _) := p in d.
Definition bp_SubParts (p : EmailBodyPart) : list EmailBodyPart := let '(mkPart _ _ _ _ _ _ _ _ _ _ _ s) := p in s.

(** ** The parts of a body structure *)

Section Structure.
Context `{GoRuntime}.

Definition isInlineMedia (t : string) : bool :=
  let t := ToLower t in HasPrefix t "image/" || HasPrefix t "audio/" || HasPrefix t "video/".
Definition is_multipart (p : EmailBodyPart) : bool := HasPrefix (ToLower (bp_Type p)) "multipart/".
Definition is_attachment (p : EmailBodyPart) : bool :=
  match bp_Disposition p with Some d => EqualFold d "attachment" | None => false end.

(** The index of the first element with a property. *)
Fixpoint find_index {A} (f : A -> bool) (l : list A) : option nat :=
  match l with [] => None | x :: l' => if f x then Some 0%nat else S <$> find_index f l' end.
(** [findAlternativeChild(p.SubParts, targetType) != nil] *)
Fixpoint has_alternative (targetType : string) (p : EmailBodyPart) : bool :=
  let '(mkPart _ _ _ _ _ _ _ _ _ _ _ subParts) := p in
  existsb (fun p => EqualFold (bp_Type p) targetType) subParts
  || existsb (fun p => is_multipart p && has_alternative targetType p) subParts.
(** The index of the child. *)
Definition findAlternativeChild (subParts : list EmailBodyPart) (targetType : string) : option nat :=
  match find_index (fun p => EqualFold (bp_Type p) targetType) subParts with
  | Some i => Some i
  | None => find_index (fun p => is_multipart p && has_alternative targetType p) subParts
  end.

(** The common shape of [extractTextBody] and [extractHTMLBody]: [target] is
    looked for in alternatives, [wanted] is the test on a leaf. *)
Fixpoint extract_body (target : string) (wanted : string -> bool) (p : EmailBodyPart) : list EmailBodyPart :=
  let '(mkPart _ _ _ _ _ ty _ _ _ _ _ subParts) := p in
  let children := map (extract_body target wanted) subParts in
  if EqualFold ty "multipart/alternative"
  then match findAlternativeChild subParts target with Some i => default [] (children !! i) | None => [] end
  else if EqualFold ty "multipart/related" then match children with c :: _ => c | [] => [] end
  else if is_multipart p then concat children
  else if is_attachment p then []
  else if wanted ty then [p] else [].
Definition extractTextBody : EmailBodyPart -> list EmailBodyPart :=
  extract_body "text/plain" (fun ty => EqualFold ty "text/plain" || HasPrefix (ToLower ty) "text/calendar"
                                       || isInlineMedia ty || EqualFold ty "text/html").
Definition extractHTMLBody : EmailBodyPart -> list EmailBodyPart :=
  extract_body "text/html" (fun ty => EqualFold ty "text/html" || isInlineMedia ty || EqualFold ty "text/plain").

Definition part_in (l : list EmailBodyPart) (pID : string) : bool :=
  existsb (fun p => match bp_PartID p with Some id => String.eqb id pID | None => false end) l.
Definition is_att (text html : list EmailBodyPart) (p : EmailBodyPart) : bool :=
  let pID := default EmptyString (bp_PartID p) in
  if is_attachment p then true
  else if EqualFold (bp_Type p) "text/plain" || EqualFold (bp_Type p) "text/html"
  then negb (part_in text pID) && negb (part_in html pID)
  else negb (part_in text pID && part_in html pID).
(** The test for a container is on the type as it is written. *)
Fixpoint collectAttachments (text html : list EmailBodyPart) (p : EmailBodyPart) : list EmailBodyPart :=
  let '(mkPart _ _ _ _ _ ty _ _ _ _ _ subParts) := p in
  if HasPrefix ty "multipart/" then concat (map (collectAttachments text html) subParts)
  else if is_att text html p then [p] else [].
(** An empty list is replaced by the other one. *)
Definition or_else (l other : list EmailBodyPart) : list EmailBodyPart := match l with [] => other | _ => l end.
Definition ExtractBodyStructureParts (root : EmailBodyPart)
  : list EmailBodyPart * list EmailBodyPart * list EmailBodyPart :=
  let text := or_else (extractTextBody root) (extractHTMLBody root) in
  let html := or_else (extractHTMLBody root) (extractTextBody root) in
  (text, html, collectAttachments text html root).
End Structure.

(** ** Previews *)

Record strip_state : Type := mkStrip { ss_inTag : bool; ss_inStyle : bool; ss_inScript : bool; ss_tag : list Z; ss_out : list Z }.

Section Preview.
Context `{GoRuntime}.
Variable UnescapeString : string -> string.

Definition strip_step (st : strip_state) (r : Z) : strip_state :=
  let '(mkStrip inTag inStyle inScript tagBuf out) := st in
  if r =? 60 then mkStrip true inStyle inScript [r] out
  else if r =? 62
  then
    let tagBuf := tagBuf ++ [r] in
    let tag := ToLower (encode_runes tagBuf) in
    if HasPrefix tag "<style" then mkStrip false true inScript tagBuf out
    else if HasPrefix tag "</style" then mkStrip false false inScript tagBuf out
    else if HasPrefix tag "<script" then mkStrip false inStyle true tagBuf out
    else if HasPrefix tag "</script" then mkStrip false inStyle false tagBuf out
    else if HasPrefix tag "<br" || HasPrefix tag "<p" || HasPrefix tag "</p" || HasPrefix tag "<div" || HasPrefix tag "</div"
    then mkStrip false inStyle inScript tagBuf (if negb inStyle && negb inScript then out ++ [32] else out)
    else mkStrip false inStyle inScript tagBuf out
  else if inTag then mkStrip inTag inStyle inScript (tagBuf ++ [r]) out
  else if negb inStyle && negb inScript then mkStrip inTag inStyle inScript tagBuf (out ++ [r])
  else st.
Definition stripHTMLTags (s : string) : string :=
  encode_runes (ss_out (foldl strip_step (mkStrip false false false [] []) (runes s))).
Definition Preview (body : string) (max : nat) : string :=
  let s := Join (Fields (UnescapeString (stripHTMLTags body))) " " in
  if (max <? length (runes s))%nat then encode_runes (take max (runes s)) else s.
End Preview.

Definition normalizeToLF (s : string) : string :=
  ReplaceAll (ReplaceAll s (str_of ["013"%char; "010"%char]) (str_of ["010"%char])) (str_of ["013"%char]) (str_of ["010"%char]).

(** ** Header fields *)

Definition line_break : string := str_of ["013"%char; "010"%char].
Definition add_header (name value : string) (l : list EmailHeader) : list EmailHeader :=
  if String.eqb name EmptyString then l else mkHeader name value :: l.
(** The loop over the lines, with the name and the value of the field so far. *)
Fixpoint raw_headers (lines : list string) (name value : string) : list EmailHeader :=
  match lines with
  | [] => add_header name value []
  | line :: rest =>
      let line := TrimRight line (str_of ["013"%char]) in
      if String.eqb line EmptyString then add_header name value []
      else if HasPrefix line " " || HasPrefix line (str_of ["009"%char])
      then raw_headers rest name (if String.eqb name EmptyString then value else value +:+ line_break +:+ line)
      else add_header name value
             (match cut_byte ":" line with
              | Some (n, v) => raw_headers rest (TrimSpace n) v
              | None => raw_headers rest EmptyString EmptyString
              end)
  end.
Definition parseRawHeaders (raw : string) : list EmailHeader :=
  raw_headers (Split raw (str_of ["010"%char])) EmptyString EmptyString.

Definition parseReferencesList (val : string) : list string :=
  omap (fun m => let s := Trim m mid_cutset in if String.eqb s EmptyString then None else Some s) (find_mids (slen val) val).

(** ** Every part is shown *)

Section PartInd.
Variable P : EmailBodyPart -> Prop.
Hypothesis Hpart : forall i b n h nm ty cs d cid lang loc subs, Forall P subs -> P (mkPart i b n h nm ty cs d cid lang loc subs).
Fixpoint part_nested_ind (p : EmailBodyPart) : P p :=
  let '(mkPart i b n h nm ty cs d cid lang loc subs) := p in
  Hpart i b n h nm ty cs d cid lang loc subs
    ((fix all (l : list EmailBodyPart) : Forall P l :=
        match l with [] => Forall_nil_2 _ | x :: l' => Forall_cons_2 _ _ _ (part_nested_ind x) (all l') end) subs).
End PartInd.

(** The parts that are not containers. *)
Fixpoint leaves (p : EmailBodyPart) : list EmailBodyPart :=
  let '(mkPart _ _ _ _ _ ty _ _ _ _ _ subs) := p in
  if HasPrefix ty "multipart/" then concat (map leaves subs) else [p].
(** Types in ASCII whose containers are written in lower case, as
    [mime.ParseMediaType] writes them. *)
Definition canonical_name (ty : string) : bool :=
  is_ascii ty && implb (HasPrefix (str_map lower_ascii ty) "multipart/") (HasPrefix ty "multipart/").
Fixpoint canonical (p : EmailBodyPart) : bool :=
  let '(mkPart _ _ _ _ _ ty _ _ _ _ _ subs) := p in canonical_name ty && forallb canonical subs.

Section Shown.
Context `{GoRuntime}.

Lemma canonical_type p : canonical p = true -> canonical_name (bp_Type p) = true.
Proof. destruct p. simpl. by intros [? _]%andb_prop. Qed.

Lemma canonical_multipart p : canonical p = true -> is_multipart p = HasPrefix (bp_Type p) "multipart/".
Proof.
  intros [Ha Hl]%canonical_type%andb_prop. unfold is_multipart, ToLower. rewrite Ha. set (ty := bp_Type p) in *.
  destruct (HasPrefix ty "multipart/") eqn:E.
  - apply HasPrefix_spec in E as [t ->]. by rewrite str_map_app, HasPrefix_app.
  - by destruct (HasPrefix (str_map lower_ascii ty) "multipart/").
Qed.

(** A part that is read as a container of a kind is written as one. *)
Lemma canonical_fold p t :
  canonical p = true -> is_ascii t = true -> str_map lower_ascii t = t -> HasPrefix t "multipart/" = true ->
  EqualFold (bp_Type p) t = true -> HasPrefix (bp_Type p) "multipart/" = true.
Proof.
  intros [Ha Hl]%canonical_type%andb_prop Ht Htl Hm. unfold EqualFold. rewrite Ha, Ht, Htl. cbn [andb].
  intros E%String.eqb_eq. rewrite E, Hm in Hl. exact Hl.
Qed.

Lemma canonical_subs p : canonical p = true -> Forall (fun q => canonical q = true) (bp_SubParts p).
Proof. destruct p. simpl. intros [_ Hs]%andb_prop. apply Forall_forall. intros q Hq. rewrite forallb_forall in Hs. apply Hs. by apply list_elem_of_In. Qed.

Lemma in_concat_map {A B} (f : A -> list B) l y : y ∈ concat (map f l) <-> exists x, x ∈ l /\ y ∈ f x.
Proof.
  induction l as [|x l IH]; simpl.
  - split; [by intros ?%not_elem_of_nil|by intros (x & ?%not_elem_of_nil & _)].
  - rewrite elem_of_app, IH. split.
    + intros [Hy|(z & Hz & Hy)]; [exists x; split; [left|done]|exists z; split; [by right|done]].
    + intros (z & [->|Hz]%elem_of_cons & Hy); eauto.
Qed.

(** What is extracted is a leaf, and not an attachment. *)
Lemma extract_body_leaves target wanted p q :
  canonical p = true -> q ∈ extract_body target wanted p -> q ∈ leaves p /\ is_attachment q = false.
Proof.
  revert p. refine (part_nested_ind _ _). intros i b n h nm ty cs d cid lang loc subs IH Hc Hq.
  set (p := mkPart i b n h nm ty cs d cid lang loc subs) in *.
  assert (Hsub : forall s, s ∈ subs -> q ∈ extract_body target wanted s -> HasPrefix ty "multipart/" = true ->
            q ∈ leaves p /\ is_attachment q = false).
  { intros s Hs Hqs Hm. pose proof (canonical_subs p Hc) as Hcs. rewrite Forall_forall in IH, Hcs.
    destruct (IH s Hs (Hcs s Hs) Hqs) as [Hl Ha]. split; [|done].
    cbn [leaves p]. rewrite Hm. apply in_concat_map. eauto. }
  cbn [extract_body p] in Hq. fold p in Hq.
  destruct (EqualFold ty "multipart/alternative") eqn:E1.
  { apply (canonical_fold p) in E1; [|done..]. change (HasPrefix ty "multipart/" = true) in E1.
    destruct (findAlternativeChild subs target) as [j|]; [|by apply not_elem_of_nil in Hq].
    rewrite list_lookup_fmap in Hq. destruct (subs !! j) as [s|] eqn:Ej; [|by apply not_elem_of_nil in Hq].
    apply list_elem_of_lookup_2 in Ej. by apply (Hsub s). }
  destruct (EqualFold ty "multipart/related") eqn:E2.
  { apply (canonical_fold p) in E2; [|done..]. change (HasPrefix ty "multipart/" = true) in E2.
    destruct subs as [|s subs']; [by apply not_elem_of_nil in Hq|]. apply (Hsub s); [left|done|done]. }
  destruct (is_multipart p) eqn:E3.
  { rewrite (canonical_multipart p Hc) in E3. apply in_concat_map in Hq as (s & Hs & Hqs). by apply (Hsub s). }
  rewrite (canonical_multipart p Hc) in E3. change (HasPrefix ty "multipart/" = false) in E3.
  destruct (is_attachment p) eqn:E4; [by apply not_elem_of_nil in Hq|].
  destruct (wanted ty); [|by apply not_elem_of_nil in Hq].
  apply list_elem_of_singleton in Hq as ->. split; [|done]. cbn [leaves p]. rewrite E3. left.
Qed.

Lemma collect_attachments_spec text html p q : q ∈ collectAttachments text html p <-> q ∈ leaves p /\ is_att text html q = true.
Proof.
  revert p. refine (part_nested_ind _ _). intros i b n h nm ty cs d cid lang loc subs IH.
  cbn [collectAttachments leaves]. destruct (HasPrefix ty "multipart/").
  - rewrite !in_concat_map. rewrite Forall_forall in IH. split.
    + intros (s & Hs & Hq). apply IH in Hq as [Hq Ha]; [|done]. eauto.
    + intros [(s & Hs & Hq) Ha]. exists s. split; [done|]. by apply IH.
  - destruct (is_att text html (mkPart _ _ _ _ _ _ _ _ _ _ _ _)) eqn:E; rewrite ?elem_of_nil, ?list_elem_of_singleton; split.
    + by intros ->.
    + by intros [-> _].
    + done.
    + intros [-> Ha]. congruence.
Qed.

Lemma part_in_spec l id : part_in l id = true -> exists q, q ∈ l /\ bp_PartID q = Some id.
Proof.
  unfold part_in. intros (q & Hq & Hid)%existsb_exists. exists q. rewrite list_elem_of_In. split; [done|].
  destruct (bp_PartID q); [|done]. by apply String.eqb_eq in Hid as ->.
Qed.

Lemma parts_shown root :
  canonical root = true ->
  Forall (fun p => is_Some (bp_PartID p)) (leaves root) -> NoDup (map bp_PartID (leaves root)) ->
  let '(text, html, atts) := ExtractBodyStructureParts root in
  (forall p, p ∈ leaves root <-> p ∈ text \/ p ∈ html \/ p ∈ atts)
  /\ (forall p, p ∈ text \/ p ∈ html -> is_attachment p = false).
Proof.
  intros Hc Hid Hnd. unfold ExtractBodyStructureParts.
  set (text := or_else (extractTextBody root) _). set (html := or_else (extractHTMLBody root) _).
  assert (Hbody : forall p, p ∈ text \/ p ∈ html -> p ∈ leaves root /\ is_attachment p = false).
  { assert (Hboth : forall p, p ∈ extractTextBody root \/ p ∈ extractHTMLBody root -> p ∈ leaves root /\ is_attachment p = false)
      by (intros p [Hp|Hp]; by apply extract_body_leaves in Hp).
    intros p Hp. apply Hboth. unfold text, html, or_else in Hp.
    destruct (extractTextBody root), (extractHTMLBody root); tauto. }
  split; [|intros p Hp; by apply Hbody]. intros p. split.
  - intros Hp. destruct (is_att text html p) eqn:Ha; [right; right; by apply collect_attachments_spec|].
    rewrite Forall_forall in Hid. destruct (Hid p Hp) as [id Ei].
    assert (Hin : exists l, (l = text \/ l = html) /\ part_in l id = true).
    { unfold is_att in Ha. rewrite Ei in Ha. cbn in Ha.
      destruct (is_attachment p); [done|].
      destruct (part_in text id) eqn:E1; [exists text; auto|]. destruct (part_in html id) eqn:E2; [exists html; auto|].
      by destruct (_ || _) in Ha. }
    destruct Hin as (l & Hl & (q & Hq & Eq)%part_in_spec).
    assert (Hql : q ∈ leaves root) by (apply Hbody; destruct Hl as [-> | ->]; auto).
    assert (q = p) as -> by (apply (NoDup_map_inj bp_PartID (leaves root)); [done..|congruence]).
    destruct Hl as [-> | ->]; auto.
  - intros [Hp|[Hp|Hp]]; [by apply Hbody; left|by apply Hbody; right|by apply collect_attachments_spec in Hp as [? _]].
Qed.

(** The three lists of a message: each part of the structure that is not a
    container is in the text body, the HTML body or the attachments, and
    nothing else is; a part marked as an attachment is in neither body. *)
Theorem every_part_is_shown root :
  canonical root = true ->
  Forall (fun p => is_Some (bp_PartID p)) (leaves root) -> NoDup (map bp_PartID (leaves root)) ->
  let '(text, html, atts) := ExtractBodyStructureParts root in
  (forall p, p ∈ leaves root <-> p ∈ text \/ p ∈ html \/ p ∈ atts)
  /\ (forall p, p ∈ text \/ p ∈ html -> is_attachment p = false).
Proof. apply parts_shown. Qed.
End Shown.

Definition demo_leaf (id ty : string) (disposition : option string) : EmailBodyPart :=
  mkPart (Some id) (Some ("b" +:+ id)) 10 [] None ty None disposition None [] None [].
Definition demo_container (ty : string) (subs : list EmailBodyPart) : EmailBodyPart :=
  mkPart None None 0 [] None ty None None None [] None subs.

Lemma every_part_is_shown_witness :
  let text := demo_leaf "1" "text/plain" None in
  let html := demo_leaf "2" "text/html" None in
  let pdf := demo_leaf "3" "application/pdf" (Some "attachment") in
  let root := demo_container "multipart/mixed" [demo_container "multipart/alternative" [text; html]; pdf] in
  ExtractBodyStructureParts (H := ascii_runtime) root = ([text], [html], [pdf]) /\ is_attachment (H := ascii_runtime) text = false.
Proof.
  cbv zeta. set (root := demo_container "multipart/mixed" _).
  pose proof (every_part_is_shown (H := ascii_runtime) root ltac:(reflexivity)) as T.
  change (ExtractBodyStructureParts (H := ascii_runtime) root)
    with ([demo_leaf "1" "text/plain" None], [demo_leaf "2" "text/html" None], [demo_leaf "3" "application/pdf" (Some "attachment")]) in *.
  cbv beta iota in T. destruct T as [_ T].
  - change (leaves root) with [demo_leaf "1" "text/plain" None; demo_leaf "2" "text/html" None; demo_leaf "3" "application/pdf" (Some "attachment")].
    repeat constructor; eexists; reflexivity.
  - apply (bool_decide_unpack _). vm_compute. exact I.
  - split; [reflexivity|]. apply T. left. left.
Defined.

(** Where a container is written with a capital letter, the attachments are
    not looked for in it: the container itself is listed as an attachment and
    a file in it is in none of the lists. *)
Theorem capital_container_hides_parts :
  let text := demo_leaf "1" "text/plain" None in
  let pdf := demo_leaf "2" "application/pdf" (Some "attachment") in
  let root := demo_container "Multipart/Mixed" [text; pdf] in
  ExtractBodyStructureParts (H := ascii_runtime) root = ([text], [text], [root]).
Proof. vm_compute. reflexivity. Qed.

(** ** The preview *)

Definition blank_byte (c : ascii) : bool := byte_between 9 13 c || byte_between 32 32 c.

Lemma find_space_none c s : find (HasPrefix (String c s)) space_runes = None -> blank_byte c = false.
Proof.
  intros Hn. pose proof (find_none _ _ Hn) as Hall. unfold space_runes, ascii_spaces in Hall.
  destruct (blank_byte c) eqn:Hb; [|done]. exfalso.
  assert (Hin : In (str_of [c]) (ascii_spaces ++ wide_spaces)).
  { apply in_or_app. left. clear - Hb. destruct c as [[] [] [] [] [] [] [] []]; vm_compute in Hb; try done; vm_compute; tauto. }
  specialize (Hall _ Hin). simpl in Hall. by rewrite Ascii.eqb_refl in Hall.
Qed.

Lemma fields_no_blank skip cur s :
  str_forallb (fun c => negb (blank_byte c)) cur = true ->
  Forall (fun x => str_forallb (fun c => negb (blank_byte c)) x = true) (fields_go skip cur s).
Proof.
  revert skip cur. induction s as [|c s IH]; intros skip cur Hc; cbn [fields_go].
  - destruct (String.eqb cur EmptyString); by repeat constructor.
  - destruct skip; [|by apply IH]. destruct (find (HasPrefix (String c s)) space_runes) eqn:E.
    + apply Forall_app. split; [destruct (String.eqb cur EmptyString); by repeat constructor|by apply IH].
    + apply IH. rewrite str_forallb_app, Hc. simpl. by rewrite (find_space_none c s E).
Qed.

Lemma str_forallb_Join p l sep :
  str_forallb p sep = true -> Forall (fun x => str_forallb p x = true) l -> str_forallb p (Join l sep) = true.
Proof.
  intros Hs. induction 1 as [|x l Hx Hl IH]; [done|]. destruct l as [|y l]; [done|].
  change (Join (x :: y :: l) sep) with (x +:+ sep +:+ Join (y :: l) sep). by rewrite !str_forallb_app, Hx, Hs, IH.
Qed.

(** A preview is at most [max] characters long and has no line break or tab
    in it. *)
Theorem preview_is_one_short_line `{GoRuntime} UnescapeString body max :
  (length (runes (Preview UnescapeString body max)) <= max)%nat
  /\ forallb (fun r => negb ((9 <=? r) && (r <=? 13))) (runes (Preview UnescapeString body max)) = true.
Proof.
  unfold Preview. set (s := Join _ " ").
  assert (Hs : forallb (fun r => negb ((9 <=? r) && (r <=? 13))) (runes s) = true).
  { apply runes_low; [intros; bool_props; lia|]. apply str_forallb_Join; [done|].
    eapply Forall_impl; [by apply fields_no_blank|]. intros x. apply str_forallb_impl. intros c.
    unfold blank_byte, byte_between. bool_props. lia. }
  destruct (Nat.ltb_spec max (length (runes s))); [|by split].
  pose proof (runes_are_runes s) as Hr. rewrite <- (take_drop max (runes s)), forallb_app in Hs, Hr.
  apply andb_prop in Hs as [Hs _]. apply andb_prop in Hr as [Hr _].
  rewrite runes_encode by done. split; [rewrite length_take; lia|done].
Qed.

(** The preview of a plain text loses what follows a less-than sign, and the
    greater-than signs. *)
Theorem preview_reads_plain_text_as_html :
  Preview (H := ascii_runtime) (fun s => s) "if a < b then swap" 256 = "if a"
  /\ Preview (H := ascii_runtime) (fun s => s) "see menu > file" 256 = "see menu file".
Proof. split; vm_compute; reflexivity. Qed.

(** ** Header fields *)

(** A field as it is written: its name, the rest of its line and the lines it
    is continued on. *)
Record raw_field : Type := mkField { rf_name : string; rf_first : string; rf_more : list string }.
Definition field_lines (f : raw_field) : list string := (rf_name f +:+ String ":" (rf_first f)) :: rf_more f.
Definition write_lines (l : list string) : string := Join (map (fun s => s +:+ line_break) l) EmptyString.
Definition field_value (f : raw_field) : string := foldl (fun v l => v +:+ line_break +:+ l) (rf_first f) (rf_more f).
Definition field_header (f : raw_field) : EmailHeader := mkHeader (rf_name f) (field_value f).

(** A line has no line break in it; a name is visible ASCII without a colon;
    a continuation starts with a blank. *)
Definition line_ok (s : string) : bool := str_forallb (fun b => negb (Ascii.eqb b "010") && negb (Ascii.eqb b "013")) s.
Definition name_ok (s : string) : bool :=
  negb (String.eqb s EmptyString) && str_forallb graphic s && lacks ":" s.
Definition field_ok (f : raw_field) : bool :=
  name_ok (rf_name f) && line_ok (rf_first f)
  && forallb (fun l => line_ok l && (HasPrefix l " " || HasPrefix l (str_of ["009"%char]))) (rf_more f).

Lemma split_line l t :
  line_ok l = true ->
  Split (l +:+ line_break +:+ t) (str_of ["010"%char]) = (l +:+ str_of ["013"%char]) :: Split t (str_of ["010"%char]).
Proof.
  intros Hl. assert (l +:+ line_break +:+ t = (l +:+ str_of ["013"%char]) +:+ String "010" t) as -> by (by rewrite append_assoc).
  change (str_of ["010"%char]) with (String "010" EmptyString). rewrite Split_app_sep, Split_lacks; [done|].
  unfold lacks. rewrite str_forallb_app. simpl. rewrite andb_true_r. revert Hl. apply str_forallb_impl.
  intros c. by intros [? _]%andb_prop.
Qed.

Lemma str_snoc (s : string) : s = EmptyString \/ exists t c, s = t +:+ str_of [c].
Proof.
  induction s as [|c s [->|(t & d & ->)]]; [by left|right; by exists EmptyString, c|right; by exists (String c t), d].
Qed.

Lemma trim_line l : line_ok l = true -> TrimRight (l +:+ str_of ["013"%char]) (str_of ["013"%char]) = l.
Proof.
  intros Hl. destruct (str_snoc l) as [->|(t & c & ->)]; [done|]. apply TrimRight_stop; [|done].
  unfold line_ok in Hl. rewrite str_forallb_app in Hl. apply andb_prop in Hl as [_ Hc]. simpl in Hc |- *.
  rewrite andb_true_r in Hc. apply andb_prop in Hc as [_ Hc%negb_true_iff]. by rewrite Hc.
Qed.

Lemma cut_byte_app c s t : lacks c s = true -> cut_byte c (s +:+ String c t) = Some (s, t).
Proof.
  induction s as [|d s IH]; simpl; [by rewrite Ascii.eqb_refl|]. intros [Hd%negb_true_iff Hs]%andb_prop.
  by rewrite Hd, IH.
Qed.

Lemma write_lines_cons l ls : write_lines (l :: ls) = l +:+ line_break +:+ write_lines ls.
Proof.
  unfold write_lines. cbn [map Join]. destruct ls; cbn [map Join]; by rewrite ?append_nil_r, ?append_assoc.
Qed.

(** The continuation lines are added to the value. *)
Lemma raw_headers_more ls t name value :
  name <> EmptyString -> forallb (fun l => line_ok l && (HasPrefix l " " || HasPrefix l (str_of ["009"%char]))) ls = true ->
  raw_headers (Split (write_lines ls +:+ t) (str_of ["010"%char])) name value
  = raw_headers (Split t (str_of ["010"%char])) name (foldl (fun v l => v +:+ line_break +:+ l) value ls).
Proof.
  intros Hn. revert value. induction ls as [|l ls IH]; intros value; [done|].
  intros [[Hl Hb]%andb_prop Hls]%andb_prop. rewrite write_lines_cons, !append_assoc, split_line by done.
  cbn [raw_headers foldl]. rewrite trim_line by done.
  destruct (String.eqb_spec l EmptyString) as [->|]; [done|]. rewrite Hb.
  rewrite (proj2 (String.eqb_neq _ _) Hn). by apply IH.
Qed.

Lemma write_lines_app a b : write_lines (a ++ b) = write_lines a +:+ write_lines b.
Proof. induction a as [|l a IH]; [done|]. rewrite <- app_comm_cons, !write_lines_cons, IH. by rewrite !append_assoc. Qed.

Lemma field_line_ok name first : str_forallb graphic name = true -> line_ok first = true -> line_ok (name +:+ String ":" first) = true.
Proof.
  intros Hg Hf. unfold line_ok. rewrite str_forallb_app. simpl. apply andb_true_iff. split; [|exact Hf].
  revert Hg. apply str_forallb_impl. intros c Hc. apply andb_true_iff.
  split; apply negb_true_iff; apply Ascii.eqb_neq; intros ->; by vm_compute in Hc.
Qed.

(** The first line of a field ends the field before it. *)
Lemma raw_headers_first name first t cur value :
  name_ok name = true -> line_ok first = true ->
  raw_headers (Split ((name +:+ String ":" first) +:+ line_break +:+ t) (str_of ["010"%char])) cur value
  = add_header cur value (raw_headers (Split t (str_of ["010"%char])) name first).
Proof.
  intros [[Hne%negb_true_iff Hg]%andb_prop Hcolon]%andb_prop Hfirst.
  pose proof (field_line_ok name first Hg Hfirst) as Hl. rewrite split_line by done. cbn [raw_headers]. rewrite trim_line by done.
  destruct name as [|c name]; [done|]. change (String.eqb (String c name +:+ _) EmptyString) with false.
  pose proof Hg as [Hc _]%andb_prop.
  assert (Hb : forall b, graphic b = false -> HasPrefix (String c name +:+ String ":" first) (str_of [b]) = false).
  { intros b Hb. simpl. destruct (Ascii.eqb_spec b c) as [->|]; [congruence|done]. }
  change " " with (str_of [" "%char]). rewrite !Hb by done. cbn [orb]. rewrite cut_byte_app by done. by rewrite TrimSpace_graphic.
Qed.

Lemma raw_headers_fields fields body name value :
  forallb field_ok fields = true ->
  raw_headers (Split (write_lines (concat (map field_lines fields)) +:+ line_break +:+ body) (str_of ["010"%char])) name value
  = add_header name value (map field_header fields).
Proof.
  revert name value. induction fields as [|f fields IH]; intros name value; cbn [map concat].
  { intros _. exact (f_equal (fun l => raw_headers l name value) (split_line EmptyString body eq_refl)). }
  intros [[[Hname Hfirst]%andb_prop Hmore]%andb_prop Hfs]%andb_prop.
  rewrite write_lines_app. unfold field_lines. rewrite write_lines_cons, !append_assoc.
  rewrite <- (append_assoc (rf_name f)), raw_headers_first by done.
  pose proof Hname as [[Hne%negb_true_iff _]%andb_prop _]%andb_prop. apply String.eqb_neq in Hne.
  rewrite raw_headers_more by done. fold (field_value f). rewrite IH by done.
  unfold add_header at 2. by rewrite (proj2 (String.eqb_neq _ _) Hne).
Qed.

(** C34: The header of a message is read back as it is written, continuation lines
    included, whatever the message holds after it. *)
Theorem raw_headers_roundtrip (fields : list raw_field) (body : string) :
  forallb field_ok fields = true ->
  parseRawHeaders (write_lines (concat (map field_lines fields)) +:+ line_break +:+ body) = map field_header fields.
Proof. intros Hf. unfold parseRawHeaders. by rewrite raw_headers_fields. Qed.

Lemma raw_headers_roundtrip_witness :
  let f := mkField "Subject" " one" [" two"] in
  let g := mkField "To" " a@x" [] in
  forallb field_ok [f; g] = true
  /\ map eh_Name (parseRawHeaders (write_lines (concat (map field_lines [f; g])) +:+ line_break +:+ "X: y")) = ["Subject"; "To"].
Proof.
  cbv zeta. split; [reflexivity|].
  rewrite (raw_headers_roundtrip [mkField "Subject" " one" [" two"]; mkField "To" " a@x" []] "X: y" ltac:(reflexivity)).
  reflexivity.
Defined.
