(* ===== verification/MessageId.v ===== *)
(** * Message ids

    [jmap/jmapmail/message_id.go]: the domain of a message id, new message ids,
    and the Message-ID and Bcc fields of a raw message.

    [net/url], [net/mail] and the third-party address parser are the class
    [AddressText]; the header of the third-party [textproto] is the class
    [HeaderText].  The clock, the random bytes and the process id are arguments
    of the functions that read them. *)

From S2P Require Import Prelude GoStrings Json EmailGet MimeBody.
From Stdlib Require Import Ascii.

Record URL : Type := mkURL {
  url_Scheme : string; url_Opaque : string; url_User : bool; url_Host : string; url_Path : string; url_Port : string;
}.
Class AddressText := {
  at_url_Parse : string -> option URL;
  (** the address of [mail.ParseAddress] *)
  at_ParseAddress : string -> option string;
  (** the domain of [emailaddress.Parse] *)
  at_email_domain : string -> option string;
}.

(** [strconv.FormatUint(n, 36)]: 64 bits have at most 13 digits. *)
Definition digit36 (d : Z) : ascii := ascii_of_N (Z.to_N (if d <? 10 then 48 + d else 87 + d)).
Fixpoint format36 (fuel : nat) (n : Z) (acc : string) : string :=
  match fuel with
  | O => acc
  | S f => let acc := String (digit36 (n mod 36)) acc in if n / 36 =? 0 then acc else format36 f (n / 36) acc
  end.
Definition FormatUint36 (n : Z) : string := format36 13 n EmptyString.

Definition host_byte (c : ascii) : bool :=
  byte_between 97 122 c || byte_between 65 90 c || byte_between 48 57 c || Ascii.eqb c "." || Ascii.eqb c "-".

Section Domain.
Context `{GoRuntime} `{AddressText}.

Definition strip_mailto (s : string) : string :=
  match at_url_Parse s with
  | Some u => if EqualFold (url_Scheme u) "mailto"
              then if String.eqb (url_Opaque u) EmptyString then url_Path u else url_Opaque u
              else s
  | None => s
  end.
Definition bare_host (s : string) : string :=
  match at_url_Parse ("//" +:+ s) with
  | Some u => if negb (String.eqb s EmptyString) && negb (url_User u) && String.eqb (url_Port u) EmptyString
                 && String.eqb (url_Host u) s
              then s else EmptyString
  | None => EmptyString
  end.
Definition domainFromMailboxOrDomain (s : string) : string :=
  let s := TrimSpace s in
  if String.eqb s EmptyString then EmptyString
  else
    let s := TrimSpace (Trim (strip_mailto s) "<>") in
    let s := default s (at_ParseAddress s) in
    match at_email_domain s with
    | Some d => if String.eqb d EmptyString then bare_host s else d
    | None => bare_host s
    end.

(** [strings.Map] with the function that keeps the characters of a host name:
    the bytes of other characters are dropped. *)
Definition host_domain (domainOrAddress : string) : string :=
  let domain := Trim (domainFromMailboxOrDomain domainOrAddress) "<> ." in
  let domain := Trim (str_of (List.filter host_byte (str_bytes domain))) ".-" in
  if String.eqb domain EmptyString then "localhost" else domain.
(** [now] in nanoseconds; [random] is [None] when reading random bytes fails. *)
Definition GenerateMessageID (now : Z) (random : option Z) (pid : Z) (domainOrAddress : string) : string :=
  let now := now mod 2 ^ 64 in
  let nonce := default (Z.lxor (pid mod 2 ^ 64) now) random in
  FormatUint36 now +:+ "." +:+ FormatUint36 nonce +:+ "@" +:+ host_domain domainOrAddress.
End Domain.

(** [MsgIDRegex]: [^<[^<>@\s]+@[^<>@\s]+>$] *)
Definition id_byte (c : ascii) : bool :=
  negb (Ascii.eqb c "<" || Ascii.eqb c ">" || Ascii.eqb c "@" || byte_between 9 10 c || byte_between 12 13 c || Ascii.eqb c " ").
Definition id_part (s : string) : bool := negb (String.eqb s EmptyString) && str_forallb id_byte s.
Definition MsgIDRegex (v : string) : bool :=
  HasPrefix v "<" && HasSuffix v ">"
  && match Split (str_take (slen v - 2) (str_drop 1 v)) "@" with [l; r] => id_part l && id_part r | _ => false end.

(** ** The header of a raw message *)

Class HeaderText := {
  tp_Header : Type;
  tp_empty : tp_Header;
  (** the header and what follows it *)
  tp_ReadHeader : string -> option (tp_Header * string);
  tp_WriteHeader : tp_Header -> option string;
  tp_Get : tp_Header -> string -> string;
  tp_Set : tp_Header -> string -> string -> tp_Header;
  tp_Has : tp_Header -> string -> bool;
  tp_Del : tp_Header -> string -> tp_Header;
}.

Section Raw.
Context `{GoRuntime} `{AddressText} `{HeaderText}.

Definition HasValidMessageID (data : string) : bool :=
  if String.eqb data EmptyString then false
  else match tp_ReadHeader data with
       | None => false
       | Some (hdr, _) => let v := TrimSpace (tp_Get hdr "Message-ID") in negb (String.eqb v EmptyString) && MsgIDRegex v
       end.
(** A header with only this field, as far as it can be written. *)
Definition id_header (msgIDVal : string) : string := default EmptyString (tp_WriteHeader (tp_Set tp_empty "Message-ID" msgIDVal)).
Definition EnsureValidMessageID (now : Z) (random : option Z) (pid : Z) (data domainOrAddress : string) : string :=
  if HasValidMessageID data then data
  else
    let msgIDVal := "<" +:+ GenerateMessageID now random pid domainOrAddress +:+ ">" in
    if String.eqb data EmptyString then id_header msgIDVal
    else match tp_ReadHeader data with
         | None => id_header msgIDVal +:+ data
         | Some (hdr, rest) =>
             match tp_WriteHeader (tp_Set hdr "Message-ID" msgIDVal) with
             | None => data
             | Some text => text +:+ rest
             end
         end.
Definition StripBCCHeader (data : string) : string :=
  if String.eqb data EmptyString then data
  else match tp_ReadHeader data with
       | None => data
       | Some (hdr, rest) =>
           if negb (tp_Has hdr "Bcc") then data
           else match tp_WriteHeader (tp_Del hdr "Bcc") with None => data | Some text => text +:+ rest end
       end.
End Raw.

(** ** New message ids *)

Definition base36_byte (c : ascii) : bool := byte_between 48 57 c || byte_between 97 122 c.

Lemma byte_val_ascii z : 0 <= z < 256 -> byte_val (ascii_of_N (Z.to_N z)) = z.
Proof. intros Hz. unfold byte_val. rewrite N_ascii_embedding by lia. lia. Qed.

Lemma digit36_val d : 0 <= d < 36 -> byte_val (digit36 d) = (if d <? 10 then 48 + d else 87 + d).
Proof. intros Hd. unfold digit36. apply byte_val_ascii. destruct (d <? 10) eqn:E; lia. Qed.

Lemma digit36_byte d : 0 <= d < 36 -> base36_byte (digit36 d) = true.
Proof.
  intros Hd. unfold base36_byte, byte_between. rewrite digit36_val by done. destruct (Z.ltb_spec d 10); bool_props; lia.
Qed.

Lemma format36_bytes fuel n acc : str_forallb base36_byte acc = true -> str_forallb base36_byte (format36 fuel n acc) = true.
Proof.
  revert n acc. induction fuel as [|f IH]; intros n acc Hacc; cbn [format36]; [done|].
  assert (H : str_forallb base36_byte (String (digit36 (n mod 36)) acc) = true)
    by (simpl; rewrite digit36_byte by (apply Z.mod_pos_bound; lia); done).
  destruct (n / 36 =? 0); [done|by apply IH].
Qed.

Lemma FormatUint36_bytes n : str_forallb base36_byte (FormatUint36 n) = true.
Proof. by apply format36_bytes. Qed.

Lemma format36_nonempty fuel n c acc : format36 fuel n (String c acc) <> EmptyString.
Proof. revert n c acc. induction fuel as [|f IH]; intros; cbn [format36]; [done|]. destruct (_ =? 0); [done|apply IH]. Qed.

Lemma FormatUint36_nonempty n : FormatUint36 n <> EmptyString.
Proof. unfold FormatUint36. cbn [format36]. destruct (n / 36 =? 0); [done|]. apply (format36_nonempty 12). Qed.

(** The number the digits stand for. *)
Definition value36_digit (c : ascii) : Z := if byte_val c <? 58 then byte_val c - 48 else byte_val c - 87.
Definition value36 (s : string) : Z := foldl (fun v c => v * 36 + value36_digit c) 0 (str_bytes s).

Lemma digit36_value d : 0 <= d < 36 -> value36_digit (digit36 d) = d.
Proof.
  intros Hd. unfold value36_digit. rewrite digit36_val by done. destruct (Z.ltb_spec d 10); case_match; lia.
Qed.

Lemma foldl36 v l : foldl (fun v c => v * 36 + value36_digit c) v l
  = v * 36 ^ Z.of_nat (length l) + foldl (fun v c => v * 36 + value36_digit c) 0 l.
Proof.
  revert v. induction l as [|c l IH]; intros v; cbn [foldl length]; [simpl; lia|].
  rewrite (IH (v * 36 + _)), (IH (0 * 36 + _)), Nat2Z.inj_succ, Z.pow_succ_r by lia. lia.
Qed.

Lemma format36_value fuel n acc :
  0 <= n < 36 ^ Z.of_nat fuel -> (0 < fuel)%nat ->
  value36 (format36 fuel n acc) = n * 36 ^ Z.of_nat (slen acc) + value36 acc.
Proof.
  unfold value36, slen. revert n acc. induction fuel as [|f IH]; intros n acc Hn Hf; [lia|]. cbn [format36].
  rewrite Nat2Z.inj_succ, Z.pow_succ_r in Hn by lia.
  pose proof (Z.div_mod n 36) as Hdm. pose proof (Z.mod_pos_bound n 36) as Hm.
  assert (Hs : foldl (fun v c => v * 36 + value36_digit c) 0 (str_bytes (String (digit36 (n mod 36)) acc))
    = n mod 36 * 36 ^ Z.of_nat (String.length acc) + foldl (fun v c => v * 36 + value36_digit c) 0 (str_bytes acc)).
  { change (str_bytes (String ?c ?s)) with (c :: str_bytes s). cbn [foldl]. rewrite foldl36, digit36_value by lia.
    replace (length (str_bytes acc)) with (String.length acc) by (clear; unfold str_bytes; induction acc; simpl; congruence). lia. }
  destruct (Z.eqb_spec (n / 36) 0) as [E|E].
  - rewrite Hs. rewrite E in Hdm. assert (n mod 36 = n) as -> by lia. done.
  - assert (Hf' : (0 < f)%nat) by (destruct f; [simpl in Hn; assert (n / 36 = 0) by (apply Z.div_small; lia); lia|lia]).
    rewrite IH; [|split; [apply Z.div_pos; lia|apply Z.div_lt_upper_bound; lia]|done].
    rewrite Hs. cbn [String.length]. rewrite Nat2Z.inj_succ, Z.pow_succ_r by lia. nia.
Qed.

Lemma FormatUint36_value n : 0 <= n < 2 ^ 64 -> value36 (FormatUint36 n) = n.
Proof.
  intros Hn. unfold FormatUint36. rewrite format36_value; [unfold value36; simpl; lia| |lia].
  change (36 ^ Z.of_nat 13) with 170581728179578208256. change (2 ^ 64) with 18446744073709551616 in Hn. lia.
Qed.

Lemma cut_eq c s t u v : lacks c s = true -> lacks c u = true -> s +:+ String c t = u +:+ String c v -> s = u /\ t = v.
Proof.
  revert u. induction s as [|a s IH]; intros [|b u] Hs Hu E; simpl in E; simplify_eq.
  - done.
  - cbn in Hu. by rewrite Ascii.eqb_refl in Hu.
  - cbn in Hs. by rewrite Ascii.eqb_refl in Hs.
  - cbn in Hs, Hu. apply andb_prop in Hs as [_ Hs], Hu as [_ Hu]. destruct (IH u Hs Hu ltac:(done)) as [-> ->]. done.
Qed.

Section Generated.
Context `{GoRuntime} `{AddressText}.

Lemma str_forallb_Trim p s cut : str_forallb p s = true -> str_forallb p (Trim s cut) = true.
Proof. intros Hs. unfold Trim, TrimRight. by apply str_forallb_rev, str_forallb_TrimLeft, str_forallb_rev, str_forallb_TrimLeft. Qed.

Lemma host_domain_ok d : host_domain d <> EmptyString /\ str_forallb host_byte (host_domain d) = true.
Proof.
  unfold host_domain. set (t := Trim (str_of _) ".-").
  assert (Ht : str_forallb host_byte t = true).
  { apply str_forallb_Trim. rewrite str_forallb_bytes. unfold str_bytes, str_of. rewrite String.list_ascii_of_string_of_list_ascii.
    apply forallb_forall. by intros c [_ Hc]%filter_In. }
  destruct (String.eqb_spec t EmptyString); done.
Qed.

Lemma id_byte_base36 c : base36_byte c = true -> id_byte c = true.
Proof. destruct c as [[] [] [] [] [] [] [] []]; vm_compute; done. Qed.
Lemma id_byte_host c : host_byte c = true -> id_byte c = true.
Proof. destruct c as [[] [] [] [] [] [] [] []]; vm_compute; done. Qed.
Lemma generated_byte_graphic c : host_byte c || base36_byte c = true -> graphic c = true.
Proof. destruct c as [[] [] [] [] [] [] [] []]; vm_compute; done. Qed.
Lemma id_byte_lacks s : str_forallb id_byte s = true -> lacks "@" s = true.
Proof.
  apply str_forallb_impl. intros c Hc. apply negb_true_iff, Ascii.eqb_neq. intros ->. by vm_compute in Hc.
Qed.

(** The two sides of a generated id. *)
Lemma generated_parts now random pid d :
  exists l, GenerateMessageID now random pid d = l +:+ String "@" (host_domain d) /\ l <> EmptyString
    /\ str_forallb (fun c => host_byte c || base36_byte c) l = true.
Proof.
  unfold GenerateMessageID. set (n := now mod 2 ^ 64). set (r := default _ random).
  exists (FormatUint36 n +:+ "." +:+ FormatUint36 r). split_and!.
  - by rewrite !append_assoc.
  - intros E. pose proof (FormatUint36_nonempty n). by destruct (FormatUint36 n).
  - assert (Hb : forall m, str_forallb (fun c => host_byte c || base36_byte c) (FormatUint36 m) = true).
    { intros m. pose proof (FormatUint36_bytes m) as Hm. revert Hm. apply str_forallb_impl. intros c ->. by rewrite orb_true_r. }
    by rewrite !str_forallb_app, !Hb.
Qed.

Lemma id_bytes l : str_forallb (fun c => host_byte c || base36_byte c) l = true -> str_forallb id_byte l = true.
Proof. apply str_forallb_impl. intros c [Hc|Hc]%orb_prop; auto using id_byte_base36, id_byte_host. Qed.

Lemma generated_id_ok now random pid domainOrAddress :
  let id := GenerateMessageID now random pid domainOrAddress in
  MsgIDRegex ("<" +:+ id +:+ ">") = true /\ str_forallb graphic id = true.
Proof.
  cbv zeta. destruct (generated_parts now random pid domainOrAddress) as (l & -> & Hne & Hl).
  destruct (host_domain_ok domainOrAddress) as [Hdne Hd]. set (d := host_domain domainOrAddress) in *. split.
  - unfold MsgIDRegex. set (id := l +:+ String "@" d).
    rewrite <- (append_assoc "<" id ">"), HasSuffix_app, append_assoc, HasPrefix_app. cbn [andb].
    change (str_drop 1 ("<" +:+ id +:+ ">")) with (id +:+ ">"). rewrite !slen_app. change (slen "<") with 1%nat. change (slen ">") with 1%nat.
    replace (1 + (slen id + 1) - 2)%nat with (slen id) by lia. rewrite str_take_app. subst id.
    rewrite (Split_app_sep "@"), !Split_lacks by (apply id_byte_lacks; first [by apply id_bytes | revert Hd; apply str_forallb_impl; apply id_byte_host]).
    cbn [app]. unfold id_part. rewrite (proj2 (String.eqb_neq _ _) Hne), (proj2 (String.eqb_neq _ _) Hdne), id_bytes by done.
    cbn [negb andb]. revert Hd. apply str_forallb_impl, id_byte_host.
  - rewrite str_forallb_app. simpl. apply andb_true_iff. split.
    + revert Hl. apply str_forallb_impl, generated_byte_graphic.
    + change (graphic "@") with true. cbn [andb]. revert Hd. apply str_forallb_impl. intros c Hc. apply generated_byte_graphic. by rewrite Hc.
Qed.

(** A generated message id is one: in angle brackets it has the syntax of RFC
    5322 that the server itself tests for, whatever address it is made from;
    it is visible ASCII. *)
Theorem generated_message_id_valid now random pid domainOrAddress :
  let id := GenerateMessageID now random pid domainOrAddress in
  MsgIDRegex ("<" +:+ id +:+ ">") = true /\ str_forallb graphic id = true.
Proof. apply generated_id_ok. Qed.

(** Two ids made for an address at different times or with different random
    numbers differ. *)
Theorem message_ids_differ now now' r r' pid domainOrAddress :
  0 <= now < 2 ^ 64 -> 0 <= now' < 2 ^ 64 -> 0 <= r < 2 ^ 64 -> 0 <= r' < 2 ^ 64 ->
  GenerateMessageID now (Some r) pid domainOrAddress = GenerateMessageID now' (Some r') pid domainOrAddress ->
  now = now' /\ r = r'.
Proof.
  intros Hn Hn' Hr Hr'. unfold GenerateMessageID. rewrite (Z.mod_small now), (Z.mod_small now') by done. cbn [default from_option]. unfold id. intros E.
  assert (Hlack : forall c n s, base36_byte c = false -> s = FormatUint36 n -> lacks c s = true).
  { intros c n s Hc ->. pose proof (FormatUint36_bytes n) as Hb. revert Hb. apply str_forallb_impl. intros b Hb.
    apply negb_true_iff, Ascii.eqb_neq. intros ->. congruence. }
  change ("." +:+ ?s) with (String "." s) in E. change ("@" +:+ ?s) with (String "@" s) in E.
  pose proof (cut_eq "." _ _ _ _ (Hlack "."%char now _ eq_refl eq_refl) (Hlack "."%char now' _ eq_refl eq_refl) E) as [E1 E2].
  pose proof (cut_eq "@" _ _ _ _ (Hlack "@"%char r _ eq_refl eq_refl) (Hlack "@"%char r' _ eq_refl eq_refl) E2) as [E3 _].
  split; [rewrite <- (FormatUint36_value now), <- (FormatUint36_value now') by done|
          rewrite <- (FormatUint36_value r), <- (FormatUint36_value r') by done]; by f_equal.
Qed.
End Generated.

Definition demo_addresses : AddressText := {|
  at_url_Parse _ := None; at_ParseAddress _ := None;
  at_email_domain s := match Split s "@" with [_; d] => Some d | _ => None end;
|}.

Lemma message_ids_differ_witness :
  GenerateMessageID (H := ascii_runtime) (H0 := demo_addresses) 5 (Some 7) 1 "ann@example.org" = "5.7@example.org"
  /\ ~ GenerateMessageID (H := ascii_runtime) (H0 := demo_addresses) 5 (Some 7) 1 "ann@example.org"
      = GenerateMessageID (H := ascii_runtime) (H0 := demo_addresses) 6 (Some 7) 1 "ann@example.org".
Proof.
  split; [vm_compute; reflexivity|]. intros E.
  destruct (message_ids_differ (H := ascii_runtime) (H0 := demo_addresses) 5 6 7 7 1 "ann@example.org"
    ltac:(lia) ltac:(lia) ltac:(lia) ltac:(lia) E) as [E1 _]. discriminate E1.
Defined.

(** ** Raw messages *)

Section RawHeaders.
Context `{GoRuntime} `{AddressText} `{HeaderText}.
(** A header that is written is read again, with what follows it; a field
    that is set is there, and one that is deleted is not. *)
Hypothesis write_read : forall h text rest, tp_WriteHeader h = Some text -> tp_ReadHeader (text +:+ rest) = Some (h, rest).
Hypothesis get_set : forall h k v, tp_Get (tp_Set h k v) k = v.
Hypothesis has_del : forall h k, tp_Has (tp_Del h k) k = false.

Lemma bracketed_graphic id : str_forallb graphic id = true -> TrimSpace ("<" +:+ id +:+ ">") = "<" +:+ id +:+ ">".
Proof. intros Hid. apply TrimSpace_graphic. by rewrite !str_forallb_app, Hid. Qed.

Lemma read_nonempty h text rest : tp_ReadHeader EmptyString = None -> tp_WriteHeader h = Some text -> text +:+ rest <> EmptyString.
Proof. intros He Hw E. pose proof (write_read h text rest Hw) as Hr. rewrite E in Hr. congruence. Qed.

Lemma written_id_valid now random pid d h text rest :
  let v := "<" +:+ GenerateMessageID now random pid d +:+ ">" in
  tp_ReadHeader EmptyString = None -> tp_WriteHeader (tp_Set h "Message-ID" v) = Some text ->
  HasValidMessageID (text +:+ rest) = true /\ tp_ReadHeader (text +:+ rest) = Some (tp_Set h "Message-ID" v, rest).
Proof.
  intros v He Ht. pose proof (write_read _ _ rest Ht) as Hr. pose proof (read_nonempty _ _ rest He Ht) as Hne.
  destruct (generated_id_ok now random pid d) as [Hm Hg]. split; [|done].
  unfold HasValidMessageID. rewrite (proj2 (String.eqb_neq _ _) Hne), Hr, get_set. unfold v. rewrite bracketed_graphic by done.
  by rewrite Hm, andb_true_r.
Qed.

(** After [EnsureValidMessageID] a message has a valid Message-ID field,
    provided that its header can be written with one; what follows the header
    is kept, and a message that has a valid id already is not touched. *)
Theorem ensure_gives_message_id now random pid data domainOrAddress :
  tp_ReadHeader EmptyString = None ->
  (forall h id, str_forallb graphic id = true -> is_Some (tp_WriteHeader (tp_Set h "Message-ID" ("<" +:+ id +:+ ">")))) ->
  let out := EnsureValidMessageID now random pid data domainOrAddress in
  HasValidMessageID out = true
  /\ (HasValidMessageID data = true -> out = data)
  /\ (forall h rest, tp_ReadHeader data = Some (h, rest) -> exists h', tp_ReadHeader out = Some (h', rest))
  /\ (tp_ReadHeader data = None -> exists h', tp_ReadHeader out = Some (h', data)).
Proof.
  intros He Hwrite. cbv zeta. unfold EnsureValidMessageID.
  destruct (HasValidMessageID data) eqn:Hv.
  { split_and!; [done|done|eauto|]. unfold HasValidMessageID in Hv. intros Hn. rewrite Hn in Hv. by destruct (String.eqb _ _) in Hv. }
  set (v := "<" +:+ _ +:+ ">"). pose proof (generated_id_ok now random pid domainOrAddress) as [_ Hg].
  destruct (String.eqb_spec data EmptyString) as [->|Hne].
  { destruct (Hwrite tp_empty _ Hg) as [text Ht]. pose proof (written_id_valid _ _ _ _ _ _ EmptyString He Ht) as [Hval Hread].
    unfold id_header. fold v in Ht. rewrite Ht. cbn [default from_option]. unfold Datatypes.id. rewrite append_nil_r in *.
    split_and!; [done|done|congruence|eauto]. }
  destruct (tp_ReadHeader data) as [[hdr rest]|] eqn:Er.
  - destruct (Hwrite hdr _ Hg) as [text Ht]. pose proof (written_id_valid _ _ _ _ _ _ rest He Ht) as [Hval Hread].
    fold v in Ht. rewrite Ht. split_and!; [done|done| |done]. intros h' rest' [= <- <-]. eauto.
  - destruct (Hwrite tp_empty _ Hg) as [text Ht]. pose proof (written_id_valid _ _ _ _ _ _ data He Ht) as [Hval Hread].
    unfold id_header. fold v in Ht. rewrite Ht. split_and!; [done|done|done|eauto].
Qed.

(** [StripBCCHeader] takes the Bcc field out of a message whose header can be
    written again, keeps what follows the header, and leaves any other message
    as it is. *)
Theorem strip_bcc_removes data :
  match tp_ReadHeader data with
  | Some (h, rest) =>
      (tp_Has h "Bcc" = false -> StripBCCHeader data = data)
      /\ (data <> EmptyString -> tp_Has h "Bcc" = true -> is_Some (tp_WriteHeader (tp_Del h "Bcc")) ->
          exists h', tp_ReadHeader (StripBCCHeader data) = Some (h', rest) /\ tp_Has h' "Bcc" = false)
  | None => StripBCCHeader data = data
  end.
Proof.
  unfold StripBCCHeader. destruct (tp_ReadHeader data) as [[h rest]|] eqn:Er; [|by destruct (String.eqb _ _)]. split.
  - intros ->. by destruct (String.eqb _ _).
  - intros Hne Hh [text Ht]. rewrite (proj2 (String.eqb_neq _ _) Hne), Hh, Ht. cbn [negb]. exists (tp_Del h "Bcc").
    by rewrite (write_read _ _ _ Ht).
Qed.
End RawHeaders.

(** A header with one field, written as two lines. *)
Definition one_field : HeaderText := {|
  tp_Header := string * string;
  tp_empty := (EmptyString, EmptyString);
  tp_ReadHeader s := '(k, s) ← cut_byte "010" s; '(v, rest) ← cut_byte "010" s; Some ((k, v), rest);
  tp_WriteHeader h := if lacks "010" (fst h) && lacks "010" (snd h)
                      then Some (fst h +:+ String "010" (snd h +:+ String "010" EmptyString)) else None;
  tp_Get h k := if String.eqb (fst h) k then snd h else EmptyString;
  tp_Set _ k v := (k, v);
  tp_Has h k := String.eqb (fst h) k && negb (String.eqb (snd h) EmptyString);
  tp_Del h k := if String.eqb (fst h) k then (EmptyString, EmptyString) else h;
|}.

Lemma one_field_write_read (h : tp_Header (HeaderText := one_field)) text rest :
  tp_WriteHeader (HeaderText := one_field) h = Some text -> tp_ReadHeader (HeaderText := one_field) (text +:+ rest) = Some (h, rest).
Proof.
  destruct h as [k v]. cbn [tp_WriteHeader tp_ReadHeader one_field fst snd].
  destruct (lacks "010" k) eqn:Hk, (lacks "010" v) eqn:Hv; try done. cbn [andb]. intros [= <-].
  assert ((k +:+ String "010" (v +:+ String "010" EmptyString)) +:+ rest = k +:+ String "010" (v +:+ String "010" rest)) as ->.
  { rewrite append_assoc. f_equal. exact (f_equal (String "010") (append_assoc v (String "010" EmptyString) rest)). }
  rewrite cut_byte_app by done. cbn. by rewrite cut_byte_app.
Qed.
Lemma one_field_get_set (h : tp_Header (HeaderText := one_field)) k v :
  tp_Get (HeaderText := one_field) (tp_Set (HeaderText := one_field) h k v) k = v.
Proof. cbn. by rewrite String.eqb_refl. Qed.
Lemma one_field_has_del (h : tp_Header (HeaderText := one_field)) k :
  tp_Has (HeaderText := one_field) (tp_Del (HeaderText := one_field) h k) k = false.
Proof. cbn. destruct (String.eqb (fst h) k) eqn:E; cbn; [apply andb_false_r|by rewrite E]. Qed.

Lemma graphic_lacks id : str_forallb graphic id = true -> lacks "010" ("<" +:+ id +:+ ">") = true.
Proof.
  intros Hid. unfold lacks. rewrite !str_forallb_app.
  assert (str_forallb (fun b => negb (Ascii.eqb b "010")) id = true) as ->; [|reflexivity].
  revert Hid. apply str_forallb_impl. intros c Hc. apply negb_true_iff, Ascii.eqb_neq. intros ->. by vm_compute in Hc.
Qed.

Definition demo_raw : string := "Subject" +:+ String "010" ("hello" +:+ String "010" "body").

Lemma ensure_gives_message_id_witness :
  HasValidMessageID (H1 := one_field) demo_raw = false
  /\ HasValidMessageID (H1 := one_field)
       (EnsureValidMessageID (H := ascii_runtime) (H0 := demo_addresses) (H1 := one_field) 5 (Some 7) 1 demo_raw "ann@example.org") = true.
Proof.
  split; [vm_compute; reflexivity|].
  apply (ensure_gives_message_id (H := ascii_runtime) (H0 := demo_addresses) (H1 := one_field)
    one_field_write_read one_field_get_set); [reflexivity|].
  intros h id Hid. cbn [tp_WriteHeader tp_Set one_field fst snd]. rewrite graphic_lacks by exact Hid. eexists. reflexivity.
Defined.

Lemma strip_bcc_removes_witness :
  let data := "Bcc" +:+ String "010" ("bob@x" +:+ String "010" "body") in
  exists h', tp_ReadHeader (HeaderText := one_field) (StripBCCHeader (H1 := one_field) data) = Some (h', "body")
    /\ tp_Has (HeaderText := one_field) h' "Bcc" = false.
Proof.
  cbv zeta. pose proof (strip_bcc_removes (H1 := one_field) one_field_write_read one_field_has_del
    ("Bcc" +:+ String "010" ("bob@x" +:+ String "010" "body"))) as T.
  change (tp_ReadHeader (HeaderText := one_field) ("Bcc" +:+ String "010" ("bob@x" +:+ String "010" "body")))
    with (Some ("Bcc", "bob@x", "body")) in T. cbv beta iota in T.
  apply T; [discriminate|reflexivity|eexists; reflexivity].
Defined.
