(* ===== verification/MimeParse.v ===== *)
(** * Parsing messages

    [jmap/jmapmail/email_parse.go]: the JMAP email of a raw message, from the
    entity the third-party [go-message] package reads, with its limits on the
    nesting and the number of parts; the simple form where that package fails;
    and the body of a part by its blob id.

    [Entity] is what the reader of [go-message] gives: the header, the body and
    for a multipart entity its parts.  The class [MimeLib] holds that reader,
    [mime.ParseMediaType], [mail.ReadMessage], SHA-256 and the verification of
    signatures. *)

From S2P Require Import Prelude GoSort GoStrings GoRunes GoState Json Query MailTypes Handler MailQuery GoTime EmailGet MimeBody.
From Stdlib Require Import Ascii.

(** A blob store: whether a blob is found, and its data; a blob is put with its
    content type. *)
Record BlobStore (W : Type) : Type := mkBlobStore {
  bs_GetBlob : Ctx -> string -> string -> St W (bool * option string);
  bs_PutBlob : Ctx -> string -> string -> string -> St W unit;
}.
Arguments bs_GetBlob {W} _ _ _ _ _.
Arguments bs_PutBlob {W} _ _ _ _ _ _.

Inductive Entity : Type :=
| mkEntity (Get : string -> string) (Fields : list EmailHeader) (Body : string) (Parts : option (list Entity)).
Definition en_Get (e : Entity) : string -> string := let '(mkEntity g _ _ _) := e in g.
Definition en_Fields (e : Entity) : list EmailHeader := let '(mkEntity _ f _ _) := e in f.

(** A message of [net/mail]. *)
Record NetMessage : Type := mkNetMessage { nm_Get : string -> string; nm_Date : option Time; nm_Body : string }.

Class MimeLib := {
  ml_Read : string -> option Entity;
  ml_ParseMediaType : string -> option (string * list (string * string));
  ml_ReadMessage : string -> option NetMessage;
  ml_sha256_hex : string -> string;
  (** [VerifySMIMEMessage(raw, nil)] *)
  ml_VerifySMIME : string -> option SMIME;
}.

Definition MaxEmailRawSize : Z := 50 * 1024 * 1024.
Definition MaxMIMENestingDepth : nat := 10.
Definition MaxMIMEParts : Z := 100.

Definition param (params : list (string * string)) (k : string) : string :=
  default EmptyString (snd <$> List.find (fun kv => String.eqb (fst kv) k) params).
Definition nonempty (s : string) : option string := if String.eqb s EmptyString then None else Some s.
(** [strings.FieldsFunc] with a test on bytes. *)
Fixpoint fields_func (sep : ascii -> bool) (cur s : string) : list string :=
  let part := if String.eqb cur EmptyString then [] else [cur] in
  match s with
  | EmptyString => part
  | String c s' => if sep c then part ++ fields_func sep EmptyString s' else fields_func sep (cur +:+ str_of [c]) s'
  end.

(** ** The parts *)

(** The number of leaves so far and the body values. *)
Record mime_state : Type := mkMime { ms_counter : Z; ms_values : list (string * EmailBodyValue) }.
(** [m[k] = v] on a map that keeps its other members. *)
Fixpoint assoc_set {V} (m : list (string * V)) (k : string) (v : V) : list (string * V) :=
  match m with
  | [] => [(k, v)]
  | (k', v') :: m' => if String.eqb k' k then (k, v) :: m' else (k', v') :: assoc_set m' k v
  end.
Definition assoc_get {V} (m : list (string * V)) (k : string) : option V :=
  snd <$> List.find (fun kv => String.eqb (fst kv) k) m.

Section Mime.
Context `{GoRuntime} `{MimeLib} {W : Type}.
Variable blobs : option (BlobStore W).

(** The media type and its parameters. *)
Definition media_type (get : string -> string) : string * list (string * string) :=
  let ct := get "Content-Type" in
  if String.eqb ct EmptyString then ("text/plain", [])
  else match ml_ParseMediaType ct with
       | None => ("text/plain", [])
       | Some (mt, mp) =>
           let mt := ToLower mt in
           (if String.eqb mt "text/calendar" && negb (String.eqb (param mp "method") EmptyString)
            then "text/calendar; method=" +:+ param mp "method" else mt, mp)
       end.
Definition disposition (get : string -> string) : option string * list (string * string) :=
  let cd := get "Content-Disposition" in
  if String.eqb cd EmptyString then (None, [])
  else match ml_ParseMediaType cd with None => (None, []) | Some (d, dp) => (Some (ToLower d), dp) end.
Definition part_name (dispParams mediaParams : list (string * string)) : option string :=
  match nonempty (param dispParams "filename") with Some fn => Some fn | None => nonempty (param mediaParams "name") end.
Definition part_cid (get : string -> string) : option string := nonempty (Trim (TrimSpace (get "Content-ID")) "<>").
Definition part_location (get : string -> string) : option string := nonempty (TrimSpace (get "Content-Location")).
Definition part_language (get : string -> string) : list string :=
  omap (fun p => nonempty (TrimSpace p))
    (fields_func (fun c => Ascii.eqb c "," || Ascii.eqb c " " || Ascii.eqb c "009") EmptyString (get "Content-Language")).
Definition part_charset (mediaType : string) (mediaParams : list (string * string)) : option string :=
  if HasPrefix mediaType "text/"
  then Some (if String.eqb (param mediaParams "charset") EmptyString then "us-ascii" else ToLower (param mediaParams "charset"))
  else None.

(** A leaf: the body is stored and its text kept. *)
Definition parse_leaf (c : Ctx) (accountID : string) (e : Entity) (st : mime_state) : St W (EmailBodyPart * mime_state) :=
  let '(mkEntity get fields body _) := e in
  let '(mediaType, mediaParams) := media_type get in
  let '(disp, dispParams) := disposition get in
  let counter := ms_counter st + 1 in
  let pID := default (fmt_d counter) (nonempty (get "X-JMAP-Part-ID")) in
  _ ← (match blobs with
       | Some bb => if String.eqb accountID EmptyString then mret tt else bs_PutBlob bb c accountID mediaType body
       | None => mret tt
       end);
  mret (mkPart (Some pID) (Some (ml_sha256_hex body)) (Z.of_nat (slen body)) fields (part_name dispParams mediaParams) mediaType
          (part_charset mediaType mediaParams) disp (part_cid get) (part_language get) (part_location get) [],
        mkMime counter (assoc_set (ms_values st) pID (mkBodyValue (normalizeToLF body) false false))).
(** The loop over the parts of a multipart entity. *)
Definition read_parts (f : Entity -> mime_state -> St W (EmailBodyPart * mime_state)) : list Entity -> mime_state -> St W (list EmailBodyPart * mime_state) :=
  fix go (l : list Entity) (st : mime_state) : St W (list EmailBodyPart * mime_state) :=
    match l with
    | [] => mret ([], st)
    | sub :: l' =>
        if MaxMIMEParts <=? ms_counter st then mret ([], st)
        else
          r ← f sub st;
          rs ← go l' (snd r);
          mret (fst r :: fst rs, snd rs)
    end.
(** [depth_left] is [MaxMIMENestingDepth - depth].  An error of a part cannot
    occur, so that every part that is read is kept. *)
Fixpoint parseMIMEEntity (c : Ctx) (accountID : string) (e : Entity) (depth_left : nat) (st : mime_state)
  : St W (EmailBodyPart * mime_state) :=
  let '(mkEntity get fields body parts) := e in
  match parts, depth_left with
  | Some parts, S depth_left' =>
      let '(mediaType, mediaParams) := media_type get in
      let '(disp, dispParams) := disposition get in
      r ← read_parts (fun sub => parseMIMEEntity c accountID sub depth_left') parts st;
      mret (mkPart None None 0 fields (part_name dispParams mediaParams) mediaType None disp (part_cid get) (part_language get)
              (part_location get) (fst r), snd r)
  | _, _ => parse_leaf c accountID e st
  end.
End Mime.

(** ** The email *)

(** What is read from the header. *)
Record parsed_head : Type := mkHead {
  ph_Size : Z; ph_ReceivedAt : string; ph_From : list EmailAddress; ph_Sender : list EmailAddress; ph_To : list EmailAddress;
  ph_CC : list EmailAddress; ph_BCC : list EmailAddress; ph_ReplyTo : list EmailAddress; ph_Subject : string;
  ph_MessageID : list string; ph_InReplyTo : list string; ph_References : list string; ph_SentAt : option string; ph_SMIME : SMIME;
}.

Section Parse.
Context `{GoRuntime} `{TimeZones} `{MailText} `{MimeLib} {W : Type}.
Variable blobs : option (BlobStore W).
Variable Now : St W Time.
Variable UnescapeString : string -> string.

Definition decodeHeader (v : string) : string := default (TrimSpace v) (mt_DecodeHeader v).
(** [convertMailAddresses] of [mail.ParseAddressList] *)
Definition address_header (v : string) : list EmailAddress := default [] (mt_ParseAddressList v).
Definition parseAddressList (v : string) : list EmailAddress :=
  if String.eqb (TrimSpace v) EmptyString then [] else default [] (mt_ParseAddressList v).
Definition date_header (v : string) : option string := Format_UTC <$> mt_ParseDate v.
Definition message_id_header (v : string) : list string :=
  let v := TrimSpace v in if String.eqb v EmptyString then [] else [Trim v "<>"].
Definition ids_header (v : string) : list string :=
  let v := TrimSpace v in if String.eqb v EmptyString then [] else parseReferencesList v.

Definition parse_head (raw now : string) (get : string -> string) : parsed_head :=
  mkHead (Z.of_nat (slen raw)) now (address_header (get "From")) (address_header (get "Sender")) (address_header (get "To"))
    (address_header (get "Cc")) (address_header (get "Bcc")) (address_header (get "Reply-To")) (decodeHeader (get "Subject"))
    (message_id_header (get "Message-ID")) (ids_header (get "In-Reply-To")) (ids_header (get "References"))
    (if String.eqb (get "Date") EmptyString then None else date_header (get "Date")) no_smime.

Definition when_empty {A} (old new : list A) : list A := match old with [] => new | _ => old end.
(** A field of the raw header: it fills in what is not known yet. *)
Definition raw_header (h : parsed_head) (f : EmailHeader) : parsed_head :=
  let '(mkHead size received from sender to cc bcc replyTo subject mids irt refs sentAt sm) := h in
  let '(mkSMIME st stAt errs by_) := sm in
  let val := TrimSpace (eh_Value f) in
  let name := ToLower (eh_Name f) in
  let some := nonempty val in
  if String.eqb name "message-id"
  then mkHead size received from sender to cc bcc replyTo subject
         (when_empty mids (when_empty (parseReferencesList val) (match some with Some v => [Trim v mid_cutset] | None => [] end)))
         irt refs sentAt sm
  else if String.eqb name "in-reply-to"
  then mkHead size received from sender to cc bcc replyTo subject mids (when_empty irt (parseReferencesList val)) refs sentAt sm
  else if String.eqb name "references"
  then mkHead size received from sender to cc bcc replyTo subject mids irt (when_empty refs (parseReferencesList val)) sentAt sm
  else if String.eqb name "subject"
  then mkHead size received from sender to cc bcc replyTo (if String.eqb subject EmptyString then decodeHeader val else subject)
         mids irt refs sentAt sm
  else if String.eqb name "date"
  then mkHead size received from sender to cc bcc replyTo subject mids irt refs
         (match sentAt with Some s => Some s | None => date_header val end) sm
  else if String.eqb name "from"
  then mkHead size received (when_empty from (address_header val)) sender to cc bcc replyTo subject mids irt refs sentAt sm
  else if String.eqb name "to"
  then mkHead size received from sender (when_empty to (address_header val)) cc bcc replyTo subject mids irt refs sentAt sm
  else if String.eqb name "x-jmap-size"
  then mkHead (default size (ParseUint val 64)) received from sender to cc bcc replyTo subject mids irt refs sentAt sm
  else if String.eqb name "x-jmap-received-at"
  then mkHead size (default received some) from sender to cc bcc replyTo subject mids irt refs sentAt sm
  else if String.eqb name "x-jmap-smime-status"
  then mkHead size received from sender to cc bcc replyTo subject mids irt refs sentAt
         (mkSMIME (match some with Some v => Some v | None => st end) stAt errs by_)
  else if String.eqb name "x-jmap-smime-verified-with"
  then mkHead size received from sender to cc bcc replyTo subject mids irt refs sentAt
         (mkSMIME st stAt errs (match some with Some v => Some v | None => by_ end))
  else if String.eqb name "x-jmap-smime-status-at"
  then mkHead size received from sender to cc bcc replyTo subject mids irt refs sentAt
         (mkSMIME st (match some with Some v => Some v | None => stAt end) errs by_)
  else if String.eqb name "x-jmap-smime-errors"
  then mkHead size received from sender to cc bcc replyTo subject mids irt refs sentAt
         (mkSMIME st stAt (match some with Some v => Split v "," | None => errs end) by_)
  else h.
Definition verified (raw : string) (sm : SMIME) : SMIME :=
  match sm_Status sm with
  | Some _ => sm
  | None => default sm (ml_VerifySMIME raw)
  end.
Definition with_headers (p : EmailBodyPart) (headers : list EmailHeader) : EmailBodyPart :=
  let '(mkPart pid blob size h name ty charset disp cid language location subs) := p in
  match subs with
  | [] => if HasPrefix ty "multipart/" then p else mkPart pid blob size headers name ty charset disp cid language location subs
  | _ => p
  end.
Definition preview_of (text html : list EmailBodyPart) (values : list (string * EmailBodyValue)) : string :=
  let shown id := match assoc_get values id with Some bv => Preview UnescapeString (bv_Value bv) 256 | None => EmptyString end in
  match head text ≫= bp_PartID, head html ≫= bp_PartID with
  | Some id, _ => shown id
  | None, Some id => shown id
  | None, None => EmptyString
  end.

(** [parseRFC822Simple]: one plain part. *)
Definition parseRFC822Simple (raw : string) : St W (Email * SMIME) :=
  now ← Now;
  let headers := parseRawHeaders raw in
  let msg := ml_ReadMessage raw in
  let on {A} (f : string -> list A) k := match msg with Some m => f (nm_Get m k) | None => [] end in
  let body := match msg with Some m => nm_Body m | None => raw end in
  let part := mkPart (Some "1") None (Z.of_nat (slen body)) headers None "text/plain" (Some "us-ascii") None None [] None [] in
  mret (mkEmail EmptyString EmptyString EmptyString [] [] (Z.of_nat (slen raw)) (Format_UTC now) (on message_id_header "Message-ID")
          (on ids_header "In-Reply-To") (on ids_header "References") (on parseAddressList "Sender") (on parseAddressList "From")
          (on parseAddressList "To") (on parseAddressList "Cc") (on parseAddressList "Bcc") (on parseAddressList "Reply-To")
          (match msg with Some m => decodeHeader (nm_Get m "Subject") | None => EmptyString end)
          (match msg with Some m => Format_UTC <$> nm_Date m | None => None end)
          headers part [("1", mkBodyValue body false false)] [part] [part] [] false
          (Preview UnescapeString (stripHTMLTags body) 256), no_smime).

Definition ParseRFC822WithAccount (accountID raw : string) : St W (result string (Email * SMIME)) :=
  if MaxEmailRawSize <? Z.of_nat (slen raw)
  then mret (Err ("message size (" +:+ fmt_d (Z.of_nat (slen raw)) +:+ " bytes) exceeds maximum limit (" +:+ fmt_d MaxEmailRawSize
                  +:+ " bytes)"))
  else
    let headers := parseRawHeaders raw in
    match headers with
    | [] => mret (Err "not an RFC5322 message: no headers found")
    | _ =>
        match ml_Read raw with
        | None => r ← parseRFC822Simple raw; mret (Ok r)
        | Some entity =>
            now ← Now;
            let '(mkHead size received from sender to cc bcc replyTo subject mids irt refs sentAt sm) :=
              foldl raw_header (parse_head raw (Format_UTC now) (en_Get entity)) headers in
            r ← parseMIMEEntity blobs Background accountID entity MaxMIMENestingDepth (mkMime 0 []);
            let structure := with_headers (fst r) headers in
            let '(text, html, atts) := ExtractBodyStructureParts structure in
            let text' := or_else text html in
            let html' := or_else html text in
            mret (Ok (mkEmail EmptyString EmptyString EmptyString [] [] size received mids irt refs sender from to cc bcc replyTo subject
                        sentAt headers structure (ms_values (snd r)) text' html' atts (negb (match atts with [] => true | _ => false end))
                        (preview_of text' html' (ms_values (snd r))), verified raw sm))
        end
    end.
End Parse.
(** [ParseRFC822]: nothing is stored. *)
Definition ParseRFC822 `{GoRuntime} `{TimeZones} `{MailText} `{MimeLib} {W} (Now : St W Time) (UnescapeString : string -> string) (raw : string)
  : St W (result string (Email * SMIME)) := ParseRFC822WithAccount None Now UnescapeString EmptyString raw.

(** ** The body of a part *)

Section Blob.
Context `{GoRuntime} `{MimeLib}.

Definition blob_type (get : string -> string) : string :=
  match nonempty (get "X-JMAP-Content-Type") with
  | Some ct => ct
  | None => match nonempty (get "Content-Type") with
            | Some ct => match ml_ParseMediaType ct with
                         | Some (mt, _) => if String.eqb mt EmptyString then "application/octet-stream" else ToLower mt
                         | None => "application/octet-stream"
                         end
            | None => "application/octet-stream"
            end
  end.
Definition first_some {A B} (f : A -> option B) : list A -> option B :=
  fix go (l : list A) : option B := match l with [] => None | x :: l' => match f x with Some y => Some y | None => go l' end end.
Fixpoint findMIMEPartBlob (target : string) (e : Entity) : option (string * string) :=
  let '(mkEntity get _ body parts) := e in
  match parts with
  | Some parts => first_some (findMIMEPartBlob target) parts
  | None => if String.eqb (ml_sha256_hex body) target then Some (body, blob_type get) else None
  end.
Definition ExtractBlobFromRFC822 (raw target : string) : option (string * string) :=
  if String.eqb raw EmptyString then None
  else if String.eqb (ml_sha256_hex raw) target then Some (raw, "message/rfc822")
  else e ← ml_Read raw; findMIMEPartBlob target e.
End Blob.

(** ** Limits *)

Fixpoint part_ids (p : EmailBodyPart) : list string :=
  let '(mkPart pid _ _ _ _ _ _ _ _ _ _ subs) := p in
  match pid with Some id => [id] | None => [] end ++ concat (map part_ids subs).
Fixpoint part_depth (p : EmailBodyPart) : nat :=
  let '(mkPart _ _ _ _ _ _ _ _ _ _ _ subs) := p in S (foldr (fun s n => Nat.max (part_depth s) n) 0%nat subs).

Section EntityInd.
Variable P : Entity -> Prop.
Hypothesis Hentity : forall get fields body parts,
  match parts with Some l => Forall P l | None => True end -> P (mkEntity get fields body parts).
Fixpoint entity_nested_ind (e : Entity) : P e :=
  let '(mkEntity get fields body parts) := e in
  Hentity get fields body parts
    (match parts as p return match p with Some l => Forall P l | None => True end with
     | None => Logic.I
     | Some l => (fix all (l : list Entity) : Forall P l :=
                    match l with [] => Forall_nil_2 _ | x :: l' => Forall_cons_2 _ _ _ (entity_nested_ind x) (all l') end) l
     end).
End EntityInd.

Section Limits.
Context `{GoRuntime} `{MimeLib} {W : Type}.
Variable blobs : option (BlobStore W).

Let T : W -> Prop := fun _ => True.

(** What the leaves of a part count, and how deep it is. *)
Definition within (depth : nat) (n : Z) (r : EmailBodyPart * mime_state) : Prop :=
  n <= ms_counter (snd r) <= MaxMIMEParts /\ Z.of_nat (length (part_ids (fst r))) = ms_counter (snd r) - n
  /\ (part_depth (fst r) <= S depth)%nat.

Lemma parse_leaf_within c a e st depth : ms_counter st < MaxMIMEParts -> ensures T (within depth (ms_counter st)) (parse_leaf blobs c a e st).
Proof.
  intros Hc. destruct e as [get fields body parts]. cbn [parse_leaf]. destruct (media_type get) as [mt mp], (disposition get) as [disp dp].
  eapply (ensures_bind _ (fun _ => True)); [by intros w Hw|]. intros _ _. apply ensures_ret.
  unfold within. cbn. unfold MaxMIMEParts in *. split_and!; lia.
Qed.

Lemma read_parts_within depth f l st :
  ms_counter st <= MaxMIMEParts ->
  Forall (fun e => forall st, ms_counter st < MaxMIMEParts -> ensures T (within depth (ms_counter st)) (f e st)) l ->
  ensures T (fun r => ms_counter st <= ms_counter (snd r) <= MaxMIMEParts
                    /\ Z.of_nat (length (concat (map part_ids (fst r)))) = ms_counter (snd r) - ms_counter st
                    /\ Forall (fun p => (part_depth p <= S depth)%nat) (fst r)) (read_parts f l st).
Proof.
  intros Hc Hf. revert st Hc. induction Hf as [|e l He Hl IH]; intros st Hc; cbn [read_parts].
  { apply ensures_ret. cbn. split_and!; try lia; constructor. }
  destruct (Z.leb_spec MaxMIMEParts (ms_counter st)); [apply ensures_ret; cbn; split_and!; try lia; constructor|].
  eapply ensures_bind; [by apply He|]. intros [p st1] (K1 & K2 & K3). cbn [fst snd] in *.
  eapply ensures_bind; [apply IH; lia|]. intros [ps st2] (K4 & K5 & K6). apply ensures_ret. cbn [fst snd map concat] in *.
  rewrite length_app. split_and!; try lia. by constructor.
Qed.

Lemma max_depth depth l : Forall (fun p => (part_depth p <= S depth)%nat) l -> (foldr (fun s n => Nat.max (part_depth s) n) 0 l <= S depth)%nat.
Proof. induction 1; simpl; lia. Qed.

Lemma parse_within c a e : forall depth st,
  ms_counter st < MaxMIMEParts -> ensures T (within depth (ms_counter st)) (parseMIMEEntity blobs c a e depth st).
Proof.
  revert e. refine (entity_nested_ind _ _). intros get fields body parts IH depth st Hc.
  destruct parts as [l|]; [destruct depth as [|depth]|]; cbn [parseMIMEEntity]; try by apply parse_leaf_within.
  destruct (media_type get) as [mt mp], (disposition get) as [disp dp].
  eapply ensures_bind; [apply (read_parts_within depth); [lia|]|].
  - rewrite Forall_forall in IH |- *. intros e He st' Hst. by apply IH.
  - intros [ps st'] (K1 & K2 & K3). apply ensures_ret. unfold within. cbn [fst snd part_ids part_depth app] in *.
    apply max_depth in K3. split_and!; lia.
Qed.

(** C31: The limits of the parser: whatever a message holds, its structure has at
    most 100 parts with a body and is at most eleven levels deep, and the parts
    with a body are those with a part id. *)
Theorem mime_limits c a e w :
  let r := snd (parseMIMEEntity blobs c a e MaxMIMENestingDepth (mkMime 0 []) w) in
  Z.of_nat (length (part_ids (fst r))) = ms_counter (snd r) /\ ms_counter (snd r) <= 100 /\ (part_depth (fst r) <= 11)%nat.
Proof.
  destruct (parse_within c a e MaxMIMENestingDepth (mkMime 0 []) ltac:(done) w Logic.I) as [_ (K1 & K2 & K3)].
  cbn [ms_counter] in *. unfold MaxMIMENestingDepth, MaxMIMEParts in *. cbv zeta. split_and!; [lia|lia|exact K3].
Qed.

(** ** Every part of a message is shown *)

(** An entity in the form the parser expects: types in canonical form, parts
    exactly in the containers, no nesting below the limit and no part id of its
    own. *)
Fixpoint entity_ok (depth : nat) (e : Entity) {struct e} : bool :=
  let '(mkEntity get _ _ parts) := e in
  let ty := fst (media_type get) in
  canonical_name ty
  && match parts, depth with
     | Some l, S d => HasPrefix ty "multipart/" && forallb (entity_ok d) l
     | Some _, O => false
     | None, _ => negb (HasPrefix ty "multipart/") && String.eqb (get "X-JMAP-Part-ID") EmptyString
     end.
Definition ids_between (n n' : Z) : list string := map fmt_d (seqZ (n + 1) (n' - n)).

(** The leaves of what is parsed: their ids are the numbers from the counter on. *)
Definition shows (n : Z) (ps : list EmailBodyPart) (n' : Z) : Prop :=
  n <= n' /\ forallb canonical ps = true /\ map bp_PartID (concat (map leaves ps)) = map Some (ids_between n n').

Lemma ids_between_app n m k : n <= m -> m <= k -> ids_between n m ++ ids_between m k = ids_between n k.
Proof.
  intros Hn Hm. unfold ids_between. rewrite <- map_app. f_equal.
  replace (k - n) with ((m - n) + (k - m)) by lia. rewrite seqZ_app by lia. do 2 f_equal; lia.
Qed.

Lemma shows_nil n : shows n [] n.
Proof. split_and!; [lia|done|]. unfold ids_between. by replace (n - n) with 0 by lia. Qed.

Lemma shows_cons n p m ps k : shows n [p] m -> shows m ps k -> shows n (p :: ps) k.
Proof.
  intros (K1 & K2 & K3) (K4 & K5 & K6). cbn [map concat forallb] in *. rewrite app_nil_r in K3. split_and!; [lia| |].
  - cbn [forallb]. rewrite andb_true_r in K2. by rewrite K2, K5.
  - cbn [map concat]. rewrite map_app, K3, K6, <- map_app, ids_between_app by lia. done.
Qed.

Lemma parse_shows c a e : forall depth st,
  entity_ok depth e = true ->
  ensures T (fun r => shows (ms_counter st) [fst r] (ms_counter (snd r))) (parseMIMEEntity blobs c a e depth st).
Proof.
  revert e. refine (entity_nested_ind _ _). intros get fields body parts IH depth st Hok. cbn [entity_ok] in Hok.
  apply andb_prop in Hok as [Hty Hok].
  destruct parts as [l|]; [destruct depth as [|depth]; [done|]|]; cbn [parseMIMEEntity].
  - apply andb_prop in Hok as [Hm Hl]. destruct (media_type get) as [mt mp], (disposition get) as [disp dp]. cbn [fst] in *.
    eapply (ensures_bind _ (fun r => shows (ms_counter st) (fst r) (ms_counter (snd r)))).
    + revert st. induction IH as [|e l He Hrest IHl]; intros st; cbn [read_parts]; [apply ensures_ret, shows_nil|].
      apply andb_prop in Hl as [Hoke Hl]. destruct (MaxMIMEParts <=? ms_counter st); [apply ensures_ret, shows_nil|].
      eapply ensures_bind; [by apply He|]. intros [p st1] Hp. eapply ensures_bind; [by apply IHl|]. intros [ps st2] Hps.
      apply ensures_ret. by eapply shows_cons.
    + intros [ps st'] (K1 & K2 & K3). apply ensures_ret. cbn [fst snd] in *. split_and!; [lia| |].
      * cbn. by rewrite Hty, K2.
      * cbn [map concat leaves]. by rewrite Hm, app_nil_r.
  - apply andb_prop in Hok as [Hm Hid]. cbn [parse_leaf]. destruct (media_type get) as [mt mp], (disposition get) as [disp dp]. cbn [fst] in *.
    eapply (ensures_bind _ (fun _ => True)); [by intros w Hw|]. intros _ _. apply ensures_ret. cbn [fst snd ms_counter].
    apply negb_true_iff in Hm. unfold nonempty. rewrite Hid. split_and!; [lia|cbn; by rewrite Hty|].
    cbn [map concat leaves]. rewrite Hm. unfold ids_between. replace (ms_counter st + 1 - ms_counter st) with 1 by lia. done.
Qed.
End Limits.

Section Shown.
Context `{GoRuntime} `{TimeZones} `{MailText} `{MimeLib} {W : Type}.
Variable blobs : option (BlobStore W).
Variable Now : St W Time.
Variable UnescapeString : string -> string.

Lemma with_headers_same p headers :
  canonical (with_headers p headers) = canonical p /\ map bp_PartID (leaves (with_headers p headers)) = map bp_PartID (leaves p).
Proof.
  destruct p as [i b n h nm ty cs d cid lang loc [|s subs]]; [|done]. cbn [with_headers].
  destruct (HasPrefix ty "multipart/") eqn:E; [done|]. split; [done|]. cbn [leaves]. by rewrite E.
Qed.

Lemma NoDup_ids n n' : 0 <= n -> NoDup (map Some (ids_between n n')).
Proof.
  intros Hn. apply NoDup_fmap_2; [congruence|]. unfold ids_between. apply NoDup_fmap_2_strong; [|apply NoDup_seqZ].
  intros x y Hx Hy E. apply elem_of_seqZ in Hx, Hy. apply fmt_d_inj in E; [done|lia|lia].
Qed.

End Shown.

(** The libraries of the examples: a message that starts with [M] is a mixed
    message of a text and a PDF file. *)
Definition demo_leaf_entity (ty body : string) : Entity :=
  mkEntity (fun k => if String.eqb k "Content-Type" then ty else EmptyString) [] body None.
Definition demo_entity : Entity :=
  mkEntity (fun k => if String.eqb k "Content-Type" then "multipart/mixed" else EmptyString) [] EmptyString
    (Some [demo_leaf_entity "text/plain" "hello"; demo_leaf_entity "application/pdf" "PDF"]).
Definition demo_mime : MimeLib := {|
  ml_Read s := if HasPrefix s "M" then Some demo_entity else None;
  ml_ParseMediaType s := Some (s, []);
  ml_ReadMessage _ := None;
  ml_sha256_hex s := "h" +:+ s;
  ml_VerifySMIME _ := None;
|}.

Example demo_parsed :
  match snd (ParseRFC822WithAccount (W := unit) (H := ascii_runtime) (H0 := demo_zones) (H1 := demo_text) (H2 := demo_mime) None
           (fun w => (w, mkTime 0 UTC)) (fun s => s) "a" "M: x" tt) with
  | Ok (em, _) => map bp_Type (em_TextBody em) = ["text/plain"] /\ map bp_PartID (em_Attachments em) = [Some "2"] /\ em_Preview em = "hello"
  | Err _ => False
  end.
Proof. vm_compute. split_and!; reflexivity. Qed.

(** The limit on the parts counts those with a body only: containers are read
    without a limit. *)
Theorem containers_are_not_counted :
  let empty := mkEntity (fun _ => "multipart/mixed") [] EmptyString (Some []) in
  let root := mkEntity (fun _ => "multipart/mixed") [] EmptyString (Some (replicate 150 empty)) in
  let r := snd (parseMIMEEntity (W := unit) (H := ascii_runtime) (H0 := demo_mime) None Background "a" root MaxMIMENestingDepth (mkMime 0 []) tt) in
  length (bp_SubParts (fst r)) = 150%nat /\ ms_counter (snd r) = 0.
Proof. vm_compute. split; reflexivity. Qed.
