(* ===== verification/EmailSet.v ===== *)
(** * Email/set

    [jmap/jmapmail/email_set_handlers.go]: the checks on an email that is to be
    created, the email built from them, and the method Email/set over the
    writes of a mail backend and a blob store.

    The world [W] holds the two backends, the clock and the source of random
    numbers.  [mail.Address.String] and [mail.ParseAddress] are the class
    [AddressFormat]; [html.UnescapeString] is a parameter. *)

From S2P Require Import Prelude GoSort GoStrings GoRunes GoState Json Envelope CreationRefs Query Handler Server MailTypes ChangeTracker Keywords MailQuery MethodSupport GoTime EmailGet MimeBody MessageId MimeParse.
From Stdlib Require Import Ascii SpecFloat.

Class AddressFormat := {
  af_String : EmailAddress -> string;
  af_ParseAddress : string -> option EmailAddress;
}.

(** What the method uses of the backends and of the system. *)
Record EmailWrites (W : Type) : Type := mkEmailWrites {
  ew_State : Ctx -> W -> string;
  ew_CreateEmail : Ctx -> Email * SMIME -> St W (result go_error Email);
  ew_UpdateEmail : Ctx -> string -> obj -> St W (result go_error json);
  ew_DeleteEmail : Ctx -> string -> St W bool;
  (** [time.Now()], eight random bytes or an error, and the process id *)
  ew_Now : St W Time;
  ew_Random : St W (option Z);
  ew_Pid : Z;
}.
Arguments ew_State {W} _ _ _.
Arguments ew_CreateEmail {W} _ _ _ _.
Arguments ew_UpdateEmail {W} _ _ _ _ _.
Arguments ew_DeleteEmail {W} _ _ _ _.
Arguments ew_Now {W} _ _.
Arguments ew_Random {W} _ _.
Arguments ew_Pid {W} _.
Definition invalid (props : list string) : SetError := property_error "invalidProperties" EmptyString props.
Definition has (m : obj) (k : string) : bool := match obj_get m k with Some _ => true | None => false end.
Definition is_true (v : json) : bool := match v with JBool true => true | _ => false end.
Definition is_list (v : json) : bool := match v with JArr _ => true | _ => false end.
(** ** Body parts of a request *)

Section Parts.
Context `{GoRuntime}.

Definition text_charset (ty : string) : option string := if HasPrefix ty "text/" then Some "us-ascii" else None.
Definition nonempty_str (m : obj) (k : string) : option string :=
  match get_str m k with Some s => if String.eqb s EmptyString then None else Some s | None => None end.
(** The part without its sub-parts. *)
Definition part_of_map (m : obj) (bvs : list (string * EmailBodyValue)) (subs : list EmailBodyPart) : EmailBodyPart :=
  let pid := nonempty_str m "partId" in
  let size := match pid with
              | Some id => match assoc_get bvs id with Some bv => Z.of_nat (slen (bv_Value bv)) | None => 0 end
              | None => 0
              end in
  let size := match get_num m "size" with Some s => f64_to_uint64 s | None => size end in
  let ty := default EmptyString (nonempty_str m "type") in
  let charset := match get_str m "charset" with Some cs => Some cs | None => text_charset ty end in
  mkPart pid (nonempty_str m "blobId") size [] (get_str m "name") ty charset (get_str m "disposition")
    ((fun cid => Trim cid "<>") <$> get_str m "cid") (match get_arr m "language" with Some l => strings_of l | None => [] end)
    (get_str m "location") subs.
(** The first member of the name, with a function on it; it recurs into the
    member where a function on [json] does. *)
Definition on_member {A} (k : string) (f : json -> A) (none : A) : obj -> A :=
  fix go (m : obj) : A := match m with [] => none | (k', v) :: m' => if String.eqb k' k then f v else go m' end.
(** [parseBodyPartFromMap] of the members of an object. *)
Fixpoint parse_body_part (bvs : list (string * EmailBodyValue)) (j : json) : EmailBodyPart :=
  match j with
  | JObj m =>
      part_of_map m bvs
        (on_member "subParts"
           (fun v => match v with
                     | JArr l => (fix go (l : list json) : list EmailBodyPart :=
                                    match l with
                                    | [] => []
                                    | sp :: l' => match sp with JObj _ => parse_body_part bvs sp :: go l' | _ => go l' end
                                    end) l
                     | _ => []
                     end) [] m)
  | _ => part_of_map [] bvs []
  end.
Definition parseBodyPartFromMap (m : obj) (bvs : list (string * EmailBodyValue)) : EmailBodyPart := parse_body_part bvs (JObj m).
End Parts.

(** ** Checks *)

Section Checks.
Context `{GoRuntime} {W : Type}.
Variable order : MapOrder.
Variable blobs : option (BlobStore W).

(** [validateBodyPartTree] for a part without its sub-parts: an error, or the
    blobs that are missing. *)
Definition check_part (c : Ctx) (accountID : string) (m : obj) (path : string) (bodyValues : option obj)
  : St W (result SetError (list string)) :=
  if has m "headers" then mret (Err (invalid [path +:+ "/headers"]))
  else match List.find (fun kv => let k := ToLower (fst kv) in
                                  String.eqb k "header:content-transfer-encoding" || String.eqb k "header:content-type")
                       (range_map order m) with
  | Some (k, _) => mret (Err (invalid [path +:+ "/" +:+ k]))
  | None =>
      if has m "partId" && has m "blobId" then mret (Err (invalid [path +:+ "/partId"; path +:+ "/blobId"]))
      else if has m "partId" && match nonempty_str m "partId" with
                                | Some pID => match bodyValues with
                                              | Some bv => match obj_get bv pID with Some JNull | None => true | Some _ => false end
                                              | None => true
                                              end
                                | None => false
                                end
      then mret (Err (invalid [path +:+ "/partId"]))
      else if has m "partId" && has m "charset" then mret (Err (invalid [path +:+ "/charset"]))
      else if has m "partId" && has m "size" then mret (Err (invalid [path +:+ "/size"]))
      else match nonempty_str m "blobId", blobs with
           | Some bID, Some bb => r ← bs_GetBlob bb c accountID bID; mret (Ok (if r.1 : bool then [] else [bID]))
           | _, _ => mret (Ok [])
           end
  end.
(** [len(subParts) > 0] with a type that is not a container's. *)
Definition bad_container (m : obj) (subParts : list json) : bool :=
  let ty := str_or_empty m "type" in
  match subParts with
  | [] => false
  | _ => negb (String.eqb ty EmptyString) && negb (HasPrefix (ToLower ty) "multipart/")
  end.
Fixpoint check_tree (c : Ctx) (accountID : string) (bodyValues : option obj) (j : json) (path : string)
  : St W (result SetError (list string)) :=
  match j with
  | JObj m =>
      r ← check_part c accountID m path bodyValues;
      match r with
      | Err e => mret (Err e)
      | Ok missing =>
          on_member "subParts"
            (fun v => match v with
                      | JArr l =>
                          if bad_container m l then mret (Err (invalid [path +:+ "/subParts"]))
                          else (fix go (l : list json) (i : Z) (missing : list string) : St W (result SetError (list string)) :=
                                  match l with
                                  | [] => mret (Ok missing)
                                  | sp :: l' =>
                                      match sp with
                                      | JObj _ =>
                                          r ← check_tree c accountID bodyValues sp (path +:+ "/subParts/" +:+ fmt_d i);
                                          match r with Err e => mret (Err e) | Ok more => go l' (i + 1) (missing ++ more) end
                                      | _ => go l' (i + 1) missing
                                      end
                                  end) l 0 missing
                      | _ => mret (Ok missing)
                      end) (mret (Ok missing)) m
      end
  | _ => mret (Ok [])
  end.
Definition validateBodyPartTree (c : Ctx) (accountID : string) (m : obj) (path : string) (bodyValues : option obj)
  : St W (result SetError (list string)) := check_tree c accountID bodyValues (JObj m) path.

(** [convenienceHeaders] *)
Definition convenienceHeaders : list (string * string) :=
  [("subject", "Subject"); ("from", "From"); ("to", "To"); ("cc", "Cc"); ("bcc", "Bcc"); ("replyTo", "Reply-To");
   ("sender", "Sender"); ("messageId", "Message-ID"); ("inReplyTo", "In-Reply-To"); ("references", "References");
   ("sentAt", "Date")].
(** The name and the form of a [header:] member. *)
Definition header_member (k : string) : string * string :=
  match Split (TrimPrefix k "header:") ":" with
  | rawName :: form :: _ => (rawName, form)
  | [rawName] => (rawName, EmptyString)
  | [] => (EmptyString, EmptyString)
  end.
Definition check_header_member (emData : obj) (kv : string * json) : option SetError :=
  let '(k, v) := kv in
  let kLower := ToLower k in
  if HasPrefix kLower "header:content-" then Some (invalid [k])
  else if HasPrefix kLower "header:"
  then
    let '(rawName, form) := header_member k in
    if negb (str_in form ["all"; "asAddresses"; "asMessageIds"; "asURLs"; "asDate"]) && is_list v
    then Some (invalid ["header:" +:+ rawName])
    else if (String.eqb form "asAddresses" && negb (isAddressHeader rawName))
            || (String.eqb form "asMessageIds" && negb (isMessageIdHeader rawName))
            || (String.eqb form "asDate" && negb (isDateHeader rawName))
            || (String.eqb form "asURLs" && negb (isURLHeader rawName))
    then Some (invalid [k])
    else if existsb (fun ch => EqualFold rawName (snd ch) && has emData (fst ch)) convenienceHeaders
    then Some (invalid [k])
    else None
  else None.
Fixpoint first_refusal {A E} (f : A -> option E) (l : list A) : option E :=
  match l with [] => None | x :: l' => match f x with Some e => Some e | None => first_refusal f l' end end.

(** The parts of a list, each with its path; those that are not objects are
    passed over. *)
Fixpoint check_parts (c : Ctx) (accountID key : string) (bodyValues : option obj) (l : list json) (i : Z) (missing : list string)
  : St W (result SetError (list string)) :=
  match l with
  | [] => mret (Ok missing)
  | JObj m :: l' =>
      r ← validateBodyPartTree c accountID m (key +:+ "/" +:+ fmt_d i) bodyValues;
      match r with Err e => mret (Err e) | Ok more => check_parts c accountID key bodyValues l' (i + 1) (missing ++ more) end
  | _ :: l' => check_parts c accountID key bodyValues l' (i + 1) missing
  end.
(** [textBody] and [htmlBody]: one part of the type. *)
Definition check_body (c : Ctx) (accountID key ty : string) (bodyValues : option obj) (emData : obj) (missing : list string)
  : St W (result SetError (list string)) :=
  match get_arr emData key with
  | None => mret (Ok missing)
  | Some [JObj m] =>
      let t := str_or_empty m "type" in
      if negb (String.eqb t EmptyString) && negb (String.eqb t ty) then mret (Err (invalid [key]))
      else check_parts c accountID key bodyValues [JObj m] 0 missing
  | Some [_] => mret (Ok missing)
  | Some _ => mret (Err (invalid [key]))
  end.
Definition check_mailboxes (emData : obj) : option SetError :=
  match get_obj emData "mailboxIds" with
  | None | Some [] => Some (invalid ["mailboxIds"])
  | Some mb => if forallb (fun kv => is_true (snd kv)) mb then None else Some (invalid ["mailboxIds"])
  end.
Definition keyword_set (kw : obj) : bool := forallb (fun kv => is_true (snd kv) && IsValidKeyword (fst kv)) kw.
Definition check_keywords (emData : obj) : option SetError :=
  match obj_get emData "keywords" with
  | None => None
  | Some (JObj kw) => if keyword_set kw then None else Some (invalid ["keywords"])
  | Some _ => Some (invalid ["keywords"])
  end.
Definition flagged_values (bv : obj) : list string :=
  concat (map (fun kv => match snd kv with
                         | JObj v =>
                             let p := "bodyValues/" +:+ fst kv in
                             (if bool_or_false v "isTruncated" then [p +:+ "/isTruncated"] else [])
                             ++ (if bool_or_false v "isEncodingProblem" then [p +:+ "/isEncodingProblem"] else [])
                         | _ => []
                         end) (range_map order bv)).
Definition conflicts (emData : obj) : list string := List.filter (has emData) ["textBody"; "htmlBody"; "attachments"].

(** The checks of the bodies: an error or the missing blobs. *)
Definition check_bodies (c : Ctx) (accountID : string) (emData : obj) : St W (result SetError (list string)) :=
  let bvMap := get_obj emData "bodyValues" in
  r ← (if negb (has emData "bodyStructure") then mret (Ok [])
       else match conflicts emData with
            | _ :: _ as l => mret (Err (invalid l))
            | [] => match get_obj emData "bodyStructure" with
                    | Some bs => validateBodyPartTree c accountID bs "bodyStructure" bvMap
                    | None => mret (Ok [])
                    end
            end);
  match r with
  | Err e => mret (Err e)
  | Ok missing =>
      r ← check_body c accountID "textBody" "text/plain" bvMap emData missing;
      match r with
      | Err e => mret (Err e)
      | Ok missing =>
          r ← check_body c accountID "htmlBody" "text/html" bvMap emData missing;
          match r with
          | Err e => mret (Err e)
          | Ok missing => match get_arr emData "attachments" with
                          | Some l => check_parts c accountID "attachments" bvMap l 0 missing
                          | None => mret (Ok missing)
                          end
          end
      end
  end.
(** [None]: the data are acceptable. *)
Definition validateEmailCreateData (c : Ctx) (accountID : string) (emData : obj) : St W (option SetError) :=
  match check_mailboxes emData with
  | Some e => mret (Some e)
  | None =>
      match check_keywords emData with
      | Some e => mret (Some e)
      | None =>
          if has emData "headers" then mret (Some (invalid ["headers"]))
          else match first_refusal (check_header_member emData) (range_map order emData) with
               | Some e => mret (Some e)
               | None =>
                   r ← check_bodies c accountID emData;
                   mret (match r with
                         | Err e => Some e
                         | Ok ((_ :: _) as missing) => Some (mkSetError "blobNotFound" EmptyString [] missing EmptyString None None [])
                         | Ok [] => match get_obj emData "bodyValues" with
                                    | Some bv => match flagged_values bv with [] => None | l => Some (invalid l) end
                                    | None => None
                                    end
                         end)
               end
      end
  end.
End Checks.

(** ** Building an email *)

(** The members of an email that header properties may fill in. *)
Record hdr_acc : Type := mkHdr {
  ha_Headers : list EmailHeader; ha_From : list EmailAddress; ha_To : list EmailAddress; ha_CC : list EmailAddress;
  ha_BCC : list EmailAddress; ha_Subject : string; ha_MessageID : list string;
}.

(** [t.UTC().Format("Mon, 02 Jan 2006 15:04:05 -0700")] *)
Definition weekdays : list string := ["Sun"; "Mon"; "Tue"; "Wed"; "Thu"; "Fri"; "Sat"].
Definition months : list string := ["Jan"; "Feb"; "Mar"; "Apr"; "May"; "Jun"; "Jul"; "Aug"; "Sep"; "Oct"; "Nov"; "Dec"].
Definition format_mail_date (t : Time) : string :=
  let s := unix_of t in
  let '(y, m, d) := date_of_days (s / day_seconds) in
  let r := s mod day_seconds in
  nth (Z.to_nat ((s / day_seconds + 4) mod 7)) weekdays EmptyString +:+ ", " +:+ pad 2 d +:+ " "
  +:+ nth (Z.to_nat (m - 1)) months EmptyString +:+ " " +:+ pad 4 y +:+ " " +:+ pad 2 (r / 3600) +:+ ":" +:+ pad 2 (r / 60 mod 60)
  +:+ ":" +:+ pad 2 (r mod 60) +:+ " +0000".

Section Headers.
Context `{GoRuntime} `{TimeZones} `{MailText} `{AddressFormat}.
Variable order : MapOrder.

Definition parseAddresses (emData : obj) (key : string) : list EmailAddress :=
  match get_arr emData key with
  | Some l => omap (fun item => match item with
                                | JObj m => let email := str_or_empty m "email" in
                                            if String.eqb email EmptyString then None
                                            else Some (mkAddress (str_or_empty m "name") email)
                                | _ => None
                                end) l
  | None => []
  end.
Definition ids_of (emData : obj) (key cutset : string) : list string :=
  match get_arr emData key with
  | Some l => map (fun s => Trim s cutset) (List.filter (fun s => negb (String.eqb s EmptyString)) (strings_of l))
  | None => []
  end.
Definition formatAddresses (l : list json) : string :=
  Join (omap (fun item => match item with
                          | JObj m => let email := str_or_empty m "email" in
                                      if String.eqb email EmptyString then None
                                      else Some (af_String (mkAddress (str_or_empty m "name") email))
                          | _ => None
                          end) l) ", ".
Definition parseEmailAddressesFromString (s : string) : list EmailAddress :=
  match mt_ParseAddressList s with
  | Some l => l
  | None => match af_ParseAddress s with Some a => [a] | None => [] end
  end.
(** The text of a header member of a form other than [all]. *)
Definition header_text_of (form : string) (v : json) : string :=
  if String.eqb form "asAddresses" then match v with JArr l => formatAddresses l | _ => EmptyString end
  else if String.eqb form "asMessageIds"
  then match v with JArr l => Join (map (fun s => "<" +:+ Trim s "<> " +:+ ">") (strings_of l)) " " | _ => EmptyString end
  else if String.eqb form "asDate"
  then match v with JStr s => match Parse RFC3339 s with Some t => format_mail_date t | None => s end | _ => EmptyString end
  else if String.eqb form "asURLs"
  then match v with JArr l => Join (map (fun s => "<" +:+ s +:+ ">") (strings_of l)) ("," +:+ line_break +:+ " ") | _ => EmptyString end
  else fmt_v v.
Definition fill (rawName name valStr : string) (old : list EmailAddress) : list EmailAddress :=
  match old with
  | [] => if EqualFold rawName name then parseEmailAddressesFromString valStr else []
  | _ => old
  end.
Definition process_header (a : hdr_acc) (kv : string * json) : hdr_acc :=
  let '(k, v) := kv in
  if negb (HasPrefix (ToLower k) "header:") then a
  else
    let '(rawName, form) := header_member k in
    if String.eqb form "all"
    then match v with
         | JArr l => mkHdr (ha_Headers a ++ map (fun item => mkHeader rawName (fmt_v item)) l) (ha_From a) (ha_To a) (ha_CC a)
                       (ha_BCC a) (ha_Subject a) (ha_MessageID a)
         | _ => a
         end
    else
      let valStr := header_text_of form v in
      mkHdr (ha_Headers a ++ [mkHeader rawName valStr]) (fill rawName "from" valStr (ha_From a)) (fill rawName "to" valStr (ha_To a))
        (fill rawName "cc" valStr (ha_CC a)) (fill rawName "bcc" valStr (ha_BCC a))
        (if String.eqb (ha_Subject a) EmptyString && EqualFold rawName "subject" then valStr else ha_Subject a)
        (match ha_MessageID a with
         | [] => if EqualFold rawName "message-id" then [Trim valStr "<> "] else []
         | l => l
         end).
Definition processHeaders (a : hdr_acc) (m : obj) : hdr_acc := foldl process_header a (range_map order m).
Definition objects_of (l : option (list json)) : list obj :=
  match l with Some l => omap (fun j => match j with JObj m => Some m | _ => None end) l | None => [] end.
Definition process_all (emData : obj) (a : hdr_acc) : hdr_acc :=
  foldl processHeaders a
    (emData :: objects_of (get_arr emData "textBody") ++ objects_of (get_arr emData "htmlBody")
     ++ match get_obj emData "bodyStructure" with Some bs => [bs] | None => [] end).
End Headers.

(** What the walk over the parts keeps: the part counter, the size and the
    body values. *)
Record walk_state : Type := mkWalk { ws_counter : Z; ws_total : Z; ws_values : list (string * EmailBodyValue) }.
Definition u64 (z : Z) : Z := z mod 2 ^ 64.

Section Build.
Context `{GoRuntime} `{TimeZones} `{MailText} `{AddressFormat} `{AddressText} {W : Type}.
Variable order : MapOrder.
Variable blobs : option (BlobStore W).
Variable b : EmailWrites W.
Variable UnescapeString : string -> string.

Definition put_blob (c : Ctx) (accountID id data : string) : St W unit :=
  match blobs with Some bb => bs_PutBlob bb c accountID id data | None => mret tt end.
Definition get_blob (c : Ctx) (accountID id : string) : St W (option (bool * option string)) :=
  match blobs with Some bb => r ← bs_GetBlob bb c accountID id; mret (Some r) | None => mret None end.

Definition populatePartBlob (c : Ctx) (accountID : string) (p : EmailBodyPart) (a : walk_state) : St W (EmailBodyPart * walk_state) :=
  let '(mkPart pid blob size headers name ty charset disposition cid language location subs) := p in
  let ty := if String.eqb ty EmptyString then "text/plain" else ty in
  let charset := match charset with Some cs => Some cs | None => text_charset ty end in
  let '(id, counter) := match pid with Some id => (id, ws_counter a) | None => (fmt_d (ws_counter a), ws_counter a + 1) end in
  let result size blob values :=
    (mkPart (Some id) (Some blob) size headers name ty charset disposition cid language location subs,
     mkWalk counter (u64 (ws_total a + size)) values) in
  match blob with
  | Some bID =>
      r ← get_blob c accountID bID;
      mret (match r with
            | Some (true, Some data) =>
                result (if size =? 0 then Z.of_nat (slen data) else size) bID
                  (assoc_set (ws_values a) id (mkBodyValue data false false))
            | _ => result size bID (ws_values a)
            end)
  | None =>
      let '(data, size) := match assoc_get (ws_values a) id with
                           | Some bv => (bv_Value bv, Z.of_nat (slen (bv_Value bv)))
                           | None => (EmptyString, size)
                           end in
      now ← ew_Now b;
      let bID := "blob-" +:+ fmt_d (t_ns now) +:+ "-" +:+ fmt_d (Z.of_nat (slen data)) in
      _ ← (if String.eqb data EmptyString then mret tt else put_blob c accountID bID data);
      mret (result size bID (ws_values a))
  end.
(** A loop that changes each element of a list and passes a value on. *)
Definition map_state {A B S} (f : A -> S -> St W (B * S)) : list A -> S -> St W (list B * S) :=
  fix go (l : list A) (s : S) : St W (list B * S) :=
    match l with
    | [] => mret ([], s)
    | x :: l' => r ← f x s; rs ← go l' (snd r); mret (fst r :: fst rs, snd rs)
    end.
Fixpoint walkAndPopulate (c : Ctx) (accountID : string) (p : EmailBodyPart) (a : walk_state) : St W (EmailBodyPart * walk_state) :=
  let '(mkPart pid blob size headers name ty charset disposition cid language location subs) := p in
  match subs with
  | [] => populatePartBlob c accountID p a
  | _ =>
      r ← map_state (walkAndPopulate c accountID) subs a;
      mret (mkPart pid blob size headers name ty charset disposition cid language location (fst r), snd r)
  end.
Definition with_type (p : EmailBodyPart) (ty : string) : EmailBodyPart :=
  let '(mkPart pid blob size headers name t charset disposition cid language location subs) := p in
  mkPart pid blob size headers name (if String.eqb t EmptyString then ty else t) charset disposition cid language location subs.
(** The parts of [textBody], [htmlBody] or [attachments]. *)
Definition populate_parts (c : Ctx) (accountID ty : string) : list obj -> walk_state -> St W (list EmailBodyPart * walk_state) :=
  map_state (fun m a => populatePartBlob c accountID (with_type (parseBodyPartFromMap m (ws_values a)) ty) a).
Definition container (ty : string) (subs : list EmailBodyPart) : EmailBodyPart :=
  mkPart None None 0 [] None ty None None None [] None subs.
Definition no_part : EmailBodyPart := container EmptyString [].
Definition built_structure (text html atts : list EmailBodyPart) : EmailBodyPart :=
  let mixed p := match atts with [] => p | _ => container "multipart/mixed" (p :: atts) end in
  match text, html, atts with
  | t :: _, h :: _, _ => mixed (container "multipart/alternative" [t; h])
  | t :: _, [], _ => mixed t
  | [], h :: _, _ => mixed h
  | [], [], x :: _ => x
  | [], [], [] => no_part
  end.
(** The structure, the text and HTML bodies and the attachments. *)
Definition build_bodies (c : Ctx) (accountID : string) (emData : obj) (a : walk_state)
  : St W (EmailBodyPart * list EmailBodyPart * list EmailBodyPart * list EmailBodyPart * walk_state) :=
  match get_obj emData "bodyStructure" with
  | Some bs =>
      let p := parseBodyPartFromMap bs (ws_values a) in
      let p := with_type p (match bp_SubParts p with [] => "text/plain" | _ => "multipart/mixed" end) in
      r ← walkAndPopulate c accountID p a;
      let '(tb, hb, atts) := ExtractBodyStructureParts (fst r) in
      mret (fst r, tb, hb, atts, snd r)
  | None =>
      t ← populate_parts c accountID "text/plain" (objects_of (get_arr emData "textBody")) a;
      h ← populate_parts c accountID "text/html" (objects_of (get_arr emData "htmlBody")) (snd t);
      x ← populate_parts c accountID EmptyString (objects_of (get_arr emData "attachments")) (snd h);
      mret (built_structure (fst t) (fst h) (fst x), fst t, fst h, fst x, snd x)
  end.
Definition total_size (total : Z) (values : list (string * EmailBodyValue)) : Z :=
  let total := if total =? 0 then foldl (fun t kv => u64 (t + Z.of_nat (slen (bv_Value (snd kv))))) total values else total in
  if total =? 0 then 100 else u64 (total + 100).
(** The sender a message id is made from. *)
Definition id_sender (c : Ctx) (from sender : list EmailAddress) : string :=
  match head from with
  | Some a => if String.eqb (ea_Email a) EmptyString then
                match head sender with
                | Some s => if String.eqb (ea_Email s) EmptyString then fst (SubjectFromContext c) else ea_Email s
                | None => fst (SubjectFromContext c)
                end
              else ea_Email a
  | None => match head sender with
            | Some s => if String.eqb (ea_Email s) EmptyString then fst (SubjectFromContext c) else ea_Email s
            | None => fst (SubjectFromContext c)
            end
  end.
Definition message_ids (c : Ctx) (ids : list string) (from sender : list EmailAddress) : St W (list string) :=
  match ids with
  | _ :: _ => mret ids
  | [] =>
      now ← ew_Now b;
      random ← ew_Random b;
      mret [GenerateMessageID (t_ns now) random (ew_Pid b) (id_sender c from sender)]
  end.
Definition given_values (emData : obj) : list (string * EmailBodyValue) :=
  match get_obj emData "bodyValues" with
  | Some m => omap (fun kv => match snd kv with
                              | JObj bv => Some (fst kv, mkBodyValue (str_or_empty bv "value") false false)
                              | _ => None
                              end) m
  | None => []
  end.
Definition given_keywords (emData : obj) : list (string * bool) :=
  match get_obj emData "keywords" with
  | Some kw => foldl (fun acc kv => match snd kv with JBool v => assoc_set acc (ToLower (fst kv)) v | _ => acc end) []
                 (range_map order kw)
  | None => []
  end.
Definition or_now (s : string) : St W string :=
  if String.eqb s EmptyString then now ← ew_Now b; mret (Format_UTC now) else mret s.

(** The callback of the create loop up to the call of the backend. *)
Definition build_email (c : Ctx) (accountID : string) (emData : obj) : St W (result SetError Email) :=
  err ← validateEmailCreateData order blobs c accountID emData;
  match err with
  | Some e => mret (Err e)
  | None =>
      receivedAt ← or_now (str_or_empty emData "receivedAt");
      sentAt ← or_now (str_or_empty emData "sentAt");
      let h := process_all order emData
                 (mkHdr [] (parseAddresses emData "from") (parseAddresses emData "to") (parseAddresses emData "cc")
                    (parseAddresses emData "bcc") (str_or_empty emData "subject") (ids_of emData "messageId" "<> ")) in
      let sender := parseAddresses emData "sender" in
      messageID ← message_ids c (ha_MessageID h) (ha_From h) sender;
      r ← build_bodies c accountID emData (mkWalk 1 0 (given_values emData));
      let '(structure, text, html, atts, a) := r in
      let text' := or_else text html in
      let html' := or_else html text in
      let size := total_size (ws_total a) (ws_values a) in
      let blobID := str_or_empty emData "blobId" in
      found ← (if String.eqb blobID EmptyString then mret None else get_blob c accountID blobID);
      _ ← (match found with
           | Some (false, _) => put_blob c accountID blobID (str_of (replicate (Z.to_nat size) "000"%char))
           | _ => mret tt
           end);
      mret (Ok (mkEmail EmptyString blobID EmptyString
                  (match get_obj emData "mailboxIds" with Some m => map (fun kv => (fst kv, true)) m | None => [] end)
                  (given_keywords emData) size receivedAt messageID (ids_of emData "inReplyTo" "<>") (ids_of emData "references" "<>")
                  sender (ha_From h) (ha_To h) (ha_CC h) (ha_BCC h) (parseAddresses emData "replyTo") (ha_Subject h) (Some sentAt)
                  (ha_Headers h) structure (ws_values a) text' html' atts
                  (negb (match atts with [] => true | _ => false end)) (preview_of UnescapeString text' html' (ws_values a))))
  end.
End Build.

(** ** The method *)

Section Method.
Context `{GoRuntime} `{TimeZones} `{MailText} `{AddressFormat} `{AddressText} {W : Type}.
Variable order : MapOrder.
Variable blobs : option (BlobStore W).
Variable b : EmailWrites W.
Variable UnescapeString : string -> string.

Definition created_json (em : Email) : json :=
  JObj [("id", JStr (em_ID em)); ("blobId", JStr (em_BlobID em)); ("threadId", JStr (em_ThreadID em)); ("size", jint (em_Size em))].
Definition create_email (c : Ctx) (accountID : string) (clientKey : string) (emData : obj)
  : St W (result create_error (string * json)) :=
  r ← build_email order blobs b UnescapeString c accountID emData;
  match r with
  | Err e => mret (Err (ESet e))
  | Ok em =>
      r ← ew_CreateEmail b c (em, no_smime);
      mret (match r with
            | Err e => Err (create_error_of e)
            | Ok created => Ok (em_ID created, created_json created)
            end)
  end.
Definition check_patch_member (kv : string * json) : option SetError :=
  let '(k, v) := kv in
  if String.eqb k "mailboxIds"
  then match v with
       | JObj ((_ :: _) as mb) => if forallb (fun kv => is_true (snd kv)) mb then None else Some (invalid ["mailboxIds"])
       | _ => Some (invalid ["mailboxIds"])
       end
  else if String.eqb k "keywords"
  then match v with
       | JObj kw => if keyword_set kw then None else Some (invalid ["keywords"])
       | _ => Some (invalid ["keywords"])
       end
  else if HasPrefix k "keywords/" && negb (IsValidKeyword (TrimPrefix k "keywords/")) then Some (invalid [k])
  else None.
Definition update_email (c : Ctx) (refs : refmap) (acc : set_acc) (kv : string * json) : St (HState W) set_acc :=
  let '(idStr, patchRaw) := kv in
  match patchRaw with
  | JObj rawPatch =>
      let patch := ResolvePatchCreationRefs rawPatch refs in
      let resolvedID := ResolveCreationID idStr refs in
      match first_refusal check_patch_member (range_map order patch) with
      | Some e => mret (acc_failed acc resolvedID e)
      | None =>
          r ← back (ew_UpdateEmail b c resolvedID patch);
          mret (match r with
                | Err (GSetError e) => acc_failed acc resolvedID e
                | Err e => acc_failed acc resolvedID (set_error "notFound" (err_Error e))
                | Ok em => acc_done acc resolvedID em
                end)
      end
  | _ => mret acc
  end.
Definition destroy_email (c : Ctx) (refs : refmap) (acc : destroy_acc) (idStr : string) : St (HState W) destroy_acc :=
  let resolvedID := ResolveCreationID idStr refs in
  ok ← back (ew_DeleteEmail b c resolvedID);
  mret (if ok : bool then destroy_done acc resolvedID
        else destroy_failed acc resolvedID (set_error "notFound" ("email not found: " +:+ resolvedID))).
Definition HandleEmailSet : BackendHandler W := fun c args =>
  let accountID := str_or_empty args "accountId" in
  oldState ← gets (fun s => ew_State b c (fst s));
  if state_mismatch args "ifInState" oldState
  then mret ("error", MethodErrorArgs "stateMismatch"
                        ("state token " +:+ fmt_q (str_or_empty args "ifInState") +:+ " does not match current state " +:+ fmt_q oldState))
  else
    refs ← new_refs;
    r ← run_creates order (create_email c accountID) args refs;
    let '(refs, created, notCreated) := r in
    u ← range_obj order (get_obj args "update") (update_email c refs) (mkAcc [] []);
    d ← range_strings (get_arr args "destroy") (destroy_email c refs) (mkDestroy [] []);
    newState ← gets (fun s => ew_State b c (fst s));
    mret ("Email/set",
          [("accountId", JStr accountID); ("oldState", JStr oldState); ("newState", JStr newState);
           ("created", NilIfEmpty (JObj created)); ("updated", NilIfEmpty (JObj (sa_done u)));
           ("notUpdated", NilIfEmpty (JObj (sa_failed u))); ("notCreated", NilIfEmpty (JObj notCreated));
           ("destroyed", NilIfEmpty (jstrs (da_destroyed d))); ("notDestroyed", NilIfEmpty (JObj (da_failed d)))]).
End Method.

(** ** What reaches the backend *)

(** A part that can be addressed: it has a part id, a blob id and a type. *)
Definition addressed (p : EmailBodyPart) : bool :=
  let '(mkPart pid blob _ _ _ ty _ _ _ _ _ _) := p in
  bool_decide (is_Some pid) && bool_decide (is_Some blob) && negb (String.eqb ty EmptyString).

Section Trees.
Context `{GoRuntime}.

(** Only a container, or a part without a type, has sub-parts. *)
Definition may_contain (p : EmailBodyPart) : bool := String.eqb (bp_Type p) EmptyString || is_multipart p.
Fixpoint tree_ok (p : EmailBodyPart) : bool :=
  let '(mkPart _ _ _ _ _ _ _ _ _ _ _ subs) := p in
  match subs with [] => true | _ => may_contain p && forallb tree_ok subs end.
(** Every leaf is addressed. *)
Fixpoint settled (p : EmailBodyPart) : bool :=
  let '(mkPart _ _ _ _ _ _ _ _ _ _ _ subs) := p in
  match subs with [] => addressed p | _ => may_contain p && forallb settled subs end.

Lemma forallb_elem {A} (f : A -> bool) l x : forallb f l = true -> x ∈ l -> f x = true.
Proof. rewrite forallb_forall. intros Hf Hx. apply Hf. by apply list_elem_of_In. Qed.

(** Of a tree whose leaves are addressed, addressed parts are extracted. *)
Lemma extract_addressed target wanted p q :
  wanted EmptyString = false -> settled p = true -> q ∈ extract_body target wanted p -> addressed q = true.
Proof.
  intros Hw. revert p. refine (part_nested_ind _ _). intros i b n h nm ty cs d cid lang loc subs IH Hs Hq.
  set (p := mkPart i b n h nm ty cs d cid lang loc subs) in *. rewrite Forall_forall in IH.
  assert (Hsub : forall s, s ∈ subs -> q ∈ extract_body target wanted s -> addressed q = true).
  { intros s Hin Hqs. apply (IH s Hin); [|done]. cbn [settled p] in Hs. destruct subs; [by apply not_elem_of_nil in Hin|].
    apply andb_prop in Hs as [_ Hs]. by apply (forallb_elem _ _ _ Hs). }
  cbn [extract_body p] in Hq. fold p in Hq.
  destruct (EqualFold ty "multipart/alternative").
  { destruct (findAlternativeChild subs target) as [j|]; [|by apply not_elem_of_nil in Hq].
    rewrite list_lookup_fmap in Hq. destruct (subs !! j) as [s|] eqn:Ej; [|by apply not_elem_of_nil in Hq].
    apply list_elem_of_lookup_2 in Ej. by apply (Hsub s). }
  destruct (EqualFold ty "multipart/related").
  { destruct subs as [|s subs']; [by apply not_elem_of_nil in Hq|]. apply (Hsub s); [left|done]. }
  destruct (is_multipart p) eqn:Em.
  { apply in_concat_map in Hq as (s & Hin & Hqs). by apply (Hsub s). }
  destruct (is_attachment p); [by apply not_elem_of_nil in Hq|].
  destruct (wanted ty) eqn:Ew; [|by apply not_elem_of_nil in Hq]. apply list_elem_of_singleton in Hq as ->.
  cbn [settled p] in Hs. fold p in Hs. destruct subs as [|s subs']; [done|]. exfalso. apply andb_prop in Hs as [Hs _].
  unfold may_contain in Hs. rewrite Em, orb_false_r in Hs. apply String.eqb_eq in Hs. change (ty = EmptyString) in Hs. congruence.
Qed.

Lemma wanted_text_empty :
  (EqualFold EmptyString "text/plain" || HasPrefix (ToLower EmptyString) "text/calendar"
   || isInlineMedia EmptyString || EqualFold EmptyString "text/html") = false.
Proof. reflexivity. Qed.
Lemma wanted_html_empty :
  (EqualFold EmptyString "text/html" || isInlineMedia EmptyString || EqualFold EmptyString "text/plain") = false.
Proof. reflexivity. Qed.

Lemma bodies_addressed p :
  settled p = true ->
  let '(text, html, _) := ExtractBodyStructureParts p in
  Forall (fun q => addressed q = true) text /\ Forall (fun q => addressed q = true) html.
Proof.
  intros Hs. unfold ExtractBodyStructureParts.
  assert (Ht : forall q, q ∈ extractTextBody p -> addressed q = true) by (intros q; by apply extract_addressed).
  assert (Hh : forall q, q ∈ extractHTMLBody p -> addressed q = true) by (intros q; by apply extract_addressed).
  rewrite !Forall_forall. unfold or_else. destruct (extractTextBody p), (extractHTMLBody p); auto.
Qed.

Lemma on_member_get {A} k (f : json -> A) none m :
  on_member k f none m = match obj_get m k with Some v => f v | None => none end.
Proof. induction m as [|[k' v] m IH]; simpl; [done|]. by destruct (String.eqb k' k). Qed.

(** The type of a part that is read. *)
Lemma part_of_map_type m bvs subs : bp_Type (part_of_map m bvs subs) = str_or_empty m "type".
Proof.
  unfold part_of_map, str_or_empty, nonempty_str. simpl. destruct (get_str m "type") as [s|]; [|done].
  by destruct (String.eqb_spec s EmptyString) as [->|].
Qed.

(** The sub-parts that are read: those of the list that are objects. *)
Definition parsed_subs (bvs : list (string * EmailBodyValue)) (m : obj) : list EmailBodyPart :=
  map (fun o => parse_body_part bvs (JObj o)) (objects_of (get_arr m "subParts")).
Lemma parse_body_part_eq bvs m : parse_body_part bvs (JObj m) = part_of_map m bvs (parsed_subs bvs m).
Proof.
  cbn [parse_body_part]. f_equal. rewrite on_member_get. unfold parsed_subs, get_arr.
  destruct (obj_get m "subParts") as [[]|]; try done. unfold objects_of.
  induction l as [|j l IH]; [done|]. destruct j; try exact IH. simpl. f_equal. exact IH.
Qed.
End Trees.

(** Steps through a computation: returns, tests and calls whose result does
    not matter. *)
Ltac kstep :=
  match goal with
  | |- ensures _ _ (mret _) => apply ensures_ret
  | |- ensures _ _ (if ?x then _ else _) => destruct x
  | |- ensures _ _ (match ?x with _ => _ end) => destruct x
  | |- ensures _ _ (_ ← _; _) => eapply (ensures_bind _ (fun _ => True)); [solve [eauto with ensures]|intros ? _]
  end.

Section Built.
Context `{GoRuntime} `{TimeZones} `{MailText} `{AddressFormat} `{AddressText} {W : Type}.
Variable order : MapOrder.
Variable blobs : option (BlobStore W).
Variable b : EmailWrites W.
Variable UnescapeString : string -> string.
Variable I : W -> Prop.
(** The calls that do not change an email keep the invariant. *)
Hypothesis Hget : forall bb c a id, blobs = Some bb -> ensures I (fun _ => True) (bs_GetBlob bb c a id).
Hypothesis Hput : forall bb c a id data, blobs = Some bb -> ensures I (fun _ => True) (bs_PutBlob bb c a id data).
Hypothesis Hnow : ensures I (fun _ => True) (ew_Now b).
Hypothesis Hrandom : ensures I (fun _ => True) (ew_Random b).

Lemma ensures_get_blob c a id : ensures I (fun _ => True) (get_blob blobs c a id).
Proof. unfold get_blob. destruct blobs eqn:E; repeat kstep; done. Qed.
Lemma ensures_put_blob c a id data : ensures I (fun _ => True) (put_blob blobs c a id data).
Proof. unfold put_blob. destruct blobs eqn:E; [by apply Hput|repeat kstep; done]. Qed.
Hint Resolve ensures_get_blob ensures_put_blob Hnow Hrandom : ensures.

Lemma ensures_check_part c a m path bv : ensures I (fun _ => True) (check_part order blobs c a m path bv).
Proof.
  unfold check_part. repeat (kstep; try done).
Qed.

Definition ok_tree bvs (j : json) (r : result SetError (list string)) : Prop :=
  match r with Ok _ => tree_ok (parse_body_part bvs j) = true | Err _ => True end.

Lemma check_tree_ok bvs c a bv j : forall path, ensures I (ok_tree bvs j) (check_tree order blobs c a bv j path).
Proof.
  assert (Hall : (forall path, ensures I (ok_tree bvs j) (check_tree order blobs c a bv j path))
    /\ match j with JArr l => Forall (fun j => forall path, ensures I (ok_tree bvs j) (check_tree order blobs c a bv j path)) l | _ => True end);
    [|apply Hall].
  induction j as [| | | |l IH|m IH] using json_ind; (split; [|try done]); try (intros path; by apply ensures_ret).
  { apply Forall_forall. intros x Hx. rewrite Forall_forall in IH. by apply IH. }
  intros path. cbn [check_tree]. eapply ensures_bind; [apply ensures_check_part|]. intros [missing|e] _; [|by kstep].
  rewrite on_member_get. unfold ok_tree. rewrite parse_body_part_eq. unfold parsed_subs, get_arr.
  destruct (obj_get m "subParts") as [v|] eqn:Ev; [|by apply ensures_ret].
  assert (Hv : match v with JArr l => Forall (fun j => forall path, ensures I (ok_tree bvs j) (check_tree order blobs c a bv j path)) l | _ => True end).
  { rewrite Forall_forall in IH. apply obj_get_In, list_elem_of_In in Ev. by apply (IH _ Ev). }
  destruct v as [| | | |l|]; try by apply ensures_ret.
  destruct (bad_container m l) eqn:Eb; [by apply ensures_ret|].
  apply (ensures_mono _ (fun r => match r with
                                | Ok _ => forallb tree_ok (map (fun o => parse_body_part bvs (JObj o)) (objects_of (Some l))) = true
                                | Err _ => True
                                end)).
  - intros [x|]; [|done]. intros Hsubs. unfold part_of_map. cbn [tree_ok]. fold (part_of_map m bvs (map (fun o => parse_body_part bvs (JObj o)) (objects_of (Some l)))).
    destruct (map _ (objects_of (Some l))) as [|s subs] eqn:Es; [done|]. rewrite Hsubs, andb_true_r. rewrite <- Es.
    unfold may_contain, is_multipart. rewrite part_of_map_type. unfold bad_container in Eb. destruct l; [done|].
    destruct (String.eqb (str_or_empty m "type") EmptyString); [done|]. simpl in Eb |- *. by apply negb_false_iff in Eb.
  - clear Eb Ev IH. generalize 0 as i. revert missing. induction Hv as [|j l Hj Hl IHl]; intros missing i; [by apply ensures_ret|].
    destruct j as [| | | | |o]; try apply IHl. eapply ensures_bind; [apply Hj|]. intros [more|e] Hr; [|by kstep].
    eapply ensures_mono; [|apply IHl]. intros [x|]; [|done]. intros Hrest. cbn in Hr |- *. unfold objects_of in Hrest.
    apply andb_true_iff. split; [exact Hr|exact Hrest].
Qed.

Lemma ensures_check_parts c a key bv l i missing : ensures I (fun _ => True) (check_parts order blobs c a key bv l i missing).
Proof.
  revert i missing. induction l as [|j l IH]; intros i missing; cbn [check_parts]; [by kstep|].
  destruct j; try apply IH. eapply ensures_bind; [apply (check_tree_ok [])|]. intros [more|e] _; [apply IH|by kstep].
Qed.
Hint Resolve ensures_check_parts : ensures.

Lemma ensures_check_body c a key ty bv emData missing : ensures I (fun _ => True) (check_body order blobs c a key ty bv emData missing).
Proof.
  unfold check_body. destruct (get_arr emData key) as [[|[] [|]]|]; try by apply ensures_ret.
  kstep; [by kstep|apply ensures_check_parts].
Qed.
Hint Resolve ensures_check_body : ensures.

Definition ok_structure bvs (emData : obj) : Prop :=
  forall bs, get_obj emData "bodyStructure" = Some bs -> tree_ok (parseBodyPartFromMap bs bvs) = true.

Lemma get_obj_has m k o : get_obj m k = Some o -> has m k = true.
Proof. unfold get_obj, has. by destruct (obj_get m k). Qed.

Lemma check_bodies_ok bvs c a emData :
  ensures I (fun r => match r with Ok _ => ok_structure bvs emData | Err _ => True end) (check_bodies order blobs c a emData).
Proof.
  unfold check_bodies. eapply (ensures_bind _ (fun r => match r with Ok _ => ok_structure bvs emData | Err _ => True end)).
  - destruct (has emData "bodyStructure") eqn:Eh; cbn [negb].
    + destruct (conflicts emData); [|by kstep]. unfold ok_structure. destruct (get_obj emData "bodyStructure") as [bs|]; [|by kstep].
      eapply ensures_mono; [|apply (check_tree_ok bvs)]. intros [x|]; [|done]. by intros Ht bs' [= <-].
    + apply ensures_ret. intros bs Hbs%get_obj_has. congruence.
  - intros [missing|e] Hr; [|by kstep]. repeat (kstep; try done).
    eapply ensures_mono; [|apply ensures_check_parts]. by intros [|].
Qed.

Lemma validate_ok bvs c a emData :
  ensures I (fun r => r = None -> check_mailboxes emData = None /\ check_keywords emData = None /\ ok_structure bvs emData)
    (validateEmailCreateData order blobs c a emData).
Proof.
  unfold validateEmailCreateData. destruct (check_mailboxes emData) eqn:Em; [by kstep|]. destruct (check_keywords emData) eqn:Ek; [by kstep|].
  destruct (has emData "headers"); [by kstep|]. destruct (first_refusal _ _); [by kstep|].
  eapply ensures_bind; [apply (check_bodies_ok bvs)|]. intros [[|x l]|e] Hr; apply ensures_ret; try done.
Qed.

Lemma populate_addressed c a p s :
  ensures I (fun r => addressed (fst r) = true /\ bp_SubParts (fst r) = bp_SubParts p) (populatePartBlob blobs b c a p s).
Proof.
  destruct p as [pid blob size headers name ty charset disposition cid language location subs]. cbn [populatePartBlob].
  assert (Hty : negb (String.eqb (if String.eqb ty EmptyString then "text/plain" else ty) EmptyString) = true)
    by (destruct (String.eqb ty EmptyString) eqn:E; [done|by rewrite E]).
  destruct (match pid with Some id => _ | None => _ end) as [id counter].
  destruct blob as [bID|].
  - eapply ensures_bind; [apply ensures_get_blob|]. intros r _. apply ensures_ret. destruct r as [[[] [data|]]|]; (split; [exact Hty|done]).
  - destruct (match assoc_get (ws_values s) id with Some _ => _ | None => _ end) as [data size'].
    kstep. eapply (ensures_bind _ (fun _ => True)); [destruct (String.eqb data EmptyString); [by kstep|apply ensures_put_blob]|].
    intros _ _. apply ensures_ret. split; [exact Hty|done].
Qed.

Lemma map_state_all {A B S} (P : B -> Prop) (f : A -> S -> St W (B * S)) l s :
  Forall (fun x => forall s, ensures I (fun r => P (fst r)) (f x s)) l ->
  ensures I (fun r => length (fst r) = length l /\ Forall P (fst r)) (map_state f l s).
Proof.
  intros Hf. revert s. induction Hf as [|x l Hx Hl IH]; intros s; cbn [map_state]; [by apply ensures_ret|].
  eapply ensures_bind; [by apply Hx|]. intros r Hr. eapply ensures_bind; [apply IH|]. intros rs [Hlen Hrs].
  apply ensures_ret. cbn. split; [lia|by constructor].
Qed.

Lemma walk_settled c a p : forall s, tree_ok p = true -> ensures I (fun r => settled (fst r) = true) (walkAndPopulate blobs b c a p s).
Proof.
  revert p. refine (part_nested_ind _ _). intros i bl n h nm ty cs d cid lang loc subs IH s Ht.
  destruct subs as [|x subs'].
  { eapply ensures_mono; [|apply populate_addressed]. intros [q s'] [Hq Hsub]. cbn [fst] in *. destruct q. cbn in Hsub. by subst. }
  cbn [tree_ok] in Ht. apply andb_prop in Ht as [Hmay Hsubs].
  change (ensures I (fun r => settled (fst r) = true)
    (r ← map_state (walkAndPopulate blobs b c a) (x :: subs') s;
     mret (mkPart i bl n h nm ty cs d cid lang loc (fst r), snd r))).
  eapply ensures_bind; [apply (map_state_all (fun q => settled q = true))|].
  - rewrite Forall_forall in IH |- *. intros y Hy s'. apply IH; [done|]. by apply (forallb_elem _ _ _ Hsubs).
  - intros [ps s'] [Hlen Hps]. apply ensures_ret. cbn [fst] in *.
    destruct ps as [|q ps]; [done|]. cbn [settled]. change (may_contain (mkPart i bl n h nm ty cs d cid lang loc (q :: ps))) with
      (may_contain (mkPart i bl n h nm ty cs d cid lang loc (x :: subs'))). rewrite Hmay. cbn [andb].
    apply forallb_forall. intros z Hz. rewrite Forall_forall in Hps. apply Hps. by apply list_elem_of_In.
Qed.

Lemma populate_parts_addressed c a ty l s :
  ensures I (fun r => Forall (fun q => addressed q = true) (fst r)) (populate_parts blobs b c a ty l s).
Proof.
  eapply ensures_mono; [|apply (map_state_all (fun q => addressed q = true))]; [by intros r [_ Hr]|].
  apply Forall_forall. intros m _ s'. eapply ensures_mono; [|apply populate_addressed]. by intros r [? _].
Qed.

Lemma with_type_tree p :
  tree_ok p = true -> tree_ok (with_type p (match bp_SubParts p with [] => "text/plain" | _ => "multipart/mixed" end)) = true.
Proof.
  destruct p as [i bl n h nm ty cs d cid lang loc [|x subs]]; [done|]. cbn. intros [Hm Hs]%andb_prop. rewrite Hs, andb_true_r.
  destruct (String.eqb_spec ty EmptyString) as [->|]; [done|exact Hm].
Qed.

Definition bodies_ok (r : EmailBodyPart * list EmailBodyPart * list EmailBodyPart * list EmailBodyPart * walk_state) : Prop :=
  let '(_, text, html, _, _) := r in Forall (fun q => addressed q = true) text /\ Forall (fun q => addressed q = true) html.

Lemma build_bodies_ok c a emData s : ok_structure (ws_values s) emData -> ensures I bodies_ok (build_bodies blobs b c a emData s).
Proof.
  intros Hs. unfold build_bodies. destruct (get_obj emData "bodyStructure") as [bs|] eqn:Eb.
  - eapply ensures_bind; [apply walk_settled, with_type_tree; by apply Hs|]. intros r Hr.
    pose proof (bodies_addressed _ Hr) as Hb. destruct (ExtractBodyStructureParts (fst r)) as [[tb hb] atts]. by apply ensures_ret.
  - eapply ensures_bind; [apply populate_parts_addressed|]. intros t Ht. eapply ensures_bind; [apply populate_parts_addressed|]. intros h Hh.
    eapply ensures_bind; [apply populate_parts_addressed|]. intros x _. by apply ensures_ret.
Qed.

(** What an email that is created always has. *)
Record well_formed (em : Email) : Prop := {
  wf_mailboxes : em_MailboxIDs em <> [] /\ Forall (fun kv => snd kv = true) (em_MailboxIDs em);
  wf_keywords : Forall (fun kv => snd kv = true /\ IsValidKeyword (fst kv) = true /\ ToLower (fst kv) = fst kv) (em_Keywords em);
  wf_message_id : em_MessageID em <> [];
  wf_text : Forall (fun p => addressed p = true) (em_TextBody em);
  wf_html : Forall (fun p => addressed p = true) (em_HTMLBody em);
}.

Lemma keyword_byte_lower c : keyword_byte c = true -> keyword_byte (lower_ascii c) = true.
Proof. destruct c as [[] [] [] [] [] [] [] []]; vm_compute; done. Qed.

Lemma lower_keyword k : IsValidKeyword k = true -> IsValidKeyword (ToLower k) = true /\ ToLower (ToLower k) = ToLower k.
Proof.
  intros [Hlen Hk]%valid_keyword_spec. pose proof (graphic_ascii k (keyword_graphic k Hk)) as Ha.
  split; [|by apply ToLower_idem]. rewrite ToLower_ascii by done. apply valid_keyword_spec. split.
  - replace (slen (str_map lower_ascii k)) with (slen k); [done|]. unfold slen. clear. induction k; simpl; congruence.
  - clear -Hk. induction k as [|c k IH]; simpl in *; [done|]. apply andb_prop in Hk as [Hc Hk]. by rewrite keyword_byte_lower, IH.
Qed.

Definition good_keyword (kv : string * bool) : Prop :=
  snd kv = true /\ IsValidKeyword (fst kv) = true /\ ToLower (fst kv) = fst kv.

Lemma assoc_set_Forall {V} (P : string * V -> Prop) m k v : P (k, v) -> Forall P m -> Forall P (assoc_set m k v).
Proof.
  intros Hkv. induction 1 as [|[k' v'] m Hx Hm IH]; simpl; [by constructor|]. destruct (String.eqb k' k); by constructor.
Qed.

Lemma given_keywords_good emData : fair order -> check_keywords emData = None -> Forall good_keyword (given_keywords order emData).
Proof.
  intros [_ Hfair] Hc. unfold given_keywords, check_keywords, get_obj in *.
  destruct (obj_get emData "keywords") as [[| | | | |kw]|]; try by constructor.
  destruct (keyword_set kw) eqn:Ek; [|done]. unfold keyword_set in Ek.
  assert (Hall : Forall (fun kv => is_true (snd kv) && IsValidKeyword (fst kv) = true) (range_map order kw)).
  { apply Forall_forall. intros kv Hin. rewrite Hfair in Hin. by apply (forallb_elem _ _ _ Ek). }
  assert (Hnil : Forall good_keyword []) by constructor. revert Hall Hnil. generalize (@nil (string * bool)).
  induction (range_map order kw) as [|[k v] l IH]; intros acc Hall Hacc; [done|]. apply Forall_cons in Hall as [Hkv Hall].
  cbn [foldl snd fst]. apply IH; [done|]. apply andb_prop in Hkv as [Hv Hk]. destruct v as [|[]| | | |]; try done.
  apply assoc_set_Forall; [|done]. by destruct (lower_keyword _ Hk).
Qed.

Lemma ensures_message_ids c ids from sender : ensures I (fun l => l <> []) (message_ids b c ids from sender).
Proof. unfold message_ids. destruct ids; [|by apply ensures_ret]. kstep. kstep. by apply ensures_ret. Qed.
Lemma ensures_or_now s : ensures I (fun _ => True) (or_now b s).
Proof. unfold or_now. repeat (kstep; try done). Qed.
Hint Resolve ensures_or_now : ensures.

Lemma mailboxes_ok emData m :
  check_mailboxes emData = None -> get_obj emData "mailboxIds" = m ->
  (match m with Some m => map (fun kv => (fst kv, true)) m | None => [] end) <> []
  /\ Forall (fun kv => snd kv = true) (match m with Some m => map (fun kv => (fst kv, true)) m | None => [] end).
Proof.
  unfold check_mailboxes. intros Hc E. rewrite E in Hc. destruct m as [[|kv m]|]; [done| |done]. split; [done|].
  apply Forall_forall. intros x Hx. apply list_elem_of_fmap in Hx as (y & -> & _). done.
Qed.

(** Whatever is asked for, an email is built only from acceptable data, and is
    well-formed. *)
Lemma build_email_ok c a emData :
  fair order ->
  ensures I (fun r => match r with Ok em => well_formed em | Err _ => True end) (build_email order blobs b UnescapeString c a emData).
Proof.
  intros Hfair. unfold build_email. eapply ensures_bind; [apply (validate_ok (given_values emData))|]. intros [e|] Hv; [by kstep|].
  destruct (Hv eq_refl) as (Hm & Hk & Hs). kstep. kstep.
  eapply ensures_bind; [apply ensures_message_ids|]. intros mid Hmid.
  eapply ensures_bind; [by apply build_bodies_ok|]. intros [[[[structure text] html] atts] s] [Ht Hh].
  eapply (ensures_bind _ (fun _ => True)); [kstep; [by kstep|apply ensures_get_blob]|]. intros found _.
  eapply (ensures_bind _ (fun _ => True)); [destruct found as [[[] ?]|]; try (by kstep); apply ensures_put_blob|]. intros _ _.
  apply ensures_ret. split; cbn [em_MailboxIDs em_Keywords em_MessageID em_TextBody em_HTMLBody].
  - by apply (mailboxes_ok emData).
  - by apply given_keywords_good.
  - done.
  - unfold or_else. by destruct text.
  - unfold or_else. by destruct html.
Qed.

(** The patches that are passed on. *)
Definition patch_ok (patch : obj) : Prop := Forall (fun kv => check_patch_member kv = None) patch.

Lemma first_refusal_none {A E} (f : A -> option E) l : first_refusal f l = None <-> Forall (fun x => f x = None) l.
Proof.
  induction l as [|x l IH]; simpl; [by split; [constructor|]|]. rewrite Forall_cons.
  destruct (f x); [split; [done|by intros [? _]]|]. rewrite IH. tauto.
Qed.

(** The rules of a backend: well-formed emails, acceptable patches and any
    deletion keep the invariant. *)
Record email_rules (c : Ctx) : Prop := {
  er_create : forall em, well_formed em -> ensures I (fun _ => True) (ew_CreateEmail b c (em, no_smime));
  er_update : forall id patch, patch_ok patch -> ensures I (fun _ => True) (ew_UpdateEmail b c id patch);
  er_delete : forall id, ensures I (fun _ => True) (ew_DeleteEmail b c id);
}.

Lemma create_email_keeps c a key emData :
  fair order -> email_rules c -> ensures I (fun _ => True) (create_email order blobs b UnescapeString c a key emData).
Proof.
  intros Hfair Hr. unfold create_email. eapply ensures_bind; [by apply build_email_ok|]. intros [em|e] Hem; [|by kstep].
  eapply ensures_bind; [by apply (er_create c Hr)|]. intros r _. by kstep.
Qed.

Lemma update_email_keeps c refs acc kv :
  fair order -> email_rules c -> ensures (fun s : HState W => I (fst s)) (fun _ => True) (update_email order b c refs acc kv).
Proof.
  intros [_ Hfair] Hr. unfold update_email. destruct kv as [idStr [| | | | |rawPatch]]; try by apply ensures_ret.
  destruct (first_refusal _ _) eqn:Ef; [by apply ensures_ret|]. apply first_refusal_none in Ef.
  eapply (ensures_bind _ (fun _ => True)); [|intros r _; by apply ensures_ret].
  intros s Hs. rewrite back_eq. split; [|done]. apply (er_update c Hr); [|done]. unfold patch_ok. by rewrite Hfair in Ef.
Qed.

Lemma destroy_email_keeps c refs acc id :
  email_rules c -> ensures (fun s : HState W => I (fst s)) (fun _ => True) (destroy_email b c refs acc id).
Proof.
  intros Hr. unfold destroy_email. eapply (ensures_bind _ (fun _ => True)); [|intros r _; by apply ensures_ret].
  intros s Hs. rewrite back_eq. split; [|done]. by apply (er_delete c Hr).
Qed.

(** C5: Email/set hands its backend nothing but well-formed emails (at least one
    mailbox, valid lower-case keywords, a message id, and bodies whose parts all
    have a part id, a blob id and a type) and acceptable patches (mailboxes that
    are not empty, valid keywords), whatever the request holds and in whatever
    order its maps are read: an invariant that these keep, and deletions and the
    calls of the blob store, survives the method. *)
Theorem email_set_keeps_store c args w refs :
  fair order -> email_rules c -> I w -> I (fst (fst (HandleEmailSet order blobs b UnescapeString c args (w, refs)))).
Proof.
  intros Hfair Hr Hw. set (J := fun s : HState W => I (fst s)).
  assert (Hk : ensures J (fun _ => True) (HandleEmailSet order blobs b UnescapeString c args)); [|by apply (Hk (w, refs))].
  unfold HandleEmailSet. eapply (ensures_bind _ (fun _ => True)); [by intros s Hs|]. intros oldState _.
  destruct (state_mismatch args "ifInState" oldState); [by apply ensures_ret|].
  eapply (ensures_bind _ (fun _ => True)); [by intros s Hs|]. intros refs0 _.
  eapply (ensures_bind _ (fun _ => True)).
  { intros s Hs. split; [|done]. apply (run_creates_world order _ I); [|done].
    intros w' cid node Hw'. by apply create_email_keeps. }
  intros [[refs1 created] notCreated] _.
  eapply (ensures_bind _ (fun _ => True)).
  { intros s Hs. split; [|done]. apply (range_obj_inv order _ _ _ J); [|done]. intros s' acc kv Hs'. by apply update_email_keeps. }
  intros u _. eapply (ensures_bind _ (fun _ => True)).
  { intros s Hs. split; [|done]. apply (range_strings_inv _ _ _ J); [|done]. intros s' acc id Hs'. by apply destroy_email_keeps. }
  intros d _. eapply (ensures_bind _ (fun _ => True)); [by intros s Hs|]. intros newState _. by apply ensures_ret.
Qed.
End Built.

(** A store of emails in a list, at a fixed time. *)
Definition list_emails : EmailWrites (list Email) :=
  mkEmailWrites _ (fun _ w => fmt_d (Z.of_nat (length w)))
    (fun _ em w => (w ++ [fst em], Ok (fst em))) (fun _ _ _ w => (w, Err ErrNotFound))
    (fun _ id w => (List.filter (fun em => negb (String.eqb (em_ID em) id)) w, true))
    (fun w => (w, mkTime (1709210096 * second) UTC)) (fun w => (w, Some 7)) 1.
Definition plain_format : AddressFormat := {| af_String a := ea_Email a; af_ParseAddress _ := None |}.
Definition demo_create : obj :=
  [("create", JObj [("k", JObj [("mailboxIds", JObj [("inbox", JBool true)]); ("keywords", JObj [("$Seen", JBool true)]);
                                ("textBody", JArr [JObj [("partId", JStr "p")]]);
                                ("bodyValues", JObj [("p", JObj [("value", JStr "hello")])])])])].

Lemma email_set_keeps_store_witness :
  let run := HandleEmailSet (H := ascii_runtime) (H0 := demo_zones) (H1 := demo_text) (H2 := plain_format) (H3 := demo_addresses)
               in_order None list_emails (fun s => s) Background demo_create ([], None) in
  Forall (well_formed (H := ascii_runtime)) (fst (fst run))
  /\ map (fun em => (map fst (em_Keywords em), em_Preview em)) (fst (fst run)) = [(["$seen"], "hello")].
Proof.
  cbv zeta. split; [|vm_compute; reflexivity].
  apply (email_set_keeps_store (H := ascii_runtime) (H0 := demo_zones) (H1 := demo_text) (H2 := plain_format) (H3 := demo_addresses)
    in_order None list_emails (fun s => s) (Forall (well_formed (H := ascii_runtime)))).
  - discriminate.
  - discriminate.
  - intros w Hw. split; [exact Hw|exact I].
  - intros w Hw. split; [exact Hw|exact I].
  - split; reflexivity.
  - split.
    + intros em Hem w Hw. split; [|exact I]. apply Forall_app. split; [exact Hw|]. constructor; [exact Hem|constructor].
    + intros id patch _ w Hw. split; [exact Hw|exact I].
    + intros id w Hw. split; [|exact I]. apply Forall_forall. intros x Hx. apply list_elem_of_In, filter_In in Hx as [Hx _].
      rewrite Forall_forall in Hw. apply Hw. apply list_elem_of_In. exact Hx.
  - constructor.
Defined.

(** A part of the structure that has sub-parts but no type is taken for an
    attachment: it is listed without a part id and a blob id, and its own text
    is in no list. *)
Theorem untyped_container_hides_parts :
  let emData := [("mailboxIds", JObj [("inbox", JBool true)]); ("bodyValues", JObj [("p", JObj [("value", JStr "hello")])]);
                 ("bodyStructure", JObj [("subParts", JArr [JObj [("subParts", JArr [JObj [("partId", JStr "p"); ("type", JStr "text/plain")]])]])])] in
  let r := snd (build_email (H := ascii_runtime) (H0 := demo_zones) (H1 := demo_text) (H2 := plain_format) (H3 := demo_addresses)
                  in_order None list_emails (fun s => s) Background "a" emData []) in
  match r with
  | Ok em => em_TextBody em = [] /\ em_HTMLBody em = [] /\ map bp_PartID (em_Attachments em) = [None]
  | Err _ => False
  end.
Proof. vm_compute. split_and!; reflexivity. Qed.

(** A blob store whose ids are made from the data, as those of the backends
    are: a blob is a content type and its data under that id. *)
Definition content_store : BlobStore (list (string * (string * string))) :=
  mkBlobStore _
    (fun _ _ id w => (w, match assoc_get w id with Some (_, data) => (true, Some data) | None => (false, None) end))
    (fun _ _ contentType data w => (assoc_set w ("hash-" +:+ data) (contentType, data), tt)).
Definition no_emails {W} : EmailWrites W :=
  mkEmailWrites _ (fun _ _ => EmptyString) (fun _ em w => (w, Ok (fst em))) (fun _ _ _ w => (w, Err ErrNotFound)) (fun _ _ w => (w, false))
    (fun w => (w, mkTime (1709210096 * second) UTC)) (fun w => (w, Some 7)) 1.

(** The body of a new part is stored with the part's blob id as its content
    type, and not under that id: the part refers to a blob that does not
    exist. *)
Theorem new_part_blob_is_missing :
  let emData := [("mailboxIds", JObj [("inbox", JBool true)]); ("textBody", JArr [JObj [("partId", JStr "p")]]);
                 ("bodyValues", JObj [("p", JObj [("value", JStr "hello")])])] in
  let '(w, r) := build_email (H := ascii_runtime) (H0 := demo_zones) (H1 := demo_text) (H2 := plain_format) (H3 := demo_addresses)
                   in_order (Some content_store) no_emails (fun s => s) Background "a" emData [] in
  let id := "blob-1709210096000000000-5" in
  match r with
  | Ok em => (fun '(mkPart _ blob _ _ _ _ _ _ _ _ _ _) => blob) <$> head (em_TextBody em) = Some (Some id)
  | Err _ => False
  end
  /\ assoc_get w "hash-hello" = Some (id, "hello")
  /\ snd (bs_GetBlob content_store Background "a" id w) = (false, None).
Proof. vm_compute. split_and!; reflexivity. Qed.
