(* ===== verification/EmailOps.v ===== *)
(** * Copying, importing and parsing emails, and search snippets

    [jmap/jmapmail/email_ops_handlers.go]: Email/copy, Email/import,
    Email/parse, Email/verifySmime and SearchSnippet/get over the reads and the
    writes of a mail backend and a blob store.  A handler that slices a string
    outside its bounds panics, which is [None]. *)

From S2P Require Import Prelude GoSort GoStrings GoRunes GoState Json Envelope CreationRefs Query Handler Server MailTypes ChangeTracker Keywords MailQuery MethodSupport GoTime EmailGet MimeBody MessageId MimeParse EmailSet.
From Stdlib Require Import Ascii SpecFloat.

Definition with_mailboxes (em : Email) (mailboxIDs : list (string * bool)) : Email :=
  mkEmail (em_ID em) (em_BlobID em) (em_ThreadID em) mailboxIDs (em_Keywords em) (em_Size em) (em_ReceivedAt em) (em_MessageID em)
    (em_InReplyTo em) (em_References em) (em_Sender em) (em_From em) (em_To em) (em_CC em) (em_BCC em) (em_ReplyTo em) (em_Subject em)
    (em_SentAt em) (em_Headers em) (em_BodyStructure em) (em_BodyValues em) (em_TextBody em) (em_HTMLBody em) (em_Attachments em)
    (em_HasAttachment em) (em_Preview em).
Definition with_keywords (em : Email) (keywords : list (string * bool)) : Email :=
  mkEmail (em_ID em) (em_BlobID em) (em_ThreadID em) (em_MailboxIDs em) keywords (em_Size em) (em_ReceivedAt em) (em_MessageID em)
    (em_InReplyTo em) (em_References em) (em_Sender em) (em_From em) (em_To em) (em_CC em) (em_BCC em) (em_ReplyTo em) (em_Subject em)
    (em_SentAt em) (em_Headers em) (em_BodyStructure em) (em_BodyValues em) (em_TextBody em) (em_HTMLBody em) (em_Attachments em)
    (em_HasAttachment em) (em_Preview em).
Definition with_received (em : Email) (receivedAt : string) : Email :=
  mkEmail (em_ID em) (em_BlobID em) (em_ThreadID em) (em_MailboxIDs em) (em_Keywords em) (em_Size em) receivedAt (em_MessageID em)
    (em_InReplyTo em) (em_References em) (em_Sender em) (em_From em) (em_To em) (em_CC em) (em_BCC em) (em_ReplyTo em) (em_Subject em)
    (em_SentAt em) (em_Headers em) (em_BodyStructure em) (em_BodyValues em) (em_TextBody em) (em_HTMLBody em) (em_Attachments em)
    (em_HasAttachment em) (em_Preview em).
Definition with_ids (em : Email) (id blobID threadID : string) : Email :=
  mkEmail id blobID threadID (em_MailboxIDs em) (em_Keywords em) (em_Size em) (em_ReceivedAt em) (em_MessageID em)
    (em_InReplyTo em) (em_References em) (em_Sender em) (em_From em) (em_To em) (em_CC em) (em_BCC em) (em_ReplyTo em) (em_Subject em)
    (em_SentAt em) (em_Headers em) (em_BodyStructure em) (em_BodyValues em) (em_TextBody em) (em_HTMLBody em) (em_Attachments em)
    (em_HasAttachment em) (em_Preview em).

Record SmimeVerificationResult : Type := mkVerification {
  sv_Status : string; sv_StatusAt : string; sv_Errors : list string; sv_VerifiedWith : option string;
}.
Definition verification_json (v : SmimeVerificationResult) : json :=
  JObj ([("smimeStatus", JStr (sv_Status v)); ("smimeStatusAt", JStr (sv_StatusAt v))]
        ++ match sv_Errors v with [] => [] | l => [("smimeErrors", jstrs l)] end
        ++ match sv_VerifiedWith v with Some s => [("smimeVerifiedWith", JStr s)] | None => [] end).

(** [strings.Index] *)
Fixpoint Index (s sub : string) : option nat :=
  if HasPrefix s sub then Some 0%nat
  else match s with EmptyString => None | String _ s' => S <$> Index s' sub end.
(** [s[:i] + "<mark>" + s[i:i+n] + "</mark>" + s[i+n:]]; [None] is a panic. *)
Definition mark_at (s : string) (i n : nat) : option string :=
  if (i + n <=? slen s)%nat
  then Some (str_take i s +:+ "<mark>" +:+ str_take n (str_drop i s) +:+ "</mark>" +:+ str_drop (i + n) s)
  else None.

Section Snippets.
Context `{GoRuntime}.

(** The text with its first match marked, if it has one. *)
Definition highlight (text filterText : string) : option (option string) :=
  match Index (ToLower text) (ToLower filterText) with
  | None => Some None
  | Some i => Some <$> mark_at text i (slen filterText)
  end.
Definition snippet_filter (args : obj) : string :=
  match get_obj args "filter" with
  | Some f => match get_str f "text" with Some t => t | None => str_or_empty f "body" end
  | None => EmptyString
  end.
Definition snippet (accountID filterText : string) (em : Email) : option json :=
  let json_of subject preview :=
    JObj [("accountId", JStr accountID); ("emailId", JStr (em_ID em)); ("subject", opt_str subject); ("preview", opt_str preview)] in
  if String.eqb filterText EmptyString then Some (json_of None None)
  else
    subject ← highlight (em_Subject em) filterText;
    preview ← highlight (em_Preview em) filterText;
    Some (json_of subject (str_take 255 <$> preview)).
End Snippets.

Section Ops.
Context `{GoRuntime} `{TimeZones} `{MailText} `{MimeLib} {W : Type}.
Variable order : MapOrder.
Variable blobs : option (BlobStore W).
Variable rd : EmailReads W.
Variable wr : EmailWrites W.
(** The mailboxes of the ids that are not found, or an error. *)
Variable missing_mailboxes : Ctx -> list string -> St W (result go_error (list string)).
Variable verify_smime : Ctx -> list string -> St W (list (string * SmimeVerificationResult) * list string).
Variable UnescapeString : string -> string.

(** ** Email/copy *)

Definition copy_props (emData : obj) : list string :=
  List.filter (fun k => negb (str_in k ["id"; "mailboxIds"; "keywords"; "receivedAt"])) (obj_keys (range_map order emData)).
Definition copy_mailboxes (refs : refmap) (mb : obj) : list (string * bool) :=
  foldl (fun acc kv => match snd kv with JNull => acc | _ => assoc_set acc (ResolveCreationID (fst kv) refs) true end) [] mb.
Definition bool_members (kw : obj) : list (string * bool) :=
  omap (fun kv => match snd kv with JBool v => Some (fst kv, v) | _ => None end) kw.
Definition copied_email (refs : refmap) (emData : obj) (em : Email) : Email :=
  let em := with_ids em EmptyString (em_BlobID em) EmptyString in
  let em := match get_obj emData "mailboxIds" with Some mb => with_mailboxes em (copy_mailboxes refs mb) | None => em end in
  let em := match get_obj emData "keywords" with Some kw => with_keywords em (bool_members kw) | None => em end in
  let receivedAt := str_or_empty emData "receivedAt" in
  if String.eqb receivedAt EmptyString then em else with_received em receivedAt.
Definition copy_email (c srcCtx : Ctx) (acc : copy_acc) (kv : string * json) : St (HState W) copy_acc :=
  let '(clientKey, raw) := kv in
  match raw with
  | JObj emData =>
      let idStr := str_or_empty emData "id" in
      if String.eqb idStr EmptyString then mret (copy_failed acc clientKey (set_error "invalidProperties" "missing id"))
      else match copy_props emData with
           | _ :: _ as l => mret (copy_failed acc clientKey (invalid l))
           | [] =>
               let resolvedID := ResolveCreationID idStr (ca_refs acc) in
               r ← back (er_Get rd srcCtx [resolvedID]);
               match r with
               | ((em, sm) :: _, [], _) =>
                   r ← back (ew_CreateEmail wr c (copied_email (ca_refs acc) emData em, sm));
                   match r with
                   | Err (GSetError e) => mret (copy_failed acc clientKey e)
                   | Err e => mret (copy_failed acc clientKey (set_error "serverFail" (err_Error e)))
                   | Ok created =>
                       refs ← record_ref (ca_refs acc) clientKey (em_ID created);
                       mret (mkCopy refs (obj_set (ca_created acc) clientKey (created_json created)) (ca_notCreated acc)
                               (ca_originals acc ++ [resolvedID]))
                   end
               | _ => mret (copy_failed acc clientKey (set_error "notFound" "email not found"))
               end
           end
  | _ => mret (copy_failed acc clientKey (set_error "invalidProperties" "invalid create entry"))
  end.
Definition HandleEmailCopy : BackendHandler W := fun c args =>
  let '(accountID, fromAccountID) := ResolveCopyAccountIDs args in
  let srcCtx := SourceAccountContext c args in
  checked ← gets (fun s => let st c := er_State rd c (fst s) in ValidateCopyStates c srcCtx args st st);
  match checked with
  | Err e => mret e
  | Ok oldState =>
      refs ← new_refs;
      a ← range_obj order (get_obj args "create") (copy_email c srcCtx) (mkCopy refs [] [] []);
      _ ← (if bool_or_false args "onSuccessDestroyOriginal"
           then fold_state (fun _ srcID => _ ← back (ew_DeleteEmail wr srcCtx srcID); mret tt) tt (ca_originals a)
           else mret tt);
      newState ← gets (fun s => er_State rd c (fst s));
      mret ("Email/copy",
            [("fromAccountId", JStr fromAccountID); ("accountId", JStr accountID); ("oldState", JStr oldState);
             ("newState", JStr newState); ("created", NilIfEmpty (JObj (ca_created a)));
             ("notCreated", NilIfEmpty (JObj (ca_notCreated a)))])
  end.

(** ** Email/import *)

Definition missing_props (emData : obj) : list string :=
  (match nonempty_str emData "blobId" with Some _ => [] | None => ["blobId"] end)
  ++ (match get_obj emData "mailboxIds" with Some (_ :: _) => [] | _ => ["mailboxIds"] end).
(** The keywords of an import: [None] when none are given. *)
Definition import_keywords (emData : obj) : result SetError (option (list (string * bool))) :=
  match get_present emData "keywords" with
  | None => Ok None
  | Some (JObj kw) =>
      if forallb (fun kv => match snd kv with JBool _ => IsValidKeyword (fst kv) | _ => false end) kw
      then Ok (Some (bool_members kw)) else Err (invalid ["keywords"])
  | Some _ => Err (invalid ["keywords"])
  end.
Definition import_received (emData : obj) : result SetError string :=
  match get_present emData "receivedAt" with
  | None => Ok EmptyString
  | Some (JStr s) => if String.eqb s EmptyString then Err (invalid ["receivedAt"])
                     else match Parse RFC3339 s with Some _ => Ok s | None => Err (invalid ["receivedAt"]) end
  | Some _ => Err (invalid ["receivedAt"])
  end.
Definition import_blob (c : Ctx) (accountID blobID : string) : St W (option string) :=
  match blobs with
  | Some bb => r ← bs_GetBlob bb c accountID blobID; mret (match r with (true, Some data) => Some data | _ => None end)
  | None => mret None
  end.
Definition resolved_mailboxes (refs : refmap) (mb : obj) : list string := map (fun kv => ResolveCreationID (fst kv) refs) mb.
Definition imported_email (em : Email) (blobID : string) (mailboxes : list string) (kw : option (list (string * bool))) (received : string)
  : Email :=
  let em := with_ids em (em_ID em) blobID (em_ThreadID em) in
  let em := with_mailboxes em (foldl (fun acc id => assoc_set acc id true) [] mailboxes) in
  let em := match kw with Some kw => with_keywords em kw | None => em end in
  if String.eqb received EmptyString then em else with_received em received.
(** The email of an import up to the call of the backend. *)
Definition build_import (c : Ctx) (accountID : string) (refs : refmap) (emData : obj) : St W (result SetError (Email * SMIME)) :=
  match missing_props emData with
  | _ :: _ as l => mret (Err (invalid l))
  | [] =>
      let blobID := ResolveCreationID (str_or_empty emData "blobId") refs in
      let mailboxes := resolved_mailboxes refs (range_map order (default [] (get_obj emData "mailboxIds"))) in
      r ← missing_mailboxes c mailboxes;
      match r with
      | Ok [] =>
          match import_keywords emData with
          | Err e => mret (Err e)
          | Ok kw =>
              match import_received emData with
              | Err e => mret (Err e)
              | Ok received =>
                  data ← import_blob c accountID blobID;
                  match data with
                  | None => mret (Err (invalid ["blobId"]))
                  | Some data =>
                      r ← ParseRFC822WithAccount blobs (ew_Now wr) UnescapeString accountID data;
                      mret (match r with
                            | Err e => Err (set_error "invalidEmail" ("invalid email: " +:+ e))
                            | Ok (em, sm) => Ok (imported_email em blobID mailboxes kw received, sm)
                            end)
                  end
              end
          end
      | _ => mret (Err (invalid ["mailboxIds"]))
      end
  end.
Definition import_email (c : Ctx) (accountID : string) (acc : copy_acc) (kv : string * json) : St (HState W) copy_acc :=
  let '(clientKey, raw) := kv in
  match raw with
  | JObj emData =>
      r ← back (build_import c accountID (ca_refs acc) emData);
      match r with
      | Err e => mret (copy_failed acc clientKey e)
      | Ok em =>
          r ← back (ew_CreateEmail wr c em);
          match r with
          | Err (GSetError e) => mret (copy_failed acc clientKey e)
          | Err e => mret (copy_failed acc clientKey (set_error "invalidProperties" (err_Error e)))
          | Ok created =>
              refs ← record_ref (ca_refs acc) clientKey (em_ID created);
              mret (mkCopy refs (obj_set (ca_created acc) clientKey (created_json created)) (ca_notCreated acc) (ca_originals acc))
          end
      end
  | _ => mret (copy_failed acc clientKey (set_error "invalidProperties" EmptyString))
  end.
Definition import_argument (args : obj) : option json :=
  match obj_get args "emails" with Some v => Some v | None => obj_get args "create" end.
Definition HandleEmailImport : BackendHandler W := fun c args =>
  match import_argument args with
  | Some (JObj emailsMap) =>
      let accountID := str_or_empty args "accountId" in
      oldState ← gets (fun s => er_State rd c (fst s));
      if match get_str args "ifInState" with Some s => negb (String.eqb s oldState) | None => false end
      then mret ("error", [("type", JStr "stateMismatch")])
      else
        refs ← new_refs;
        a ← range_obj order (Some emailsMap) (import_email c accountID) (mkCopy refs [] [] []);
        newState ← gets (fun s => er_State rd c (fst s));
        mret ("Email/import",
              [("accountId", JStr accountID); ("oldState", JStr oldState); ("newState", JStr newState);
               ("created", NilIfEmpty (JObj (ca_created a))); ("notCreated", NilIfEmpty (JObj (ca_notCreated a)))])
  | _ => mret ("error", [("type", JStr "invalidArguments"); ("arguments", jstrs ["emails"])])
  end.

(** ** Email/parse *)

Definition parse_header_props_loose (props : list string) : list ParsedHeaderProperty :=
  omap (fun p => if HasPrefix p "header:" then match ParseHeaderProperty p with Ok hp => Some hp | Err _ => None end else None) props.
Definition metadata : list string := ["id"; "threadId"; "mailboxIds"; "keywords"; "receivedAt"].
Definition hide_metadata (m : obj) : obj := foldl (fun m k => if has m k then obj_set m k JNull else m) m metadata.
Record parse_acc : Type := mkParse { pa_parsed : obj; pa_notParsable : list string; pa_notFound : list string }.
Definition parse_blob (c : Ctx) (accountID : string) (o : FetchOptions) (props : option (list string)) (hps : list ParsedHeaderProperty)
    (acc : parse_acc) (blobID : string) : St W parse_acc :=
  if String.eqb blobID EmptyString then mret acc
  else
    data ← import_blob c accountID blobID;
    match data with
    | None => mret (mkParse (pa_parsed acc) (pa_notParsable acc) (pa_notFound acc ++ [blobID]))
    | Some data =>
        r ← ParseRFC822 (ew_Now wr) UnescapeString data;
        mret (match r with
              | Err _ => mkParse (pa_parsed acc) (pa_notParsable acc ++ [blobID]) (pa_notFound acc)
              | Ok (em, sm) =>
                  let em := with_ids em (em_ID em) blobID (em_ThreadID em) in
                  mkParse (obj_set (pa_parsed acc) blobID (JObj (hide_metadata (FormatEmailGet o em sm props hps))))
                    (pa_notParsable acc) (pa_notFound acc)
              end)
    end.
Definition HandleEmailParse (c : Ctx) (args : obj) : St W (string * obj) :=
  let accountID := str_or_empty args "accountId" in
  let props := ParseProperties args in
  let o := fetch_options args (default 0 (parse_max_body args)) in
  a ← range_strings (get_arr args "blobIds") (parse_blob c accountID o props (parse_header_props_loose (default [] props)))
        (mkParse [] [] []);
  mret ("Email/parse",
        [("accountId", JStr accountID); ("parsed", JObj (pa_parsed a)); ("notParsable", NilIfEmpty (jstrs (pa_notParsable a)));
         ("notFound", NilIfEmpty (jstrs (pa_notFound a)))]).

(** ** Email/verifySmime and SearchSnippet/get *)

Definition HandleEmailVerifySmime (c : Ctx) (args : obj) : St W (string * obj) :=
  r ← verify_smime c (strings_of (default [] (get_arr args "emailIds")));
  mret ("Email/verifySmime",
        [("accountId", JStr (str_or_empty args "accountId"));
         ("verified", JObj (map (fun kv => (fst kv, verification_json (snd kv))) (fst r))); ("notFound", jstrs (snd r))]).

Fixpoint snippets (accountID filterText : string) (l : list (Email * SMIME)) : option (list json) :=
  match l with
  | [] => Some []
  | (em, _) :: l' => s ← snippet accountID filterText em; rest ← snippets accountID filterText l'; Some (s :: rest)
  end.
Definition HandleSearchSnippetGet (c : Ctx) (args : obj) : St W (option (string * obj)) :=
  let accountID := str_or_empty args "accountId" in
  let filterText := snippet_filter args in
  r ← (match get_arr args "emailIds" with
       | Some ids => er_Get rd c (strings_of ids)
       | None => r ← er_GetAll rd c; mret (fst r, [], snd r)
       end);
  let '(emails, notFound, err) := r in
  let emails := match err with Some _ => [] | None => emails end in
  mret (l ← snippets accountID filterText emails;
        Some ("SearchSnippet/get",
              [("accountId", JStr accountID); ("list", nil_slice l); ("notFound", NilIfEmpty (jstrs notFound))])).
End Ops.

(** ** Snippets *)

Lemma Index_some s sub i :
  Index s sub = Some i ->
  exists t, s = str_take i s +:+ sub +:+ t /\ (i <= slen s)%nat /\ forall j, (j < i)%nat -> HasPrefix (str_drop j s) sub = false.
Proof.
  revert i. induction s as [|c s IH]; intros i; cbn [Index].
  - destruct (HasPrefix EmptyString sub) eqn:E; [|done]. intros [= <-]. apply HasPrefix_spec in E as [t E]. exists t. split_and!; [done|simpl; lia|lia].
  - destruct (HasPrefix (String c s) sub) eqn:E.
    + intros [= <-]. apply HasPrefix_spec in E as [t E]. exists t. split_and!; [done|simpl; lia|lia].
    + destruct (Index s sub) as [k|]; [|done]. intros [= <-]. destruct (IH k eq_refl) as (t & Ht & Hk & Hfirst). exists t.
      split_and!; [cbn [str_take String.append]; by rewrite <- Ht|simpl in *; lia|]. intros [|j] Hj; [done|]. apply Hfirst. lia.
Qed.

Lemma Index_none s sub : Index s sub = None <-> Contains s sub = false.
Proof.
  induction s as [|c s IH]; cbn [Index Contains]; [by destruct (HasPrefix EmptyString sub)|].
  destruct (HasPrefix (String c s) sub); [done|]. cbn [orb]. rewrite <- IH. by destruct (Index s sub).
Qed.

Lemma str_map_take f n s : str_map f (str_take n s) = str_take n (str_map f s).
Proof. revert s. induction n; intros [|c s]; simpl; congruence. Qed.
Lemma str_map_drop f n s : str_map f (str_drop n s) = str_drop n (str_map f s).
Proof. revert s. induction n; intros [|c s]; simpl; congruence. Qed.
Lemma str_drop_add i n s : str_drop (i + n) s = str_drop n (str_drop i s).
Proof. revert s. induction i; intros [|c s]; simpl; [done..|by destruct n|done]. Qed.
Lemma str_drop_take_app i s t : (i <= slen s)%nat -> str_drop i (str_take i s +:+ t) = t.
Proof. intros Hi. rewrite <- (str_drop_app (str_take i s) t) at 2. by rewrite slen_take, Nat.min_l. Qed.
Lemma slen_map f s : slen (str_map f s) = slen s.
Proof. unfold slen. induction s; simpl; congruence. Qed.

(** Where the texts are ASCII, a snippet marks the first place where the text
    has the search term in any case, and changes nothing else; without such a
    place there is no snippet.  It never fails. *)
Theorem snippet_marks_first_match `{GoRuntime} text term :
  is_ascii text = true -> is_ascii term = true ->
  match highlight text term with
  | Some (Some marked) =>
      exists pre m post, text = pre +:+ m +:+ post /\ marked = pre +:+ "<mark>" +:+ m +:+ "</mark>" +:+ post
        /\ EqualFold m term = true
        /\ forall j, (j < slen pre)%nat -> HasPrefix (ToLower (str_drop j text)) (ToLower term) = false
  | Some None => Contains (ToLower text) (ToLower term) = false
  | None => False
  end.
Proof.
  intros Ht Hf. unfold highlight. rewrite (ToLower_ascii text), (ToLower_ascii term) by done.
  destruct (Index _ _) as [i|] eqn:Ei; [|by apply Index_none].
  destruct (Index_some _ _ _ Ei) as (t & Et & Hi & Hfirst).
  assert (Hlen : (i + slen term <= slen text)%nat).
  { apply (f_equal slen) in Et. rewrite !slen_app, slen_take, !slen_map in Et. rewrite slen_map in Hi. lia. }
  unfold mark_at. rewrite (proj2 (Nat.leb_le _ _) Hlen). cbn [fmap option_fmap option_map].
  exists (str_take i text), (str_take (slen term) (str_drop i text)), (str_drop (i + slen term) text).
  assert (Hsplit : str_drop i text = str_take (slen term) (str_drop i text) +:+ str_drop (i + slen term) text)
    by (rewrite str_drop_add; symmetry; apply str_take_drop).
  assert (Hasc : forall j, is_ascii (str_drop j text) = true) by (intros j; by apply str_forallb_take_drop).
  split_and!.
  - rewrite <- Hsplit. symmetry. apply str_take_drop.
  - done.
  - unfold EqualFold. assert (is_ascii (str_take (slen term) (str_drop i text)) = true) as -> by (by apply str_forallb_take_drop).
    rewrite Hf. cbn [andb]. apply String.eqb_eq. rewrite str_map_take, str_map_drop, Et.
    rewrite str_drop_take_app, <- (slen_map lower_ascii term) by (rewrite slen_map in *; lia). apply str_take_app.
  - intros j Hj. rewrite ToLower_ascii by done. rewrite str_map_drop. apply Hfirst. rewrite slen_take in Hj. lia.
Qed.

Lemma snippet_marks_first_match_witness :
  exists marked, @highlight ascii_runtime "Lunch on Friday" "LUNCH" = Some (Some marked) /\ marked = "<mark>Lunch</mark> on Friday".
Proof.
  pose proof (@snippet_marks_first_match ascii_runtime "Lunch on Friday" "LUNCH" eq_refl eq_refl) as T.
  destruct (highlight "Lunch on Friday" "LUNCH") as [[marked|]|] eqn:E; [|vm_compute in E; discriminate E|done].
  exists marked. split; [done|]. clear T. vm_compute in E. congruence.
Defined.

(** A runtime that lowers the Kelvin sign (three bytes) to a one-byte "k". *)
Definition kelvin : string := String "226" (String "132" (String "170" EmptyString)).
Fixpoint lower_kelvin (n : nat) (s : string) : string :=
  match n, s with
  | S n, String c s' => if HasPrefix s kelvin then String "k" (lower_kelvin n (str_drop 3 s)) else String (lower_ascii c) (lower_kelvin n s')
  | _, _ => s
  end.
Definition kelvin_runtime : GoRuntime :=
  {| rt_to_lower s := lower_kelvin (slen s) s; rt_to_upper := @rt_to_upper ascii_runtime; rt_equal_fold := @rt_equal_fold ascii_runtime;
     rt_word_fields := @rt_word_fields ascii_runtime; rt_quote := @rt_quote ascii_runtime; rt_format_float := @rt_format_float ascii_runtime;
     rt_json_float := @rt_json_float ascii_runtime; rt_json_string := @rt_json_string ascii_runtime;
     rt_float_to_int := @rt_float_to_int ascii_runtime; rt_float_to_uint64 := @rt_float_to_uint64 ascii_runtime |}.

(** Outside ASCII lower case may be shorter: the handler cuts the subject with
    the length of the search term as it was sent, and panics. *)
Theorem snippet_panics : @highlight kelvin_runtime "kk" (kelvin +:+ kelvin) = None.
Proof. vm_compute. reflexivity. Qed.

(** ** What Email/import hands to its backend *)

Section Imported.
Context `{GoRuntime} `{TimeZones} `{MailText} `{MimeLib} {W : Type}.
Variable order : MapOrder.
Variable blobs : option (BlobStore W).
Variable rd : EmailReads W.
Variable wr : EmailWrites W.
Variable missing_mailboxes : Ctx -> list string -> St W (result go_error (list string)).
Variable UnescapeString : string -> string.
(** An invariant of the world and the mailboxes of the account. *)
Variable I : W -> Prop.
Variable Known : string -> Prop.

Hypothesis Hget : forall bb c a id, blobs = Some bb -> ensures I (fun _ => True) (bs_GetBlob bb c a id).
Hypothesis Hput : forall bb c a ty data, blobs = Some bb -> ensures I (fun _ => True) (bs_PutBlob bb c a ty data).
Hypothesis Hnow : ensures I (fun _ => True) (ew_Now wr).
Hypothesis Hfound : forall c ids, ensures I (fun r => r = Ok [] -> Forall Known ids) (missing_mailboxes c ids).

Lemma ensures_parse_leaf c a e st : ensures I (fun _ => True) (parse_leaf blobs c a e st).
Proof.
  destruct e as [get fields body parts]. cbn [parse_leaf]. destruct (media_type get), (disposition get).
  eapply (ensures_bind _ (fun _ => True)); [|intros _ _; by apply ensures_ret].
  destruct blobs as [bb|] eqn:E; [|by apply ensures_ret]. destruct (String.eqb a EmptyString); [by apply ensures_ret|by apply Hput].
Qed.
Lemma ensures_read_parts f l st :
  Forall (fun e => forall st, ensures I (fun _ => True) (f e st)) l -> ensures I (fun _ => True) (read_parts (W := W) f l st).
Proof.
  intros Hf. revert st. induction Hf as [|e l He Hl IH]; intros st; cbn [read_parts]; [by apply ensures_ret|].
  destruct (MaxMIMEParts <=? ms_counter st); [by apply ensures_ret|].
  eapply ensures_bind; [by apply He|]. intros r _. eapply ensures_bind; [by apply IH|]. intros rs _. by apply ensures_ret.
Qed.
Lemma ensures_parse_mime c a e : forall depth st, ensures I (fun _ => True) (parseMIMEEntity blobs c a e depth st).
Proof.
  revert e. refine (entity_nested_ind _ _). intros get fields body parts IH depth st.
  destruct parts as [l|]; [destruct depth as [|depth]|]; cbn [parseMIMEEntity]; try by apply ensures_parse_leaf.
  destruct (media_type get), (disposition get). eapply (ensures_bind _ (fun _ => True)); [|intros r _; by apply ensures_ret].
  apply ensures_read_parts. eapply Forall_impl; [exact IH|]. intros e He st'. apply He.
Qed.
(** A parsed message has no keywords. *)
Lemma ensures_parse_message a raw :
  ensures I (fun r => match r with Ok (em, _) => em_Keywords em = [] | Err _ => True end)
    (ParseRFC822WithAccount blobs (ew_Now wr) UnescapeString a raw).
Proof.
  unfold ParseRFC822WithAccount, parseRFC822Simple. destruct (_ <? _); [by apply ensures_ret|].
  destruct (parseRawHeaders raw) as [|h hs]; [by apply ensures_ret|]. destruct (ml_Read raw) as [e|].
  - eapply ensures_bind; [exact Hnow|]. intros now _. destruct (foldl _ _ _).
    eapply ensures_bind; [apply ensures_parse_mime|]. intros r _. destruct (ExtractBodyStructureParts _) as [[t h'] atts].
    by apply ensures_ret.
  - eapply (ensures_bind _ (fun r => em_Keywords (fst r) = [])); [|intros [em sm] Hr; by apply ensures_ret].
    eapply ensures_bind; [exact Hnow|]. intros now _. by apply ensures_ret.
Qed.
Lemma ensures_import_blob c a id : ensures I (fun _ => True) (import_blob blobs c a id).
Proof.
  unfold import_blob. destruct blobs as [bb|] eqn:E; [|by apply ensures_ret].
  eapply ensures_bind; [by apply Hget|]. intros r _. by apply ensures_ret.
Qed.

(** An email that an import may create. *)
Record importable (em : Email) : Prop := {
  im_mailboxes : em_MailboxIDs em <> [];
  im_known : Forall (fun kv => Known (fst kv) /\ snd kv = true) (em_MailboxIDs em);
  im_keywords : Forall (fun kv => IsValidKeyword (fst kv) = true) (em_Keywords em);
}.

Lemma assoc_set_nonempty {V} (m : list (string * V)) k v : assoc_set m k v <> [].
Proof. destruct m as [|[k' v'] m]; simpl; [done|]. by destruct (String.eqb _ _). Qed.
Lemma set_all_ok mailboxes acc :
  (mailboxes <> [] \/ acc <> []) -> Forall Known mailboxes -> Forall (fun kv : string * bool => Known (fst kv) /\ snd kv = true) acc ->
  foldl (fun acc id => assoc_set acc id true) acc mailboxes <> []
  /\ Forall (fun kv => Known (fst kv) /\ snd kv = true) (foldl (fun acc id => assoc_set acc id true) acc mailboxes).
Proof.
  revert acc. induction mailboxes as [|id l IH]; intros acc Hne Hk Ha; simpl; [destruct Hne; done|].
  apply Forall_cons in Hk as [Hid Hk]. apply IH; [right; apply assoc_set_nonempty|done|].
  by apply assoc_set_Forall.
Qed.
Lemma bool_members_valid kw :
  forallb (fun kv => match snd kv with JBool _ => IsValidKeyword (fst kv) | _ => false end) kw = true ->
  Forall (fun kv : string * bool => IsValidKeyword (fst kv) = true) (bool_members kw).
Proof.
  unfold bool_members. induction kw as [|[k v] kw IH]; simpl; [constructor|]. intros [Hv Hkw]%andb_true_iff.
  destruct v; try done. constructor; [done|by apply IH].
Qed.

Lemma imported_ok em id mailboxes kw received :
  mailboxes <> [] -> Forall Known mailboxes -> em_Keywords em = [] ->
  match kw with Some l => Forall (fun kv => IsValidKeyword (fst kv) = true) l | None => True end ->
  importable (imported_email em id mailboxes kw received).
Proof.
  intros Hne Hk He Hkw. destruct (set_all_ok mailboxes []) as [K1 K2]; [by left|done|constructor|].
  unfold imported_email. destruct kw, (String.eqb received EmptyString); split; cbn; try done; rewrite He; constructor.
Qed.

Lemma build_import_ok c a refs emData :
  fair order ->
  ensures I (fun r => match r with Ok (em, _) => importable em | Err _ => True end)
    (build_import order blobs wr missing_mailboxes UnescapeString c a refs emData).
Proof.
  intros [_ Hfair]. unfold build_import, missing_props.
  destruct (get_obj emData "mailboxIds") as [[|m mb]|]; destruct (nonempty_str emData "blobId"); cbn [app]; try by apply ensures_ret.
  cbn [default from_option id].
  assert (Hne : resolved_mailboxes refs (range_map order (m :: mb)) <> []).
  { pose proof (Permutation_length (Hfair (m :: mb))) as Hl. by destruct (range_map order (m :: mb)). }
  eapply ensures_bind; [apply Hfound|]. intros [[|x l]|e] Hk; try by apply ensures_ret.
  unfold import_keywords. destruct (get_present emData "keywords") as [[| | | | |kw]|]; try by apply ensures_ret.
  - destruct (forallb _ kw) eqn:Ekw; [|by apply ensures_ret]. apply bool_members_valid in Ekw.
    destruct (import_received emData); [|by apply ensures_ret].
    eapply ensures_bind; [apply ensures_import_blob|]. intros [data|] _; [|by apply ensures_ret].
    eapply ensures_bind; [apply ensures_parse_message|]. intros [[em sm]|e] He; apply ensures_ret; [|done].
    apply imported_ok; [exact Hne|by apply Hk|done|done].
  - destruct (import_received emData); [|by apply ensures_ret].
    eapply ensures_bind; [apply ensures_import_blob|]. intros [data|] _; [|by apply ensures_ret].
    eapply ensures_bind; [apply ensures_parse_message|]. intros [[em sm]|e] He; apply ensures_ret; [|done].
    apply imported_ok; [exact Hne|by apply Hk|done|done].
Qed.

(** Email/import hands its backend nothing but emails in at least one mailbox,
    only in mailboxes that exist, with valid keywords, whatever the request and
    the messages hold: an invariant that the creation of such emails and the
    calls of the blob store keep survives the method. *)
Theorem email_import_keeps_store c args w refs :
  fair order ->
  (forall em sm, importable em -> ensures I (fun _ => True) (ew_CreateEmail wr c (em, sm))) ->
  I w -> I (fst (fst (HandleEmailImport order blobs rd wr missing_mailboxes UnescapeString c args (w, refs)))).
Proof.
  intros Hfair Hc Hw. set (J := fun s : HState W => I (fst s)).
  assert (Hk : ensures J (fun _ => True) (HandleEmailImport order blobs rd wr missing_mailboxes UnescapeString c args));
    [|by apply (Hk (w, refs))].
  unfold HandleEmailImport. destruct (import_argument args) as [[| | | | |m]|]; try by apply ensures_ret.
  eapply (ensures_bind _ (fun _ => True)); [by intros s Hs|]. intros oldState _. destruct (match _ with Some _ => _ | None => _ end); [by apply ensures_ret|].
  eapply (ensures_bind _ (fun _ => True)); [by intros s Hs|]. intros refs0 _.
  eapply (ensures_bind _ (fun _ => True)).
  - intros s Hs. split; [|done]. apply (range_obj_inv order _ _ _ J); [|done]. intros s' acc [key v] Hs'.
    assert (Hone : ensures J (fun _ => True) (import_email order blobs wr missing_mailboxes UnescapeString c (str_or_empty args "accountId") acc (key, v)));
      [|by apply Hone].
    unfold import_email. destruct v as [| | | | |emData]; try by apply ensures_ret.
    eapply ensures_bind; [by apply ensures_back, build_import_ok|]. intros [[em sm]|e] Hem; [|by apply ensures_ret].
    eapply ensures_bind; [by apply ensures_back, Hc|]. intros [created|[]] _; try by apply ensures_ret.
    eapply (ensures_bind _ (fun _ => True)); [by intros s1 Hs1|]. intros r _. by apply ensures_ret.
  - intros a _. eapply (ensures_bind _ (fun _ => True)); [by intros s Hs|]. intros newState _. by apply ensures_ret.
Qed.
End Imported.

Definition demo_import : obj :=
  [("accountId", JStr "a");
   ("emails", JObj [("k", JObj [("blobId", JStr "b1"); ("mailboxIds", JObj [("inbox", JBool true)]); ("keywords", JObj [("$seen", JBool true)])]);
                    ("l", JObj [("blobId", JStr "b1"); ("mailboxIds", JObj [("attic", JBool true)])])])].
Definition one_blob {W} (data : string) : BlobStore W :=
  mkBlobStore _ (fun _ _ id w => (w, if String.eqb id "b1" then (true, Some data) else (false, None))) (fun _ _ _ _ w => (w, tt)).
Definition no_reads {W} : EmailReads W :=
  mkEmailReads _ (fun _ _ => "s") (fun _ _ _ w => (w, ([], [], [], EmptyString, false))) (fun _ ids w => (w, ([], ids, None)))
    (fun _ w => (w, ([], None))).
Definition only_inbox {W} (c : Ctx) (ids : list string) : St W (result go_error (list string)) :=
  mret (Ok (List.filter (fun id => negb (String.eqb id "inbox")) ids)).

Lemma email_import_keeps_store_witness :
  let run := HandleEmailImport (H := ascii_runtime) (H0 := demo_zones) (H1 := demo_text) (H2 := demo_mime) in_order (Some (one_blob "M: x"))
               no_reads list_emails only_inbox (fun s => s) Background demo_import ([], None) in
  Forall (importable (fun id => id = "inbox")) (fst (fst run)) /\ map (fun em => (em_BlobID em, em_Preview em)) (fst (fst run)) = [("b1", "hello")].
Proof.
  cbv zeta. split; [|vm_compute; reflexivity].
  apply (email_import_keeps_store (H := ascii_runtime) (H0 := demo_zones) (H1 := demo_text) (H2 := demo_mime) in_order (Some (one_blob "M: x"))
    no_reads list_emails only_inbox (fun s => s) (Forall (importable (fun id => id = "inbox"))) (fun id => id = "inbox")).
  - intros bb c a id [= <-] w Hw. split; [exact Hw|exact I].
  - intros bb c a ty data [= <-] w Hw. split; [exact Hw|exact I].
  - intros w Hw. split; [exact Hw|exact I].
  - intros c ids w Hw. split; [exact Hw|]. cbn. intros E. injection E as E. induction ids as [|x ids IH]; [constructor|].
    cbn in E. destruct (String.eqb_spec x "inbox"); [|discriminate E]. constructor; [assumption|by apply IH].
  - split; reflexivity.
  - intros em sm Hem w Hw. split; [|exact I]. apply Forall_app. split; [exact Hw|]. constructor; [exact Hem|constructor].
  - constructor.
Defined.

(** A mailbox that a request sets to false counts: the imported email is put
    into it. *)
Theorem import_reads_false_as_true :
  let emData := [("blobId", JStr "b1"); ("mailboxIds", JObj [("inbox", JBool false)])] in
  match snd (build_import (W := unit) (H := ascii_runtime) (H0 := demo_zones) (H1 := demo_text) (H2 := demo_mime) in_order
               (Some (one_blob "M: x")) no_emails only_inbox (fun s => s) Background "a" ∅ emData tt) with
  | Ok (em, _) => em_MailboxIDs em = [("inbox", true)]
  | Err _ => False
  end.
Proof. vm_compute. reflexivity. Qed.

(** Email/copy does not check what it is given, unlike Email/set: an email can
    be copied into no mailbox at all, or with keywords that are not valid. *)
Theorem copy_is_not_checked em :
  let copied := copied_email ∅ [("mailboxIds", JObj []); ("keywords", JObj [("not valid", JBool true)])] em in
  em_MailboxIDs copied = [] /\ em_Keywords copied = [("not valid", true)] /\ IsValidKeyword "not valid" = false.
Proof. split_and!; reflexivity. Qed.

(** ** Email/parse *)

Section Parsed.
Context `{GoRuntime} `{TimeZones} `{MailText} `{MimeLib} {W : Type}.
Variable blobs : option (BlobStore W).
Variable wr : EmailWrites W.
Variable UnescapeString : string -> string.

Definition hidden (m : obj) : Prop := forall k, k ∈ metadata -> default JNull (obj_get m k) = JNull.
Lemma hide_keeps k x m : default JNull (obj_get m x) = JNull ->
  default JNull (obj_get (if has m k then obj_set m k JNull else m) x) = JNull.
Proof. intros Hx. destruct (has m k); [|done]. rewrite obj_get_set. by case_decide. Qed.
Lemma hide_one k m : default JNull (obj_get (if has m k then obj_set m k JNull else m) k) = JNull.
Proof. unfold has. destruct (obj_get m k) eqn:E; [by rewrite obj_get_set_eq|by rewrite E]. Qed.
Lemma hide_metadata_hidden m : hidden (hide_metadata m).
Proof.
  unfold hidden, hide_metadata. generalize metadata as ks. intros ks.
  assert (Hmono : forall l m x, default JNull (obj_get m x) = JNull ->
    default JNull (obj_get (foldl (fun m k => if has m k then obj_set m k JNull else m) m l) x) = JNull).
  { induction l as [|k l IH]; intros m' x Hx; [done|]. cbn [foldl]. by apply IH, hide_keeps. }
  revert m. induction ks as [|k ks IH]; intros m x Hx; [by apply not_elem_of_nil in Hx|].
  cbn [foldl]. apply elem_of_cons in Hx as [->|Hx]; [apply Hmono, hide_one|by apply IH].
Qed.

(** The answer for a blob: the email, or one of the two lists. *)
Definition answered (a : parse_acc) (id : string) : Prop :=
  is_Some (obj_get (pa_parsed a) id) \/ id ∈ pa_notParsable a \/ id ∈ pa_notFound a.
Definition all_hidden (a : parse_acc) : Prop :=
  forall id v, obj_get (pa_parsed a) id = Some v -> exists m, v = JObj m /\ hidden m.

Lemma parse_blob_cases c a o props hps acc id w :
  let acc' := snd (parse_blob blobs wr UnescapeString c a o props hps acc id w) in
  (id = EmptyString /\ acc' = acc)
  \/ (exists m, acc' = mkParse (obj_set (pa_parsed acc) id (JObj (hide_metadata m))) (pa_notParsable acc) (pa_notFound acc))
  \/ acc' = mkParse (pa_parsed acc) (pa_notParsable acc ++ [id]) (pa_notFound acc)
  \/ acc' = mkParse (pa_parsed acc) (pa_notParsable acc) (pa_notFound acc ++ [id]).
Proof.
  cbv zeta. unfold parse_blob. destruct (String.eqb_spec id EmptyString); [by left|]. right.
  rewrite St_bind_eq. destruct (import_blob blobs c a id w) as [w' [data|]]; cbn [fst snd]; [|right; by right].
  rewrite St_bind_eq. destruct (ParseRFC822 _ _ data w') as [w'' [[em sm]|e]]; cbn [fst snd]; [left; by eexists|right; by left].
Qed.

(** Email/parse answers for every blob of the request, with an email, as not
    parsable or as not found, and what belongs to a stored email only (id,
    thread, mailboxes, keywords, time of arrival) is null in every email. *)
Theorem email_parse_answers c args w ids :
  get_arr args "blobIds" = Some ids ->
  exists a, snd (snd (HandleEmailParse blobs wr UnescapeString c args w))
            = [("accountId", JStr (str_or_empty args "accountId")); ("parsed", JObj (pa_parsed a));
               ("notParsable", NilIfEmpty (jstrs (pa_notParsable a))); ("notFound", NilIfEmpty (jstrs (pa_notFound a)))]
         /\ (forall id, id ∈ strings_of ids -> id <> EmptyString -> answered a id)
         /\ all_hidden a.
Proof.
  intros Hids. unfold HandleEmailParse. rewrite St_bind_eq, Hids. cbn [snd mret St_ret range_strings].
  set (f := parse_blob _ _ _ _ _ _ _ _).
  assert (Hcases : forall acc x w', _) by (exact (parse_blob_cases c (str_or_empty args "accountId")
    (fetch_options args (default 0 (parse_max_body args))) (ParseProperties args) (parse_header_props_loose (default [] (ParseProperties args))))).
  fold f in Hcases. cbv zeta in Hcases.
  exists (snd (fold_state f (mkParse [] [] []) (strings_of ids) w)). split_and!; [done| |].
  - intros id Hin Hne. revert Hne.
    apply (fold_state_hits f (fun a id => id <> EmptyString -> answered a id)); [| |by left].
    + intros w' acc x _ Hne. unfold answered.
      destruct (Hcases acc x w') as [[? _]|[(m & E)|[E|E]]]; [done| | |]; rewrite E; cbn.
      * left. rewrite obj_get_set_eq. by eexists.
      * right. left. apply elem_of_app. right. by left.
      * right. right. apply elem_of_app. right. by left.
    + intros w' acc x y Hy Hne. specialize (Hy Hne). unfold answered in *.
      destruct (Hcases acc x w') as [[_ E]|[(m & E)|[E|E]]]; rewrite E; cbn; try done.
      * rewrite obj_get_set. destruct Hy as [Hy|Hy]; [left; case_decide; [by eexists|done]|by right].
      * rewrite elem_of_app. tauto.
      * rewrite elem_of_app. tauto.
  - apply (fold_state_inv f (fun _ a => all_hidden a)); [|intros id v Hv; discriminate Hv].
    intros w' acc x _ Ha.
    destruct (Hcases acc x w') as [[_ E]|[(m & E)|[E|E]]]; rewrite E; try done.
    intros id v. cbn. rewrite obj_get_set. case_decide; [|by apply Ha]. intros [= <-]. eexists. split; [done|apply hide_metadata_hidden].
Qed.
End Parsed.

Lemma email_parse_answers_witness :
  exists a, snd (snd (HandleEmailParse (W := unit) (H := ascii_runtime) (H0 := demo_zones) (H1 := demo_text) (H2 := demo_mime)
                        (Some (one_blob "M: x")) no_emails (fun s => s) Background [("blobIds", JArr [JStr "b1"; JStr "b2"])] tt))
            = [("accountId", JStr EmptyString); ("parsed", JObj (pa_parsed a));
               ("notParsable", NilIfEmpty (jstrs (pa_notParsable a))); ("notFound", NilIfEmpty (jstrs (pa_notFound a)))]
         /\ answered a "b1" /\ answered a "b2" /\ all_hidden a.
Proof.
  destruct (email_parse_answers (W := unit) (H := ascii_runtime) (H0 := demo_zones) (H1 := demo_text) (H2 := demo_mime)
    (Some (one_blob "M: x")) no_emails (fun s => s) Background [("blobIds", JArr [JStr "b1"; JStr "b2"])] tt [JStr "b1"; JStr "b2"] eq_refl)
    as (a & Ea & Hans & Hhid).
  exists a. split_and!; [exact Ea|apply Hans; [left|discriminate]|apply Hans; [right; left|discriminate]|exact Hhid].
Defined.

(** A message says itself that it was verified: with the header
    X-JMAP-SMIME-Status its status is what it claims, and its signature is not
    looked at. *)
Theorem smime_status_is_claimed :
  let raw := "M: x" +:+ str_of ["013"%char; "010"%char] +:+ "X-JMAP-SMIME-Status: signed/verified" +:+ str_of ["013"%char; "010"%char; "013"%char; "010"%char] in
  match snd (ParseRFC822 (W := unit) (H := ascii_runtime) (H0 := demo_zones) (H1 := demo_text) (H2 := demo_mime) (fun w => (w, mkTime 0 UTC))
               (fun s => s) raw tt) with
  | Ok (_, sm) => sm_Status sm = Some "signed/verified" /\ @ml_VerifySMIME demo_mime raw = None
  | Err _ => False
  end.
Proof. vm_compute. split; reflexivity. Qed.
