(* ===== verification/BlobMethods.v ===== *)
(** * The Blob methods

    [jmap/blob_handlers.go]: Blob/get with its ranges and encodings,
    Blob/upload with its data sources, Blob/lookup and Blob/copy, over the
    interface of a blob backend ([jmap/jmapblob/backend.go]).  A slice outside
    its bounds is a panic of the handler, which is [None]. *)

From S2P Require Import Prelude GoStrings GoRunes GoState Base64 Json Envelope CreationRefs Query Handler Server MailTypes MethodSupport GoJson HttpFront.
From Stdlib Require Import Ascii SpecFloat.

(** [base64.StdEncoding], padded: [EncodeToString] and [DecodeString]. *)
Abbreviation std_encode := B64.encode_std.
Abbreviation std_decode := (B64.decode true true).

(** ** Blobs and their backend *)

Record StoredBlob : Type := mkStored {
  sb_ID : string; sb_BlobID : string; sb_AccountID : string; sb_Type : string; sb_Size : Z; sb_DigestSHA256 : string; sb_Data : string;
}.
Definition optional_str (k v : string) : obj := if String.eqb v EmptyString then [] else [(k, JStr v)].
Definition StoredBlob_json (b : StoredBlob) : json :=
  JObj ([("id", JStr (sb_ID b))] ++ optional_str "blobId" (sb_BlobID b) ++ optional_str "accountId" (sb_AccountID b)
        ++ [("type", JStr (sb_Type b)); ("size", jint (sb_Size b))] ++ optional_str "digest:sha-256" (sb_DigestSHA256 b)).

(** A blob is found without an error, found with one, or not found: the blob is
    there in the first case only. *)
Inductive found_blob : Type := BlobIs (b : StoredBlob) | BlobFails (found : bool).
Record BlobBackend (W : Type) : Type := mkBlobBackend {
  bb_PutBlob : Ctx -> string -> string -> string -> St W (result go_error StoredBlob);
  bb_GetBlob : Ctx -> string -> string -> St W found_blob;
  bb_GetAllBlobs : Ctx -> string -> St W (list StoredBlob);
  bb_CopyBlob : Ctx -> string -> string -> string -> St W (result go_error StoredBlob);
}.
Arguments bb_PutBlob {W} _ _ _ _ _.
Arguments bb_GetBlob {W} _ _ _ _.
Arguments bb_GetAllBlobs {W} _ _ _.
Arguments bb_CopyBlob {W} _ _ _ _ _.

(** [data[start:end]] *)
Definition cut_bytes (data : string) (start end_ : Z) : option string :=
  if (0 <=? start) && (start <=? end_) && (end_ <=? Z.of_nat (slen data))
  then Some (str_take (Z.to_nat (end_ - start)) (str_drop (Z.to_nat start) data)) else None.

Section Methods.
Context `{GoRuntime} {W : Type}.
Variable order : MapOrder.
Variable b : BlobBackend W.
Variable sha256 : string -> string.
(** [refs.LookupBlobReferences]: a nil slice is [None]. *)
Variable references : option (Ctx -> list string -> string -> St W (list (string * option (list string)))).

(** ** Blob/get *)

Definition blob_range (data : string) (offset : Z) (length : option Z) : option (string * bool) :=
  let totalSize := Z.of_nat (slen data) in
  let start := if totalSize <? offset then totalSize else offset in
  let '(end_, isTruncated) := match length with
                              | Some l => if i64 (start + l) <? totalSize then (i64 (start + l), true) else (totalSize, false)
                              | None => (totalSize, false)
                              end in
  (fun r => (r, isTruncated)) <$> cut_bytes data start end_.
Definition wantProp (props : list string) (p : string) : bool := match props with [] => true | _ => str_in p props end.
Definition add_if (c : bool) (k : string) (v : json) (m : obj) : obj := if c then obj_set m k v else m.
Definition text_members (props : list string) (range : string) (m : obj) : obj :=
  if wantProp props "data:asText" || wantProp props "data"
  then if valid_utf8 range
       then add_if (wantProp props "data") "data" (JStr range) (obj_set m "data:asText" (JStr range))
       else add_if (wantProp props "data") "data:asBase64" (JStr (std_encode range)) (obj_set m "data:asText" JNull)
  else m.
Definition encoding_problem (props : list string) (range : string) : bool :=
  (wantProp props "data:asText" || wantProp props "data") && negb (valid_utf8 range).
Definition blob_object (props : list string) (id : string) (size : Z) (range : string) (isTruncated : bool) : obj :=
  let digest := JStr (std_encode (sha256 range)) in
  let res := [("id", JStr id)] in
  let res := add_if (wantProp props "size") "size" (jint size) res in
  let res := add_if (wantProp props "isTruncated") "isTruncated" (JBool isTruncated) res in
  let res := add_if (wantProp props "data:asBase64") "data:asBase64" (JStr (std_encode range)) res in
  let res := text_members props range res in
  let problem := encoding_problem props range in
  let res := add_if (wantProp props "isEncodingProblem" || problem) "isEncodingProblem" (JBool problem) res in
  let res := add_if (wantProp props "digest:sha-256") "digest:sha-256" digest res in
  foldl (fun m p => add_if (HasPrefix p "digest:") p digest m) res props.
Definition blob_answer (props : list string) (offset : Z) (length : option Z) (blob : StoredBlob) : option json :=
  r ← blob_range (sb_Data blob) offset length;
  Some (JObj (blob_object props (sb_ID blob) (Z.of_nat (slen (sb_Data blob))) (fst r) (snd r))).
Definition fetch_blob (c : Ctx) (accountID : string) (acc : list StoredBlob * list string) (id : string)
  : St W (list StoredBlob * list string) :=
  r ← bb_GetBlob b c accountID id;
  mret (match r with BlobIs blob => (fst acc ++ [blob], snd acc) | BlobFails _ => (fst acc, snd acc ++ [id]) end).
Definition all_or_panic {A} : list (option A) -> option (list A) :=
  fix go (l : list (option A)) : option (list A) :=
    match l with [] => Some [] | o :: l' => x ← o; xs ← go l'; Some (x :: xs) end.
Definition handleBlobGet (c : Ctx) (args : obj) : St W (option (string * obj)) :=
  let accountID := str_or_empty args "accountId" in
  let props := default [] (ParseProperties args) in
  let offset := match get_num args "offset" with Some f => f64_to_int f | None => 0 end in
  let length := f64_to_int <$> get_num args "length" in
  r ← (match get_arr args "ids" with
       | Some ids => fold_state (fetch_blob c accountID) ([], []) (strings_of ids)
       | None => l ← bb_GetAllBlobs b c accountID; mret (l, [])
       end);
  mret (l ← all_or_panic (map (blob_answer props offset length) (fst r));
        Some ("Blob/get", [("accountId", JStr accountID); ("list", JArr l); ("notFound", jstrs (snd r))])).

(** ** Blob/upload *)

Definition objects (l : list json) : list obj := omap (fun j => match j with JObj o => Some o | _ => None end) l.
Definition text_source (s : string) : obj := [("data:asText", JStr s)].
Definition base64_source (s : string) : obj := [("data:asBase64", JStr s)].
Definition sources_of (item : obj) : list obj :=
  match obj_get item "data" with
  | Some (JArr l) => objects l
  | Some (JObj o) => [o]
  | data =>
      match get_str item "data:asText", data with
      | Some txt, _ => [text_source txt]
      | None, Some (JStr txt) =>
          match std_decode txt with
          | Some decoded => if String.eqb decoded EmptyString then [text_source txt] else [base64_source txt]
          | None => [text_source txt]
          end
      | None, _ => []
      end
  end.
Definition refused (description : string) : SetError := set_error "invalidProperties" description.
Definition has_value (m : obj) (k : string) : bool := match get_present m k with Some _ => true | None => false end.
Definition data_keys (src : obj) : nat := length (List.filter (has_value src) ["data:asText"; "data:asBase64"; "blobId"]).
Definition unknown_key (src : obj) (k : string) : bool :=
  if str_in k ["data:asText"; "data:asBase64"; "blobId"] then false
  else if str_in k ["offset"; "length"] then match obj_get src "blobId" with Some _ => false | None => true end
  else true.
(** The range of a referenced blob: an error, a panic or the bytes. *)
Definition source_range (src : obj) (data : string) : option (result SetError string) :=
  let size := Z.of_nat (slen data) in
  let off := get_num src "offset" in
  let len := get_num src "length" in
  if match off with Some f => SFltb f (f64_of_Z 0) | None => false end then Some (Err (refused "offset must be non-negative"))
  else
    let offset := match off with Some f => f64_to_int f | None => 0 end in
    if size <? offset then Some (Err (refused "offset out of bounds"))
    else if match len with Some f => SFltb f (f64_of_Z 0) | None => false end then Some (Err (refused "length must be non-negative"))
    else
      let length := match len with Some f => f64_to_int f | None => size - offset end in
      if size <? i64 (offset + length) then Some (Err (refused "offset + length out of bounds"))
      else Ok <$> cut_bytes data offset (i64 (offset + length)).
Definition source_data (c : Ctx) (accountID : string) (src : obj) : St W (option (result SetError string)) :=
  if negb (data_keys src =? 1)%nat
  then mret (Some (Err (refused "exactly one of data:asText, data:asBase64, or blobId must be provided")))
  else if existsb (unknown_key src) (obj_keys src)
  then mret (Some (Err (refused "unknown or misplaced properties in DataSourceObject")))
  else
    match get_str src "data:asText", get_str src "data:asBase64", get_str src "blobId" with
    | Some txt, _, _ => mret (Some (if valid_utf8 txt then Ok txt else Err (refused "invalid UTF-8 in data:asText")))
    | None, Some b64, _ => mret (Some (match std_decode b64 with Some d => Ok d | None => Err (refused "invalid base64 in data:asBase64") end))
    | None, None, Some id =>
        r ← bb_GetBlob b c accountID id;
        mret (match r with
              | BlobIs blob => source_range src (sb_Data blob)
              | BlobFails _ => Some (Err (set_error "notFound" ("blobId not found: " +:+ id)))
              end)
    | None, None, None => mret (Some (Err (refused "invalid data source object")))
    end.
(** The loop over the sources ends at the first error. *)
Fixpoint sources_data (c : Ctx) (accountID : string) (l : list obj) : St W (option (result SetError string)) :=
  match l with
  | [] => mret (Some (Ok EmptyString))
  | src :: l' =>
      r ← source_data c accountID src;
      match r with
      | Some (Ok d) =>
          rest ← sources_data c accountID l';
          mret (match rest with Some (Ok d') => Some (Ok (d +:+ d')) | o => o end)
      | o => mret o
      end
  end.
Definition upload_one (c : Ctx) (accountID : string) (acc : option copy_acc) (kv : string * json) : St (HState W) (option copy_acc) :=
  let '(clientKey, raw) := kv in
  match acc, raw with
  | Some a, JObj item =>
      r ← back (sources_data c accountID (sources_of item));
      match r with
      | None => mret None
      | Some (Err e) => mret (Some (copy_failed a clientKey e))
      | Some (Ok data) =>
          r ← back (bb_PutBlob b c accountID (str_or_empty item "type") data);
          match r with
          | Err e => mret (Some (copy_failed a clientKey (set_error "serverError" (err_Error e))))
          | Ok blob =>
              refs ← record_ref (ca_refs a) clientKey (sb_ID blob);
              mret (Some (mkCopy refs (obj_set (ca_created a) clientKey (StoredBlob_json blob)) (ca_notCreated a) (ca_originals a)))
          end
      end
  | _, _ => mret acc
  end.
Definition handleBlobUpload (c : Ctx) (args : obj) : St (HState W) (option (string * obj)) :=
  let accountID := str_or_empty args "accountId" in
  refs ← new_refs;
  a ← range_obj order (get_obj args "create") (upload_one c accountID) (Some (mkCopy refs [] [] []));
  mret ((fun a => ("Blob/upload", [("accountId", JStr accountID); ("created", JObj (ca_created a)); ("notCreated", JObj (ca_notCreated a))])) <$> a).

(** ** Blob/lookup *)

Definition FileNodeCapabilityURI : string := "urn:ietf:params:jmap:filenode".
Definition validTypes : list (string * string) :=
  [("Mailbox", MailCapabilityURI); ("Thread", MailCapabilityURI); ("Email", MailCapabilityURI); ("Calendar", CalendarsCapabilityURI);
   ("CalendarEvent", CalendarsCapabilityURI); ("AddressBook", ContactsCapabilityURI); ("ContactCard", ContactsCapabilityURI);
   ("Card", ContactsCapabilityURI); ("FileNode", FileNodeCapabilityURI); ("SieveScript", SieveCapabilityURI)].
Definition type_name (raw : json) : string := match raw with JStr s => s | _ => EmptyString end.
Definition type_allowed (c : Ctx) (tn : string) : bool :=
  match List.find (fun kv => String.eqb (fst kv) tn) validTypes with
  | Some (_, capURI) => IsUsingCapability (ctx_Using c) capURI
  | None => false
  end.
Definition no_matches (typeNames : list string) : obj := foldl (fun m tn => obj_set m tn (JArr [])) [] typeNames.
Definition nil_ids (l : option (list string)) : json := match l with Some l => jstrs l | None => JNull end.
Definition lookup_one (c : Ctx) (accountID : string) (typeNames : list string) (acc : list json) (blobID : string) : St W (list json) :=
  r ← bb_GetBlob b c accountID blobID;
  let found := match r with BlobIs _ => true | BlobFails found => found end in
  m ← (match references with
       | Some f => if found then l ← f c typeNames blobID; mret (foldl (fun m kv => obj_set m (fst kv) (nil_ids (snd kv))) (no_matches typeNames) l)
                   else mret (no_matches typeNames)
       | None => mret (no_matches typeNames)
       end);
  mret (acc ++ [JObj [("id", JStr blobID); ("matchedIds", JObj m)]]).
Definition handleBlobLookup (c : Ctx) (args : obj) : St W (string * obj) :=
  let accountID := str_or_empty args "accountId" in
  let typeNames := map type_name (default [] (get_arr args "typeNames")) in
  match List.find (fun tn => negb (type_allowed c tn)) typeNames with
  | Some tn => mret ("error", MethodErrorArgs "unknownDataType"
                                ("type " +:+ fmt_q tn +:+ " cannot reference blobs or capability not in using set"))
  | None =>
      l ← fold_state (lookup_one c accountID typeNames) [] (strings_of (default [] (get_arr args "ids")));
      mret ("Blob/lookup", [("accountId", JStr accountID); ("list", JArr l)])
  end.

(** ** Blob/copy *)

Definition copy_blob (c : Ctx) (from to : string) (acc : copy_acc) (kv : string * string) : St (HState W) copy_acc :=
  let '(key, blobID) := kv in
  r ← back (bb_CopyBlob b c from to (ResolveCreationID blobID (ca_refs acc)));
  match r with
  | Err _ => mret (copy_failed acc key (set_error "blobNotFound" "blob not found"))
  | Ok blob =>
      refs ← record_ref (ca_refs acc) key (sb_ID blob);
      mret (mkCopy refs (obj_set (ca_created acc) key (JStr (sb_ID blob))) (ca_notCreated acc) (ca_originals acc))
  end.
(** The ids of the request, or the entries of the older create map. *)
Definition copy_entries (args : obj) : list (string * string) :=
  match get_arr args "blobIds", get_obj args "create" with
  | Some ids, _ => map (fun id => (id, id)) (strings_of ids)
  | None, Some m => omap (fun kv => match snd kv with JObj item => pair (fst kv) <$> get_str item "blobId" | _ => None end) (range_map order m)
  | None, None => []
  end.
Definition handleBlobCopy : BackendHandler W := fun c args =>
  let from := str_or_empty args "fromAccountId" in
  let to := str_or_empty args "accountId" in
  if String.eqb from EmptyString || String.eqb to EmptyString || String.eqb from to
  then mret ("error", MethodErrorArgs MethodErrorInvalidArguments "fromAccountId and accountId must be present and distinct")
  else
    refs ← new_refs;
    a ← fold_state (copy_blob c from to) (mkCopy refs [] [] []) (copy_entries args);
    mret ("Blob/copy", [("fromAccountId", JStr from); ("accountId", JStr to); ("copied", NilIfEmpty (JObj (ca_created a)));
                        ("notCopied", NilIfEmpty (JObj (ca_notCreated a)))]).
End Methods.

(** ** The range of Blob/get *)


(** Blob/get answers for a range with the bytes it asks for, as far as there
    are any, and flags it as truncated when bytes follow it; a negative offset
    or length makes the handler panic.  (The sums do not overflow.) *)
Theorem blob_range_exact data offset length :
  Z.of_nat (slen data) < 2 ^ 63 -> - 2 ^ 63 <= offset < 2 ^ 63 ->
  (forall l, length = Some l -> - 2 ^ 63 <= l /\ Z.max offset 0 + l < 2 ^ 63 /\ Z.of_nat (slen data) + l < 2 ^ 63) ->
  (0 <= offset -> (forall l, length = Some l -> 0 <= l) ->
     blob_range data offset length
     = Some (match length with
             | Some l => str_take (Z.to_nat l) (str_drop (Z.to_nat offset) data)
             | None => str_drop (Z.to_nat offset) data
             end, match length with Some l => bool_decide (Z.min offset (Z.of_nat (slen data)) + l < Z.of_nat (slen data)) | None => false end))
  /\ (offset < 0 -> length = None -> blob_range data offset length = None)
  /\ (0 <= offset -> (exists l, length = Some l /\ l < 0) -> blob_range data offset length = None).
Proof.
  intros Hsize Hoff Hlen. unfold blob_range. set (n := Z.of_nat (slen data)) in *.
  assert (Hstart : (if n <? offset then n else offset) = Z.min offset n) by (destruct (Z.ltb_spec n offset); lia).
  rewrite Hstart. split_and!.
  - intros H0 Hl. assert (Hdrop : str_drop (Z.to_nat (Z.min offset n)) data = str_drop (Z.to_nat offset) data).
    { destruct (Z.le_gt_cases offset n); [by rewrite Z.min_l|]. rewrite Z.min_r by lia. rewrite !str_drop_all; [done|lia..]. }
    destruct length as [l|].
    + specialize (Hl l eq_refl). specialize (Hlen l eq_refl). rewrite i64_small by lia. case_bool_decide as Hd.
      * rewrite (proj2 (Z.ltb_lt _ _) Hd). unfold cut_bytes. fold n.
        rewrite (proj2 (Z.leb_le 0 _)), (proj2 (Z.leb_le (Z.min offset n) _)), (proj2 (Z.leb_le _ n)) by lia.
        cbn. rewrite Hdrop. do 3 f_equal. lia.
      * rewrite (proj2 (Z.ltb_ge _ _)) by lia. unfold cut_bytes. fold n.
        rewrite (proj2 (Z.leb_le 0 _)), (proj2 (Z.leb_le (Z.min offset n) _)), (proj2 (Z.leb_le n n)) by lia.
        cbn. rewrite Hdrop. do 2 f_equal. rewrite !str_take_all; [done| |]; rewrite slen_drop; lia.
    + unfold cut_bytes. fold n. rewrite (proj2 (Z.leb_le 0 _)), (proj2 (Z.leb_le (Z.min offset n) _)), (proj2 (Z.leb_le n n)) by lia.
      cbn. rewrite Hdrop. do 2 f_equal. rewrite str_take_all; [done|]. rewrite slen_drop. lia.
  - intros H0 ->. unfold cut_bytes. by rewrite (proj2 (Z.leb_gt 0 _)) by lia.
  - intros H0 (l & -> & Hneg). specialize (Hlen l eq_refl). rewrite i64_small by lia.
    rewrite (proj2 (Z.ltb_lt _ _)) by lia. unfold cut_bytes.
    rewrite (proj2 (Z.leb_gt (Z.min offset n) _)) by lia. by rewrite andb_false_r.
Qed.

Lemma blob_range_exact_witness :
  blob_range "Hello World" 1 (Some 3) = Some ("ell", true) /\ blob_range "Hello World" 9 (Some 30) = Some ("ld", false)
  /\ blob_range "Hello World" (-1) None = None /\ blob_range "Hello World" 2 (Some (-1)) = None.
Proof.
  split_and!.
  - destruct (blob_range_exact "Hello World" 1 (Some 3)) as (T & _ & _); [reflexivity|lia|intros l [= <-]; cbn; lia|].
    rewrite T; [reflexivity|lia|intros l [= <-]; lia].
  - destruct (blob_range_exact "Hello World" 9 (Some 30)) as (T & _ & _); [reflexivity|lia|intros l [= <-]; cbn; lia|].
    rewrite T; [reflexivity|lia|intros l [= <-]; lia].
  - destruct (blob_range_exact "Hello World" (-1) None) as (_ & T & _); [reflexivity|lia|discriminate|]. apply T; [lia|reflexivity].
  - destruct (blob_range_exact "Hello World" 2 (Some (-1))) as (_ & _ & T); [reflexivity|lia|intros l [= <-]; cbn; lia|].
    apply T; [lia|]. exists (-1). split; [reflexivity|lia].
Defined.

(** ** What Blob/upload stores *)

(** The sources a client can name: a text, bytes, a range of a blob. *)
Inductive piece : Type :=
| PText (s : string)
| PBytes (s : string)
| PRange (id : string) (offset length : Z).
Definition source_of (p : piece) : obj :=
  match p with
  | PText s => text_source s
  | PBytes s => base64_source (std_encode s)
  | PRange id offset length => [("blobId", JStr id); ("offset", jint offset); ("length", jint length)]
  end.

Section Upload.
Context `{GoRuntime} {W : Type}.
Variable order : MapOrder.
Variable b : BlobBackend W.
Variables (c : Ctx) (accountID : string).
(** The data of the blobs of the account, which reading does not change. *)
Variable stored : string -> option string.
Hypothesis Hstored : forall id d w, stored id = Some d -> exists blob, bb_GetBlob b c accountID id w = (w, BlobIs blob) /\ sb_Data blob = d.

Definition bytes_of (p : piece) : string :=
  match p with
  | PText s | PBytes s => s
  | PRange id offset length => str_take (Z.to_nat length) (str_drop (Z.to_nat offset) (default EmptyString (stored id)))
  end.
Definition piece_ok (p : piece) : Prop :=
  match p with
  | PText s => valid_utf8 s = true
  | PBytes _ => True
  | PRange id offset length =>
      exists d, stored id = Some d /\ 0 <= offset /\ 0 <= length /\ offset + length <= Z.of_nat (slen d) /\ Z.of_nat (slen d) < 2 ^ 53
  end.

Lemma f64_int_back z : 0 <= z < 2 ^ 53 -> f64_to_int (f64_of_Z z) = z /\ SFltb (f64_of_Z z) (f64_of_Z 0) = false.
Proof.
  intros Hz. unfold f64_to_int. rewrite f64_nat_trunc by done.
  destruct (f64_of_nat z Hz) as [->|(m & d & _ & -> & _)]; cbn [f64_finite andb];
    rewrite (proj2 (Z.leb_le (- 2 ^ 63) z)), (proj2 (Z.ltb_lt z (2 ^ 63))) by lia; by split.
Qed.

Lemma source_range_exact id offset length d :
  0 <= offset -> 0 <= length -> offset + length <= Z.of_nat (slen d) -> Z.of_nat (slen d) < 2 ^ 53 ->
  source_range (source_of (PRange id offset length)) d = Some (Ok (str_take (Z.to_nat length) (str_drop (Z.to_nat offset) d))).
Proof.
  intros Ho Hl Hd Hs. unfold source_range. change (get_num (source_of (PRange id offset length)) "offset") with (Some (f64_of_Z offset)).
  change (get_num (source_of (PRange id offset length)) "length") with (Some (f64_of_Z length)). cbv iota.
  destruct (f64_int_back offset ltac:(lia)) as [-> ->]. destruct (f64_int_back length ltac:(lia)) as [-> ->].
  rewrite (proj2 (Z.ltb_ge (Z.of_nat (slen d)) offset)) by lia. cbv zeta.
  rewrite i64_small, (proj2 (Z.ltb_ge (Z.of_nat (slen d)) (offset + length))) by lia. unfold cut_bytes.
  rewrite (proj2 (Z.leb_le 0 offset)), (proj2 (Z.leb_le offset (offset + length))), (proj2 (Z.leb_le (offset + length) _)) by lia.
  cbn. do 3 f_equal. lia.
Qed.

Lemma source_data_ok p w : piece_ok p -> source_data b c accountID (source_of p) w = (w, Some (Ok (bytes_of p))).
Proof.
  destruct p as [s|s|id offset length]; cbn [piece_ok source_of bytes_of].
  - intros Hs. unfold source_data. cbn. by rewrite Hs.
  - intros _. unfold source_data. cbn -[B64.decode B64.encode_std]. by rewrite decode_encode_std.
  - intros (d & Hd & Ho & Hl & Hb & Hs). unfold source_data. cbn -[source_range jint].
    rewrite St_bind_eq. destruct (Hstored id d w Hd) as (blob & -> & <-). cbn [fst snd mret St_ret].
    rewrite Hd. cbn [default from_option Datatypes.id]. by rewrite (source_range_exact id offset length).
Qed.

Definition concat_strings (l : list string) : string := foldr String.append EmptyString l.
Lemma sources_data_ok ps w :
  Forall piece_ok ps ->
  sources_data b c accountID (map source_of ps) w = (w, Some (Ok (concat_strings (map bytes_of ps)))).
Proof.
  induction 1 as [|p ps Hp Hps IH]; [done|]. cbn [map sources_data]. rewrite St_bind_eq, source_data_ok by done. cbn [fst snd].
  by rewrite St_bind_eq, IH.
Qed.

(** C38: Blob/upload stores the concatenation of its sources, texts and bytes as
    they are and ranges of other blobs as they are stored, under the type of
    the entry, and answers with the blob that the backend made or its error. *)
Theorem upload_stores_concatenation key ty ps acc s :
  Forall piece_ok ps ->
  let run := upload_one b c accountID (Some acc) (key, JObj [("type", JStr ty); ("data", JArr (map (fun p => JObj (source_of p)) ps))]) s in
  let put := bb_PutBlob b c accountID ty (concat_strings (map bytes_of ps)) (fst s) in
  fst (fst run) = fst put
  /\ exists a, snd run = Some a
     /\ match snd put with
        | Ok blob => obj_get (ca_created a) key = Some (StoredBlob_json blob) /\ ca_notCreated a = ca_notCreated acc
        | Err e => obj_get (ca_notCreated a) key = Some (SetError_json (set_error "serverError" (err_Error e))) /\ ca_created a = ca_created acc
        end.
Proof.
  intros Hps. cbv zeta. unfold upload_one. assert (sources_of [("type", JStr ty); ("data", JArr (map (fun p => JObj (source_of p)) ps))]
    = map source_of ps) as ->.
  { unfold sources_of. cbn [obj_get String.eqb Ascii.eqb Bool.eqb]. clear Hps. induction ps as [|p ps IH]; [done|]. cbn. f_equal. exact IH. }
  rewrite St_bind_eq, back_eq, sources_data_ok by done. cbn [fst snd].
  rewrite St_bind_eq, back_eq. cbn [fst snd]. change (str_or_empty [("type", JStr ty); _] "type") with ty.
  destruct (bb_PutBlob b c accountID ty _ (fst s)) as [w' [blob|e]]; cbn [fst snd].
  - rewrite St_bind_eq. cbn [fst snd mret St_ret]. split; [by unfold record_ref; destruct (RecordCreationRefs _ _ _ _)|].
    eexists. split; [done|]. cbn [ca_created ca_notCreated]. by rewrite obj_get_set_eq.
  - split; [done|]. eexists. split; [done|]. cbn. by rewrite obj_get_set_eq.
Qed.
End Upload.

(** One blob, and the ids of new blobs count. *)
Definition demo_blob : StoredBlob := mkStored "b1" EmptyString EmptyString "text/plain" 11 EmptyString "Hello World".
Definition demo_blobs : BlobBackend (list StoredBlob) :=
  mkBlobBackend _
    (fun _ _ ty data w => let blob := mkStored ("n" +:+ fmt_d (Z.of_nat (length w))) EmptyString EmptyString ty (Z.of_nat (slen data)) EmptyString data in
                          (w ++ [blob], Ok blob))
    (fun _ _ id w => (w, if String.eqb id "b1" then BlobIs demo_blob else BlobFails false))
    (fun _ _ w => (w, w)) (fun _ _ _ _ w => (w, Err ErrNotFound)).
Definition demo_stored (id : string) : option string := if String.eqb id "b1" then Some "Hello World" else None.
Lemma demo_stored_ok id d w :
  demo_stored id = Some d -> exists blob, bb_GetBlob demo_blobs Background "a" id w = (w, BlobIs blob) /\ sb_Data blob = d.
Proof. unfold demo_stored. cbn. destruct (String.eqb id "b1"); [|done]. intros [= <-]. by exists demo_blob. Qed.

Lemma upload_stores_concatenation_witness :
  let run := upload_one (H := ascii_runtime) demo_blobs Background "a" (Some (mkCopy ∅ [] [] []))
               ("k", JObj [("type", JStr "text/plain");
                           ("data", JArr (map (fun p => JObj (source_of p)) [PRange "b1" 0 6; PText "old "; PBytes "friend"]))]) ([], None) in
  map sb_Data (fst (fst run)) = ["Hello old friend"].
Proof.
  cbv zeta. destruct (upload_stores_concatenation (H := ascii_runtime) demo_blobs Background "a"
    demo_stored demo_stored_ok
    "k" "text/plain" [PRange "b1" 0 6; PText "old "; PBytes "friend"] (mkCopy ∅ [] [] []) ([], None)) as [T _].
  - constructor; [exists "Hello World"; split_and!; [reflexivity|lia|lia|cbn; lia|cbn; lia]|].
    constructor; [reflexivity|]. constructor; [exact I|constructor].
  - cbv zeta in T. rewrite T. vm_compute. reflexivity.
Defined.

(** A plain text as data that happens to be base64 is decoded: other bytes than
    the client's are stored.  An entry that is no object is dropped without an
    answer, and a length that no integer holds makes the handler panic. *)
Theorem upload_surprises :
  sources_of [("data", JStr "Test")] = [base64_source "Test"] /\ std_decode "Test" <> Some "Test"
  /\ (forall acc s, snd (upload_one (H := ascii_runtime) demo_blobs Background "a" acc ("k", JStr "Test") s) = acc)
  /\ snd (sources_data (H := ascii_runtime) demo_blobs Background "a" [[("blobId", JStr "b1"); ("length", JNum (f64_of_Z (2 ^ 70)))]] []) = None.
Proof.
  split_and!; [vm_compute; reflexivity|vm_compute; discriminate|by intros [acc|] s|vm_compute; reflexivity].
Qed.

(** ** Blob/lookup and Blob/copy *)

Section Answers.
Context {W : Type}.
Variable order : MapOrder.
Variable b : BlobBackend W.
Variable references : option (Ctx -> list string -> string -> St W (list (string * option (list string)))).

Lemma no_matches_get typeNames k : obj_get (no_matches typeNames) k = if decide (k ∈ typeNames) then Some (JArr []) else None.
Proof.
  unfold no_matches. assert (Hgen : forall m, obj_get (foldl (fun m tn => obj_set m tn (JArr [])) m typeNames) k
    = if decide (k ∈ typeNames) then Some (JArr []) else obj_get m k); [|apply Hgen].
  induction typeNames as [|tn l IH]; intros m; [done|]. cbn [foldl]. rewrite IH, obj_get_set.
  destruct (decide (k ∈ l)) as [Hin|Hn]; [by rewrite decide_True by (by right)|].
  destruct (decide (tn = k)) as [->|Hne]; [by rewrite decide_True by (by left)|].
  rewrite decide_False; [done|]. by intros [->|?]%elem_of_cons.
Qed.
Lemma empty_matches_get typeNames l k :
  (forall kv, kv ∈ l -> fst kv ∈ typeNames /\ snd kv = Some []) ->
  obj_get (foldl (fun m kv => obj_set m (fst kv) (nil_ids (snd kv))) (no_matches typeNames) l) k = obj_get (no_matches typeNames) k.
Proof.
  induction l as [|kv l IH] using rev_ind; intros Hl; [done|]. rewrite foldl_app. cbn [foldl]. rewrite obj_get_set.
  destruct (Hl kv) as [Hin Hs]; [apply elem_of_app; right; by left|]. rewrite Hs. case_decide as Hk.
  - subst k. by rewrite no_matches_get, decide_True.
  - apply IH. intros kv' Hkv. apply Hl, elem_of_app. by left.
Qed.

(** Blob/lookup does not tell a blob that does not exist from one that nothing
    refers to: both are answered with an empty list for every type. *)
Theorem lookup_hides_existence c a typeNames id w w' f l :
  references = Some f ->
  (bb_GetBlob b c a id w = (w', BlobFails false)
   \/ exists blob w'' , bb_GetBlob b c a id w = (w'', BlobIs blob) /\ f c typeNames id w'' = (w', l)
        /\ forall kv, kv ∈ l -> fst kv ∈ typeNames /\ snd kv = Some []) ->
  exists m, snd (lookup_one b references c a typeNames [] id w) = [JObj [("id", JStr id); ("matchedIds", JObj m)]]
    /\ forall k, obj_get m k = if decide (k ∈ typeNames) then Some (JArr []) else None.
Proof.
  intros Href Hcase. unfold lookup_one. rewrite St_bind_eq, Href. destruct Hcase as [->|(blob & w'' & -> & Hf & Hl)]; cbn [fst snd].
  - exists (no_matches typeNames). split; [done|]. apply no_matches_get.
  - rewrite St_bind_eq. rewrite St_bind_eq, Hf. cbn [fst snd mret St_ret]. eexists. split; [done|]. intros k.
    rewrite empty_matches_get by done. apply no_matches_get.
Qed.

(** Every blob that Blob/copy is asked for is answered, as copied or as not. *)
Theorem blob_copy_answers c from to entries acc s key id :
  (key, id) ∈ entries ->
  let a := snd (fold_state (copy_blob b c from to) acc entries s) in
  is_Some (obj_get (ca_created a) key) \/ is_Some (obj_get (ca_notCreated a) key).
Proof.
  intros Hin. cbv zeta.
  apply (fold_state_hits (copy_blob b c from to)
    (fun a (kv : string * string) => is_Some (obj_get (ca_created a) (fst kv)) \/ is_Some (obj_get (ca_notCreated a) (fst kv))) entries)
    with (x := (key, id)); [| |by left].
  - intros w a [k i] _. unfold copy_blob. rewrite St_bind_eq. destruct (snd (back _ w)) as [blob|e]; [rewrite St_bind_eq|]; cbn [snd mret St_ret fst].
    + left. cbn. rewrite obj_get_set_eq. by eexists.
    + right. cbn. rewrite obj_get_set_eq. by eexists.
  - intros w a [k i] [k' i'] Hold. unfold copy_blob. rewrite St_bind_eq. destruct (snd (back _ w)) as [blob|e]; [rewrite St_bind_eq|]; cbn -[obj_set obj_get] in *.
    + destruct Hold as [Hc|?]; [left|by right]. rewrite obj_get_set. case_decide; [by eexists|done].
    + destruct Hold as [?|Hc]; [by left|right]. rewrite obj_get_set. case_decide; [by eexists|done].
Qed.
End Answers.
