(* ===== verification/FileNodes.v ===== *)
(** * File nodes

    [jmap/jmapfilenode]: the FileNode type with its JSON form, the interface of
    a file node backend, and the five FileNode methods.  A server without a
    backend answers with empty results in the state "0".  The query of the
    Nextcloud backend ([jmap/nextcloud/filenode.go]) is modelled on the list of
    its nodes. *)

From S2P Require Import Prelude GoSort GoStrings GoState Json Envelope CreationRefs Query Handler Server MailTypes MethodSupport GoJson.
From Stdlib Require Import SpecFloat.

Section Type_.
Context `{GoRuntime}.
Record FileNode : Type := mkFileNode {
  fn_ID : string; fn_Name : string; fn_ParentID : option string; fn_BlobID : option string; fn_Size : uint64; fn_Type : string;
  fn_IsFolder : bool; fn_CreatedAt : string; fn_UpdatedAt : string;
}.
Definition zero_fn : FileNode := mkFileNode wzero wzero wzero wzero wzero wzero wzero wzero wzero.
Definition read_fn (x : FileNode) (kv : string * json) : FileNode :=
  mkFileNode (member "id" kv (fn_ID x)) (member "name" kv (fn_Name x)) (member "parentId" kv (fn_ParentID x))
    (member "blobId" kv (fn_BlobID x)) (member "size" kv (fn_Size x)) (member "type" kv (fn_Type x))
    (member "isFolder" kv (fn_IsFolder x)) (member "createdAt" kv (fn_CreatedAt x)) (member "updatedAt" kv (fn_UpdatedAt x)).
Definition fields_fn (x : FileNode) : list field :=
  [req "id" (fn_ID x); req "name" (fn_Name x); opt "parentId" (fn_ParentID x); opt "blobId" (fn_BlobID x); req "size" (fn_Size x);
   opt "type" (fn_Type x); req "isFolder" (fn_IsFolder x); opt "createdAt" (fn_CreatedAt x); opt "updatedAt" (fn_UpdatedAt x)].
#[export] Instance wire_fn : Wire FileNode := struct_wire zero_fn read_fn fields_fn.
End Type_.

Definition change_lists : Type := list string * list string * list string * string * bool.
Record FileNodeBackend (W : Type) : Type := mkFileNodeBackend {
  fb_State : Ctx -> W -> string;
  fb_Changes : Ctx -> string -> St W change_lists;
  fb_GetAll : Ctx -> St W (result go_error (list FileNode));
  fb_Get : Ctx -> list string -> St W (result go_error (list FileNode) * list string);
  fb_Create : Ctx -> FileNode -> St W (result go_error FileNode);
  fb_Update : Ctx -> string -> obj -> St W (result go_error unit);
  fb_Delete : Ctx -> string -> St W (result go_error bool);
  (** the ids, [None] for the nil slice, and the total *)
  fb_Query : Ctx -> option obj -> Z -> option Z -> St W (result go_error (option (list string) * Z));
}.
Arguments fb_State {W} _ _ _.
Arguments fb_Changes {W} _ _ _.
Arguments fb_GetAll {W} _ _.
Arguments fb_Get {W} _ _ _.
Arguments fb_Create {W} _ _ _.
Arguments fb_Update {W} _ _ _ _.
Arguments fb_Delete {W} _ _ _.
Arguments fb_Query {W} _ _ _ _ _.

Section Methods.
Context `{GoRuntime} {W : Type}.
Variable order : MapOrder.
Variable backend : option (FileNodeBackend W).

Definition node_state (c : Ctx) (s : HState W) : string := match backend with Some b => fb_State b c (fst s) | None => "0" end.

Definition handleFileNodeGet : BackendHandler W := fun c args =>
  state ← gets (node_state c);
  r ← (match backend, get_arr args "ids" with
       | Some b, Some ids => back (fb_Get b c (strings_of ids))
       | Some b, None => l ← back (fb_GetAll b c); mret (l, [])
       | None, _ => mret (Ok [], [])
       end);
  let '(found, notFound) := r in
  mret ("FileNode/get",
        [("accountId", JStr (str_or_empty args "accountId")); ("state", JStr state);
         ("list", JArr (FilterList (map wjson (match found with Ok l => l | Err _ => [] end)) (ParseProperties args)));
         ("notFound", jstrs notFound)]).

(** The page of a query: an error of the backend is an empty page, a missing
    anchor is [None]. *)
Definition node_page (c : Ctx) (args : obj) (position : Z) (anchor : string) (offset : Z) : St (HState W) (option (Z * list string * Z)) :=
  let limit := f64_to_uint64 <$> get_num args "limit" in
  let filter := get_obj args "filter" in
  match backend with
  | None => mret (Some (position, [], 0))
  | Some b =>
      if negb (String.eqb anchor EmptyString)
      then
        r ← back (fb_Query b c filter 0 None);
        mret (match r with
              | Ok (allIDs, total) => (fun pi => (fst pi, snd pi, total)) <$> ApplyQueryAnchor anchor offset (default [] allIDs) limit
              | Err _ => Some (position, [], 0)
              end)
      else
        r ← back (fb_Query b c filter position limit);
        mret (Some (match r with Ok (Some ids, total) => (position, ids, total) | _ => (position, [], 0) end))
  end.
Definition handleFileNodeQuery : BackendHandler W := fun c args =>
  let '(position, posErr) := ParseQueryPosition args in
  let '((anchor, offset), anchorErr) := ParseQueryAnchor args in
  if negb (String.eqb posErr EmptyString) then mret ("error", MethodErrorArgs MethodErrorInvalidArguments posErr)
  else if negb (String.eqb anchorErr EmptyString) then mret ("error", MethodErrorArgs MethodErrorInvalidArguments anchorErr)
  else
    r ← node_page c args position anchor offset;
    match r with
    | None => mret ("error", MethodErrorArgs MethodErrorAnchorNotFound ("anchor not found in results: " +:+ anchor))
    | Some (position, ids, total) =>
        queryState ← gets (node_state c);
        mret ("FileNode/query",
              [("accountId", JStr (str_or_empty args "accountId")); ("queryState", JStr queryState); ("canCalculateChanges", JBool true);
               ("position", jint (NormalizePosition position total)); ("ids", jstrs ids); ("total", jint total)])
    end.

Definition create_node (b : FileNodeBackend W) (c : Ctx) (_ : string) (node : obj) : St W (result create_error (string * json)) :=
  r ← fb_Create b c (unmarshal (JObj node));
  mret (match r with Ok n => Ok (fn_ID n, wjson n) | Err e => Err (create_error_of e) end).
Definition update_node (b : FileNodeBackend W) (c : Ctx) (refs : refmap) (acc : set_acc) (kv : string * json) : St (HState W) set_acc :=
  let resolvedID := ResolveCreationID (fst kv) refs in
  let patch := match snd kv with JObj p => p | _ => [] end in
  r ← back (fb_Update b c resolvedID patch);
  mret (match r with
        | Ok _ => acc_done acc resolvedID JNull
        | Err e => acc_failed acc resolvedID (set_error (match e with GNotFound _ => "notFound" | _ => "invalidProperties" end) (err_Error e))
        end).
Definition destroy_node (b : FileNodeBackend W) (c : Ctx) (refs : refmap) (acc : destroy_acc) (id : string) : St (HState W) destroy_acc :=
  let resolvedID := ResolveCreationID id refs in
  r ← back (fb_Delete b c resolvedID);
  mret (match r with
        | Err e => destroy_failed acc resolvedID (set_error "serverFail" (err_Error e))
        | Ok false => destroy_failed acc resolvedID (set_error "notFound" "filenode not found")
        | Ok true => destroy_done acc resolvedID
        end).
Definition handleFileNodeSet : BackendHandler W := fun c args =>
  let accountID := str_or_empty args "accountId" in
  oldState ← gets (node_state c);
  if match get_str args "ifInState" with Some s => negb (String.eqb s EmptyString) && negb (String.eqb s oldState) | None => false end
  then mret ("error", MethodErrorArgs "stateMismatch" "state mismatch")
  else
    refs ← new_refs;
    match backend with
    | None => mret ("FileNode/set", set_response accountID oldState oldState [] [] (mkAcc [] []) (mkDestroy [] []))
    | Some b =>
        cr ← run_creates order (create_node b c) args refs;
        let '(refs, created, notCreated) := cr in
        u ← range_obj order (get_obj args "update") (update_node b c refs) (mkAcc [] []);
        d ← range_strings (get_arr args "destroy") (destroy_node b c refs) (mkDestroy [] []);
        newState ← gets (node_state c);
        mret ("FileNode/set", set_response accountID oldState newState created notCreated u d)
    end.

Definition node_changes (c : Ctx) (sinceState : string) : St (HState W) change_lists :=
  match backend with Some b => back (fb_Changes b c sinceState) | None => mret ([], [], [], "0", false) end.
Definition handleFileNodeChanges : BackendHandler W := fun c args =>
  let sinceState := str_or_empty args "sinceState" in
  r ← node_changes c sinceState;
  let '(created, updated, destroyed, newState, hasMore) := r in
  mret ("FileNode/changes", changes_response (str_or_empty args "accountId") sinceState newState hasMore created updated destroyed).

Definition handleFileNodeQueryChanges : BackendHandler W := fun c args =>
  let sinceQueryState := str_or_empty args "sinceQueryState" in
  let upToID := str_or_empty args "upToId" in
  newQueryState ← gets (node_state c);
  r ← node_changes c sinceQueryState;
  let '(created, updated, destroyed, _, hasMore) := r in
  if hasMore : bool then mret ("error", MethodErrorArgs "cannotCalculateChanges" "sinceQueryState is too old")
  else
    q ← (match backend with Some b => back (fb_Query b c (get_obj args "filter") 0 None) | None => mret (Ok (None, 0)) end);
    let currentIDs := match q with Ok (ids, _) => default [] ids | Err _ => [] end in
    let '(added, removed) := ComputeQueryChanges created updated destroyed currentIDs upToID in
    mret ("FileNode/queryChanges",
          [("accountId", JStr (str_or_empty args "accountId")); ("oldQueryState", JStr sinceQueryState); ("newQueryState", JStr newQueryState);
           ("added", added_json added); ("removed", jstrs removed)]
          ++ (if String.eqb upToID EmptyString then [] else [("upToId", JStr upToID)])).
End Methods.

(** ** Keeping a result up to date *)

(** A client that splices the deltas of FileNode/queryChanges into an earlier
    result has the result of a query now, and the state it is given is the one
    the answer was computed in, when the backend's changes are complete: the
    nodes in none of its lists stand in the same order in both results. *)
Theorem filenode_query_changes_replay {W} (b : FileNodeBackend W) c args s before after total cr up de newState :
  str_or_empty args "upToId" = EmptyString ->
  snd (fb_Changes b c (str_or_empty args "sinceQueryState") (fst s)) = (cr, up, de, newState, false) ->
  snd (fb_Query b c (get_obj args "filter") 0 None (fst (fb_Changes b c (str_or_empty args "sinceQueryState") (fst s)))) = Ok (Some after, total) ->
  NoDup after ->
  List.filter (fun id => negb (str_in id cr || str_in id up)) after = List.filter (fun id => negb (str_in id (de ++ up))) before ->
  exists resp added removed,
    snd (handleFileNodeQueryChanges (Some b) c args s) = ("FileNode/queryChanges", resp)
    /\ obj_get resp "newQueryState" = Some (JStr (fb_State b c (fst s)))
    /\ obj_get resp "added" = Some (added_json added) /\ obj_get resp "removed" = Some (jstrs removed)
    /\ splice_changes before added removed = after.
Proof.
  intros Hupto Hch Hq Hnd Hsame. destruct (ComputeQueryChanges cr up de after EmptyString) as [added removed] eqn:Hc.
  eexists _, added, removed. split; [|split; [|split; [|split]]].
  - unfold handleFileNodeQueryChanges, node_changes, node_state. rewrite St_bind_eq. cbn [gets fst snd].
    rewrite St_bind_eq, back_eq, Hch. cbn [fst snd]. rewrite St_bind_eq, back_eq. cbn [fst snd]. rewrite Hq, Hupto. cbn [default from_option id]. by rewrite Hc.
  - done.
  - done.
  - done.
  - by eapply splice_rebuilds.
Qed.

(** A backend over a list of ids, of which the last is new. *)
Definition demo_nodes : FileNodeBackend (list string) :=
  mkFileNodeBackend _ (fun _ w => fmt_d (Z.of_nat (length w))) (fun _ _ w => (w, (["n3"], [], ["n1"], "s", false)))
    (fun _ w => (w, Ok [])) (fun _ ids w => (w, (Ok [], ids))) (fun _ n w => (w ++ [fn_ID n], Ok n)) (fun _ _ _ w => (w, Err ErrNotFound))
    (fun _ id w => (List.filter (fun x => negb (String.eqb x id)) w, Ok (str_in id w)))
    (fun _ _ _ _ w => (w, Ok (Some w, Z.of_nat (length w)))).

Lemma filenode_query_changes_replay_witness :
  exists resp added removed,
    snd (handleFileNodeQueryChanges (Some demo_nodes) Background [("sinceQueryState", JStr "2")] (["n2"; "n3"], None))
      = ("FileNode/queryChanges", resp)
    /\ obj_get resp "newQueryState" = Some (JStr "2")
    /\ obj_get resp "added" = Some (added_json added) /\ obj_get resp "removed" = Some (jstrs removed)
    /\ splice_changes ["n1"; "n2"] added removed = ["n2"; "n3"].
Proof.
  apply (filenode_query_changes_replay demo_nodes Background [("sinceQueryState", JStr "2")] (["n2"; "n3"], None)
    ["n1"; "n2"] ["n2"; "n3"] 2 ["n3"] [] ["n1"] "s"); try reflexivity.
  apply (bool_decide_unpack _). vm_compute. exact I.
Defined.

(** ** The query of the Nextcloud backend *)

Section NextcloudQuery.
Context `{GoRuntime}.

Definition is_folder_type (t : string) : bool := str_in t ["folder"; "directory"].
Definition nonempty_filter (f : obj) (k : string) (test : string -> bool) : bool :=
  match get_str f k with Some v => String.eqb v EmptyString || test v | None => true end.
Definition match_node (filter : option obj) (n : FileNode) : bool :=
  match filter with
  | None => true
  | Some f =>
      nonempty_filter f "name" (fun name => Contains (ToLower (fn_Name n)) (ToLower name))
      && match get_bool f "isFolder" with Some isF => Bool.eqb (fn_IsFolder n) isF | None => true end
      && nonempty_filter f "type" (fun t =>
           if String.eqb t "file" then negb (fn_IsFolder n || is_folder_type (fn_Type n))
           else if is_folder_type t then fn_IsFolder n || is_folder_type (fn_Type n)
           else EqualFold (fn_Type n) t)
      && match get_str f "parentId" with
         | Some pid => if String.eqb pid EmptyString then match fn_ParentID n with None => true | Some _ => false end
                       else match fn_ParentID n with Some p => String.eqb p pid | None => false end
         | None => true
         end
      && nonempty_filter f "blobId" (fun bid => match fn_BlobID n with Some x => String.eqb x bid | None => false end)
  end.
Definition matching_ids (filter : option obj) (nodes : list FileNode) : list string :=
  stable_sort String.ltb (map fn_ID (List.filter (match_node filter) nodes)).
(** [None]: the capacity of the page is negative, which panics. *)
Definition QueryFileNodes (nodes : list FileNode) (filter : option obj) (position : Z) (limit : option Z) : option (list string * Z) :=
  let matching := matching_ids filter nodes in
  let total := Z.of_nat (length matching) in
  let position := NormalizePosition position total in
  if total <=? position then Some ([], total)
  else
    let end_ := match limit with
                | Some l => if i64 (position + i64 l) <? total then i64 (position + i64 l) else total
                | None => total
                end in
    if end_ <? position then None else Some (slice position end_ matching, total).
End NextcloudQuery.

(** The pages of a query are cut from one list: the ids of the matching nodes,
    each once, in the order of their bytes.  A page starts at the position,
    holds at most the limit, and ends early only at the end of the list. *)
Theorem node_query_pages `{GoRuntime} nodes filter position limit :
  Z.of_nat (length nodes) < 2 ^ 62 -> 0 <= position < 2 ^ 62 -> (forall l, limit = Some l -> 0 <= l < 2 ^ 62) ->
  let all := matching_ids filter nodes in
  all ≡ₚ map fn_ID (List.filter (match_node filter) nodes)
  /\ Sorted.StronglySorted (fun x y => String.compare x y <> Gt) all
  /\ QueryFileNodes nodes filter position limit
     = Some (match limit with
             | Some l => take (Z.to_nat l) (drop (Z.to_nat position) all)
             | None => drop (Z.to_nat position) all
             end, Z.of_nat (length all)).
Proof.
  intros Hn Hp Hl. cbv zeta. destruct (stable_sort_spec String.compare lawful_string (map fn_ID (List.filter (match_node filter) nodes)))
    as (P & S & _). split_and!; [exact P|exact S|].
  unfold QueryFileNodes. set (all := matching_ids filter nodes). assert (Hall : Z.of_nat (length all) < 2 ^ 62).
  { assert (length all = length (List.filter (match_node filter) nodes)) as -> by (etransitivity; [exact (Permutation_length P)|apply length_map]).
    pose proof (List.filter_length_le (match_node filter) nodes). lia. }
  unfold NormalizePosition. rewrite (proj2 (Z.ltb_ge position 0)) by lia.
  destruct (Z.leb_spec (Z.of_nat (length all)) position) as [Hge|Hlt].
  - rewrite drop_ge by lia. by destruct limit as [l|]; [rewrite take_nil|].
  - destruct limit as [l|].
    + specialize (Hl l eq_refl). rewrite (i64_small l), i64_small by lia. destruct (Z.ltb_spec (position + l) (Z.of_nat (length all))).
      * rewrite (proj2 (Z.ltb_ge (position + l) position)) by lia. unfold slice. do 3 f_equal. lia.
      * rewrite (proj2 (Z.ltb_ge (Z.of_nat (length all)) position)) by lia. unfold slice. f_equal. f_equal.
        rewrite !take_ge; [done|rewrite length_drop; lia..].
    + rewrite (proj2 (Z.ltb_ge (Z.of_nat (length all)) position)) by lia. unfold slice. f_equal. f_equal.
      rewrite take_ge; [done|rewrite length_drop; lia].
Qed.

Definition demo_node (id name : string) : FileNode := mkFileNode id name None None 0 "text/plain" false EmptyString EmptyString.
Lemma node_query_pages_witness :
  QueryFileNodes (H := ascii_runtime) [demo_node "c" "Notes"; demo_node "a" "notes.txt"; demo_node "b" "Music"]
    (Some [("name", JStr "NOTE")]) 1 (Some 5) = Some (["c"], 2).
Proof.
  destruct (node_query_pages (H := ascii_runtime) [demo_node "c" "Notes"; demo_node "a" "notes.txt"; demo_node "b" "Music"]
    (Some [("name", JStr "NOTE")]) 1 (Some 5)) as (_ & _ & T); [cbn; lia|lia|intros l [= <-]; lia|].
  rewrite T. vm_compute. reflexivity.
Defined.

(** A limit of 2^63 or more becomes negative and the query panics. *)
Theorem huge_node_limit_panics `{GoRuntime} :
  QueryFileNodes [demo_node "a" "x"] None 0 (Some (2 ^ 63)) = None.
Proof. vm_compute. reflexivity. Qed.
