(* ===== verification/Principals.v ===== *)
(** * Principals and their availability

    [jmap/jmapprincipals/principals.go] and [jmap/principals_handlers.go]: the
    principals with their JSON form, their filter, the interface of a
    principals backend and the six Principal methods. *)

From S2P Require Import Prelude GoSort GoStrings GoState Json Envelope CreationRefs Query Handler Server MailTypes MethodSupport GoJson.
From Stdlib Require Import SpecFloat.

Section Types.
Context `{GoRuntime}.
Record Principal : Type := mkPrincipal {
  pr_ID : string; pr_Type : string; pr_Name : string; pr_Description : string; pr_Email : string; pr_CalendarAddress : string;
  pr_Members : gmap string bool; pr_MemberOf : gmap string bool; pr_Secret : bool; pr_MayGetAvailability : bool;
  pr_MayShareWith : bool; pr_AccountIDs : gmap string bool;
}.
Definition principal_json (p : Principal) : json :=
  struct_json [req "id" (pr_ID p); req "type" (pr_Type p); req "name" (pr_Name p); opt "description" (pr_Description p);
               opt "email" (pr_Email p); opt "calendarAddress" (pr_CalendarAddress p); opt "members" (pr_Members p);
               opt "memberOf" (pr_MemberOf p); req "secret" (pr_Secret p); req "mayGetAvailability" (pr_MayGetAvailability p);
               req "mayShareWith" (pr_MayShareWith p); opt "accountIds" (pr_AccountIDs p)].
Record AvailabilityWindow : Type := mkWindow { aw_UTCStart : string; aw_UTCEnd : string; aw_FreeBusyStatus : string }.
Definition window_json (w : AvailabilityWindow) : json :=
  struct_json [req "utcStart" (aw_UTCStart w); req "utcEnd" (aw_UTCEnd w); req "freeBusyStatus" (aw_FreeBusyStatus w)].

(** ** The filter *)

Definition filter_text (f : obj) (k : string) (test : string -> bool) : bool :=
  match get_str f k with Some v => String.eqb v EmptyString || test v | None => true end.
Definition contains_lower (s sub : string) : bool := Contains (ToLower s) (ToLower sub).
Definition MatchPrincipal (p : Principal) (filter : option obj) : bool :=
  match filter with
  | None => true
  | Some f =>
      filter_text f "type" (String.eqb (pr_Type p))
      && filter_text f "name" (contains_lower (pr_Name p))
      && filter_text f "email" (contains_lower (pr_Email p))
      && filter_text f "text" (fun t => contains_lower (pr_Name p) t || contains_lower (pr_Email p) t || contains_lower (pr_Description p) t)
      && match get_arr f "accountIds" with
         | Some l => existsb (fun a => default false (pr_AccountIDs p !! a)) (strings_of l)
         | None => true
         end
  end.
End Types.

(** A slice of ids that is written as it is: nil as null. *)
Definition ids_json (l : option (list string)) : json := match l with Some l => jstrs l | None => JNull end.
Record PrincipalsBackend (W : Type) : Type := mkPrincipalsBackend {
  pb_State : Ctx -> W -> string;
  pb_Changes : Ctx -> string -> St W (option (list string) * option (list string) * option (list string) * string * bool);
  pb_Get : Ctx -> list string -> St W (result go_error (list Principal) * list string);
  pb_GetAll : Ctx -> St W (result go_error (list Principal));
  pb_Create : Ctx -> Principal -> St W (result go_error Principal);
  (** the principal after the update, [None] for a nil pointer *)
  pb_Update : Ctx -> string -> obj -> St W (result go_error (option Principal));
  pb_Delete : Ctx -> string -> St W (result go_error bool);
  pb_Query : Ctx -> option obj -> Z -> option Z -> St W (result go_error (option (list string) * Z));
  pb_GetAvailability : Ctx -> string -> string -> string -> St W (result go_error (list AvailabilityWindow));
}.
Arguments pb_State {W} _ _ _.
Arguments pb_Changes {W} _ _ _.
Arguments pb_Get {W} _ _ _.
Arguments pb_GetAll {W} _ _.
Arguments pb_Create {W} _ _ _.
Arguments pb_Update {W} _ _ _ _.
Arguments pb_Delete {W} _ _ _.
Arguments pb_Query {W} _ _ _ _ _.
Arguments pb_GetAvailability {W} _ _ _ _ _.

Section Methods.
Context `{GoRuntime} {W : Type}.
Variable order : MapOrder.
Variable backend : option (PrincipalsBackend W).

Definition unsupported : string * obj := ("error", MethodErrorArgs "unknownMethod" "Principals capability not supported").
Definition with_principals (f : PrincipalsBackend W -> St (HState W) (string * obj)) : St (HState W) (string * obj) :=
  match backend with Some b => f b | None => mret unsupported end.
Definition server_fail (e : go_error) : string * obj := ("error", MethodErrorArgs "serverFail" (err_Error e)).

Definition handlePrincipalGet : BackendHandler W := fun c args => with_principals (fun b =>
  r ← back (match get_arr args "ids" with
            | Some ids => pb_Get b c (strings_of ids)
            | None => l ← pb_GetAll b c; mret (l, [])
            end);
  match r with
  | (Err e, _) => mret (server_fail e)
  | (Ok found, notFound) =>
      state ← gets (fun s => pb_State b c (fst s));
      mret ("Principal/get",
            [("accountId", JStr (str_or_empty args "accountId")); ("state", JStr state);
             ("list", JArr (FilterList (map principal_json found) (ParseProperties args))); ("notFound", jstrs notFound)])
  end).

Definition handlePrincipalChanges : BackendHandler W := fun c args => with_principals (fun b =>
  let sinceState := str_or_empty args "sinceState" in
  r ← back (pb_Changes b c sinceState);
  let '(created, updated, destroyed, newState, hasMore) := r in
  mret ("Principal/changes",
        [("accountId", JStr (str_or_empty args "accountId")); ("oldState", JStr sinceState); ("newState", JStr newState);
         ("hasMoreChanges", JBool hasMore); ("created", ids_json created); ("updated", ids_json updated); ("destroyed", ids_json destroyed)])).

Definition handlePrincipalQuery : BackendHandler W := fun c args => with_principals (fun b =>
  let position := match get_num args "position" with Some f => f64_to_int f | None => 0 end in
  r ← back (pb_Query b c (get_obj args "filter") position (f64_to_uint64 <$> get_num args "limit"));
  match r with
  | Err e => mret (server_fail e)
  | Ok (ids, total) =>
      state ← gets (fun s => pb_State b c (fst s));
      mret ("Principal/query",
            [("accountId", JStr (str_or_empty args "accountId")); ("queryState", JStr state); ("canCalculateChanges", JBool true);
             ("position", jint position); ("total", jint total); ("ids", ids_json ids)])
  end).

Definition handlePrincipalQueryChanges : BackendHandler W := fun c args => with_principals (fun b =>
  state ← gets (fun s => pb_State b c (fst s));
  mret ("Principal/queryChanges",
        [("accountId", JStr (str_or_empty args "accountId")); ("oldQueryState", JStr (str_or_empty args "sinceQueryState"));
         ("newQueryState", JStr state); ("added", JArr []); ("removed", JArr [])])).

Definition new_principal (accountID : string) (item : obj) : Principal :=
  let type := str_or_empty item "type" in
  let email := str_or_empty item "email" in
  mkPrincipal EmptyString (if String.eqb type EmptyString then "individual" else type) (str_or_empty item "name") EmptyString email
    ("mailto:" +:+ email) ∅ ∅ false true true {[accountID := true]}.
Definition create_principal (b : PrincipalsBackend W) (c : Ctx) (accountID : string) (acc : copy_acc) (kv : string * json)
  : St (HState W) copy_acc :=
  match snd kv with
  | JObj item =>
      r ← back (pb_Create b c (new_principal accountID item));
      match r with
      | Err e => mret (copy_failed acc (fst kv) (set_error "invalidProperties" (err_Error e)))
      | Ok p =>
          refs ← record_ref (ca_refs acc) (fst kv) (pr_ID p);
          mret (mkCopy refs (obj_set (ca_created acc) (fst kv) (principal_json p)) (ca_notCreated acc) (ca_originals acc))
      end
  | _ => mret acc
  end.
Definition update_principal (b : PrincipalsBackend W) (c : Ctx) (acc : set_acc) (kv : string * json) : St (HState W) set_acc :=
  match snd kv with
  | JObj patch =>
      r ← back (pb_Update b c (fst kv) patch);
      mret (match r with
            | Err e => acc_failed acc (fst kv) (set_error "notFound" (err_Error e))
            | Ok (Some p) => acc_done acc (fst kv) (principal_json p)
            | Ok None => acc_done acc (fst kv) JNull
            end)
  | _ => mret acc
  end.
Definition destroy_principal (b : PrincipalsBackend W) (c : Ctx) (acc : destroy_acc) (id : string) : St (HState W) destroy_acc :=
  r ← back (pb_Delete b c id);
  mret (match r with Ok true => destroy_done acc id | _ => destroy_failed acc id (set_error "notFound" "principal not found") end).
Definition handlePrincipalSet : BackendHandler W := fun c args => with_principals (fun b =>
  let accountID := str_or_empty args "accountId" in
  refs ← new_refs;
  a ← range_obj order (get_obj args "create") (create_principal b c accountID) (mkCopy refs [] [] []);
  u ← range_obj order (get_obj args "update") (update_principal b c) (mkAcc [] []);
  d ← range_strings (get_arr args "destroy") (destroy_principal b c) (mkDestroy [] []);
  state ← gets (fun s => pb_State b c (fst s));
  mret ("Principal/set", set_response accountID state state (ca_created a) (ca_notCreated a) u d)).

Definition handlePrincipalGetAvailability : BackendHandler W := fun c args => with_principals (fun b =>
  let id := str_or_empty args "principalId" in
  if String.eqb id EmptyString then mret ("error", MethodErrorArgs MethodErrorInvalidArguments "principalId required")
  else
    r ← back (pb_Get b c [id]);
    match r with
    | (Ok (p :: _), []) =>
        if negb (pr_MayGetAvailability p)
        then mret ("error", MethodErrorArgs "forbidden" "mayGetAvailability is false for principal")
        else
          r ← back (pb_GetAvailability b c (pr_ID p) (str_or_empty args "utcStart") (str_or_empty args "utcEnd"));
          mret (match r with
                | Err e => server_fail e
                | Ok windows => ("Principal/getAvailability",
                                 [("accountId", JStr (str_or_empty args "accountId")); ("principalId", JStr (pr_ID p));
                                  ("list", JArr (map window_json windows))])
                end)
    | _ => mret ("error", MethodErrorArgs MethodErrorInvalidArguments ("principal " +:+ fmt_q id +:+ " not found"))
    end).
End Methods.

(** ** Availability *)

(** The availability of a principal is shown only when the principal allows it:
    an answer that is no error carries the windows of a principal that the
    backend found under the id of the request and that may be asked. *)
Theorem availability_respects_permission `{GoRuntime} {W} (b : PrincipalsBackend W) c args s resp :
  snd (handlePrincipalGetAvailability (Some b) c args s) = ("Principal/getAvailability", resp) ->
  exists p rest windows,
    snd (pb_Get b c [str_or_empty args "principalId"] (fst s)) = (Ok (p :: rest), [])
    /\ pr_MayGetAvailability p = true
    /\ snd (pb_GetAvailability b c (pr_ID p) (str_or_empty args "utcStart") (str_or_empty args "utcEnd")
              (fst (pb_Get b c [str_or_empty args "principalId"] (fst s)))) = Ok windows
    /\ obj_get resp "list" = Some (JArr (map window_json windows)).
Proof.
  unfold handlePrincipalGetAvailability, with_principals. destruct (String.eqb _ _); [done|]. rewrite St_bind_eq, back_eq. cbn [fst snd].
  destruct (snd (pb_Get b c _ (fst s))) as [[[|p rest]|e] [|x l]] eqn:Eg; cbn [snd mret St_ret]; try done.
  destruct (pr_MayGetAvailability p) eqn:Ep; cbn [negb]; [|done]. rewrite St_bind_eq, back_eq. cbn [fst snd].
  destruct (snd (pb_GetAvailability _ _ _ _ _ _)) as [windows|e] eqn:Ew; [|done]. intros [= <-].
  exists p, rest, windows. by split_and!.
Qed.

(** The states of a Principal/set are both read when it is done: whatever it
    changed, it claims that nothing did.  And Principal/queryChanges reports no
    change whatever the old state is, although Principal/query says that changes
    can be calculated. *)
Theorem principal_states_hide_changes `{GoRuntime} {W} order (b : PrincipalsBackend W) c args s :
  let set_resp := snd (snd (handlePrincipalSet order (Some b) c args s)) in
  let qc_resp := snd (snd (handlePrincipalQueryChanges (Some b) c args s)) in
  obj_get set_resp "oldState" = obj_get set_resp "newState"
  /\ obj_get qc_resp "added" = Some (JArr []) /\ obj_get qc_resp "removed" = Some (JArr [])
  /\ obj_get qc_resp "newQueryState" = Some (JStr (pb_State b c (fst s))).
Proof.
  cbv zeta. split_and!; [|reflexivity..]. unfold handlePrincipalSet, with_principals. rewrite !St_bind_eq. reflexivity.
Qed.

(** One principal, whose availability may be asked for. *)
Definition demo_principal : Principal :=
  mkPrincipal "p1" "individual" "Ann" EmptyString "ann@example.com" EmptyString ∅ ∅ false true true ∅.
Definition demo_principals : PrincipalsBackend unit :=
  mkPrincipalsBackend _ (fun _ _ => "1") (fun _ _ w => (w, (None, None, None, "1", false)))
    (fun _ ids w => (w, if bool_decide (ids = ["p1"]) then (Ok [demo_principal], []) else (Ok [], ids))) (fun _ w => (w, Ok [demo_principal]))
    (fun _ p w => (w, Ok p)) (fun _ _ _ w => (w, Err ErrNotFound)) (fun _ _ w => (w, Ok false)) (fun _ _ _ _ w => (w, Ok (Some ["p1"], 1)))
    (fun _ _ a b w => (w, Ok [mkWindow a b "busy"])).

Lemma availability_respects_permission_witness :
  let args := [("principalId", JStr "p1"); ("utcStart", JStr "s"); ("utcEnd", JStr "e")] in
  exists windows,
    obj_get (snd (snd (handlePrincipalGetAvailability (H := ascii_runtime) (Some demo_principals) Background args (tt, None)))) "list"
      = Some (JArr (map window_json windows))
    /\ windows = [mkWindow "s" "e" "busy"].
Proof.
  intros args. destruct (availability_respects_permission (H := ascii_runtime) demo_principals Background args (tt, None)
    (snd (snd (handlePrincipalGetAvailability (H := ascii_runtime) (Some demo_principals) Background args (tt, None)))) eq_refl)
    as (p & rest & windows & Hp & _ & Hw & Hl).
  exists windows. split; [exact Hl|]. vm_compute in Hw. congruence.
Defined.
