(* ===== verification/Submissions.v ===== *)
(** * Email submissions

    [jmap/jmapmail/submission_handlers.go]: the five EmailSubmission methods.
    A create reads the email, makes or checks the envelope, delivers to the
    recipients (to an outer SMTP server when there is one, otherwise to local
    inboxes and through the outbound relay) and stores the submission; the
    arguments onSuccessUpdateEmail and onSuccessDestroyEmail then change emails,
    reported by an implicit Email/set response.

    The third-party address parser is [parse_address] (the domain of an address
    and its printed form); the text of a message without a stored blob is
    [FormatEmailRFC822], an argument. *)

From S2P Require Import Prelude GoSort GoStrings GoState Json Envelope CreationRefs Query Handler Server MailTypes Keywords MailQuery MethodSupport Identities GoTime GoJson EmailGet MimeBody MessageId MimeParse EmailSet.
From Stdlib Require Import SpecFloat.

(** ** Types *)

Record SubmissionAddress : Type := mkSubAddress { sa_Email : string; sa_Parameters : obj }.
Record SubmissionEnvelope : Type := mkSubEnvelope { ev_MailFrom : SubmissionAddress; ev_RcptTo : list SubmissionAddress }.
Record DeliveryStatus : Type := mkDelivery { ds_SmtpReply : string; ds_Delivered : string; ds_Displayed : string }.
Record DSNParameters : Type := mkDSN { dsn_Ret : string; dsn_Envid : string }.
Record MDNParameters : Type := mkMDNParameters { mdn_Disposition : string; mdn_FinalRecipient : string; mdn_OriginalMessageID : string }.
Record EmailSubmission : Type := mkSubmission {
  su_ID : string; su_IdentityID : string; su_EmailID : string; su_ThreadID : string; su_Envelope : option SubmissionEnvelope;
  su_SendAt : string; su_UndoStatus : string; su_DeliveryStatus : list (string * DeliveryStatus);
  su_DSN : option DSNParameters; su_MDN : option MDNParameters;
}.
Definition address_object (a : SubmissionAddress) : json :=
  JObj ([("email", JStr (sa_Email a))] ++ match sa_Parameters a with [] => [] | p => [("parameters", JObj p)] end).
(** A nil list of recipients is written as null. *)
Definition envelope_json (e : SubmissionEnvelope) : json :=
  JObj [("mailFrom", address_object (ev_MailFrom e));
        ("rcptTo", match ev_RcptTo e with [] => JNull | l => JArr (map address_object l) end)].
Definition delivery_json (d : DeliveryStatus) : json :=
  struct_json [opt "smtpReply" (ds_SmtpReply d); req "delivered" (ds_Delivered d); opt "displayed" (ds_Displayed d)].
Definition dsn_json (d : DSNParameters) : json := struct_json [opt "ret" (dsn_Ret d); opt "envid" (dsn_Envid d)].
Definition mdn_parameters_json (m : MDNParameters) : json :=
  struct_json [opt "disposition" (mdn_Disposition m); opt "finalRecipient" (mdn_FinalRecipient m);
               opt "originalMessageId" (mdn_OriginalMessageID m)].
Definition submission_json (s : EmailSubmission) : json :=
  JObj ([("id", JStr (su_ID s)); ("identityId", JStr (su_IdentityID s)); ("emailId", JStr (su_EmailID s)); ("threadId", JStr (su_ThreadID s))]
        ++ match su_Envelope s with Some e => [("envelope", envelope_json e)] | None => [] end
        ++ [("sendAt", JStr (su_SendAt s)); ("undoStatus", JStr (su_UndoStatus s))]
        ++ match su_DeliveryStatus s with [] => [] | l => [("deliveryStatus", JObj (map (fun kv => (fst kv, delivery_json (snd kv))) l))] end
        ++ match su_DSN s with Some d => [("dsn", dsn_json d)] | None => [] end
        ++ match su_MDN s with Some m => [("mdn", mdn_parameters_json m)] | None => [] end).

Record OutboundDeliveryResult : Type := mkOutbound { od_Delivered : bool; od_SmtpReply : string }.
Record SubmissionOps (W : Type) : Type := mkSubmissionOps {
  so_SubmissionState : Ctx -> St W string;
  so_SubmissionChanges : Ctx -> string -> option Z -> St W (list string * list string * list string * string * bool);
  so_CreateSubmission : Ctx -> EmailSubmission -> St W (result go_error EmailSubmission);
  so_UpdateSubmission : Ctx -> string -> obj -> St W (result go_error (option EmailSubmission));
  so_DeleteSubmission : Ctx -> string -> St W (result go_error bool);
  so_GetSubmissions : Ctx -> list string -> St W (result go_error (list EmailSubmission) * list string);
  so_GetAllSubmissions : Ctx -> St W (result go_error (list EmailSubmission));
  (** the ids and the total; the error is not looked at *)
  so_QuerySubmissions : Ctx -> option obj -> list Comparator -> Z -> option Z -> St W (list string * Z);
}.
Arguments so_SubmissionState {W} _ _.
Arguments so_SubmissionChanges {W} _ _ _ _.
Arguments so_CreateSubmission {W} _ _ _.
Arguments so_UpdateSubmission {W} _ _ _ _.
Arguments so_DeleteSubmission {W} _ _ _.
Arguments so_GetSubmissions {W} _ _ _.
Arguments so_GetAllSubmissions {W} _ _.
Arguments so_QuerySubmissions {W} _ _ _ _ _ _.

Definition submissionSortableProperties : list string := ["emailId"; "threadId"; "sendAt"; "sentAt"; "undoStatus"].

(** ** The envelope *)

Section Envelope.
Context `{GoRuntime} `{MailText} `{AddressFormat}.
Variable parse_address : string -> option (string * string).

Definition extractDomainFromAddress (address : string) : string :=
  match parse_address address with Some (domain, _) => ToLower domain | None => EmptyString end.
Definition address_valid (a : string) : bool := match parse_address a with Some _ => true | None => false end.
Definition nonempty_email (a : EmailAddress) : option string := if String.eqb (ea_Email a) EmptyString then None else Some (ea_Email a).

Definition address_of (m : obj) : SubmissionAddress := mkSubAddress (str_or_empty m "email") (default [] (get_obj m "parameters")).
Definition given_envelope (subData : obj) : option SubmissionEnvelope :=
  (fun envMap => mkSubEnvelope (match get_obj envMap "mailFrom" with Some m => address_of m | None => mkSubAddress EmptyString [] end)
                   (map address_of (objects_of (get_arr envMap "rcptTo")))) <$> get_obj subData "envelope".
(** The identity of a submission that names none: that of the sender of the
    envelope, or the first. *)
Definition pick_identity (identities : list Identity) (env : option SubmissionEnvelope) (identityID : string) : string :=
  if negb (String.eqb identityID EmptyString) then identityID
  else match env with
       | Some e =>
           if String.eqb (sa_Email (ev_MailFrom e)) EmptyString then EmptyString
           else match List.find (fun i => EqualFold (id_Email i) (sa_Email (ev_MailFrom e))) identities with
                | Some i => if String.eqb (id_ID i) EmptyString then default EmptyString (id_ID <$> head identities) else id_ID i
                | None => default EmptyString (id_ID <$> head identities)
                end
       | None => EmptyString
       end.
Definition invalid_properties (d : string) : SetError := set_error "invalidProperties" d.
Definition check_identity (identities : list Identity) (identityID : string) : option SetError :=
  if String.eqb identityID EmptyString then Some (invalid_properties "identityId is required")
  else match identities with
       | [] => None
       | _ => if existsb (fun i => String.eqb (id_ID i) identityID) identities || String.eqb identityID "id-default" then None
              else Some (invalid_properties "identityId not found")
       end.
Definition check_header (h : EmailHeader) : option SetError :=
  if EqualFold (eh_Name h) "From" || EqualFold (eh_Name h) "Sender"
  then match mt_ParseAddressList (eh_Value h) with
       | Some _ => None
       | None => Some (invalid_properties ("message is not valid RFC 5322: invalid " +:+ eh_Name h +:+ " header"))
       end
  else None.
Definition check_from (a : EmailAddress) : option SetError :=
  match nonempty_email a with
  | Some e => match af_ParseAddress e with Some _ => None | None => Some (invalid_properties "invalid From address: not valid RFC 5322") end
  | None => None
  end.
Definition too_large (maxSz : Z) : SetError :=
  mkSetError "tooLarge" "message exceeds maximum allowed size" [] [] EmptyString (Some maxSz) None [].
Definition check_message (maxSubmissionSize : Z) (em : Email) : option SetError :=
  match first_refusal check_header (em_Headers em), first_refusal check_from (em_From em) with
  | Some e, _ => Some e
  | None, Some e => Some e
  | None, None =>
      let maxSz := if maxSubmissionSize =? 0 then 50 * 1024 * 1024 else maxSubmissionSize in
      if maxSz <? em_Size em then Some (too_large maxSz) else None
  end.

(** The recipients of an email, each address once whatever its case. *)
Definition add_rcpt (acc : list SubmissionAddress * list string) (a : EmailAddress) : list SubmissionAddress * list string :=
  let clean := TrimSpace (ea_Email a) in
  if String.eqb clean EmptyString || str_in (ToLower clean) (snd acc) then acc
  else (fst acc ++ [mkSubAddress clean []], ToLower clean :: snd acc).
Definition generated_recipients (em : Email) : list SubmissionAddress :=
  fst (foldl add_rcpt ([], []) (em_To em ++ em_CC em ++ em_BCC em)).
Definition generated_sender (identities : list Identity) (identityID accountEmail : string) (em : Email) : string :=
  match head (em_Sender em) ≫= nonempty_email, head (em_From em) ≫= nonempty_email with
  | Some e, _ => e
  | None, Some e => e
  | None, None =>
      let own := default EmptyString (id_Email <$> List.find (fun i => String.eqb (id_ID i) identityID) identities) in
      if String.eqb own EmptyString then accountEmail else own
  end.
Definition final_envelope (identities : list Identity) (identityID accountEmail : string) (em : Email) (env : option SubmissionEnvelope)
  : result SetError SubmissionEnvelope :=
  match env with
  | Some e => Ok e
  | None =>
      let mailFrom := generated_sender identities identityID accountEmail em in
      if String.eqb mailFrom EmptyString
      then Err (invalid_properties "message is not valid RFC 5322: no From or Identity email address")
      else Ok (mkSubEnvelope (mkSubAddress mailFrom []) (generated_recipients em))
  end.
Definition check_sender (e : SubmissionEnvelope) : option SetError :=
  let from := sa_Email (ev_MailFrom e) in
  if String.eqb from EmptyString then None
  else if negb (address_valid from) then Some (invalid_properties "invalid envelope mailFrom address")
  else if Contains (ToLower from) "forbidden" || Contains (ToLower from) "unauthorized"
  then Some (set_error "forbidden" "user does not have permission to send from this MAIL FROM address")
  else None.
Definition recipients_of (e : SubmissionEnvelope) : list string :=
  List.filter (fun r => negb (String.eqb r EmptyString)) (map sa_Email (ev_RcptTo e)).
Definition maxRecipientsLimit : Z := 100.
Definition check_recipients (recipients : list string) : option SetError :=
  match recipients with
  | [] => Some (set_error "noRecipients" "email and envelope have no recipients")
  | _ =>
      if maxRecipientsLimit <? Z.of_nat (length recipients)
      then Some (mkSetError "tooManyRecipients" "too many recipients" [] [] EmptyString None (Some maxRecipientsLimit) [])
      else match List.filter (fun r => negb (address_valid (TrimSpace r))) recipients with
           | [] => None
           | l => Some (mkSetError "invalidRecipients" "one or more recipient email addresses are invalid" [] [] EmptyString None None l)
           end
  end.
End Envelope.

(** ** Delivery *)

Definition status_map : Type := list (string * DeliveryStatus).
Definition failed (reply : string) : DeliveryStatus := mkDelivery reply "failed" EmptyString.
Definition delivered_ok (reply : string) : DeliveryStatus := mkDelivery reply "yes" EmptyString.
Definition not_allowed : DeliveryStatus := failed "550 5.7.1 Recipient not in allow-list".

Section Delivery.
Context `{GoRuntime} `{MailText} `{AddressFormat} `{AddressText} `{HeaderText} {W : Type}.
Variable parse_address : string -> option (string * string).
Variable blobs : option (BlobStore W).
Variable wr : EmailWrites W.
Variable mailboxes : Ctx -> St W (result go_error (list Mailbox)).
Variable resolver : option (Ctx -> string -> string * bool).
Variable allowedRecipients : gmap string bool.
Variable outbound : option (Ctx -> string -> list string -> string -> St W (list (string * OutboundDeliveryResult))).
Variable FormatEmailRFC822 : Email * SMIME -> string.

Definition InboxMailboxID (c : Ctx) : St W string :=
  r ← mailboxes c;
  mret (match r with
        | Ok l => default EmptyString (mb_ID <$> List.find (fun mb => match mb_Role mb with Some r => String.eqb r "inbox" | None => false end) l)
        | Err _ => EmptyString
        end).
Definition MailboxIDByName (c : Ctx) (name : string) : St W string :=
  if String.eqb name EmptyString then mret EmptyString
  else
    r ← mailboxes c;
    mret (match r with
          | Ok l => default EmptyString (mb_ID <$> List.find (fun mb =>
              EqualFold (mb_Name mb) name || match mb_Role mb with Some r => EqualFold r name | None => false end) l)
          | Err _ => EmptyString
          end).

Definition active_resolver : Ctx -> string -> string * bool :=
  match resolver with Some r => r | None => fun _ => ResolveAccountID parse_address "example.com" end.
(** The account of a recipient, and whether it is local: also every address in
    the domain of the sender is. *)
Definition resolve_recipient (c : Ctx) (accountEmail rcpt : string) : string * bool :=
  let '(account, local) := active_resolver c rcpt in
  if local : bool then (account, true)
  else if String.eqb accountEmail EmptyString then (account, false)
  else match parse_address accountEmail, parse_address rcpt with
       | Some (d1, _), Some (d2, _) => if EqualFold d1 d2 then (AccountIDForSubject rcpt, true) else (account, false)
       | _, _ => (account, false)
       end.
Definition recipient_allowed (rcpt : string) : bool :=
  bool_decide (allowedRecipients = ∅) || default false (allowedRecipients !! "*") || default false (allowedRecipients !! ToLower rcpt).

(** Everything goes to the outer SMTP server: the recipients that may not be
    written to are marked, the others counted. *)
Definition route_one (c : Ctx) (accountEmail : string) (acc : status_map * Z) (rcpt : string) : status_map * Z :=
  let clean := TrimSpace rcpt in
  if String.eqb clean EmptyString then acc
  else if snd (resolve_recipient c accountEmail clean) || recipient_allowed clean then (fst acc, snd acc + 1)
  else (assoc_set (fst acc) clean not_allowed, snd acc).

(** Local delivery: a copy in the inbox of the recipient. *)
Definition local_copy (em : Email) (inboxID : string) : Email :=
  mkEmail EmptyString (em_BlobID em) (em_ThreadID em) [(inboxID, true)] [] (em_Size em) (em_ReceivedAt em) (em_MessageID em)
    (em_InReplyTo em) (em_References em) (em_Sender em) (em_From em) (em_To em) (em_CC em) (em_BCC em) (em_ReplyTo em) (em_Subject em)
    (em_SentAt em) (em_Headers em) (em_BodyStructure em) (em_BodyValues em) (em_TextBody em) (em_HTMLBody em) (em_Attachments em)
    (em_HasAttachment em) (em_Preview em).
Definition deliver_local (em : Email * SMIME) (account : string) : St W (DeliveryStatus * bool) :=
  let rcptCtx := ContextWithAccountID Background account in
  inboxID ← InboxMailboxID rcptCtx;
  if String.eqb inboxID EmptyString then mret (failed "451 4.3.0 local delivery failed: no INBOX mailbox", false)
  else
    r ← ew_CreateEmail wr rcptCtx (local_copy (fst em) inboxID, snd em);
    mret (match r with
          | Err e => (failed ("451 4.3.0 local delivery failed: " +:+ err_Error e), false)
          | Ok _ => (delivered_ok "250 2.0.0 OK local delivery", true)
          end).
Record delivery_acc : Type := mkDeliveryAcc { dl_status : status_map; dl_count : Z; dl_external : list string }.
Definition deliver_one (c : Ctx) (accountEmail : string) (em : Email * SMIME) (acc : delivery_acc) (rcpt : string) : St W delivery_acc :=
  let clean := TrimSpace rcpt in
  if String.eqb clean EmptyString then mret acc
  else
    let '(account, local) := resolve_recipient c accountEmail clean in
    if local : bool
    then
      r ← deliver_local em account;
      mret (mkDeliveryAcc (assoc_set (dl_status acc) clean (fst r)) (if (snd r) : bool then dl_count acc + 1 else dl_count acc) (dl_external acc))
    else if recipient_allowed clean then mret (mkDeliveryAcc (dl_status acc) (dl_count acc) (dl_external acc ++ [clean]))
    else mret (mkDeliveryAcc (assoc_set (dl_status acc) clean not_allowed) (dl_count acc) (dl_external acc)).
(** The message as it is sent. *)
Definition raw_message (c : Ctx) (em : Email * SMIME) : St W string :=
  stored ← (match blobs with
            | Some bb => if String.eqb (em_BlobID (fst em)) EmptyString then mret EmptyString
                         else r ← bs_GetBlob bb c (fst (AccountIDFromContext c)) (em_BlobID (fst em));
                              mret (match r with (true, Some data) => data | _ => EmptyString end)
            | None => mret EmptyString
            end);
  mret (if String.eqb stored EmptyString then FormatEmailRFC822 em else stored).
Definition all_status (l : list string) (s : string -> DeliveryStatus) (m : status_map) : status_map :=
  foldl (fun m r => assoc_set m r (s r)) m l.
Definition sender_of (env : SubmissionEnvelope) (fallback : string) (em : Email) : string :=
  if negb (String.eqb (sa_Email (ev_MailFrom env)) EmptyString) then sa_Email (ev_MailFrom env)
  else match em_From em with f :: _ => ea_Email f | [] => fallback end.
Definition relay_status (results : list (string * OutboundDeliveryResult)) (r : string) : DeliveryStatus :=
  match assoc_get results r with
  | Some res => if od_Delivered res then delivered_ok (od_SmtpReply res) else failed (od_SmtpReply res)
  | None => failed "451 4.3.0 no delivery result from outbound relay"
  end.
Definition relay_delivered (results : list (string * OutboundDeliveryResult)) (r : string) : bool :=
  match assoc_get results r with Some res => od_Delivered res | None => false end.
Definition relay (c : Ctx) (env : SubmissionEnvelope) (em : Email * SMIME) (acc : delivery_acc) : St W (status_map * Z) :=
  match dl_external acc with
  | [] => mret (dl_status acc, dl_count acc)
  | l =>
      raw ← raw_message c em;
      match outbound with
      | None => mret (all_status l (fun _ => delivered_ok "250 2.0.0 OK queued external") (dl_status acc), dl_count acc + Z.of_nat (length l))
      | Some send =>
          if String.eqb raw EmptyString
          then mret (all_status l (fun _ => failed "554 5.3.4 referenced message unavailable") (dl_status acc), dl_count acc)
          else
            let mailFrom := sender_of env EmptyString (fst em) in
            raw ← (if HasValidMessageID raw then mret raw
                   else now ← ew_Now wr; random ← ew_Random wr; mret (EnsureValidMessageID (t_ns now) random (ew_Pid wr) raw mailFrom));
            results ← send c mailFrom l (StripBCCHeader raw);
            mret (all_status l (relay_status results) (dl_status acc),
                  dl_count acc + Z.of_nat (length (List.filter (relay_delivered results) l)))
      end
  end.
Definition deliver (hasSMTPServer : bool) (c : Ctx) (accountEmail : string) (env : SubmissionEnvelope) (em : Email * SMIME)
    (recipients : list string) : St W (status_map * Z) :=
  if hasSMTPServer then mret (foldl (route_one c accountEmail) ([], 0) recipients)
  else
    acc ← fold_state (deliver_one c accountEmail em) (mkDeliveryAcc [] 0 []) recipients;
    relay c env em acc.
End Delivery.

(** ** The methods *)

Section Methods.
Context `{GoRuntime} `{TimeZones} `{MailText} `{AddressFormat} `{AddressText} `{HeaderText} {W : Type}.
Variable order : MapOrder.
Variable parse_address : string -> option (string * string).
Variable blobs : option (BlobStore W).
Variable so : SubmissionOps W.
Variable rd : EmailReads W.
Variable wr : EmailWrites W.
Variable identities_of : Ctx -> St W (list Identity).
Variable mailboxes : Ctx -> St W (result go_error (list Mailbox)).
Variable resolver : option (Ctx -> string -> string * bool).
Variable allowedRecipients : gmap string bool.
Variable outbound : option (Ctx -> string -> list string -> string -> St W (list (string * OutboundDeliveryResult))).
Variable FormatEmailRFC822 : Email * SMIME -> string.
Variable hasSMTPServer : bool.
Variable MaxSubmissionSize : Z.

Definition HandleEmailSubmissionGet : BackendHandler W := fun c args =>
  r ← back (match get_arr args "ids" with
            | Some ids => so_GetSubmissions so c (strings_of ids)
            | None => l ← so_GetAllSubmissions so c; mret (l, [])
            end);
  state ← back (so_SubmissionState so c);
  mret ("EmailSubmission/get",
        [("accountId", JStr (str_or_empty args "accountId")); ("state", JStr state);
         ("list", JArr (FilterList (map submission_json (match fst r with Ok l => l | Err _ => [] end)) (ParseProperties args)));
         ("notFound", jstrs (snd r))]).

Definition HandleEmailSubmissionChanges : BackendHandler W := fun c args =>
  let sinceState := str_or_empty args "sinceState" in
  match ParseMaxChanges args with
  | Err e => mret ("error", e)
  | Ok maxChanges =>
      r ← back (so_SubmissionChanges so c sinceState maxChanges);
      let '(created, updated, destroyed, newState, hasMore) := r in
      mret ("EmailSubmission/changes",
            changes_response (str_or_empty args "accountId") sinceState newState hasMore created updated destroyed)
  end.

(** What is checked before anything is delivered: the identity, the email, the
    envelope and the recipients of the submission. *)
Record checked_submission : Type := mkChecked {
  ck_identity : string; ck_email : Email * SMIME; ck_envelope : SubmissionEnvelope; ck_recipients : list string;
}.
Definition check_submission (c : Ctx) (accountID : string) (refs : refmap) (subData : obj) : St W (result SetError checked_submission) :=
  let sendAt := str_or_empty subData "sendAt" in
  let emailID := ResolveCreationID (str_or_empty subData "emailId") refs in
  let accountEmail := default EmptyString (SubjectForAccountID accountID) in
  let env := given_envelope subData in
  identities ← identities_of c;
  let identityID := pick_identity identities env (ResolveCreationID (str_or_empty subData "identityId") refs) in
  match check_identity identities identityID with
  | Some e => mret (Err e)
  | None =>
      if String.eqb emailID EmptyString then mret (Err (invalid_properties "emailId is required"))
      else if negb (String.eqb sendAt EmptyString) && match Parse RFC3339 sendAt with Some _ => false | None => true end
      then mret (Err (invalid_properties "invalid sendAt date format"))
      else
        r ← er_Get rd c [emailID];
        mret (match fst (fst r) with
              | [] => Err (invalid_properties "referenced email not found")
              | em :: _ =>
                  match check_message MaxSubmissionSize (fst em) with
                  | Some e => Err e
                  | None =>
                      match final_envelope identities identityID accountEmail (fst em) env with
                      | Err e => Err e
                      | Ok e =>
                          match check_sender parse_address e with
                          | Some er => Err er
                          | None =>
                              match check_recipients parse_address (recipients_of e) with
                              | Some er => Err er
                              | None => Ok (mkChecked identityID em e (recipients_of e))
                              end
                          end
                      end
                  end
              end)
  end.
(** The submission that is stored. *)
Definition undo_status (sendAt : string) (now : Time) : string :=
  match Parse RFC3339 sendAt with Some t => if After t now then "pending" else "final" | None => "final" end.
Definition new_submission (ck : checked_submission) (emailID sendAt undoStatus : string) (status : status_map) : EmailSubmission :=
  let thread := em_ThreadID (fst (ck_email ck)) in
  mkSubmission EmptyString (ck_identity ck) emailID (if String.eqb thread EmptyString then emailID else thread) (Some (ck_envelope ck))
    sendAt undoStatus status None None.
(** An id of the request that begins with # after the create loop has resolved
    it is looked up among the references at the start of the call. *)
Definition create_submission (c : Ctx) (accountID : string) (refs : refmap) (_ : string) (subData : obj)
  : St W (result create_error (string * json)) :=
  let emailID := ResolveCreationID (str_or_empty subData "emailId") refs in
  let accountEmail := default EmptyString (SubjectForAccountID accountID) in
  r ← check_submission c accountID refs subData;
  match r with
  | Err e => mret (Err (ESet e))
  | Ok ck =>
      d ← deliver parse_address blobs wr mailboxes resolver allowedRecipients outbound FormatEmailRFC822 hasSMTPServer c accountEmail
            (ck_envelope ck) (ck_email ck) (ck_recipients ck);
      if snd d =? 0 then mret (Err (EMsg "forbidden: no recipient is deliverable"))
      else
        sendAt ← (let given := str_or_empty subData "sendAt" in
                  if String.eqb given EmptyString then now ← ew_Now wr; mret (Format_UTC now) else mret given);
        now ← ew_Now wr;
        r ← so_CreateSubmission so c (new_submission ck emailID sendAt (undo_status sendAt now) (fst d));
        mret (match r with
              | Ok sub => Ok (su_ID sub, submission_json sub)
              | Err e => Err (create_error_of e)
              end)
  end.

Definition update_error (e : go_error) : SetError :=
  let s := err_Error e in
  let rest p := TrimSpace (TrimPrefix s p) in
  if HasPrefix s "notFound:" then set_error "notFound" (rest "notFound:")
  else if HasPrefix s "cannotCancel:" then set_error "cannotCancel" (rest "cannotCancel:")
  else if HasPrefix s "alreadyCanceled:" then set_error "alreadyCanceled" (rest "alreadyCanceled:")
  else if HasPrefix s "invalidProperties:" then set_error "invalidProperties" (rest "invalidProperties:")
  else set_error "invalidProperties" s.
Definition update_submission (c : Ctx) (refs : refmap) (acc : set_acc) (kv : string * json) : St (HState W) set_acc :=
  let resolvedID := ResolveCreationID (fst kv) refs in
  match snd kv with
  | JObj patch =>
      r ← back (so_UpdateSubmission so c resolvedID (ResolvePatchCreationRefs patch refs));
      mret (match r with
            | Err e => acc_failed acc resolvedID (update_error e)
            | Ok (Some sub) => acc_done acc resolvedID (submission_json sub)
            | Ok None => acc_done acc resolvedID JNull
            end)
  | _ => mret (acc_failed acc resolvedID (set_error "invalidProperties" "patch must be an object"))
  end.
(** A destroy remembers the email of its submission. *)
Definition destroy_submission (c : Ctx) (refs : refmap) (acc : destroy_acc * list (string * string)) (id : string)
  : St (HState W) (destroy_acc * list (string * string)) :=
  let resolvedID := ResolveCreationID id refs in
  g ← back (so_GetSubmissions so c [resolvedID]);
  let emailID := match fst g with Ok (sub :: _) => su_EmailID sub | _ => EmptyString end in
  r ← back (so_DeleteSubmission so c resolvedID);
  mret (match r with
        | Ok true => (destroy_done (fst acc) resolvedID,
                      if String.eqb emailID EmptyString then snd acc else assoc_set (snd acc) resolvedID emailID)
        | _ => (destroy_failed (fst acc) resolvedID (set_error "notFound" "EmailSubmission not found or cannot be destroyed"), snd acc)
        end).

(** The email of a submission that the two arguments name. *)
Definition created_email (created : obj) (k : string) : option string := get_obj created k ≫= fun o => get_str o "emailId".
(** A submission that was destroyed in this call, one that is stored, or the
    email itself. *)
Definition stored_email (c : Ctx) (refs : refmap) (destroyedEmails : list (string * string)) (idStr : string) : St W (option string) :=
  let resolvedID := ResolveCreationID idStr refs in
  match assoc_get destroyedEmails resolvedID with
  | Some e => mret (Some e)
  | None =>
      g ← so_GetSubmissions so c [resolvedID];
      match fst g with
      | Ok (sub :: _) => mret (Some (su_EmailID sub))
      | _ =>
          r ← er_Get rd c [idStr];
          mret (match r with ((_ :: _), _, None) => Some idStr | _ => None end)
      end
  end.
Definition named_by (idStr : string) (kv : string * json) : bool :=
  match snd kv with
  | JObj o => String.eqb (str_or_empty o "id") idStr || String.eqb (str_or_empty o "emailId") idStr
  | _ => false
  end.
Definition succeededEmailID (c : Ctx) (created : obj) (refs : refmap) (destroyedEmails : list (string * string)) (idStr : string)
  : St W (option string) :=
  match (if HasPrefix idStr "#" then created_email created (str_drop 1 idStr) else None), created_email created idStr,
        List.find (named_by idStr) (range_map order created) with
  | Some e, _, _ => mret (Some e)
  | None, Some e, _ => mret (Some e)
  | None, None, Some (_, JObj o) => mret (Some (str_or_empty o "emailId"))
  | _, _, _ => stored_email c refs destroyedEmails idStr
  end.
Definition update_sent_email (c : Ctx) (created : obj) (refs : refmap) (destroyedEmails : list (string * string)) (acc : set_acc)
    (kv : string * json) : St W set_acc :=
  e ← succeededEmailID c created refs destroyedEmails (fst kv);
  match e with
  | None => mret acc
  | Some emailID =>
      match snd kv with
      | JObj p =>
          r ← ew_UpdateEmail wr c emailID (ResolvePatchCreationRefs p refs);
          mret (match r with
                | Err er => acc_failed acc emailID (set_error "invalidProperties" (err_Error er))
                | Ok _ => acc_done acc emailID JNull
                end)
      | _ => mret (acc_failed acc emailID (set_error "invalidProperties" "onSuccessUpdateEmail patch must be an object"))
      end
  end.
Definition destroy_sent_email (c : Ctx) (created : obj) (refs : refmap) (destroyedEmails : list (string * string)) (acc : destroy_acc)
    (idStr : string) : St W destroy_acc :=
  if String.eqb idStr EmptyString then mret acc
  else
    e ← succeededEmailID c created refs destroyedEmails idStr;
    match e with
    | None => mret acc
    | Some emailID =>
        ok ← ew_DeleteEmail wr c emailID;
        mret (if (ok : bool) then destroy_done acc emailID
              else destroy_failed acc emailID (set_error "notFound" "Email referenced by onSuccessDestroyEmail not found"))
    end.
(** The implicit Email/set response, when an email was touched. *)
Definition implicit_response (accountID oldEmailState newEmailState : string) (u : option set_acc) (d : option destroy_acc) : option obj :=
  let some {A} (l : list A) := match l with [] => false | _ => true end in
  if match u with Some u => some (sa_done u) || some (sa_failed u) | None => false end
     || match d with Some d => some (da_destroyed d) || some (da_failed d) | None => false end
  then Some [("accountId", JStr accountID); ("oldState", JStr oldEmailState); ("newState", JStr newEmailState); ("created", JNull);
             ("updated", match u with Some u => JObj (sa_done u) | None => JNull end);
             ("destroyed", match d with Some d => jstrs (da_destroyed d) | None => JNull end); ("notCreated", JNull);
             ("notUpdated", match u with Some u => JObj (sa_failed u) | None => JNull end);
             ("notDestroyed", match d with Some d => JObj (da_failed d) | None => JNull end)]
  else None.
(** The response, and the arguments of the implicit one. *)
Definition HandleEmailSubmissionSet (c : Ctx) (args : obj) : St (HState W) ((string * obj) * option obj) :=
  let accountID := str_or_empty args "accountId" in
  oldState ← back (so_SubmissionState so c);
  if match get_str args "ifInState" with Some s => negb (String.eqb s EmptyString) && negb (String.eqb s oldState) | None => false end
  then mret (("error", MethodErrorArgs "stateMismatch"
                         ("state token " +:+ fmt_q (str_or_empty args "ifInState") +:+ " does not match current state " +:+ fmt_q oldState)), None)
  else
    refs ← new_refs;
    cr ← run_creates order (create_submission c accountID refs) args refs;
    let '(refs, created, notCreated) := cr in
    u ← range_obj order (get_obj args "update") (update_submission c refs) (mkAcc [] []);
    d ← range_strings (get_arr args "destroy") (destroy_submission c refs) (mkDestroy [] [], []);
    oldEmailState ← gets (fun s => er_State rd c (fst s));
    eu ← (match get_obj args "onSuccessUpdateEmail" with
          | Some m => a ← back (fold_state (update_sent_email c created refs (snd d)) (mkAcc [] []) (range_map order m)); mret (Some a)
          | None => mret None
          end);
    ed ← (match get_arr args "onSuccessDestroyEmail" with
          | Some l => a ← back (fold_state (destroy_sent_email c created refs (snd d)) (mkDestroy [] []) (strings_of l)); mret (Some a)
          | None => mret None
          end);
    newEmailState ← gets (fun s => er_State rd c (fst s));
    newState ← back (so_SubmissionState so c);
    mret (("EmailSubmission/set", set_response accountID oldState newState created notCreated u (fst d)),
          implicit_response accountID oldEmailState newEmailState eu ed).
(** The method as the API endpoint calls it. *)
Definition submission_set_method {V} : MethodHandler (W := W) (V := V) := fun c args callID st =>
  let '((w, refs), ((name, resp), implicit)) :=
    HandleEmailSubmissionSet c args (rs_world st, if ctx_CreationRefs c then Some (rs_refs st) else None) in
  let st := mkReq w (default (rs_refs st) refs) (rs_spill st) (rs_cache st) (rs_scope st) in
  (match implicit with Some a => AppendSpillResponse c (mkInvocation "Email/set" (Some a) callID) st | None => st end, (name, Some resp)).

Definition HandleEmailSubmissionQuery : BackendHandler W := fun c args =>
  let '(position, posErr) := ParseQueryPosition args in
  let '((anchor, offset), anchorErr) := ParseQueryAnchor args in
  let comparators := ParseComparators args in
  let '(errType, errMsg) := ValidateComparators comparators submissionSortableProperties in
  let limit := f64_to_uint64 <$> get_num args "limit" in
  let filter := get_obj args "filter" in
  if negb (String.eqb posErr EmptyString) then mret ("error", MethodErrorArgs MethodErrorInvalidArguments posErr)
  else if negb (String.eqb anchorErr EmptyString) then mret ("error", MethodErrorArgs MethodErrorInvalidArguments anchorErr)
  else if negb (String.eqb errType EmptyString) then mret ("error", MethodErrorArgs errType errMsg)
  else
    r ← back (if negb (String.eqb anchor EmptyString)
              then q ← so_QuerySubmissions so c filter comparators 0 None;
                   mret ((fun pi => (fst pi, snd pi, snd q)) <$> ApplyQueryAnchor anchor offset (fst q) limit)
              else q ← so_QuerySubmissions so c filter comparators position limit;
                   mret (Some (NormalizePosition position (snd q), fst q, snd q)));
    match r with
    | None => mret ("error", MethodErrorArgs MethodErrorAnchorNotFound ("anchor not found in results: " +:+ anchor))
    | Some (position, ids, total) =>
        state ← back (so_SubmissionState so c);
        mret ("EmailSubmission/query",
              [("accountId", JStr (str_or_empty args "accountId")); ("queryState", JStr state); ("canCalculateChanges", JBool true);
               ("position", jint position); ("ids", jstrs ids); ("total", jint total)]
              ++ (if bool_or_false args "calculateTotal" then [("calculateTotal", JBool true)] else []))
    end.

Definition HandleEmailSubmissionQueryChanges : BackendHandler W := fun c args =>
  let upToID := str_or_empty args "upToId" in
  let sinceState := str_or_empty args "sinceQueryState" in
  r ← back (so_SubmissionChanges so c sinceState None);
  let '(created, updated, destroyed, newState, hasMore) := r in
  if hasMore : bool then mret ("error", MethodErrorArgs "cannotCalculateChanges" "sinceQueryState is too old")
  else
    let comparators := ParseComparators args in
    let '(errType, errMsg) := ValidateComparators comparators submissionSortableProperties in
    if negb (String.eqb errType EmptyString) then mret ("error", MethodErrorArgs errType errMsg)
    else
      q ← back (so_QuerySubmissions so c (get_obj args "filter") comparators 0 None);
      let '(added, removed) := ComputeQueryChanges created updated destroyed (fst q) upToID in
      mret ("EmailSubmission/queryChanges",
            [("accountId", JStr (str_or_empty args "accountId")); ("oldQueryState", JStr sinceState); ("newQueryState", JStr newState);
             ("added", added_json added); ("removed", jstrs removed)]
            ++ (if String.eqb upToID EmptyString then [] else [("upToId", JStr upToID)])).
End Methods.

(** ** Who is written to *)

Lemma assoc_get_set {V} (m : list (string * V)) k k' v : assoc_get (assoc_set m k v) k' = if decide (k = k') then Some v else assoc_get m k'.
Proof.
  unfold assoc_get. induction m as [|[k0 v0] m IH]; cbn [assoc_set List.find fst].
  - destruct (String.eqb_spec k k'); case_decide; done.
  - destruct (String.eqb_spec k0 k) as [->|Hne]; cbn [List.find fst].
    + destruct (String.eqb_spec k k'); case_decide; done.
    + destruct (String.eqb_spec k0 k') as [->|Hne']; [case_decide; congruence|exact IH].
Qed.

Section AllowList.
Context `{GoRuntime} `{TimeZones} `{MailText} `{AddressFormat} `{AddressText} `{HeaderText} {W : Type}.
Variable order : MapOrder.
Variable parse_address : string -> option (string * string).
Variable blobs : option (BlobStore W).
Variable so : SubmissionOps W.
Variable rd : EmailReads W.
Variable wr : EmailWrites W.
Variable identities_of : Ctx -> St W (list Identity).
Variable mailboxes : Ctx -> St W (result go_error (list Mailbox)).
Variable resolver : option (Ctx -> string -> string * bool).
Variable allowedRecipients : gmap string bool.
Variable outbound : option (Ctx -> string -> list string -> string -> St W (list (string * OutboundDeliveryResult))).
Variable FormatEmailRFC822 : Email * SMIME -> string.
Variable hasSMTPServer : bool.
Variable MaxSubmissionSize : Z.
Variables (c : Ctx) (accountID : string).
Let accountEmail := default EmptyString (SubjectForAccountID accountID).

(** An address that may not be written to: it is not local and not on the list. *)
Definition blocked (rcpt : string) : bool :=
  negb (snd (resolve_recipient parse_address resolver c accountEmail rcpt)) && negb (recipient_allowed allowedRecipients rcpt).

(** Blocked recipients are marked as failed. *)
Definition marked (rcpts : list string) (m : status_map) : Prop :=
  forall r, r ∈ rcpts -> TrimSpace r <> EmptyString -> blocked (TrimSpace r) = true -> assoc_get m (TrimSpace r) = Some not_allowed.

Lemma marked_keep rcpts m k s : (blocked k = false \/ s = not_allowed) -> marked rcpts m -> marked rcpts (assoc_set m k s).
Proof.
  intros Hk Hm r Hr Hne Hb. rewrite assoc_get_set. case_decide as E; [|by apply Hm]. subst k. destruct Hk as [Hk| ->]; [congruence|done].
Qed.
Lemma marked_add rcpts m r : (blocked (TrimSpace r) = false \/ TrimSpace r = EmptyString) -> marked rcpts m -> marked (rcpts ++ [r]) m.
Proof.
  intros Hr Hm x Hx Hne Hb. apply elem_of_app in Hx as [Hx|Hx]; [by apply Hm|]. apply list_elem_of_singleton in Hx as ->.
  destruct Hr; congruence.
Qed.
Lemma marked_block rcpts m r : marked rcpts m -> marked (rcpts ++ [r]) (assoc_set m (TrimSpace r) not_allowed).
Proof.
  intros Hm x Hx Hne Hb. rewrite assoc_get_set. case_decide as E; [done|]. apply elem_of_app in Hx as [Hx|Hx]; [by apply Hm|].
  apply list_elem_of_singleton in Hx as ->. done.
Qed.

Definition external_ok (l : list string) : Prop := Forall (fun r => blocked r = false) l.

Lemma routed rcpts : marked rcpts (fst (foldl (route_one parse_address resolver allowedRecipients c accountEmail) ([], 0) rcpts)).
Proof.
  induction rcpts as [|r l IH] using rev_ind; [by intros r Hr%not_elem_of_nil|]. rewrite foldl_app. cbn [foldl].
  set (acc := foldl _ _ l) in *. unfold route_one. destruct (String.eqb_spec (TrimSpace r) EmptyString) as [E|E].
  - apply marked_add; [by right|done].
  - destruct (snd (resolve_recipient parse_address resolver c accountEmail (TrimSpace r))) eqn:El; cbn [orb fst].
    { apply marked_add; [|done]. left. unfold blocked. by rewrite El. }
    destruct (recipient_allowed allowedRecipients (TrimSpace r)) eqn:Ea; cbn [fst].
    { apply marked_add; [|done]. left. unfold blocked. by rewrite Ea, andb_false_r. }
    by apply marked_block.
Qed.

Section Invariant.
(** An invariant of the world, and what keeps it. *)
Variable I : W -> Prop.
Hypothesis Hget : forall bb c a id, blobs = Some bb -> ensures I (fun _ => True) (bs_GetBlob bb c a id).
Hypothesis Hnow : ensures I (fun _ => True) (ew_Now wr).
Hypothesis Hrandom : ensures I (fun _ => True) (ew_Random wr).
Hypothesis Hmailboxes : forall c, ensures I (fun _ => True) (mailboxes c).
Hypothesis Hidentities : forall c, ensures I (fun _ => True) (identities_of c).
Hypothesis Hemails : forall c ids, ensures I (fun _ => True) (er_Get rd c ids).
(** A submission that passed the checks of the method. *)
Definition checked_ok (ck : checked_submission) : Prop :=
  ck_recipients ck = recipients_of (ck_envelope ck) /\ check_recipients parse_address (ck_recipients ck) = None
  /\ check_sender parse_address (ck_envelope ck) = None.
(** A local copy is a copy of the message that is submitted, and goes to an
    inbox of the account that a recipient of the envelope resolves to as local. *)
Hypothesis Hlocal : forall ck rcpt account inboxID,
  checked_ok ck -> rcpt ∈ recipients_of (ck_envelope ck) -> resolve_recipient parse_address resolver c accountEmail (TrimSpace rcpt) = (account, true) ->
  inboxID <> EmptyString ->
  ensures I (fun _ => True) (ew_CreateEmail wr (ContextWithAccountID Background account) (local_copy (fst (ck_email ck)) inboxID, snd (ck_email ck))).
(** The relay is given recipients of the envelope that may be written to, and no
    others. *)
Hypothesis Hsend : forall send ck from l raw,
  outbound = Some send -> checked_ok ck -> Forall (fun r => r ∈ map TrimSpace (recipients_of (ck_envelope ck))) l -> external_ok l ->
  ensures I (fun _ => True) (send c from l raw).

Lemma ensures_inbox c' : ensures I (fun _ => True) (InboxMailboxID mailboxes c').
Proof. unfold InboxMailboxID. eapply ensures_bind; [apply Hmailboxes|]. intros r _. by apply ensures_ret. Qed.
Lemma ensures_local ck rcpt account :
  checked_ok ck -> rcpt ∈ recipients_of (ck_envelope ck) ->
  resolve_recipient parse_address resolver c accountEmail (TrimSpace rcpt) = (account, true) ->
  ensures I (fun _ => True) (deliver_local wr mailboxes (ck_email ck) account).
Proof.
  intros Hck Hin Hres. unfold deliver_local. eapply ensures_bind; [apply ensures_inbox|]. intros inboxID _.
  destruct (String.eqb_spec inboxID EmptyString); [by apply ensures_ret|].
  eapply ensures_bind; [by eapply Hlocal|]. intros r _. by apply ensures_ret.
Qed.
Lemma ensures_raw em : ensures I (fun _ => True) (raw_message blobs FormatEmailRFC822 c em).
Proof.
  unfold raw_message. eapply (ensures_bind _ (fun _ => True)); [|intros s _; by apply ensures_ret].
  destruct blobs as [bb|] eqn:E; [|by apply ensures_ret]. destruct (String.eqb _ _); [by apply ensures_ret|].
  eapply ensures_bind; [by apply Hget|]. intros r _. by apply ensures_ret.
Qed.
Definition from_list (rcpts : list string) (acc : delivery_acc) : Prop := Forall (fun r => r ∈ map TrimSpace rcpts) (dl_external acc).
Lemma delivered_marked ck :
  checked_ok ck ->
  ensures I (fun acc => marked (recipients_of (ck_envelope ck)) (dl_status acc) /\ external_ok (dl_external acc)
      /\ from_list (recipients_of (ck_envelope ck)) acc)
    (fold_state (deliver_one parse_address wr mailboxes resolver allowedRecipients c accountEmail (ck_email ck)) (mkDeliveryAcc [] 0 [])
      (recipients_of (ck_envelope ck))).
Proof.
  intros Hck. remember (recipients_of (ck_envelope ck)) as rcpts eqn:Ercpts.
  assert (Hgen : forall todo done acc, rcpts = done ++ todo -> marked done (dl_status acc) -> external_ok (dl_external acc) -> from_list rcpts acc ->
    ensures I (fun acc => marked rcpts (dl_status acc) /\ external_ok (dl_external acc) /\ from_list rcpts acc)
      (fold_state (deliver_one parse_address wr mailboxes resolver allowedRecipients c accountEmail (ck_email ck)) acc todo)).
  2: { apply (Hgen rcpts []); [done|by intros r Hr%not_elem_of_nil|constructor|constructor]. }
  induction todo as [|r l IH]; intros done acc Hl Hm He Hf; cbn [fold_state].
  { apply ensures_ret. rewrite app_nil_r in Hl. by subst done. }
  assert (Hr : r ∈ rcpts) by (rewrite Hl; apply elem_of_app; right; by left).
  eapply (ensures_bind _ (fun acc => marked (done ++ [r]) (dl_status acc) /\ external_ok (dl_external acc) /\ from_list rcpts acc)).
  - unfold deliver_one. destruct (String.eqb_spec (TrimSpace r) EmptyString) as [E|E].
    { apply ensures_ret. split_and!; [apply marked_add; [by right|done]|done|done]. }
    destruct (resolve_recipient parse_address resolver c accountEmail (TrimSpace r)) as [account local] eqn:Er.
    assert (Hb : local = true -> blocked (TrimSpace r) = false) by (intros ->; unfold blocked; by rewrite Er).
    destruct local.
    + eapply ensures_bind; [apply (ensures_local ck r); [done|by rewrite <- Ercpts|done]|]. intros s _. apply ensures_ret. split_and!; [|done|done].
      apply marked_add; [left; by apply Hb|]. apply marked_keep; [left; by apply Hb|done].
    + destruct (recipient_allowed allowedRecipients (TrimSpace r)) eqn:Ea; apply ensures_ret; cbn [dl_status dl_external].
      * assert (Hu : blocked (TrimSpace r) = false) by (unfold blocked; by rewrite Ea, andb_false_r).
        split_and!; [apply marked_add; [by left|done]|apply Forall_app; split; [done|by constructor]|].
        apply Forall_app. split; [done|]. constructor; [|constructor]. by apply list_elem_of_fmap_2.
      * split_and!; [by apply marked_block|done|done].
  - intros acc' (Hm' & He' & Hf'). apply (IH (done ++ [r])); [by rewrite <- app_assoc|done|done|done].
Qed.
Lemma marked_all rcpts l s m : external_ok l -> marked rcpts m -> marked rcpts (all_status l s m).
Proof.
  unfold all_status. intros Hl. revert m. induction Hl as [|r l Hr Hl IH]; intros m Hm; [done|]. cbn [foldl]. apply IH.
  apply marked_keep; [by left|done].
Qed.
Lemma relayed_marked ck acc :
  checked_ok ck -> marked (recipients_of (ck_envelope ck)) (dl_status acc) -> external_ok (dl_external acc) ->
  from_list (recipients_of (ck_envelope ck)) acc ->
  ensures I (fun r => marked (recipients_of (ck_envelope ck)) (fst r))
    (relay blobs wr outbound FormatEmailRFC822 c (ck_envelope ck) (ck_email ck) acc).
Proof.
  intros Hck Hm He Hf. unfold relay, from_list in *. destruct (dl_external acc) as [|r l] eqn:El; [by apply ensures_ret|]. rewrite <- El in *.
  eapply ensures_bind; [apply ensures_raw|]. intros raw _. destruct outbound as [send|] eqn:Eo.
  - destruct (String.eqb raw EmptyString); [apply ensures_ret; by apply marked_all|].
    eapply (ensures_bind _ (fun _ => True)).
    { destruct (HasValidMessageID raw); [by apply ensures_ret|]. eapply ensures_bind; [exact Hnow|]. intros now _.
      eapply ensures_bind; [exact Hrandom|]. intros x _. by apply ensures_ret. }
    intros raw' _. eapply ensures_bind; [by eapply Hsend|]. intros results _. apply ensures_ret. by apply marked_all.
  - apply ensures_ret. by apply marked_all.
Qed.
Lemma deliver_marked ck :
  checked_ok ck ->
  ensures I (fun r => marked (ck_recipients ck) (fst r))
    (deliver parse_address blobs wr mailboxes resolver allowedRecipients outbound FormatEmailRFC822 hasSMTPServer c accountEmail
      (ck_envelope ck) (ck_email ck) (ck_recipients ck)).
Proof.
  intros Hck. pose proof Hck as [Hr _]. rewrite Hr. unfold deliver. destruct hasSMTPServer; [apply ensures_ret, routed|].
  eapply ensures_bind; [by apply delivered_marked|]. intros acc (Hm & He & Hf). by apply relayed_marked.
Qed.

(** What a stored submission promises: its envelope has between one and a
    hundred recipients, all of them addresses, its sender is one if it is given,
    and every recipient that may not be written to is marked as failed. *)
Record submission_ok (sub : EmailSubmission) : Prop := {
  sk_envelope : exists env, su_Envelope sub = Some env
    /\ (0 < length (recipients_of env) <= 100)%nat
    /\ Forall (fun r => address_valid parse_address (TrimSpace r) = true) (recipients_of env)
    /\ (sa_Email (ev_MailFrom env) = EmptyString \/ address_valid parse_address (sa_Email (ev_MailFrom env)) = true)
    /\ marked (recipients_of env) (su_DeliveryStatus sub);
}.
Lemma check_submission_ok refs subData :
  ensures I (fun r => match r with Ok ck => checked_ok ck | Err _ => True end)
    (check_submission parse_address rd identities_of MaxSubmissionSize c accountID refs subData).
Proof.
  unfold check_submission. eapply ensures_bind; [apply Hidentities|]. intros ids _.
  destruct (check_identity _ _); [by apply ensures_ret|]. destruct (String.eqb _ _); [by apply ensures_ret|].
  destruct (negb _ && _); [by apply ensures_ret|]. eapply ensures_bind; [apply Hemails|]. intros [[[|em l] nf] err] _; apply ensures_ret; [done|].
  cbn [fst]. destruct (check_message _ _); [done|]. destruct (final_envelope _ _ _ _ _) as [env|]; [|done].
  destruct (check_sender parse_address env) eqn:Es; [done|]. by destruct (check_recipients parse_address (recipients_of env)) eqn:Er.
Qed.
Lemma check_recipients_ok rcpts :
  check_recipients parse_address rcpts = None ->
  (0 < length rcpts <= 100)%nat /\ Forall (fun r => address_valid parse_address (TrimSpace r) = true) rcpts.
Proof.
  unfold check_recipients. destruct rcpts as [|r l]; [done|]. destruct (Z.ltb_spec maxRecipientsLimit (Z.of_nat (length (r :: l)))) as [|Hle]; [done|].
  intros Hf. split; [unfold maxRecipientsLimit in Hle; cbn [length] in *; lia|]. apply Forall_forall. intros x Hx.
  destruct (address_valid parse_address (TrimSpace x)) eqn:E; [done|]. exfalso.
  assert (Hin : x ∈ List.filter (fun r => negb (address_valid parse_address (TrimSpace r))) (r :: l)).
  { apply list_elem_of_In, filter_In. split; [by apply list_elem_of_In|]. by rewrite E. }
  destruct (List.filter _ _); [by apply not_elem_of_nil in Hin|done].
Qed.
Lemma check_sender_ok env :
  check_sender parse_address env = None ->
  sa_Email (ev_MailFrom env) = EmptyString \/ address_valid parse_address (sa_Email (ev_MailFrom env)) = true.
Proof.
  unfold check_sender. destruct (String.eqb_spec (sa_Email (ev_MailFrom env)) EmptyString); [by left|]. right.
  by destruct (address_valid parse_address (sa_Email (ev_MailFrom env))).
Qed.
Lemma new_submission_ok ck emailID sendAt undo d :
  checked_ok ck -> marked (ck_recipients ck) d -> submission_ok (new_submission ck emailID sendAt undo d).
Proof.
  intros (Hr & Hc & Hs) Hd. split. exists (ck_envelope ck). apply check_recipients_ok in Hc as [Hlen Hall]. apply check_sender_ok in Hs.
  rewrite Hr in Hlen, Hall, Hd. split; [done|]. split; [done|]. split; [done|]. by split.
Qed.

(** The rules of the other operations. *)
Record submission_rules : Prop := {
  sr_create : forall sub, submission_ok sub -> ensures I (fun _ => True) (so_CreateSubmission so c sub);
  sr_state : ensures I (fun _ => True) (so_SubmissionState so c);
  sr_update : forall id patch, ensures I (fun _ => True) (so_UpdateSubmission so c id patch);
  sr_delete : forall id, ensures I (fun _ => True) (so_DeleteSubmission so c id);
  sr_get : forall ids, ensures I (fun _ => True) (so_GetSubmissions so c ids);
  sr_update_email : forall id patch, ensures I (fun _ => True) (ew_UpdateEmail wr c id patch);
  sr_delete_email : forall id, ensures I (fun _ => True) (ew_DeleteEmail wr c id);
}.
Abbreviation create_one_submission :=
  (create_submission parse_address blobs so rd wr identities_of mailboxes resolver allowedRecipients outbound FormatEmailRFC822 hasSMTPServer
     MaxSubmissionSize c accountID).

Lemma create_submission_keeps refs k subData : submission_rules -> ensures I (fun _ => True) (create_one_submission refs k subData).
Proof.
  intros Hr. unfold create_submission. eapply ensures_bind; [apply check_submission_ok|]. intros [ck|e] Hck; [|by apply ensures_ret].
  eapply ensures_bind; [by apply deliver_marked|]. intros [d n] Hd. cbn [fst snd] in *. destruct (n =? 0); [by apply ensures_ret|].
  eapply (ensures_bind _ (fun _ => True)).
  { destruct (String.eqb _ _); [|by apply ensures_ret]. eapply ensures_bind; [exact Hnow|]. intros now _. by apply ensures_ret. }
  intros sendAt _. eapply ensures_bind; [exact Hnow|]. intros now _.
  eapply ensures_bind; [by apply (sr_create Hr), new_submission_ok|]. intros r _. by apply ensures_ret.
Qed.
Lemma ensures_succeeded created refs de id : submission_rules -> ensures I (fun _ => True) (succeededEmailID order so rd c created refs de id).
Proof.
  intros Hr. unfold succeededEmailID.
  assert (Hrest : ensures I (fun _ => True) (stored_email so rd c refs de id)).
  { unfold stored_email. destruct (assoc_get de _); [by apply ensures_ret|]. eapply ensures_bind; [apply (sr_get Hr)|].
    intros [[[|sub l]|e] nf] _; cbn [fst]; [|by apply ensures_ret|]; (eapply ensures_bind; [apply Hemails|]; intros r _; by apply ensures_ret). }
  destruct (if HasPrefix id "#" then _ else _), (created_email created id), (List.find (named_by id) (range_map order created)) as [[k []]|];
    first [exact Hrest|apply ensures_ret; exact Logic.I].
Qed.
Lemma ensures_update_sent created refs de acc kv :
  submission_rules -> ensures I (fun _ => True) (update_sent_email order so rd wr c created refs de acc kv).
Proof.
  intros Hr. unfold update_sent_email. eapply ensures_bind; [by apply ensures_succeeded|]. intros [e|] _; [|by apply ensures_ret].
  destruct (snd kv); try (by apply ensures_ret). eapply ensures_bind; [apply (sr_update_email Hr)|]. intros r _. by apply ensures_ret.
Qed.
Lemma ensures_destroy_sent created refs de acc id :
  submission_rules -> ensures I (fun _ => True) (destroy_sent_email order so rd wr c created refs de acc id).
Proof.
  intros Hr. unfold destroy_sent_email. destruct (String.eqb id EmptyString); [by apply ensures_ret|].
  eapply ensures_bind; [by apply ensures_succeeded|]. intros [e|] _; [|by apply ensures_ret].
  eapply ensures_bind; [apply (sr_delete_email Hr)|]. intros r _. by apply ensures_ret.
Qed.
Lemma ensures_fold {A B} (f : B -> A -> St W B) l b :
  (forall b x, ensures I (fun _ => True) (f b x)) -> ensures I (fun _ => True) (fold_state f b l).
Proof.
  intros Hf. revert b. induction l as [|x l IH]; intros b; cbn [fold_state]; [by apply ensures_ret|].
  eapply ensures_bind; [apply Hf|]. intros b' _. apply IH.
Qed.
Lemma ensures_update_submission refs acc kv :
  submission_rules -> ensures (fun s : HState W => I (fst s)) (fun _ => True) (update_submission so c refs acc kv).
Proof.
  intros Hr. unfold update_submission. destruct (snd kv); try (by apply ensures_ret).
  eapply ensures_bind; [apply ensures_back, (sr_update Hr)|]. intros r _. by apply ensures_ret.
Qed.
Lemma ensures_destroy_submission refs acc id :
  submission_rules -> ensures (fun s : HState W => I (fst s)) (fun _ => True) (destroy_submission so c refs acc id).
Proof.
  intros Hr. unfold destroy_submission. eapply ensures_bind; [apply ensures_back, (sr_get Hr)|]. intros g _.
  eapply ensures_bind; [apply ensures_back, (sr_delete Hr)|]. intros r _. by apply ensures_ret.
Qed.

Lemma submission_set_keeps args w refs :
  submission_rules -> str_or_empty args "accountId" = accountID -> I w ->
  I (fst (fst (HandleEmailSubmissionSet order parse_address blobs so rd wr identities_of mailboxes resolver allowedRecipients outbound
                 FormatEmailRFC822 hasSMTPServer MaxSubmissionSize c args (w, refs)))).
Proof.
  intros Hr Ha Hw. set (J := fun s : HState W => I (fst s)).
  assert (Hk : ensures J (fun _ => True) (HandleEmailSubmissionSet order parse_address blobs so rd wr identities_of mailboxes resolver
    allowedRecipients outbound FormatEmailRFC822 hasSMTPServer MaxSubmissionSize c args)); [|by apply (Hk (w, refs))].
  unfold HandleEmailSubmissionSet. rewrite Ha.
  eapply ensures_bind; [apply ensures_back, (sr_state Hr)|]. intros oldState _. 
  match goal with |- ensures _ _ (if ?b then _ else _) => destruct b; [by apply ensures_ret|] end.
  eapply (ensures_bind _ (fun _ => True)); [by intros s Hs|]. intros refs0 _.
  eapply (ensures_bind _ (fun _ => True)).
  { intros s Hs. split; [|done]. apply (run_creates_world order _ I); [|done]. intros w' k node Hw'. by apply create_submission_keeps. }
  intros [[refs1 created] notCreated] _.
  eapply (ensures_bind _ (fun _ => True)).
  { intros s Hs. split; [|done]. apply (range_obj_inv order _ _ _ J); [|done]. intros s' acc kv Hs'. by apply ensures_update_submission. }
  intros u _. eapply (ensures_bind _ (fun _ => True)).
  { intros s Hs. split; [|done]. apply (range_strings_inv _ _ _ J); [|done]. intros s' acc id Hs'. by apply ensures_destroy_submission. }
  intros d _. eapply (ensures_bind _ (fun _ => True)); [by intros s Hs|]. intros oldEmailState _.
  eapply (ensures_bind _ (fun _ => True)).
  { destruct (get_obj args "onSuccessUpdateEmail"); [|by apply ensures_ret].
    eapply ensures_bind; [apply ensures_back, ensures_fold; intros; by apply ensures_update_sent|]. intros a _. by apply ensures_ret. }
  intros eu _. eapply (ensures_bind _ (fun _ => True)).
  { destruct (get_arr args "onSuccessDestroyEmail"); [|by apply ensures_ret].
    eapply ensures_bind; [apply ensures_back, ensures_fold; intros; by apply ensures_destroy_sent|]. intros a _. by apply ensures_ret. }
  intros ed _. eapply (ensures_bind _ (fun _ => True)); [by intros s Hs|]. intros newEmailState _.
  eapply ensures_bind; [apply ensures_back, (sr_state Hr)|]. intros newState _. by apply ensures_ret.
Qed.

(** C4: EmailSubmission/set writes to nobody it may not write to, whatever the
    request holds: the relay is given only recipients of the envelope that are
    local or on the list, a local copy is a copy of the submitted message and
    goes only to an account that a recipient of the envelope resolves to as
    local, and a stored submission marks every other recipient of its envelope
    as failed and has at most a hundred, all of them addresses.  An invariant
    that such calls and the other operations keep survives the method. *)
Theorem submission_set_respects_allow_list args w refs :
  submission_rules -> str_or_empty args "accountId" = accountID -> I w ->
  I (fst (fst (HandleEmailSubmissionSet order parse_address blobs so rd wr identities_of mailboxes resolver allowedRecipients outbound
                 FormatEmailRFC822 hasSMTPServer MaxSubmissionSize c args (w, refs)))).
Proof. apply submission_set_keeps. Qed.
End Invariant.
End AllowList.

(** ** The generated envelope *)

Section Generated.
Context `{GoRuntime}.

Definition wanted (a : EmailAddress) : Prop := TrimSpace (ea_Email a) <> EmptyString.
Lemma add_rcpt_spec l acc :
  (forall x, x ∈ fst acc -> ToLower (sa_Email x) ∈ snd acc) -> (forall k, k ∈ snd acc -> exists x, x ∈ fst acc /\ ToLower (sa_Email x) = k) ->
  NoDup (map (fun x => ToLower (sa_Email x)) (fst acc)) ->
  let r := foldl add_rcpt acc l in
  NoDup (map (fun x => ToLower (sa_Email x)) (fst r))
  /\ (forall x, x ∈ fst r -> x ∈ fst acc \/ exists a, a ∈ l /\ wanted a /\ x = mkSubAddress (TrimSpace (ea_Email a)) [])
  /\ (forall x, x ∈ fst acc -> x ∈ fst r)
  /\ (forall a, a ∈ l -> wanted a -> exists x, x ∈ fst r /\ ToLower (sa_Email x) = ToLower (TrimSpace (ea_Email a))).
Proof.
  revert acc. induction l as [|a l IH]; intros acc Hin Hout Hnd; cbn [foldl].
  { split_and!; [done|by left|done|]. by intros a Ha%not_elem_of_nil. }
  assert (Hstep : let acc' := add_rcpt acc a in
    (forall x, x ∈ fst acc' -> ToLower (sa_Email x) ∈ snd acc') /\ (forall k, k ∈ snd acc' -> exists x, x ∈ fst acc' /\ ToLower (sa_Email x) = k)
    /\ NoDup (map (fun x => ToLower (sa_Email x)) (fst acc'))
    /\ (forall x, x ∈ fst acc' -> x ∈ fst acc \/ wanted a /\ x = mkSubAddress (TrimSpace (ea_Email a)) [])
    /\ (forall x, x ∈ fst acc -> x ∈ fst acc')
    /\ (wanted a -> exists x, x ∈ fst acc' /\ ToLower (sa_Email x) = ToLower (TrimSpace (ea_Email a)))).
  { cbv zeta. unfold add_rcpt. destruct (String.eqb_spec (TrimSpace (ea_Email a)) EmptyString) as [E|E]; cbn [orb].
    { split_and!; try done; intros x Hx; by left. }
    destruct (str_in (ToLower (TrimSpace (ea_Email a))) (snd acc)) eqn:Es.
    { apply str_in_spec in Es. split_and!; try done; [intros x Hx; by left|]. intros _. by apply Hout. }
    assert (Hn : ToLower (TrimSpace (ea_Email a)) ∉ snd acc) by (intros Hx%str_in_spec; congruence).
    cbn [fst snd]. split_and!.
    - intros x [Hx|Hx]%elem_of_app; [right; by apply Hin|]. apply list_elem_of_singleton in Hx as ->. by left.
    - intros k [->|Hk]%elem_of_cons.
      + eexists. split; [apply elem_of_app; right; by left|done].
      + destruct (Hout k Hk) as (x & Hx & Ex). exists x. split; [apply elem_of_app; by left|done].
    - rewrite map_app. apply NoDup_app. split_and!; [done| |apply NoDup_singleton].
      intros k Hk Hs. apply list_elem_of_singleton in Hs as ->. apply list_elem_of_fmap in Hk as (x & Ex & Hx). apply Hn.
      cbn in Ex. rewrite Ex. by apply Hin.
    - intros x [Hx|Hx]%elem_of_app; [by left|]. apply list_elem_of_singleton in Hx as ->. by right.
    - intros x Hx. apply elem_of_app. by left.
    - intros _. eexists. split; [apply elem_of_app; right; by left|done]. }
  cbv zeta in Hstep. destruct Hstep as (H1 & H2 & H3 & H4 & H5 & H6). destruct (IH (add_rcpt acc a) H1 H2 H3) as (K1 & K2 & K3 & K4).
  split_and!; [done| | |].
  - intros x Hx. destruct (K2 x Hx) as [Hx'|(a' & Ha' & Hw & ->)].
    + destruct (H4 x Hx') as [?|[Hw ->]]; [by left|right]. exists a. split_and!; [by left|done|done].
    + right. exists a'. split_and!; [by right|done|done].
  - intros x Hx. by apply K3, H5.
  - intros a' [->|Ha']%elem_of_cons Hw; [|by apply K4]. destruct (H6 Hw) as (x & Hx & Ex). exists x. split; [by apply K3|done].
Qed.

(** The recipients of a generated envelope are the addresses of the To, Cc and
    Bcc fields that are not blank, without the space around them, and no two
    differ in case only. *)
Theorem generated_envelope_exact em :
  let l := generated_recipients em in
  let all := em_To em ++ em_CC em ++ em_BCC em in
  NoDup (map (fun x => ToLower (sa_Email x)) l)
  /\ (forall x, x ∈ l -> exists a, a ∈ all /\ wanted a /\ x = mkSubAddress (TrimSpace (ea_Email a)) [])
  /\ (forall a, a ∈ all -> wanted a -> exists x, x ∈ l /\ ToLower (sa_Email x) = ToLower (TrimSpace (ea_Email a))).
Proof.
  cbv zeta. unfold generated_recipients.
  destruct (add_rcpt_spec (em_To em ++ em_CC em ++ em_BCC em) ([], [])) as (K1 & K2 & _ & K4);
    [by intros x Hx%not_elem_of_nil|by intros x Hx%not_elem_of_nil|constructor|].
  split_and!; [done| |done]. intros x Hx. destruct (K2 x Hx) as [Hn%not_elem_of_nil|?]; done.
Qed.
End Generated.

(** ** Examples *)

(** A world that is the log of what was done. *)
Inductive event : Type :=
| Sent (from : string) (to : list string)
| Filed (c : Ctx) (em : Email)
| Stored (sub : EmailSubmission)
| Removed (id : string).
Definition demo_parse (s : string) : option (string * string) := match Split s "@" with [_; d] => Some (d, s) | _ => None end.
Definition demo_sub_email : Email :=
  mkEmail "e1" EmptyString "t1" [("mb-drafts", true)] [("$draft", true)] 120 "2024-01-01T00:00:00Z" [] [] [] [] [mkAddress "Ann" "ann@home"]
    [mkAddress "Ben" "ben@home"; mkAddress "Friend" "friend@ext"] [mkAddress EmptyString " Ben@home"] [mkAddress "Foe" "foe@ext"] [] "Hello" None []
    (mkPart None None 0 [] None "text/plain" None None None [] None []) [] [] [] [] false EmptyString.
Definition demo_store : SubmissionOps (list event) :=
  mkSubmissionOps _ (fun _ w => (w, "s")) (fun _ _ _ w => (w, ([], [], [], "s", false))) (fun _ sub w => (w ++ [Stored sub], Ok sub))
    (fun _ _ _ w => (w, Ok None)) (fun _ _ w => (w, Ok false)) (fun _ ids w => (w, (Ok [], ids))) (fun _ w => (w, Ok []))
    (fun _ _ _ _ _ w => (w, ([], 0))).
Definition demo_reads : EmailReads (list event) :=
  mkEmailReads _ (fun _ _ => "s") (fun _ _ _ w => (w, ([], [], [], EmptyString, false)))
    (fun _ ids w => (w, (if bool_decide (ids = ["e1"]) then [(demo_sub_email, no_smime)] else [], [], None))) (fun _ w => (w, ([], None))).
Definition demo_writes : EmailWrites (list event) :=
  mkEmailWrites _ (fun _ _ => "s") (fun c em w => (w ++ [Filed c (fst em)], Ok (fst em))) (fun _ _ _ w => (w, Ok JNull))
    (fun _ id w => (w ++ [Removed id], true)) (fun w => (w, mkTime (1709210096 * second) UTC)) (fun w => (w, Some 7)) 1.
Definition demo_boxes (c : Ctx) : St (list event) (result go_error (list Mailbox)) :=
  mret (Ok [mkMailbox "mb-inbox" "Inbox" None (Some "inbox") 0 0 0 0 0 (mkRights true true true true true true true true true true) true]).
Definition demo_send (c : Ctx) (from : string) (to : list string) (raw : string) : St (list event) (list (string * OutboundDeliveryResult)) :=
  fun w => (w ++ [Sent from to], map (fun r => (r, mkOutbound true "250 OK")) to).
Definition demo_identities (c : Ctx) : St (list event) (list Identity) :=
  mret [mkIdentity "i1" "Ann" "ann@home" None None EmptyString EmptyString false].
Definition demo_account : string := AccountIDForSubject "ann@home".
Definition demo_allowed : gmap string bool := {["friend@ext" := true]}.
Definition plain_headers : HeaderText :=
  {| tp_Header := unit; tp_empty := tt; tp_ReadHeader _ := None; tp_WriteHeader _ := None; tp_Get _ _ := EmptyString; tp_Set h _ _ := h;
     tp_Has _ _ := false; tp_Del h _ := h |}.
Definition demo_format : AddressFormat := {| af_String a := ea_Email a; af_ParseAddress s := Some (mkAddress EmptyString s) |}.
Definition demo_submit (smtp : bool) (args : obj) : list event * ((string * obj) * option obj) :=
  let r := HandleEmailSubmissionSet (H := ascii_runtime) (H0 := demo_zones) (H1 := demo_text) (H2 := demo_format) (H3 := demo_addresses)
             (H4 := plain_headers) in_order demo_parse None demo_store demo_reads demo_writes demo_identities demo_boxes
             (Some (fun _ _ => (EmptyString, false))) demo_allowed (Some demo_send) (fun _ => "Subject: Hello") smtp 0 Background args ([], None) in
  (fst (fst r), snd r).
Definition demo_create_args (members : obj) : obj :=
  [("accountId", JStr demo_account); ("create", JObj [("k", JObj ([("emailId", JStr "e1"); ("identityId", JStr "i1")] ++ members))])].

Example demo_submission :
  map (fun e => match e with Sent from to => ("sent", from :: to) | Filed c _ => ("filed", [fst (AccountIDFromContext c)])
                           | Stored sub => ("stored", map fst (su_DeliveryStatus sub)) | Removed id => ("removed", [id]) end)
    (fst (demo_submit false (demo_create_args [])))
  = [("filed", [AccountIDForSubject "ben@home"]); ("sent", ["ann@home"; "friend@ext"]); ("stored", ["ben@home"; "foe@ext"; "friend@ext"])].
Proof. vm_compute. reflexivity. Qed.

Definition demo_blocked : string -> bool :=
  blocked (H := ascii_runtime) demo_parse (Some (fun _ _ => (EmptyString, false))) demo_allowed Background demo_account.
Definition event_ok (e : event) : Prop :=
  match e with
  | Sent _ to => Forall (fun r => demo_blocked r = false) to
  | Stored sub => submission_ok (H := ascii_runtime) demo_parse (Some (fun _ _ => (EmptyString, false))) demo_allowed Background demo_account sub
  | Filed c' em => exists rcpt account, c' = ContextWithAccountID Background account
      /\ resolve_recipient (H := ascii_runtime) demo_parse (Some (fun _ _ => (EmptyString, false))) Background "ann@home" rcpt = (account, true)
  | Removed _ => True
  end.
Lemma logged e w : event_ok e -> Forall event_ok w -> Forall event_ok (w ++ [e]).
Proof. intros He Hw. apply Forall_app. split; [exact Hw|]. by constructor. Qed.

Lemma submission_set_respects_allow_list_witness :
  Forall event_ok (fst (demo_submit false (demo_create_args []))) /\ demo_blocked "foe@ext" = true.
Proof.
  split; [|vm_compute; reflexivity]. unfold demo_submit. cbn [fst].
  apply (submission_set_respects_allow_list (H := ascii_runtime) (H0 := demo_zones) (H1 := demo_text) (H2 := demo_format)
    (H3 := demo_addresses) (H4 := plain_headers) in_order demo_parse None demo_store demo_reads demo_writes demo_identities demo_boxes
    (Some (fun _ _ => (EmptyString, false))) demo_allowed (Some demo_send) (fun _ => "Subject: Hello") false 0 Background demo_account
    (Forall event_ok)); try (intros; intros w Hw; split; [exact Hw|exact I]).
  - discriminate.
  - intros ck rcpt account inboxID Hck Hin Hres Hne w Hw. split; [apply logged; [|exact Hw]|exact I]. exists (TrimSpace rcpt), account. split; [reflexivity|exact Hres].
  - intros send ck from l raw [= <-] Hck Hin Hl w Hw. split; [apply logged; [exact Hl|exact Hw]|exact I].
  - split; try (intros; intros w Hw; split; [exact Hw|exact I]).
    + intros sub Hsub w Hw. split; [apply logged; [exact Hsub|exact Hw]|exact I].
    + intros id w Hw. split; [apply logged; [exact I|exact Hw]|exact I].
  - reflexivity.
  - constructor.
Defined.

(** Ann, whose one identity is ann@home, sends in the name of any address: the
    sender of the envelope is not compared with the identities.  A submission
    for a later day is sent at once, although it is stored as pending.  A local
    recipient's copy keeps the Bcc addresses.  And an email that nothing was
    submitted for is destroyed by onSuccessDestroyEmail. *)
Theorem submission_surprises :
  (exists sub, fst (demo_submit false (demo_create_args [("envelope",
     JObj [("mailFrom", JObj [("email", JStr "boss@home")]); ("rcptTo", JArr [JObj [("email", JStr "friend@ext")]])])]))
     = [Sent "boss@home" ["friend@ext"]; Stored sub])
  /\ (exists em sub, fst (demo_submit false (demo_create_args [("sendAt", JStr "2999-01-01T00:00:00Z")]))
        = [Filed (ContextWithAccountID Background (AccountIDForSubject "ben@home")) em; Sent "ann@home" ["friend@ext"]; Stored sub]
      /\ su_UndoStatus sub = "pending" /\ map ea_Email (em_BCC em) = ["foe@ext"])
  /\ fst (demo_submit false [("accountId", JStr demo_account); ("onSuccessDestroyEmail", JArr [JStr "e1"])]) = [Removed "e1"].
Proof.
  split_and!.
  - eexists. vm_compute. reflexivity.
  - eexists _, _. split_and!; vm_compute; reflexivity.
  - vm_compute. reflexivity.
Qed.
