(* ===== verification/ImapSubmissions.v ===== *)
(** * Submissions of the IMAP/SMTP backend

    [jmap/imapsmtp/submission.go]: the tracker of submissions, their document
    with its cache, sending over SMTP, the one transition a client may ask for
    (cancelling), and queries.  The backend is an instance of the interface
    that the EmailSubmission methods are verified against: together they send
    to nobody who is not to be written to.

    Reading an email and its text, the SMTP connection, the external store with
    its codec and the broadcaster are arguments; the clock is read once per
    operation. *)

From S2P Require Import Prelude GoSort GoStrings GoState Json Envelope CreationRefs Query Handler Server MailTypes ChangeTracker ImapChanges ImapStores Keywords MailQuery MethodSupport ExtStore Identities GoTime EmailGet MimeBody MessageId MimeParse EmailSet Submissions.

(** ** The tracker *)

Record subTracker : Type := mkSubTracker { tr_counter : Z; tr_history : list ChangeEntry }.
Definition newSubTracker : subTracker := mkSubTracker 0 [].
Definition sub_token (n : Z) : string := "sub-state-" +:+ fmt_d n.
Definition subTracker_State (t : subTracker) : string := sub_token (tr_counter t).
Definition subTracker_Record (t : subTracker) (id action : string) : subTracker :=
  let n := u64 (tr_counter t + 1) in mkSubTracker n (tr_history t ++ [mkEntry action id n]).
Definition subTracker_Changes (t : subTracker) (sinceState : string) (maxChanges : option Z)
  : list string * list string * list string * string * bool :=
  let since := default 0 (sscanf_uint64 (TrimPrefix (TrimPrefix sinceState "sub-state-") "state-")) in
  let s := foldl (fun s e => if since <? ce_State e then apply_mutation s e else s) (mkSets ∅ ∅ ∅) (tr_history t) in
  let created := sort_ids (elements (is_created s)) in
  let updated := sort_ids (elements (is_updated s)) in
  let destroyed := sort_ids (elements (is_destroyed s)) in
  let total := Z.of_nat (length created + length updated + length destroyed) in
  match maxChanges with
  | Some m => if (0 <? m) && (m <? total) then ([], [], [], sub_token (tr_counter t), true)
              else (created, updated, destroyed, sub_token (tr_counter t), false)
  | None => (created, updated, destroyed, sub_token (tr_counter t), false)
  end.

(** ** Sending *)

Definition strip_brackets (s : string) : string := Trim s "<>".
Definition is_failed (m : status_map) (k : string) : bool :=
  match assoc_get m k with Some st => String.eqb (ds_Delivered st) "failed" | None => false end.
(** The recipients that are sent to: those not marked as failed. *)
Definition to_send (status : status_map) (recipients : list string) : list string :=
  omap (fun rcpt =>
    let clean := strip_brackets (TrimSpace rcpt) in
    if String.eqb clean EmptyString || is_failed status clean || is_failed status rcpt then None else Some clean) recipients.
Definition queued_status (status : status_map) (recipients : list string) : status_map :=
  foldl (fun m r => match assoc_get m r with Some _ => m | None => assoc_set m r (delivered_ok "250 2.0.0 OK message queued") end)
    status recipients.

(** ** Cancelling *)

Definition cancelled_delivery (d : DeliveryStatus) : DeliveryStatus :=
  if String.eqb (ds_Delivered d) "queued" || String.eqb (ds_Delivered d) "pending"
  then mkDelivery "canceled by user" "no" (ds_Displayed d) else d.
Definition cancelled (sub : EmailSubmission) : EmailSubmission :=
  mkSubmission (su_ID sub) (su_IdentityID sub) (su_EmailID sub) (su_ThreadID sub) (su_Envelope sub) (su_SendAt sub) "canceled"
    (map (fun kv => (fst kv, cancelled_delivery (snd kv))) (su_DeliveryStatus sub)) (su_DSN sub) (su_MDN sub).
Section Patch.
Context `{GoRuntime}.
Definition patch_member (sub : EmailSubmission) (kv : string * json) : result go_error EmailSubmission :=
  if String.eqb (fst kv) "undoStatus"
  then
    if negb (match snd kv with JStr s => String.eqb s "canceled" | _ => false end)
    then Err (GError ("invalidProperties: undoStatus can only be updated to " +:+ fmt_q "canceled"))
    else if String.eqb (su_UndoStatus sub) "canceled" then Err (GError "alreadyCanceled: submission has already been canceled")
    else if negb (String.eqb (su_UndoStatus sub) "pending") then Err (GError "cannotCancel: submission is not pending")
    else Ok (cancelled sub)
  else Err (GError ("invalidProperties: EmailSubmission property " +:+ fmt_q (fst kv) +:+ " cannot be updated")).
(** The members are applied in turn to the stored object; an error ends the
    loop and leaves what was applied before. *)
Fixpoint patch_submission (sub : EmailSubmission) (patch : obj) : EmailSubmission * option go_error :=
  match patch with
  | [] => (sub, None)
  | kv :: rest => match patch_member sub kv with Ok sub' => patch_submission sub' rest | Err e => (sub, Some e) end
  end.
End Patch.

(** ** Queries *)

Definition submissionIDFilter (filter : obj) (key : string) : list string := strings_of (default [] (get_arr filter key)).
Definition in_filter (filter : obj) (key id : string) : bool :=
  match submissionIDFilter filter key with [] => true | l => str_in id l end.
Definition match_submission (sub : EmailSubmission) (filter : obj) : bool :=
  in_filter filter "identityIds" (su_IdentityID sub) && in_filter filter "emailIds" (su_EmailID sub)
  && in_filter filter "threadIds" (su_ThreadID sub)
  && (let u := str_or_empty filter "undoStatus" in String.eqb u EmptyString || String.eqb (su_UndoStatus sub) u)
  && (let b := str_or_empty filter "before" in String.eqb b EmptyString || String.ltb (su_SendAt sub) b)
  && (let a := str_or_empty filter "after" in String.eqb a EmptyString || negb (String.ltb (su_SendAt sub) a)).
Section Filter.
Context `{GoRuntime}.
(** The recursion over the conditions takes the depth of the filter. *)
Fixpoint match_submission_filter (fuel : nat) (sub : EmailSubmission) (filter : obj) : bool :=
  match filter with
  | [] => true
  | _ =>
      match EvalFilterOperator (Some filter) (match fuel with O => fun _ => false | S f => match_submission_filter f sub end) with
      | (m, true) => m
      | (_, false) => match_submission sub filter
      end
  end.
Definition matchSubmissionFilter (sub : EmailSubmission) (filter : option obj) : bool :=
  match filter with None => true | Some f => match_submission_filter (json_depth (JObj f)) sub f end.
End Filter.
Definition submission_key (p : string) (s : EmailSubmission) : string :=
  if String.eqb p "emailId" then su_EmailID s
  else if String.eqb p "threadId" then su_ThreadID s
  else if String.eqb p "sendAt" || String.eqb p "sentAt" then su_SendAt s
  else if String.eqb p "undoStatus" then su_UndoStatus s
  else EmptyString.
Fixpoint submission_cmp (comparators : list Comparator) (a b : EmailSubmission) : comparison :=
  match comparators with
  | [] => Eq
  | c :: rest =>
      let o := String.compare (submission_key (c_Property c) a) (submission_key (c_Property c) b) in
      match (if c_IsAscending c then o else CompOpp o) with Eq => submission_cmp rest a b | r => r end
  end.
(** A tie compares the positions, which keeps the order of the input. *)
Definition sortSubmissions (subs : list EmailSubmission) (comparators : list Comparator) : list EmailSubmission :=
  let comparators := match comparators with [] => [mkComparator "sendAt" false EmptyString EmptyString] | l => l end in
  stable_sort (lt_of (submission_cmp comparators)) subs.

(** ** The backend *)

Abbreviation sub_map := (gmap string EmailSubmission).
Record sub_state (W : Type) : Type := mkSubState { ss_store : W * cache sub_map; ss_trackers : gmap string subTracker }.
Arguments mkSubState {W} _ _.
Arguments ss_store {W} _.
Arguments ss_trackers {W} _.

Section Backend.
Context `{GoRuntime} `{TimeZones} `{AddressText} `{HeaderText} {W : Type}.
Variable s : option (Store W).
Variable codec : Codec sub_map.
Variable range_subs : sub_map -> list (string * EmailSubmission).
Variable rd : EmailReads W.
Variable getRawEmailBytes : Ctx -> string -> St W string.
Variable FormatEmailRFC822 : Email * SMIME -> string.
(** [b.smtpHost] is set, and the SMTP conversation: [None] when it succeeds *)
Variable smtp : bool.
Variable SendMail : Ctx -> string -> list string -> string -> St W (option string).
Variable random : St W (option Z).
Variable pid : Z.
Variable broadcaster : option (string -> string -> St W unit).
Variable ObjectFingerprint : EmailSubmission -> string.
Variable marshal_map : gmap string string -> string.
Variable unmarshal_map : string -> option (gmap string string).
Variable now : Z.

Definition on_subs {A} (m : St (W * cache sub_map) A) : St (sub_state W) A :=
  fun st => let '(p, x) := m (ss_store st) in (mkSubState p (ss_trackers st), x).
Definition on_world {A} (m : St W A) : St (sub_state W) A :=
  fun st => let '(w, x) := m (fst (ss_store st)) in (mkSubState (w, snd (ss_store st)) (ss_trackers st), x).
Definition loadSubmissionsLocked (accountID : string) : St (W * cache sub_map) unit :=
  load_locked s codec "submissions" (Some ∅) accountID now.
Definition persistSubmissionsLocked (accountID : string) : St (W * cache sub_map) unit :=
  persist_locked s codec "submissions" accountID.
Definition getSubMapLocked (c : cache sub_map) (accountID : string) : sub_map := default ∅ (ca_vals c !! accountID).
Definition put_subs (accountID : string) (m : sub_map) : St (W * cache sub_map) unit :=
  modify (prod_map (fun w => w) (fun c => mkCache (<[accountID := m]> (ca_vals c)) (ca_time c))).
Definition getSubTrackerLocked (st : sub_state W) (accountID : string) : subTracker := default newSubTracker (ss_trackers st !! accountID).
Definition record_submission (accountID id action : string) : St (sub_state W) unit :=
  modify (fun st => mkSubState (ss_store st)
    (<[accountID := subTracker_Record (getSubTrackerLocked st accountID) id action]> (ss_trackers st))).
Definition loaded (accountID : string) : St (sub_state W) sub_map :=
  on_subs (_ ← loadSubmissionsLocked accountID; gets (fun wc => getSubMapLocked (snd wc) accountID)).

Definition submissionStateMap (items : list EmailSubmission) : gmap string string :=
  list_to_map (rev (map (fun it => (su_ID it, ObjectFingerprint it)) items)).
Definition SubmissionState (c : Ctx) : St (sub_state W) string :=
  m ← loaded (fst (AccountIDFromContext c));
  mret (EncodeStateVector marshal_map "sub-v1:" (submissionStateMap (map snd (range_subs m)))).
Definition publishSubmissionStateChange (c : Ctx) : St (sub_state W) unit :=
  match broadcaster, AccountIDFromContext c with
  | Some publish, (accountID, true) =>
      if String.eqb accountID EmptyString then mret tt
      else state ← SubmissionState c; on_world (publish accountID state)
  | _, _ => mret tt
  end.

(** The sender of a submission. *)
Definition submission_from (c : Ctx) (sub : EmailSubmission) (em : Email) : string :=
  let from := match su_Envelope sub with
              | Some e => if String.eqb (sa_Email (ev_MailFrom e)) EmptyString then None else Some (sa_Email (ev_MailFrom e))
              | None => None
              end in
  let from := match from with Some f => f | None => match em_From em with a :: _ => ea_Email a | [] => EmptyString end end in
  let from := if negb (String.eqb from EmptyString) then from
              else match SubjectFromContext c with
                   | (subj, true) => subj
                   | _ => match AccountIDFromContext c with
                          | (a, true) => if String.eqb a EmptyString then EmptyString else default EmptyString (SubjectForAccountID a)
                          | _ => EmptyString
                          end
                   end in
  strip_brackets from.
Definition submission_envelope (from : string) (sub : EmailSubmission) (em : Email) : SubmissionEnvelope :=
  match su_Envelope sub with Some e => e | None => mkSubEnvelope (mkSubAddress from []) (generated_recipients em) end.
(** The submission as it is stored. *)
Definition stored_submission (sub : EmailSubmission) (em : Email) (env : SubmissionEnvelope) : EmailSubmission :=
  let or_else v d := if String.eqb v EmptyString then d else v in
  mkSubmission (or_else (su_ID sub) ("sub-" +:+ fmt_d now)) (su_IdentityID sub) (su_EmailID sub) (or_else (su_ThreadID sub) (em_ThreadID em))
    (Some env) (or_else (su_SendAt sub) (Format_UTC (mkTime now UTC))) (or_else (su_UndoStatus sub) "final")
    (queued_status (su_DeliveryStatus sub) (map sa_Email (ev_RcptTo env))) (su_DSN sub) (su_MDN sub).
Definition store_submission (c : Ctx) (sub : EmailSubmission) : St (sub_state W) unit :=
  let accountID := fst (AccountIDFromContext c) in
  m ← loaded accountID;
  _ ← on_subs (_ ← put_subs accountID (<[su_ID sub := sub]> m); persistSubmissionsLocked accountID);
  _ ← record_submission accountID (su_ID sub) "create";
  publishSubmissionStateChange c.
Definition send_submission (c : Ctx) (from : string) (l : list string) (raw : string) : St W (option string) :=
  if smtp && negb (match l with [] => true | _ => false end)
  then
    raw ← (if HasValidMessageID raw then mret raw else r ← random; mret (EnsureValidMessageID now r pid raw from));
    SendMail c from l (StripBCCHeader raw)
  else mret None.
Definition CreateSubmission (c : Ctx) (sub : EmailSubmission) : St (sub_state W) (result go_error EmailSubmission) :=
  r ← on_world (er_Get rd c [su_EmailID sub]);
  match r with
  | (em :: _, _, None) =>
      raw ← on_world (getRawEmailBytes c (su_EmailID sub));
      let raw := if String.eqb raw EmptyString then FormatEmailRFC822 em else raw in
      let from := submission_from c sub (fst em) in
      let env := submission_envelope from sub (fst em) in
      failed ← on_world (send_submission c from (to_send (su_DeliveryStatus sub) (map sa_Email (ev_RcptTo env))) raw);
      match failed with
      | Some e => mret (Err (GError ("failed to send outbound email via SMTP: " +:+ e)))
      | None =>
          let sub := stored_submission sub (fst em) env in
          _ ← store_submission c sub;
          mret (Ok sub)
      end
  | _ => mret (Err (GError ("referenced email not found: " +:+ su_EmailID sub)))
  end.

Definition SubmissionChanges (c : Ctx) (sinceState : string) (maxChanges : option Z)
  : St (sub_state W) (list string * list string * list string * string * bool) :=
  let accountID := fst (AccountIDFromContext c) in
  m ← loaded accountID;
  if negb (HasPrefix sinceState "sub-v1:")
  then gets (fun st => subTracker_Changes (getSubTrackerLocked st accountID) sinceState maxChanges)
  else mret (match DecodeStateVector unmarshal_map "sub-v1:" sinceState with
             | None => ([], [], [], EmptyString, false)
             | Some old =>
                 let cur := submissionStateMap (map snd (range_subs m)) in
                 let '(created, updated, destroyed) := DiffStateVectors old cur in
                 (created, updated, destroyed, EncodeStateVector marshal_map "sub-v1:" cur, false)
             end).

Variable range_patch : obj -> obj.
(** The cached object is changed in place: also when the update fails. *)
Definition UpdateSubmission (c : Ctx) (id : string) (patch : obj) : St (sub_state W) (result go_error (option EmailSubmission)) :=
  let accountID := fst (AccountIDFromContext c) in
  m ← loaded accountID;
  match m !! id with
  | None => mret (Ok None)
  | Some sub =>
      let '(sub, err) := patch_submission sub (range_patch patch) in
      _ ← on_subs (put_subs accountID (<[id := sub]> m));
      match err with
      | Some e => mret (Err e)
      | None =>
          _ ← on_subs (persistSubmissionsLocked accountID);
          _ ← record_submission accountID id "update";
          _ ← publishSubmissionStateChange c;
          mret (Ok (Some sub))
      end
  end.
Definition DeleteSubmission (c : Ctx) (id : string) : St (sub_state W) (result go_error bool) :=
  let accountID := fst (AccountIDFromContext c) in
  m ← loaded accountID;
  match m !! id with
  | None => mret (Ok false)
  | Some _ =>
      _ ← on_subs (_ ← put_subs accountID (delete id m); persistSubmissionsLocked accountID);
      _ ← record_submission accountID id "destroy";
      _ ← publishSubmissionStateChange c;
      mret (Ok true)
  end.
Definition GetSubmissions (c : Ctx) (ids : list string) : St (sub_state W) (result go_error (list EmailSubmission) * list string) :=
  m ← loaded (fst (AccountIDFromContext c));
  mret (Ok (omap (fun id => m !! id) ids), List.filter (fun id => bool_decide (m !! id = None)) ids).
Definition GetAllSubmissions (c : Ctx) : St (sub_state W) (result go_error (list EmailSubmission)) :=
  m ← loaded (fst (AccountIDFromContext c)); mret (Ok (map snd (range_subs m))).
(** The page of a query; [None] where the slice is out of range. *)
Definition submission_page (position : Z) (limit : option Z) (matched : list EmailSubmission) : option (list string * Z) :=
  let total := Z.of_nat (length matched) in
  let position := NormalizePosition position total in
  if total <? position then Some ([], total)
  else
    let end_ := match limit with
                | Some l => if i64 (position + i64 l) <? total then i64 (position + i64 l) else total
                | None => total
                end in
    if end_ <? position then None else Some (map su_ID (slice position end_ matched), total).
Definition QuerySubmissions (c : Ctx) (filter : option obj) (comparators : list Comparator) (position : Z) (limit : option Z)
  : St (sub_state W) (option (list string * Z)) :=
  m ← loaded (fst (AccountIDFromContext c));
  mret (submission_page position limit
          (sortSubmissions (List.filter (fun sub => matchSubmissionFilter sub filter) (map snd (range_subs m))) comparators)).

(** The backend as the methods see it; a query that panics is not answered. *)
Definition imap_submissions : SubmissionOps (sub_state W) :=
  mkSubmissionOps _ SubmissionState SubmissionChanges CreateSubmission UpdateSubmission DeleteSubmission GetSubmissions GetAllSubmissions
    (fun c f cs p l => r ← QuerySubmissions c f cs p l; mret (default ([], 0) r)).
End Backend.

(** ** Who is sent to *)

Section Sending.
Context `{GoRuntime} `{TimeZones} `{AddressText} `{HeaderText} {W : Type}.
Variable s : option (Store W).
Variable codec : Codec sub_map.
Variable range_subs : sub_map -> list (string * EmailSubmission).
Variable rd : EmailReads W.
Variable getRawEmailBytes : Ctx -> string -> St W string.
Variable FormatEmailRFC822 : Email * SMIME -> string.
Variable smtp : bool.
Variable SendMail : Ctx -> string -> list string -> string -> St W (option string).
Variable random : St W (option Z).
Variable pid : Z.
Variable broadcaster : option (string -> string -> St W unit).
Variable ObjectFingerprint : EmailSubmission -> string.
Variable marshal_map : gmap string string -> string.
Variable unmarshal_map : string -> option (gmap string string).
Variable now : Z.
Variable range_patch : obj -> obj.
Variable parse_address : string -> option (string * string).
Variable resolver : option (Ctx -> string -> string * bool).
Variable allowedRecipients : gmap string bool.
Variables (c : Ctx) (accountID : string).

Abbreviation blocked_rcpt := (blocked parse_address resolver allowedRecipients c accountID).
Abbreviation ops := (imap_submissions s codec range_subs rd getRawEmailBytes FormatEmailRFC822 smtp SendMail random pid broadcaster
  ObjectFingerprint marshal_map unmarshal_map now range_patch).

(** An address has no angle brackets around it. *)
Hypothesis Hparse : forall a, parse_address a <> None -> strip_brackets a = a.

Lemma to_send_unblocked sub env :
  submission_ok parse_address resolver allowedRecipients c accountID sub -> su_Envelope sub = Some env ->
  Forall (fun r => blocked_rcpt r = false) (to_send (su_DeliveryStatus sub) (map sa_Email (ev_RcptTo env))).
Proof.
  intros [(env' & Henv & _ & Hvalid & _ & Hmark)] E. rewrite E in Henv. injection Henv as <-. apply Forall_forall. intros r Hr.
  unfold to_send in Hr. apply list_elem_of_omap in Hr as (rcpt & Hin & Hr).
  destruct (String.eqb_spec (strip_brackets (TrimSpace rcpt)) EmptyString) as [|Hne]; [done|]. cbn [orb] in Hr.
  destruct (is_failed (su_DeliveryStatus sub) (strip_brackets (TrimSpace rcpt))) eqn:Ef; [done|]. cbn [orb] in Hr.
  destruct (is_failed _ rcpt); [done|]. injection Hr as <-.
  assert (Hrec : rcpt ∈ recipients_of env).
  { apply list_elem_of_In, filter_In. split; [by apply list_elem_of_In|]. destruct (String.eqb_spec rcpt EmptyString) as [->|]; [|done].
    exfalso. by apply Hne. }
  rewrite Forall_forall in Hvalid. specialize (Hvalid rcpt Hrec). unfold address_valid in Hvalid.
  assert (Hs : strip_brackets (TrimSpace rcpt) = TrimSpace rcpt) by (apply Hparse; by destruct (parse_address (TrimSpace rcpt))).
  rewrite Hs in *. destruct (blocked_rcpt (TrimSpace rcpt)) eqn:Eb; [|done]. exfalso.
  unfold is_failed in Ef. by rewrite (Hmark rcpt Hrec Hne Eb) in Ef.
Qed.

Section Kept.
Variable I : W -> Prop.
Hypothesis Hload : forall st a k, s = Some st -> ensures I (fun _ => True) (st_Get st a k).
Hypothesis Hsave : forall st a k d, s = Some st -> ensures I (fun _ => True) (st_Put st a k d).
Hypothesis Hemails : forall c ids, ensures I (fun _ => True) (er_Get rd c ids).
Hypothesis Hraw : forall c id, ensures I (fun _ => True) (getRawEmailBytes c id).
Hypothesis Hrandom : ensures I (fun _ => True) random.
Hypothesis Hpublish : forall p a st, broadcaster = Some p -> ensures I (fun _ => True) (p a st).
(** The SMTP server is given recipients that may be written to only. *)
Hypothesis Hsend : forall from l raw, Forall (fun r => blocked_rcpt r = false) l -> ensures I (fun _ => True) (SendMail c from l raw).

Definition J (st : sub_state W) : Prop := I (fst (ss_store st)).

Lemma ensures_world {A} (Q : A -> Prop) (m : St W A) : ensures I Q m -> ensures J Q (on_world m).
Proof. intros Hm [[w ca] tr] Hw. unfold on_world, J in *. cbn [ss_store fst] in *. destruct (Hm w Hw). by destruct (m w). Qed.
Lemma ensures_subs {A} (Q : A -> Prop) (m : St (W * cache sub_map) A) :
  ensures (fun wc => I (fst wc)) Q m -> ensures J Q (on_subs m).
Proof. intros Hm [p tr] Hw. unfold on_subs, J in *. cbn [ss_store] in *. destruct (Hm p Hw). by destruct (m p). Qed.
Lemma ensures_loaded a : ensures J (fun _ => True) (loaded s codec now a).
Proof.
  unfold loaded. apply ensures_subs. eapply (ensures_bind _ (fun _ => True)); [|intros _ _; by intros wc Hw].
  intros [w ca] Hw. unfold loadSubmissionsLocked, load_locked. destruct (_ && _); [done|]. unfold Load. destruct s as [st|] eqn:E; [|done].
  rewrite St_bind_eq. destruct (Hload st a "submissions" eq_refl w Hw) as [Hw' _].
  destruct (st_Get st a "submissions" w) as [w' [data|e]]; cbn; [|done]. destruct (String.eqb data EmptyString); [done|]. by destruct (dec codec data).
Qed.
Lemma ensures_persist a : ensures (fun wc : W * cache sub_map => I (fst wc)) (fun _ => True) (persistSubmissionsLocked s codec a).
Proof.
  intros [w ca] Hw. unfold persistSubmissionsLocked, persist_locked. destruct (ca_vals ca !! a) as [v|]; [|done]. unfold Save.
  destruct s as [st|] eqn:E; [|done]. destruct (enc codec v) as [d|]; [|done]. destruct (Hsave st a "submissions" d eq_refl w Hw) as [Hw' _].
  by destruct (st_Put st a "submissions" d w).
Qed.
Lemma ensures_write a m : ensures J (fun _ => True) (on_subs (_ ← put_subs a m; persistSubmissionsLocked s codec a)).
Proof. apply ensures_subs. eapply (ensures_bind _ (fun _ => True)); [by intros [w ca] Hw|]. intros _ _. apply ensures_persist. Qed.
Lemma ensures_record a id action : ensures J (fun _ => True) (record_submission (W := W) a id action).
Proof. by intros st Hst. Qed.
Lemma ensures_state c' : ensures J (fun _ => True) (SubmissionState s codec range_subs ObjectFingerprint marshal_map now c').
Proof. unfold SubmissionState. eapply ensures_bind; [apply ensures_loaded|]. intros m _. by apply ensures_ret. Qed.
Lemma ensures_publish c' :
  ensures J (fun _ => True) (publishSubmissionStateChange s codec range_subs broadcaster ObjectFingerprint marshal_map now c').
Proof.
  unfold publishSubmissionStateChange. destruct broadcaster as [p|] eqn:E; [|by apply ensures_ret].
  destruct (AccountIDFromContext c') as [a []]; [|by apply ensures_ret]. destruct (String.eqb a EmptyString); [by apply ensures_ret|].
  eapply ensures_bind; [apply ensures_state|]. intros st _. apply ensures_world. by apply Hpublish.
Qed.

(** The backend keeps its side: given a submission as the methods make it, it
    sends to nobody who is blocked. *)
Lemma imap_create_keeps sub :
  submission_ok parse_address resolver allowedRecipients c accountID sub -> ensures J (fun _ => True) (so_CreateSubmission ops c sub).
Proof.
  intros Hok. cbn [so_CreateSubmission imap_submissions]. unfold CreateSubmission.
  eapply ensures_bind; [apply ensures_world, Hemails|]. intros [[[|em l] nf] [e|]] _; try by apply ensures_ret.
  eapply ensures_bind; [apply ensures_world, Hraw|]. intros raw _.
  destruct (sk_envelope _ _ _ _ _ _ Hok) as (env & Henv & _). unfold submission_envelope. rewrite Henv.
  eapply (ensures_bind _ (fun _ => True)).
  - apply ensures_world. unfold send_submission. destruct (smtp && _); [|by apply ensures_ret].
    eapply (ensures_bind _ (fun _ => True)).
    { destruct (HasValidMessageID _); [by apply ensures_ret|]. eapply ensures_bind; [exact Hrandom|]. intros r _. by apply ensures_ret. }
    intros raw' _. by apply Hsend, to_send_unblocked.
  - intros [e|] _; [by apply ensures_ret|]. eapply (ensures_bind _ (fun _ => True)); [|intros _ _; by apply ensures_ret].
    unfold store_submission. eapply ensures_bind; [apply ensures_loaded|]. intros m _.
    eapply ensures_bind; [apply ensures_write|]. intros _ _. eapply ensures_bind; [apply ensures_record|]. intros _ _. apply ensures_publish.
Qed.

(** The methods over this backend, with mail going through its SMTP server. *)
Context `{MailText} `{AddressFormat}.
Variable order : MapOrder.
Variable blobs : option (BlobStore (sub_state W)).
Variable wr : EmailWrites (sub_state W).
Variable reads : EmailReads (sub_state W).
Variable identities_of : Ctx -> St (sub_state W) (list Identity).
Variable mailboxes : Ctx -> St (sub_state W) (result go_error (list Mailbox)).
Variable MaxSubmissionSize : Z.
Hypothesis Hblob : forall bb c a id, blobs = Some bb -> ensures J (fun _ => True) (bs_GetBlob bb c a id).
Hypothesis Hnow : ensures J (fun _ => True) (ew_Now wr).
Hypothesis Hrnd : ensures J (fun _ => True) (ew_Random wr).
Hypothesis Hboxes : forall c, ensures J (fun _ => True) (mailboxes c).
Hypothesis Hids : forall c, ensures J (fun _ => True) (identities_of c).
Hypothesis Hreads : forall c ids, ensures J (fun _ => True) (er_Get reads c ids).
Hypothesis Hcreate : forall c em, ensures J (fun _ => True) (ew_CreateEmail wr c em).
Hypothesis Hupdate : forall c id patch, ensures J (fun _ => True) (ew_UpdateEmail wr c id patch).
Hypothesis Hdelete : forall c id, ensures J (fun _ => True) (ew_DeleteEmail wr c id).

Lemma imap_rules : submission_rules parse_address ops wr resolver allowedRecipients c accountID J.
Proof.
  split.
  - exact imap_create_keeps.
  - apply ensures_state.
  - intros id patch. cbn [so_UpdateSubmission imap_submissions]. unfold UpdateSubmission. eapply ensures_bind; [apply ensures_loaded|].
    intros m _. destruct (m !! id) as [sub|]; [|by apply ensures_ret]. destruct (patch_submission sub _) as [sub' [e|]].
    + eapply (ensures_bind _ (fun _ => True)); [apply ensures_subs; by intros [w ca] Hw|]. intros _ _. by apply ensures_ret.
    + eapply (ensures_bind _ (fun _ => True)); [apply ensures_subs; by intros [w ca] Hw|]. intros _ _.
      eapply ensures_bind; [apply ensures_subs, ensures_persist|]. intros _ _. eapply ensures_bind; [apply ensures_record|]. intros _ _.
      eapply ensures_bind; [apply ensures_publish|]. intros _ _. by apply ensures_ret.
  - intros id. cbn [so_DeleteSubmission imap_submissions]. unfold DeleteSubmission. eapply ensures_bind; [apply ensures_loaded|].
    intros m _. destruct (m !! id); [|by apply ensures_ret]. eapply ensures_bind; [apply ensures_write|]. intros _ _.
    eapply ensures_bind; [apply ensures_record|]. intros _ _. eapply ensures_bind; [apply ensures_publish|]. intros _ _. by apply ensures_ret.
  - intros ids. cbn [so_GetSubmissions imap_submissions]. unfold GetSubmissions. eapply ensures_bind; [apply ensures_loaded|]. intros m _.
    by apply ensures_ret.
  - intros. apply Hupdate.
  - intros. apply Hdelete.
Qed.

(** C3: EmailSubmission/set over the IMAP/SMTP backend gives its SMTP server no
    recipient that is neither local nor on the list: an invariant of the world
    that mail to other recipients keeps, and the other calls, survives every
    request.  The methods and the backend agree on how a recipient that may not
    be written to is marked. *)
Theorem smtp_respects_allow_list args w refs :
  str_or_empty args "accountId" = accountID -> J w ->
  J (fst (fst (HandleEmailSubmissionSet order parse_address blobs ops reads wr identities_of mailboxes resolver allowedRecipients None
                 FormatEmailRFC822 true MaxSubmissionSize c args (w, refs)))).
Proof.
  intros Ha Hw. apply (submission_set_keeps order parse_address blobs ops reads wr identities_of mailboxes resolver
    allowedRecipients None FormatEmailRFC822 true MaxSubmissionSize c accountID J); try done.
  apply imap_rules.
Qed.
End Kept.
End Sending.

(** A log of the mail that is sent, over no store. *)
Definition no_codec : Codec sub_map := mkCodec _ (fun _ => None) (fun _ => None).
Definition log_send (c : Ctx) (from : string) (to : list string) (raw : string) : St (list event) (option string) :=
  fun w => (w ++ [Sent from to], None).
Definition lift_reads : EmailReads (sub_state (list event)) :=
  mkEmailReads _ (fun _ _ => "s") (fun _ _ _ w => (w, ([], [], [], EmptyString, false)))
    (fun c ids => on_world (er_Get demo_reads c ids)) (fun _ w => (w, ([], None))).
Definition no_writes : EmailWrites (sub_state (list event)) :=
  mkEmailWrites _ (fun _ _ => "s") (fun _ em w => (w, Ok (fst em))) (fun _ _ _ w => (w, Ok JNull)) (fun _ _ w => (w, true))
    (fun w => (w, mkTime (1709210096 * second) UTC)) (fun w => (w, Some 7)) 1.
Definition demo_ops : SubmissionOps (sub_state (list event)) :=
  imap_submissions (H := ascii_runtime) (H0 := demo_zones) (H1 := demo_addresses) (H2 := plain_headers) None no_codec map_to_list demo_reads
    (fun _ _ => mret "Subject: Hello") (fun _ => EmptyString) true log_send (fun w => (w, Some 7)) 1 None (fun _ => EmptyString)
    (fun _ => EmptyString) (fun _ => None) 5 (fun m => m).
Definition empty_state : sub_state (list event) := mkSubState ([], mkCache ∅ ∅) ∅.
(** The example parser accepts no bracket at the start or the end. *)
Definition strict_parse (s : string) : option (string * string) :=
  if String.eqb (strip_brackets s) s then demo_parse s else None.
Definition demo_smtp_submit (args : obj) : list event :=
  fst (ss_store (fst (fst (HandleEmailSubmissionSet (H := ascii_runtime) (H0 := demo_zones) (H1 := demo_text) (H2 := demo_format)
    (H3 := demo_addresses) (H4 := plain_headers) in_order strict_parse None demo_ops lift_reads no_writes (fun c => on_world (demo_identities c))
    (fun c => on_world (demo_boxes c)) (Some (fun _ _ => (EmptyString, false))) demo_allowed None (fun _ => EmptyString) true 0 Background args
    (empty_state, None))))).
Definition strict_blocked : string -> bool :=
  blocked (H := ascii_runtime) strict_parse (Some (fun _ _ => (EmptyString, false))) demo_allowed Background demo_account.
Definition sent_ok (e : event) : Prop := match e with Sent _ to => Forall (fun r => strict_blocked r = false) to | _ => True end.
Example demo_smtp : map (fun e => match e with Sent from to => from :: to | _ => [] end) (demo_smtp_submit (demo_create_args []))
  = [["ann@home"; "ben@home"; "friend@ext"]].
Proof. vm_compute. reflexivity. Qed.

Lemma sent_logged from to w : Forall (fun r => strict_blocked r = false) to -> Forall sent_ok w -> Forall sent_ok (w ++ [Sent from to]).
Proof. intros Hto Hw. apply Forall_app. split; [exact Hw|]. by constructor. Qed.

Lemma smtp_respects_allow_list_witness :
  Forall sent_ok (demo_smtp_submit (demo_create_args [])) /\ strict_blocked "foe@ext" = true.
Proof.
  split; [|vm_compute; reflexivity].
  apply (smtp_respects_allow_list (H := ascii_runtime) (H0 := demo_zones) (H1 := demo_addresses) (H2 := plain_headers) (W := list event)
    None no_codec map_to_list demo_reads (fun _ _ => mret "Subject: Hello") (fun _ => EmptyString) true log_send (fun w => (w, Some 7)) 1 None
    (fun _ => EmptyString) (fun _ => EmptyString) (fun _ => None) 5 (fun m => m) strict_parse (Some (fun _ _ => (EmptyString, false)))
    demo_allowed Background demo_account); try (intros; intros w Hw; split; [exact Hw|exact I]); try discriminate.
  - intros a. unfold strict_parse. destruct (String.eqb_spec (strip_brackets a) a); [done|congruence].
  - intros from l raw Hl w Hw. split; [apply sent_logged; [exact Hl|exact Hw]|exact I].
  - reflexivity.
  - constructor.
Defined.

(** ** Cancelling *)

Section Undo.
Context `{GoRuntime}.
Lemma patch_canceled sub patch : su_UndoStatus sub = "canceled" -> patch_submission sub patch = (sub, None) /\ patch = []
  \/ exists e, patch_submission sub patch = (sub, Some e).
Proof.
  intros Hs. destruct patch as [|[k v] patch]; [by left|right]. cbn [patch_submission]. unfold patch_member. cbn [fst snd].
  destruct (String.eqb k "undoStatus"); [|eauto]. destruct (negb _); [eauto|]. rewrite Hs. cbn. eauto.
Qed.

(** What cancelling means, said of the submission before and after: it is marked
    as cancelled and nothing else of it changes, except that a delivery that is
    still queued or pending becomes one that was not made. *)
Definition waiting (d : DeliveryStatus) : Prop := ds_Delivered d = "queued" \/ ds_Delivered d = "pending".
Record undone (sub sub' : EmailSubmission) : Prop := {
  un_status : su_UndoStatus sub' = "canceled";
  un_id : su_ID sub' = su_ID sub;
  un_identity : su_IdentityID sub' = su_IdentityID sub;
  un_email : su_EmailID sub' = su_EmailID sub;
  un_thread : su_ThreadID sub' = su_ThreadID sub;
  un_envelope : su_Envelope sub' = su_Envelope sub;
  un_sendAt : su_SendAt sub' = su_SendAt sub;
  un_dsn : su_DSN sub' = su_DSN sub;
  un_mdn : su_MDN sub' = su_MDN sub;
  un_delivery : Forall2 (fun old new => fst new = fst old
      /\ (waiting (snd old) /\ snd new = mkDelivery "canceled by user" "no" (ds_Displayed (snd old))
          \/ ~ waiting (snd old) /\ snd new = snd old))
    (su_DeliveryStatus sub) (su_DeliveryStatus sub');
}.
Lemma cancelled_undone sub : undone sub (cancelled sub).
Proof.
  split; try done. cbn [cancelled su_DeliveryStatus]. apply Forall2_fmap_r, Forall_Forall2_diag, Forall_true. intros [r d].
  cbn [fst snd]. split; [done|]. unfold waiting, cancelled_delivery. cbn [fst snd].
  destruct (String.eqb_spec (ds_Delivered d) "queued"), (String.eqb_spec (ds_Delivered d) "pending"); cbn [orb];
    first [left; split; [tauto|reflexivity]|right; split; [tauto|reflexivity]].
Qed.

(** C35: A patch changes a stored submission in one way only, and exactly when
    its first member asks for it and the submission is pending: the submission is
    marked as cancelled, the deliveries still waiting become deliveries not
    made, and its id, identity, email, thread, envelope, date, the addresses of
    its deliveries and its notifications stay.  A patch is accepted exactly when
    it is empty, or asks for this alone of a pending submission. *)
Theorem submission_undo sub patch :
  let asked := head patch = Some ("undoStatus", JStr "canceled") /\ su_UndoStatus sub = "pending" in
  (asked /\ undone sub (fst (patch_submission sub patch)) \/ ~ asked /\ fst (patch_submission sub patch) = sub)
  /\ (snd (patch_submission sub patch) = None <-> patch = [] \/ asked /\ length patch = 1%nat).
Proof.
  cbv zeta. destruct patch as [|[k v] patch]; [cbn; split; [right; split; [by intros [? ?]|done]|by split; [left|]]|]. cbn [patch_submission head length]. unfold patch_member. cbn [fst snd].
  assert (Hno : forall e : go_error, ~ (Some (k, v) = Some ("undoStatus", JStr "canceled") /\ su_UndoStatus sub = "pending") ->
    ((Some (k, v) = Some ("undoStatus", JStr "canceled") /\ su_UndoStatus sub = "pending") /\ undone sub sub
     \/ ~ (Some (k, v) = Some ("undoStatus", JStr "canceled") /\ su_UndoStatus sub = "pending") /\ sub = sub)
    /\ (Some e = None <-> (k, v) :: patch = []
        \/ (Some (k, v) = Some ("undoStatus", JStr "canceled") /\ su_UndoStatus sub = "pending") /\ S (length patch) = 1%nat))
    by naive_solver.
  destruct (String.eqb_spec k "undoStatus") as [->|Hk]; [|apply Hno; naive_solver].
  destruct v as [| | |str| |]; cbn [negb]; try (apply Hno; naive_solver).
  destruct (String.eqb_spec str "canceled") as [->|Hc]; cbn [negb]; [|apply Hno; naive_solver].
  destruct (String.eqb_spec (su_UndoStatus sub) "canceled") as [E|_]; [apply Hno; rewrite E; intros [_ [=]]|].
  destruct (String.eqb_spec (su_UndoStatus sub) "pending") as [E|E]; cbn [negb]; [|apply Hno; naive_solver].
  destruct (patch_canceled (cancelled sub) patch eq_refl) as [[-> ->]|[e He]].
  - cbn [fst snd length]. pose proof (cancelled_undone sub). naive_solver.
  - assert (Hp : patch <> []) by (intros ->; discriminate He). rewrite He. cbn [fst snd]. pose proof (cancelled_undone sub).
    split; [naive_solver|]. split; [done|]. intros [?|[_ Hl]]; [done|]. by destruct patch.
Qed.
End Undo.

(** Two observations of the backend, on a stored pending submission: a request
    that cancels and names another property is refused, yet the object kept in
    memory is cancelled; and an update of a submission that does not exist is
    answered as done. *)
Definition pending_sub : EmailSubmission :=
  mkSubmission "s1" "i1" "e1" "t1" None "2024-01-01T00:00:00Z" "pending" [("ben@home", mkDelivery "250 2.0.0 OK" "queued" "unknown")] None None.
Definition one_pending : sub_state (list event) := mkSubState ([], mkCache {[EmptyString := {["s1" := pending_sub]}]} {[EmptyString := 100]}) ∅.
Definition demo_patch (id : string) (patch : obj) : sub_state (list event) * result go_error (option EmailSubmission) :=
  UpdateSubmission (H := ascii_runtime) None no_codec map_to_list None (fun _ => EmptyString) (fun _ => EmptyString) 5 (fun m => m) Background id
    patch one_pending.
Theorem undo_surprises :
  (let '(st, r) := demo_patch "s1" [("undoStatus", JStr "canceled"); ("sendAt", JNull)] in
   match r with Err _ => True | Ok _ => False end
   /\ (su_UndoStatus <$> (getSubMapLocked (snd (ss_store st)) EmptyString !! "s1")) = Some "canceled")
  /\ snd (demo_patch "s2" [("undoStatus", JStr "canceled")]) = Ok None.
Proof. split; [split; [exact I|]|]; vm_compute; reflexivity. Qed.
