(* ===== verification/CalendarScheduling.v ===== *)
(** * Scheduling messages

    [jmap/jmapcalendar/scheduling.go]: who is sent an iTIP message when an event
    is created, changed or destroyed, and the email that carries it.

    The texts of the messages are written by the functions of [itip.go] over
    the types of the go-ical package and are arguments: [BuildITIPRequest],
    [BuildITIPCancel] and [BuildITIPReply], [None] for an error.  The mail
    backend and the principals backend are optional; [range] is the order in
    which Go visits a map. *)

From S2P Require Import Prelude GoSort GoStrings GoState Json Envelope CreationRefs Query Handler MailTypes MailQuery MethodSupport GoTime GoJson CalendarTypes CalendarEvents Calendars EmailGet MimeBody MessageId MimeParse EmailSet Principals Submissions.
From Stdlib Require Import Ascii.

(** ** Addresses *)

Section Addresses.
Context `{GoRuntime}.
Variable range : forall A, gmap string A -> list (string * A).

Definition CR : string := str_of ["013"%char].
Definition LF : string := str_of ["010"%char].
Definition normalizeCalendarAddress (addr : string) : string :=
  let addr := TrimSpace addr in
  let addr := ReplaceAll (ReplaceAll addr CR EmptyString) LF EmptyString in
  ToLower (if HasPrefix (ToLower addr) "mailto:" then str_drop 7 addr else addr).

Definition isOwnerParticipant (p : option JSCalendarParticipant) : bool :=
  match p with Some p => is_owner p | None => false end.
(** The calendar address of a participant, or its email. *)
Definition own_address (p : JSCalendarParticipant) : option string :=
  if negb (String.eqb (pa_CalendarAddress p) EmptyString) then Some (normalizeCalendarAddress (pa_CalendarAddress p))
  else if negb (String.eqb (pa_Email p) EmptyString) then Some (normalizeCalendarAddress (pa_Email p))
  else None.
Definition organizerAddress (ev : CalendarEvent) : string :=
  if negb (String.eqb (ev_OrganizerCalendarAddress ev) EmptyString) then normalizeCalendarAddress (ev_OrganizerCalendarAddress ev)
  else default EmptyString (head (omap (fun kv => match snd kv with
                                                  | Some p => if is_owner p then own_address p else None
                                                  | None => None
                                                  end) (range _ (ev_Participants ev)))).
Definition participantAddress (key : string) (p : option JSCalendarParticipant) : string :=
  default (normalizeCalendarAddress key) (p ≫= own_address).

Definition schedulingRecipients (ev : CalendarEvent) : gmap string string :=
  let org := organizerAddress ev in
  map_imap (fun key p =>
    match p with
    | None => None
    | Some q =>
        let addr := participantAddress key p in
        if String.eqb addr EmptyString then None
        else if negb (String.eqb org EmptyString) && String.eqb addr org then None
        else if is_owner q then None
        else Some addr
    end) (ev_Participants ev).

(** The event as a recipient sees it: without the other participants when they
    are hidden.  The copy is made through JSON. *)
Context `{FirstKey}.
Definition eventForRecipient (ev : CalendarEvent) (recipientKey : string) : CalendarEvent :=
  if negb (ev_HideAttendees ev) || (size (ev_Participants ev) <=? 1)%nat then ev
  else
    let clone : CalendarEvent := unmarshal (wjson ev) in
    set_ev_Participants
      (map_imap (fun k p => match p with
                            | Some q => if String.eqb k recipientKey || is_owner q then Some p else None
                            | None => None
                            end) (ev_Participants clone)) clone.
End Addresses.

(** ** Sending *)

(** What is used of a mail backend. *)
Record MailOps (W : Type) : Type := mkMailOps {
  mo_GetAllMailboxes : Ctx -> St W (result go_error (list Mailbox));
  mo_Writes : EmailWrites W;
  mo_Submissions : SubmissionOps W;
}.
Arguments mo_GetAllMailboxes {W} _ _ _.
Arguments mo_Writes {W} _.
Arguments mo_Submissions {W} _.

(** The email: one part, of type text/calendar. *)
Definition scheduling_part (ics method : string) : EmailBodyPart :=
  mkPart (Some "1") None (Z.of_nat (slen ics)) [] None ("text/calendar; method=" +:+ method) None None None [] None [].
Definition scheduling_email (sentMbID subject from to msgID sentAt ics method : string) : Email :=
  mkEmail EmptyString EmptyString EmptyString [(sentMbID, true)] [] 0 EmptyString [msgID] [] [] []
    [mkAddress EmptyString from] [mkAddress EmptyString to] [] [] [] subject (Some sentAt) [] (scheduling_part ics method)
    [("1", mkBodyValue ics false false)] [scheduling_part ics method] [] [] false EmptyString.
Definition scheduling_submission (saved : Email) (from to : string) : EmailSubmission :=
  mkSubmission EmptyString EmptyString (em_ID saved) (em_ThreadID saved)
    (Some (mkSubEnvelope (mkSubAddress from []) [mkSubAddress to []])) EmptyString EmptyString [] None None.

Section Sending.
Context `{GoRuntime} `{TimeZones} `{AddressText} `{FirstKey} {W : Type}.
Variable b : CalendarsBackend W.
Variable mail : option (MailOps W).
Variable principals : option (PrincipalsBackend W).
Variable range : forall A, gmap string A -> list (string * A).
Variables BuildITIPRequest BuildITIPCancel : CalendarEvent -> string -> option string.
Variable BuildITIPReply : CalendarEvent -> string -> string -> option string.

(** The address of the caller, from the subject or the account of the
    context. *)
Definition caller_address (c : Ctx) : string :=
  match SubjectFromContext c with
  | (subj, true) => normalizeCalendarAddress subj
  | (_, false) =>
      let acc := fst (AccountIDFromContext c) in
      if String.eqb acc EmptyString then EmptyString
      else match SubjectForAccountID acc with Some s => normalizeCalendarAddress s | None => EmptyString end
  end.
Definition sent_mailbox (r : result go_error (list Mailbox)) : string :=
  match r with
  | Ok l => default "mb-sent" (mb_ID <$> List.find (fun mb =>
              match mb_Role mb with Some role => EqualFold role "sent" | None => false end || EqualFold (mb_Name mb) "Sent") l)
  | Err _ => "mb-sent"
  end.
(** Whether the function returns without an error. *)
Definition sendSchedulingEmail (c : Ctx) (subject fromAddr toAddr ics method : string) : St W bool :=
  match mail with
  | None => mret false
  | Some m =>
      if String.eqb toAddr EmptyString || String.eqb ics EmptyString then mret false
      else
        let subject := ReplaceAll (ReplaceAll subject CR EmptyString) LF " " in
        let from := normalizeCalendarAddress fromAddr in
        let to := normalizeCalendarAddress toAddr in
        let from := if String.eqb from EmptyString then caller_address c else from in
        let from := if String.eqb from EmptyString then "calendar@localhost" else from in
        let wr := mo_Writes m in
        now ← ew_Now wr;
        random ← ew_Random wr;
        let msgID := GenerateMessageID (t_ns now) random (ew_Pid wr) from in
        sentAt ← ew_Now wr;
        mbs ← mo_GetAllMailboxes m c;
        r ← ew_CreateEmail wr c (scheduling_email (sent_mailbox mbs) subject from to msgID (Format_UTC sentAt) ics method, no_smime);
        match r with
        | Err _ => mret false
        | Ok saved =>
            r ← so_CreateSubmission (mo_Submissions m) c (scheduling_submission saved from to);
            mret (match r with Ok _ => true | Err _ => false end)
        end
  end.

(** ** Groups *)

Definition principalByID (l : list Principal) : gmap string Principal := foldl (fun m p => <[pr_ID p := p]> m) ∅ l.
Definition principalByEmail (l : list Principal) : gmap string Principal :=
  foldl (fun m p => if String.eqb (pr_Email p) EmptyString then m else <[normalizeCalendarAddress (pr_Email p) := p]> m) ∅ l.
Definition add_member (byID : gmap string Principal) (m : gmap string string) (memberID : string) : gmap string string :=
  match byID !! memberID with
  | Some member => if String.eqb (pr_Email member) EmptyString then m
                   else <[pr_ID member := normalizeCalendarAddress (pr_Email member)]> m
  | None => m
  end.
Definition expand_one (l : list Principal) (expanded : gmap string string) (kv : string * string) : gmap string string :=
  let '(key, addr) := kv in
  let byID := principalByID l in
  let p := match principalByEmail l !! normalizeCalendarAddress addr with Some p => Some p | None => byID !! key end in
  match p with
  | Some g => if String.eqb (pr_Type g) "group" && negb (bool_decide (pr_Members g = ∅))
              then foldl (add_member byID) expanded (map fst (range _ (pr_Members g)))
              else <[key := addr]> expanded
  | None => <[key := addr]> expanded
  end.
Definition expand (l : list Principal) (recipients : gmap string string) : gmap string string :=
  foldl (expand_one l) ∅ (range _ recipients).
Definition ExpandGroupRecipients (c : Ctx) (recipients : gmap string string) : St W (gmap string string) :=
  match principals with
  | None => mret recipients
  | Some pb =>
      if bool_decide (recipients = ∅) then mret recipients
      else
        r ← pb_GetAll pb c;
        mret (match r with Ok ((_ :: _) as l) => expand l recipients | _ => recipients end)
  end.

(** ** The three kinds of messages *)

Definition organizer_or_caller (c : Ctx) (ev : CalendarEvent) (organizerEmail : string) : string :=
  let organizerEmail := if String.eqb organizerEmail EmptyString then organizerAddress range ev else organizerEmail in
  if String.eqb organizerEmail EmptyString then caller_address c else organizerEmail.
Definition status_path (key : string) : string := "participants/" +:+ key +:+ "/scheduleStatus".
Definition sent_status (sent : bool) : json := JStr (if sent then "1.1;sent" else "5.1;failed").
(** A request to one recipient; the error of the text counts as not sent. *)
Definition request_one (c : Ctx) (ev : CalendarEvent) (subjectPrefix organizerEmail : string) (patches : obj) (kv : string * string)
  : St W obj :=
  let '(key, addr) := kv in
  sent ← match mail, BuildITIPRequest (eventForRecipient ev key) organizerEmail with
         | Some _, Some ics => sendSchedulingEmail c (subjectPrefix +:+ ev_Title ev) organizerEmail addr ics "REQUEST"
         | _, _ => mret false
         end;
  mret (obj_set patches (status_path key) (sent_status sent)).
(** The schedule status of the stored event, copied to the participants that
    both have. *)
Definition with_status (ev updated : CalendarEvent) : CalendarEvent :=
  set_ev_Participants
    (map_imap (fun k p => match p, ev_Participants updated !! k with
                          | Some p, Some (Some q) => Some (Some (set_pa_ScheduleStatus (pa_ScheduleStatus q) p))
                          | p, _ => Some p
                          end) (ev_Participants ev)) ev.
(** The event with the new schedule status: the code writes it into the event
    it was given. *)
Definition dispatchITIPRequests (c : Ctx) (ev : CalendarEvent) (subjectPrefix organizerEmail : string) : St W CalendarEvent :=
  let organizerEmail := organizer_or_caller c ev organizerEmail in
  recipients ← ExpandGroupRecipients c (schedulingRecipients range ev);
  patches ← fold_state (request_one c ev subjectPrefix organizerEmail) [] (range _ recipients);
  match patches, String.eqb (ev_ID ev) EmptyString with
  | _ :: _, false =>
      r ← kb_UpdateCalendarEvent b c (ev_ID ev) patches;
      mret (match r with Ok updated => with_status ev updated | Err _ => ev end)
  | _, _ => mret ev
  end.

Definition declined (p : JSCalendarParticipant) : bool :=
  EqualFold (pa_ParticipationStatus p) "declined" || EqualFold (pa_Status p) "declined".
Definition cancel_one (c : Ctx) (ev : CalendarEvent) (organizerEmail : string) (ics : option string) (_ : unit) (kv : string * string)
  : St W unit :=
  let '(key, addr) := kv in
  if match ev_Participants ev !! key with Some (Some p) => declined p | _ => false end then mret tt
  else match ics with
       | Some ics => _ ← sendSchedulingEmail c ("Cancelled: " +:+ ev_Title ev) organizerEmail addr ics "CANCEL"; mret tt
       | None => mret tt
       end.
Definition dispatchITIPCancels (c : Ctx) (ev : CalendarEvent) (organizerEmail : string) : St W unit :=
  let organizerEmail := organizer_or_caller c ev organizerEmail in
  recipients ← ExpandGroupRecipients c (schedulingRecipients range ev);
  fold_state (cancel_one c ev organizerEmail (BuildITIPCancel ev organizerEmail)) tt (range _ recipients).

(** The reply that a member of a patch asks for: the key of the participant,
    its address and the new status. *)
Definition reply_of (ev : CalendarEvent) (organizer : string) (kv : string * json) : option (string * string * string) :=
  let '(path, val) := kv in
  if negb (HasPrefix path "participants/") then None
  else match Split path "/", val with
       | [_; partKey; field], JStr status =>
           if negb (String.eqb field "participationStatus" || String.eqb field "status") then None
           else if String.eqb status EmptyString || EqualFold status "needs-action" then None
           else
             let attendee := match ev_Participants ev !! partKey with
                             | Some p => participantAddress partKey p
                             | None => normalizeCalendarAddress partKey
                             end in
             if String.eqb attendee organizer then None else Some (partKey, attendee, status)
       | _, _ => None
       end.
Definition reply_one (c : Ctx) (ev : CalendarEvent) (organizer : string) (acc : obj * bool) (kv : string * json) : St W (obj * bool) :=
  match reply_of ev organizer kv with
  | None => mret acc
  | Some (partKey, attendee, status) =>
      match mail, BuildITIPReply ev attendee status with
      | Some _, Some ics =>
          sent ← sendSchedulingEmail c ("Re: " +:+ ev_Title ev) attendee organizer ics "REPLY";
          mret (obj_set (fst acc) (status_path partKey) (sent_status sent), true)
      | _, _ => mret (fst acc, true)
      end
  end.
(** The patch with the schedule status of the replies, and whether there was
    one. *)
Definition dispatchITIPRepliesForPatch (order : MapOrder) (c : Ctx) (ev : CalendarEvent) (patch : obj) : St W (obj * bool) :=
  let organizer := organizerAddress range ev in
  if String.eqb organizer EmptyString then mret (patch, false)
  else fold_state (reply_one c ev organizer) (patch, false) (range_map order patch).
End Sending.

(** ** Who is written to *)

(** A participant that is neither an owner nor at the address of the
    organizer. *)
Definition invited `{GoRuntime} (range : forall A, gmap string A -> list (string * A)) (ev : CalendarEvent) (k a : string) : Prop :=
  exists p, ev_Participants ev !! k = Some (Some p) /\ is_owner p = false /\ a = participantAddress k (Some p)
            /\ a <> EmptyString /\ a <> organizerAddress range ev.
(** An invited participant, or a member of a group that is one: [directory] is
    the list of the principals. *)
Definition entitled `{GoRuntime} (range : forall A, gmap string A -> list (string * A)) (directory : list Principal) (ev : CalendarEvent)
    (a : string) : Prop :=
  (exists k, invited range ev k a)
  \/ exists k a0 g m, invited range ev k a0 /\ g ∈ directory /\ pr_Type g = "group"
       /\ (normalizeCalendarAddress (pr_Email g) = normalizeCalendarAddress a0 \/ pr_ID g = k)
       /\ is_Some (pr_Members g !! pr_ID m) /\ m ∈ directory /\ pr_Email m <> EmptyString
       /\ a = normalizeCalendarAddress (pr_Email m).

Section Recipients.
Context `{GoRuntime} (range : forall A, gmap string A -> list (string * A)) (Hrange : visits_all range).

Lemma recipients_invited ev k a : schedulingRecipients range ev !! k = Some a <-> invited range ev k a.
Proof.
  unfold schedulingRecipients, invited. rewrite map_lookup_imap. cbv zeta. split.
  - destruct (ev_Participants ev !! k) as [[p|]|]; cbn [mbind option_bind]; try done.
    destruct (String.eqb_spec (participantAddress k (Some p)) EmptyString) as [|Hne]; [done|].
    destruct (String.eqb_spec (organizerAddress range ev) EmptyString) as [Ho|Ho];
      destruct (String.eqb_spec (participantAddress k (Some p)) (organizerAddress range ev)) as [|Hn]; cbn [negb andb]; try done;
      destruct (is_owner p) eqn:Eo; try done; intros [= <-]; exists p; split_and!; congruence.
  - intros (p & -> & Hp & -> & Hne & Hno). cbn [mbind option_bind].
    rewrite (proj2 (String.eqb_neq _ _) Hne), (proj2 (String.eqb_neq _ _) Hno), andb_false_r, Hp. done.
Qed.

Lemma by_id_elem l id p : principalByID l !! id = Some p -> p ∈ l /\ pr_ID p = id.
Proof.
  unfold principalByID. revert p. induction l as [|q l IH] using rev_ind; intros p; [done|].
  rewrite foldl_app. cbn [foldl]. intros [[<- <-]|[_ Hp]]%lookup_insert_Some; [set_solver|]. apply IH in Hp. set_solver.
Qed.
Lemma by_email_elem l a p : principalByEmail l !! a = Some p -> p ∈ l /\ normalizeCalendarAddress (pr_Email p) = a.
Proof.
  unfold principalByEmail. revert p. induction l as [|q l IH] using rev_ind; intros p; [done|].
  rewrite foldl_app. cbn [foldl]. destruct (String.eqb _ _); [intros Hp%IH; set_solver|].
  intros [[<- <-]|[_ Hp]]%lookup_insert_Some; [set_solver|]. apply IH in Hp. set_solver.
Qed.

(** The expansion writes to the recipients and to the members of groups among
    them. *)
Lemma expand_entitled l ev k a : expand range l (schedulingRecipients range ev) !! k = Some a -> entitled range l ev a.
Proof.
  unfold expand. assert (forall kv, kv ∈ range _ (schedulingRecipients range ev) -> invited range ev (fst kv) (snd kv)) as Hin.
  { intros [k' a'] Hkv. rewrite (Hrange _ (schedulingRecipients range ev)) in Hkv. apply elem_of_map_to_list in Hkv.
    by apply recipients_invited. }
  revert k a. induction (range _ (schedulingRecipients range ev)) as [|[k' a'] kvs IH] using rev_ind; intros k a; [done|].
  rewrite foldl_app. cbn [foldl]. specialize (IH (fun kv Hkv => Hin kv ltac:(set_solver))).
  assert (invited range ev k' a') as Hinv by (apply (Hin (k', a')); set_solver). clear Hin.
  set (m0 := foldl _ ∅ kvs) in *. unfold expand_one. cbv zeta.
  assert (forall p, match principalByEmail l !! normalizeCalendarAddress a' with Some p => Some p | None => principalByID l !! k' end = Some p ->
            p ∈ l /\ (normalizeCalendarAddress (pr_Email p) = normalizeCalendarAddress a' \/ pr_ID p = k')) as Hp.
  { intros p. destruct (principalByEmail l !! _) eqn:E; [intros [= <-]; apply by_email_elem in E; naive_solver|].
    intros Hp%by_id_elem. naive_solver. }
  assert (forall m1 : gmap string string, m1 = <[k' := a']> m0 -> m1 !! k = Some a -> entitled range l ev a) as Hplain.
  { intros m1 -> [[<- <-]|[_ Hm]]%lookup_insert_Some; [left; eauto|by eapply IH]. }
  destruct (match principalByEmail l !! _ with Some p => Some p | None => _ end) as [g|]; [|by apply Hplain].
  destruct (Hp g eq_refl) as [Hg Hname]. destruct (String.eqb_spec (pr_Type g) "group") as [Ht|]; cbn [andb]; [|by apply Hplain].
  destruct (bool_decide _); cbn [negb]; [by apply Hplain|]. clear Hplain Hp.
  assert (forall id, id ∈ map fst (range _ (pr_Members g)) -> is_Some (pr_Members g !! id)) as Hmem.
  { intros id ([id' v] & -> & Hid)%list_elem_of_fmap. rewrite (Hrange _ (pr_Members g)) in Hid. apply elem_of_map_to_list in Hid. eauto. }
  revert k a. induction (map fst (range _ (pr_Members g))) as [|id ids IHids] using rev_ind; intros k a; [apply IH|].
  rewrite foldl_app. cbn [foldl]. specialize (IHids (fun i Hi => Hmem i ltac:(set_solver))).
  unfold add_member at 1. destruct (principalByID l !! id) as [mem|] eqn:Em; [|apply IHids].
  apply by_id_elem in Em as [Hm Eid]. destruct (String.eqb_spec (pr_Email mem) EmptyString); [apply IHids|].
  intros [[<- <-]|[_ Hk]]%lookup_insert_Some; [|by eapply IHids]. right. exists k', a', g, mem. split_and!; try done.
  rewrite Eid. apply Hmem. set_solver.
Qed.
End Recipients.

(** ** What sending keeps *)

Lemma fold_state_ensures {W A B} (I : W -> Prop) (Q : B -> Prop) (f : B -> A -> St W B) l : forall acc,
  Q acc -> (forall acc x, Q acc -> x ∈ l -> ensures I Q (f acc x)) -> ensures I Q (fold_state f acc l).
Proof.
  induction l as [|x l IH]; intros acc Hq Hf; cbn [fold_state]; [by apply ensures_ret|].
  eapply ensures_bind; [by apply Hf; [|left]|]. intros acc' Hq'. apply IH; [done|]. intros. apply Hf; [done|by right].
Qed.

(** Patches of the schedule status of participants only. *)
Definition status_only (patches : obj) : Prop := forall k, k ∈ obj_keys patches -> exists key, k = status_path key.
Lemma status_only_set patches key v : status_only patches -> status_only (obj_set patches (status_path key) v).
Proof.
  intros Hp k. rewrite obj_keys_set. case_decide; [apply Hp|]. intros [Hk|Hk]%elem_of_app; [by apply Hp|]. apply list_elem_of_singleton in Hk as ->. eauto.
Qed.

(** [I] survives what a message does: the clock and the mailboxes are read, and
    an email to one address in [allowed] is stored and submitted. *)
Record mail_rules {W} (m : MailOps W) (c : Ctx) (allowed : string -> Prop) (I : W -> Prop) : Prop := {
  mr_now : ensures I (fun _ => True) (ew_Now (mo_Writes m));
  mr_random : ensures I (fun _ => True) (ew_Random (mo_Writes m));
  mr_mailboxes : ensures I (fun _ => True) (mo_GetAllMailboxes m c);
  mr_create : forall mb subject from to msgID sentAt ics method, allowed to ->
    ensures I (fun _ => True) (ew_CreateEmail (mo_Writes m) c (scheduling_email mb subject from to msgID sentAt ics method, no_smime));
  mr_submit : forall saved from to, allowed to ->
    ensures I (fun _ => True) (so_CreateSubmission (mo_Submissions m) c (scheduling_submission saved from to));
}.

Section Kept.
Context `{GoRuntime} `{TimeZones} `{AddressText} `{FirstKey} {W : Type}.
Context (b : CalendarsBackend W) (mail : option (MailOps W)) (principals : option (PrincipalsBackend W)).
Context (range : forall A, gmap string A -> list (string * A)) (Hrange : visits_all range).
Context (BuildITIPRequest BuildITIPCancel : CalendarEvent -> string -> option string).
Context (BuildITIPReply : CalendarEvent -> string -> string -> option string).
Context (c : Ctx) (I : W -> Prop) (directory : list Principal).
Context (Hdirectory : forall pb, principals = Some pb -> ensures I (fun r => r = Ok directory \/ exists e, r = Err e) (pb_GetAll pb c)).

Lemma send_keeps allowed subject from to ics method :
  (forall m, mail = Some m -> mail_rules m c allowed I) -> allowed (normalizeCalendarAddress to) ->
  ensures I (fun _ => True) (sendSchedulingEmail mail c subject from to ics method).
Proof.
  intros Hm Ha. unfold sendSchedulingEmail. destruct mail as [m|]; [|by apply ensures_ret]. destruct (Hm m eq_refl) as [H1' H2' H3' H4' H5'].
  destruct (_ || _); [by apply ensures_ret|]. cbv zeta.
  eapply ensures_bind; [exact H1'|intros now _]. eapply ensures_bind; [exact H2'|intros random _].
  eapply ensures_bind; [exact H1'|intros sentAt _]. eapply ensures_bind; [exact H3'|intros mbs _].
  eapply ensures_bind; [by apply H4'|intros [saved|e] _]; [|by apply ensures_ret].
  eapply ensures_bind; [by apply H5'|intros r _]. by apply ensures_ret.
Qed.

Lemma expand_keeps ev :
  ensures I (fun m => forall k a, m !! k = Some a -> entitled range directory ev a)
    (ExpandGroupRecipients principals range c (schedulingRecipients range ev)).
Proof.
  assert (forall k a, schedulingRecipients range ev !! k = Some a -> entitled range directory ev a) as Hplain.
  { intros k a Hk%recipients_invited. left. eauto. }
  unfold ExpandGroupRecipients. destruct principals as [pb|]; [|by apply ensures_ret].
  destruct (bool_decide _); [by apply ensures_ret|]. eapply ensures_bind; [by apply Hdirectory|].
  intros r Hr. apply ensures_ret. destruct Hr as [->|[e ->]]; [|done]. destruct directory as [|p l]; [done|].
  intros k a. by apply expand_entitled.
Qed.

Section One.
Context (ev : CalendarEvent) (allowed : string -> Prop).
Context (Hmail : forall m, mail = Some m -> mail_rules m c allowed I).

Lemma recipient_entitled (recipients : gmap string string) k a :
  (forall k a, recipients !! k = Some a -> entitled range directory ev a) -> (k, a) ∈ range _ recipients -> entitled range directory ev a.
Proof. intros Hr. rewrite (Hrange _ recipients). intros Hk%elem_of_map_to_list. by eapply Hr. Qed.

Lemma requests_keep subject organizer :
  (forall a, entitled range directory ev a -> allowed (normalizeCalendarAddress a)) ->
  (forall patches, status_only patches -> ensures I (fun _ => True) (kb_UpdateCalendarEvent b c (ev_ID ev) patches)) ->
  ensures I (fun ev' => ev_ID ev' = ev_ID ev)
    (dispatchITIPRequests b mail principals range BuildITIPRequest c ev subject organizer).
Proof.
  intros Ha Hup. unfold dispatchITIPRequests. eapply ensures_bind; [apply expand_keeps|]. intros recipients Hrec.
  eapply (ensures_bind _ status_only).
  - apply fold_state_ensures; [by intros k Hk%not_elem_of_nil|]. intros patches [k a] Hp Hin. unfold request_one.
    eapply (ensures_bind _ (fun _ => True)); [|intros sent _; by apply ensures_ret, status_only_set].
    destruct mail as [m|] eqn:Em; [|by apply ensures_ret]. destruct (BuildITIPRequest _ _); [|by apply ensures_ret].
    rewrite <- Em. rewrite <- Em in Hmail. eapply send_keeps; [exact Hmail|]. apply Ha. exact (recipient_entitled recipients k a Hrec Hin).
  - intros patches Hp. destruct patches as [|q patches]; [by apply ensures_ret|]. destruct (String.eqb _ _); [by apply ensures_ret|].
    eapply ensures_bind; [by apply Hup|]. intros [u|e] _; by apply ensures_ret.
Qed.

Lemma cancels_keep organizer :
  (forall a, entitled range directory ev a -> allowed (normalizeCalendarAddress a)) ->
  ensures I (fun _ => True) (dispatchITIPCancels mail principals range BuildITIPCancel c ev organizer).
Proof.
  intros Ha. unfold dispatchITIPCancels. eapply ensures_bind; [apply expand_keeps|]. intros recipients Hrec.
  apply fold_state_ensures; [done|]. intros [] [k a] _ Hin. unfold cancel_one. case_match; [by apply ensures_ret|].
  destruct (BuildITIPCancel _ _); [|by apply ensures_ret].
  eapply ensures_bind; [|intros sent _; by apply ensures_ret]. eapply send_keeps; [exact Hmail|]. apply Ha. exact (recipient_entitled recipients k a Hrec Hin).
Qed.

Lemma replies_keep order patch :
  (organizerAddress range ev <> EmptyString -> allowed (normalizeCalendarAddress (organizerAddress range ev))) ->
  ensures I (fun _ => True) (dispatchITIPRepliesForPatch mail range BuildITIPReply order c ev patch).
Proof.
  intros Ha. unfold dispatchITIPRepliesForPatch. destruct (String.eqb_spec (organizerAddress range ev) EmptyString) as [|Hne]; [by apply ensures_ret|].
  apply fold_state_ensures; [done|]. intros acc kv _ _. unfold reply_one.
  destruct (reply_of _ _ _) as [[[k attendee] status]|]; [|by apply ensures_ret].
  destruct mail as [m|] eqn:Em; [|by apply ensures_ret]. destruct (BuildITIPReply _ _ _); [|by apply ensures_ret].
  rewrite <- Em. rewrite <- Em in Hmail. eapply ensures_bind; [|intros sent _; by apply ensures_ret].
  eapply send_keeps; [exact Hmail|]. by apply Ha.
Qed.
End One.
End Kept.

(** C7: Scheduling messages reach invited participants only.  Whatever property
    of the world survives reading the principals, the clock and the mailboxes,
    writing the schedule status of participants of the event, and storing and
    submitting an email to one address that belongs to a participant of the
    event who is neither an owner nor its organizer, or to a member of a group
    that is such a participant, survives the requests and the cancellations
    that are sent for the event. *)
Theorem scheduling_reaches_invited `{GoRuntime} `{TimeZones} `{AddressText} `{FirstKey} {W} (b : CalendarsBackend W) mail principals range
    BuildITIPRequest BuildITIPCancel c (I : W -> Prop) directory ev subject organizer w :
  visits_all range ->
  (forall pb, principals = Some pb -> ensures I (fun r => r = Ok directory \/ exists e, r = Err e) (pb_GetAll pb c)) ->
  (forall m, mail = Some m ->
     mail_rules m c (fun to => exists a, to = normalizeCalendarAddress a /\ entitled range directory ev a) I) ->
  (forall patches, status_only patches -> ensures I (fun _ => True) (kb_UpdateCalendarEvent b c (ev_ID ev) patches)) ->
  I w ->
  I (fst (dispatchITIPRequests b mail principals range BuildITIPRequest c ev subject organizer w))
  /\ I (fst (dispatchITIPCancels mail principals range BuildITIPCancel c ev organizer w)).
Proof.
  intros Hr Hd Hm Hu Hw. split.
  - apply (requests_keep b mail principals range Hr BuildITIPRequest c I directory Hd ev _ Hm); eauto.
  - apply (cancels_keep mail principals range Hr BuildITIPCancel c I directory Hd ev _ Hm); eauto.
Qed.

(** With hidden attendees, the event that a recipient is sent shows that
    recipient and the owners only. *)
Lemma hidden_attendees `{GoRuntime} `{FirstKey} ev key k p :
  ev_HideAttendees ev = true -> (1 < size (ev_Participants ev))%nat ->
  ev_Participants (eventForRecipient ev key) !! k = Some p -> k = key \/ isOwnerParticipant p = true.
Proof.
  intros Hh Hs. unfold eventForRecipient. rewrite Hh. destruct (Nat.leb_spec (size (ev_Participants ev)) 1); [lia|]. cbn [negb orb].
  unfold set_ev_Participants. cbn [ev_Participants]. rewrite map_lookup_imap.
  destruct (ev_Participants _ !! k) as [[q|]|]; cbn [mbind option_bind]; try done.
  destruct (String.eqb_spec k key); [auto|]. cbn [orb]. destruct (is_owner q) eqn:E; [|done]. intros [= <-]. by right.
Qed.

(** ** Examples and departures *)

(** A world that is the list of what was asked for: events, notifications and
    the recipients of submitted emails.  What is read is fixed. *)
Definition Log : Type := list (string * json).
Definition logged {A} (what : string) (j : json) (a : A) : St Log A := fun w => (w ++ [(what, j)], a).
Definition fixed_reads {A} (id_of : A -> string) (l : list A) : Reads Log A :=
  mkReads _ _ (fun _ w => fmt_d (Z.of_nat (length w))) (fun _ _ w => (w, ([], [], [], "1", false)))
    (fun _ ids w => (w, (match ids with Some ids => List.filter (fun x => str_in (id_of x) ids) l | None => l end, [], None)))
    (fun _ w => (w, (l, None))).
Definition log_calendars `{GoRuntime} `{FirstKey} (cals : list Calendar) (events : list CalendarEvent) : CalendarsBackend Log :=
  mkCalendars _ (fixed_reads kl_ID cals)
    (fun _ cal => logged "calendar" (wjson cal) (Ok cal)) (fun _ _ _ w => (w, Err ErrNotFound)) (fun _ _ w => (w, Ok false))
    (fun _ _ w => (w, None)) (fun _ _ w => (w, false))
    (fixed_reads ev_ID events) (fun _ ev => logged "create" (wjson ev) (Ok (set_ev_ID "new" ev)))
    (fun _ id patch => logged ("update " +:+ id) (JObj patch)
       (match List.find (fun ev => String.eqb (ev_ID ev) id) events with Some ev => Ok ev | None => Err ErrNotFound end))
    (fun _ id => logged ("delete " +:+ id) JNull (Ok true)) (fun _ _ _ _ _ _ w => (w, ([], 0, None)))
    (fixed_reads pt_ID []) (fun _ pi w => (w, Ok pi)) (fun _ _ _ w => (w, Err ErrNotFound)) (fun _ _ w => (w, Ok false))
    (fun _ _ w => (w, None))
    (fixed_reads en_ID []) (fun _ n => logged "notify" (JStr (en_Type n)) (Ok n)) (fun _ _ w => (w, Ok false)) (fun _ _ _ _ _ w => (w, ([], 0, None)))
    (fixed_reads sn_ID []) (fun _ n w => (w, Ok n)) (fun _ _ w => (w, Ok false)) (fun _ _ _ _ _ w => (w, ([], 0, None))).
Definition log_mail : MailOps Log :=
  mkMailOps _ (fun _ w => (w, Ok []))
    (mkEmailWrites _ (fun _ _ => EmptyString) (fun _ em w => (w, Ok (fst em))) (fun _ _ _ w => (w, Err ErrNotFound)) (fun _ _ w => (w, false))
       (fun w => (w, zero_time)) (fun w => (w, Some 1)) 1)
    (mkSubmissionOps _ (fun _ w => (w, EmptyString)) (fun _ _ _ w => (w, ([], [], [], EmptyString, false)))
       (fun _ sub => logged "mail" (jstrs (match su_Envelope sub with Some e => map sa_Email (ev_RcptTo e) | None => [] end)) (Ok sub))
       (fun _ _ _ w => (w, Err ErrNotFound)) (fun _ _ w => (w, Ok false)) (fun _ _ w => (w, (Ok [], []))) (fun _ w => (w, Ok []))
       (fun _ _ _ _ _ w => (w, ([], 0)))).
Definition log_principals (l : list Principal) : PrincipalsBackend Log :=
  mkPrincipalsBackend _ (fun _ _ => EmptyString) (fun _ _ w => (w, (None, None, None, EmptyString, false))) (fun _ _ w => (w, (Ok [], [])))
    (fun _ w => (w, Ok l)) (fun _ p w => (w, Ok p)) (fun _ _ _ w => (w, Ok None)) (fun _ _ w => (w, Ok false))
    (fun _ _ _ _ w => (w, Ok (None, 0))) (fun _ _ _ _ w => (w, Ok [])).
Definition person_principal (id email : string) : Principal :=
  mkPrincipal id "individual" id EmptyString email EmptyString ∅ ∅ false true true ∅.
Definition group_principal (id email : string) (members : list string) : Principal :=
  mkPrincipal id "group" id EmptyString email EmptyString (list_to_map (map (fun m => (m, true)) members)) ∅ false true true ∅.
(** An event of Ann with a group that she is a member of. *)
Definition attendee (email : string) (roles : list string) : JSCalendarParticipant :=
  mkParticipant "Participant" EmptyString email ("mailto:" +:+ email) EmptyString (Some (list_to_map (map (fun r => (r, true)) roles)))
    EmptyString EmptyString EmptyString false ∅ ∅ ∅ ∅ EmptyString EmptyString EmptyString ∅ EmptyString EmptyString.
Definition meeting `{GoRuntime} `{FirstKey} (participants : list (string * JSCalendarParticipant)) : CalendarEvent :=
  set_ev_ID "e1" (set_ev_Title "Standup" (set_ev_Participants (list_to_map (map (fun kv => (fst kv, Some (snd kv))) participants))
    (set_ev_CalendarIDs (Some {["c1" := true]}) zero_ev))).

(** The organizer is no recipient of her own invitation, but gets it as a
    member of an invited group; and the status of the members is written to
    participants that the event does not have. *)
Theorem group_invites_organizer :
  let ev := meeting (H := ascii_runtime) (H0 := demo_first) [("o", attendee "ann@home" ["owner"]); ("g", attendee "team@home" ["attendee"])] in
  let team := [person_principal "ann" "ann@home"; person_principal "bob" "bob@home"; group_principal "team" "team@home" ["ann"; "bob"]] in
  let sent := fst (dispatchITIPRequests (H := ascii_runtime) (H0 := demo_zones) (H1 := demo_addresses) (H2 := demo_first)
                     (log_calendars (H := ascii_runtime) (H0 := demo_first) [] [ev]) (Some log_mail) (Some (log_principals team))
                     demo_range (fun _ _ => Some "BEGIN:VCALENDAR") Background ev "Invitation: " EmptyString []) in
  organizerAddress (H := ascii_runtime) demo_range ev = "ann@home"
  /\ sort_members sent = [("mail", jstrs ["ann@home"]); ("mail", jstrs ["bob@home"]);
             ("update e1", JObj [("participants/ann/scheduleStatus", JStr "1.1;sent"); ("participants/bob/scheduleStatus", JStr "1.1;sent")])]
  /\ ev_Participants ev !! "bob" = None.
Proof. split_and!; vm_compute; reflexivity. Qed.

(** Ann invites Bob. *)
Definition pair_meeting : CalendarEvent :=
  meeting (H := ascii_runtime) (H0 := demo_first) [("o", attendee "ann@home" ["owner"]); ("b", attendee "bob@home" ["attendee"])].
Definition mail_to_bob (w : Log) : Prop := Forall (fun e => e = ("mail", jstrs ["bob@home"]) \/ fst e = "update e1") w.
Lemma pair_meeting_entitled a : entitled (H := ascii_runtime) demo_range [] pair_meeting a -> a = "bob@home".
Proof.
  intros [(k & p & Hp & Ho & -> & _)|(k & a0 & g & m & _ & Hg & _)]; [|by apply not_elem_of_nil in Hg].
  change (ev_Participants pair_meeting) with
    (<["o" := Some (attendee "ann@home" ["owner"])]> (<["b" := Some (attendee "bob@home" ["attendee"])]> (∅ : gmap string (option JSCalendarParticipant)))) in Hp.
  apply lookup_insert_Some in Hp as [[<- [= <-]]|[_ Hp]]; [discriminate Ho|].
  apply lookup_insert_Some in Hp as [[<- [= <-]]|[_ Hp]]; [vm_compute; reflexivity|by rewrite lookup_empty in Hp].
Qed.
Lemma mail_to_bob_app w e : mail_to_bob w -> e = ("mail", jstrs ["bob@home"]) \/ fst e = "update e1" -> mail_to_bob (w ++ [e]).
Proof. intros Hw He. apply Forall_app. split; [done|]. by apply Forall_singleton. Qed.
Lemma demo_range_all : visits_all demo_range.
Proof. intros A m. reflexivity. Qed.
Lemma log_mail_rules : mail_rules log_mail Background
  (fun to => exists a, to = normalizeCalendarAddress (H := ascii_runtime) a /\ entitled (H := ascii_runtime) demo_range [] pair_meeting a) mail_to_bob.
Proof.
  split; try done. intros saved from to (a & -> & ->%pair_meeting_entitled) w Hw. split; [|done].
  apply mail_to_bob_app; [done|]. left. vm_compute. reflexivity.
Qed.

Lemma scheduling_reaches_invited_witness :
  let b := log_calendars (H := ascii_runtime) (H0 := demo_first) [] [pair_meeting] in
  mail_to_bob (fst (dispatchITIPRequests (H := ascii_runtime) (H0 := demo_zones) (H1 := demo_addresses) (H2 := demo_first) b (Some log_mail) None
                      demo_range (fun _ _ => Some "BEGIN:VCALENDAR") Background pair_meeting "Invitation: " EmptyString [])).
Proof.
  apply (scheduling_reaches_invited (H := ascii_runtime) (H0 := demo_zones) (H1 := demo_addresses) (H2 := demo_first)
           (log_calendars (H := ascii_runtime) (H0 := demo_first) [] [pair_meeting]) (Some log_mail) None demo_range
           (fun _ _ => Some "BEGIN:VCALENDAR") (fun _ _ => None) Background mail_to_bob [] pair_meeting "Invitation: " EmptyString []
           demo_range_all).
  - done.
  - intros m [= <-]. exact log_mail_rules.
  - intros patches _ w Hw. split; [|done]. apply mail_to_bob_app; [done|by right].
  - by apply Forall_nil.
Defined.
