(* ===== verification/CalendarMethods.v ===== *)
(** * Event methods

    [jmap/jmapcalendar/calendar_event_handlers.go]: the seven CalendarEvent
    methods over a calendars backend, with the checks of events, patches and
    filters, and the durations of [ical.go] that they use.

    The parser of iCalendar text is the argument [ParseICalendar], the texts of
    scheduling messages are those of [CalendarScheduling].  [range] is the order
    in which Go visits a map of an event, [order] that of a map of a request. *)

From S2P Require Import Prelude GoSort GoStrings GoState Json Envelope CreationRefs Query Handler Server MailTypes MailQuery MethodSupport GoTime GoJson CalendarTypes CalendarEvents Calendars EmailGet MimeBody MessageId MimeParse EmailSet Principals Submissions CalendarScheduling.
From Stdlib Require Import Ascii SpecFloat.

(** ** Durations *)

Section Durations.
Context `{TimeZones}.

(** [Time.Sub], which saturates. *)
Definition Sub (t u : Time) : Z := Z.max (- 2 ^ 63) (Z.min (2 ^ 63 - 1) (t_ns t - t_ns u)).
(** [int64(d.Seconds())] of a positive duration: the sum is exact when there is
    no fraction, and a float64 otherwise. *)
Definition whole_seconds (d : Z) : Z :=
  if d mod second =? 0 then d / second
  else f64_trunc (SFadd 53 1024 (f64_of_Z (d / second)) (SFdiv 53 1024 (f64_of_Z (d mod second)) (f64_of_Z second))).
Definition part_of (n : Z) (unit : string) : string := if 0 <? n then fmt_d n +:+ unit else EmptyString.
Definition formatISODuration (d : Z) : string :=
  if d =? 0 then "PT0S"
  else
    let totalSecs := whole_seconds d in
    let days := totalSecs / 86400 in
    let hours := totalSecs mod 86400 / 3600 in
    let mins := totalSecs mod 3600 / 60 in
    let secs := totalSecs mod 60 in
    if (0 <? days) && (hours =? 0) && (mins =? 0) && (secs =? 0)
    then if days mod 7 =? 0 then "P" +:+ fmt_d (days / 7) +:+ "W" else "P" +:+ fmt_d days +:+ "D"
    else "P" +:+ part_of days "D"
         +:+ (if (0 <? hours) || (0 <? mins) || (0 <? secs)
              then "T" +:+ part_of hours "H" +:+ part_of mins "M" +:+ part_of secs "S" else EmptyString).
Fixpoint first_parse (layouts : list (list layout_elt)) (s : string) : option Time :=
  match layouts with
  | [] => None
  | layout :: rest => match Parse layout s with Some t => Some t | None => first_parse rest s end
  end.
Definition parseRFC3339Time (s : string) : option Time := first_parse bound_layouts s.
Definition icalDurationBetween (start end_ : string) : string :=
  match parseRFC3339Time start, parseRFC3339Time end_ with
  | Some sT, Some eT => if Before eT sT then EmptyString
                        else let d := Sub eT sT in if d =? 0 then EmptyString else formatISODuration d
  | _, _ => EmptyString
  end.
(** [%v] of a duration of a second and more. *)
Definition duration_string (d : Z) : string :=
  let s := d / second in
  let frac := if d mod second =? 0 then EmptyString else "." +:+ TrimRight (pad 9 (d mod second)) "0" in
  (if 3600 <=? s then fmt_d (s / 3600) +:+ "h" else EmptyString)
  +:+ (if 60 <=? s then fmt_d (s mod 3600 / 60) +:+ "m" else EmptyString)
  +:+ fmt_d (s mod 60) +:+ frac +:+ "s".
End Durations.

Section Checks.
Context `{GoRuntime} `{TimeZones}.
Variable order : MapOrder.

(** ** Events and patches of a request *)

(** The key without a leading slash; of two that become the same the one
    visited last stays. *)
Definition clean_keys (m : obj) : obj := foldl (fun acc kv => obj_set acc (TrimPrefix (fst kv) "/") (snd kv)) [] (range_map order m).
Definition given_str (m : obj) (k : string) : option string :=
  match get_str m k with Some s => if String.eqb s EmptyString then None else Some s | None => None end.
Definition empty_obj (m : obj) (k : string) : bool := match get_obj m k with Some (_ :: _) => false | _ => true end.
(** calendarId or calendar names the calendar, unless calendarIds does. *)
Definition with_calendar (m : obj) : obj :=
  let put cid := if empty_obj m "calendarIds" then obj_set m "calendarIds" (JObj [(cid, JBool true)]) else m in
  match given_str m "calendarId" with
  | Some cid => put cid
  | None => match given_str m "calendar" with Some cid => put cid | None => m end
  end.
Definition with_all_day (m : obj) : obj :=
  match get_bool m "allDay" with Some allDay => obj_set m "showWithoutTime" (JBool allDay) | None => m end.
Definition with_title (m : obj) : obj :=
  match given_str m "title", given_str m "summary" with
  | None, Some sum => obj_set m "title" (JStr sum)
  | _, _ => m
  end.
Definition with_duration (m : obj) : obj :=
  match given_str m "duration" with
  | Some _ => m
  | None =>
      let end_ := match given_str m "end" with Some e => Some e | None => given_str m "utcEnd" end in
      match given_str m "start", end_ with
      | Some start, Some e => obj_set m "duration" (JStr (icalDurationBetween start e))
      | _, _ => m
      end
  end.
Definition with_zone (m : obj) : obj :=
  match given_str m "timeZone" with Some _ => m | None => obj_set m "timeZone" (JStr "Etc/UTC") end.
Definition with_location (m : obj) : obj :=
  match given_str m "location" with
  | Some loc => if empty_obj m "locations"
                then obj_set m "locations" (JObj [("loc-1", JObj [("@type", JStr "Location"); ("name", JStr loc)])]) else m
  | None => m
  end.
Definition with_rule (one many : string) (m : obj) : obj :=
  match obj_get m one with
  | Some JNull => obj_set m many JNull
  | Some (JObj r) => obj_set m many (JArr [JObj r])
  | _ => m
  end.
Definition with_rules (m : obj) : obj :=
  with_rule "excludedRecurrenceRule" "excludedRecurrenceRules" (with_rule "recurrenceRule" "recurrenceRules" m).
Definition sanitizeEventMap (m : obj) : obj :=
  with_rules (with_location (with_zone (with_duration (with_title (with_all_day (with_calendar (clean_keys m))))))).
Definition sanitizeEventPatch (m : obj) : obj :=
  with_rules (with_location (with_title (with_all_day (with_calendar (clean_keys m))))).

Definition validCalendarEventProperties : list string :=
  ["@type"; "type"; "id"; "calendarIds"; "calendarId"; "calendar";
   "title"; "summary"; "description"; "descriptionContentType"; "showWithoutTime"; "allDay";
   "start"; "end"; "utcStart"; "utcEnd"; "duration"; "timeZone";
   "locations"; "location"; "virtualLocations"; "links"; "locale";
   "categories"; "color"; "status"; "freeBusyStatus"; "privacy";
   "hideAttendees"; "priority"; "replyTo"; "sentBy"; "requestStatus";
   "useDefaultAlerts"; "localizations"; "timeZones"; "participants";
   "attendees"; "organizer"; "organizerCalendarAddress"; "rrule";
   "recurrenceRule"; "recurrenceRules"; "recurrenceId"; "recurrenceIdTimeZone";
   "excludedRecurrenceRule"; "excludedRecurrenceRules"; "recurrenceOverrides"; "excluded"; "alerts"; "alarms"; "reminders"; "reminder";
   "relatedTo"; "prodId"; "sequence"; "method"; "due";
   "estimatedDuration"; "percentComplete"; "progress"; "progressUpdated";
   "entries"; "source"; "created"; "updated"; "uid"; "keywords";
   "isDraft"; "isOrigin"; "mayInviteSelf"; "mayInviteOthers"; "blobId"; "baseObjectId"; "comments"; "contact";
   "features"; "attachments"].

(** Why a date is out of the range of the capability. *)
Definition out_of_range (cap : CalendarsCapability) (t : Time) : option string :=
  let limit s := if String.eqb s EmptyString then None else ParseLocalDateTimeBound s UTC in
  match limit (cal_MinDateTime cap) with
  | Some minT => if Before t minT then Some ("earlier than minDateTime (" +:+ cal_MinDateTime cap +:+ ")")
                 else match limit (cal_MaxDateTime cap) with
                      | Some maxT => if After t maxT then Some ("later than maxDateTime (" +:+ cal_MaxDateTime cap +:+ ")") else None
                      | None => None
                      end
  | None => match limit (cal_MaxDateTime cap) with
            | Some maxT => if After t maxT then Some ("later than maxDateTime (" +:+ cal_MaxDateTime cap +:+ ")") else None
            | None => None
            end
  end.
Definition date_message (what s reason : string) : string := what +:+ " date (" +:+ s +:+ ") is " +:+ reason.
Definition first_failure {A B} (f : A -> option B) (l : list A) : option B := head (omap f l).
Definition check_date (cap : CalendarsCapability) (what k s : string) : option SetError :=
  t ← ParseLocalDateTimeBound s UTC; reason ← out_of_range cap t;
  Some (property_error "invalidProperties" (date_message what s reason) [k]).
Definition check_value (what k : string) (allowed : list string) (v : json) : option SetError :=
  match v with
  | JStr s => if String.eqb s EmptyString || str_in (ToLower s) allowed then None
              else Some (property_error "invalidProperties" ("invalid " +:+ what +:+ " value: " +:+ s) [k])
  | _ => None
  end.
(** One member of an event or a patch. *)
Definition check_member (cap : CalendarsCapability) (kv : string * json) : option SetError :=
  let '(k, v) := kv in
  let baseKey := base_key (TrimPrefix k "/") in
  let key_is s := String.eqb baseKey s in
  if negb (str_in baseKey validCalendarEventProperties) then Some (unknown_property k)
  else if key_is "start" then
    match v with
    | JStr s =>
        if String.eqb s EmptyString then None
        else match ParseLocalDateTimeBound s UTC with
             | None => Some (property_error "invalidProperties" ("invalid start date format: " +:+ s) [k])
             | Some _ => check_date cap "start" k s
             end
    | _ => None
    end
  else if key_is "recurrenceRules" then
    match v with
    | JArr rules => first_failure (fun r => match r with
                                         | JObj rm => until ← given_str rm "until"; check_date cap "recurrence rule until" k until
                                         | _ => None
                                         end) rules
    | _ => None
    end
  else if key_is "recurrenceOverrides" then
    match v with
    | JObj overrides => first_failure (fun kv => check_date cap "recurrence override" k (fst kv)) (range_map order overrides)
    | _ => None
    end
  else if key_is "status" then check_value "status" k ["confirmed"; "tentative"; "cancelled"; "canceled"] v
  else if key_is "privacy" then check_value "privacy" k ["public"; "private"; "secret"; "confidential"] v
  else if key_is "freeBusyStatus" then check_value "freeBusyStatus" k ["free"; "busy"; "tentative"; "opaque"; "transparent"] v
  else if key_is "progress"
  then check_value "progress" k ["needs-action"; "in-process"; "completed"; "failed"; "pending"; "cancelled"; "canceled"] v
  else None.
Definition validateCalendarEventMap (m : obj) (cap : CalendarsCapability) : option SetError :=
  match get_obj m "calendarIds" with
  | Some [] => Some (property_error "invalidProperties" "Event has to belong to at least one calendar." ["calendarIds"])
  | _ => first_failure (check_member cap) (range_map order m)
  end.

(** ** Filters *)

Definition calendarEventFilterConditions : list string :=
  ["inCalendar"; "inCalendars"; "title"; "description"; "location"; "text"; "after"; "before"; "uid"; "owner"; "attendee";
   "updatedBefore"; "updatedAfter"].
Definition calendarEventSortProperties : list string := ["start"; "uid"; "recurrenceId"; "created"; "updated"; "title"].
Definition check_condition (cap : CalendarsCapability) (loc : Location) (kv : string * json) : string * string :=
  let '(k, v) := kv in
  if negb (str_in k calendarEventFilterConditions) then ("unsupportedFilter", "unknown filter condition: " +:+ k)
  else if str_in k ["before"; "after"; "updatedBefore"; "updatedAfter"] then
    match v with
    | JStr s =>
        if String.eqb s EmptyString then (EmptyString, EmptyString)
        else match ParseLocalDateTimeBound s loc with
             | None => (MethodErrorInvalidArguments, "invalid date format for " +:+ k +:+ ": " +:+ s)
             | Some t => match out_of_range cap t with
                         | Some reason => (MethodErrorInvalidArguments, date_message k s reason)
                         | None => (EmptyString, EmptyString)
                         end
             end
    | _ => (EmptyString, EmptyString)
    end
  else (EmptyString, EmptyString).
Definition event_condition (cap : CalendarsCapability) (loc : Location) (filter : obj) : string * string :=
  first_answer (map (check_condition cap loc) (range_map order filter)).
Definition validateCalendarEventFilter (filter : option obj) (cap : CalendarsCapability) (loc : Location) : string * string :=
  match filter with
  | None => (EmptyString, EmptyString)
  | Some f => walk_filter (event_condition cap loc) "filter condition must be an object" (json_depth (JObj f)) f
  end.
(** The first bounds of a filter, those of the operator before those of its
    conditions; the fuel is the depth of the filter. *)
Fixpoint extract_bounds (fuel : nat) (filter : obj) : string * string :=
  let own := (str_or_empty filter "before", str_or_empty filter "after") in
  match fuel, get_arr filter "conditions" with
  | S fuel, Some conds =>
      foldl (fun acc c => match c with
                          | JObj cm =>
                              let '(cb, ca) := extract_bounds fuel cm in
                              (if String.eqb (fst acc) EmptyString then cb else fst acc, if String.eqb (snd acc) EmptyString then ca else snd acc)
                          | _ => acc
                          end) own conds
  | _, _ => own
  end.
Definition extractFilterBounds (filter : option obj) : string * string :=
  match filter with None => (EmptyString, EmptyString) | Some f => extract_bounds (json_depth (JObj f)) f end.
Definition validateExpandDuration (filter : option obj) (cap : CalendarsCapability) (loc : Location) : string :=
  let maxStr := cal_MaxExpandedQueryDuration cap in
  if String.eqb maxStr EmptyString then EmptyString
  else match ParseISODuration maxStr with
       | Some maxDur =>
           let '(beforeStr, afterStr) := extractFilterBounds filter in
           if (maxDur <=? 0) || String.eqb beforeStr EmptyString || String.eqb afterStr EmptyString then EmptyString
           else match ParseLocalDateTimeBound beforeStr loc, ParseLocalDateTimeBound afterStr loc with
                | Some beforeT, Some afterT =>
                    let diff := Sub beforeT afterT in
                    if maxDur <? diff
                    then "duration between before (" +:+ beforeStr +:+ ") and after (" +:+ afterStr +:+ ") is " +:+ duration_string diff
                         +:+ ", which exceeds maxExpandedQueryDuration (" +:+ maxStr +:+ ")"
                    else EmptyString
                | _, _ => EmptyString
                end
       | None => EmptyString
       end.

(** ** Parsed events *)

Definition parseMetadataProperties : list string := ["id"; "baseEventId"; "calendarIds"; "isDraft"; "isOrigin"].
Definition filterParsedEvent (ev : json) (properties : option (list string)) : obj :=
  let m := map_of ev in
  match default [] properties with
  | [] => foldl obj_del m parseMetadataProperties
  | props => foldl (fun out p => if str_in p parseMetadataProperties then obj_set out p JNull
                                 else match obj_get m p with Some v => obj_set out p v | None => out end) [] props
  end.
End Checks.

(** ** Reading *)

Section Methods.
Context `{GoRuntime} `{TimeZones} `{AddressText} `{FirstKey} {W : Type}.
Variable b : CalendarsBackend W.
Variable mail : option (MailOps W).
Variable principals : option (PrincipalsBackend W).
Variable order : MapOrder.
Variable range : forall A, gmap string A -> list (string * A).
Variables BuildITIPRequest BuildITIPCancel : CalendarEvent -> string -> option string.
Variable BuildITIPReply : CalendarEvent -> string -> string -> option string.

(** The user of the account: the subject, or the account id. *)
Definition account_user (c : Ctx) (accountID : string) : string :=
  match SubjectFromContext c with (subj, true) => subj | _ => accountID end.

(** The times of a shown event. *)
Definition with_times (ev : CalendarEvent) : CalendarEvent :=
  let ev := if String.eqb (ev_TimeZone ev) EmptyString || String.eqb (ev_TimeZone ev) "UTC" then set_ev_TimeZone "Etc/UTC" ev else ev in
  if String.eqb (ev_Start ev) EmptyString then ev
  else
    let ev := match ParseLocalDateTimeBound (ev_Start ev) (LoadLocation (ev_TimeZone ev)) with
              | Some t =>
                  let dur := if String.eqb (ev_Duration ev) EmptyString then hour else default hour (ParseISODuration (ev_Duration ev)) in
                  set_ev_UTCEnd (Format_UTC (Add t dur)) (set_ev_UTCStart (Format_UTC t) ev)
              | None => ev
              end in
    set_ev_Start (TrimSuffix (ev_Start ev) "Z") ev.
(** The rule of a shown event in both forms. *)
Definition both_forms (one : option JSCalendarRecurrenceRule) (many : list (option JSCalendarRecurrenceRule))
  : option JSCalendarRecurrenceRule * list (option JSCalendarRecurrenceRule) :=
  match many, one with
  | r :: _, None => (r, many)
  | [], Some r => (one, [Some r])
  | _, _ => (one, many)
  end.
Definition with_both_rules (ev : CalendarEvent) : CalendarEvent :=
  let '(one, many) := both_forms (ev_RecurrenceRule ev) (ev_RecurrenceRules ev) in
  let '(xone, xmany) := both_forms (ev_ExcludedRecurrenceRule ev) (ev_ExcludedRecurrenceRules ev) in
  set_ev_ExcludedRecurrenceRules xmany (set_ev_ExcludedRecurrenceRule xone (set_ev_RecurrenceRules many (set_ev_RecurrenceRule one ev))).
Definition with_origin (user : string) (ev : CalendarEvent) : CalendarEvent :=
  set_ev_IsOrigin (String.eqb (ev_OrganizerCalendarAddress ev) EmptyString
                   || EqualFold (ev_OrganizerCalendarAddress ev) ("mailto:" +:+ user)) ev.

(** The calendars that were read for the default alerts of a call. *)
Definition cal_cache : Type := gmap string (option Calendar).
Definition getCal (c : Ctx) (cache : cal_cache) (cid : string) : St W (cal_cache * option Calendar) :=
  match cache !! cid with
  | Some cal => mret (cache, cal)
  | None =>
      r ← rd_Get (kb_Calendars b) c (Some [cid]);
      let cal := match r with (cal :: _, _, None) => Some cal | _ => None end in
      mret (<[cid := cal]> cache, cal)
  end.
Definition shown_alert (a : JSCalendarAlert) : JSCalendarAlert :=
  let trigger := match al_Trigger a with
                 | JObj tm => JObj (match get_present tm "@type", get_present tm "offset" with
                                    | None, Some _ => obj_set tm "@type" (JStr "OffsetTrigger")
                                    | _, _ => tm
                                    end)
                 | j => j
                 end in
  mkAlert (alert_type (al_Type a)) trigger (al_Action a) (al_Description a) (al_Acknowledged a) (al_RelatedTo a).
Definition default_alerts (withoutTime : bool) (cal : Calendar) : gmap string (option JSCalendarAlert) :=
  if withoutTime then kl_DefaultAlertsWithoutTime cal else kl_DefaultAlertsWithTime cal.
(** The alerts of the first calendar that has some. *)
Fixpoint alerts_of (c : Ctx) (withoutTime : bool) (cids : list string) (cache : cal_cache)
  : St W (cal_cache * option (gmap string (option JSCalendarAlert))) :=
  match cids with
  | [] => mret (cache, None)
  | cid :: cids' =>
      r ← getCal c cache cid;
      let '(cache, cal) := r in
      let alerts := match cal with Some cal => default_alerts withoutTime cal | None => ∅ end in
      if bool_decide (alerts = ∅) then alerts_of c withoutTime cids' cache
      else mret (cache, Some (omap (fun a => (fun a => Some (shown_alert a)) <$> a) alerts))
  end.
Definition calendar_ids (ev : CalendarEvent) : list string := map fst (range _ (default ∅ (ev_CalendarIDs ev))).
Definition with_alerts (c : Ctx) (cache : cal_cache) (ev : CalendarEvent) : St W (cal_cache * CalendarEvent) :=
  if ev_UseDefaultAlerts ev && bool_decide (ev_Alerts ev = ∅)
  then
    r ← alerts_of c (ev_ShowWithoutTime ev) (calendar_ids ev) cache;
    mret (fst r, match snd r with Some alerts => set_ev_Alerts alerts ev | None => ev end)
  else mret (cache, ev).

(** The overrides between two dates; one that is not a date is left out. *)
Definition keep_override (l : Location) (before after : option Time) (recKey : string) : bool :=
  match ParseLocalDateTimeBound recKey l with
  | Some t => negb (match before with Some bt => negb (Before t bt) | None => false end)
              && negb (match after with Some at_ => Before t at_ | None => false end)
  | None => false
  end.
Definition with_overrides (recBefore recAfter : string) (ev : CalendarEvent) : CalendarEvent :=
  if (String.eqb recBefore EmptyString && String.eqb recAfter EmptyString) || bool_decide (ev_RecurrenceOverrides ev = ∅) then ev
  else
    let bound s := if String.eqb s EmptyString then None else ParseRFC3339 s in
    set_ev_RecurrenceOverrides
      (map_imap (fun k o => if keep_override (LoadLocation (ev_TimeZone ev)) (bound recBefore) (bound recAfter) k then Some o else None)
         (ev_RecurrenceOverrides ev)) ev.
Definition with_few_participants (reduce : bool) (user : string) (ev : CalendarEvent) : CalendarEvent :=
  if reduce
  then set_ev_Participants
         (omap (fun p => match p with
                         | Some q => if is_owner q || EqualFold (pa_CalendarAddress q) ("mailto:" +:+ user) then Some p else None
                         | None => None
                         end) (ev_Participants ev)) ev
  else ev.
Definition show_event (c : Ctx) (args : obj) (acc : cal_cache * list CalendarEvent) (ev : CalendarEvent)
  : St (HState W) (cal_cache * list CalendarEvent) :=
  let user := account_user c (str_or_empty args "accountId") in
  r ← back (with_alerts c (fst acc) (with_origin user (with_both_rules (with_times ev))));
  let '(cache, ev) := r in
  let ev := with_overrides (str_or_empty args "recurrenceOverridesBefore") (str_or_empty args "recurrenceOverridesAfter") ev in
  mret (cache, snd acc ++ [with_few_participants (bool_or_false args "reduceParticipants") user ev]).

Definition handleCalendarEventGet : BackendHandler W := fun c args =>
  r ← get_objects (kb_Events b) true c args;
  shown ← fold_state (show_event c args) (∅, []) (fst r);
  get_answer "CalendarEvent" (kb_Events b) c args (snd shown) (snd r).

Definition handleCalendarEventChanges : BackendHandler W := fun c args =>
  let sinceState := str_or_empty args "sinceState" in
  r ← back (rd_Changes (kb_Events b) c sinceState);
  let '(created, updated, destroyed, newState, hasMore) := r in
  if String.eqb newState EmptyString
  then mret ("error", MethodErrorArgs "cannotCalculateChanges" "cannot calculate changes from sinceState")
  else mret ("CalendarEvent/changes",
             changes_response (str_or_empty args "accountId") sinceState newState hasMore created updated destroyed).

(** ** Creates *)

(** The right on every calendar, asked until one lacks it. *)
Fixpoint all_right (right : CalendarRights -> bool) (c : Ctx) (cids : list string) : St W bool :=
  match cids with
  | [] => mret true
  | cid :: cids' => ok ← has_right b right c cid; if ok : bool then all_right right c cids' else mret false
  end.
Definition no_schedule_method : SetError :=
  set_error "noSupportedScheduleMethods" "no supported schedule methods available for scheduling".
Definition with_event_defaults (ev : CalendarEvent) : CalendarEvent :=
  let ev := if String.eqb (ev_Type ev) EmptyString then set_ev_Type "Event" ev else ev in
  let is_event := String.eqb (ev_Type ev) "Event" in
  let ev := if String.eqb (ev_TimeZone ev) EmptyString && is_event then set_ev_TimeZone "Etc/UTC" ev else ev in
  if String.eqb (ev_Duration ev) EmptyString && is_event then set_ev_Duration "PT1H" ev else ev.
(** The organizer of an event with participants that names none. *)
Definition chosen_organizer (user : string) (ev : CalendarEvent) : string :=
  let ps := omap snd (range _ (ev_Participants ev)) in
  let mine := default EmptyString (pa_CalendarAddress <$> List.find (fun p => EqualFold (pa_CalendarAddress p) ("mailto:" +:+ user)) ps) in
  let owner := default EmptyString (pa_CalendarAddress <$> List.find is_owner ps) in
  if negb (String.eqb mine EmptyString) then mine
  else if negb (String.eqb owner EmptyString) then owner
  else if negb (String.eqb user EmptyString) then "mailto:" +:+ user
  else EmptyString.
Definition with_organizer (user : string) (ev : CalendarEvent) : CalendarEvent :=
  if negb (bool_decide (ev_Participants ev = ∅)) && String.eqb (ev_OrganizerCalendarAddress ev) EmptyString
  then set_ev_OrganizerCalendarAddress (chosen_organizer user ev) ev else ev.
(** What is filled in of the event that the backend returns. *)
Definition completed (ev : CalendarEvent) : CalendarEvent :=
  let ev := if String.eqb (ev_Type ev) EmptyString then set_ev_Type "Event" ev else ev in
  let ev := if String.eqb (ev_TimeZone ev) EmptyString then set_ev_TimeZone "Etc/UTC" ev else ev in
  let ev := if String.eqb (ev_UTCStart ev) EmptyString then set_ev_UTCStart (ComputeUTCStart (ev_Start ev) (ev_TimeZone ev)) ev else ev in
  let ev := if String.eqb (ev_UTCEnd ev) EmptyString
            then set_ev_UTCEnd (ComputeUTCEnd (ev_Start ev) (ev_Duration ev) (ev_TimeZone ev)) ev else ev in
  set_ev_Start (TrimSuffix (ev_Start ev) "Z") ev.

(** The subject of the context or of the account. *)
Definition caller_subject (c : Ctx) (accountID : string) : option string :=
  match SubjectFromContext c with
  | (subj, true) => Some subj
  | _ => match SubjectForAccountID accountID with Some s => if String.eqb s EmptyString then None else Some s | None => None end
  end.
Definition sending_address (c : Ctx) (accountID : string) (ev : CalendarEvent) : string :=
  let org := organizerAddress range ev in
  if String.eqb org EmptyString then default EmptyString (caller_subject c accountID) else org.
(** Whether somebody else than the caller organizes the event. *)
Definition foreign_event (c : Ctx) (accountID : string) (ev : CalendarEvent) : bool :=
  let org := organizerAddress range ev in
  let caller := default accountID (caller_subject c accountID) in
  negb (String.eqb org EmptyString) && negb (String.eqb caller EmptyString)
  && negb (EqualFold org caller) && negb (EqualFold org ("mailto:" +:+ caller)).
Definition notify (c : Ctx) (type id : string) (changed : CalendarEvent) (event : option CalendarEvent) (patch : obj) : St W unit :=
  _ ← kb_CreateCalendarEventNotification b c
        (mkEventNote EmptyString EmptyString (notificationChangedBy range changed) None type id false event (list_to_map patch));
  mret tt.

Definition uid_error (uid : string) : SetError :=
  property_error "invalidProperties" ("An event with UID " +:+ uid +:+ " already exists.") ["uid"].
Definition uid_taken (c : Ctx) (uid : string) : St W bool :=
  if String.eqb uid EmptyString then mret false
  else r ← rd_Get (kb_Events b) c None; mret (existsb (fun ex => String.eqb (ev_UID ex) uid) (fst (fst r))).
(** Whether another user than the owner may write to the calendars. *)
Definition may_write_to (c : Ctx) (cids : list string) : St W bool :=
  if shared_caller c then all_right kr_MayWriteAll c cids else mret true.
(** The messages and the notification after a create. *)
Definition announce (c : Ctx) (accountID : string) (send : bool) (ev : CalendarEvent) : St W CalendarEvent :=
  if send
  then
    ev ← match mail with
         | Some _ => dispatchITIPRequests b mail principals range BuildITIPRequest c ev "Invitation: " (sending_address c accountID ev)
         | None => mret ev
         end;
    _ ← (if foreign_event c accountID ev then notify c "created" (ev_ID ev) ev (Some ev) [] else mret tt);
    mret ev
  else mret ev.
Definition create_event (c : Ctx) (accountID : string) (send : bool) (cid : string) (node : obj)
  : St W (result create_error (string * json)) :=
  if send && match mail with None => true | Some _ => false end then mret (Err (ESet no_schedule_method))
  else
    let cleanMap := sanitizeEventMap order node in
    match validateCalendarEventMap order cleanMap (CalendarsCapabilityFromContext c) with
    | Some e => mret (Err (ESet e))
    | None =>
        let ev : CalendarEvent := unmarshal (JObj cleanMap) in
        allowed ← may_write_to c (calendar_ids ev);
        if negb allowed then mret (Err (ESet (set_error "forbidden" "You are not allowed to create calendar events.")))
        else
          let ev := with_event_defaults ev in
          taken ← uid_taken c (ev_UID ev);
          if taken : bool then mret (Err (ESet (uid_error (ev_UID ev))))
          else
            r ← kb_CreateCalendarEvent b c (with_organizer (account_user c accountID) ev);
            match r with
            | Err e => mret (Err (create_error_of e))
            | Ok createdEv =>
                ev ← announce c accountID send (completed createdEv);
                mret (Ok (ev_ID ev, wjson ev))
            end
    end.

(** ** Updates *)

Definition base_id (id : string) : string := default EmptyString (head (Split id "#")).
Definition is_instance (id : string) : bool := Contains id "#".
Definition conflict_error : SetError :=
  property_error "invalidProperties" "A base event and its instances cannot be modified in the same request." ["id"].
(** The updates of a base event and of its instances in one request, all of
    which are refused. *)
Definition instance_conflicts (updateRaw : obj) : list string :=
  let ids := map fst (range_map order updateRaw) in
  let insts := List.filter is_instance ids in
  let bases := List.filter (fun id => negb (is_instance id) && str_in id (map base_id insts)) ids in
  flat_map (fun baseID => baseID :: List.filter (fun id => HasPrefix id (baseID +:+ "#")) ids) bases.
Definition conflict_failures (updateRaw : obj) : set_acc :=
  foldl (fun acc id => acc_failed acc id conflict_error) (mkAcc [] []) (instance_conflicts updateRaw).

Definition rsvp_path (k : string) : bool :=
  HasPrefix k "participants/"
  && (HasSuffix k "/participationStatus" || HasSuffix k "/status" || HasSuffix k "/scheduleStatus").
Definition only_rsvp (patch : obj) : bool := negb (length patch =? 0)%nat && forallb (fun kv => rsvp_path (fst kv)) patch.
Definition rsvp_right (rsvp : bool) (r : CalendarRights) : bool := kr_MayWriteAll r || (rsvp && kr_MayRSVP r).
(** Whether another user than the owner may patch the event.  A patch of an
    event that is not there is left to the backend. *)
Definition may_patch (c : Ctx) (id : string) (patch : obj) : St W bool :=
  if shared_caller c
  then
    r ← rd_Get (kb_Events b) c (Some [base_id id]);
    match fst (fst r) with
    | ev :: _ => all_right (rsvp_right (only_rsvp patch)) c (calendar_ids ev)
    | [] => mret true
    end
  else mret true.
Definition instance_fixed : list string := ["calendarIds"; "isDraft"; "utcStart"; "utcEnd"; "mayInviteSelf"; "useDefaultAlerts"].
Definition check_instance (destroys : list string) (idStr : string) (patch : obj) : option SetError :=
  if is_instance idStr
  then if str_in (base_id idStr) destroys then Some (set_error "willDestroy" EmptyString)
       else match List.find (fun p => match obj_get patch p with Some _ => true | None => false end) instance_fixed with
            | Some p => Some (property_error "invalidProperties" "This property cannot be modified on a single occurrence." [p])
            | None => None
            end
  else None.
(** The event before the change, copied through JSON. *)
Definition event_before (c : Ctx) (send : bool) (id : string) : St W (option CalendarEvent) :=
  if send
  then r ← rd_Get (kb_Events b) c (Some [id]);
       mret (match fst (fst r) with ev :: _ => Some (unmarshal (wjson ev)) | [] => None end)
  else mret None.
Definition rsvp_change (patch : obj) : bool :=
  existsb (fun kv => HasPrefix (fst kv) "participants/" && (HasSuffix (fst kv) "/participationStatus" || HasSuffix (fst kv) "/status")) patch.
(** The notification and the messages after an update. *)
Definition announce_update (c : Ctx) (accountID : string) (send : bool) (before : option CalendarEvent) (ev : CalendarEvent) (patch : obj)
  : St W unit :=
  if send
  then
    _ ← (if negb (rsvp_change patch) && foreign_event c accountID ev
         then notify c "updated" (ev_ID ev) ev before patch else mret tt);
    match mail with
    | Some _ =>
        r ← dispatchITIPRepliesForPatch mail range BuildITIPReply order c ev patch;
        if (snd r) : bool then mret tt
        else _ ← dispatchITIPRequests b mail principals range BuildITIPRequest c ev "Updated Invitation: " (sending_address c accountID ev); mret tt
    | None => mret tt
    end
  else mret tt.
Definition patch_event (c : Ctx) (accountID : string) (send : bool) (id : string) (patch : obj) : St W (option SetError) :=
  before ← event_before c send id;
  r ← kb_UpdateCalendarEvent b c id patch;
  match r with
  | Err e => mret (Some (set_error "notFound" (err_Error e)))
  | Ok ev => _ ← announce_update c accountID send before ev patch; mret None
  end.
Definition update_event (c : Ctx) (accountID : string) (send : bool) (destroys : list string) (refs : refmap) (acc : set_acc)
    (kv : string * json) : St (HState W) set_acc :=
  let '(idStr, patchRaw) := kv in
  let resolvedID := ResolveCreationID idStr refs in
  match obj_get (sa_failed acc) resolvedID with
  | Some _ => mret acc
  | None =>
      let rawPatch := map_of patchRaw in
      allowed ← back (may_patch c resolvedID rawPatch);
      if negb allowed then mret (acc_failed acc resolvedID (set_error "forbidden" "You are not allowed to modify calendar events."))
      else match check_instance destroys idStr rawPatch with
           | Some e => mret (acc_failed acc resolvedID e)
           | None =>
               let patch := ResolvePatchCreationRefs (sanitizeEventPatch order rawPatch) refs in
               if send && match mail with None => true | Some _ => false end then mret (acc_failed acc resolvedID no_schedule_method)
               else match validateCalendarEventMap order patch (CalendarsCapabilityFromContext c) with
                    | Some e => mret (acc_failed acc resolvedID e)
                    | None =>
                        r ← back (patch_event c accountID send resolvedID patch);
                        mret (match r with Some e => acc_failed acc resolvedID e | None => acc_done acc resolvedID JNull end)
                    end
           end
  end.

(** ** Destroys *)

Definition may_remove (c : Ctx) (found : option CalendarEvent) : St W bool :=
  match shared_caller c, found with
  | true, Some ev => all_right kr_MayDelete c (calendar_ids ev)
  | _, _ => mret true
  end.
(** The notification and the messages after a destroy. *)
Definition announce_destroy (c : Ctx) (accountID : string) (send : bool) (evID : string) (found : option CalendarEvent) : St W unit :=
  match found with
  | None => mret tt
  | Some ev =>
      _ ← (if send && foreign_event c accountID ev then notify c "destroyed" evID ev (Some ev) [] else mret tt);
      match mail with
      | Some _ => dispatchITIPCancels mail principals range BuildITIPCancel c ev (sending_address c accountID ev)
      | None => mret tt
      end
  end.
Definition destroy_event (c : Ctx) (accountID : string) (send : bool) (refs : refmap) (acc : destroy_acc) (idStr : string)
  : St (HState W) destroy_acc :=
  let evID := ResolveCreationID idStr refs in
  r ← back (rd_Get (kb_Events b) c (Some [evID]));
  let found := head (fst (fst r)) in
  allowed ← back (may_remove c found);
  if negb allowed then mret (destroy_failed acc evID (set_error "forbidden" "You are not allowed to remove events from calendar"))
  else
    r ← back (kb_DeleteCalendarEvent b c evID);
    match r with
    | Ok true => _ ← back (announce_destroy c accountID send evID found); mret (destroy_done acc evID)
    | _ => mret (destroy_failed acc evID (set_error "notFound" "calendar event not found"))
    end.

Definition handleCalendarEventSet : BackendHandler W := fun c args =>
  let accountID := str_or_empty args "accountId" in
  let send := bool_or_false args "sendSchedulingMessages" in
  oldState ← gets (fun s => rd_State (kb_Events b) c (fst s));
  if state_mismatch args "ifInState" oldState
  then mret ("error", MethodErrorArgs "stateMismatch" "state mismatch")
  else
    refs ← new_refs;
    r ← run_creates order (create_event c accountID send) args refs;
    let '(refs, created, notCreated) := r in
    u ← range_obj order (get_obj args "update")
          (update_event c accountID send (strings_of (default [] (get_arr args "destroy"))) refs)
          (conflict_failures (default [] (get_obj args "update")));
    d ← range_strings (get_arr args "destroy") (destroy_event c accountID send refs) (mkDestroy [] []);
    newState ← gets (fun s => rd_State (kb_Events b) c (fst s));
    mret ("CalendarEvent/set", set_response accountID oldState newState created notCreated u d).

(** ** Queries, copies and parsing *)

Definition handleCalendarEventQuery : BackendHandler W := fun c args =>
  let cap := CalendarsCapabilityFromContext c in
  let tz := str_or_empty args "timeZone" in
  let loc := LoadLocation (if String.eqb tz EmptyString then "Etc/UTC" else tz) in
  let filter := get_obj args "filter" in
  let '(filterErr, filterMsg) := validateCalendarEventFilter order filter cap loc in
  let expand := bool_or_false args "expandRecurrences" in
  let durErr := if expand then validateExpandDuration filter cap loc else EmptyString in
  let '(position, posErr) := ParseQueryPosition args in
  let '((anchor, offset), anchorErr) := ParseQueryAnchor args in
  let limit := f64_to_uint64 <$> get_num args "limit" in
  let comparators := ParseComparators args in
  let '(errType, errMsg) := ValidateComparators comparators calendarEventSortProperties in
  if negb (String.eqb filterErr EmptyString) then mret ("error", MethodErrorArgs filterErr filterMsg)
  else if negb (String.eqb durErr EmptyString) then mret ("error", MethodErrorArgs "expandDurationTooLarge" durErr)
  else if negb (String.eqb posErr EmptyString) then mret ("error", MethodErrorArgs MethodErrorInvalidArguments posErr)
  else if negb (String.eqb anchorErr EmptyString) then mret ("error", MethodErrorArgs MethodErrorInvalidArguments anchorErr)
  else if negb (String.eqb errType EmptyString) then mret ("error", MethodErrorArgs errType errMsg)
  else
    let filter := if String.eqb tz EmptyString then filter else Some (obj_set (default [] filter) "__timeZone" (JStr tz)) in
    let respond position ids total :=
      state ← gets (fun s => rd_State (kb_Events b) c (fst s));
      mret ("CalendarEvent/query",
            [("accountId", JStr (str_or_empty args "accountId")); ("queryState", JStr state);
             ("canCalculateChanges", JBool (negb expand)); ("position", jint (NormalizePosition position total));
             ("total", jint total); ("ids", jstrs ids)]) in
    if negb (String.eqb anchor EmptyString)
    then r ← back (kb_QueryCalendarEvents b c filter comparators 0 None expand);
         let '(allIDs, total, _) := r in
         match ApplyQueryAnchor anchor offset allIDs limit with
         | None => mret ("error", MethodErrorArgs MethodErrorAnchorNotFound ("anchor not found in results: " +:+ anchor))
         | Some (position, ids) => respond position ids total
         end
    else r ← back (kb_QueryCalendarEvents b c filter comparators position limit expand);
         match r with
         | (_, _, Some _) => respond position [] 0
         | (ids, total, None) => respond position ids total
         end.
Definition handleCalendarEventQueryChanges : BackendHandler W :=
  queryChanges_handler "CalendarEvent" (kb_Events b) (fun c f cs p l => kb_QueryCalendarEvents b c f cs p l false)
    (fun _ => (EmptyString, EmptyString)).
Definition handleCalendarEventCopy : BackendHandler W :=
  copy_method order "CalendarEvent" (kb_Events b) (kb_CreateCalendarEvent b) (kb_DeleteCalendarEvent b) "event" ev_ID (set_ev_ID EmptyString).

(** The data of a blob, [None] when it is not there. *)
Variable blobs : option (Ctx -> string -> string -> St W (option string)).
Variable ParseICalendar : string -> option (list CalendarEvent).
Record ical_acc : Type := mkParsed { pc_parsed : obj; pc_notFound : list string; pc_notParsable : list string }.
Definition parse_ical (c : Ctx) (accountID : string) (props : option (list string)) (refs : refmap) (acc : ical_acc) (idStr : string)
  : St (HState W) ical_acc :=
  if String.eqb idStr EmptyString then mret acc
  else
    let blobID := ResolveCreationID idStr refs in
    let unparsable := mkParsed (pc_parsed acc) (pc_notFound acc) (pc_notParsable acc ++ [blobID]) in
    match blobs with
    | None => mret unparsable
    | Some get =>
        data ← back (get c accountID blobID);
        mret (match data with
              | None => mkParsed (pc_parsed acc) (pc_notFound acc ++ [blobID]) (pc_notParsable acc)
              | Some data =>
                  match ParseICalendar data with
                  | Some ((_ :: _) as events) =>
                      mkParsed (obj_set (pc_parsed acc) blobID (JArr (map (fun ev => JObj (filterParsedEvent (wjson ev) props)) events)))
                        (pc_notFound acc) (pc_notParsable acc)
                  | _ => unparsable
                  end
              end)
    end.
Definition handleCalendarEventParse : BackendHandler W := fun c args =>
  let accountID := str_or_empty args "accountId" in
  refs ← new_refs;
  a ← range_strings (get_arr args "blobIds") (parse_ical c accountID (ParseProperties args) refs) (mkParsed [] [] []);
  mret ("CalendarEvent/parse",
        [("accountId", JStr accountID)]
        ++ (match pc_parsed a with [] => [] | p => [("parsed", JObj p)] end)
        ++ (match pc_notFound a with [] => [] | l => [("notFound", jstrs l)] end)
        ++ (match pc_notParsable a with [] => [] | l => [("notParsable", jstrs l)] end)).

Definition RegisterCalendarHandlers {V} (r : MethodRegistry (W := W) (V := V)) : MethodRegistry :=
  foldl (fun r h => Register r (fst h) (as_method (snd h))) r
    [("Calendar/get", handleCalendarGet b); ("Calendar/changes", handleCalendarChanges b); ("Calendar/set", handleCalendarSet b order);
     ("Calendar/copy", handleCalendarCopy b order);
     ("CalendarEvent/get", handleCalendarEventGet); ("CalendarEvent/changes", handleCalendarEventChanges);
     ("CalendarEvent/set", handleCalendarEventSet); ("CalendarEvent/query", handleCalendarEventQuery);
     ("CalendarEvent/queryChanges", handleCalendarEventQueryChanges); ("CalendarEvent/copy", handleCalendarEventCopy);
     ("CalendarEvent/parse", handleCalendarEventParse);
     ("ParticipantIdentity/get", handleParticipantIdentityGet b); ("ParticipantIdentity/changes", handleParticipantIdentityChanges b);
     ("ParticipantIdentity/set", handleParticipantIdentitySet b order);
     ("CalendarEventNotification/get", handleCalendarEventNotificationGet b);
     ("CalendarEventNotification/changes", handleCalendarEventNotificationChanges b);
     ("CalendarEventNotification/set", handleCalendarEventNotificationSet b order);
     ("CalendarEventNotification/query", handleCalendarEventNotificationQuery b);
     ("CalendarEventNotification/queryChanges", handleCalendarEventNotificationQueryChanges b);
     ("ShareNotification/get", handleShareNotificationGet b); ("ShareNotification/changes", handleShareNotificationChanges b);
     ("ShareNotification/set", handleShareNotificationSet b order); ("ShareNotification/query", handleShareNotificationQuery b order);
     ("ShareNotification/queryChanges", handleShareNotificationQueryChanges b order)].
End Methods.

(** ** What CalendarEvent/set asks of the backend *)

(** Every calendar of the event grants the right. *)
Definition on_calendars {W} (b : CalendarsBackend W) (right : CalendarRights -> bool) (c : Ctx) (ev : CalendarEvent) (w : W) : Prop :=
  forall cid, is_Some (default ∅ (ev_CalendarIDs ev) !! cid) -> granted b right c cid w.
(** The first event that is read with an id. *)
Definition stored_event {W} (b : CalendarsBackend W) (c : Ctx) (id : string) (w : W) : option CalendarEvent :=
  head (fst (fst (snd (rd_Get (kb_Events b) c (Some [id]) w)))).
Definition may_on {W} (b : CalendarsBackend W) (right : CalendarRights -> bool) (c : Ctx) (ev : CalendarEvent) (w : W) : Prop :=
  shared_caller c = false \/ on_calendars b right c ev w.
Definition may_on_stored {W} (b : CalendarsBackend W) (right : CalendarRights -> bool) (c : Ctx) (id : string) (w : W) : Prop :=
  forall ev, stored_event b c id w = Some ev -> may_on b right c ev w.
(** No other event has the uid. *)
Definition fresh_uid {W} (b : CalendarsBackend W) (c : Ctx) (ev : CalendarEvent) (w : W) : Prop :=
  ev_UID ev = EmptyString
  \/ forall ex, ex ∈ fst (fst (snd (rd_Get (kb_Events b) c None w))) -> ev_UID ex <> ev_UID ev.

Section Rights.
Context `{GoRuntime} `{TimeZones} `{AddressText} `{FirstKey} {W : Type}.
Context (b : CalendarsBackend W) (mail : option (MailOps W)) (principals : option (PrincipalsBackend W)).
Context (order : MapOrder) (range : forall A, gmap string A -> list (string * A)).
Context (Req Can : CalendarEvent -> string -> option string) (Rep : CalendarEvent -> string -> string -> option string).

(** [I] survives what the handler may do.  The owner of the account may write
    everything; other users create events in calendars with mayWriteAll only,
    patch an event when all its calendars grant mayWriteAll, or mayRSVP for a
    patch of participation alone, and delete one when they grant mayDelete.  A
    created event has no uid of another event.  Beside this the handler writes
    the schedule status of participants, notifications and mail.  Reading
    leaves the store as it is. *)
Record event_rules (c : Ctx) (I : W -> Prop) : Prop := {
  er_calendars : forall ids w, fst (rd_Get (kb_Calendars b) c ids w) = w;
  er_events : forall ids w, fst (rd_Get (kb_Events b) c ids w) = w;
  er_create : forall ev w, I w -> may_on b kr_MayWriteAll c ev w -> fresh_uid b c ev w -> I (fst (kb_CreateCalendarEvent b c ev w));
  er_update : forall id raw refs w, I w -> may_on_stored b (rsvp_right (only_rsvp raw)) c (base_id id) w ->
    I (fst (kb_UpdateCalendarEvent b c id (ResolvePatchCreationRefs (sanitizeEventPatch order raw) refs) w));
  er_delete : forall id w, I w -> may_on_stored b kr_MayDelete c id w -> I (fst (kb_DeleteCalendarEvent b c id w));
  er_status : forall id patches, status_only patches -> ensures I (fun _ => True) (kb_UpdateCalendarEvent b c id patches);
  er_notify : forall n, ensures I (fun _ => True) (kb_CreateCalendarEventNotification b c n);
  er_mail : forall m, mail = Some m -> mail_rules m c (fun _ => True) I;
  er_principals : exists directory, forall pb, principals = Some pb ->
    ensures I (fun r => r = Ok directory \/ exists e, r = Err e) (pb_GetAll pb c);
}.

Context (Hrange : visits_all range) (c : Ctx) (I : W -> Prop) (rules : event_rules c I) (accountID : string) (send : bool).

Lemma calendar_ids_elem ev cid : cid ∈ calendar_ids range ev <-> is_Some (default ∅ (ev_CalendarIDs ev) !! cid).
Proof.
  unfold calendar_ids. rewrite list_elem_of_fmap. split.
  - intros ([k v] & -> & Hin). rewrite (Hrange _ _) in Hin. apply elem_of_map_to_list in Hin. eauto.
  - intros [v Hv]. exists (cid, v). split; [done|]. rewrite (Hrange _ _). by apply elem_of_map_to_list.
Qed.
Lemma all_right_granted right cids w :
  fst (all_right b right c cids w) = w
  /\ (snd (all_right b right c cids w) = true -> forall cid, cid ∈ cids -> granted b right c cid w).
Proof.
  induction cids as [|cid cids IH]; cbn [all_right]; [split; [done|]; intros _ cid Hc; by apply not_elem_of_nil in Hc|].
  rewrite St_bind_eq. destruct (has_right_granted b right c cid w (er_calendars _ _ rules)) as [-> Hg].
  destruct (snd (has_right b right c cid w)); [|done]. destruct IH as [Hw Ht]. split; [done|].
  intros Hs x [->|Hx]%elem_of_cons; auto.
Qed.
Lemma on_calendars_of right ev w :
  (forall cid, cid ∈ calendar_ids range ev -> granted b right c cid w) -> on_calendars b right c ev w.
Proof. intros Hc cid Hin. by apply Hc, calendar_ids_elem. Qed.

Lemma may_write_to_spec ev w :
  fst (may_write_to b c (calendar_ids range ev) w) = w
  /\ (snd (may_write_to b c (calendar_ids range ev) w) = true -> may_on b kr_MayWriteAll c ev w).
Proof.
  unfold may_write_to, may_on. destruct (shared_caller c); [|auto].
  destruct (all_right_granted kr_MayWriteAll (calendar_ids range ev) w) as [Hw Ht]. split; [done|]. intros Hs. right.
  apply on_calendars_of. auto.
Qed.
Lemma may_patch_spec id patch w :
  fst (may_patch b range c id patch w) = w
  /\ (snd (may_patch b range c id patch w) = true -> may_on_stored b (rsvp_right (only_rsvp patch)) c (base_id id) w).
Proof.
  unfold may_patch, may_on_stored, may_on, stored_event. destruct (shared_caller c); [|auto]. rewrite St_bind_eq.
  rewrite (er_events _ _ rules). destruct (fst (fst _)) as [|ev l]; [done|]. cbn [head].
  destruct (all_right_granted (rsvp_right (only_rsvp patch)) (calendar_ids range ev) w) as [Hw Ht]. split; [done|].
  intros Hs ev' [= <-]. right. apply on_calendars_of. auto.
Qed.
Lemma may_remove_spec id w :
  fst (may_remove b range c (stored_event b c id w) w) = w
  /\ (snd (may_remove b range c (stored_event b c id w) w) = true -> may_on_stored b kr_MayDelete c id w).
Proof.
  unfold may_remove, may_on_stored, may_on. destruct (shared_caller c); [|auto].
  destruct (stored_event b c id w) as [ev|]; [|done].
  destruct (all_right_granted kr_MayDelete (calendar_ids range ev) w) as [Hw Ht]. split; [done|].
  intros Hs ev' [= <-]. right. apply on_calendars_of. auto.
Qed.
Lemma uid_taken_spec ev w :
  fst (uid_taken b c (ev_UID ev) w) = w /\ (snd (uid_taken b c (ev_UID ev) w) = false -> fresh_uid b c ev w).
Proof.
  unfold uid_taken, fresh_uid. destruct (String.eqb_spec (ev_UID ev) EmptyString); [auto|]. rewrite St_bind_eq. cbn [mret St_ret fst snd].
  split; [apply (er_events _ _ rules)|]. intros He. right. intros ex Hex Heq. apply not_true_iff_false in He. apply He.
  apply existsb_exists. exists ex. split; [by apply list_elem_of_In|by apply String.eqb_eq].
Qed.

Lemma notify_keeps type id changed event patch : ensures I (fun _ => True) (notify b range c type id changed event patch).
Proof. unfold notify. eapply ensures_bind; [apply (er_notify _ _ rules)|]. intros r _. by apply ensures_ret. Qed.
Lemma send_requests_keep ev subject organizer :
  ensures I (fun _ => True) (dispatchITIPRequests b mail principals range Req c ev subject organizer).
Proof.
  destruct (er_principals _ _ rules) as [directory Hd].
  eapply ensures_mono; [|apply (requests_keep b mail principals range Hrange Req c I directory Hd ev (fun _ => True))]; try done.
  - apply (er_mail _ _ rules).
  - intros. by apply (er_status _ _ rules).
Qed.
Lemma announce_keeps ev : ensures I (fun _ => True) (announce b mail principals range Req c accountID send ev).
Proof.
  unfold announce. destruct send; [|by apply ensures_ret]. eapply (ensures_bind _ (fun _ => True)).
  - destruct mail eqn:Em; [rewrite <- Em; apply send_requests_keep|by apply ensures_ret].
  - intros ev' _. eapply (ensures_bind _ (fun _ => True)); [|intros [] _; by apply ensures_ret].
    destruct (foreign_event _ _ _ _); [apply notify_keeps|by apply ensures_ret].
Qed.
Lemma announce_update_keeps before ev patch :
  ensures I (fun _ => True) (announce_update b mail principals order range Req Rep c accountID send before ev patch).
Proof.
  unfold announce_update. destruct send; [|by apply ensures_ret]. eapply (ensures_bind _ (fun _ => True)).
  - destruct (_ && _); [apply notify_keeps|by apply ensures_ret].
  - intros [] _. destruct mail as [m|] eqn:Em; [|by apply ensures_ret]. rewrite <- Em.
    eapply (ensures_bind _ (fun _ => True)); [apply (replies_keep mail range Rep c I ev (fun _ => True) (er_mail _ _ rules)); done|].
    intros r _. destruct (snd r); [by apply ensures_ret|].
    eapply ensures_bind; [apply send_requests_keep|]. intros ev' _. by apply ensures_ret.
Qed.
Lemma announce_destroy_keeps id found :
  ensures I (fun _ => True) (announce_destroy b mail principals range Can c accountID send id found).
Proof.
  unfold announce_destroy. destruct found as [ev|]; [|by apply ensures_ret]. eapply (ensures_bind _ (fun _ => True)).
  - destruct (_ && _); [apply notify_keeps|by apply ensures_ret].
  - intros [] _. destruct mail as [m|] eqn:Em; [|by apply ensures_ret]. rewrite <- Em.
    destruct (er_principals _ _ rules) as [directory Hd].
    apply (cancels_keep mail principals range Hrange Can c I directory Hd ev (fun _ => True) (er_mail _ _ rules)). done.
Qed.

Lemma created_calendars user ev : ev_CalendarIDs (with_organizer range user (with_event_defaults ev)) = ev_CalendarIDs ev
  /\ ev_UID (with_organizer range user (with_event_defaults ev)) = ev_UID (with_event_defaults ev).
Proof.
  unfold with_organizer, with_event_defaults. cbv zeta. by repeat case_match.
Qed.

Lemma create_event_keeps cid node w :
  I w -> I (fst (create_event b mail principals order range Req c accountID send cid node w)).
Proof.
  intros Hi. unfold create_event. destruct (send && _); [done|]. destruct (validateCalendarEventMap _ _ _); [done|].
  set (ev := unmarshal _). rewrite St_bind_eq. destruct (may_write_to_spec ev w) as [-> Hmay].
  destruct (snd (may_write_to _ _ _ _)); [|done]. cbn [negb]. rewrite St_bind_eq.
  destruct (uid_taken_spec (with_event_defaults ev) w) as [-> Huid].
  destruct (snd (uid_taken _ _ _ _)); [done|]. rewrite St_bind_eq.
  destruct (created_calendars (account_user c accountID) ev) as [Hcal Hu].
  set (ev' := with_organizer range (account_user c accountID) (with_event_defaults ev)) in *.
  assert (I (fst (kb_CreateCalendarEvent b c ev' w))) as Hc.
  { apply (er_create _ _ rules); [done|..].
    - unfold may_on, on_calendars in *. rewrite Hcal. auto.
    - unfold fresh_uid in *. rewrite Hu. auto. }
  destruct (snd (kb_CreateCalendarEvent b c ev' w)); [|done]. rewrite St_bind_eq. cbn [mret St_ret fst snd]. by apply announce_keeps.
Qed.
Lemma patch_event_keeps id raw refs w :
  I w -> may_on_stored b (rsvp_right (only_rsvp raw)) c (base_id id) w ->
  I (fst (patch_event b mail principals order range Req Rep c accountID send id
            (ResolvePatchCreationRefs (sanitizeEventPatch order raw) refs) w)).
Proof.
  intros Hi Hmay. unfold patch_event. rewrite St_bind_eq.
  assert (fst (event_before b c send id w) = w) as ->.
  { unfold event_before. destruct send; [|done]. rewrite St_bind_eq. apply (er_events _ _ rules). }
  rewrite St_bind_eq. pose proof (er_update _ _ rules id raw refs w Hi Hmay) as Hu.
  destruct (snd (kb_UpdateCalendarEvent _ _ _ _ _)); [|done]. rewrite St_bind_eq. cbn [mret St_ret fst snd]. by apply announce_update_keeps.
Qed.
Lemma update_event_keeps destroys refs acc kv s :
  I (fst s) -> I (fst (fst (update_event b mail principals order range Req Rep c accountID send destroys refs acc kv s))).
Proof.
  intros Hi. destruct kv as [id raw]. unfold update_event. destruct (obj_get _ _); [done|]. rewrite St_bind_eq, back_eq. cbn [fst snd].
  destruct (may_patch_spec (ResolveCreationID id refs) (map_of raw) (fst s)) as [-> Hmay].
  destruct (snd (may_patch _ _ _ _ _ _)); [|done]. cbn [negb]. destruct (check_instance _ _ _); [done|]. destruct (send && _); [done|].
  destruct (validateCalendarEventMap _ _ _); [done|]. rewrite St_bind_eq, back_eq. cbn [mret St_ret fst snd].
  apply patch_event_keeps; auto.
Qed.
Lemma destroy_event_keeps refs acc id s :
  I (fst s) -> I (fst (fst (destroy_event b mail principals range Can c accountID send refs acc id s))).
Proof.
  intros Hi. unfold destroy_event. rewrite St_bind_eq, back_eq. cbn [fst snd]. rewrite (er_events _ _ rules).
  fold (stored_event b c (ResolveCreationID id refs) (fst s)). rewrite St_bind_eq, back_eq. cbn [fst snd].
  destruct (may_remove_spec (ResolveCreationID id refs) (fst s)) as [-> Hmay].
  destruct (snd (may_remove _ _ _ _ _)); [|done]. cbn [negb]. rewrite St_bind_eq, back_eq. cbn [fst snd].
  pose proof (er_delete _ _ rules _ (fst s) Hi (Hmay eq_refl)) as Hd.
  destruct (snd (kb_DeleteCalendarEvent _ _ _ _)) as [[]|]; [|done..]. rewrite St_bind_eq, back_eq. cbn [mret St_ret fst snd].
  by apply announce_destroy_keeps.
Qed.
End Rights.

(** C6: CalendarEvent/set keeps within the rights of its caller.  Whatever
    property of the store survives creates of an event with a fresh uid in
    calendars that the caller owns or has mayWriteAll on, patches of an event
    on whose calendars it has mayWriteAll (or mayRSVP, for a patch of the
    participation alone), deletes of an event on whose calendars it has
    mayDelete, and the server's own writes of schedule status, notifications
    and mail, survives every request: the handler asks for nothing else. *)
Theorem event_set_respects_rights `{GoRuntime} `{TimeZones} `{AddressText} `{FirstKey} {W} (b : CalendarsBackend W) mail principals order
    range Req Can Rep c args refs (I : W -> Prop) w :
  visits_all range -> event_rules b mail principals order c I -> I w ->
  I (fst (fst (handleCalendarEventSet b mail principals order range Req Can Rep c args (w, refs)))).
Proof.
  intros Hrange Hr Hi. unfold handleCalendarEventSet. rewrite St_bind_eq. cbn [gets fst snd]. destruct (state_mismatch _ _ _); [done|].
  rewrite St_bind_eq. unfold new_refs. cbn [gets fst snd]. rewrite St_bind_eq.
  pose proof (run_creates_world order (create_event b mail principals order range Req c (str_or_empty args "accountId")
    (bool_or_false args "sendSchedulingMessages")) I args (NewSetCreationRefs refs) (w, refs)) as Hc.
  destruct (run_creates _ _ _ _ _) as [s1 [[refs1 created] notCreated]]. cbn [fst snd] in *.
  rewrite !St_bind_eq. cbn [gets fst snd mret St_ret].
  apply (range_strings_inv _ _ _ (fun s : HState W => I (fst s))); [intros; by apply (destroy_event_keeps _ _ _ order)|].
  apply (range_obj_inv _ _ _ _ (fun s : HState W => I (fst s))); [intros; by apply update_event_keeps|].
  apply Hc; [|done]. intros; by apply create_event_keeps.
Qed.

(** ** Durations, written and read *)

Lemma dur_part n c unit rest total inTime :
  0 <= n -> 0 <= total -> 0 < unit -> total + n * unit < 2 ^ 63 ->
  (forall st, du_inTime st = inTime -> dur_step st c = Some (dur_flush unit st)) ->
  dur_loop (part_of n (String c EmptyString) +:+ rest) (mkDur total 0 inTime) = dur_loop rest (mkDur (total + n * unit) 0 inTime).
Proof.
  intros Hn Ht Hu Hs Hc. unfold part_of. destruct (Z.ltb_spec 0 n) as [Hp|Hp].
  - rewrite append_assoc. by apply dur_unit.
  - assert (n = 0) as -> by lia. change (EmptyString +:+ rest) with rest. by rewrite Z.mul_0_l, Z.add_0_r.
Qed.
Lemma part_of_graphic n u : 0 <= n -> str_forallb graphic u = true -> str_forallb graphic (part_of n u) = true.
Proof. intros Hn Hu. unfold part_of. destruct (0 <? n); [|done]. by rewrite str_forallb_app, fmt_d_graphic, Hu. Qed.
Lemma parse_graphic s : str_forallb graphic s = true -> ParseISODuration ("P" +:+ s) = du_total <$> dur_loop s (mkDur 0 0 false).
Proof. intros Hs. unfold ParseISODuration. by rewrite TrimSpace_graphic. Qed.

(** The parts of a number of seconds. *)
Lemma duration_parts n : 0 <= n ->
  0 <= n / 86400 /\ 0 <= n mod 86400 / 3600 /\ 0 <= n mod 3600 / 60 /\ 0 <= n mod 60
  /\ n = n / 86400 * 86400 + n mod 86400 / 3600 * 3600 + n mod 3600 / 60 * 60 + n mod 60.
Proof. intros Hn. Z.to_euclidean_division_equations. lia. Qed.

(** C29: What [formatISODuration] writes, [ParseISODuration] reads: the duration of a
    positive number of seconds comes back for every duration that fits the
    nanosecond counter. *)
Theorem duration_written_and_read n :
  0 < n -> n * second < 2 ^ 63 -> ParseISODuration (formatISODuration (n * second)) = Some (n * second).
Proof.
  intros Hn Hmax. unfold formatISODuration. destruct (Z.eqb_spec (n * second) 0); [unfold second in *; lia|]. cbv zeta.
  assert (whole_seconds (n * second) = n) as ->.
  { unfold whole_seconds. rewrite Z.mod_mul by done. by rewrite Z.div_mul by done. }
  destruct (duration_parts n) as (Hd & Hh & Hm & Hs & Hsum); [lia|].
  set (d := n / 86400) in *. set (h := n mod 86400 / 3600) in *. set (m := n mod 3600 / 60) in *. set (s := n mod 60) in *.
  clearbody d h m s. destruct ((0 <? d) && (h =? 0) && (m =? 0) && (s =? 0)) eqn:Ed.
  - bool_props. assert (n = d * 86400) as -> by lia. unfold second in *. destruct (Z.eqb_spec (d mod 7) 0) as [Ew|Ew].
    + assert (d = d / 7 * 7) as Hw by (Z.to_euclidean_division_equations; lia). assert (0 <= d / 7) by (apply Z.div_pos; lia).
      rewrite parse_graphic by (by rewrite str_forallb_app, fmt_d_graphic).
      rewrite (dur_unit (d / 7) _ (7 * 24 * hour)); [|unfold hour, second; lia..|by intros [? ? []]]. simpl. unfold hour, second. f_equal. lia.
    + rewrite parse_graphic by (by rewrite str_forallb_app, fmt_d_graphic).
      rewrite (dur_unit d _ (24 * hour)); [|unfold hour, second; lia..|by intros [? ? []]]. simpl. unfold hour, second. f_equal. lia.
  - unfold second in *. clear Ed. rewrite parse_graphic.
    2:{ rewrite str_forallb_app, part_of_graphic by done. case_match; [|done].
        by rewrite !str_forallb_app, !part_of_graphic by done. }
    rewrite (dur_part d _ (24 * hour)); [|unfold hour, second; lia..|by intros [? ? []]].
    destruct ((0 <? h) || (0 <? m) || (0 <? s)) eqn:Et.
    + change ("T" +:+ ?t) with (String "T" t). rewrite dur_time.
      rewrite (dur_part h _ hour); [|unfold hour, second; lia..|by intros [? ? []]].
      rewrite (dur_part m _ (60 * second)); [|unfold hour, second; lia..|by intros [? ? []]].
      rewrite <- (append_nil_r (part_of s "S")).
      rewrite (dur_part s _ second); [|unfold hour, second; lia..|by intros [? ? []]]. simpl. unfold hour, second. f_equal. lia.
    + bool_props. simpl. unfold hour, second. f_equal. lia.
Qed.

Lemma duration_written_and_read_witness : ParseISODuration (formatISODuration (95400 * second)) = Some (95400 * second).
Proof. apply (duration_written_and_read 95400); vm_compute; reflexivity. Defined.

(** ** Filters *)

(** A condition: known properties, and dates that are dates in the range of
    the capability. *)
Definition good_condition_member `{GoRuntime} `{TimeZones} (cap : CalendarsCapability) (loc : Location) (k : string) (v : json) : Prop :=
  k ∈ calendarEventFilterConditions
  /\ (k ∈ ["before"; "after"; "updatedBefore"; "updatedAfter"] -> forall s, v = JStr s -> s <> EmptyString ->
      exists t, ParseLocalDateTimeBound s loc = Some t /\ out_of_range cap t = None).

Lemma check_condition_ok `{GoRuntime} `{TimeZones} cap loc k v :
  fst (check_condition cap loc (k, v)) = EmptyString <-> good_condition_member cap loc k v.
Proof.
  unfold check_condition, good_condition_member. rewrite <- !str_in_spec.
  destruct (str_in k calendarEventFilterConditions); cbn [negb]; [|split; [done|]; intros [? _]; done].
  destruct (str_in k _); [|split; [|done]; intros _; split; [done|]; intros ?; done].
  destruct v as [| | |s| |]; try (split; [|done]; intros _; split; [done|]; intros _ s' Hs'; done).
  destruct (String.eqb_spec s EmptyString) as [->|Hne].
  { split; [|done]. intros _. split; [done|]. intros _ s' [= <-] Hs'. done. }
  destruct (ParseLocalDateTimeBound s loc) as [t|] eqn:Et.
  - destruct (out_of_range cap t) eqn:Eo; cbn [fst]; (split; [try done|]).
    + intros [_ Hd]. destruct (Hd eq_refl s eq_refl Hne) as (t' & Ht & Ho). congruence.
    + intros _. split; [done|]. intros _ s' [= <-] _. eauto.
    + done.
  - split; [done|]. intros [_ Hd]. destruct (Hd eq_refl s eq_refl Hne) as (t' & Ht & _). congruence.
Qed.

(** An event filter passes exactly when its operators have conditions and every
    condition is good, at any depth and for every order of the members. *)
Theorem event_filter_accepted `{GoRuntime} `{TimeZones} order f cap loc : fair order ->
  fst (validateCalendarEventFilter order (Some f) cap loc) = EmptyString
  <-> good_filter (fun f => forall k v, (k, v) ∈ f -> good_condition_member cap loc k v) f.
Proof.
  intros [_ Hr]. unfold validateCalendarEventFilter. rewrite walk_filter_ok by done. apply good_filter_iff. clear f. intros f.
  unfold event_condition. rewrite first_answer_ok. setoid_rewrite list_elem_of_fmap. split.
  - intros Hall k v Hin. apply check_condition_ok, Hall. exists (k, v). split; [done|]. by rewrite (Hr f).
  - intros Hall e ([k v] & -> & Hin). rewrite (Hr f) in Hin. by apply check_condition_ok, Hall.
Qed.

(** ** Examples and departures *)

Definition team_event (cids : list string) : CalendarEvent :=
  set_ev_CalendarIDs (Some (list_to_map (map (fun c => (c, true)) cids)))
    (meeting (H := ascii_runtime) (H0 := demo_first)
       [("o", attendee "ann@home" ["owner"]); ("b", attendee "bob@home" ["attendee"]); ("c", attendee "carl@home" ["attendee"])]).
Definition demo_event_set (cals : list Calendar) (events : list CalendarEvent) (c : Ctx) (args : obj) : HState Log * (string * obj) :=
  handleCalendarEventSet (H := ascii_runtime) (H0 := demo_zones) (H1 := demo_addresses) (H2 := demo_first)
    (log_calendars (H := ascii_runtime) (H0 := demo_first) cals events) (Some log_mail) None in_order demo_range
    (fun _ _ => Some "BEGIN:VCALENDAR") (fun _ _ => Some "BEGIN:VCALENDAR") (fun _ _ _ => Some "BEGIN:VCALENDAR") c args ([], None).
Definition failure (resp : obj) (map id : string) : option string :=
  get_str (default [] (get_obj (default [] (get_obj resp map)) id)) "type".

(** The event of the shared calendar is not deleted. *)
Definition e1_kept (w : Log) : Prop := Forall (fun e => fst e <> "delete e1") w.
Lemma e1_kept_app w e : e1_kept w -> fst e <> "delete e1" -> e1_kept (w ++ [e]).
Proof. intros Hw He. apply Forall_app. split; [done|]. by apply Forall_singleton. Qed.
Lemma log_event_rules :
  event_rules (log_calendars (H := ascii_runtime) (H0 := demo_first) [shared_calendar] [team_event ["ro"]])
    (Some log_mail) None in_order sharee e1_kept.
Proof.
  split; try done.
  - intros ev w Hw _ _. by apply e1_kept_app.
  - intros id raw refs w Hw _. by apply e1_kept_app.
  - intros id w Hw Hmay. apply e1_kept_app; [done|]. cbn [fst]. intros E.
    assert (id = "e1") as -> by (change ("delete " +:+ id = "delete e1") in E; simplify_eq/=; congruence).
    destruct (Hmay (team_event ["ro"]) eq_refl) as [Hs|Hc]; [discriminate Hs|].
    destruct (Hc "ro") as (cal & Hcal & Hr); [by eexists|]. injection Hcal as <-. discriminate Hr.
  - intros id patches _ w Hw. split; [by apply e1_kept_app|done].
  - intros n w Hw. split; [by apply e1_kept_app|done].
  - intros m [= <-]. split; try done. intros saved from to _ w Hw. split; [by apply e1_kept_app|done].
  - by exists [].
Qed.

Lemma event_set_respects_rights_witness :
  e1_kept (fst (fst (demo_event_set [shared_calendar] [team_event ["ro"]] sharee [("destroy", JArr [JStr "e1"])]))).
Proof.
  apply (event_set_respects_rights (H := ascii_runtime) (H0 := demo_zones) (H1 := demo_addresses) (H2 := demo_first)
    (log_calendars (H := ascii_runtime) (H0 := demo_first) [shared_calendar] [team_event ["ro"]]) (Some log_mail) None in_order demo_range
    (fun _ _ => Some "BEGIN:VCALENDAR") (fun _ _ => Some "BEGIN:VCALENDAR") (fun _ _ _ => Some "BEGIN:VCALENDAR") sharee
    [("destroy", JArr [JStr "e1"])] None e1_kept [] demo_range_all log_event_rules).
  by apply Forall_nil.
Defined.

(** An attendee who destroys the event in the own account sends cancellations
    to everybody but the organizer, though the request does not ask for
    scheduling messages. *)
Theorem destroy_cancels_unasked :
  let '(s, (_, resp)) := demo_event_set [] [team_event ["c1"]] (ContextWithSubject Background "bob@home") [("destroy", JArr [JStr "e1"])] in
  fst s = [("delete e1", JNull); ("mail", jstrs ["carl@home"]); ("mail", jstrs ["bob@home"])].
Proof. vm_compute. reflexivity. Qed.

(** What CalendarEvent/set refuses to a user without rights, CalendarEvent/copy
    does; and an event that names no calendar is created without a check. *)
Theorem sharee_creates_events :
  let titled cids := [("title", JStr "Mine"); ("calendarIds", JObj cids)] in
  let set m := demo_event_set [shared_calendar] [team_event ["ro"]] sharee [("create", JObj [("k", JObj m)])] in
  let refused := set (titled [("ro", JBool true)]) in
  let unnamed := set [("title", JStr "Mine")] in
  let copied := handleCalendarEventCopy (H := ascii_runtime) (H2 := demo_first)
                  (log_calendars (H := ascii_runtime) (H0 := demo_first) [shared_calendar] [team_event ["ro"]]) in_order sharee
                  [("create", JObj [("k", JObj [("id", JStr "e1"); ("title", JStr "Mine")])])] ([], None) in
  (fst (fst refused), failure (snd (snd refused)) "notCreated" "k") = ([], Some "forbidden")
  /\ map fst (fst (fst unnamed)) = ["create"]
  /\ map fst (fst (fst copied)) = ["create"].
Proof. split_and!; vm_compute; reflexivity. Qed.

(** A user with mayWriteAll on one calendar moves its event to another one on
    which it has no rights: the calendars named by the patch are not looked
    at. *)
Theorem patch_moves_to_forbidden_calendar :
  let open := mkCalendar "rw" "Open" None None 0 false true true EmptyString ∅ ∅ EmptyString None FullCalendarRights in
  let patch := [("calendarIds", JObj [("ro", JBool true)])] in
  fst (fst (demo_event_set [open; shared_calendar] [team_event ["rw"]] sharee [("update", JObj [("e1", JObj patch)])]))
  = [("update e1", JObj patch)].
Proof. vm_compute. reflexivity. Qed.

(** An event that is named by its creation id is taken for an instance of a
    series: the calendars of an event created in the same request cannot be
    changed. *)
Theorem creation_reference_is_no_instance :
  let resp := snd (snd (demo_event_set [] [] Background
                [("create", JObj [("k", JObj [("title", JStr "Mine")])]);
                 ("update", JObj [("#k", JObj [("calendarIds", JObj [("c2", JBool true)])])])])) in
  failure resp "notUpdated" "new" = Some "invalidProperties"
  /\ get_str (default [] (get_obj (default [] (get_obj resp "notUpdated")) "new")) "description"
     = Some "This property cannot be modified on a single occurrence.".
Proof. split; vm_compute; reflexivity. Qed.
